(* ===== verification/_CoqProject ===== *)
-Q . S2P
Prelude.v
Base64.v
AuthScope.v
ScopeParse.v
EventModel.v
TaskModel.v
Links.v
Strconv.v
Mentions.v
PubSub.v
McpBridge.v
ScheduleModel.v
Rules.v
Store.v
StoreOps.v
StoreLogic.v
StoreAccounts.v
ApiBase.v
Timeline.v
ShellServer.v
ShellWire.v
ShellRelay.v
ApiTask.v
Evolution.v
Wire.v
ApiAccounts.v
AccountSpec.v
ApiTaskSpec.v
ApiRunner.v
Scheduler.v
ApiSchedule.v
Archiver.v
Pagination.v
StorePages.v
ApiEvents.v
McpTools.v
SignIn.v
Sse.v
OAuthFlow.v
NotifyStream.v
EventRouter.v
Webhooks.v
EventSchemas.v
EventTypes.v
Server.v
HttpMux.v
FrontDoor.v
RpcClient.v
ByteTrie.v
Redact.v
Outbox.v
FileStore.v
EventOutbox.v
Prog.v
TaskLog.v
Workspace.v
GoText.v
ToolLog.v
AgentProcess.v
AgentPrompt.v
AgentCli.v
McpSwap.v
AtomicFile.v
Commands.v
ConfigLoad.v
TaskState.v
Runner.v
RunnerPool.v
RunnerSpec.v
Backend.v
DockerBackend.v
MicrovmBackend.v
MicrovmShim.v
RunnerBoot.v
LogShip.v
DriverLog.v
DriverServer.v
DriverRuns.v
Driver.v
DriverSpec.v
