(* ===== verification/Prelude.v ===== *)
(** * Gritz: a verification development

    Gritz runs coding agents on tasks.  A server keeps the tasks of each
    organisation, their event streams and links, and the schedules and routing
    rules that create tasks; runners poll it for commands and run each task in a
    sandbox; a driver inside the sandbox runs the agent and reports its outcome.
    This library models the Go code under [src/internal] as functions, state
    transformers and step relations, and proves what makes it correct.

    ** The parts, and the files that model them

    The server's data ([internal/model], [internal/auth]):
    - [TaskModel]: the task state machine of [model/task.go]; [EventModel],
      [Links], [ScheduleModel], [Rules]: events, links and routing keys,
      schedules, routing rules with [eventrouter/rule.go] and [schema.go];
    - [AuthScope] and [ScopeParse]: the scope engine and the textual form of
      scopes ([auth/authscope], [auth/agentauth]); [Wire]: the conversions between
      the records and the protobuf messages.

    The database ([internal/store] and the SQL of [store/sql/queries]):
    - [Store]: the tables, the transaction discipline and the database monad,
      whose statements fail as a list of faults says; [StoreOps]: one function
      per operation of the store, with its query's meaning; [StoreLogic]: a
      weakest-precondition calculus for handlers; [StorePages] over
      [Pagination] and [Base64]: the keyset-paged listings
      ([x/pagination]); [Timeline] and [Evolution]: what operations do to a
      task's stream and to the tables; [StoreAccounts]: organisations, users
      and keys.

    The server's operations ([internal/server]):
    - [ApiBase], [ApiTask], [ApiRunner], [ApiSchedule], [ApiEvents]: the
      handlers of [apiserver], with [ApiTaskSpec] for the task API's
      specifications; [Scheduler], [Archiver], [EventRouter]: the background
      workers and the router; [PubSub]: the
      notification fan-out; [ShellServer]: the debug-shell rendezvous;
    - [ApiAccounts] and [AccountSpec]: organisations, members, keys, settings and
      sign-in ([apiserver/org.go], [key.go], [github.go], [storeauth.go]);
      [SignIn]: authentication and account links ([auth/apiauth],
      [auth/oauthlink]); [OAuthFlow]: the authorization-code flow of third-party
      clients ([auth/oauthflow]); [Strconv], [Mentions]: the text they read and
      write;
    - [Webhooks]: the GitHub and Jira deliveries ([githubserver],
      [atlassianserver]); [EventSchemas], [EventTypes]: the schemas of their
      events and the test-event API;
    - [McpTools]: the tools of users and agents over the API
      ([server/mcpserver], [runner/agentmcp]);
    - [Server]: all of them as the steps of one system; [HttpMux] and [FrontDoor]:
      how [net/http] routes a request, and the routes with their middleware
      ([server/server.go]).

    The clients of the service:
    - [RpcClient]: the calls of a client, their paths, headers and retries
      ([gritzclient]); [Commands]: the commands that are clients, the configuration
      file, the credential helper and the prebuilt binaries ([command],
      [configfile], [x/gitcredential], [runner/prebuilt]);
      [ConfigLoad]: the workspaces file with its references, and the addresses of a
      shell session ([runner/workspace], [x/expandvar], [shell/url.go]);
      [GoText]: the text and JSON of the standard library that these write.

    What stays connected:
    - [Sse] and [NotifyStream]: the event format, the notification endpoint and
      its client ([x/sse], [server/notifyserver], [gritzclient]); [McpBridge]: the
      mute state of a bridge ([mcpbridge]);
    - [McpSwap]: the upstream of an MCP adapter, its swaps and rotation, and the
      channel notifications ([x/mcpswap], [x/githubmcp], [x/mcpchannel]);
    - [TaskLog]: the reader of a task's log ([gritzclient/logs.go]);
    - [ShellWire] and [ShellRelay]: the framing and both ends of a debug shell,
      and the relay between them ([internal/shell]).

    The runner ([internal/runner], on the host):
    - [Prog]: goroutines as programs of effects, and their logic; [Workspace],
      [TaskState]: configuration, records and slots; [Runner]:
      every method of [runner.go]; [RunnerSpec] and [RunnerBoot]: what a poll
      and a boot do; [RunnerPool]: the goroutines of one process, interleaved at
      every effect;
    - [Backend]: the contract of [runner/backend] as a class with laws;
      [DockerBackend] ([backend/docker], [x/dockerx]) and [MicrovmBackend]
      ([backend/lambdamicrovm]) keep it; [MicrovmShim]: the process inside a
      microVM that runs the driver and tells its exit ([runner/microvmshim]),
      the hooks that reach it ([x/awsmicrovm]) and the files they write;
    - [Outbox], [FileStore], [EventOutbox]: the durable queue that carries
      lifecycle events to the server ([x/outbox], [runner/eventoutbox.go]);
      [AtomicFile]: the file writes of the stores ([x/atomicio]).

    The driver ([internal/runner/agent], [driverserver], in the sandbox):
    - [Driver] and [DriverSpec]: one run, and what any number of them amount to;
      [DriverServer], [DriverRuns]: the service that starts runs and
      survives its own death; [ByteTrie], [Redact], [LogShip]: secret masking and
      log shipping; [DriverLog]: the log file and its tees;
    - [AgentPrompt]: the prompt an agent is given; [AgentCli]: the agents, one per
      command-line tool; [AgentProcess]: running a tool and reading its output;
      [ToolLog]: the summaries of its tool calls.

    ** How the pieces meet

    The server's handlers are computations of the monad of [Store] over one
    [World] (tables, faults, notifications, clock); [Server.serve] dispatches to
    them.  The runner's and driver's methods are programs of [Prog] whose effects
    name the calls they make.  Components are proved against interfaces:
    [Outbox] against a durable FIFO that [FileStore] implements, [Pagination]
    against [Keyset] sources that [StorePages] provides, the runner
    against the [BackendLaws] that [DockerBackend] and [MicrovmBackend] discharge;
    [DriverSpec] runs the driver against the pages that the server's own handler
    serves ([ApiEvents.served_page]), [EventOutbox] the outbox's engine against the
    server's world, and [FrontDoor] adds to the requests the one write that no
    request makes, the end of a debug-shell session.  Third-party code is a parameter: JSON codecs
    ([TokenJSON], [RunRecordJSON], ...), the cron parser ([Cron]), [url.Parse].

    ** What the theorems show

    - Server: requests stay within the caller's organisation and every reachable
      state is well formed, each task's history being a path of its state machine
      ([Server]); the state machine settles, ignores superseded runs
      ([TaskModel]); a batch of runner events is applied in order up to the first
      failure ([ApiRunner]); a schedule fires exactly once per occurrence
      ([Scheduler]); the archiver re-checks ([Archiver]); routing follows the
      first matching rule, wakes or creates ([EventRouter]); page walks visit
      everything once ([Pagination]); task tokens are confined ([AuthScope],
      [ApiEvents]).
    - Accounts and ingress: account requests change only what their caller owns
      or acts for ([AccountSpec]); tokens are for members of the org they name
      and a key works from its creation to its deletion ([SignIn]); a user who
      signed in always has an org ([Server]); a webhook or a test event moves
      only the orgs it is authenticated for ([Webhooks], [EventTypes]), and the
      schemas offered to rules are those of the events emitted ([EventSchemas]).
      Whatever request the HTTP server is sent changes only what its credentials
      allow, and the end of a shell session only the org that opened it
      ([FrontDoor]).
    - Clients: the authorization-code flow gives tokens only to the holder of a
      code and its verifier ([OAuthFlow]); what a notification client handles is
      what was published to its org, in order ([NotifyStream]); a bridge mutes
      what was last said to be muted ([McpBridge]); the printed log is the
      transcript ([TaskLog]); an agent's tools keep to its task ([McpTools]); what
      crosses the wire both ways comes back ([Wire]); a debug shell's bytes arrive
      in order, and its two connections end together ([ShellRelay]).
    - Delivery: the outbox delivers at least once, in order, across crashes, and
      drains ([Outbox], [FileStore]); together with the server's handler and the
      state machine each event takes effect once on its task, as long as nothing else
      acts on it between an event's deliveries ([EventOutbox]); a file is written
      whole or not at all, whatever the disk has caught up with ([AtomicFile]).
    - Runner: every command of a poll comes to one documented outcome
      ([RunnerSpec]); every record is accounted for at boot ([RunnerBoot]); no
      more sandboxes are supervised than the limit allows or were recorded at boot,
      and none without a slot once the boot is over, in any interleaving
      ([RunnerPool]); a task keeps its sandbox ([Backend]); a wait on a microVM
      answers the exit that its stream carries ([MicrovmBackend]), which is that
      of the run it waits for when the run was started after the exits of all before
      it were published, and is not lost until sixteen more are ([MicrovmShim]); a bundle's files
      are written once and whole ([MicrovmShim]).
    - Driver: no setup command is skipped over any number of interrupted runs and no
      event missed, but for those that had fifty newer ones when the agent was first
      told any, and reports are truthful ([DriverSpec]); a version runs
      once ([DriverRuns]); masking equals masking the whole stream ([Redact]),
      the log is shipped in order ([LogShip]), and every writer's lines reach the file
      and the shipper in the writer's order ([DriverLog]); an agent runs its tool once,
      on the prompt it was given ([AgentCli]).  A swap of an MCP session costs no call
      its answer, if the MCP library keeps its word ([McpSwap]).

    ** Bounds and fuel

    Integers of the code are [Z]; where they can wrap the width is written out
    ([wrap64], [is_int64]).  Fuel appears only in loops over pages and streams:
    [Driver.drain_pages], where [DriverSpec.wake_at_least_once] shows that more
    fuel than the stream has events is never used up, and the walks of
    [Pagination], whose theorems give the number of pages; [TaskLog], where a
    transcript of [N] chunks needs no more than [N + 1]; [NotifyStream.connect]
    and [MicrovmBackend.read_exit], whose fuel is the length of the stream;
    [MicrovmBackend.wait_loop], whose fuel counts its rounds and whose theorem
    holds for any number of them.  The capacity of a pipe and the limit of a scanner
    ([AgentProcess]) are parameters.  Every other recursion is
    structural.  Wall-clock waits (tickers, backoff) are left to
    the scheduler: a step may be taken at any time.

    ** Not modelled

    A commit whose acknowledgement alone is lost: a [Commit] that fails has taken no
    effect.

    The command-line tools that the agents run, the clients of the container daemon
    and of the cloud (third-party libraries and subprocesses), the YAML and MCP
    libraries, flag parsing and the wiring of the long-running commands, the terminal
    and its process, the login library and the web pages, telemetry, generated code
    and mocks.  Handlers take and return the model's records: the messages
    are theirs by the conversions of [Wire]. *)

From stdpp Require Export base tactics list strings pretty gmap sorting.
From Stdlib Require Export ZArith Lia Bool.
From Stdlib Require Import Ascii.

#[export] Set Default Proof Using "Type".
#[export] Set Warnings "-clear-no-such-hyp".
Open Scope Z_scope.

(** The lemmas that automate the common cases of the components. *)
Create HintDb gritz.

(** ** Go scalars *)

(** [int64] values are integers in [-2^63, 2^63); arithmetic wraps. *)
Definition int64_min : Z := - 2 ^ 63.
Definition int64_max : Z := 2 ^ 63 - 1.
Definition wrap64 (z : Z) : Z := (z + 2 ^ 63) mod 2 ^ 64 - 2 ^ 63.
Definition is_int64 (z : Z) : bool := (int64_min <=? z) && (z <=? int64_max).

Lemma wrap64_id z : is_int64 z = true → wrap64 z = z.
Proof.
  unfold is_int64, wrap64, int64_min, int64_max. intros H.
  rewrite Z.mod_small; lia.
Qed.

Lemma wrap64_range z : is_int64 (wrap64 z) = true.
Proof.
  unfold is_int64, wrap64, int64_min, int64_max.
  pose proof (Z.mod_pos_bound (z + 2 ^ 63) (2 ^ 64) ltac:(lia)). lia.
Qed.

(** [x++] on an [int64] never leaves the value it started from. *)
Lemma wrap64_succ_ne z : is_int64 z = true → wrap64 (z + 1) ≠ z.
Proof.
  unfold is_int64, wrap64, int64_min, int64_max. intros H Heq.
  pose proof (Z.div_mod (z + 1 + 2 ^ 63) (2 ^ 64) ltac:(lia)) as Hd.
  pose proof (Z.mod_pos_bound (z + 1 + 2 ^ 63) (2 ^ 64) ltac:(lia)). lia.
Qed.

(** [strconv.FormatInt(v, 10)], [strconv.FormatBool], [fmt.Sprintf("%d")]. *)
Definition FormatInt (z : Z) : string := pretty z.
Definition FormatBool (b : bool) : string := if b then "true" else "false".

#[export] Instance FormatInt_inj : Inj (=) (=) FormatInt.
Proof. unfold FormatInt. apply _. Qed.

#[export] Instance FormatBool_inj : Inj (=) (=) FormatBool.
Proof. intros [] [] H; try done; discriminate H. Qed.

(** [cmp.Or(a, b)] on strings and integers: the first non-zero value. *)
Definition or_string (a b : string) : string := if String.eqb a "" then b else a.
Definition or_int (a b : Z) : Z := if a =? 0 then b else a.

(** ** Go's [strings] and [slices] packages, the functions the code uses *)

(** [strings.HasPrefix(s, p)]. *)
Fixpoint HasPrefix (s p : string) {struct p} : bool :=
  match p, s with
  | EmptyString, _ => true
  | String c p', String d s' => Ascii.eqb c d && HasPrefix s' p'
  | String _ _, EmptyString => false
  end.

(** [strings.Contains(s, sub)]. *)
Fixpoint Contains (s sub : string) : bool :=
  HasPrefix s sub ||
  match s with
  | EmptyString => false
  | String _ s' => Contains s' sub
  end.

(** [strings.Join(elems, sep)]. *)
Fixpoint Join (elems : list string) (sep : string) : string :=
  match elems with
  | [] => ""
  | [e] => e
  | e :: es => e +:+ sep +:+ Join es sep
  end.

(** One hexadecimal digit. *)
Definition hex_digit (n : nat) : ascii :=
  Ascii.ascii_of_nat (if Nat.ltb n 10 then 48 + n else 87 + n).

(** How [strconv.Quote] writes one byte: ASCII exactly; the bytes of other
    characters stand for themselves, which they do when the text is valid UTF-8
    and printable. *)
Definition quote_byte (c : ascii) : string :=
  let n := Ascii.nat_of_ascii c in
  let escaped d := String (Ascii.ascii_of_nat 92) (String d "") in
  if Nat.eqb n 34 || Nat.eqb n 92 then escaped c
  else match n with
       | 7 => escaped "a"%char | 8 => escaped "b"%char | 9 => escaped "t"%char
       | 10 => escaped "n"%char | 11 => escaped "v"%char | 12 => escaped "f"%char
       | 13 => escaped "r"%char
       | _ => if Nat.ltb n 32 || Nat.eqb n 127
              then escaped "x"%char +:+ String (hex_digit (n / 16)) (String (hex_digit (n mod 16)) "")
              else String c ""
       end%nat.

Fixpoint quote_bytes (s : string) : string :=
  match s with EmptyString => "" | String c s => quote_byte c +:+ quote_bytes s end.

(** [%q] and [strconv.Quote]. *)
Definition quoted (s : string) : string :=
  let quote := String (Ascii.ascii_of_nat 34) "" in
  quote +:+ quote_bytes s +:+ quote.

(** [slices.Contains(l, s)] on strings. *)
Definition contains_string (l : list string) (s : string) : bool :=
  existsb (String.eqb s) l.

Lemma contains_string_spec l s : contains_string l s = true ↔ s ∈ l.
Proof.
  unfold contains_string. rewrite existsb_exists. setoid_rewrite String.eqb_eq.
  setoid_rewrite <- list_elem_of_In. split; [intros (? & ? & ->); done | eauto].
Qed.

Lemma length_str_app a b : String.length (a +:+ b) = (String.length a + String.length b)%nat.
Proof. induction a as [|c a IH]; [done|]. simpl. by rewrite <- IH. Qed.

Lemma str_app_assoc (a b c : string) : (a +:+ b) +:+ c = a +:+ (b +:+ c).
Proof. induction a as [|x a IH]; [done|]. exact (f_equal (String x) IH). Qed.

Lemma str_app_nil_r (s : string) : s +:+ "" = s.
Proof. induction s as [|c s IH]; [done|]. exact (f_equal (String c) IH). Qed.

Lemma HasPrefix_spec s p : HasPrefix s p = true ↔ ∃ t, s = p +:+ t.
Proof.
  revert s. induction p as [|c p IH]; intros s; simpl.
  - split; [by exists s | done].
  - destruct s as [|d s]; simpl.
    + split; [done | intros [t Ht]; done].
    + rewrite andb_true_iff, Ascii.eqb_eq, IH. split.
      * intros [-> [t ->]]. by exists t.
      * intros [t Ht]. injection Ht as -> ->. eauto.
Qed.

Lemma Contains_spec s sub :
  Contains s sub = true ↔ ∃ pre post, s = pre +:+ sub +:+ post.
Proof.
  induction s as [|c s IH]; simpl; rewrite orb_true_iff, HasPrefix_spec.
  - split.
    + intros [[t Ht]|[=]]. by exists "", t.
    + intros (pre & post & H). left. destruct pre; [by exists post | discriminate].
  - rewrite IH. split.
    + intros [[t Ht]|(pre & post & ->)]; [by exists "", t|].
      by exists (String c pre), post.
    + intros (pre & post & H). destruct pre as [|d pre].
      * left. by exists post.
      * injection H as -> ->. right. by exists pre, post.
Qed.

(** ** Lists *)

Lemma filter_all {A} (P : A → Prop) `{!∀ y, Decision (P y)} (l : list A) :
  Forall P l → filter P l = l.
Proof.
  induction 1 as [|x l Hx _ IH]; [done|]. by rewrite filter_cons_True, IH.
Qed.

(** ** Sorted lists *)

Lemma StronglySorted_snoc (l : list Z) x :
  StronglySorted Z.lt l → (∀ y, y ∈ l → y < x) → StronglySorted Z.lt (l ++ [x]).
Proof.
  induction 1 as [|y l Hs IH Hall]; intros Hx; simpl; [repeat constructor|].
  constructor; [apply IH; intros; apply Hx; by right|]. apply Forall_app. split; [done|].
  constructor; [apply Hx; by left|done].
Qed.
