(* ===== verification/Base64.v ===== *)
(** * URL-safe base64

    The encoding [internal/x/pagination/pagination.go] wraps its page tokens
    in: [base64.URLEncoding.EncodeToString] and [DecodeString] of the standard
    library, with padding, over strings of bytes. *)

From S2P Require Import Prelude.
From Stdlib Require Import Ascii.

Definition byte_of (c : ascii) : Z := Z.of_N (N_of_ascii c).
Definition of_byte (z : Z) : ascii := ascii_of_N (Z.to_N z).

Definition pad : ascii := "="%char.

(** The alphabet [A-Za-z0-9-_]. *)
Definition digit (n : Z) : ascii :=
  of_byte (if n <? 26 then 65 + n else if n <? 52 then 71 + n
           else if n <? 62 then n - 4 else if n =? 62 then 45 else 95).

Definition undigit (c : ascii) : option Z :=
  let b := byte_of c in
  if (65 <=? b) && (b <=? 90) then Some (b - 65)
  else if (97 <=? b) && (b <=? 122) then Some (b - 71)
  else if (48 <=? b) && (b <=? 57) then Some (b + 4)
  else if b =? 45 then Some 62 else if b =? 95 then Some 63 else None.

Fixpoint EncodeToString (s : string) : string :=
  match s with
  | String a (String b (String c rest)) =>
      let v := byte_of a * 65536 + byte_of b * 256 + byte_of c in
      String (digit (v / 262144)) (String (digit (v / 4096 mod 64))
        (String (digit (v / 64 mod 64)) (String (digit (v mod 64)) (EncodeToString rest))))
  | String a (String b EmptyString) =>
      let v := byte_of a * 65536 + byte_of b * 256 in
      String (digit (v / 262144)) (String (digit (v / 4096 mod 64))
        (String (digit (v / 64 mod 64)) (String pad EmptyString)))
  | String a EmptyString =>
      let v := byte_of a * 65536 in
      String (digit (v / 262144)) (String (digit (v / 4096 mod 64))
        (String pad (String pad EmptyString)))
  | EmptyString => EmptyString
  end.

(** The decoder passes over newlines. *)
Fixpoint strip_newlines (s : string) : string :=
  match s with
  | EmptyString => EmptyString
  | String c rest =>
      if (byte_of c =? 10) || (byte_of c =? 13) then strip_newlines rest
      else String c (strip_newlines rest)
  end.

(** Quanta of four characters; padding only ends the last one, and the bits
    it leaves over are not checked. *)
Fixpoint decode_quanta (s : string) : option string :=
  match s with
  | EmptyString => Some EmptyString
  | String c1 (String c2 (String c3 (String c4 rest))) =>
      d1 ← undigit c1; d2 ← undigit c2;
      if Ascii.eqb c3 pad then
        if Ascii.eqb c4 pad && String.eqb rest "" then
          Some (String (of_byte (d1 * 4 + d2 / 16)) EmptyString)
        else None
      else
        d3 ← undigit c3;
        if Ascii.eqb c4 pad then
          if String.eqb rest "" then
            Some (String (of_byte (d1 * 4 + d2 / 16))
                    (String (of_byte ((d2 mod 16) * 16 + d3 / 4)) EmptyString))
          else None
        else
          d4 ← undigit c4;
          out ← decode_quanta rest;
          Some (String (of_byte (d1 * 4 + d2 / 16))
                  (String (of_byte ((d2 mod 16) * 16 + d3 / 4))
                    (String (of_byte ((d3 mod 4) * 64 + d4)) out)))
  | _ => None
  end.

Definition DecodeString (s : string) : option string := decode_quanta (strip_newlines s).

(** ** Round trip *)

Lemma byte_of_range c : 0 ≤ byte_of c < 256.
Proof. unfold byte_of. pose proof (N_ascii_bounded c). lia. Qed.

Lemma of_byte_of c : of_byte (byte_of c) = c.
Proof. unfold of_byte, byte_of. rewrite N2Z.id. apply ascii_N_embedding. Qed.

(** A fact about the 64 digits, checked on each. *)
Definition digit_ok (n : Z) : bool :=
  bool_decide (undigit (digit n) = Some n) && negb (Ascii.eqb (digit n) pad) &&
  negb ((byte_of (digit n) =? 10) || (byte_of (digit n) =? 13)).

Lemma digits_ok n : 0 ≤ n < 64 → digit_ok n = true.
Proof.
  intros Hn. assert (H : forallb digit_ok (seqZ 0 64) = true) by (vm_compute; reflexivity).
  rewrite forallb_forall in H. apply H, list_elem_of_In, elem_of_seqZ. lia.
Qed.

Lemma digit_facts n : 0 ≤ n < 64 →
  undigit (digit n) = Some n ∧ Ascii.eqb (digit n) pad = false ∧
  (byte_of (digit n) =? 10) || (byte_of (digit n) =? 13) = false.
Proof.
  intros Hn%digits_ok. unfold digit_ok in Hn. apply andb_true_iff in Hn as [[H1 H2]%andb_true_iff H3].
  apply bool_decide_eq_true in H1. apply negb_true_iff in H2, H3. auto.
Qed.

Lemma strip_digit n s : 0 ≤ n < 64 →
  strip_newlines (String (digit n) s) = String (digit n) (strip_newlines s).
Proof. intros (_ & _ & H)%digit_facts. cbn [strip_newlines]. by rewrite H. Qed.

Lemma quantum_range v : 0 ≤ v < 16777216 →
  0 ≤ v / 262144 < 64 ∧ 0 ≤ v / 4096 mod 64 < 64 ∧ 0 ≤ v / 64 mod 64 < 64 ∧ 0 ≤ v mod 64 < 64.
Proof.
  intros Hv. repeat split; try (apply Z.mod_pos_bound; lia);
    [apply Z.div_pos; lia | apply Z.div_lt_upper_bound; lia].
Qed.

(** The bytes of a quantum, from its digits. *)
Lemma quantum_bytes a b c : 0 ≤ a < 256 → 0 ≤ b < 256 → 0 ≤ c < 256 →
  let v := a * 65536 + b * 256 + c in
  v / 262144 * 4 + v / 4096 mod 64 / 16 = a ∧
  (v / 4096 mod 64) mod 16 * 16 + v / 64 mod 64 / 4 = b ∧
  (v / 64 mod 64) mod 4 * 64 + v mod 64 = c.
Proof. intros Ha Hb Hc v. subst v. Z.to_euclidean_division_equations. lia. Qed.

Section quantum.
Context (a b c : ascii).
Let v := byte_of a * 65536 + byte_of b * 256 + byte_of c.

Lemma quantum_digits :
  0 ≤ v / 262144 < 64 ∧ 0 ≤ v / 4096 mod 64 < 64 ∧ 0 ≤ v / 64 mod 64 < 64 ∧ 0 ≤ v mod 64 < 64.
Proof.
  apply quantum_range. pose proof (byte_of_range a). pose proof (byte_of_range b).
  pose proof (byte_of_range c). lia.
Qed.

Lemma quantum_first : of_byte (v / 262144 * 4 + v / 4096 mod 64 / 16) = a.
Proof.
  destruct (quantum_bytes _ _ _ (byte_of_range a) (byte_of_range b) (byte_of_range c))
    as (H & _). unfold v. by rewrite H, of_byte_of.
Qed.

Lemma quantum_second : of_byte ((v / 4096 mod 64) mod 16 * 16 + v / 64 mod 64 / 4) = b.
Proof.
  destruct (quantum_bytes _ _ _ (byte_of_range a) (byte_of_range b) (byte_of_range c))
    as (_ & H & _). unfold v. by rewrite H, of_byte_of.
Qed.

Lemma quantum_third : of_byte ((v / 64 mod 64) mod 4 * 64 + v mod 64) = c.
Proof.
  destruct (quantum_bytes _ _ _ (byte_of_range a) (byte_of_range b) (byte_of_range c))
    as (_ & _ & H). unfold v. by rewrite H, of_byte_of.
Qed.
End quantum.

Lemma strip_pad s : strip_newlines (String pad s) = String pad (strip_newlines s).
Proof. done. Qed.

(** One quantum's characters decode to its digits. *)
Ltac digits H :=
  let H1 := fresh in let H2 := fresh in let H3 := fresh in let H4 := fresh in
  destruct H as (H1 & H2 & H3 & H4);
  rewrite ?(strip_digit _ _ H1), ?(strip_digit _ _ H2), ?(strip_digit _ _ H3),
    ?(strip_digit _ _ H4), ?strip_pad;
  cbn [decode_quanta strip_newlines];
  apply digit_facts in H1 as (-> & _), H2 as (-> & _), H3 as (? & ? & _), H4 as (? & ? & _);
  cbn [mbind option_bind];
  repeat match goal with
  | H : Ascii.eqb ?d pad = false |- context [Ascii.eqb ?d pad] => rewrite H; cbn [andb]
  | H : undigit ?d = Some _ |- context [undigit ?d] => rewrite H; cbn [mbind option_bind]
  end.

Lemma DecodeString_EncodeToString : ∀ s, DecodeString (EncodeToString s) = Some s.
Proof.
  unfold DecodeString. fix IH 1. intros [|a [|b [|c rest]]]; [done| | |].
  - pose proof (quantum_digits a "000" "000") as Hq. pose proof (quantum_first a "000" "000") as H1.
    cbn [EncodeToString]. change (byte_of "000") with 0 in *. rewrite !Z.add_0_r in *.
    digits Hq. by rewrite H1.
  - pose proof (quantum_digits a b "000") as Hq. pose proof (quantum_first a b "000") as H1.
    pose proof (quantum_second a b "000") as H2.
    cbn [EncodeToString]. change (byte_of "000") with 0 in *. rewrite !Z.add_0_r in *.
    digits Hq. by rewrite H1, H2.
  - pose proof (quantum_digits a b c) as Hq. cbn [EncodeToString]. digits Hq. rewrite IH. cbn [mbind option_bind]. by rewrite quantum_first, quantum_second, quantum_third.
Qed.

Lemma EncodeToString_nonempty s : s ≠ "" → EncodeToString s ≠ "".
Proof. by destruct s as [|a [|b [|c rest]]]. Qed.
