(* ===== verification/AuthScope.v ===== *)
(** * Scopes: the authorization engine

    Models [internal/auth/authscope/scope.go] and [task.go] (the pattern
    matching engine and the task taxonomy) and [internal/auth/agentauth]
    (the scopes minted into a task token). *)

From S2P Require Import Prelude.

(** ** Data *)

(** A capability pattern.  [Preds] is the Go [map[string]string]; a nil map and
    an empty one behave alike when ranged over. *)
Record Scope := mkScope { Op : list string; Preds : gmap string string }.

Record Attr := mkAttr { AttrName : string; AttrValue : string }.

Definition Scopes := list Scope.

Definition Int64Attr (name : string) (v : Z) : Attr := mkAttr name (FormatInt v).
Definition StringAttr (name v : string) : Attr := mkAttr name v.

(** [New]: the attributes are stored in order, so a repeated name keeps the
    last value. *)
Definition New (op : list string) (attrs : list Attr) : Scope :=
  mkScope op (foldl (λ preds a, <[AttrName a := AttrValue a]> preds) ∅ attrs).

(** ** The matching engine *)

(** The value of the first attribute with the given name. *)
Fixpoint attrValue (attrs : list Attr) (name : string) : option string :=
  match attrs with
  | [] => None
  | a :: rest => if String.eqb (AttrName a) name then Some (AttrValue a)
                 else attrValue rest name
  end.

(** The segment loop of [allowOp], after the length test. *)
Fixpoint segs_match (pat op : list string) : bool :=
  match pat, op with
  | seg :: pat', o :: op' =>
      (String.eqb seg "*" || String.eqb seg o) && segs_match pat' op'
  | _, _ => true
  end.

Definition allowOp1 (s : Scope) (op : list string) : bool :=
  if negb (Nat.eqb (length (Op s)) (length op)) then false
  else segs_match (Op s) op.

Definition pred_ok (attrs : list Attr) (kv : string * string) : bool :=
  match attrValue attrs (fst kv) with
  | Some got => String.eqb got (snd kv)
  | None => false
  end.

Definition allow1 (s : Scope) (op : list string) (attrs : list Attr) : bool :=
  if negb (allowOp1 s op) then false
  else forallb (pred_ok attrs) (map_to_list (Preds s)).

Definition Allow (scopes : Scopes) (op : list string) (attrs : list Attr) : bool :=
  existsb (λ s, allow1 s op attrs) scopes.

Definition AllowOp (scopes : Scopes) (op : list string) : bool :=
  existsb (λ s, allowOp1 s op) scopes.

(** ** The task taxonomy *)

Definition OpTaskRead : list string := ["task"; "read"].
Definition OpTaskWrite : list string := ["task"; "write"].
Definition OpTaskCreate : list string := ["task"; "create"].
Definition OpGitHubTokenCreate : list string := ["github_token"; "create"].
Definition OpTaskTokenCreate : list string := ["task_token"; "create"].
Definition OpEventRead : list string := ["event"; "read"].
Definition OpEventWrite : list string := ["event"; "write"].

Definition OpEventCreate : list string := ["event"; "create"].
Definition OpKeyCreate : list string := ["key"; "create"].
Definition OpKeyRead : list string := ["key"; "read"].
Definition OpKeyWrite : list string := ["key"; "write"].
Definition OpOrgCreate : list string := ["org"; "create"].
Definition OpOrgRead : list string := ["org"; "read"].
Definition OpOrgWrite : list string := ["org"; "write"].
Definition OpOrgDelete : list string := ["org"; "delete"].
Definition OpAccountWrite : list string := ["account"; "write"].
Definition OpWorkspaceRead : list string := ["workspace"; "read"].
Definition OpWorkspaceWrite : list string := ["workspace"; "write"].

Definition AttrTaskID : string := "task.id".
Definition AttrTaskWorkspace : string := "task.workspace".
Definition AttrTaskRunner : string := "task.runner".
Definition AttrTaskArchived : string := "task.archived".

Definition WithTaskID (id : Z) : Attr := Int64Attr AttrTaskID id.
Definition WithTaskWorkspace (workspace : string) : Attr :=
  StringAttr AttrTaskWorkspace workspace.
Definition WithTaskRunner (runner : string) : Attr := StringAttr AttrTaskRunner runner.
Definition WithTaskArchived (archived : bool) : Attr :=
  StringAttr AttrTaskArchived (FormatBool archived).

(** [Admin()]: the single scope [*.*], which [Parse] reads as two wildcard
    segments and no predicates. *)
Definition Admin : Scopes := [mkScope ["*"; "*"] ∅].

(** ** Task tokens ([agentauth]) *)

Definition CapabilityGitHubToken : string := "github_token".

Definition ValidCapability (capability : string) : bool :=
  String.eqb capability CapabilityGitHubToken.

Record ScopeOptions := mkScopeOptions { soTaskID : Z; soCapabilities : list string }.

Definition AgentScopes (opts : ScopeOptions) : Scopes :=
  [ New OpTaskRead [WithTaskID (soTaskID opts); WithTaskArchived false];
    New OpTaskWrite [WithTaskID (soTaskID opts); WithTaskArchived false] ] ++
  (if contains_string (soCapabilities opts) CapabilityGitHubToken
   then [New OpGitHubTokenCreate []] else []).

(** ** Lemmas *)

(** What a pattern segment list covers. *)
Definition covers (pat op : list string) : Prop :=
  Forall2 (λ seg o, seg = "*" ∨ seg = o) pat op.

Lemma segs_match_spec pat op :
  length pat = length op → segs_match pat op = true ↔ covers pat op.
Proof.
  unfold covers. revert op. induction pat as [|seg pat IH]; intros [|o op] Hl; try done.
  simpl. rewrite andb_true_iff, orb_true_iff, !String.eqb_eq, Forall2_cons.
  rewrite IH; [done | by injection Hl].
Qed.

Lemma allowOp1_spec s op : allowOp1 s op = true ↔ covers (Op s) op.
Proof.
  unfold allowOp1. destruct (Nat.eqb_spec (length (Op s)) (length op)) as [Hl|Hl]; simpl.
  - by apply segs_match_spec.
  - split; [done | intros H; by apply Forall2_length in H].
Qed.

Lemma pred_ok_spec attrs k v : pred_ok attrs (k, v) = true ↔ attrValue attrs k = Some v.
Proof.
  unfold pred_ok; simpl. destruct (attrValue attrs k); [rewrite String.eqb_eq|];
    split; congruence.
Qed.

Lemma allow1_spec s op attrs :
  allow1 s op attrs = true ↔
  covers (Op s) op ∧ ∀ k v, Preds s !! k = Some v → attrValue attrs k = Some v.
Proof.
  unfold allow1. rewrite <- allowOp1_spec.
  destruct (allowOp1 s op); simpl; [|naive_solver].
  rewrite forallb_forall. split.
  - intros H. split; [done|]. intros k v Hk.
    apply pred_ok_spec, H, list_elem_of_In, elem_of_map_to_list, Hk.
  - intros [_ H] [k v] Hin. apply pred_ok_spec, H.
    by apply elem_of_map_to_list, list_elem_of_In.
Qed.

Lemma Allow_elem scopes op attrs :
  Allow scopes op attrs = true ↔ ∃ s, s ∈ scopes ∧ allow1 s op attrs = true.
Proof.
  unfold Allow. rewrite existsb_exists. setoid_rewrite list_elem_of_In. done.
Qed.

Lemma AllowOp_elem scopes op :
  AllowOp scopes op = true ↔ ∃ s, s ∈ scopes ∧ covers (Op s) op.
Proof.
  unfold AllowOp. rewrite existsb_exists. setoid_rewrite allowOp1_spec.
  setoid_rewrite list_elem_of_In. done.
Qed.

Lemma covers_literal pat op : Forall (λ seg, seg ≠ "*") pat → covers pat op ↔ op = pat.
Proof.
  unfold covers. intros Hf. split.
  - induction 1 as [|seg o pat op [-> | ->] _ IH]; inversion Hf; simplify_eq; [done..|].
    f_equal. by apply IH.
  - intros ->. apply Forall2_same_length_lookup. split; [done|].
    intros i x y Hx Hy. simplify_eq. by right.
Qed.

Lemma AllowOp_of_Allow scopes op attrs :
  Allow scopes op attrs = true → AllowOp scopes op = true.
Proof.
  rewrite Allow_elem, AllowOp_elem. intros (s & Hin & Hs).
  apply allow1_spec in Hs as [? _]. eauto.
Qed.

Lemma Allow_cons s scopes op attrs :
  Allow (s :: scopes) op attrs = true ↔
  allow1 s op attrs = true ∨ Allow scopes op attrs = true.
Proof. apply orb_true_iff. Qed.

Lemma Allow_nil op attrs : Allow [] op attrs = true ↔ False.
Proof. done. Qed.

Lemma Allow_app l1 l2 op attrs :
  Allow (l1 ++ l2) op attrs = true ↔ Allow l1 op attrs = true ∨ Allow l2 op attrs = true.
Proof. unfold Allow. by rewrite existsb_app, orb_true_iff. Qed.

(** The attribute list of [Task.ScopeAttr] answers the two keys a task token
    constrains. *)
Lemma attrValue_task id archived :
  let attrs := [WithTaskID id; WithTaskArchived archived] in
  attrValue attrs AttrTaskID = Some (FormatInt id) ∧
  attrValue attrs AttrTaskArchived = Some (FormatBool archived).
Proof. done. Qed.

#[local] Lemma preds_task_token id k v :
  Preds (New OpTaskRead [WithTaskID id; WithTaskArchived false]) !! k = Some v ↔
  (k = AttrTaskID ∧ v = FormatInt id) ∨ (k = AttrTaskArchived ∧ v = "false").
Proof.
  simpl. rewrite lookup_insert_Some, lookup_insert_Some, lookup_empty.
  unfold AttrTaskID, AttrTaskArchived. naive_solver.
Qed.

(** A scope set allows an operation exactly when one held scope covers the
    operation's segments and every predicate of that scope equals the
    request's attribute of the same name; an attribute the request does not
    carry fails the predicate. *)
Theorem Allow_spec (scopes : Scopes) (op : list string) (attrs : list Attr) :
  Allow scopes op attrs = true ↔
  ∃ s, s ∈ scopes ∧
       Forall2 (λ seg o, seg = "*" ∨ seg = o) (Op s) op ∧
       ∀ k v, Preds s !! k = Some v → attrValue attrs k = Some v.
Proof.
  rewrite Allow_elem. by setoid_rewrite allow1_spec.
Qed.

(** Predicates only narrow: a scope with one more predicate never allows a
    request that the scope without it denies. *)
Lemma pred_narrows (s : Scope) (k v : string) (op : list string) (attrs : list Attr) :
  Preds s !! k = None →
  allow1 (mkScope (Op s) (<[k := v]> (Preds s))) op attrs = true →
  allow1 s op attrs = true ∧ attrValue attrs k = Some v.
Proof.
  rewrite !allow1_spec. simpl. intros Hk [Hc Hp]. split.
  - split; [done|]. intros k' v' Hk'. apply Hp.
    rewrite lookup_insert_ne; [done | congruence].
  - apply Hp, lookup_insert_eq.
Qed.

(** What the scopes of a task token allow. *)
Lemma AgentScopes_allows (opts : ScopeOptions) (op : list string) (attrs : list Attr) :
  Allow (AgentScopes opts) op attrs = true ↔
  ((op = OpTaskRead ∨ op = OpTaskWrite) ∧
   attrValue attrs AttrTaskID = Some (FormatInt (soTaskID opts)) ∧
   attrValue attrs AttrTaskArchived = Some "false") ∨
  (op = OpGitHubTokenCreate ∧ CapabilityGitHubToken ∈ soCapabilities opts).
Proof.
  assert (Htok : ∀ o, Forall (λ seg, seg ≠ "*") o →
    allow1 (New o [WithTaskID (soTaskID opts); WithTaskArchived false]) op attrs = true ↔
    op = o ∧ attrValue attrs AttrTaskID = Some (FormatInt (soTaskID opts)) ∧
    attrValue attrs AttrTaskArchived = Some "false").
  { intros o Ho. rewrite allow1_spec. simpl Op. rewrite covers_literal by done.
    split; intros [-> H]; (split; [done|]).
    - split; apply H, preds_task_token; naive_solver.
    - intros k v Hk. apply preds_task_token in Hk. naive_solver. }
  assert (Hgh : allow1 (New OpGitHubTokenCreate []) op attrs = true ↔ op = OpGitHubTokenCreate).
  { rewrite allow1_spec. simpl. rewrite covers_literal by (repeat constructor; done).
    split; [naive_solver | intros ->; split; [done|]]. intros k v Hk.
    by rewrite lookup_empty in Hk. }
  rewrite <- contains_string_spec. unfold AgentScopes. rewrite Allow_app, !Allow_cons.
  rewrite !Htok by (repeat constructor; done).
  destruct (contains_string _ _); rewrite ?Allow_cons, ?Hgh, Allow_nil;
    intuition congruence.
Qed.

(** The authority of a task token, for every operation and request: read
    and write on the token's own task while that task is not archived, and
    [github_token.create] when the workspace has the capability; nothing
    else. *)
Theorem AgentScopes_spec (opts : ScopeOptions) (op : list string) (attrs : list Attr) :
  Allow (AgentScopes opts) op attrs = true ↔
  ((op = OpTaskRead ∨ op = OpTaskWrite) ∧
   attrValue attrs AttrTaskID = Some (FormatInt (soTaskID opts)) ∧
   attrValue attrs AttrTaskArchived = Some "false") ∨
  (op = OpGitHubTokenCreate ∧ CapabilityGitHubToken ∈ soCapabilities opts).
Proof. apply AgentScopes_allows. Qed.
