(* ===== verification/ScopeParse.v ===== *)
(** * The textual form of scopes

    Models [internal/auth/authscope/parse.go]: the wire grammar
    [seg.seg:{predicates}], its parser and its printer, and that they are
    inverse to each other.  [encoding/json] on a [map[string]string] is a class
    with the laws the parser relies on. *)

From S2P Require Import Prelude AuthScope.
From Stdlib Require Import Ascii.

(** ** Go's [strings] package on one-byte separators *)

(** [strings.Cut]. *)
Fixpoint Cut (sep : ascii) (s : string) : string * string * bool :=
  match s with
  | EmptyString => ("", "", false)
  | String c s =>
      if Ascii.eqb c sep then ("", s, true)
      else let '(before, after, found) := Cut sep s in (String c before, after, found)
  end.

(** [strings.Split]. *)
Fixpoint Split (sep : ascii) (s : string) : list string :=
  match s with
  | EmptyString => [""]
  | String c s =>
      if Ascii.eqb c sep then "" :: Split sep s
      else match Split sep s with
           | [] => [String c ""]
           | seg :: segs => String c seg :: segs
           end
  end.

Fixpoint absent (c : ascii) (s : string) : bool :=
  match s with EmptyString => true | String d s => negb (Ascii.eqb d c) && absent c s end.

(** ** JSON *)

(** [json.Marshal] on a map of strings, and [Decoder.Decode] into one: the map
    ([None] for the nil map a JSON [null] leaves) and the unread input. *)
Class MapJSON := {
  Marshal_map : gmap string string → string;
  Decode_map : string → option (option (gmap string string) * string) }.

(** A map whose strings are valid UTF-8 is read back, whatever follows it; and
    what is read is valid UTF-8. *)
Class MapJSONLaws `{MapJSON} (utf8 : string → Prop) := {
  Decode_Marshal m rest : map_Forall (λ k v, utf8 k ∧ utf8 v) m →
    Decode_map (Marshal_map m +:+ rest) = Some (Some m, rest);
  Decode_utf8 s m rest : Decode_map s = Some (Some m, rest) → map_Forall (λ k v, utf8 k ∧ utf8 v) m }.

(** [Decoder.More]: whether the next byte past white space is there and closes
    no array or object. *)
Fixpoint More (rest : string) : bool :=
  match rest with
  | EmptyString => false
  | String c rest =>
      if Ascii.eqb c " " || Ascii.eqb c "009" || Ascii.eqb c "010" || Ascii.eqb c "013"
      then More rest
      else negb (Ascii.eqb c "]") && negb (Ascii.eqb c "}")
  end.

Section parse.
Context {MJ : MapJSON}.

Definition parseOp (opRaw : string) : string + list string :=
  let segs := Split "." opRaw in
  if contains_string segs "" then inl "empty segment" else inr segs.

Definition parsePreds (s : string) : string + gmap string string :=
  match Decode_map s with
  | None => inl "predicates"
  | Some (preds, rest) =>
      if More rest then inl "predicates: trailing data"
      else match preds with
           | None => inl "predicates must be a JSON object"
           | Some preds => inr preds
           end
  end.

Definition Parse (s : string) : string + Scope :=
  let '(opRaw, predRaw, hasPred) := Cut ":" s in
  match parseOp opRaw with
  | inl err => inl err
  | inr op =>
      if negb hasPred then inr (mkScope op ∅)
      else match parsePreds predRaw with
           | inl err => inl err
           | inr preds => inr (mkScope op preds)
           end
  end.

Fixpoint ParseScopes (scopes : list string) : string + Scopes :=
  match scopes with
  | [] => inr []
  | s :: rest =>
      match Parse s with
      | inl err => inl err
      | inr parsed =>
          match ParseScopes rest with
          | inl err => inl err
          | inr set => inr (parsed :: set)
          end
      end
  end.

Definition Scope_String (s : Scope) : string :=
  let path := Join (Op s) "." in
  if Nat.eqb (size (Preds s)) 0 then path else path +:+ ":" +:+ Marshal_map (Preds s).

Definition ValidScope (s : string) : bool :=
  match Parse s with inl _ => false | inr _ => true end.

(** ** Splitting and joining *)

Lemma absent_app c a b : absent c (a +:+ b) = absent c a && absent c b.
Proof. induction a as [|d a IH]; [done|]. simpl. by rewrite <- andb_assoc, <- IH. Qed.

Lemma Cut_absent sep s : absent sep s = true → Cut sep s = (s, "", false).
Proof.
  induction s as [|c s IH]; simpl; [done|]. destruct (Ascii.eqb c sep); [done|].
  intros H. by rewrite IH.
Qed.

Lemma Cut_app sep a b : absent sep a = true → Cut sep (a +:+ String sep b) = (a, b, true).
Proof.
  induction a as [|c a IH]; simpl.
  - intros _. by rewrite Ascii.eqb_refl.
  - destruct (Ascii.eqb c sep); [done|]. intros H. by rewrite IH.
Qed.

Lemma Cut_found sep s a b : Cut sep s = (a, b, true) → s = a +:+ String sep b.
Proof.
  revert a. induction s as [|c s IH]; intros a; simpl; [done|].
  destruct (Ascii.eqb_spec c sep) as [->|_]; [by intros [= <- <-]|].
  destruct (Cut sep s) as [[before after] found]. intros [= <- <- ->].
  exact (f_equal (String c) (IH _ eq_refl)).
Qed.

Lemma Cut_before sep s : absent sep (fst (fst (Cut sep s))) = true.
Proof.
  induction s as [|c s IH]; simpl; [done|]. destruct (Ascii.eqb c sep) eqn:E; [done|].
  destruct (Cut sep s) as [[before after] found]. simpl in *. by rewrite E.
Qed.

Lemma Split_absent sep s : absent sep s = true → Split sep s = [s].
Proof.
  induction s as [|c s IH]; simpl; [done|]. destruct (Ascii.eqb c sep); [done|].
  intros H. by rewrite IH.
Qed.

Lemma Split_app sep a b : absent sep a = true → Split sep (a +:+ String sep b) = a :: Split sep b.
Proof.
  induction a as [|c a IH]; simpl.
  - intros _. by rewrite Ascii.eqb_refl.
  - destruct (Ascii.eqb c sep); [done|]. intros H. by rewrite IH.
Qed.

Lemma Split_Join sep l :
  l ≠ [] → Forall (λ s, absent sep s = true) l → Split sep (Join l (String sep "")) = l.
Proof.
  intros Hne Hl. induction Hl as [|s l Hs Hl IH]; [done|]. destruct l as [|s' l].
  - by apply Split_absent.
  - change (Join (s :: s' :: l) (String sep ""))
      with (s +:+ String sep (Join (s' :: l) (String sep ""))).
    rewrite Split_app by done. by rewrite IH.
Qed.

Lemma Split_nonempty sep s : Split sep s ≠ [].
Proof. destruct s as [|c s]; simpl; [done|]. destruct (Ascii.eqb c sep); [done|]. by destruct (Split sep s). Qed.

(** The segments of a string hold no separator, and nothing the string lacks. *)
Lemma Split_segments sep s : Forall (λ seg, absent sep seg = true) (Split sep s).
Proof.
  induction s as [|c s IH]; simpl; [by repeat constructor|].
  destruct (Ascii.eqb c sep) eqn:E; [by constructor|].
  destruct IH as [|seg segs Hseg Hsegs]; constructor; simpl; rewrite ?E; done.
Qed.

Lemma Split_keeps sep c s :
  absent c s = true → Forall (λ seg, absent c seg = true) (Split sep s).
Proof.
  induction s as [|d s IH]; simpl; [by repeat constructor|].
  intros [Hd Hs]%andb_true_iff. specialize (IH Hs).
  destruct (Ascii.eqb d sep); [by constructor|].
  destruct IH as [|seg segs Hseg Hsegs]; constructor; simpl; rewrite ?Hd; done.
Qed.

Lemma absent_Join c sep l :
  Forall (λ s, absent c s = true) l → absent c sep = true → absent c (Join l sep) = true.
Proof.
  intros Hl Hsep. induction Hl as [|s l Hs Hl IH]; [done|]. destruct l as [|s' l]; [done|].
  change (Join (s :: s' :: l) sep) with (s +:+ sep +:+ Join (s' :: l) sep).
  by rewrite !absent_app, Hs, Hsep, IH.
Qed.

(** ** Round trip *)

Context (utf8 : string → Prop) {ML : MapJSONLaws utf8}.

(** The scopes the grammar can express. *)
Definition scope_wf (s : Scope) : Prop :=
  Op s ≠ [] ∧
  Forall (λ seg, seg ≠ "" ∧ absent "." seg = true ∧ absent ":" seg = true) (Op s) ∧
  map_Forall (λ k v, utf8 k ∧ utf8 v) (Preds s).

Lemma parseOp_Join op :
  op ≠ [] → Forall (λ seg, seg ≠ "" ∧ absent "." seg = true ∧ absent ":" seg = true) op →
  parseOp (Join op ".") = inr op ∧ absent ":" (Join op ".") = true.
Proof.
  intros Hne Hop. unfold parseOp. rewrite Split_Join; [|done|by eapply Forall_impl; [exact Hop|naive_solver]].
  split.
  - destruct (contains_string op "") eqn:E; [|done]. apply contains_string_spec in E.
    eapply Forall_forall in Hop; [|exact E]. naive_solver.
  - apply absent_Join; [by eapply Forall_impl; [exact Hop|naive_solver]|done].
Qed.

(** A printed scope parses, also when the JSON object is followed by anything
    that [More] lets pass. *)
Lemma Parse_String_rest s rest :
  scope_wf s → Preds s ≠ ∅ → More rest = false → Parse (Scope_String s +:+ rest) = inr s.
Proof using ML.
  intros (Hne & Hop & Hp) Hpreds Hmore. destruct s as [op preds]. simpl in *.
  unfold Scope_String. simpl. destruct (Nat.eqb_spec (size preds) 0) as [Hs|_];
    [by apply map_size_empty_inv in Hs|].
  destruct (parseOp_Join op Hne Hop) as [Hparse Habs]. unfold Parse.
  change (":" +:+ Marshal_map preds) with (String ":" (Marshal_map preds)).
  rewrite str_app_assoc.
  change (String ":" (Marshal_map preds) +:+ rest) with (String ":" (Marshal_map preds +:+ rest)).
  rewrite Cut_app, Hparse by done. simpl. unfold parsePreds.
  by rewrite Decode_Marshal, Hmore.
Qed.

Lemma Parse_String s : scope_wf s → Parse (Scope_String s) = inr s.
Proof using ML.
  intros Hwf. destruct (decide (Preds s = ∅)) as [He|Hne].
  - destruct Hwf as (Hne & Hop & _). destruct s as [op preds]. simpl in *. subst preds.
    destruct (parseOp_Join op Hne Hop) as [Hparse Habs].
    unfold Scope_String, Parse. simpl. rewrite map_size_empty. simpl.
    by rewrite Cut_absent, Hparse.
  - rewrite <- (str_app_nil_r (Scope_String s)). by apply Parse_String_rest.
Qed.

Lemma Parse_wf s sc : Parse s = inr sc → scope_wf sc.
Proof using ML.
  unfold Parse. pose proof (Cut_before ":" s) as Hc.
  destruct (Cut ":" s) as [[opRaw predRaw] hasPred]. simpl in Hc. unfold parseOp.
  destruct (contains_string (Split "." opRaw) "") eqn:E; [done|].
  assert (Hop : ∀ preds, map_Forall (λ k v, utf8 k ∧ utf8 v) preds →
    scope_wf (mkScope (Split "." opRaw) preds)).
  { intros preds Hp. split; [apply Split_nonempty|]. split; [|done]. simpl.
    apply Forall_and. split.
    - apply Forall_forall. intros seg Hs ->. apply contains_string_spec in Hs. congruence.
    - apply Forall_and. split; [apply Split_segments|by apply Split_keeps]. }
  destruct hasPred; simpl; [|by intros [= <-]; apply Hop, map_Forall_empty].
  unfold parsePreds. destruct (Decode_map predRaw) as [[[preds|] rest]|] eqn:Ed;
    [|by destruct (More rest)|done].
  destruct (More rest); [done|]. intros [= <-]. apply Hop. by eapply Decode_utf8.
Qed.

Lemma ParseScopes_String scopes :
  Forall scope_wf scopes → ParseScopes (map Scope_String scopes) = inr scopes.
Proof using ML.
  induction 1 as [|s scopes Hs _ IH]; [done|]. simpl. by rewrite Parse_String, IH.
Qed.

Lemma ParseScopes_wf ss scopes : ParseScopes ss = inr scopes → Forall scope_wf scopes.
Proof using ML.
  revert scopes. induction ss as [|s ss IH]; intros scopes; simpl; [by intros [= <-]|].
  destruct (Parse s) as [|sc] eqn:E; [done|]. destruct (ParseScopes ss) as [|set]; [done|].
  intros [= <-]. constructor; [by eapply Parse_wf|by apply IH].
Qed.

(** ** Properties *)

(** C36: printing and parsing are inverse.  Every scope the grammar can express is
    read back from its printed form, what the parser accepts is always such a
    scope, and so scopes read from a token or a key survive any number of
    further round trips, with the same authority. *)
Theorem Parse_roundtrip (scopes : Scopes) (ss : list string) :
  (Forall scope_wf scopes → ParseScopes (map Scope_String scopes) = inr scopes) ∧
  (ParseScopes ss = inr scopes →
   Forall scope_wf scopes ∧
   ParseScopes (map Scope_String scopes) = inr scopes ∧
   ∀ op attrs scopes', ParseScopes (map Scope_String scopes) = inr scopes' →
     Allow scopes' op attrs = Allow scopes op attrs).
Proof using ML.
  split; [apply ParseScopes_String|]. intros Hss.
  pose proof (ParseScopes_wf _ _ Hss) as Hwf. pose proof (ParseScopes_String _ Hwf) as Hr.
  split; [done|]. split; [done|]. rewrite Hr. by intros op attrs scopes' [= <-].
Qed.

(** Input after the predicate object goes unnoticed when it starts with a
    closing brace or bracket: [Decoder.More] is false there. *)
Lemma trailing_brace_accepted (s : Scope) (junk : string) :
  scope_wf s → Preds s ≠ ∅ → ValidScope (Scope_String s +:+ String "}" junk) = true.
Proof using ML. intros Hwf Hne. unfold ValidScope. by rewrite Parse_String_rest. Qed.
End parse.

(** ** A concrete codec

    A map is the sequence of its pairs, each byte of a string marked and each
    string closed. *)

Fixpoint sample_string (s : string) : string :=
  match s with EmptyString => "e" | String c s => String "x" (String c (sample_string s)) end.

Fixpoint sample_unstring (s : string) : option (string * string) :=
  match s with
  | String "x" (String c s) =>
      match sample_unstring s with Some (t, rest) => Some (String c t, rest) | None => None end
  | String "e" s => Some ("", s)
  | _ => None
  end.

Fixpoint sample_pairs (l : list (string * string)) : string :=
  match l with
  | [] => "}"
  | (k, v) :: l => String "p" (sample_string k +:+ (sample_string v +:+ sample_pairs l))
  end.

Fixpoint sample_unpairs (fuel : nat) (s : string) : option (list (string * string) * string) :=
  match fuel with
  | O => None
  | S fuel =>
      match s with
      | String "}" s => Some ([], s)
      | String "p" s =>
          match sample_unstring s with
          | Some (k, s) =>
              match sample_unstring s with
              | Some (v, s) =>
                  match sample_unpairs fuel s with
                  | Some (l, rest) => Some ((k, v) :: l, rest)
                  | None => None
                  end
              | None => None
              end
          | None => None
          end
      | _ => None
      end
  end.

#[global] Instance sample_map_json : MapJSON := {|
  Marshal_map m := sample_pairs (map_to_list m);
  Decode_map s :=
    match sample_unpairs (S (String.length s)) s with
    | Some (l, rest) => Some (Some (list_to_map l), rest)
    | None => None
    end |}.

Lemma sample_unstring_string s rest : sample_unstring (sample_string s +:+ rest) = Some (s, rest).
Proof. induction s as [|c s IH]; [done|]. simpl. by rewrite IH. Qed.

Lemma sample_unpairs_pairs l rest fuel :
  (length l < fuel)%nat → sample_unpairs fuel (sample_pairs l +:+ rest) = Some (l, rest).
Proof.
  revert fuel. induction l as [|[k v] l IH]; intros [|fuel] Hf; simpl in *; try lia; [done|].
  change (String "p" ?s +:+ rest) with (String "p" (s +:+ rest)).
  rewrite !str_app_assoc, sample_unstring_string, sample_unstring_string.
  rewrite IH by lia. done.
Qed.

Lemma sample_pairs_length l : (length l < String.length (sample_pairs l))%nat.
Proof.
  induction l as [|[k v] l IH]; simpl; [lia|].
  rewrite !length_str_app. lia.
Qed.

#[global] Instance sample_map_json_laws : MapJSONLaws (λ _, True).
Proof.
  split.
  - intros m rest _. unfold Decode_map, Marshal_map, sample_map_json. cbv beta iota.
    rewrite sample_unpairs_pairs, list_to_map_to_list; [done|].
    rewrite length_str_app. pose proof (sample_pairs_length (map_to_list m)). simpl. lia.
  - intros s m rest _. by intros k v _.
Qed.

Definition sample_scope : Scope := mkScope ["task"; "read"] {["task" := "7"]}.

Definition sample_text : string := "task.read:" +:+ Marshal_map {["task" := "7"]}.

(** A scope with a predicate, printed and read twice. *)
Lemma Parse_roundtrip_witness :
  ParseScopes (map Scope_String [sample_scope]) = inr [sample_scope] ∧
  (∀ scopes', ParseScopes [sample_text] = inr scopes' →
     Allow scopes' ["task"; "read"] [StringAttr "task" "7"] = true).
Proof.
  pose proof (Parse_roundtrip (λ _, True) [sample_scope] [sample_text]) as [H1 H2].
  split.
  - apply H1. repeat constructor; try done; by vm_compute.
  - destruct H2 as (_ & _ & H2); [vm_compute; reflexivity|]. intros scopes' Hs. rewrite (H2 _ _ scopes').
    + by vm_compute.
    + rewrite <- Hs. by vm_compute.
Defined.
