(* ===== verification/EventModel.v ===== *)
(** * Events: the task event stream's data

    Models [internal/model/event.go]: the sealed set of event payloads, the
    discriminator each is stored under, actors and lifecycle kinds, the
    timeline summary, and the payload filter. *)

From S2P Require Import Prelude.

(** ** Actors and lifecycle kinds *)

Record Actor := mkActor { Actor_Kind : string; Actor_Name : string }.

Definition ActorKindUser : string := "user".
Definition ActorKindRunner : string := "runner".
Definition ActorKindRouter : string := "router".
Definition ActorKindSchedule : string := "schedule".

Definition UserActor (name : string) : Actor := mkActor ActorKindUser name.
Definition RunnerActor : Actor := mkActor ActorKindRunner "".
Definition RouterActor : Actor := mkActor ActorKindRouter "".
Definition ScheduleActor : Actor := mkActor ActorKindSchedule "".

(** The Go type is an [int32]; a value outside the declared constants is
    [LifecycleKindOther]. *)
Inductive LifecycleKind :=
| LifecycleKindUnspecified
| LifecycleKindCreated
| LifecycleKindUpdated
| LifecycleKindCancelled
| LifecycleKindRestarted
| LifecycleKindArchived
| LifecycleKindUnarchived
| LifecycleKindAutoArchived
| LifecycleKindSandboxStarted
| LifecycleKindSandboxExited
| LifecycleKindSandboxFailed
| LifecycleKindOther (n : Z).

(** ** Payloads *)

Record InstructionPayload := mkInstruction { Instruction_Text : string; Instruction_URL : string }.

Record ExternalPayload := mkExternal {
  External_Description : string;
  External_URL : string;
  External_Data : string;
  External_Details : gmap string string;
  External_Source : string;
  External_EventType : string }.

Record ReportPayload := mkReport { Report_Content : string }.

Record LinkPayload := mkLinkPayload {
  LinkPayload_LinkID : Z;
  LinkPayload_Relevance : string;
  LinkPayload_URL : string;
  LinkPayload_Title : string;
  LinkPayload_Subscribe : bool }.

Record LifecyclePayload := mkLifecycle {
  Lifecycle_Kind : LifecycleKind;
  Lifecycle_Actor : Actor;
  Lifecycle_FromStatus : string;
  Lifecycle_ToStatus : string;
  Lifecycle_Message : string;
  Lifecycle_Fields : list string }.

(** [EventPayload]: the sealed interface, one constructor per implementation. *)
Inductive EventPayload :=
| Instruction (p : InstructionPayload)
| External (p : ExternalPayload)
| Report (p : ReportPayload)
| Lifecycle (p : LifecyclePayload)
| LinkP (p : LinkPayload).

Definition EventTypeInstruction : string := "instruction".
Definition EventTypeExternal : string := "external".
Definition EventTypeReport : string := "report".
Definition EventTypeLifecycle : string := "lifecycle".
Definition EventTypeLink : string := "link".

(** [Type()]: the discriminator stored in the [events.type] column. *)
Definition Payload_Type (p : EventPayload) : string :=
  match p with
  | Instruction _ => EventTypeInstruction
  | External _ => EventTypeExternal
  | Report _ => EventTypeReport
  | Lifecycle _ => EventTypeLifecycle
  | LinkP _ => EventTypeLink
  end.

Record Event := mkEvent {
  Event_ID : Z;
  Event_TaskID : Z;
  Event_OrgID : Z;
  Event_Wake : bool;
  Event_Payload : EventPayload;
  Event_CreatedAt : Z }.

Definition set_Event_ID (id : Z) (e : Event) : Event :=
  mkEvent id (Event_TaskID e) (Event_OrgID e) (Event_Wake e) (Event_Payload e) (Event_CreatedAt e).

Definition set_Event_CreatedAt (at_ : Z) (e : Event) : Event :=
  mkEvent (Event_ID e) (Event_TaskID e) (Event_OrgID e) (Event_Wake e) (Event_Payload e) at_.

(** A struct literal with the fields the callers set; the others are zero. *)
Definition newEvent (taskID orgID : Z) (wake : bool) (p : EventPayload) : Event :=
  mkEvent 0 taskID orgID wake p 0.

(** [FilterPayloads]. *)
Definition FilterPayloads (events : list Event) (types : list string) : list EventPayload :=
  omap (λ e, if contains_string types (Payload_Type (Event_Payload e))
             then Some (Event_Payload e) else None) events.

(** [LifecyclePayload.Summary]: the timeline line of a lifecycle event. *)
Definition Summary (p : LifecyclePayload) : string :=
  let s :=
    match Lifecycle_Kind p with
    | LifecycleKindCreated => "Created"
    | LifecycleKindUpdated =>
        if Nat.ltb 0 (length (Lifecycle_Fields p))
        then "Updated" +:+ " " +:+ Join (Lifecycle_Fields p) ", " else "Updated"
    | LifecycleKindCancelled => "Cancelled"
    | LifecycleKindRestarted => "Restarted"
    | LifecycleKindArchived => "Archived"
    | LifecycleKindUnarchived => "Unarchived"
    | LifecycleKindAutoArchived => "Auto-archived"
    | LifecycleKindSandboxStarted => "Sandbox started"
    | LifecycleKindSandboxExited =>
        if negb (String.eqb (Lifecycle_FromStatus p) "") &&
           negb (String.eqb (Lifecycle_ToStatus p) "")
        then "Sandbox exited" +:+ " (" +:+ Lifecycle_FromStatus p +:+ " -> "
               +:+ Lifecycle_ToStatus p +:+ ")"
        else "Sandbox exited"
    | LifecycleKindSandboxFailed =>
        if negb (String.eqb (Lifecycle_Message p) "")
        then "Sandbox failed" +:+ ": " +:+ Lifecycle_Message p else "Sandbox failed"
    | _ => "Lifecycle event"
    end in
  if String.eqb (Actor_Kind (Lifecycle_Actor p)) ActorKindUser &&
     negb (String.eqb (Actor_Name (Lifecycle_Actor p)) "")
  then s +:+ " by " +:+ Actor_Name (Lifecycle_Actor p)
  else if String.eqb (Actor_Kind (Lifecycle_Actor p)) ActorKindRouter
  then s +:+ " by routing rule"
  else s.

Example Summary_exited :
  Summary (mkLifecycle LifecycleKindSandboxExited RunnerActor "Running" "Completed" "" [])
  = "Sandbox exited (Running -> Completed)".
Proof. reflexivity. Qed.
