(* ===== verification/TaskModel.v ===== *)
(** * Tasks: the task record and its state machine

    Models [internal/model/task.go]: statuses, commands, the task record, the
    fold of runner events into a task, and the user-facing transitions
    (archive, unarchive, cancel, restart, start) with their guards. *)

From S2P Require Import Prelude AuthScope EventModel.

(** ** Statuses and commands *)

(** Both Go types are [int32]s with declared constants; a value outside them
    is the last constructor. *)
Inductive TaskStatus :=
| TaskStatusUnspecified
| TaskStatusPending
| TaskStatusRunning
| TaskStatusRestarting
| TaskStatusCancelling
| TaskStatusCompleted
| TaskStatusFailed
| TaskStatusCancelled
| TaskStatusDraft
| TaskStatusOther (n : Z).

Inductive TaskCommand :=
| TaskCommandNone
| TaskCommandRestart
| TaskCommandStop
| TaskCommandStart
| TaskCommandOther (n : Z).

#[export] Instance TaskStatus_eq_dec : EqDecision TaskStatus.
Proof. solve_decision. Defined.
#[export] Instance TaskCommand_eq_dec : EqDecision TaskCommand.
Proof. solve_decision. Defined.

(** The [int32] stored in the [status] and [command] columns. *)
Definition TaskStatus_int (s : TaskStatus) : Z :=
  match s with
  | TaskStatusUnspecified => 0
  | TaskStatusPending => 1
  | TaskStatusRunning => 2
  | TaskStatusRestarting => 3
  | TaskStatusCancelling => 4
  | TaskStatusCompleted => 5
  | TaskStatusFailed => 6
  | TaskStatusCancelled => 7
  | TaskStatusDraft => 8
  | TaskStatusOther n => n
  end.

Definition TaskCommand_int (c : TaskCommand) : Z :=
  match c with
  | TaskCommandNone => 0
  | TaskCommandRestart => 1
  | TaskCommandStop => 2
  | TaskCommandStart => 3
  | TaskCommandOther n => n
  end.

(** The generated [TaskStatus.String]. *)
Definition TaskStatus_String (s : TaskStatus) : string :=
  match s with
  | TaskStatusUnspecified => "Unspecified"
  | TaskStatusPending => "Pending"
  | TaskStatusRunning => "Running"
  | TaskStatusRestarting => "Restarting"
  | TaskStatusCancelling => "Cancelling"
  | TaskStatusCompleted => "Completed"
  | TaskStatusFailed => "Failed"
  | TaskStatusCancelled => "Cancelled"
  | TaskStatusDraft => "Draft"
  | TaskStatusOther n => "TaskStatus(" +:+ FormatInt n +:+ ")"
  end.

Definition Label (s : TaskStatus) : string :=
  match s with TaskStatusUnspecified => "" | _ => TaskStatus_String s end.

Definition IsTerminal (s : TaskStatus) : bool :=
  match s with
  | TaskStatusCompleted | TaskStatusFailed | TaskStatusCancelled => true
  | _ => false
  end.

(** ** The task record *)

(** Instants are microseconds since the Unix epoch (the resolution of the
    store's timestamp columns); [AutoArchive] is a [time.Duration] in
    nanoseconds. *)
Record Task := mkTask {
  Task_ID : Z;
  Task_Name : string;
  Task_Runner : string;
  Task_Workspace : string;
  Task_Status : TaskStatus;
  Task_Command : TaskCommand;
  Task_Version : Z;
  Task_OrgID : Z;
  Task_Archived : bool;
  Task_CreatedAt : Z;
  Task_UpdatedAt : Z;
  Task_Namespace : string;
  Task_AutoArchive : Z;
  Task_ShellSession : string }.

(** Field assignments [t.F = v]. *)
Definition set_ID v t := mkTask v (Task_Name t) (Task_Runner t) (Task_Workspace t)
  (Task_Status t) (Task_Command t) (Task_Version t) (Task_OrgID t) (Task_Archived t)
  (Task_CreatedAt t) (Task_UpdatedAt t) (Task_Namespace t) (Task_AutoArchive t)
  (Task_ShellSession t).
Definition set_Name v t := mkTask (Task_ID t) v (Task_Runner t) (Task_Workspace t)
  (Task_Status t) (Task_Command t) (Task_Version t) (Task_OrgID t) (Task_Archived t)
  (Task_CreatedAt t) (Task_UpdatedAt t) (Task_Namespace t) (Task_AutoArchive t)
  (Task_ShellSession t).
Definition set_Status v t := mkTask (Task_ID t) (Task_Name t) (Task_Runner t)
  (Task_Workspace t) v (Task_Command t) (Task_Version t) (Task_OrgID t) (Task_Archived t)
  (Task_CreatedAt t) (Task_UpdatedAt t) (Task_Namespace t) (Task_AutoArchive t)
  (Task_ShellSession t).
Definition set_Command v t := mkTask (Task_ID t) (Task_Name t) (Task_Runner t)
  (Task_Workspace t) (Task_Status t) v (Task_Version t) (Task_OrgID t) (Task_Archived t)
  (Task_CreatedAt t) (Task_UpdatedAt t) (Task_Namespace t) (Task_AutoArchive t)
  (Task_ShellSession t).
Definition set_Version v t := mkTask (Task_ID t) (Task_Name t) (Task_Runner t)
  (Task_Workspace t) (Task_Status t) (Task_Command t) v (Task_OrgID t) (Task_Archived t)
  (Task_CreatedAt t) (Task_UpdatedAt t) (Task_Namespace t) (Task_AutoArchive t)
  (Task_ShellSession t).
Definition set_Archived v t := mkTask (Task_ID t) (Task_Name t) (Task_Runner t)
  (Task_Workspace t) (Task_Status t) (Task_Command t) (Task_Version t) (Task_OrgID t) v
  (Task_CreatedAt t) (Task_UpdatedAt t) (Task_Namespace t) (Task_AutoArchive t)
  (Task_ShellSession t).
Definition set_Times created updated t := mkTask (Task_ID t) (Task_Name t) (Task_Runner t)
  (Task_Workspace t) (Task_Status t) (Task_Command t) (Task_Version t) (Task_OrgID t)
  (Task_Archived t) created updated (Task_Namespace t) (Task_AutoArchive t)
  (Task_ShellSession t).
Definition set_AutoArchive v t := mkTask (Task_ID t) (Task_Name t) (Task_Runner t)
  (Task_Workspace t) (Task_Status t) (Task_Command t) (Task_Version t) (Task_OrgID t)
  (Task_Archived t) (Task_CreatedAt t) (Task_UpdatedAt t) (Task_Namespace t) v
  (Task_ShellSession t).
Definition set_ShellSession v t := mkTask (Task_ID t) (Task_Name t) (Task_Runner t)
  (Task_Workspace t) (Task_Status t) (Task_Command t) (Task_Version t) (Task_OrgID t)
  (Task_Archived t) (Task_CreatedAt t) (Task_UpdatedAt t) (Task_Namespace t)
  (Task_AutoArchive t) v.

(** [t.Version++]. *)
Definition bump_Version (t : Task) : Task := set_Version (wrap64 (Task_Version t + 1)) t.

(** [ScopeAttr]: the attributes the post-load authorization check sees. *)
Definition ScopeAttr (t : Task) : list Attr :=
  [WithTaskID (Task_ID t); WithTaskArchived (Task_Archived t)].

(** [TaskStatus(n)] and [TaskCommand(n)], the conversions from [int32]. *)
Definition TaskStatus_of_int (n : Z) : TaskStatus :=
  match n with
  | 0 => TaskStatusUnspecified
  | 1 => TaskStatusPending
  | 2 => TaskStatusRunning
  | 3 => TaskStatusRestarting
  | 4 => TaskStatusCancelling
  | 5 => TaskStatusCompleted
  | 6 => TaskStatusFailed
  | 7 => TaskStatusCancelled
  | 8 => TaskStatusDraft
  | _ => TaskStatusOther n
  end.

Definition TaskCommand_of_int (n : Z) : TaskCommand :=
  match n with
  | 0 => TaskCommandNone
  | 1 => TaskCommandRestart
  | 2 => TaskCommandStop
  | 3 => TaskCommandStart
  | _ => TaskCommandOther n
  end.

(** ** Runner events *)

Definition RunnerEventStarted : string := "started".
Definition RunnerEventStopped : string := "stopped".
Definition RunnerEventFailed : string := "failed".

Record RunnerEvent := mkRunnerEvent {
  RE_TaskID : Z;
  RE_Event : string;
  RE_Version : Z;
  RE_Reconcile : bool;
  RE_Reason : string }.

Definition applyRunnerEventStarted (t : Task) : bool * Task :=
  if Task_Archived t
  then (true, set_Command TaskCommandStop (set_Status TaskStatusCancelling t))
  else
    match Task_Status t with
    | TaskStatusPending | TaskStatusRestarting | TaskStatusRunning =>
        match Task_Command t with
        | TaskCommandRestart | TaskCommandStart =>
            (true, set_Command TaskCommandNone (set_Status TaskStatusRunning t))
        | _ => (false, t)
        end
    | TaskStatusCancelled =>
        (true, set_Command TaskCommandStop (set_Status TaskStatusCancelling t))
    | _ => (false, t)
    end.

Definition applyRunnerEventStopped (t : Task) : bool * Task :=
  match Task_Status t with
  | TaskStatusRunning =>
      match Task_Command t with
      | TaskCommandStop =>
          (true, set_Command TaskCommandNone (set_Status TaskStatusCancelled t))
      | TaskCommandStart =>
          (* run N's exit provisions run N+1: back to pending, keep the command *)
          (true, bump_Version (set_Status TaskStatusPending t))
      | TaskCommandNone => (true, set_Status TaskStatusCompleted t)
      | _ => (false, t)
      end
  | TaskStatusCancelling =>
      match Task_Command t with
      | TaskCommandStop =>
          (true, set_Command TaskCommandNone (set_Status TaskStatusCancelled t))
      | _ => (false, t)
      end
  | _ => (false, t)
  end.

Definition applyRunnerEventFailed (t : Task) : bool * Task :=
  match Task_Status t with
  | TaskStatusPending | TaskStatusRestarting | TaskStatusRunning | TaskStatusCancelling =>
      (true, set_Command TaskCommandNone (set_Status TaskStatusFailed t))
  | _ => (false, t)
  end.

(** [ApplyRunnerEvent]: whether the event applied, and the task after it. *)
Definition ApplyRunnerEvent (t : Task) (e : RunnerEvent) : bool * Task :=
  if RE_Reconcile e then (false, t)
  else if negb (RE_Version e =? 0) && negb (RE_Version e =? Task_Version t) then (false, t)
  else if String.eqb (RE_Event e) RunnerEventStarted then applyRunnerEventStarted t
  else if String.eqb (RE_Event e) RunnerEventStopped then applyRunnerEventStopped t
  else if String.eqb (RE_Event e) RunnerEventFailed then applyRunnerEventFailed t
  else (false, t).

(** [LifecycleEvent]: the stream event of an applied runner event, [None] for
    an event with no lifecycle home. *)
Definition LifecycleEvent (e : RunnerEvent) (task : Task) (from : TaskStatus) : option Event :=
  let lifecycle kind message :=
    newEvent (Task_ID task) (Task_OrgID task) false
      (Lifecycle (mkLifecycle kind RunnerActor (Label from) (Label (Task_Status task))
                    message [])) in
  if String.eqb (RE_Event e) RunnerEventStarted
  then Some (lifecycle LifecycleKindSandboxStarted "")
  else if String.eqb (RE_Event e) RunnerEventStopped
  then Some (lifecycle LifecycleKindSandboxExited "")
  else if String.eqb (RE_Event e) RunnerEventFailed
  then Some (lifecycle LifecycleKindSandboxFailed (or_string (RE_Reason e) "container failed"))
  else None.

(** ** User-facing transitions *)

Definition IsDone (t : Task) : bool := IsTerminal (Task_Status t).

Definition CanArchive (t : Task) : bool :=
  if Task_Archived t || negb (bool_decide (Task_Command t = TaskCommandNone)) then false
  else IsDone t || bool_decide (Task_Status t = TaskStatusDraft).

Definition Archive (t : Task) : bool * Task :=
  if negb (CanArchive t) then (false, t) else (true, set_Archived true t).

Definition CanUnarchive (t : Task) : bool := Task_Archived t.

Definition Unarchive (t : Task) : bool * Task :=
  if negb (CanUnarchive t) then (false, t)
  else (true, set_AutoArchive 0 (set_Archived false t)).

Definition CanCancel (t : Task) : bool :=
  if Task_Archived t then false
  else match Task_Status t with
       | TaskStatusRunning | TaskStatusRestarting | TaskStatusPending => true
       | _ => false
       end.

Definition Cancel (t : Task) : bool * Task :=
  if negb (CanCancel t) then (false, t)
  else (true,
    match Task_Status t with
    | TaskStatusRunning | TaskStatusRestarting =>
        set_Command TaskCommandStop (set_Status TaskStatusCancelling t)
    | TaskStatusPending =>
        set_Command TaskCommandNone (set_Status TaskStatusCancelled t)
    | _ => t
    end).

Definition CanRestart (t : Task) : bool :=
  if Task_Archived t then false
  else match Task_Status t with
       | TaskStatusRunning | TaskStatusCompleted | TaskStatusFailed | TaskStatusCancelled => true
       | _ => false
       end.

Definition Restart (t : Task) : bool * Task :=
  if negb (CanRestart t) then (false, t)
  else
    let t1 := match Task_Status t with
              | TaskStatusRunning => set_Status TaskStatusRestarting t
              | _ => set_Status TaskStatusPending t
              end in
    (true, bump_Version (set_Command TaskCommandRestart t1)).

Definition CanStart (t : Task) : bool :=
  if Task_Archived t then false
  else match Task_Status t with
       | TaskStatusRunning | TaskStatusCompleted | TaskStatusFailed
       | TaskStatusCancelled | TaskStatusDraft => true
       | _ => false
       end.

Definition Start (t : Task) : bool * Task :=
  if negb (CanStart t) then (false, t)
  else
    let t1 := match Task_Status t with
              | TaskStatusRunning => t
              | _ => bump_Version (set_Status TaskStatusPending t)
              end in
    (true, set_Command TaskCommandStart t1).

(** [PendingRunner]: the runner with pending work for the task, or [""]. *)
Definition PendingRunner (t : Task) : string :=
  if bool_decide (Task_Command t = TaskCommandNone) || Task_Archived t then "" else Task_Runner t.

(** ** The life of a task *)

(** A task as the three creators build it: a started task at run 1, or a
    draft at version 0. *)
Definition task_init (t : Task) : Prop :=
  Task_Archived t = false ∧
  ((Task_Status t = TaskStatusPending ∧ Task_Command t = TaskCommandStart ∧ Task_Version t = 1) ∨
   (Task_Status t = TaskStatusDraft ∧ Task_Command t = TaskCommandNone ∧ Task_Version t = 0)).

(** One operation of the server on a task: the fold of a runner event or one
    of the user transitions, applied or refused, or an edit of the fields the
    state machine does not read. *)
Inductive task_step : Task → Task → Prop :=
| step_event t e : task_step t (snd (ApplyRunnerEvent t e))
| step_archive t : task_step t (snd (Archive t))
| step_unarchive t : task_step t (snd (Unarchive t))
| step_cancel t : task_step t (snd (Cancel t))
| step_restart t : task_step t (snd (Restart t))
| step_start t : task_step t (snd (Start t))
| step_name t v : task_step t (set_Name v t)
| step_auto_archive t v : task_step t (set_AutoArchive v t)
| step_shell t v : task_step t (set_ShellSession v t)
| step_times t c u : task_step t (set_Times c u t).

(** The commands a status admits. *)
Definition command_ok (s : TaskStatus) (c : TaskCommand) : bool :=
  match s, c with
  | TaskStatusPending, (TaskCommandStart | TaskCommandRestart) => true
  | TaskStatusRunning, (TaskCommandNone | TaskCommandStart) => true
  | TaskStatusRestarting, TaskCommandRestart => true
  | TaskStatusCancelling, TaskCommandStop => true
  | (TaskStatusCompleted | TaskStatusFailed | TaskStatusCancelled | TaskStatusDraft),
      TaskCommandNone => true
  | _, _ => false
  end.

(** The statuses an archived task can have. *)
Definition archived_ok (s : TaskStatus) : bool :=
  match s with
  | TaskStatusCompleted | TaskStatusFailed | TaskStatusCancelled | TaskStatusDraft
  | TaskStatusCancelling => true
  | _ => false
  end.

Definition task_wf (t : Task) : bool :=
  command_ok (Task_Status t) (Task_Command t) &&
  (negb (Task_Archived t) || archived_ok (Task_Status t)).

(** ** Proof automation for the state machine *)

(** Split a task on everything the transitions branch on. *)
Ltac task_cases t :=
  destruct t as [? ? ? ? st cmd ? ? arch ? ? ? ? ?]; destruct st, cmd, arch.

(** The fold unfolds to its guards and a dispatch on the event's name. *)
Lemma ApplyRunnerEvent_cases (P : bool * Task → Prop) t e :
  P (false, t) →
  (RE_Reconcile e = false → (RE_Version e = 0 ∨ RE_Version e = Task_Version t) →
   (RE_Event e = RunnerEventStarted → P (applyRunnerEventStarted t)) ∧
   (RE_Event e = RunnerEventStopped → P (applyRunnerEventStopped t)) ∧
   (RE_Event e = RunnerEventFailed → P (applyRunnerEventFailed t))) →
  P (ApplyRunnerEvent t e).
Proof.
  intros Hno Hyes. unfold ApplyRunnerEvent.
  destruct (RE_Reconcile e); [done|].
  destruct (Z.eqb_spec (RE_Version e) 0), (Z.eqb_spec (RE_Version e) (Task_Version t));
    simpl; try done;
  (destruct Hyes as (H1 & H2 & H3); [done | tauto |];
   repeat case_match; rewrite ?String.eqb_eq in *; auto).
Qed.

(** The fold as a guard followed by a dispatch on the event's name. *)
Definition event_refused (t : Task) (e : RunnerEvent) : bool :=
  RE_Reconcile e || (negb (RE_Version e =? 0) && negb (RE_Version e =? Task_Version t)).

Definition event_dispatch (t : Task) (e : RunnerEvent) : bool * Task :=
  if String.eqb (RE_Event e) RunnerEventStarted then applyRunnerEventStarted t
  else if String.eqb (RE_Event e) RunnerEventStopped then applyRunnerEventStopped t
  else if String.eqb (RE_Event e) RunnerEventFailed then applyRunnerEventFailed t
  else (false, t).

Lemma ApplyRunnerEvent_dispatch t e :
  ApplyRunnerEvent t e = if event_refused t e then (false, t) else event_dispatch t e.
Proof. unfold ApplyRunnerEvent, event_refused. by destruct (RE_Reconcile e). Qed.

Lemma event_dispatch_idempotent t e :
  snd (event_dispatch (snd (event_dispatch t e)) e) = snd (event_dispatch t e).
Proof.
  unfold event_dispatch. repeat case_match; try done; clear; task_cases t; done.
Qed.

Lemma task_init_wf t : task_init t → task_wf t = true.
Proof.
  unfold task_init, task_wf. intros (Ha & [(Hs & Hc & _)|(Hs & Hc & _)]);
    by rewrite Ha, Hs, Hc.
Qed.

Lemma ApplyRunnerEvent_wf t e : task_wf t = true → task_wf (snd (ApplyRunnerEvent t e)) = true.
Proof.
  intros Hwf. apply ApplyRunnerEvent_cases; [done|].
  intros _ _. repeat split; intros _; task_cases t; done.
Qed.

Lemma task_step_wf t t' : task_step t t' → task_wf t = true → task_wf t' = true.
Proof.
  destruct 1; intros Hwf; [by apply ApplyRunnerEvent_wf|..]; task_cases t; done.
Qed.

#[export] Hint Resolve task_init_wf ApplyRunnerEvent_wf task_step_wf : gritz.

(** ** Properties *)

(** C6: every task the server can reach from a freshly created one, by any
    sequence of runner events (stale, duplicated, out of order or unknown ones
    included) and user transitions, holds a command its status admits, and an
    archived task is finished, a draft or being cancelled. *)
Theorem reachable_wf (t0 t : Task) :
  task_init t0 → rtc task_step t0 t → task_wf t = true.
Proof.
  intros Hi Hr. apply task_init_wf in Hi. induction Hr; eauto with gritz.
Qed.

Definition sample_task : Task :=
  mkTask 7 "n" "r1" "ws" TaskStatusPending TaskCommandStart 1 3 false 0 0 "" 0 "".

Lemma reachable_wf_witness : task_wf (snd (Cancel sample_task)) = true.
Proof.
  apply (reachable_wf sample_task).
  - unfold task_init. split; [reflexivity | left; repeat split; reflexivity].
  - apply rtc_once. apply (step_cancel sample_task).
Defined.

(** Applying the same event a second time leaves the task as the first
    application left it, whatever the task and the event. *)
Lemma ApplyRunnerEvent_idempotent (t : Task) (e : RunnerEvent) :
  snd (ApplyRunnerEvent (snd (ApplyRunnerEvent t e)) e) = snd (ApplyRunnerEvent t e).
Proof.
  rewrite !(ApplyRunnerEvent_dispatch _ e).
  destruct (event_refused t e) eqn:E; [by simpl; rewrite E|].
  destruct (event_refused (snd (event_dispatch t e)) e); [done|].
  apply event_dispatch_idempotent.
Qed.

(** A run of the server's fold over a list of events. *)
Definition fold_events (t : Task) (es : list RunnerEvent) : Task :=
  foldl (λ t e, snd (ApplyRunnerEvent t e)) t es.

Lemma event_refused_version t e :
  RE_Version e ≠ 0 → RE_Version e ≠ Task_Version t → event_refused t e = true.
Proof.
  intros H0 Hv. unfold event_refused.
  destruct (Z.eqb_spec (RE_Version e) 0), (Z.eqb_spec (RE_Version e) (Task_Version t)); try done.
  apply orb_true_r.
Qed.

Lemma fold_events_refused t es :
  Forall (λ e, event_refused t e = true) es → fold_events t es = t.
Proof.
  unfold fold_events. induction 1 as [|e es He _ IH]; simpl; [done|].
  by rewrite ApplyRunnerEvent_dispatch, He.
Qed.

(** C7: once a restart, or a start of a task that is not running, has been
    accepted, no sequence of late events scoped to the superseded run can
    change the task. *)
Theorem superseded_run_ignored (t t' : Task) (es : list RunnerEvent) :
  is_int64 (Task_Version t) = true → Task_Version t ≠ 0 →
  (Restart t = (true, t') ∨ (Start t = (true, t') ∧ Task_Status t ≠ TaskStatusRunning)) →
  Forall (λ e, RE_Version e = Task_Version t) es →
  fold_events t' es = t'.
Proof.
  intros Hi H0 Hop Hes. apply fold_events_refused.
  eapply Forall_impl; [exact Hes|]. intros e He. cbv beta in He.
  apply event_refused_version; [congruence|]. rewrite He.
  enough (Task_Version t' = wrap64 (Task_Version t + 1)) as ->
    by (apply not_eq_sym, wrap64_succ_ne, Hi).
  destruct Hop as [Hop|[Hop Hr]]; revert Hop; unfold Restart, Start;
    repeat case_match; intros; simplify_eq/=; done.
Qed.

Lemma superseded_run_ignored_witness :
  let running := set_Command TaskCommandNone (set_Status TaskStatusRunning sample_task) in
  fold_events (snd (Restart running))
    [mkRunnerEvent 7 "stopped" 1 false ""; mkRunnerEvent 7 "failed" 1 false "boom"]
  = snd (Restart running).
Proof.
  apply (superseded_run_ignored
           (set_Command TaskCommandNone (set_Status TaskStatusRunning sample_task)));
    [reflexivity | discriminate | left; reflexivity | repeat constructor].
Defined.

Definition provisioned (s : TaskStatus) : bool :=
  match s with TaskStatusPending | TaskStatusRestarting => true | _ => false end.

(** A step between two runs, or one within a run. *)
Definition run_counted (t t' : Task) : Prop :=
  (Task_Version t' = Task_Version t + 1 ∧ provisioned (Task_Status t') = true ∧
   Task_Status t' ≠ Task_Status t ∧
   (Task_Command t' = TaskCommandStart ∨ Task_Command t' = TaskCommandRestart)) ∨
  (Task_Version t' = Task_Version t ∧
   (provisioned (Task_Status t') = true → Task_Status t' = Task_Status t)).

(** [Version] is the run counter.  A step of a well-formed task moves it by
    one exactly when the step provisions a new run (the status enters pending
    or restarting), and leaves it alone otherwise; a task with work to launch
    holds the start or restart command. *)
Theorem version_counts_runs (t t' : Task) :
  task_wf t = true → int64_min ≤ Task_Version t < int64_max → task_step t t' →
  run_counted t t'.
Proof.
  intros Hwf Hv Hs.
  assert (Hw : wrap64 (Task_Version t + 1) = Task_Version t + 1).
  { apply wrap64_id. unfold is_int64, int64_min, int64_max in *. lia. }
  destruct Hs as [t e| | | | | | | | |]; try (by right); revert Hwf Hw.
  1: apply (ApplyRunnerEvent_cases (λ r,
       task_wf t = true → wrap64 (Task_Version t + 1) = Task_Version t + 1 →
       run_counted t (snd r))); [by right|];
     intros _ _; repeat split; intros _.
  all: clear; unfold run_counted; task_cases t; intros Hwf Hw; simpl in *;
    try discriminate Hwf;
    first [by right | left; repeat split; solve [done | by left | by right]].
Qed.

Lemma version_counts_runs_witness :
  let t := set_Command TaskCommandStart (set_Status TaskStatusRunning sample_task) in
  let t' := snd (ApplyRunnerEvent t (mkRunnerEvent 7 "stopped" 1 false "")) in
  run_counted t t'.
Proof.
  intros t t'. apply (version_counts_runs t t').
  - reflexivity.
  - unfold int64_min, int64_max; simpl; lia.
  - apply step_event.
Defined.

(** A driver's report about the current run. *)
Definition report (t : Task) (name : string) : Task :=
  snd (ApplyRunnerEvent t (mkRunnerEvent (Task_ID t) name (Task_Version t) false "")).

Lemma report_dispatch t name :
  report t name =
  snd (event_dispatch t (mkRunnerEvent (Task_ID t) name (Task_Version t) false "")).
Proof.
  unfold report. rewrite ApplyRunnerEvent_dispatch.
  unfold event_refused. simpl. by rewrite Z.eqb_refl, andb_false_r.
Qed.

(** C8: no reachable task is wedged: from every well-formed task that is not a
    draft, at most three started/stopped reports of a healthy driver about the
    run it has now lead to an end with no command left.  The end is completed or
    cancelled, except for a task that has failed: it needs no report, and stays
    failed. *)
Theorem in_flight_settles (t : Task) :
  task_wf t = true → Task_Status t ≠ TaskStatusDraft →
  ∃ names, (length names ≤ 3)%nat ∧
    Forall (λ n, n = RunnerEventStarted ∨ n = RunnerEventStopped) names ∧
    (Task_Status (foldl report t names) = TaskStatusCompleted ∨
     Task_Status (foldl report t names) = TaskStatusCancelled ∨
     (Task_Status t = TaskStatusFailed ∧ names = [])) ∧
    Task_Command (foldl report t names) = TaskCommandNone.
Proof.
  intros Hwf Hd.
  exists (match Task_Status t, Task_Command t with
          | (TaskStatusPending | TaskStatusRestarting), _ => [RunnerEventStarted; RunnerEventStopped]
          | TaskStatusRunning, TaskCommandStart =>
              [RunnerEventStopped; RunnerEventStarted; RunnerEventStopped]
          | (TaskStatusRunning | TaskStatusCancelling), _ => [RunnerEventStopped]
          | _, _ => []
          end).
  revert Hwf Hd; task_cases t; intros Hwf Hd; try done;
    cbn [Task_Status Task_Command foldl length]; rewrite ?report_dispatch;
    repeat split; try lia;
    solve [ repeat (constructor; [by (left + right)|]); constructor
          | by left | by right; left | by right; right | done ].
Qed.

Lemma in_flight_settles_witness :
  ∃ names, (length names ≤ 3)%nat ∧
    Forall (λ n, n = RunnerEventStarted ∨ n = RunnerEventStopped) names ∧
    (Task_Status (foldl report sample_task names) = TaskStatusCompleted ∨
     Task_Status (foldl report sample_task names) = TaskStatusCancelled ∨
     (Task_Status sample_task = TaskStatusFailed ∧ names = [])) ∧
    Task_Command (foldl report sample_task names) = TaskCommandNone.
Proof. apply (in_flight_settles sample_task); [reflexivity | discriminate..]. Defined.

(** a container that starts under an archived task is marked for stopping,
    but no runner is named for the stop: [PendingRunner] is empty, and stays
    empty until the task is unarchived, whatever events arrive. *)
Theorem archived_start_has_no_runner (t : Task) (e : RunnerEvent) (es : list RunnerEvent) :
  Task_Archived t = true → RE_Event e = RunnerEventStarted → event_refused t e = false →
  let t' := snd (ApplyRunnerEvent t e) in
  Task_Command t' = TaskCommandStop ∧ Task_Status t' = TaskStatusCancelling ∧
  PendingRunner (fold_events t' es) = "".
Proof.
  intros Ha He Hr t'. subst t'. rewrite ApplyRunnerEvent_dispatch, Hr.
  unfold event_dispatch. rewrite He. simpl. unfold applyRunnerEventStarted. rewrite Ha.
  split; [done|]. split; [done|].
  assert (Hkeep : ∀ es t, Task_Archived t = true → Task_Archived (fold_events t es) = true).
  { clear. induction es as [|e es IH]; intros t Ht; [done|]. apply IH.
    apply (ApplyRunnerEvent_cases (λ r, Task_Archived (snd r) = true)); [done|].
    intros _ _. repeat split; intros _; task_cases t; done. }
  unfold PendingRunner. rewrite Hkeep by done. by rewrite orb_true_r.
Qed.

Lemma archived_start_has_no_runner_witness :
  let t := set_Archived true (set_Command TaskCommandNone
             (set_Status TaskStatusCompleted sample_task)) in
  let t' := snd (ApplyRunnerEvent t (mkRunnerEvent 7 "started" 1 false "")) in
  Task_Command t' = TaskCommandStop ∧ Task_Status t' = TaskStatusCancelling ∧
  PendingRunner (fold_events t' []) = "".
Proof.
  intros t t'. apply (archived_start_has_no_runner t (mkRunnerEvent 7 "started" 1 false "") []);
    reflexivity.
Defined.
