(* ===== verification/Links.v ===== *)
(** * Links and routing keys

    Models [internal/model/link.go] and the routing key of
    [internal/model/url.go]: the canonical form under which a subscribed link
    and the event that wakes it meet.  [net/url.Parse] is the parameter
    [url_Parse]; the regular expressions of the file are translated to
    functions on the path's segments. *)

From S2P Require Import Prelude EventModel.
From Stdlib Require Import Ascii.

Definition is_digit (c : ascii) : bool :=
  Nat.leb 48 (nat_of_ascii c) && Nat.leb (nat_of_ascii c) 57.

(** The longest prefix matching [\d*]. *)
Fixpoint digits_prefix (s : string) : string :=
  match s with
  | String c s' => if is_digit c then String c (digits_prefix s') else ""
  | EmptyString => ""
  end.

(** [^\d+$]. *)
Definition all_digits (s : string) : bool :=
  negb (String.eqb s "") && String.eqb (digits_prefix s) s.

(** The segments of a path: the text between slashes. *)
Fixpoint segments (s : string) : list string :=
  match s with
  | EmptyString => [""]
  | String c s' =>
      if Ascii.eqb c "/" then "" :: segments s'
      else match segments s' with
           | seg :: rest => String c seg :: rest
           | [] => [String c ""]
           end
  end.

Definition nonempty (s : string) : bool := negb (String.eqb s "").

(** [^/([^/]+)/([^/]+)/(issues|pull)/(\d+)]: the four groups. *)
Definition githubWebRe (path : string) : option (string * string * string * string) :=
  match segments path with
  | "" :: o :: r :: kind :: n :: _ =>
      if nonempty o && nonempty r &&
         (String.eqb kind "issues" || String.eqb kind "pull") &&
         nonempty (digits_prefix n)
      then Some (o, r, kind, digits_prefix n) else None
  | _ => None
  end.

(** [^/repos/([^/]+)/([^/]+)/(issues|pulls)/(\d+)]. *)
Definition githubAPIRe (path : string) : option (string * string * string * string) :=
  match segments path with
  | "" :: repos :: o :: r :: kind :: n :: _ =>
      if String.eqb repos "repos" && nonempty o && nonempty r &&
         (String.eqb kind "issues" || String.eqb kind "pulls") &&
         nonempty (digits_prefix n)
      then Some (o, r, kind, digits_prefix n) else None
  | _ => None
  end.

(** [^/rest/api/\d+/issue/([^/]+)]: the group. *)
Definition jiraAPIRe (path : string) : option string :=
  match segments path with
  | "" :: rest :: api :: v :: issue :: key :: _ =>
      if String.eqb rest "rest" && String.eqb api "api" && all_digits v &&
         String.eqb issue "issue" && nonempty key
      then Some key else None
  | _ => None
  end.

(** [jiraKey]: [strings.TrimPrefix(path, "/browse/")] differs from [path] exactly
    when the first two segments are empty and [browse] and a third follows; the
    cut at the next slash is that third segment. *)
Definition jiraKey (path : string) : option string :=
  let browse :=
    match segments path with
    | "" :: b :: key :: _ => if String.eqb b "browse" && nonempty key then Some key else None
    | _ => None
    end in
  match browse with
  | Some key => Some key
  | None =>
      match jiraAPIRe path with
      | Some key => if all_digits key then None else Some key
      | None => None
      end
  end.

(** [strings.HasSuffix]. *)
Definition HasSuffix (s suffix : string) : bool :=
  existsb (λ n, String.eqb (String.substring n (String.length s - n) s) suffix)
    (seq 0 (S (String.length s))).

Record Url := mkUrl { Url_Host : string; Url_Path : string }.

(** A link between a task and an external resource. *)
Record Link := mkLink {
  Link_ID : Z;
  Link_TaskID : Z;
  Link_Relevance : string;
  Link_URL : string;
  Link_RoutingKey : string;
  Link_Title : string;
  Link_Subscribe : bool;
  Link_CreatedAt : Z;
  Link_Namespace : string }.

Definition set_Link_ID (id : Z) (l : Link) : Link :=
  mkLink id (Link_TaskID l) (Link_Relevance l) (Link_URL l) (Link_RoutingKey l)
    (Link_Title l) (Link_Subscribe l) (Link_CreatedAt l) (Link_Namespace l).

(** [Link.EventPayload]: the body of the link event mirroring a stored row. *)
Definition Link_EventPayload (l : Link) : EventPayload :=
  LinkP (mkLinkPayload (Link_ID l) (Link_Relevance l) (Link_URL l) (Link_Title l)
           (Link_Subscribe l)).

Section RoutingKey.
Context (url_Parse : string → option Url).

Definition RoutingKey (raw : string) : string :=
  match url_Parse raw with
  | None => raw
  | Some u =>
      if String.eqb (Url_Host u) "github.com" then
        match githubWebRe (Url_Path u) with
        | Some (o, r, kind, n) =>
            "https://github.com/" +:+ o +:+ "/" +:+ r +:+ "/" +:+ kind +:+ "/" +:+ n
        | None => raw
        end
      else if String.eqb (Url_Host u) "api.github.com" then
        match githubAPIRe (Url_Path u) with
        | Some (o, r, kind, n) =>
            let kind := if String.eqb kind "pulls" then "pull" else kind in
            "https://github.com/" +:+ o +:+ "/" +:+ r +:+ "/" +:+ kind +:+ "/" +:+ n
        | None => raw
        end
      else if HasSuffix (Url_Host u) ".atlassian.net" then
        match jiraKey (Url_Path u) with
        | Some key => "https://" +:+ Url_Host u +:+ "/browse/" +:+ key
        | None => raw
        end
      else raw
  end.
End RoutingKey.

(** ** Properties of routing keys *)

(** The canonical form of a recognized URL. *)
Definition canonical (u : Url) : option string :=
  let web '(o, r, kind, n) :=
    "https://github.com/" +:+ o +:+ "/" +:+ r +:+ "/" +:+ kind +:+ "/" +:+ n in
  if String.eqb (Url_Host u) "github.com" then web <$> githubWebRe (Url_Path u)
  else if String.eqb (Url_Host u) "api.github.com" then
    (λ '(o, r, kind, n), web (o, r, if String.eqb kind "pulls" then "pull" else kind, n))
      <$> githubAPIRe (Url_Path u)
  else if HasSuffix (Url_Host u) ".atlassian.net" then
    (λ key, "https://" +:+ Url_Host u +:+ "/browse/" +:+ key) <$> jiraKey (Url_Path u)
  else None.

Lemma RoutingKey_canonical parse raw u :
  parse raw = Some u → RoutingKey parse raw = default raw (canonical u).
Proof.
  intros Hp. unfold RoutingKey, canonical. rewrite Hp.
  destruct (String.eqb _ "github.com").
  { by destruct (githubWebRe _) as [[[[? ?] ?] ?]|]. }
  destruct (String.eqb _ "api.github.com").
  { by destruct (githubAPIRe _) as [[[[? ?] ?] ?]|]. }
  by destruct (HasSuffix _ _); [destruct (jiraKey _)|].
Qed.

Lemma segments_cons s : ∃ seg rest, segments s = seg :: rest.
Proof.
  induction s as [|c s (seg & rest & E)]; simpl; [eauto|].
  destruct (Ascii.eqb c _); [eauto|]. rewrite E. eauto.
Qed.

Lemma segments_app_slash s t : segments (s +:+ String "/" t) = segments s ++ segments t.
Proof.
  induction s as [|c s IH]; [done|].
  change (String c s +:+ String "/" t) with (String c (s +:+ String "/" t)).
  cbn [segments]. rewrite IH. destruct (Ascii.eqb c _); [done|].
  by destruct (segments_cons s) as (seg & rest & ->).
Qed.

(** Each expression only looks at a prefix of the segments, so it is stable
    under more of them. *)
#[local] Ltac solve_stable E :=
  revert E; repeat (case_match; try done).

Lemma githubWebRe_app p t g :
  githubWebRe p = Some g → githubWebRe (p +:+ String "/" t) = Some g.
Proof.
  unfold githubWebRe. rewrite segments_app_slash. intros E.
  destruct (segments p) as [|? [|? [|? [|? [|? ?]]]]]; simpl; solve_stable E.
Qed.

Lemma githubAPIRe_app p t g :
  githubAPIRe p = Some g → githubAPIRe (p +:+ String "/" t) = Some g.
Proof.
  unfold githubAPIRe. rewrite segments_app_slash. intros E.
  destruct (segments p) as [|? [|? [|? [|? [|? [|? ?]]]]]]; simpl; solve_stable E.
Qed.

Lemma jiraKey_app p t key :
  jiraKey p = Some key → jiraKey (p +:+ String "/" t) = Some key.
Proof.
  unfold jiraKey, jiraAPIRe. rewrite segments_app_slash. intros E.
  destruct (segments p) as [|? [|? [|? [|? [|? [|? ?]]]]]]; simpl; solve_stable E.
Qed.

(** a recognized resource URL (GitHub issue or pull request, web or API
    form; Jira issue, browse or API form) and any URL below it (a comment, the
    files tab, ...) have the same routing key, whatever their query and
    fragment, which [url.Parse] has dropped. *)
Theorem RoutingKey_subresource (url_Parse : string → option Url)
    (raw raw' host path sub key : string) :
  url_Parse raw = Some (mkUrl host path) →
  url_Parse raw' = Some (mkUrl host (path +:+ String "/" sub)) →
  canonical (mkUrl host path) = Some key →
  RoutingKey url_Parse raw = key ∧ RoutingKey url_Parse raw' = key.
Proof.
  intros H1 H2 Hc. rewrite (RoutingKey_canonical _ _ _ H1), (RoutingKey_canonical _ _ _ H2), Hc.
  split; [done|]. enough (canonical (mkUrl host (path +:+ String "/" sub)) = Some key) as -> by done.
  revert Hc. unfold canonical. simpl.
  repeat case_match; rewrite ?fmap_Some; try done; intros (g & Hg & ->);
    eexists; split; try reflexivity;
    auto using githubWebRe_app, githubAPIRe_app, jiraKey_app.
Qed.

Lemma RoutingKey_subresource_witness :
  let parse raw := if String.eqb raw "https://github.com/o/r/pull/5"
                   then Some (mkUrl "github.com" "/o/r/pull/5")
                   else Some (mkUrl "github.com" "/o/r/pull/5/files") in
  RoutingKey parse "https://github.com/o/r/pull/5" = "https://github.com/o/r/pull/5" ∧
  RoutingKey parse "https://github.com/o/r/pull/5/files" = "https://github.com/o/r/pull/5".
Proof.
  intros parse.
  apply (RoutingKey_subresource parse _ _ "github.com" "/o/r/pull/5" "files");
    vm_compute; reflexivity.
Defined.
