(* ===== verification/Strconv.v ===== *)
(** * Go's numbers and bytes as text

    What the program uses of [strconv] and [encoding/hex]: decimal parsing, its
    being inverse to printing, and hexadecimal encoding. *)

From S2P Require Import Prelude Links.
From Stdlib Require Import Ascii.

Definition digit_value (c : ascii) : Z := Z.of_nat (nat_of_ascii c) - 48.

Fixpoint parse_digits (acc : Z) (s : string) : option Z :=
  match s with
  | EmptyString => Some acc
  | String c s => if is_digit c then parse_digits (acc * 10 + digit_value c) s else None
  end.

(** [strconv.ParseInt(s, 10, 64)]. *)
Definition ParseInt (s : string) : option Z :=
  let '(neg, digits) := match s with
                        | String "-" s => (true, s)
                        | String "+" s => (false, s)
                        | _ => (false, s)
                        end in
  if String.eqb digits "" then None
  else n ← parse_digits 0 digits;
       let n := if neg : bool then - n else n in
       if is_int64 n then Some n else None.

(** [hex.EncodeToString]: two digits for each byte. *)
Fixpoint EncodeToString (bytes : string) : string :=
  match bytes with
  | EmptyString => ""
  | String c rest =>
      let n := nat_of_ascii c in
      String (hex_digit (n / 16)) (String (hex_digit (n mod 16)) (EncodeToString rest))
  end.

(** [hex.DecodeString]: [None] on a stray character or an odd length. *)
Definition hex_value (c : ascii) : option nat :=
  let n := nat_of_ascii c in
  if Nat.leb 48 n && Nat.leb n 57 then Some (n - 48)%nat
  else if Nat.leb 97 n && Nat.leb n 102 then Some (n - 87)%nat
  else if Nat.leb 65 n && Nat.leb n 70 then Some (n - 55)%nat
  else None.

Fixpoint DecodeString (s : string) : option string :=
  match s with
  | EmptyString => Some ""
  | String a (String b rest) =>
      x ← hex_value a; y ← hex_value b; bytes ← DecodeString rest;
      Some (String (ascii_of_nat (16 * x + y)) bytes)
  | String _ EmptyString => None
  end.

(** ** Bytes decode back *)

Lemma hex_value_digit n : (n < 16)%nat → hex_value (hex_digit n) = Some n.
Proof. intros Hn. do 16 (destruct n as [|n]; [reflexivity|]). lia. Qed.

Lemma DecodeString_Encode bytes : DecodeString (EncodeToString bytes) = Some bytes.
Proof.
  induction bytes as [|c bytes IH]; [done|]. cbn [EncodeToString DecodeString].
  pose proof (nat_ascii_bounded c) as Hc.
  rewrite !hex_value_digit by (try apply Nat.mod_upper_bound; try apply Nat.Div0.div_lt_upper_bound; lia).
  cbn [mbind option_bind]. rewrite IH. cbn [mbind option_bind].
  by rewrite <- Nat.div_mod_eq, ascii_nat_embedding.
Qed.

(** ** Numbers parse back *)

Lemma digit_of_N n : (n < 10)%N → is_digit (pretty_N_char n) = true ∧ digit_value (pretty_N_char n) = Z.of_N n.
Proof.
  intros Hn. destruct n as [|p]; [done|].
  do 4 (destruct p as [p|p|]; try done; try lia).
Qed.

Lemma parse_digits_go (n : N) (s : string) :
  parse_digits 0 (pretty_N_go n s) = parse_digits (Z.of_N n) s.
Proof.
  revert s. induction (N.lt_wf_0 n) as [n _ IH]. intros s.
  destruct (decide (n = 0%N)) as [->|Hn]; [by rewrite pretty_N_go_0|].
  assert (Hpos : (0 < n)%N) by lia.
  rewrite pretty_N_go_step by done. rewrite IH by (apply N.div_lt; lia). cbn [parse_digits].
  destruct (digit_of_N (n mod 10)) as [-> ->]; [by apply N.mod_lt|]. f_equal.
  rewrite N2Z.inj_div, N2Z.inj_mod. pose proof (Z.div_mod (Z.of_N n) 10). lia.
Qed.

Lemma parse_pretty_N (n : N) : parse_digits 0 (pretty n) = Some (Z.of_N n).
Proof.
  unfold pretty, pretty_N. destruct (decide (n = 0%N)) as [->|Hn]; [done|]. apply parse_digits_go.
Qed.

(** A number starts with a digit. *)
Lemma pretty_N_head (n : N) : ∃ c s, (pretty n : string) = String c s ∧ is_digit c = true.
Proof.
  destruct (pretty n : string) as [|c s] eqn:E.
  - pose proof (parse_pretty_N n) as H. rewrite E in H. simpl in H. injection H as H.
    destruct n; [discriminate E|done].
  - pose proof (parse_pretty_N n) as H. rewrite E in H. simpl in H.
    exists c, s. split; [done|]. by destruct (is_digit c).
Qed.

Lemma FormatInt_nonempty z : FormatInt z ≠ "".
Proof.
  unfold FormatInt. destruct z as [|p|p]; [done| |done].
  change (pretty (Zpos p)) with (pretty (Npos p)). by destruct (pretty_N_head (Npos p)) as (c & s & -> & _).
Qed.

Lemma ParseInt_FormatInt z : is_int64 z = true → ParseInt (FormatInt z) = Some z.
Proof.
  intros Hz. unfold FormatInt.
  assert (Hd : ∀ n, ParseInt (pretty n) = (if is_int64 (Z.of_N n) then Some (Z.of_N n) else None)).
  { intros n. unfold ParseInt. destruct (pretty_N_head n) as (c & s & Hn & Hc).
    pose proof (parse_pretty_N n) as Hp. rewrite Hn in *.
    destruct c as [[] [] [] [] [] [] [] []]; try done; cbv beta iota zeta in *;
      simpl String.eqb; cbv iota; rewrite Hp; done. }
  destruct z as [|p|p]; [done| |].
  - change (pretty (Zpos p)) with (pretty (Npos p)). rewrite (Hd (Npos p)). change (Z.of_N (Npos p)) with (Zpos p). by rewrite Hz.
  - change (pretty (Zneg p)) with ("-" +:+ pretty (Npos p)). cbn [String.append]. unfold ParseInt.
    pose proof (parse_pretty_N (Npos p)) as Hp. destruct (pretty_N_head (Npos p)) as (c & s & Hn & _).
    rewrite Hn in *. change ("-" +:+ String c s) with (String "-" (String c s)).
    cbv beta iota zeta. simpl String.eqb. cbv iota.
    rewrite Hp. cbn [mbind option_bind]. change (- Z.of_N (N.pos p)) with (Z.neg p). by rewrite Hz.
Qed.
