(* ===== verification/Mentions.v ===== *)
(** * Mentions and labels in event text

    Models the text scanners of the webhook extractors:
    [internal/x/githubx/mentions.go], [internal/x/atlassian/mentions.go] and
    [AddedLabels], [BrowseURL] and [CommentBrowseURL] of
    [internal/x/atlassian/webhook.go], with [strings.TrimSpace] and
    [strings.Fields] on UTF-8 text.  The regular expressions are written as
    scanners; the GitHub one is proved to find exactly the mentions a
    declarative reading of the expression describes. *)

From S2P Require Import Prelude Links.
From Stdlib Require Import Ascii.

(** ** White space *)

(** The width in bytes of the white-space rune the text starts with
    ([unicode.IsSpace] under UTF-8), 0 when it starts with another. *)
Definition space_width (s : string) : nat :=
  match s with
  | String c rest =>
      let n := nat_of_ascii c in
      if Nat.leb 9 n && Nat.leb n 13 || Nat.eqb n 32 then 1
      else match rest with
           | String d rest =>
               let m := nat_of_ascii d in
               if Nat.eqb n 194 && (Nat.eqb m 133 || Nat.eqb m 160) then 2
               else match rest with
                    | String e _ =>
                        let k := nat_of_ascii e in
                        if Nat.eqb n 225 && Nat.eqb m 154 && Nat.eqb k 128 ||
                           Nat.eqb n 226 && Nat.eqb m 128 &&
                             (Nat.leb 128 k && Nat.leb k 138 || Nat.eqb k 168 || Nat.eqb k 169 ||
                              Nat.eqb k 175) ||
                           Nat.eqb n 226 && Nat.eqb m 129 && Nat.eqb k 159 ||
                           Nat.eqb n 227 && Nat.eqb m 128 && Nat.eqb k 128
                        then 3 else 0
                    | EmptyString => 0
                    end
           | EmptyString => 0
           end
  | EmptyString => 0
  end.

(** The fields of the text, and the one being read when [skip] bytes of a
    white-space rune are still to be passed over. *)
Fixpoint fields_from (skip : nat) (field : string) (s : string) : list string :=
  match s with
  | EmptyString => if String.eqb field "" then [] else [field]
  | String c rest =>
      match skip with
      | S skip => fields_from skip field rest
      | O =>
          match space_width s with
          | O => fields_from 0 (field +:+ String c "") rest
          | S width =>
              if String.eqb field "" then fields_from width "" rest
              else field :: fields_from width "" rest
          end
      end
  end.

(** [strings.Fields]. *)
Definition Fields (s : string) : list string := fields_from 0 "" s.

Fixpoint trim_left (skip : nat) (s : string) : string :=
  match s with
  | EmptyString => ""
  | String _ rest =>
      match skip with
      | S skip => trim_left skip rest
      | O => match space_width s with O => s | S width => trim_left width rest end
      end
  end.

(** Cut where only white space is left. *)
Fixpoint trim_right (s : string) : string :=
  if String.eqb (trim_left 0 s) "" then ""
  else match s with EmptyString => "" | String c rest => String c (trim_right rest) end.

(** [strings.TrimSpace]. *)
Definition TrimSpace (s : string) : string := trim_right (trim_left 0 s).

(** ** GitHub mentions *)

(** [\s] and the bracket: what may come before the at sign. *)
Definition is_re_space (c : ascii) : bool :=
  let n := nat_of_ascii c in
  Nat.eqb n 32 || Nat.eqb n 9 || Nat.eqb n 10 || Nat.eqb n 12 || Nat.eqb n 13.

Definition opens_mention (c : ascii) : bool := is_re_space c || Ascii.eqb c "(".

Definition is_login_char (c : ascii) : bool :=
  let n := nat_of_ascii c in
  Nat.leb 65 n && Nat.leb n 90 || Nat.leb 97 n && Nat.leb n 122 || Nat.leb 48 n && Nat.leb n 57 ||
  Nat.eqb n 45.

(** The width of the rune of [[A-Za-z0-9-]] the text starts with: case folding
    ([(?i)]) adds U+017F and U+212A to the ASCII ones. *)
Definition login_width (s : string) : nat :=
  match s with
  | String c rest =>
      if is_login_char c then 1
      else match rest with
           | String d rest =>
               if Nat.eqb (nat_of_ascii c) 197 && Nat.eqb (nat_of_ascii d) 191 then 2
               else match rest with
                    | String e _ =>
                        if Nat.eqb (nat_of_ascii c) 226 && Nat.eqb (nat_of_ascii d) 132 &&
                           Nat.eqb (nat_of_ascii e) 170 then 3 else 0
                    | EmptyString => 0
                    end
           | EmptyString => 0
           end
  | EmptyString => 0
  end.

Definition isMentionBoundary (c : ascii) : bool :=
  is_re_space c || Ascii.eqb c "," || Ascii.eqb c "." || Ascii.eqb c ")" || Ascii.eqb c "!" ||
  Ascii.eqb c "?".

Definition ends_mention (s : string) : bool :=
  match s with EmptyString => true | String c _ => isMentionBoundary c end.

(** What the scan is doing: looking for an at sign, which counts right after an
    opening character or the start of the text, or reading a login, with the
    bytes of a rune still to take. *)
Inductive Scan :=
| Seek (opened : bool)
| InLogin (skip : nat) (login : string).

Definition emit (login rest : string) : list string :=
  if negb (String.eqb login "") && ends_mention rest then [login] else [].

Fixpoint mentions_from (st : Scan) (s : string) : list string :=
  match s with
  | EmptyString => match st with InLogin _ login => emit login "" | Seek _ => [] end
  | String c rest =>
      match st with
      | Seek opened =>
          if opened && Ascii.eqb c "@" then mentions_from (InLogin 0 "") rest
          else mentions_from (Seek (opens_mention c)) rest
      | InLogin (S skip) login => mentions_from (InLogin skip (login +:+ String c "")) rest
      | InLogin O login =>
          match login_width s with
          | S width => mentions_from (InLogin width (login +:+ String c "")) rest
          | O => emit login s ++ mentions_from (Seek (opens_mention c)) rest
          end
      end
  end.

Definition Mentions (text : string) : list string := mentions_from (Seek true) text.

(** ** Jira mentions *)

Definition accountPrefix : string := "[~accountid:".

Definition drop_prefix (p s : string) : option string :=
  if HasPrefix s p then Some (String.substring (String.length p) (String.length s - String.length p) s)
  else None.

(** The scan of [\[~accountid:([^\]]+)\]]: [skip] bytes of a match found are
    still to be passed over. *)
Fixpoint accounts_from (skip : nat) (s : string) : list string :=
  match s with
  | EmptyString => []
  | String _ rest =>
      match skip with
      | S skip => accounts_from skip rest
      | O =>
          match drop_prefix accountPrefix s with
          | Some tail =>
              match String.index 0 "]" tail with
              | Some (S n) =>
                  String.substring 0 (S n) tail
                    :: accounts_from (String.length accountPrefix + n + 1) rest
              | _ => accounts_from 0 rest
              end
          | None => accounts_from 0 rest
          end
      end
  end.

Definition AccountMentions (body : string) : list string := accounts_from 0 body.

(** ** Jira payloads *)

Record JiraUser := mkJiraUser { JU_AccountID : string; JU_DisplayName : string }.
Record JiraComment := mkJiraComment { JC_ID : string; JC_Body : string; JC_Author : JiraUser }.
Record JiraIssue := mkJiraIssue { JI_Key : string; JI_Self : string }.
Record ChangelogItem := mkChangelogItem {
  CI_Field : string; CI_FromString : string; CI_ToString : string }.

Record WebhookPayload := mkPayload {
  WP_Event : string; WP_User : option JiraUser; WP_Comment : option JiraComment;
  WP_Issue : option JiraIssue; WP_Changelog : option (list ChangelogItem) }.

Definition AddedLabels (p : WebhookPayload) : list string :=
  match WP_Changelog p with
  | None => []
  | Some items =>
      match List.find (λ item, String.eqb (CI_Field item) "labels") items with
      | None => []
      | Some item =>
          List.filter (λ label, negb (contains_string (Fields (CI_FromString item)) label))
            (Fields (CI_ToString item))
      end
  end.

Definition BrowseURL (i : JiraIssue) : string :=
  match String.index 0 "/rest/" (JI_Self i) with
  | None => ""
  | Some n => String.substring 0 n (JI_Self i) +:+ "/browse/" +:+ JI_Key i
  end.

Definition CommentBrowseURL (i : JiraIssue) (commentID : string) : string :=
  let base := BrowseURL i in
  if String.eqb base "" || String.eqb commentID "" then base
  else base +:+ "?focusedCommentId=" +:+ commentID.

(** ** What the GitHub scan finds *)

(** One rune of a login, and a login. *)
Inductive login_rune : string → Prop :=
| rune_ascii c : is_login_char c = true → login_rune (String c "")
| rune_long_s : login_rune (String (ascii_of_nat 197) (String (ascii_of_nat 191) ""))
| rune_kelvin : login_rune (String (ascii_of_nat 226) (String (ascii_of_nat 132)
                              (String (ascii_of_nat 170) ""))).

Inductive is_login : string → Prop :=
| login_nil : is_login ""
| login_cons r s : login_rune r → is_login s → is_login (r +:+ s).

(** The text before an at sign opens a mention: it is empty or ends in white
    space or a bracket. *)
Fixpoint opened_by (opened : bool) (pre : string) : bool :=
  match pre with EmptyString => opened | String c pre => opened_by (opens_mention c) pre end.

(** The longest login a text starts with, and the rest. *)
Fixpoint login_split (skip : nat) (s : string) : string * string :=
  match s with
  | EmptyString => ("", "")
  | String c rest =>
      match skip with
      | S skip => let '(a, b) := login_split skip rest in (String c a, b)
      | O => match login_width s with
             | O => ("", s)
             | S width => let '(a, b) := login_split width rest in (String c a, b)
             end
      end
  end.

(** Every position on its own: the mention that starts there. *)
Fixpoint mentions_at (opened : bool) (s : string) : list string :=
  match s with
  | EmptyString => []
  | String c rest =>
      (if opened && Ascii.eqb c "@" then let '(login, after) := login_split 0 rest in emit login after
       else []) ++ mentions_at (opens_mention c) rest
  end.

(** The first bytes of a text open nothing. *)
Fixpoint closed (k : nat) (s : string) : Prop :=
  match k, s with
  | S k, String c rest => opens_mention c = false ∧ closed k rest
  | _, _ => True
  end.

Lemma login_width_closed s w : login_width s = S w → closed (S w) s.
Proof.
  destruct s as [|c s]; [done|]. unfold login_width. destruct (is_login_char c) eqn:Hc.
  - intros [= <-]. split; [|done]. revert Hc. by destruct c as [[] [] [] [] [] [] [] []].
  - destruct s as [|d s]; [done|]. destruct (Nat.eqb_spec (nat_of_ascii c) 197) as [E|].
    + apply (f_equal ascii_of_nat) in E. rewrite ascii_nat_embedding in E. subst c.
      destruct (Nat.eqb_spec (nat_of_ascii d) 191) as [E|]; simpl.
      * apply (f_equal ascii_of_nat) in E. rewrite ascii_nat_embedding in E. subst d. by intros [= <-].
      * destruct s; done.
    + simpl. destruct s as [|e s]; [done|].
      destruct (Nat.eqb_spec (nat_of_ascii c) 226) as [E|]; [|done].
      apply (f_equal ascii_of_nat) in E. rewrite ascii_nat_embedding in E. subst c.
      destruct (Nat.eqb_spec (nat_of_ascii d) 132) as [E|]; [|done].
      apply (f_equal ascii_of_nat) in E. rewrite ascii_nat_embedding in E. subst d.
      destruct (Nat.eqb_spec (nat_of_ascii e) 170) as [E|]; [|done].
      apply (f_equal ascii_of_nat) in E. rewrite ascii_nat_embedding in E. subst e. by intros [= <-].
Qed.

Lemma string_snoc a c b : (a +:+ String c "") +:+ b = a +:+ String c b.
Proof. induction a as [|d a IH]; [done|]. apply (f_equal (String d)), IH. Qed.

Lemma mentions_from_spec s :
  (∀ opened, mentions_from (Seek opened) s = mentions_at opened s) ∧
  (∀ k acc, closed k s → mentions_from (InLogin k acc) s =
     (let '(a, b) := login_split k s in emit (acc +:+ a) b) ++ mentions_at false s).
Proof.
  induction s as [|c s [IHs IHl]].
  { split; [done|]. intros k acc _. simpl. by rewrite str_app_nil_r, app_nil_r. }
  split.
  - intros opened. simpl. destruct (opened && Ascii.eqb c "@") eqn:E; [|apply IHs].
    apply andb_true_iff in E as [_ ->%Ascii.eqb_eq]. by rewrite IHl.
  - intros [|k] acc Hk; cbn [mentions_from login_split mentions_at andb].
    + destruct (login_width (String c s)) as [|w] eqn:Hw.
      * by rewrite IHs, str_app_nil_r.
      * apply login_width_closed in Hw as [Hc Hw]. rewrite IHl by done. rewrite Hc.
        destruct (login_split w s) as [a b]. by rewrite string_snoc.
    + destruct Hk as [Hc Hk]. rewrite IHl by done. rewrite Hc.
      destruct (login_split k s) as [a b]. by rewrite string_snoc.
Qed.
Lemma login_width_rune s w :
  login_width s = S w → ∃ r s', s = r +:+ s' ∧ String.length r = S w ∧ login_rune r.
Proof.
  destruct s as [|c s]; [done|]. unfold login_width. destruct (is_login_char c) eqn:Hc.
  { intros [= <-]. exists (String c ""), s. split; [done|]. split; [done|by constructor]. }
  destruct s as [|d s]; [done|]. destruct (_ && _) eqn:E.
  { intros [= <-]. apply andb_true_iff in E as [E1%Nat.eqb_eq E2%Nat.eqb_eq].
    exists (String c (String d "")), s. split; [done|]. split; [done|].
    rewrite <- (ascii_nat_embedding c), <- (ascii_nat_embedding d), E1, E2. constructor. }
  destruct s as [|e s]; [done|]. clear E. destruct (_ && _) eqn:E; [|done].
  intros [= <-]. rewrite !andb_true_iff, !Nat.eqb_eq in E. destruct E as [[E1 E2] E3].
  exists (String c (String d (String e ""))), s. split; [done|]. split; [done|].
  rewrite <- (ascii_nat_embedding c), <- (ascii_nat_embedding d), <- (ascii_nat_embedding e), E1, E2, E3.
  constructor.
Qed.

Lemma rune_width r s : login_rune r → login_width (r +:+ s) = String.length r.
Proof.
  destruct 1 as [c Hc| |]; [|done|done].
  change (login_width (String c s) = 1%nat). unfold login_width. by rewrite Hc.
Qed.

Lemma split_skip r s :
  login_split (String.length r) (r +:+ s) = let '(a, b) := login_split 0 s in (r +:+ a, b).
Proof.
  induction r as [|c r IH]; [change (login_split 0 s = let '(a, b) := login_split 0 s in (a, b)); by destruct (login_split 0 s)|].
  change (String c r +:+ s) with (String c (r +:+ s)). cbn [String.length login_split].
  rewrite IH. by destruct (login_split 0 s).
Qed.

Lemma split_rune r s :
  login_rune r → login_split 0 (r +:+ s) = let '(a, b) := login_split 0 s in (r +:+ a, b).
Proof.
  intros Hr. pose proof (rune_width r s Hr) as Hw. rewrite <- split_skip.
  destruct r as [|c r]; [inversion Hr|].
  change (String c r +:+ s) with (String c (r +:+ s)) in *. cbn [login_split]. by rewrite Hw.
Qed.

Lemma split_stop s : login_width s = 0%nat → login_split 0 s = ("", s).
Proof. destruct s as [|c s]; [done|]. cbn [login_split]. by intros ->. Qed.

Lemma login_split_spec n s : (String.length s <= n)%nat →
  let '(a, b) := login_split 0 s in s = a +:+ b ∧ is_login a ∧ login_width b = 0%nat.
Proof.
  revert s. induction n as [|n IH]; intros s Hn.
  { destruct s; [|simpl in Hn; lia]. simpl. split; [done|]. split; [constructor|done]. }
  destruct (login_width s) as [|w] eqn:Hw.
  { rewrite split_stop by done. split; [done|]. split; [constructor|done]. }
  apply login_width_rune in Hw as (r & s' & -> & Hlen & Hr). rewrite split_rune by done.
  specialize (IH s'). rewrite length_str_app in Hn. destruct (login_split 0 s') as [a b].
  destruct IH as (-> & Ha & Hb); [lia|]. split; [by rewrite str_app_assoc|].
  split; [by constructor|done].
Qed.

Lemma login_split_eq l post :
  is_login l → login_width post = 0%nat → login_split 0 (l +:+ post) = (l, post).
Proof.
  induction 1 as [|r s Hr _ IH]; intros Hp; [by apply split_stop|].
  rewrite str_app_assoc, split_rune, IH by done. done.
Qed.

(** A mention of [l] in a text, after [opened]: an at sign that something opens,
    a whole login, and an end or a boundary. *)
Definition mentioned (opened : bool) (text l : string) : Prop :=
  ∃ pre post, text = pre +:+ String "@" (l +:+ post) ∧ opened_by opened pre = true ∧
    l ≠ "" ∧ is_login l ∧ login_width post = 0%nat ∧ ends_mention post = true.

Lemma mentions_at_spec opened s l : l ∈ mentions_at opened s ↔ mentioned opened s l.
Proof.
  revert opened. induction s as [|c s IH]; intros opened; unfold mentioned.
  { split; [by intros ?%elem_of_nil|]. by intros ([|] & post & [=] & _). }
  cbn [mentions_at]. rewrite elem_of_app, IH. unfold mentioned. split.
  - intros [Hl|(pre & post & -> & H)]; [|by exists (String c pre), post].
    destruct opened; simpl in Hl; [|by apply elem_of_nil in Hl].
    destruct (Ascii.eqb_spec c "@") as [->|]; [|by apply elem_of_nil in Hl].
    pose proof (login_split_spec _ s (Nat.le_refl _)) as Hs. destruct (login_split 0 s) as [a b].
    destruct Hs as (-> & Ha & Hb). unfold emit in Hl.
    destruct (String.eqb_spec a ""); [by apply elem_of_nil in Hl|].
    destruct (ends_mention b) eqn:He; simpl in Hl; [|by apply elem_of_nil in Hl].
    apply list_elem_of_singleton in Hl as ->. by exists "", b.
  - intros ([|c' pre] & post & Heq & Ho & Hne & Hl & Hp & He).
    + injection Heq as -> ->. simpl in Ho. subst opened. left. simpl.
      rewrite login_split_eq by done. unfold emit. rewrite He, (proj2 (String.eqb_neq l "")) by done.
      by apply list_elem_of_singleton.
    + injection Heq as <- ->. right. by exists pre, post.
Qed.

(** The GitHub mention scanner finds exactly the mentions of the text: an
    at sign at the start of the text or after white space or an opening bracket,
    followed by a login that nothing extends and that ends at the end of the
    text or at white space or punctuation. *)
Theorem Mentions_spec (text l : string) : l ∈ Mentions text ↔ mentioned true text l.
Proof. unfold Mentions. destruct (mentions_from_spec text) as [-> _]. apply mentions_at_spec. Qed.

Example mentions_1 : Mentions "@alice @bob, (@carol) x@dave @eve/team @" = ["alice"; "bob"; "carol"].
Proof. reflexivity. Qed.
Example fields_1 : Fields "  a bc  d " = ["a"; "bc"; "d"]. Proof. reflexivity. Qed.
Example trim_1 : TrimSpace "  a b  " = "a b". Proof. reflexivity. Qed.
Example accounts_1 : AccountMentions "x [~accountid:12:a]y[~accountid:]z[~accountid:3] [~accountid:4" = ["12:a"; "3"].
Proof. reflexivity. Qed.
