(* ===== verification/PubSub.v ===== *)
(** * Notifications and the in-process publisher

    Models [internal/model/notification.go] and
    [internal/server/pubsub/local.go]: change notifications, and the fan-out
    of a notification to the bounded channels subscribed to its org.  A Go
    channel is a buffer with a closed flag in a store of channels; a send on a
    closed channel is the panic [None]. *)

From S2P Require Import Prelude AuthScope EventModel TaskModel.

(** ** Notifications *)

Record NotificationResource := mkResource {
  Resource_Action : string; Resource_Type : string; Resource_ID : Z }.

Record Notification := mkNotification {
  N_Type : string;
  N_Resources : list NotificationResource;
  N_Time : Z;
  N_OrgID : Z;
  N_UserID : string;
  N_ClientID : string;
  N_Runner : string;
  N_TaskStatus : TaskStatus;
  N_ChannelMessage : string;
  N_Ignore : bool }.

(** ** LocalPubSub *)

Definition subscriberBufSize : nat := 64.

Record Chan := mkChan { chan_buf : list Notification; chan_closed : bool }.

Record LocalPubSub := mkPubSub {
  subs : gmap Z (list nat);   (* org id -> subscribed channels, in order *)
  chans : gmap nat Chan;      (* the channels of the process *)
  next_chan : nat }.

Definition NewLocalPubSub : LocalPubSub := mkPubSub ∅ ∅ 0.

(** A [select] with a [default]: buffered when there is room, dropped when the
    buffer is full, a panic on a closed channel. *)
Definition trySend (n : Notification) (c : nat) (cs : gmap nat Chan) : option (gmap nat Chan) :=
  match cs !! c with
  | None => None
  | Some ch =>
      if chan_closed ch then None
      else if Nat.ltb (length (chan_buf ch)) subscriberBufSize
      then Some (<[c := mkChan (chan_buf ch ++ [n]) false]> cs)
      else Some cs
  end.

Fixpoint publish_loop (n : Notification) (l : list nat) (cs : gmap nat Chan)
    : option (gmap nat Chan) :=
  match l with
  | [] => Some cs
  | c :: rest =>
      match trySend n c cs with
      | Some cs' => publish_loop n rest cs'
      | None => None
      end
  end.

Definition subs_of (ps : LocalPubSub) (orgID : Z) : list nat := default [] (subs ps !! orgID).

Definition Publish (n : Notification) (ps : LocalPubSub) : option LocalPubSub :=
  match publish_loop n (subs_of ps (N_OrgID n)) (chans ps) with
  | Some cs => Some (mkPubSub (subs ps) cs (next_chan ps))
  | None => None
  end.

(** [Subscribe]: the new channel's name and the state with it registered. *)
Definition Subscribe (orgID : Z) (ps : LocalPubSub) : nat * LocalPubSub :=
  let c := next_chan ps in
  (c, mkPubSub (<[orgID := subs_of ps orgID ++ [c]]> (subs ps))
        (<[c := mkChan [] false]> (chans ps)) (S c)).

(** The cancel function of a subscription.  [sync.Once] makes every call after
    the first one a no-op; a channel that is already closed marks it spent. *)
Definition cancel (orgID : Z) (c : nat) (ps : LocalPubSub) : LocalPubSub :=
  match chans ps !! c with
  | Some ch =>
      if chan_closed ch then ps
      else mkPubSub
             (<[orgID := filter (λ s, s ≠ c) (subs_of ps orgID)]> (subs ps))
             (<[c := mkChan (chan_buf ch) true]> (chans ps)) (next_chan ps)
  | None => ps
  end.

(** A subscriber receives the head of its buffer. *)
Definition receive (c : nat) (ps : LocalPubSub) : option Notification * LocalPubSub :=
  match chans ps !! c with
  | Some (mkChan (n :: rest) closed) =>
      (Some n, mkPubSub (subs ps) (<[c := mkChan rest closed]> (chans ps)) (next_chan ps))
  | _ => (None, ps)
  end.

(** ** The publisher's invariant *)

(** Every subscribed channel is open, belongs to one org only and to one
    place of its list, and no buffer exceeds its capacity. *)
Record pubsub_inv (ps : LocalPubSub) : Prop := {
  inv_open : ∀ o c, c ∈ subs_of ps o →
    ∃ ch, chans ps !! c = Some ch ∧ chan_closed ch = false;
  inv_nodup : ∀ o, NoDup (subs_of ps o);
  inv_disjoint : ∀ o o' c, c ∈ subs_of ps o → c ∈ subs_of ps o' → o = o';
  inv_fresh : ∀ c, is_Some (chans ps !! c) → (c < next_chan ps)%nat;
  inv_bounded : ∀ c ch, chans ps !! c = Some ch → (length (chan_buf ch) ≤ subscriberBufSize)%nat }.

(** One step of the process: who cancels what is whom it was given to. *)
Inductive pubsub_step : LocalPubSub → LocalPubSub → Prop :=
| ps_publish ps n ps' : Publish n ps = Some ps' → pubsub_step ps ps'
| ps_subscribe ps o : pubsub_step ps (snd (Subscribe o ps))
| ps_cancel ps o c :
    (c ∈ subs_of ps o ∨ (∃ ch, chans ps !! c = Some ch ∧ chan_closed ch = true)) →
    pubsub_step ps (cancel o c ps)
| ps_receive ps c : pubsub_step ps (snd (receive c ps)).

(** What a publish does to one subscribed channel. *)
Definition deliver (n : Notification) (ch : Chan) : Chan :=
  if Nat.ltb (length (chan_buf ch)) subscriberBufSize
  then mkChan (chan_buf ch ++ [n]) false else ch.

Lemma trySend_open n c cs ch :
  cs !! c = Some ch → chan_closed ch = false →
  trySend n c cs = Some (<[c := deliver n ch]> cs).
Proof.
  intros Hc Ho. unfold trySend, deliver. rewrite Hc, Ho. case_match; [done|].
  by rewrite insert_id.
Qed.

Lemma publish_loop_spec n l : ∀ cs,
  NoDup l →
  (∀ c, c ∈ l → ∃ ch, cs !! c = Some ch ∧ chan_closed ch = false) →
  ∃ cs', publish_loop n l cs = Some cs' ∧
    ∀ c, cs' !! c = (if bool_decide (c ∈ l) then deliver n else id) <$> cs !! c.
Proof.
  induction l as [|c l IH]; intros cs Hnd Hopen; cbn [publish_loop].
  { exists cs. split; [done|]. intros c. rewrite bool_decide_eq_false_2 by set_solver.
    by rewrite option_fmap_id. }
  apply NoDup_cons in Hnd as [Hc Hnd].
  destruct (Hopen c) as (ch & Hch & Ho); [set_solver|].
  rewrite (trySend_open _ _ _ _ Hch Ho).
  destruct (IH (<[c := deliver n ch]> cs)) as (cs' & -> & Hcs'); [done| |].
  { intros c' Hc'. rewrite lookup_insert_ne by (intros ->; done). apply Hopen. set_solver. }
  exists cs'. split; [done|]. intros c'. rewrite Hcs'.
  destruct (decide (c' = c)) as [->|Hne].
  - rewrite bool_decide_eq_false_2, bool_decide_eq_true_2 by set_solver.
    by rewrite lookup_insert_eq, Hch.
  - rewrite lookup_insert_ne by done.
    by rewrite (bool_decide_ext (c' ∈ c :: l) (c' ∈ l)) by set_solver.
Qed.

Lemma Publish_inv_spec ps n :
  pubsub_inv ps →
  ∃ ps', Publish n ps = Some ps' ∧ subs ps' = subs ps ∧ next_chan ps' = next_chan ps ∧
    ∀ c, chans ps' !! c =
      (if bool_decide (c ∈ subs_of ps (N_OrgID n)) then deliver n else id) <$> chans ps !! c.
Proof.
  intros Hinv. unfold Publish.
  destruct (publish_loop_spec n (subs_of ps (N_OrgID n)) (chans ps)) as (cs' & -> & Hcs').
  - apply Hinv.
  - intros c Hc. by apply Hinv in Hc.
  - eexists. by repeat split.
Qed.

Lemma deliver_closed n ch : chan_closed ch = false → chan_closed (deliver n ch) = false.
Proof. unfold deliver. by case_match. Qed.

Lemma deliver_bounded n ch :
  (length (chan_buf ch) ≤ subscriberBufSize)%nat →
  (length (chan_buf (deliver n ch)) ≤ subscriberBufSize)%nat.
Proof.
  unfold deliver. destruct (Nat.ltb_spec (length (chan_buf ch)) subscriberBufSize); [|done].
  simpl. rewrite length_app. simpl. lia.
Qed.

Lemma subs_of_insert ps o o' l cs k :
  subs_of (mkPubSub (<[o := l]> (subs ps)) cs k) o' = if decide (o = o') then l else subs_of ps o'.
Proof.
  unfold subs_of. simpl. case_decide as E; [subst; by rewrite lookup_insert_eq|].
  by rewrite lookup_insert_ne.
Qed.

Lemma pubsub_inv_New : pubsub_inv NewLocalPubSub.
Proof.
  constructor; unfold NewLocalPubSub, subs_of; simpl.
  - intros o c Hc. rewrite lookup_empty in Hc. set_solver.
  - intros o. rewrite lookup_empty. constructor.
  - intros o o' c Hc. rewrite lookup_empty in Hc. set_solver.
  - intros c [ch Hch]. by rewrite lookup_empty in Hch.
  - intros c ch Hch. by rewrite lookup_empty in Hch.
Qed.

Lemma pubsub_inv_Publish ps n ps' : pubsub_inv ps → Publish n ps = Some ps' → pubsub_inv ps'.
Proof.
  intros Hinv Hp. destruct (Publish_inv_spec ps n Hinv) as (ps1 & Hp1 & Hs & Hn & Hc).
  rewrite Hp in Hp1. simplify_eq.
  assert (Hso : ∀ o, subs_of ps1 o = subs_of ps o) by (intros o; unfold subs_of; by rewrite Hs).
  destruct Hinv as [Hop Hnd Hdj Hfr Hbd].
  constructor; intros *; rewrite ?Hso, ?Hn; auto.
  - intros Hin. destruct (Hop _ _ Hin) as (ch & Hch & Ho). rewrite Hc, Hch.
    eexists; split; [done|]. case_match; [by apply deliver_closed | done].
  - apply Hdj.
  - rewrite Hc, fmap_is_Some. apply Hfr.
  - rewrite Hc, fmap_Some. intros (ch0 & Hch & ->).
    case_match; [apply deliver_bounded|]; eauto.
Qed.

Lemma pubsub_inv_Subscribe ps o : pubsub_inv ps → pubsub_inv (snd (Subscribe o ps)).
Proof.
  intros [Hop Hnd Hdj Hfr Hbd]. simpl.
  assert (Hnew : ∀ o', next_chan ps ∉ subs_of ps o').
  { intros o' Hin. destruct (Hop _ _ Hin) as (ch & Hch & _).
    specialize (Hfr _ ltac:(by rewrite Hch)). lia. }
  constructor; intros *; rewrite ?subs_of_insert; cbn [chans next_chan].
  - intros Hin. destruct (decide (c = next_chan ps)) as [->|Hne].
    { rewrite lookup_insert_eq. by eexists. }
    rewrite lookup_insert_ne by done. apply (Hop o0).
    case_decide; subst; set_solver.
  - case_decide; subst; [|done]. apply NoDup_app. split; [done|]. split; [set_solver|].
    apply NoDup_singleton.
  - assert (Happ : ∀ l c', c' ∈ l ++ [next_chan ps] → c' ∈ l ∨ c' = next_chan ps)
      by set_solver.
    repeat case_decide; subst; try done; intros Hin1 Hin2;
      try apply Happ in Hin1 as [Hin1 | ->]; try apply Happ in Hin2 as [Hin2 | ->];
      solve [eauto | exfalso; eapply Hnew; eauto].
  - rewrite lookup_insert_is_Some. intros [<-|[_ H]]; [lia|]. specialize (Hfr _ H). lia.
  - rewrite lookup_insert_Some. intros [[_ <-]|[_ H]]; [simpl; lia | eauto].
Qed.

Lemma pubsub_inv_cancel ps o c :
  (c ∈ subs_of ps o ∨ (∃ ch, chans ps !! c = Some ch ∧ chan_closed ch = true)) →
  pubsub_inv ps → pubsub_inv (cancel o c ps).
Proof.
  intros Hwho [Hop Hnd Hdj Hfr Hbd]. unfold cancel.
  destruct (chans ps !! c) as [ch|] eqn:Hch; [|by constructor].
  destruct (chan_closed ch) eqn:Ho; [by constructor|].
  destruct Hwho as [Hwho|(ch' & Hch' & Ho')]; [|congruence].
  constructor; intros *; rewrite ?subs_of_insert; cbn [chans next_chan].
  - intros Hin. assert (c0 ≠ c ∧ c0 ∈ subs_of ps o0) as [Hne Hin'].
    { case_decide; subst; [by apply list_elem_of_filter in Hin|].
      split; [|done]. intros ->. by apply (Hdj _ _ c Hwho) in Hin. }
    rewrite lookup_insert_ne by done. by apply (Hop o0).
  - case_decide; subst; [by apply NoDup_filter | done].
  - intros Hin1 Hin2. repeat case_decide; subst; try done;
      rewrite ?list_elem_of_filter in *; naive_solver.
  - rewrite lookup_insert_is_Some. intros [<-|[_ H]]; apply Hfr; [by rewrite Hch | done].
  - rewrite lookup_insert_Some. intros [[<- <-]|[_ H]]; [exact (Hbd _ _ Hch) | eauto].
Qed.

Lemma pubsub_inv_receive ps c : pubsub_inv ps → pubsub_inv (snd (receive c ps)).
Proof.
  intros [Hop Hnd Hdj Hfr Hbd]. unfold receive.
  destruct (chans ps !! c) as [[[|n rest] closed]|] eqn:Hch; try by constructor.
  simpl. constructor; unfold subs_of in *; cbn [chans next_chan subs]; auto.
  - intros o c' Hin. destruct (Hop _ _ Hin) as (ch & Hch' & Ho).
    destruct (decide (c = c')) as [->|Hne].
    + rewrite lookup_insert_eq. simplify_eq/=. by eexists.
    + rewrite lookup_insert_ne by done. eauto.
  - intros c'. rewrite lookup_insert_is_Some. intros [<-|[_ H]]; apply Hfr; [by rewrite Hch | done].
  - intros c' ch. rewrite lookup_insert_Some. intros [[<- <-]|[_ H]]; [|eauto].
    specialize (Hbd _ _ Hch). simpl in *. lia.
Qed.

#[export] Hint Resolve pubsub_inv_New pubsub_inv_Publish pubsub_inv_Subscribe
  pubsub_inv_cancel pubsub_inv_receive : gritz.

Lemma pubsub_reachable_inv ps : rtc pubsub_step NewLocalPubSub ps → pubsub_inv ps.
Proof.
  intros Hr. generalize pubsub_inv_New. induction Hr as [|x y z Hs _ IH]; [done|].
  intros Hx. apply IH. destruct Hs; eauto with gritz.
Qed.

(** In every state the process can reach, publishing neither blocks nor
    panics (no subscribed channel is closed); it appends the notification to
    exactly the subscribers of its org whose buffer has room, drops it for
    the full ones, and touches no other org's channel. *)
Theorem Publish_reachable (ps : LocalPubSub) (n : Notification) :
  rtc pubsub_step NewLocalPubSub ps →
  ∃ ps', Publish n ps = Some ps' ∧ subs ps' = subs ps ∧
    (∀ c, c ∉ subs_of ps (N_OrgID n) → chans ps' !! c = chans ps !! c) ∧
    (∀ c, c ∈ subs_of ps (N_OrgID n) → ∃ buf,
       chans ps !! c = Some (mkChan buf false) ∧ (length buf ≤ subscriberBufSize)%nat ∧
       chans ps' !! c = Some (mkChan (if Nat.ltb (length buf) subscriberBufSize
                                      then buf ++ [n] else buf) false)).
Proof.
  intros Hr. apply pubsub_reachable_inv in Hr as Hinv.
  destruct (Publish_inv_spec ps n Hinv) as (ps' & Hp & Hs & _ & Hc).
  exists ps'. do 2 (split; [done|]). split; intros c Hin; rewrite Hc.
  - rewrite bool_decide_eq_false_2 by done. apply option_fmap_id.
  - rewrite bool_decide_eq_true_2 by done.
    destruct (inv_open _ Hinv _ _ Hin) as ([buf cl] & Hch & Ho). simpl in Ho; subst cl.
    exists buf. split; [done|]. split; [exact (inv_bounded _ Hinv _ _ Hch)|].
    rewrite Hch. unfold deliver. simpl. by case_match.
Qed.

Lemma Publish_reachable_witness :
  let ps := snd (Subscribe 4 NewLocalPubSub) in
  let n := mkNotification "change" [] 0 4 "" "" "" TaskStatusUnspecified "" false in
  ∃ ps', Publish n ps = Some ps' ∧ subs ps' = subs ps ∧
    (∀ c, c ∉ subs_of ps (N_OrgID n) → chans ps' !! c = chans ps !! c) ∧
    (∀ c, c ∈ subs_of ps (N_OrgID n) → ∃ buf,
       chans ps !! c = Some (mkChan buf false) ∧ (length buf ≤ subscriberBufSize)%nat ∧
       chans ps' !! c = Some (mkChan (if Nat.ltb (length buf) subscriberBufSize
                                      then buf ++ [n] else buf) false)).
Proof.
  intros ps n. apply (Publish_reachable ps n).
  apply rtc_once. apply (ps_subscribe NewLocalPubSub 4).
Defined.
