(* ===== verification/McpBridge.v ===== *)
(** * The MCP channel bridge

    Models [internal/mcpbridge]: the mute state of a bridge process
    ([taskfilter.go]), the gate that turns notifications into channel messages
    and the three tools that work the mute state ([mcpbridge.go]).  Every method
    of the filter holds its mutex throughout, so a session is a sequence of
    calls. *)

From S2P Require Import Prelude PubSub.
From stdpp Require Import sorting.

(** ** The filter *)

Record TaskFilter := mkFilter { filter_all : bool; filter_except : gset Z }.

Definition NewTaskFilter : TaskFilter := mkFilter false ∅.

Definition Mute (id : Z) (f : TaskFilter) : TaskFilter :=
  if filter_all f then mkFilter true (filter_except f ∖ {[id]})
  else mkFilter false ({[id]} ∪ filter_except f).

Definition MuteAll (f : TaskFilter) : TaskFilter := mkFilter true ∅.

Definition Unmute (id : Z) (f : TaskFilter) : TaskFilter :=
  if filter_all f then mkFilter true ({[id]} ∪ filter_except f)
  else mkFilter false (filter_except f ∖ {[id]}).

Definition Clear (f : TaskFilter) : TaskFilter := mkFilter false ∅.

Definition Muted (id : Z) (f : TaskFilter) : bool :=
  let ok := bool_decide (id ∈ filter_except f) in
  if filter_all f then negb ok else ok.

Definition All (f : TaskFilter) : bool := filter_all f.

Definition Exceptions (f : TaskFilter) : list Z := merge_sort Z.le (elements (filter_except f)).

(** ** The gate *)

Fixpoint primaryTaskID (resources : list NotificationResource) : option Z :=
  match resources with
  | [] => None
  | r :: resources =>
      if String.eqb (Resource_Type r) "task" then Some (Resource_ID r) else primaryTaskID resources
  end.

(** [Forward]: the content it hands to [SendChannel], if any; a failure to send
    is only logged. *)
Definition Forward (n : Notification) (f : TaskFilter) : option string :=
  if String.eqb (N_ChannelMessage n) "" then None
  else match primaryTaskID (N_Resources n) with
       | Some id => if Muted id f then None else Some (N_ChannelMessage n)
       | None => Some (N_ChannelMessage n)
       end.

(** ** The tools *)

Record toolInput := mkToolInput { In_TaskIDs : list Z; In_All : bool }.

(** The reported state; [Note] only words [MS_All]. *)
Record muteState := mkMuteState { MS_All : bool; MS_Muted : list Z; MS_Unmuted : list Z }.

Definition mutedResult (f : TaskFilter) : muteState :=
  if All f then mkMuteState true [] (Exceptions f) else mkMuteState false (Exceptions f) [].

Definition muteTool (input : toolInput) (f : TaskFilter) : TaskFilter :=
  fold_left (λ f id, Mute id f) (In_TaskIDs input) (if In_All input then MuteAll f else f).

Definition unmuteTool (input : toolInput) (f : TaskFilter) : TaskFilter :=
  fold_left (λ f id, Unmute id f) (In_TaskIDs input) (if In_All input then Clear f else f).

(** ** A session *)

Inductive BridgeOp :=
| OpMute (input : toolInput)
| OpUnmute (input : toolInput)
| OpNotify (n : Notification).

(** The filter after an operation. *)
Definition bridge_step (f : TaskFilter) (op : BridgeOp) : TaskFilter :=
  match op with
  | OpMute input => muteTool input f
  | OpUnmute input => unmuteTool input f
  | OpNotify _ => f
  end.

(** The channel messages of a session. *)
Fixpoint bridge_run (f : TaskFilter) (ops : list BridgeOp) : list string :=
  match ops with
  | [] => []
  | op :: ops =>
      option_list (match op with OpNotify n => Forward n f | _ => None end) ++
      bridge_run (bridge_step f op) ops
  end.

(** ** What the filter promises *)

(** A call speaks of a task when it names it or names all. *)
Definition speaks_of (input : toolInput) (id : Z) : bool :=
  In_All input || bool_decide (id ∈ In_TaskIDs input).

(** The abstract state: whether each task is muted.  The last call that spoke of
    a task decides. *)
Definition mute_word (id : Z) (muted : bool) (op : BridgeOp) : bool :=
  match op with
  | OpMute input => if speaks_of input id then true else muted
  | OpUnmute input => if speaks_of input id then false else muted
  | OpNotify _ => muted
  end.

Definition last_word (id : Z) (ops : list BridgeOp) : bool := fold_left (mute_word id) ops false.

Lemma Muted_Mute id id' f : Muted id (Mute id' f) = bool_decide (id = id') || Muted id f.
Proof.
  unfold Muted, Mute. destruct (filter_all f) eqn:E; simpl; rewrite ?E.
  - repeat case_bool_decide; set_solver.
  - repeat case_bool_decide; set_solver.
Qed.

Lemma Muted_Unmute id id' f : Muted id (Unmute id' f) = negb (bool_decide (id = id')) && Muted id f.
Proof.
  unfold Muted, Unmute. destruct (filter_all f) eqn:E; simpl; rewrite ?E;
    repeat case_bool_decide; set_solver.
Qed.

Lemma Muted_MuteAll id f : Muted id (MuteAll f) = true.
Proof. unfold Muted, MuteAll. simpl. by rewrite bool_decide_eq_false_2 by set_solver. Qed.

Lemma Muted_Clear id f : Muted id (Clear f) = false.
Proof. unfold Muted, Clear. simpl. by rewrite bool_decide_eq_false_2 by set_solver. Qed.

Lemma bool_decide_cons (id i : Z) (ids : list Z) :
  bool_decide (id ∈ i :: ids) = bool_decide (id = i) || bool_decide (id ∈ ids).
Proof. repeat case_bool_decide; set_solver. Qed.

Lemma Muted_step id f op : Muted id (bridge_step f op) = mute_word id (Muted id f) op.
Proof.
  destruct op as [[ids all]|[ids all]|n]; [| |done];
    unfold bridge_step, muteTool, unmuteTool, mute_word, speaks_of; cbn [In_All In_TaskIDs].
  - assert (H : ∀ f0, Muted id (fold_left (λ f i, Mute i f) ids f0) = bool_decide (id ∈ ids) || Muted id f0).
    { induction ids as [|i ids IH]; intros f0; [done|]. cbn [fold_left].
      rewrite IH, Muted_Mute, bool_decide_cons. by destruct (bool_decide (id = i)), (bool_decide (id ∈ ids)). }
    rewrite H. destruct all; [by rewrite Muted_MuteAll, orb_true_r|]. cbn [orb]. by case_bool_decide.
  - assert (H : ∀ f0, Muted id (fold_left (λ f i, Unmute i f) ids f0) =
                      negb (bool_decide (id ∈ ids)) && Muted id f0).
    { induction ids as [|i ids IH]; intros f0; [done|]. cbn [fold_left].
      rewrite IH, Muted_Unmute, bool_decide_cons. by destruct (bool_decide (id = i)), (bool_decide (id ∈ ids)). }
    rewrite H. destruct all; [by rewrite Muted_Clear, andb_false_r|]. cbn [orb]. by case_bool_decide.
Qed.

Lemma Muted_run id ops : ∀ f, Muted id (fold_left bridge_step ops f) = fold_left (mute_word id) ops (Muted id f).
Proof.
  induction ops as [|op ops IH]; intros f; [done|]. cbn [fold_left]. by rewrite IH, Muted_step.
Qed.

(** What a session forwards, by the last word on each task. *)
Definition forwards (before : list BridgeOp) (n : Notification) : bool :=
  negb (String.eqb (N_ChannelMessage n) "") &&
  match primaryTaskID (N_Resources n) with Some id => negb (last_word id before) | None => true end.

Fixpoint session_spec (before ops : list BridgeOp) : list string :=
  match ops with
  | [] => []
  | op :: ops =>
      (match op with OpNotify n => if forwards before n then [N_ChannelMessage n] else [] | _ => [] end) ++
      session_spec (before ++ [op]) ops
  end.

Lemma bridge_run_spec ops : ∀ before,
  bridge_run (fold_left bridge_step before NewTaskFilter) ops = session_spec before ops.
Proof.
  induction ops as [|op ops IH]; intros before; [done|]. cbn [bridge_run session_spec].
  assert (Hstep : bridge_step (fold_left bridge_step before NewTaskFilter) op =
                  fold_left bridge_step (before ++ [op]) NewTaskFilter) by (by rewrite fold_left_app).
  rewrite Hstep, IH. f_equal. destruct op as [| |n]; [done..|]. unfold Forward, forwards, last_word.
  destruct (String.eqb _ ""); [done|]. destruct (primaryTaskID _) as [id|]; [|done].
  rewrite Muted_run. change (Muted id NewTaskFilter) with false. by destruct (fold_left _ _ false).
Qed.

Lemma Exceptions_spec f id : id ∈ Exceptions f ↔ id ∈ filter_except f.
Proof. unfold Exceptions. by rewrite merge_sort_Permutation, elem_of_elements. Qed.

(** The bridge, whose state is a default with exceptions, refines the
    obvious specification, in which the last call that spoke of a task decides:
    over any session a channel-worthy notification is forwarded exactly when the
    last mute or unmute call naming its task (or naming all) before it was not a
    mute, and the state that every tool call reports is that set of tasks,
    each listed once, in ascending order. *)
Theorem bridge_refines_last_word (ops : list BridgeOp) :
  bridge_run NewTaskFilter ops = session_spec [] ops ∧
  let f := fold_left bridge_step ops NewTaskFilter in
  let shown := mutedResult f in
  (∀ id, if MS_All shown then MS_Muted shown = [] ∧ (id ∈ MS_Unmuted shown ↔ last_word id ops = false)
         else MS_Unmuted shown = [] ∧ (id ∈ MS_Muted shown ↔ last_word id ops = true)) ∧
  StronglySorted Z.lt (MS_Muted shown ++ MS_Unmuted shown).
Proof.
  split; [apply (bridge_run_spec ops [])|]. cbv zeta. set (f := fold_left bridge_step ops NewTaskFilter).
  assert (Hm : ∀ id, last_word id ops = Muted id f) by (intros id; symmetry; apply Muted_run).
  split.
  - intros id. rewrite Hm. unfold mutedResult, All, Muted. destruct (filter_all f); simpl;
      rewrite Exceptions_spec; split; try done; case_bool_decide; naive_solver.
  - assert (Hs : StronglySorted Z.lt (Exceptions f)).
    { assert (Hle : StronglySorted Z.le (Exceptions f)) by (apply StronglySorted_merge_sort; apply _).
      assert (Hnd : NoDup (Exceptions f)).
      { unfold Exceptions. rewrite merge_sort_Permutation. apply NoDup_elements. }
      induction Hle as [|x l Hl IH Hx]; [constructor|]. apply NoDup_cons in Hnd as [Hx' Hnd].
      constructor; [by apply IH|]. rewrite Forall_forall in *. intros y Hy. specialize (Hx y Hy).
      assert (x ≠ y) by (intros ->; done). lia. }
    unfold mutedResult. destruct (All f); simpl; rewrite ?app_nil_r; done.
Qed.

(** Under mute-all an unmuted task keeps delivering until it is muted again. *)
Example mute_all_but_one :
  let message := mkNotification "change" [mkResource "updated" "task" 7] 0 1 "" "" "" TaskModel.TaskStatusUnspecified "woken" false in
  bridge_run NewTaskFilter
    [OpMute (mkToolInput [] true); OpNotify message; OpUnmute (mkToolInput [7%Z] false); OpNotify message;
     OpMute (mkToolInput [7%Z] false); OpNotify message] = ["woken"].
Proof. reflexivity. Qed.
