(* ===== verification/ScheduleModel.v ===== *)
(** * Schedules: a task template with a cron specification

    Models [internal/model/schedule.go].  The cron parser
    ([robfig/cron]) and the time-zone database are not part of the repository:
    they are the operations of the class [Cron], and what their documentation
    promises is the class [CronLaws]. *)

From S2P Require Import Prelude AuthScope EventModel TaskModel.

(** ** The cron library and the time-zone database *)

Class Cron := {
  cron_sched : Type;
  cron_loc : Type;
  cronParser_Parse : string → string + cron_sched;   (* [inl] is the error text *)
  time_LoadLocation : string → string + cron_loc;
  sched_Next : cron_sched → cron_loc → Z → Z }.      (* [sched.Next(t.In(loc)).UTC()] *)

(** Go's zero [time.Time], 0001-01-01T00:00:00Z, in microseconds since 1970. *)
Definition time_zero : Z := -62135596800 * 1000000.

(** [cron.Schedule.Next]: "the next activation time, later than the given
    time", and the zero time when no time satisfies the schedule. *)
Class CronLaws `{Cron} := {
  sched_Next_later : ∀ s l t, sched_Next s l t = time_zero ∨ t < sched_Next s l t }.

(** ** The schedule record *)

Record ScheduleInstruction := mkScheduleInstruction {
  SI_Text : string; SI_URL : string }.

Record Schedule := mkSchedule {
  Sched_ID : Z;
  Sched_OrgID : Z;
  Sched_CreatedBy : string;
  Sched_Name : string;
  Sched_Workspace : string;
  Sched_Runner : string;
  Sched_Namespace : string;
  Sched_Instructions : list ScheduleInstruction;
  Sched_AutoArchive : Z;
  Sched_CronExpr : string;
  Sched_Timezone : string;
  Sched_Enabled : bool;
  Sched_NextRunAt : option Z;
  Sched_LastRunAt : option Z;
  Sched_LastTaskID : option Z;
  Sched_CreatedAt : Z;
  Sched_UpdatedAt : Z }.

(** Assignments to the identity and timestamps, the specification, and the
    bookkeeping fields. *)
Definition Sched_set_ids (id created updated : Z) (s : Schedule) : Schedule :=
  mkSchedule id (Sched_OrgID s) (Sched_CreatedBy s) (Sched_Name s) (Sched_Workspace s)
    (Sched_Runner s) (Sched_Namespace s) (Sched_Instructions s) (Sched_AutoArchive s)
    (Sched_CronExpr s) (Sched_Timezone s) (Sched_Enabled s) (Sched_NextRunAt s)
    (Sched_LastRunAt s) (Sched_LastTaskID s) created updated.

Definition Sched_set_run (enabled : bool) (next last : option Z) (task : option Z)
    (s : Schedule) : Schedule :=
  mkSchedule (Sched_ID s) (Sched_OrgID s) (Sched_CreatedBy s) (Sched_Name s)
    (Sched_Workspace s) (Sched_Runner s) (Sched_Namespace s) (Sched_Instructions s)
    (Sched_AutoArchive s) (Sched_CronExpr s) (Sched_Timezone s) enabled next last task
    (Sched_CreatedAt s) (Sched_UpdatedAt s).

Definition Sched_set_NextRunAt (next : option Z) (s : Schedule) : Schedule :=
  Sched_set_run (Sched_Enabled s) next (Sched_LastRunAt s) (Sched_LastTaskID s) s.

Definition Sched_set_Enabled (enabled : bool) (s : Schedule) : Schedule :=
  Sched_set_run enabled (Sched_NextRunAt s) (Sched_LastRunAt s) (Sched_LastTaskID s) s.

(** ** One occurrence *)

(** [Schedule.Task]: the occurrence task built from the template. *)
Definition Schedule_Task (s : Schedule) : Task :=
  mkTask 0 (Sched_Name s) (Sched_Runner s) (Sched_Workspace s) TaskStatusPending
    TaskCommandStart 1 (Sched_OrgID s) false 0 0 (Sched_Namespace s) (Sched_AutoArchive s) "".

(** [Schedule.Events]: the created event, then one waking instruction event
    per template instruction. *)
Definition Schedule_Events (s : Schedule) (task : Task) : list Event :=
  newEvent (Task_ID task) (Task_OrgID task) false
    (Lifecycle (mkLifecycle LifecycleKindCreated ScheduleActor "" (Label (Task_Status task)) "" []))
  :: map (λ inst, newEvent (Task_ID task) (Task_OrgID task) true
                    (Instruction (mkInstruction (SI_Text inst) (SI_URL inst))))
       (Sched_Instructions s).

Section Next.
Context `{Cron}.

(** [Schedule.Next]: the error text, or the first occurrence after [after]. *)
Definition Schedule_Next (s : Schedule) (after : Z) : string + Z :=
  match cronParser_Parse (Sched_CronExpr s) with
  | inl err => inl ("invalid cron expression " +:+ quoted (Sched_CronExpr s) +:+ ": " +:+ err)
  | inr sched =>
      match time_LoadLocation (Sched_Timezone s) with
      | inl err => inl ("invalid timezone " +:+ quoted (Sched_Timezone s) +:+ ": " +:+ err)
      | inr loc => inr (sched_Next sched loc after)
      end
  end.

(** [Schedule.Validate]: [Some] error text, or [None]. *)
Definition Schedule_Validate (s : Schedule) : option string :=
  match cronParser_Parse (Sched_CronExpr s) with
  | inl err => Some ("invalid cron expression " +:+ quoted (Sched_CronExpr s) +:+ ": " +:+ err)
  | inr _ =>
      match time_LoadLocation (Sched_Timezone s) with
      | inl err => Some ("invalid timezone " +:+ quoted (Sched_Timezone s) +:+ ": " +:+ err)
      | inr _ => None
      end
  end.

(** A schedule is valid exactly when [Next] is defined, at every instant. *)
Lemma Validate_Next s t : Schedule_Validate s = None ↔ ∃ next, Schedule_Next s t = inr next.
Proof.
  unfold Schedule_Validate, Schedule_Next.
  destruct (cronParser_Parse _); [naive_solver|].
  destruct (time_LoadLocation _); naive_solver.
Qed.

Lemma Schedule_Next_later `{!CronLaws} s t next :
  Schedule_Next s t = inr next → next = time_zero ∨ t < next.
Proof.
  unfold Schedule_Next. destruct (cronParser_Parse _); [done|].
  destruct (time_LoadLocation _); [done|]. intros [= <-]. apply sched_Next_later.
Qed.
End Next.

(** ** A concrete cron library, for the witnesses

    It knows two expressions, [@minutely] and one that never fires, and the
    zone [UTC]. *)
#[export] Instance demo_cron : Cron := {|
  cron_sched := bool;
  cron_loc := unit;
  cronParser_Parse expr :=
    if String.eqb expr "@minutely" then inr true
    else if String.eqb expr "0 0 30 2 *" then inr false else inl "unrecognized descriptor";
  time_LoadLocation tz := if String.eqb tz "UTC" then inr tt else inl "unknown time zone";
  sched_Next s _ t := if s then (t / 60000000 + 1) * 60000000 else time_zero |}.

Lemma demo_cron_laws : @CronLaws demo_cron.
Proof.
  constructor. intros [] l t; simpl; [right | by left].
  pose proof (Z.div_mod t 60000000 ltac:(lia)).
  pose proof (Z.mod_pos_bound t 60000000 ltac:(lia)). lia.
Qed.
