(* ===== verification/Rules.v ===== *)
(** * Routing rules: matching and validation

    Models [internal/model/routing_rule.go] (the rules),
    [internal/server/eventrouter/rule.go] (the attribute matcher) and
    [internal/server/eventrouter/schema.go] (the event-type registry and rule
    validation). *)

From S2P Require Import Prelude.

(** ** Data *)

Record Condition := mkCondition { Cond_Attr : string; Cond_Op : string; Cond_Value : string }.

Record CreateTaskAction := mkCreate {
  Create_Workspace : string;
  Create_Runner : string;
  Create_Prompt : string;
  Create_AutoArchive : Z }.

Record RoutingRule := mkRule {
  Rule_Source : string;
  Rule_Type : string;
  Rule_Conditions : list Condition;
  Rule_Create : option CreateTaskAction;
  Rule_Wakeup : bool;
  Rule_Public : bool;
  Rule_Namespace : string }.

(** A parsed webhook event.  [Meta] is opaque to the router and left out. *)
Record InputEvent := mkInput {
  Input_Source : string;
  Input_Type : string;
  Input_Description : string;
  Input_Data : string;
  Input_URL : string;
  Input_UserID : string;
  Input_Orgs : list Z;
  Input_Attrs : gmap string (list string);
  Input_Details : gmap string string }.

(** ** The matcher *)

Definition Input_Attr (e : InputEvent) (key : string) : list string :=
  if String.eqb key "body" then [Input_Data e]
  else if String.eqb key "url" then [Input_URL e]
  else default [] (Input_Attrs e !! key).

(** The [switch] of [conditionMatch] on one value. *)
Definition op_holds (c : Condition) (v : string) : bool :=
  if String.eqb (Cond_Op c) "equals" then String.eqb v (Cond_Value c)
  else if String.eqb (Cond_Op c) "prefix" then HasPrefix v (Cond_Value c)
  else if String.eqb (Cond_Op c) "contains" then Contains v (Cond_Value c)
  else false.

Definition conditionMatch (c : Condition) (values : list string) : bool :=
  existsb (op_holds c) values.

Definition Match (rule : RoutingRule) (event : InputEvent) : bool :=
  if negb (String.eqb (Rule_Source rule) "") &&
     negb (String.eqb (Rule_Source rule) (Input_Source event)) then false
  else if negb (String.eqb (Rule_Type rule) "") &&
          negb (String.eqb (Rule_Type rule) (Input_Type event)) then false
  else forallb (λ cond, conditionMatch cond (Input_Attr event (Cond_Attr cond)))
         (Rule_Conditions rule).

(** ** The schema registry *)

Record AttrDef := mkAttrDef {
  AttrDef_Key : string; AttrDef_Label : string; AttrDef_Help : string;
  AttrDef_Placeholder : string }.

Record EventTypeDef := mkEventType {
  ET_Source : string; ET_Type : string; ET_Label : string; ET_Attrs : list AttrDef }.

Definition hasAttr (def : EventTypeDef) (key : string) : bool :=
  existsb (λ a, String.eqb (AttrDef_Key a) key) (ET_Attrs def).

Record SchemaRegistry := mkRegistry {
  eventTypes : list EventTypeDef;
  eventTypeByKey : gmap string EventTypeDef }.

Definition NewSchemaRegistry : SchemaRegistry := mkRegistry [] ∅.

(** [MustRegister]: [None] is the panic on a duplicate registration. *)
Definition MustRegister (def : EventTypeDef) (r : SchemaRegistry) : option SchemaRegistry :=
  let key := ET_Source def +:+ ":" +:+ ET_Type def in
  match eventTypeByKey r !! key with
  | Some _ => None
  | None => Some (mkRegistry (eventTypes r ++ [def]) (<[key := def]> (eventTypeByKey r)))
  end.

Definition EventTypeFor (r : SchemaRegistry) (source typ : string) : option EventTypeDef :=
  eventTypeByKey r !! (source +:+ ":" +:+ typ).

Definition known_op (op : string) : bool :=
  String.eqb op "equals" || String.eqb op "prefix" || String.eqb op "contains".

(** The condition loop of [Validate]: the first offending op or attr. *)
Fixpoint validateConditions (def : EventTypeDef) (conds : list Condition) : option string :=
  match conds with
  | [] => None
  | cond :: rest =>
      if negb (known_op (Cond_Op cond))
      then Some ("unknown op " +:+ Cond_Op cond +:+ " on attr " +:+ Cond_Attr cond)
      else if negb (hasAttr def (Cond_Attr cond))
      then Some ("attr " +:+ Cond_Attr cond +:+ " not valid for event type")
      else validateConditions def rest
  end.

Definition Validate (r : SchemaRegistry) (rule : RoutingRule) : option string :=
  if String.eqb (Rule_Type rule) "" then Some "rule must select an event type: empty type"
  else if String.eqb (Rule_Source rule) "" then
    Some ("rule must select an event source: empty source for type " +:+ Rule_Type rule)
  else match EventTypeFor r (Rule_Source rule) (Rule_Type rule) with
       | None => Some ("unknown event type: source=" +:+ Rule_Source rule +:+
                       " type=" +:+ Rule_Type rule)
       | Some def => validateConditions def (Rule_Conditions rule)
       end.

(** ** Lemmas *)

(** What an operator means, without the operational detail. *)
Inductive op_spec (c : Condition) (v : string) : Prop :=
| op_equals : Cond_Op c = "equals" → v = Cond_Value c → op_spec c v
| op_prefix s : Cond_Op c = "prefix" → v = Cond_Value c +:+ s → op_spec c v
| op_contains s s' : Cond_Op c = "contains" → v = s +:+ Cond_Value c +:+ s' → op_spec c v.

Lemma op_holds_spec c v : op_holds c v = true ↔ op_spec c v.
Proof.
  unfold op_holds. split.
  - repeat case_match; rewrite ?String.eqb_eq in *; try done.
    + intros ->. by apply op_equals.
    + rewrite HasPrefix_spec. intros [s ->]. by eapply op_prefix.
    + rewrite Contains_spec. intros (s & s' & ->). by eapply op_contains.
  - intros [Hop Hv|s Hop Hv|s s' Hop Hv]; rewrite Hop; simpl; subst v.
    + by rewrite String.eqb_refl.
    + apply HasPrefix_spec. eauto.
    + apply Contains_spec. eauto.
Qed.

Lemma conditionMatch_spec c values :
  conditionMatch c values = true ↔ ∃ v, v ∈ values ∧ op_spec c v.
Proof.
  unfold conditionMatch. rewrite existsb_exists. setoid_rewrite list_elem_of_In.
  by setoid_rewrite op_holds_spec.
Qed.

Lemma Match_spec rule event :
  Match rule event = true ↔
  (Rule_Source rule = "" ∨ Rule_Source rule = Input_Source event) ∧
  (Rule_Type rule = "" ∨ Rule_Type rule = Input_Type event) ∧
  ∀ c, c ∈ Rule_Conditions rule →
    ∃ v, v ∈ Input_Attr event (Cond_Attr c) ∧ op_spec c v.
Proof.
  unfold Match.
  destruct (String.eqb_spec (Rule_Source rule) ""), (String.eqb_spec (Rule_Type rule) ""),
    (String.eqb_spec (Rule_Source rule) (Input_Source event)),
    (String.eqb_spec (Rule_Type rule) (Input_Type event)); simpl; try naive_solver.
  all: rewrite forallb_forall; setoid_rewrite <- list_elem_of_In;
    setoid_rewrite conditionMatch_spec; naive_solver.
Qed.

Lemma validateConditions_spec def conds :
  validateConditions def conds = None ↔
  Forall (λ c, known_op (Cond_Op c) = true ∧ hasAttr def (Cond_Attr c) = true) conds.
Proof.
  induction conds as [|c conds IH]; simpl; [done|].
  rewrite Forall_cons. destruct (known_op _), (hasAttr _ _); simpl; naive_solver.
Qed.

(** The index agrees with the registered list. *)
Definition registry_ok (r : SchemaRegistry) : Prop :=
  ∀ key def, eventTypeByKey r !! key = Some def →
    def ∈ eventTypes r ∧ key = ET_Source def +:+ ":" +:+ ET_Type def.

Lemma registry_ok_register def r r' :
  registry_ok r → MustRegister def r = Some r' → registry_ok r'.
Proof.
  unfold MustRegister. intros Hok. destruct (eventTypeByKey r !! _) eqn:E; [done|].
  intros [= <-] key def'. simpl. rewrite lookup_insert_Some, elem_of_app.
  intros [[<- <-]|[_ Hl]]; [set_solver|]. destruct (Hok _ _ Hl). auto.
Qed.

Lemma registry_ok_registers defs r r' :
  registry_ok r →
  foldl (λ acc def, acc ≫= MustRegister def) (Some r) defs = Some r' → registry_ok r'.
Proof.
  revert r. induction defs as [|def defs IH]; intros r Hok; [by intros [= <-]|].
  simpl. destruct (MustRegister def r) as [r1|] eqn:E.
  - apply IH. by eapply registry_ok_register.
  - clear IH. intros H. exfalso. revert H. by induction defs.
Qed.

(** ** Properties *)

(** a rule the registry accepts names one registered event kind, and it
    matches an event exactly when the event is of that kind and, for each
    condition, carries a value of a declared dimension that satisfies the
    operator literally: no wildcard and no unknown operator is left. *)
Theorem validated_rule_meaning (defs : list EventTypeDef) (r : SchemaRegistry)
    (rule : RoutingRule) (event : InputEvent) :
  foldl (λ acc def, acc ≫= MustRegister def) (Some NewSchemaRegistry) defs = Some r →
  Validate r rule = None →
  ∃ def, def ∈ eventTypes r ∧
    ET_Source def +:+ ":" +:+ ET_Type def = Rule_Source rule +:+ ":" +:+ Rule_Type rule ∧
    (Match rule event = true ↔
       Input_Source event = Rule_Source rule ∧ Input_Type event = Rule_Type rule ∧
       ∀ c, c ∈ Rule_Conditions rule →
         hasAttr def (Cond_Attr c) = true ∧
         ∃ v, v ∈ Input_Attr event (Cond_Attr c) ∧ op_spec c v).
Proof.
  intros Hr. apply registry_ok_registers in Hr; [|by intros ? ? H].
  unfold Validate, EventTypeFor.
  destruct (String.eqb_spec (Rule_Type rule) "") as [|Ht]; [done|].
  destruct (String.eqb_spec (Rule_Source rule) "") as [|Hs]; [done|].
  destruct (eventTypeByKey r !! _) as [def|] eqn:Hdef; [|done].
  destruct (Hr _ _ Hdef) as [Hin Hkey].
  rewrite validateConditions_spec, Forall_forall. intros Hv.
  exists def. split; [done|]. split; [done|]. rewrite Match_spec. naive_solver.
Qed.

Definition sample_registry : list EventTypeDef :=
  [mkEventType "github" "issue_comment" "Comment"
     [mkAttrDef "body" "" "" ""; mkAttrDef "mention" "" "" ""]].
Definition sample_rule : RoutingRule :=
  mkRule "github" "issue_comment" [mkCondition "mention" "equals" "gritz"]
    (Some (mkCreate "ws" "r1" "" 0)) true false "".
Definition sample_input : InputEvent :=
  mkInput "github" "issue_comment" "comment" "hi @gritz" "https://github.com/o/r/pull/5"
    "u1" [4] {["mention" := ["gritz"]]} ∅.

Lemma validated_rule_meaning_witness :
  ∃ r def, foldl (λ acc def, acc ≫= MustRegister def) (Some NewSchemaRegistry)
             sample_registry = Some r ∧ def ∈ eventTypes r ∧
    Match sample_rule sample_input = true ∧ hasAttr def "mention" = true.
Proof.
  destruct (foldl (λ acc def, acc ≫= MustRegister def) (Some NewSchemaRegistry)
              sample_registry) as [r|] eqn:Hr; [|vm_compute in Hr; discriminate Hr].
  destruct (validated_rule_meaning sample_registry r sample_rule sample_input Hr)
    as (def & Hin & _ & Hm).
  { vm_compute in Hr. injection Hr as <-. vm_compute. reflexivity. }
  exists r, def. split; [done|]. split; [done|].
  assert (Hmt : Match sample_rule sample_input = true) by (vm_compute; reflexivity).
  split; [done|]. apply Hm in Hmt as (_ & _ & Hc).
  apply (Hc (mkCondition "mention" "equals" "gritz")). by apply list_elem_of_singleton.
Defined.
