(* ===== verification/Store.v ===== *)
(** * The store: tables, transactions and the database monad

    Models [internal/store]: the rows of the tables the core uses, the
    operations of [store/task.go], [event.go], [link.go], [schedule.go],
    [workspace.go], [logchunk.go] and [org.go] with the meaning of their SQL
    queries ([store/sql/queries/*.sql]), and [Store.WithTx].

    A computation is a state transformer over the [World]: the committed
    tables, the open transaction, the id sequences (which a rollback does not
    rewind), the faults the database will answer the next statements with, the
    notifications published so far and the clock.  Every statement, [BeginTx]
    and [Commit] can fail, as the fault list says; a failed statement aborts
    its transaction.  A [Commit] that fails has committed nothing: the case of a
    commit that took effect and whose answer was lost with the connection is
    not modelled.  One computation observes one clock value. *)

From S2P Require Import Prelude AuthScope EventModel TaskModel Links PubSub ScheduleModel Rules.

(** ** Errors *)

Inductive Code :=
| CodeUnknown | CodeInvalidArgument | CodeNotFound | CodePermissionDenied
| CodeFailedPrecondition | CodeUnimplemented | CodeInternal | CodeUnauthenticated.

#[export] Instance Code_eq_dec : EqDecision Code.
Proof. solve_decision. Defined.

(** [connect.NewError], [sql.ErrNoRows], the archiver's [errSkip], the two
    errors of [x/pagination], any other error, and [fmt.Errorf("...: %w", err)].
    [EPanic] is no error value: it is a panic unwinding the handler, and code
    that inspects a result it can end passes it on. *)
Inductive Err :=
| EConnect (code : Code) (msg : string)
| ENoRows
| ESkip
| EInvalidRequest (msg : string)
| EUnsupportedDirection
| EPanic (msg : string)
| EOther (msg : string)
| EWrap (msg : string) (err : Err).

#[export] Instance Err_eq_dec : EqDecision Err.
Proof. solve_decision. Defined.

(** [connect.CodeOf] and [errors.Is(err, sql.ErrNoRows)] look through wraps. *)
Fixpoint CodeOf (e : Err) : Code :=
  match e with
  | EConnect c _ => c
  | EWrap _ e' => CodeOf e'
  | _ => CodeUnknown
  end.

Fixpoint isNoRows (e : Err) : bool :=
  match e with ENoRows => true | EWrap _ e' => isNoRows e' | _ => false end.

Fixpoint isSkip (e : Err) : bool :=
  match e with ESkip => true | EWrap _ e' => isSkip e' | _ => false end.

Fixpoint isInvalidRequest (e : Err) : bool :=
  match e with EInvalidRequest _ => true | EWrap _ e' => isInvalidRequest e' | _ => false end.

Fixpoint isUnsupportedDirection (e : Err) : bool :=
  match e with
  | EUnsupportedDirection => true
  | EWrap _ e' => isUnsupportedDirection e'
  | _ => false
  end.

Definition isPanic (e : Err) : bool := match e with EPanic _ => true | _ => false end.

(** ** Rows and tables *)

(** A row of [tasks]: the status and command are integers and [auto_archive]
    is in microseconds. *)
Record TaskRow := mkTaskRow {
  Row_id : Z; Row_name : string; Row_runner : string; Row_workspace : string;
  Row_status : Z; Row_command : Z; Row_version : Z; Row_org_id : Z; Row_archived : bool;
  Row_created_at : Z; Row_updated_at : Z; Row_auto_archive : Z;
  Row_shell_session : string; Row_namespace : string }.

Record LogChunk := mkLogChunk {
  Chunk_ID : Z; Chunk_OrgID : Z; Chunk_TaskID : Z; Chunk_Version : Z;
  Chunk_Data : list Z; Chunk_CreatedAt : Z }.

Record Workspace := mkWorkspace {
  WS_ID : Z; WS_RunnerID : string; WS_Name : string; WS_Description : string;
  WS_OrgID : Z; WS_UpdatedAt : Z }.

(** A row of [org_members], kept with its org: the primary key is
    [(org_id, user_id)]. *)
Record OrgMember := mkOrgMember { Member_UserID : string; Member_Role : string; Member_CreatedAt : Z }.

Record OrgRow := mkOrgRow {
  Org_name : string; Org_owner : string; Org_archived : bool; Org_webhook_secret : string;
  Org_rules : list RoutingRule; Org_created_at : Z; Org_updated_at : Z;
  Org_installation : option Z; Org_memberships : list OrgMember }.

Definition Org_members (o : OrgRow) : list string := map Member_UserID (Org_memberships o).

Record UserRow := mkUserRow {
  UR_id : string; UR_email : string; UR_name : string; UR_github_user_id : option Z;
  UR_github_username : option string; UR_atlassian_account_id : option string;
  UR_atlassian_username : string; UR_default_org_id : option Z;
  UR_created_at : Z; UR_updated_at : Z }.

Record KeyRow := mkKeyRow {
  KR_id : string; KR_name : string; KR_token_hash : string; KR_org_id : Z;
  KR_expires_at : option Z; KR_created_at : Z; KR_scopes : option (list string) }.

Record Tables := mkTables {
  t_tasks : gmap Z TaskRow;
  t_events : gmap Z Event;
  t_links : gmap Z Link;
  t_schedules : gmap Z Schedule;
  t_chunks : gmap Z LogChunk;
  t_workspaces : gmap Z Workspace;
  t_orgs : gmap Z OrgRow;
  t_users : gmap string UserRow;
  t_keys : gmap string KeyRow }.

Definition with_tasks f tb := mkTables (f (t_tasks tb)) (t_events tb) (t_links tb)
  (t_schedules tb) (t_chunks tb) (t_workspaces tb) (t_orgs tb) (t_users tb) (t_keys tb).
Definition with_events f tb := mkTables (t_tasks tb) (f (t_events tb)) (t_links tb)
  (t_schedules tb) (t_chunks tb) (t_workspaces tb) (t_orgs tb) (t_users tb) (t_keys tb).
Definition with_links f tb := mkTables (t_tasks tb) (t_events tb) (f (t_links tb))
  (t_schedules tb) (t_chunks tb) (t_workspaces tb) (t_orgs tb) (t_users tb) (t_keys tb).
Definition with_schedules f tb := mkTables (t_tasks tb) (t_events tb) (t_links tb)
  (f (t_schedules tb)) (t_chunks tb) (t_workspaces tb) (t_orgs tb) (t_users tb) (t_keys tb).
Definition with_chunks f tb := mkTables (t_tasks tb) (t_events tb) (t_links tb)
  (t_schedules tb) (f (t_chunks tb)) (t_workspaces tb) (t_orgs tb) (t_users tb) (t_keys tb).
Definition with_workspaces f tb := mkTables (t_tasks tb) (t_events tb) (t_links tb)
  (t_schedules tb) (t_chunks tb) (f (t_workspaces tb)) (t_orgs tb) (t_users tb) (t_keys tb).
Definition with_orgs f tb := mkTables (t_tasks tb) (t_events tb) (t_links tb)
  (t_schedules tb) (t_chunks tb) (t_workspaces tb) (f (t_orgs tb)) (t_users tb) (t_keys tb).
Definition with_users f tb := mkTables (t_tasks tb) (t_events tb) (t_links tb)
  (t_schedules tb) (t_chunks tb) (t_workspaces tb) (t_orgs tb) (f (t_users tb)) (t_keys tb).
Definition with_keys f tb := mkTables (t_tasks tb) (t_events tb) (t_links tb)
  (t_schedules tb) (t_chunks tb) (t_workspaces tb) (t_orgs tb) (t_users tb) (f (t_keys tb)).

(** The [BIGSERIAL] sequences. *)
Inductive Seq := SeqTasks | SeqEvents | SeqLinks | SeqSchedules | SeqChunks | SeqWorkspaces
| SeqOrgs.

#[export] Instance Seq_eq_dec : EqDecision Seq.
Proof. solve_decision. Defined.

(** ** The world and the monad *)

Record TxState := mkTxState { tx_tables : Tables; tx_aborted : bool }.

Record World := mkWorld {
  committed : Tables;
  open_tx : option TxState;
  seqs : Seq → Z;                       (* the next id of each sequence *)
  faults : list (option string);        (* how the next statements fail, if they do *)
  published : list Notification;
  clock : Z }.

Definition set_committed tb w :=
  mkWorld tb (open_tx w) (seqs w) (faults w) (published w) (clock w).
Definition set_open_tx tx w :=
  mkWorld (committed w) tx (seqs w) (faults w) (published w) (clock w).
Definition set_faults fs w :=
  mkWorld (committed w) (open_tx w) (seqs w) fs (published w) (clock w).
Definition set_seqs q w :=
  mkWorld (committed w) (open_tx w) q (faults w) (published w) (clock w).

Definition M (A : Type) : Type := World → (Err + A) * World.

#[export] Instance M_ret : MRet M := λ A a w, (inr a, w).
#[export] Instance M_bind : MBind M := λ A B k m w,
  match m w with
  | (inl e, w') => (inl e, w')
  | (inr a, w') => k a w'
  end.

Definition raise {A} (e : Err) : M A := λ w, (inl e, w).

(** [r, err := m]: the error as a value, for the code that inspects it. *)
Definition catch {A} (m : M A) : M (Err + A) := λ w,
  let (r, w') := m w in (inr r, w').

Definition time_Now : M Z := λ w, (inr (clock w), w).

(** The next statement's outcome. *)
Definition fault : M unit := λ w,
  match faults w with
  | Some msg :: fs => (inl (EOther msg), set_faults fs w)
  | None :: fs => (inr (), set_faults fs w)
  | [] => (inr (), w)
  end.

(** [for _, a := range l { if err := f(a); err != nil { return err } }] *)
Fixpoint for_each {A} (l : list A) (f : A → M unit) : M unit :=
  match l with
  | [] => mret ()
  | a :: l' => f a ;; for_each l' f
  end.

(** A Go [*sql.Tx] argument: nil, or the open transaction. *)
Inductive Tx := NoTx | InTx.

(** Run one statement, on the transaction's tables or, without one, directly
    on the committed tables.  [f] gets the clock and the tables. *)
Definition exec {A} (tx : Tx) (f : Z → Tables → Err + (A * Tables)) : M A := λ w,
  match tx with
  | NoTx =>
      match fault w with
      | (inl e, w1) => (inl e, w1)
      | (inr _, w1) =>
          match f (clock w1) (committed w1) with
          | inl e => (inl e, w1)
          | inr (a, tb) => (inr a, set_committed tb w1)
          end
      end
  | InTx =>
      match open_tx w with
      | None => (inl (EOther "transaction has already been committed or rolled back"), w)
      | Some (mkTxState tb true) => (inl (EOther "current transaction is aborted"), w)
      | Some (mkTxState tb false) =>
          match fault w with
          | (inl e, w1) => (inl e, set_open_tx (Some (mkTxState tb true)) w1)
          | (inr _, w1) =>
              match f (clock w1) tb with
              | inl e => (inl e, set_open_tx (Some (mkTxState tb true)) w1)
              | inr (a, tb') => (inr a, set_open_tx (Some (mkTxState tb' false)) w1)
              end
          end
      end
  end.

(** A statement that only reads. *)
Definition query {A} (tx : Tx) (f : Z → Tables → A) : M A :=
  exec tx (λ now tb, inr (f now tb, tb)).

Definition nextval (q : Seq) : M Z := λ w,
  (inr (seqs w q), set_seqs (λ q', if decide (q' = q) then seqs w q + 1 else seqs w q') w).

(** [:one] queries: no row is [sql.ErrNoRows]. *)
Definition scan_one {A} (r : option A) : M A :=
  match r with Some a => mret a | None => raise ENoRows end.

(** ** Transactions *)

Definition BeginTx : M unit := λ w,
  match fault w with
  | (inl e, w1) => (inl e, w1)
  | (inr _, w1) => (inr (), set_open_tx (Some (mkTxState (committed w1) false)) w1)
  end.

(** [defer tx.Rollback()]: a no-op after a commit. *)
Definition Rollback (w : World) : World := set_open_tx None w.

Definition Commit (tx : Tx) : M unit := λ w,
  match open_tx w with
  | None => (inl (EOther "transaction has already been committed or rolled back"), w)
  | Some (mkTxState tb true) =>
      (inl (EOther "commit unexpectedly resulted in rollback"), set_open_tx None w)
  | Some (mkTxState tb false) =>
      match fault w with
      | (inl e, w1) => (inl e, set_open_tx None w1)
      | (inr _, w1) => (inr (), set_open_tx None (set_committed tb w1))
      end
  end.

(** Run [m], then the deferred [after], whatever [m]'s result. *)
Definition finally {A} (after : World → World) (m : M A) : M A := λ w,
  let (r, w') := m w in (r, after w').

Definition WithTx {A} (tx : Tx) (f : Tx → M A) : M A :=
  match tx with
  | InTx => f InTx
  | NoTx => BeginTx ;; finally Rollback (f InTx)
  end.

(** [publish]: an ignored notification is dropped, and a publisher's error is
    only logged. *)
Definition publish (n : Notification) : M unit := λ w,
  (inr (), if N_Ignore n then w
           else mkWorld (committed w) (open_tx w) (seqs w) (faults w)
                  (published w ++ [n]) (clock w)).
