(* ===== verification/StoreOps.v ===== *)
(** * The store's operations

    Each operation of [internal/store] the core uses, with the meaning of its
    query in [store/sql/queries]: selection, order, limit, foreign keys and
    the columns an update leaves alone.  JSON columns hold the value itself
    (marshalling is the standard library's), so decoding never fails here. *)

From S2P Require Import Prelude AuthScope EventModel TaskModel Links PubSub ScheduleModel Rules.
From S2P Require Import Store.

(** ** SQL helpers *)

Definition rows {A} (m : gmap Z A) : list A := (map_to_list m).*2.

(** [ORDER BY key ASC] and [DESC]; ties are in no promised order. *)
Definition key_le {A} (key : A → Z) (a b : A) : Prop := key a ≤ key b.
#[export] Instance key_le_dec {A} (key : A → Z) : RelDecision (key_le key).
Proof. intros a b. unfold key_le. apply _. Defined.

Definition order_by {A} (key : A → Z) (l : list A) : list A := merge_sort (key_le key) l.
Definition order_by_desc {A} (key : A → Z) (l : list A) : list A :=
  merge_sort (key_le (λ a, - key a)) l.

(** [WHERE] *)
Definition where_ {A} (p : A → bool) (l : list A) : list A := filter (λ a, p a = true) l.

(** Foreign keys to [tasks], [orgs] and [users]. *)
Definition fk_task (tb : Tables) (id : Z) : bool := bool_decide (is_Some (t_tasks tb !! id)).
Definition fk_org (tb : Tables) (id : Z) : bool := bool_decide (is_Some (t_orgs tb !! id)).
Definition fk_user (tb : Tables) (id : string) : bool := bool_decide (is_Some (t_users tb !! id)).
Definition fk_error : Err := EOther "violates foreign key constraint".

(** [INSERT ... RETURNING id] guarded by the row's foreign keys. *)
Definition insert_row (q : Seq) (tx : Tx) (fk : Tables → bool) (put : Z → Tables → Tables) : M Z :=
  id ← nextval q;
  exec tx (λ _ tb, if fk tb then inr (id, put id tb) else inl fk_error).

(** An [UPDATE] or [DELETE]. *)
Definition update_rows (tx : Tx) (f : Z → Tables → Tables) : M unit :=
  exec tx (λ now tb, inr ((), f now tb)).

(** ** Tasks ([store/task.go]) *)

(** [Duration.Microseconds] and back. *)
Definition Microseconds (d : Z) : Z := Z.quot d 1000.
Definition of_Microseconds (us : Z) : Z := wrap64 (us * 1000).

Definition taskRow (id created updated : Z) (t : Task) : TaskRow :=
  mkTaskRow id (Task_Name t) (Task_Runner t) (Task_Workspace t) (TaskStatus_int (Task_Status t))
    (TaskCommand_int (Task_Command t)) (Task_Version t) (Task_OrgID t) (Task_Archived t)
    created updated (Microseconds (Task_AutoArchive t)) (Task_ShellSession t) (Task_Namespace t).

Definition toModelTask (r : TaskRow) : Task :=
  mkTask (Row_id r) (Row_name r) (Row_runner r) (Row_workspace r)
    (TaskStatus_of_int (Row_status r)) (TaskCommand_of_int (Row_command r)) (Row_version r)
    (Row_org_id r) (Row_archived r) (Row_created_at r) (Row_updated_at r) (Row_namespace r)
    (of_Microseconds (Row_auto_archive r)) (Row_shell_session r).

Definition CreateTask (tx : Tx) (task : Task) : M Task :=
  now ← time_Now;
  id ← insert_row SeqTasks tx (λ tb, fk_org tb (Task_OrgID task))
         (λ id, with_tasks <[id := taskRow id now now task]>);
  mret (set_Times now now (set_ID id task)).

Definition select_task (tb : Tables) (id orgID : Z) : option TaskRow :=
  r ← t_tasks tb !! id;
  if Row_org_id r =? orgID then Some r else None.

Definition GetTask (tx : Tx) (id orgID : Z) : M Task :=
  r ← query tx (λ _ tb, select_task tb id orgID);
  row ← scan_one r;
  mret (toModelTask row).

(** The row lock [FOR UPDATE] takes is what makes a transaction's
    read-modify-write of the row one step of the model. *)
Definition GetTaskForUpdate (tx : Tx) (id orgID : Z) : M Task := GetTask tx id orgID.

Definition ListTasks (tx : Tx) (orgID : Z) : M (list Task) :=
  rs ← query tx (λ _ tb, order_by_desc Row_created_at
         (where_ (λ r, negb (Row_archived r) && (Row_org_id r =? orgID)) (rows (t_tasks tb))));
  mret (map toModelTask rs).

Definition runner_rows (tb : Tables) (runner : string) (orgID : Z) : list TaskRow :=
  order_by_desc Row_created_at
    (where_ (λ r, String.eqb (Row_runner r) runner && (Row_org_id r =? orgID) &&
                  negb (Row_command r =? 0) && negb (Row_archived r)) (rows (t_tasks tb))).

Definition ListTasksForRunner (tx : Tx) (runner : string) (orgID : Z) : M (list Task) :=
  rs ← query tx (λ _ tb, runner_rows tb runner orgID);
  mret (map toModelTask rs).

(** The columns [UpdateTask] sets: every one but [created_at] and [namespace]. *)
Definition updateRow (t : Task) (updated : Z) (r : TaskRow) : TaskRow :=
  mkTaskRow (Row_id r) (Task_Name t) (Task_Runner t) (Task_Workspace t)
    (TaskStatus_int (Task_Status t)) (TaskCommand_int (Task_Command t)) (Task_Version t)
    (Row_org_id r) (Task_Archived t) (Row_created_at r) updated
    (Microseconds (Task_AutoArchive t)) (Task_ShellSession t) (Row_namespace r).

Definition put_task (t : Task) (updated : Z) (tb : Tables) : Tables :=
  match select_task tb (Task_ID t) (Task_OrgID t) with
  | Some r => with_tasks <[Task_ID t := updateRow t updated r]> tb
  | None => tb
  end.

Definition UpdateTask (tx : Tx) (task : Task) : M unit :=
  now ← time_Now;
  update_rows tx (λ _, put_task task now).

Record TaskDueForArchive := mkDue { Due_ID : Z; Due_Version : Z; Due_OrgID : Z }.

Definition archive_due (now : Z) (r : TaskRow) : bool :=
  negb (Row_archived r) && negb (Row_auto_archive r =? 0) && (Row_command r =? 0) &&
  ((Row_status r =? 5) || (Row_status r =? 6) || (Row_status r =? 7) || (Row_status r =? 8)) &&
  (Row_updated_at r + Row_auto_archive r <? now).

Definition ListTasksDueForArchive (tx : Tx) (limit : nat) : M (list TaskDueForArchive) :=
  query tx (λ now tb,
    map (λ r, mkDue (Row_id r) (Row_version r) (Row_org_id r))
      (take limit (order_by Row_updated_at (where_ (archive_due now) (rows (t_tasks tb)))))).

(** The row once its task forgets [session]. *)
Definition clear_shell (session : string) (orgID : Z) (r : TaskRow) : TaskRow :=
  if String.eqb (Row_shell_session r) session && (Row_org_id r =? orgID)
  then mkTaskRow (Row_id r) (Row_name r) (Row_runner r) (Row_workspace r) (Row_status r)
         (Row_command r) (Row_version r) (Row_org_id r) (Row_archived r) (Row_created_at r)
         (Row_updated_at r) (Row_auto_archive r) "" (Row_namespace r)
  else r.

Definition ClearShellSession (tx : Tx) (session : string) (orgID : Z) : M unit :=
  update_rows tx (λ _, with_tasks (fmap (clear_shell session orgID))).

(** ** Events ([store/event.go]) *)

Definition CreateEvent (tx : Tx) (event : Event) : M Event :=
  now ← time_Now;
  id ← insert_row SeqEvents tx
         (λ tb, fk_task tb (Event_TaskID event) && fk_org tb (Event_OrgID event))
         (λ id, with_events <[id := set_Event_CreatedAt now (set_Event_ID id event)]>);
  mret (set_Event_ID id event).

Definition GetEvent (tx : Tx) (id orgID : Z) : M Event :=
  r ← query tx (λ _ tb, e ← t_events tb !! id;
                        if Event_OrgID e =? orgID then Some e else None);
  scan_one r.

(** [cardinality(types) = 0 OR type = ANY(types)] *)
Definition type_selected (types : list string) (e : Event) : bool :=
  match types with [] => true | _ => contains_string types (Payload_Type (Event_Payload e)) end.

Definition ListEvents (tx : Tx) (limit : nat) (orgID : Z) (types : list string) : M (list Event) :=
  query tx (λ _ tb, take limit (order_by_desc Event_ID
    (where_ (λ e, (Event_OrgID e =? orgID) && type_selected types e) (rows (t_events tb))))).

Definition DeleteEvent (tx : Tx) (id orgID : Z) : M unit :=
  update_rows tx (λ _ tb,
    match t_events tb !! id with
    | Some e => if Event_OrgID e =? orgID then with_events (delete id) tb else tb
    | None => tb
    end).

Definition task_events (tb : Tables) (taskID orgID : Z) (types : list string) : list Event :=
  order_by Event_ID
    (where_ (λ e, (Event_TaskID e =? taskID) && (Event_OrgID e =? orgID) && type_selected types e)
       (rows (t_events tb))).

Definition ListEventsByTask (tx : Tx) (taskID orgID : Z) (types : list string) : M (list Event) :=
  query tx (λ _ tb, task_events tb taskID orgID types).

(** ** Links ([store/link.go]) *)

Definition CreateLink (tx : Tx) (link : Link) : M Link :=
  id ← insert_row SeqLinks tx (λ tb, fk_task tb (Link_TaskID link))
         (λ id, with_links <[id := set_Link_ID id link]>);
  mret (set_Link_ID id link).

Definition ListLinksByTask (tx : Tx) (taskID orgID : Z) : M (list Link) :=
  query tx (λ _ tb,
    match select_task tb taskID orgID with
    | Some _ => order_by Link_CreatedAt
                  (where_ (λ l, Link_TaskID l =? taskID) (rows (t_links tb)))
    | None => []
    end).

(** A joined row: the link with its task's org and namespace. *)
Definition join_task (tb : Tables) (l : Link) : option (Z * Link) :=
  r ← t_tasks tb !! Link_TaskID l;
  if Row_archived r then None
  else Some (Row_org_id r,
             mkLink (Link_ID l) (Link_TaskID l) (Link_Relevance l) (Link_URL l)
               (Link_RoutingKey l) (Link_Title l) (Link_Subscribe l) (Link_CreatedAt l)
               (Row_namespace r)).

Definition subscribed_rows (tb : Tables) (routingKey : string) (orgIDs : list Z) : list (Z * Link) :=
  where_ (λ ol, bool_decide (fst ol ∈ orgIDs))
    (omap (join_task tb)
       (order_by_desc Link_CreatedAt
          (where_ (λ l, String.eqb (Link_RoutingKey l) routingKey && Link_Subscribe l)
             (rows (t_links tb))))).

(** [FindSubscribedLinksForOrgs]: the Go map from org to links, as a function
    of the org. *)
Definition FindSubscribedLinksForOrgs (tx : Tx) (routingKey : string) (orgIDs : list Z)
    : M (Z → list Link) :=
  rs ← query tx (λ _ tb, subscribed_rows tb routingKey orgIDs);
  mret (λ orgID, map snd (where_ (λ ol, fst ol =? orgID) rs)).

(** ** Schedules ([store/schedule.go]) *)

(** The row keeps the duration at microsecond resolution. *)
Definition scheduleRow (id created updated : Z) (s : Schedule) : Schedule :=
  mkSchedule id (Sched_OrgID s) (Sched_CreatedBy s) (Sched_Name s) (Sched_Workspace s)
    (Sched_Runner s) (Sched_Namespace s) (Sched_Instructions s)
    (of_Microseconds (Microseconds (Sched_AutoArchive s))) (Sched_CronExpr s) (Sched_Timezone s)
    (Sched_Enabled s) (Sched_NextRunAt s) (Sched_LastRunAt s) (Sched_LastTaskID s)
    created updated.

Definition fk_last_task (tb : Tables) (id : option Z) : bool :=
  match id with Some i => fk_task tb i | None => true end.

Definition StoreCreateSchedule (tx : Tx) (sched : Schedule) : M Schedule :=
  now ← time_Now;
  id ← insert_row SeqSchedules tx
         (λ tb, fk_org tb (Sched_OrgID sched) && fk_last_task tb (Sched_LastTaskID sched) &&
                 fk_user tb (Sched_CreatedBy sched))
         (λ id, with_schedules <[id := scheduleRow id now now sched]>);
  mret (Sched_set_ids id now now sched).

Definition select_schedule (tb : Tables) (id orgID : Z) : option Schedule :=
  s ← t_schedules tb !! id;
  if Sched_OrgID s =? orgID then Some s else None.

Definition StoreGetSchedule (tx : Tx) (id orgID : Z) : M Schedule :=
  r ← query tx (λ _ tb, select_schedule tb id orgID);
  scan_one r.

Definition GetScheduleForUpdate (tx : Tx) (id orgID : Z) : M Schedule := StoreGetSchedule tx id orgID.

Definition StoreListSchedules (tx : Tx) (orgID : Z) : M (list Schedule) :=
  query tx (λ _ tb, order_by_desc Sched_CreatedAt
    (where_ (λ s, Sched_OrgID s =? orgID) (rows (t_schedules tb)))).

(** The columns [UpdateSchedule] sets: every one but the org, the creator and
    [created_at]. *)
Definition put_schedule (s : Schedule) (updated : Z) (tb : Tables) : Err + (unit * Tables) :=
  match select_schedule tb (Sched_ID s) (Sched_OrgID s) with
  | Some old =>
      if fk_last_task tb (Sched_LastTaskID s) then
        inr ((), with_schedules
          <[Sched_ID s := mkSchedule (Sched_ID old) (Sched_OrgID old) (Sched_CreatedBy old)
              (Sched_Name s) (Sched_Workspace s) (Sched_Runner s) (Sched_Namespace s)
              (Sched_Instructions s) (of_Microseconds (Microseconds (Sched_AutoArchive s)))
              (Sched_CronExpr s) (Sched_Timezone s) (Sched_Enabled s) (Sched_NextRunAt s)
              (Sched_LastRunAt s) (Sched_LastTaskID s) (Sched_CreatedAt old) updated]> tb)
      else inl fk_error
  | None => inr ((), tb)
  end.

Definition StoreUpdateSchedule (tx : Tx) (sched : Schedule) : M unit :=
  now ← time_Now;
  exec tx (λ _ tb, put_schedule sched now tb).

Definition StoreDeleteSchedule (tx : Tx) (id orgID : Z) : M unit :=
  update_rows tx (λ _ tb,
    match select_schedule tb id orgID with
    | Some _ => with_schedules (delete id) tb
    | None => tb
    end).

Definition schedule_due (now : Z) (s : Schedule) : bool :=
  Sched_Enabled s &&
  match Sched_NextRunAt s with Some next => next <=? now | None => false end.

(** [FOR UPDATE SKIP LOCKED]: the rows in [locked] are held by another server
    instance. *)
Definition claim_rows (now : Z) (locked : list Z) (limit : nat) (tb : Tables) : list Schedule :=
  take limit
    (where_ (λ s, negb (bool_decide (Sched_ID s ∈ locked)))
       (order_by (λ s, default 0 (Sched_NextRunAt s))
          (where_ (schedule_due now) (rows (t_schedules tb))))).

Definition ClaimDueSchedules (locked : list Z) (tx : Tx) (limit : nat) : M (list Schedule) :=
  query tx (λ now tb, claim_rows now locked limit tb).

Record ScheduleAdvance := mkAdvance {
  Adv_NextRunAt : option Z; Adv_LastRunAt : option Z; Adv_LastTaskID : option Z }.

Definition advance_schedule (id orgID : Z) (adv : ScheduleAdvance) (now : Z) (tb : Tables)
    : Err + (unit * Tables) :=
  match select_schedule tb id orgID with
  | Some s =>
      if fk_last_task tb (Adv_LastTaskID adv) then
        inr ((), with_schedules
          <[id := Sched_set_ids (Sched_ID s) (Sched_CreatedAt s) now
                    (Sched_set_run (Sched_Enabled s) (Adv_NextRunAt adv) (Adv_LastRunAt adv)
                       (Adv_LastTaskID adv) s)]> tb)
      else inl fk_error
  | None => inr ((), tb)
  end.

Definition AdvanceSchedule (tx : Tx) (id orgID : Z) (adv : ScheduleAdvance) : M unit :=
  exec tx (advance_schedule id orgID adv).

(** ** Log chunks, workspaces and routing rules *)

Definition CreateLogChunk (tx : Tx) (chunk : LogChunk) : M LogChunk :=
  createdAt ← time_Now;
  let stored id := mkLogChunk id (Chunk_OrgID chunk) (Chunk_TaskID chunk) (Chunk_Version chunk)
                     (Chunk_Data chunk) createdAt in
  id ← insert_row SeqChunks tx
         (λ tb, fk_task tb (Chunk_TaskID chunk) && fk_org tb (Chunk_OrgID chunk))
         (λ id, with_chunks <[id := stored id]>);
  mret (stored id).

Definition DeleteWorkspacesByRunner (tx : Tx) (runnerID : string) (orgID : Z) : M unit :=
  update_rows tx (λ _, with_workspaces (filter (λ kv,
    ¬ (WS_RunnerID kv.2 = runnerID ∧ WS_OrgID kv.2 = orgID)))).

Definition CreateWorkspace (tx : Tx) (runnerID name description : string) (orgID : Z) : M unit :=
  now ← time_Now;
  insert_row SeqWorkspaces tx (λ tb, fk_org tb orgID)
    (λ id, with_workspaces <[id := mkWorkspace id runnerID name description orgID now]>) ;;
  mret ().

Definition name_le (a b : Workspace) : Prop := String.leb (WS_Name a) (WS_Name b) = true.
#[export] Instance name_le_dec : RelDecision name_le.
Proof. intros a b. unfold name_le. apply _. Defined.

Definition StoreListWorkspaces (tx : Tx) (orgID : Z) : M (list Workspace) :=
  query tx (λ _ tb, merge_sort name_le
    (where_ (λ ws, WS_OrgID ws =? orgID) (rows (t_workspaces tb)))).

Definition has_workspace (tb : Tables) (runnerID name : string) (orgID : Z) : bool :=
  existsb (λ ws, String.eqb (WS_RunnerID ws) runnerID && String.eqb (WS_Name ws) name &&
                 (WS_OrgID ws =? orgID)) (rows (t_workspaces tb)).

Definition HasWorkspace (tx : Tx) (runnerID name : string) (orgID : Z) : M bool :=
  query tx (λ _ tb, has_workspace tb runnerID name orgID).

Definition StoreClearWorkspaces (tx : Tx) (orgID : Z) : M unit :=
  update_rows tx (λ _, with_workspaces (filter (λ kv, WS_OrgID kv.2 ≠ orgID))).

Record OrgRoutingRules := mkOrgRules {
  OR_OrgID : Z; OR_IsMember : bool; OR_Rules : list RoutingRule }.

(** The row an org contributes: its rules as a member, or as one of the
    event's orgs the user is not a member of. *)
Definition event_org (userID : string) (orgs : list Z) (kv : Z * OrgRow) : option OrgRoutingRules :=
  let (id, o) := kv in
  if Org_archived o then None
  else if contains_string (Org_members o) userID then Some (mkOrgRules id true (Org_rules o))
  else if bool_decide (id ∈ orgs) then Some (mkOrgRules id false (Org_rules o))
  else None.

Definition ListRoutingRulesForEvent (tx : Tx) (userID : string) (orgs : list Z)
    : M (list OrgRoutingRules) :=
  query tx (λ _ tb, omap (event_org userID orgs) (map_to_list (t_orgs tb))).
