(* ===== verification/StoreLogic.v ===== *)
(** * Reasoning about store computations

    A small weakest-precondition calculus for the database monad: the states
    a computation can be in (inside a transaction, between transactions), one
    rule per construct and per operation, the tactic [wp] that applies them,
    and [HandlerSpec], the form every handler's theorem takes: what it commits
    and publishes when it succeeds, and that it commits and publishes nothing
    when it fails. *)

From S2P Require Import Prelude AuthScope EventModel TaskModel Links PubSub ScheduleModel Rules.
From S2P Require Import Store StoreOps.

(** ** States *)

(** A unique index on a nullable column. *)
Definition unique_by {K A B} `{Countable K} (f : A → option B) (m : gmap K A) : Prop :=
  ∀ i j x y b, m !! i = Some x → m !! j = Some y → f x = Some b → f y = Some b → i = j.

(** The foreign keys and the primary key of an org's rows. *)
Definition org_ok (tb : Tables) (o : OrgRow) : bool :=
  fk_user tb (Org_owner o) && forallb (fk_user tb) (Org_members o) &&
  bool_decide (NoDup (Org_members o)).

Definition fk_default_org (tb : Tables) (u : UserRow) : bool :=
  match UR_default_org_id u with Some id => fk_org tb id | None => true end.

(** Every row's id is below its sequence, rows are keyed by their id, foreign
    keys point at rows and unique columns are unique. *)
Record tables_ok (tb : Tables) (q : Seq → Z) : Prop := {
  ids_tasks : ∀ i, is_Some (t_tasks tb !! i) → i < q SeqTasks;
  ids_events : ∀ i, is_Some (t_events tb !! i) → i < q SeqEvents;
  ids_links : ∀ i, is_Some (t_links tb !! i) → i < q SeqLinks;
  ids_schedules : ∀ i, is_Some (t_schedules tb !! i) → i < q SeqSchedules;
  ids_chunks : ∀ i, is_Some (t_chunks tb !! i) → i < q SeqChunks;
  ids_workspaces : ∀ i, is_Some (t_workspaces tb !! i) → i < q SeqWorkspaces;
  task_rows : ∀ i r, t_tasks tb !! i = Some r →
    Row_id r = i ∧ fk_org tb (Row_org_id r) = true;
  event_rows : ∀ i e, t_events tb !! i = Some e →
    Event_ID e = i ∧ fk_task tb (Event_TaskID e) = true;
  link_rows : ∀ i l, t_links tb !! i = Some l →
    Link_ID l = i ∧ fk_task tb (Link_TaskID l) = true;
  chunk_rows : ∀ i c, t_chunks tb !! i = Some c →
    Chunk_ID c = i ∧ fk_task tb (Chunk_TaskID c) = true;
  schedule_rows : ∀ i s, t_schedules tb !! i = Some s →
    Sched_ID s = i ∧ fk_org tb (Sched_OrgID s) && fk_last_task tb (Sched_LastTaskID s) = true;
  workspace_rows : ∀ i ws, t_workspaces tb !! i = Some ws →
    WS_ID ws = i ∧ fk_org tb (WS_OrgID ws) = true;
  seq_orgs : 0 < q SeqOrgs;
  ids_orgs : ∀ i, is_Some (t_orgs tb !! i) → i < q SeqOrgs;
  org_rows : ∀ i o, t_orgs tb !! i = Some o → org_ok tb o = true;
  user_rows : ∀ i u, t_users tb !! i = Some u → UR_id u = i ∧ fk_default_org tb u = true;
  key_rows : ∀ i k, t_keys tb !! i = Some k → KR_id k = i ∧ fk_org tb (KR_org_id k) = true;
  unique_emails : unique_by (λ u, Some (UR_email u)) (t_users tb);
  unique_githubs : unique_by UR_github_user_id (t_users tb);
  unique_atlassians : unique_by UR_atlassian_account_id (t_users tb);
  unique_hashes : unique_by (λ k, Some (KR_token_hash k)) (t_keys tb) }.

Definition healthy (w : World) : Prop := Forall (λ f, f = None) (faults w).

(** Between handlers: no transaction is open. *)
Definition world_ok (w : World) : Prop :=
  open_tx w = None ∧ tables_ok (committed w) (seqs w).

(** The same, decided: how the concrete worlds of the witnesses are checked. *)
Definition all_rows {K A} `{Countable K} (p : K → A → bool) (m : gmap K A) : bool :=
  forallb (λ kv, p kv.1 kv.2) (map_to_list m).

Definition unique_byb {K A B} `{Countable K} `{EqDecision B} (f : A → option B) (m : gmap K A) : bool :=
  all_rows (λ i x, all_rows (λ j y,
    match f x, f y with
    | Some b, Some b' => negb (bool_decide (b = b')) || bool_decide (i = j)
    | _, _ => true
    end) m) m.

Definition accounts_okb (tb : Tables) (q : Seq → Z) : bool :=
  (0 <? q SeqOrgs) &&
  all_rows (λ i o, (i <? q SeqOrgs) && org_ok tb o) (t_orgs tb) &&
  all_rows (λ i u, String.eqb (UR_id u) i && fk_default_org tb u) (t_users tb) &&
  all_rows (λ i k, String.eqb (KR_id k) i && fk_org tb (KR_org_id k)) (t_keys tb) &&
  unique_byb (λ u, Some (UR_email u)) (t_users tb) &&
  unique_byb UR_github_user_id (t_users tb) &&
  unique_byb UR_atlassian_account_id (t_users tb) &&
  unique_byb (λ k, Some (KR_token_hash k)) (t_keys tb).

Definition tables_okb (tb : Tables) (q : Seq → Z) : bool :=
  all_rows (λ i r, (i <? q SeqTasks) && (Row_id r =? i) && fk_org tb (Row_org_id r)) (t_tasks tb) &&
  all_rows (λ i e, (i <? q SeqEvents) && (Event_ID e =? i) && fk_task tb (Event_TaskID e))
    (t_events tb) &&
  all_rows (λ i l, (i <? q SeqLinks) && (Link_ID l =? i) && fk_task tb (Link_TaskID l))
    (t_links tb) &&
  all_rows (λ i s, (i <? q SeqSchedules) && (Sched_ID s =? i) &&
                   (fk_org tb (Sched_OrgID s) && fk_last_task tb (Sched_LastTaskID s)))
    (t_schedules tb) &&
  all_rows (λ i c, (i <? q SeqChunks) && (Chunk_ID c =? i) && fk_task tb (Chunk_TaskID c))
    (t_chunks tb) &&
  all_rows (λ i ws, (i <? q SeqWorkspaces) && (WS_ID ws =? i) && fk_org tb (WS_OrgID ws))
    (t_workspaces tb) &&
  accounts_okb tb q.

Lemma all_rows_spec {K A} `{Countable K} (p : K → A → bool) (m : gmap K A) i x :
  all_rows p m = true → m !! i = Some x → p i x = true.
Proof.
  unfold all_rows. rewrite forallb_forall. intros Hp Hi.
  apply (Hp (i, x)), list_elem_of_In, elem_of_map_to_list, Hi.
Qed.

Lemma unique_byb_spec {K A B} `{Countable K} `{EqDecision B} (f : A → option B) (m : gmap K A) :
  unique_byb f m = true → unique_by f m.
Proof.
  intros Hm i j x y b Hx Hy Hfx Hfy. eapply all_rows_spec in Hm; [|exact Hx].
  eapply all_rows_spec in Hm; [|exact Hy]. cbv beta in Hm. rewrite Hfx, Hfy in Hm.
  rewrite bool_decide_eq_true_2 in Hm by done. by apply bool_decide_eq_true in Hm.
Qed.

Ltac row H Hx := eapply all_rows_spec in H; [|exact Hx]; cbv beta in H; rewrite ?andb_true_iff in H.

Lemma tables_okb_ok tb q : tables_okb tb q = true → tables_ok tb q.
Proof.
  unfold tables_okb, accounts_okb.
  intros ((((((H1 & H2)%andb_true_iff & H3)%andb_true_iff & H4)%andb_true_iff & H5)%andb_true_iff
    & H6)%andb_true_iff & (((((((H0 & H7)%andb_true_iff & H8)%andb_true_iff & H9)%andb_true_iff & H10)%andb_true_iff
    & H11)%andb_true_iff & H12)%andb_true_iff & H13)%andb_true_iff)%andb_true_iff.
  constructor; try by apply unique_byb_spec.
  all: try by apply Z.ltb_lt.
  1-6: intros i [x Hx]; first [row H1 Hx; lia | row H2 Hx; lia | row H3 Hx; lia | row H4 Hx; lia
                              | row H5 Hx; lia | row H6 Hx; lia].
  1-6: intros i x Hx; first [row H1 Hx | row H2 Hx | row H3 Hx | row H4 Hx | row H5 Hx | row H6 Hx];
    (split; [lia | rewrite ?andb_true_iff; tauto]).
  - intros i [x Hx]. row H7 Hx. lia.
  - intros i x Hx. row H7 Hx. tauto.
  - intros i x Hx. row H8 Hx. by rewrite String.eqb_eq in H8.
  - intros i x Hx. row H9 Hx. by rewrite String.eqb_eq in H9.
Qed.

Definition world_okb (w : World) : bool :=
  match open_tx w with Some _ => false | None => tables_okb (committed w) (seqs w) end.

Lemma world_okb_ok w : world_okb w = true → world_ok w.
Proof.
  unfold world_okb, world_ok. destruct (open_tx w); [done|]. intros H.
  split; [done|]. by apply tables_okb_ok.
Qed.

(** Since [w0], [base] is what is committed and [ns] has been published; a
    transaction may be open. *)
Record same (w0 : World) (base : Tables) (ns : list Notification) (w : World) : Prop := {
  same_committed : committed w = base;
  same_published : published w = published w0 ++ ns;
  same_clock : clock w = clock w0;
  same_healthy : healthy w0 → healthy w;
  same_ids : tables_ok base (seqs w) }.

(** ... and an open transaction has the tables [tb]. *)
Record in_tx (w0 : World) (base : Tables) (ns : list Notification) (tb : Tables) (w : World)
    : Prop := {
  it_same : same w0 base ns w;
  it_tx : open_tx w = Some (mkTxState tb false);
  it_ids : tables_ok tb (seqs w) }.

(** ... and no transaction is open. *)
Record at_ (w0 : World) (base : Tables) (ns : list Notification) (w : World) : Prop := {
  at_same : same w0 base ns w;
  at_closed : open_tx w = None }.

Lemma at_world_ok w0 tb ns w : at_ w0 tb ns w → world_ok w.
Proof. intros [[Hc _ _ _ Hi] Ho]. split; [done|]. by rewrite Hc. Qed.

Lemma at_committed w0 tb ns w : at_ w0 tb ns w → committed w = tb.
Proof. by intros [[]]. Qed.

Lemma at_published w0 tb ns w : at_ w0 tb ns w → published w = published w0 ++ ns.
Proof. by intros [[]]. Qed.

Lemma at_refl w : world_ok w → at_ w (committed w) [] w.
Proof. intros [Ho Hi]. split; [|done]. constructor; auto. by rewrite app_nil_r. Qed.

Lemma at_trans w0 w1 w2 tb1 tb2 ns1 ns2 :
  at_ w0 tb1 ns1 w1 → at_ w1 tb2 ns2 w2 → at_ w0 tb2 (ns1 ++ ns2) w2.
Proof.
  intros [[? Hp1 Hc1 Hh1 _] _] [[? Hp2 Hc2 Hh2 ?] ?]. split; [|done]. constructor; auto.
  - by rewrite Hp2, Hp1, app_assoc.
  - congruence.
Qed.

Lemma tables_ok_mono tb q q' : tables_ok tb q → (∀ s, q s ≤ q' s) → tables_ok tb q'.
Proof.
  intros [] Hq. constructor; try assumption; try intros i Hi; eapply Z.lt_le_trans; eauto.
Qed.

Lemma rollback_at w0 base ns w : same w0 base ns w → at_ w0 base ns (Rollback w).
Proof. intros []. by split. Qed.

Lemma Rollback_at w0 tb ns w : at_ w0 tb ns w → at_ w0 tb ns (Rollback w).
Proof. intros [Hs _]. by apply rollback_at. Qed.

(** ** Weakest preconditions *)

Definition wp {A} (m : M A) (Q : Err + A → World → Prop) (w : World) : Prop :=
  let (r, w') := m w in Q r w'.

Lemma wp_mono {A} (m : M A) (Q Q' : Err + A → World → Prop) w :
  wp m Q w → (∀ r w', Q r w' → Q' r w') → wp m Q' w.
Proof. unfold wp. destruct (m w). auto. Qed.

Lemma wp_ret {A} (a : A) Q w : Q (inr a) w → wp (mret a) Q w.
Proof. done. Qed.

Lemma wp_raise {A} e (Q : Err + A → World → Prop) w : Q (inl e) w → wp (raise e) Q w.
Proof. done. Qed.

Lemma wp_bind {A B} (m : M A) (k : A → M B) Q w :
  wp m (λ r w', match r with inl e => Q (inl e) w' | inr a => wp (k a) Q w' end) w →
  wp (m ≫= k) Q w.
Proof. unfold wp, mbind, M_bind. destruct (m w) as [[e|a] w']; auto. Qed.

Lemma wp_catch {A} (m : M A) Q w : wp m (λ r w', Q (inr r) w') w → wp (catch m) Q w.
Proof. unfold wp, catch. by destruct (m w). Qed.

Lemma wp_time_Now Q w : Q (inr (clock w)) w → wp time_Now Q w.
Proof. done. Qed.

Lemma wp_scan_one {A} (r : option A) Q w :
  (r = None → Q (inl ENoRows) w) → (∀ a, r = Some a → Q (inr a) w) → wp (scan_one r) Q w.
Proof. destruct r; unfold wp; simpl; auto. Qed.

(** ** Statements *)

Lemma fault_cases w :
  (∃ msg fs, fault w = (inl (EOther msg), set_faults fs w) ∧ ¬ healthy w ∧
             faults w = Some msg :: fs) ∨
  (∃ fs, fault w = (inr (), set_faults fs w) ∧ (healthy w → Forall (λ f, f = None) fs)).
Proof.
  unfold fault, healthy. destruct w as [tb tx q fs ps c]; simpl.
  destruct fs as [|[msg|] fs].
  - right. exists []. by split.
  - left. exists msg, fs. split; [done|]. split; [|done].
    intros H. by apply Forall_cons in H as [[=] _].
  - right. exists fs. split; [done|]. intros H. by apply Forall_cons in H as [_ H].
Qed.

Lemma same_fault w0 base ns w msg fs tx :
  same w0 base ns w → ¬ healthy w → faults w = Some msg :: fs →
  ¬ healthy w0 ∧ same w0 base ns (set_open_tx tx (set_faults fs w)).
Proof.
  intros [? ? ? Hhe ?] Hn Hf. split; [auto|]. constructor; auto.
  intros H. apply Hhe in H. by destruct Hn.
Qed.

Lemma same_no_fault w0 base ns w fs tx :
  same w0 base ns w → (healthy w → Forall (λ f, f = None) fs) →
  same w0 base ns (set_open_tx tx (set_faults fs w)).
Proof. intros [] Hfs. constructor; auto. intros H. apply Hfs; auto. Qed.

Lemma set_open_tx_same tx w : open_tx w = tx → set_open_tx tx w = w.
Proof. intros <-. by destruct w. Qed.

Section statement_rules.
Context {A : Type} (Q : Err + A → World → Prop).
Context (w0 : World) (base : Tables) (ns : list Notification).

Lemma wp_exec_InTx f tb w :
  in_tx w0 base ns tb w →
  (∀ msg w', ¬ healthy w0 → same w0 base ns w' → Q (inl (EOther msg)) w') →
  (∀ e w', f (clock w0) tb = inl e → same w0 base ns w' → Q (inl e) w') →
  (∀ a tb' w', f (clock w0) tb = inr (a, tb') → seqs w' = seqs w →
     (tables_ok tb' (seqs w') → in_tx w0 base ns tb' w') → Q (inr a) w') →
  wp (exec InTx f) Q w.
Proof.
  intros [Hs Htx Hids] Hfault Herr Hok. unfold wp, exec. rewrite Htx.
  destruct (fault_cases w) as [(msg & fs & -> & Hh & Hfs)|(fs & -> & Hh)].
  - eapply same_fault in Hh as [Hn Hs']; [|done..]. by apply Hfault.
  - change (clock (set_faults fs w)) with (clock w). rewrite (same_clock _ _ _ _ Hs).
    destruct (f (clock w0) tb) as [e|[a tb']] eqn:E.
    + apply Herr; [done|]. by apply same_no_fault.
    + eapply Hok; [done|done|]. intros Hb. split; [|done|done]. by apply same_no_fault.
Qed.

Lemma wp_exec_NoTx f w :
  at_ w0 base ns w →
  (∀ msg w', ¬ healthy w0 → at_ w0 base ns w' → Q (inl (EOther msg)) w') →
  (∀ e w', f (clock w0) base = inl e → at_ w0 base ns w' → Q (inl e) w') →
  (∀ a tb' w', f (clock w0) base = inr (a, tb') → seqs w' = seqs w →
     (tables_ok tb' (seqs w') → at_ w0 tb' ns w') → Q (inr a) w') →
  wp (exec NoTx f) Q w.
Proof.
  intros [Hs Ho] Hfault Herr Hok. unfold wp, exec.
  destruct (fault_cases w) as [(msg & fs & -> & Hh & Hfs)|(fs & -> & Hh)].
  - eapply (same_fault _ _ _ _ _ _ None) in Hh as [Hn Hs']; [|done..].
    rewrite set_open_tx_same in Hs' by done. by apply Hfault.
  - pose proof (same_no_fault _ _ _ _ fs None Hs Hh) as Hh'; clear Hh; rename Hh' into Hh.
    rewrite set_open_tx_same in Hh by done. destruct Hh as [Hc Hp Hk Hhe Hi].
    rewrite Hk, Hc.
    destruct (f (clock w0) base) as [e|[a tb']] eqn:E.
    + apply Herr; [done|]. by split.
    + eapply Hok; [done|done|]. intros Hb. by split.
Qed.

Lemma wp_query_InTx f tb w :
  in_tx w0 base ns tb w →
  (∀ msg w', ¬ healthy w0 → same w0 base ns w' → Q (inl (EOther msg)) w') →
  (∀ w', in_tx w0 base ns tb w' → Q (inr (f (clock w0) tb)) w') →
  wp (query InTx f) Q w.
Proof.
  intros Hi Hf Hok. eapply wp_exec_InTx; [done|done|done|].
  intros a tb' w' [= <- <-] Hq H. apply Hok, H. rewrite Hq. apply Hi.
Qed.

Lemma wp_query_NoTx f w :
  at_ w0 base ns w →
  (∀ msg w', ¬ healthy w0 → at_ w0 base ns w' → Q (inl (EOther msg)) w') →
  (∀ w', at_ w0 base ns w' → Q (inr (f (clock w0) base)) w') →
  wp (query NoTx f) Q w.
Proof.
  intros Hi Hf Hok. eapply wp_exec_NoTx; [done|done|done|].
  intros a tb' w' [= <- <-] Hq H. apply Hok, H. rewrite Hq. apply Hi.
Qed.
End statement_rules.

(** A change of the tables that brings no row of its own. *)
Definition keeps_ids (f : Tables → Tables) : Prop := ∀ tb q, tables_ok tb q → tables_ok (f tb) q.

(** [nextval] as a change of the sequences. *)
Definition bump (q : Seq) (s : Seq → Z) : Seq → Z :=
  λ q', if decide (q' = q) then s q + 1 else s q'.

(** An insert puts one row, at the id the sequence hands out. *)
Definition puts_at (q : Seq) (fk : Tables → bool) (put : Z → Tables → Tables) : Prop :=
  ∀ tb s, tables_ok tb s → fk tb = true → tables_ok (put (s q) tb) (bump q s).

Lemma bump_le q s q' : s q' ≤ bump q s q'.
Proof. unfold bump. case_decide; subst; lia. Qed.

Lemma same_bump w0 base ns q w :
  same w0 base ns w → same w0 base ns (set_seqs (bump q (seqs w)) w).
Proof.
  intros []. constructor; auto. eapply tables_ok_mono; [done|]. intros s. apply bump_le.
Qed.

Section write_rules.
Context (w0 : World) (base : Tables) (ns : list Notification).

Lemma wp_update_InTx (Q : Err + unit → World → Prop) f tb w :
  in_tx w0 base ns tb w → keeps_ids (f (clock w0)) →
  (∀ msg w', ¬ healthy w0 → same w0 base ns w' → Q (inl (EOther msg)) w') →
  (∀ w', in_tx w0 base ns (f (clock w0) tb) w' → Q (inr ()) w') →
  wp (update_rows InTx f) Q w.
Proof.
  intros Hi Hk Hf Hok. eapply wp_exec_InTx; [done|done|done|].
  intros [] tb' w' [= <-] Hq H. apply Hok, H. rewrite Hq. apply Hk, Hi.
Qed.

Lemma wp_update_NoTx (Q : Err + unit → World → Prop) f w :
  at_ w0 base ns w → keeps_ids (f (clock w0)) →
  (∀ msg w', ¬ healthy w0 → at_ w0 base ns w' → Q (inl (EOther msg)) w') →
  (∀ w', at_ w0 (f (clock w0) base) ns w' → Q (inr ()) w') →
  wp (update_rows NoTx f) Q w.
Proof.
  intros Hi Hk Hf Hok. eapply wp_exec_NoTx; [done|done|done|].
  intros [] tb' w' [= <-] Hq H. apply Hok, H. rewrite Hq. apply Hk, Hi.
Qed.

Lemma wp_insert_InTx (Q : Err + Z → World → Prop) q fk put tb w :
  in_tx w0 base ns tb w → puts_at q fk put →
  (∀ msg w', ¬ healthy w0 → same w0 base ns w' → Q (inl (EOther msg)) w') →
  (∀ w', fk tb = false → same w0 base ns w' → Q (inl fk_error) w') →
  (∀ s w', fk tb = true → tables_ok tb s → in_tx w0 base ns (put (s q) tb) w' →
     Q (inr (s q)) w') →
  wp (insert_row q InTx fk put) Q w.
Proof.
  intros [Hs Htx Hi] Hp Hf Hfk Hok. unfold insert_row. apply wp_bind.
  unfold wp at 1; simpl.
  assert (Hi1 : in_tx w0 base ns tb (set_seqs (bump q (seqs w)) w)).
  { split; [by apply same_bump|done|]. eapply tables_ok_mono; [exact Hi|].
    intros s. apply bump_le. }
  eapply wp_exec_InTx; [exact Hi1|exact Hf| |].
  - intros e w' E. destruct (fk tb) eqn:Efk; [done|]. injection E as <-. auto.
  - intros a tb' w' E Hq Hin. destruct (fk tb) eqn:Efk; [|done]. injection E as <- <-.
    apply Hok; [done|done|]. apply Hin. rewrite Hq. by apply Hp.
Qed.

Lemma wp_insert_NoTx (Q : Err + Z → World → Prop) q fk put w :
  at_ w0 base ns w → puts_at q fk put →
  (∀ msg w', ¬ healthy w0 → at_ w0 base ns w' → Q (inl (EOther msg)) w') →
  (∀ w', fk base = false → at_ w0 base ns w' → Q (inl fk_error) w') →
  (∀ s w', fk base = true → tables_ok base s → at_ w0 (put (s q) base) ns w' →
     Q (inr (s q)) w') →
  wp (insert_row q NoTx fk put) Q w.
Proof.
  intros [Hs Ho] Hp Hf Hfk Hok. unfold insert_row. apply wp_bind. unfold wp at 1; simpl.
  assert (Hi1 : at_ w0 base ns (set_seqs (bump q (seqs w)) w)).
  { split; [by apply same_bump|done]. }
  eapply wp_exec_NoTx; [exact Hi1|exact Hf| |].
  - intros e w' E. destruct (fk base) eqn:Efk; [done|]. injection E as <-. auto.
  - intros a tb' w' E Hq Hin. destruct (fk base) eqn:Efk; [|done]. injection E as <- <-.
    apply Hok; [done|apply Hs|]. apply Hin. rewrite Hq. apply Hp; [apply Hs|done].
Qed.

(** ** Transactions *)

Lemma wp_WithTx {A} (f : Tx → M A) (Q : Err + A → World → Prop) w :
  at_ w0 base ns w →
  (∀ msg w', ¬ healthy w0 → at_ w0 base ns w' → Q (inl (EOther msg)) w') →
  (∀ w', in_tx w0 base ns base w' → wp (f InTx) (λ r w', Q r (Rollback w')) w') →
  wp (WithTx NoTx f) Q w.
Proof.
  intros [Hs Ho] Hf Hok. unfold WithTx. apply wp_bind. unfold wp at 1, BeginTx.
  destruct (fault_cases w) as [(msg & fs & -> & Hh & Hfs)|(fs & -> & Hh)].
  - eapply (same_fault _ _ _ _ _ _ None) in Hh as [Hn Hs']; [|done..].
    rewrite set_open_tx_same in Hs' by done. by apply Hf.
  - set (w1 := set_open_tx _ _). specialize (Hok w1). unfold wp, finally in *.
    destruct (f InTx w1) as [r w'] eqn:E. apply Hok.
    split; [by apply same_no_fault | | apply Hs].
    simpl. by rewrite (same_committed _ _ _ _ Hs).
Qed.

Lemma wp_Commit (Q : Err + unit → World → Prop) tb w :
  in_tx w0 base ns tb w →
  (∀ msg w', ¬ healthy w0 → same w0 base ns w' → Q (inl (EOther msg)) w') →
  (∀ w', at_ w0 tb ns w' → Q (inr ()) w') →
  wp (Commit InTx) Q w.
Proof.
  intros [Hs Htx Hi] Hf Hok. unfold wp, Commit. rewrite Htx.
  destruct (fault_cases w) as [(msg & fs & -> & Hh & Hfs)|(fs & -> & Hh)].
  - eapply same_fault in Hh as [Hn Hs']; [|done..]. by apply Hf.
  - pose proof (same_no_fault _ _ _ _ fs None Hs Hh) as Hh'; clear Hh; rename Hh' into Hh.
    apply Hok. destruct Hh as [? ? ? ? ?]. by split.
Qed.

Lemma wp_publish n Q w :
  at_ w0 base ns w →
  (∀ w', at_ w0 base (if N_Ignore n then ns else ns ++ [n]) w' → Q (inr ()) w') →
  wp (publish n) Q w.
Proof.
  intros [[Hc Hp Hk Hh Hi] Ho] HQ. unfold wp, publish. apply HQ.
  destruct (N_Ignore n); split; try done; constructor; auto.
  simpl. by rewrite Hp, app_assoc.
Qed.
End write_rules.

Lemma insert_below {A} (m : gmap Z A) id (a : A) (n : Z) :
  (∀ i, is_Some (m !! i) → i < n) → n ≤ id →
  ∀ i, is_Some (<[id := a]> m !! i) → i < id + 1.
Proof.
  intros Hm Hn i. rewrite lookup_insert_is_Some. intros [<-|[_ Hi]]; [lia|].
  specialize (Hm i Hi). lia.
Qed.

Lemma insert_keeps {A} (m : gmap Z A) id (a : A) (n : Z) :
  (∀ i, is_Some (m !! i) → i < n) → is_Some (m !! id) →
  ∀ i, is_Some (<[id := a]> m !! i) → i < n.
Proof.
  intros Hm Hid i. rewrite lookup_insert_is_Some. intros [<-|[_ Hi]]; auto.
Qed.

(** ** The operations' rows *)

Lemma select_task_Some tb id orgID r :
  select_task tb id orgID = Some r ↔ t_tasks tb !! id = Some r ∧ Row_org_id r = orgID.
Proof.
  unfold select_task. destruct (t_tasks tb !! id) as [r'|]; simpl; [|naive_solver].
  destruct (Z.eqb_spec (Row_org_id r') orgID); naive_solver.
Qed.

Lemma select_schedule_Some tb id orgID s :
  select_schedule tb id orgID = Some s ↔ t_schedules tb !! id = Some s ∧ Sched_OrgID s = orgID.
Proof.
  unfold select_schedule. destruct (t_schedules tb !! id) as [s'|]; simpl; [|naive_solver].
  destruct (Z.eqb_spec (Sched_OrgID s') orgID); naive_solver.
Qed.

Lemma fk_task_insert tb i r id :
  fk_task tb id = true → fk_task (with_tasks <[i := r]> tb) id = true.
Proof.
  unfold fk_task. rewrite !bool_decide_eq_true. simpl. rewrite lookup_insert_is_Some.
  destruct (decide (i = id)); auto.
Qed.

Lemma select_task_fk tb id orgID r : select_task tb id orgID = Some r → fk_task tb id = true.
Proof.
  intros [H _]%select_task_Some. unfold fk_task. apply bool_decide_eq_true. by rewrite H.
Qed.

Lemma select_task_ok tb q id orgID r :
  tables_ok tb q → select_task tb id orgID = Some r →
  Row_id r = id ∧ Row_org_id r = orgID ∧ fk_task tb id = true ∧ fk_org tb orgID = true.
Proof.
  intros Hok H. pose proof (select_task_fk _ _ _ _ H). apply select_task_Some in H as [H Ho].
  destruct (task_rows _ _ Hok _ _ H) as [? Hfk]. by rewrite Ho in Hfk.
Qed.

(** The rows of a table after an insert: the new one, or an old one. *)
Ltac row_cases :=
  let i := fresh "i" in let x := fresh "x" in let Hx := fresh "Hx" in
  intros i x Hx; simpl in Hx; apply lookup_insert_Some in Hx as [[<- <-]|[_ Hx]]; [simpl|eauto].

Lemma fk_schedule_insert tb i r j s :
  Sched_ID s = j ∧ fk_org tb (Sched_OrgID s) && fk_last_task tb (Sched_LastTaskID s) = true →
  Sched_ID s = j ∧ fk_org (with_tasks <[i := r]> tb) (Sched_OrgID s) &&
    fk_last_task (with_tasks <[i := r]> tb) (Sched_LastTaskID s) = true.
Proof.
  unfold fk_last_task. intros [? [Ho Hl]%andb_true_iff]. split; [done|].
  apply andb_true_iff. split; [done|]. destruct (Sched_LastTaskID s); [|done].
  by apply fk_task_insert.
Qed.

Ltac solve_puts :=
  intros tb q0 Hok Hfk; pose proof Hok as []; constructor; simpl; unfold bump; simpl; try done;
  try (eapply insert_below; [eassumption | lia]);
  try row_cases.

Lemma puts_task now t :
  puts_at SeqTasks (λ tb, fk_org tb (Task_OrgID t))
    (λ id, with_tasks <[id := taskRow id now now t]>).
Proof.
  solve_puts; [done|intros i x Hx; (split; [|apply fk_task_insert]);
    solve [by eapply event_rows | by eapply link_rows | by eapply chunk_rows]..|].
  intros i x Hx. by apply fk_schedule_insert, (schedule_rows _ _ Hok).
Qed.


Lemma puts_event now e :
  puts_at SeqEvents (λ tb, fk_task tb (Event_TaskID e) && fk_org tb (Event_OrgID e))
    (λ id, with_events <[id := set_Event_CreatedAt now (set_Event_ID id e)]>).
Proof. solve_puts. split; [done|]. by apply andb_true_iff in Hfk as [? _]. Qed.

Lemma puts_link l :
  puts_at SeqLinks (λ tb, fk_task tb (Link_TaskID l)) (λ id, with_links <[id := set_Link_ID id l]>).
Proof. solve_puts. by split. Qed.

Lemma puts_schedule now s :
  puts_at SeqSchedules
    (λ tb, fk_org tb (Sched_OrgID s) && fk_last_task tb (Sched_LastTaskID s) &&
           fk_user tb (Sched_CreatedBy s))
    (λ id, with_schedules <[id := scheduleRow id now now s]>).
Proof. solve_puts. split; [done|]. by apply andb_true_iff in Hfk as [? _]. Qed.

Lemma puts_chunk orgID taskID version data now :
  puts_at SeqChunks (λ tb, fk_task tb taskID && fk_org tb orgID)
    (λ id, with_chunks <[id := mkLogChunk id orgID taskID version data now]>).
Proof. solve_puts. split; [done|]. by apply andb_true_iff in Hfk as [? _]. Qed.

Lemma puts_workspace now runnerID name description orgID :
  puts_at SeqWorkspaces (λ tb, fk_org tb orgID)
    (λ id, with_workspaces <[id := mkWorkspace id runnerID name description orgID now]>).
Proof. solve_puts. by split. Qed.

Lemma keeps_put_task t now : keeps_ids (put_task t now).
Proof.
  intros tb q Hi. unfold put_task. destruct (select_task _ _ _) as [r|] eqn:E; [|done].
  destruct (select_task_ok _ _ _ _ _ Hi E) as (Hid & Horg & _ & Hfk).
  apply select_task_Some in E as [E _]. destruct Hi; constructor; simpl; try done.
  - apply insert_keeps; [done|]. by rewrite E.
  - row_cases. by rewrite Horg.
  - intros i x Hx. destruct (event_rows0 _ _ Hx). split; [done|]. by apply fk_task_insert.
  - intros i x Hx. destruct (link_rows0 _ _ Hx). split; [done|]. by apply fk_task_insert.
  - intros i x Hx. destruct (chunk_rows0 _ _ Hx). split; [done|]. by apply fk_task_insert.
  - intros i x Hx. apply fk_schedule_insert. by apply schedule_rows0.
Qed.

Lemma keeps_with_schedule id s tb q :
  is_Some (t_schedules tb !! id) → Sched_ID s = id →
  fk_org tb (Sched_OrgID s) && fk_last_task tb (Sched_LastTaskID s) = true →
  tables_ok tb q → tables_ok (with_schedules <[id := s]> tb) q.
Proof.
  intros Hs Hid Hfk []. constructor; simpl; try done; [by apply insert_keeps|].
  by row_cases.
Qed.

Lemma select_schedule_ok tb q id orgID s :
  tables_ok tb q → select_schedule tb id orgID = Some s →
  is_Some (t_schedules tb !! id) ∧ Sched_ID s = id ∧ Sched_OrgID s = orgID ∧
  fk_org tb (Sched_OrgID s) = true ∧ fk_last_task tb (Sched_LastTaskID s) = true.
Proof.
  intros Hok [H Ho]%select_schedule_Some.
  destruct (schedule_rows _ _ Hok _ _ H) as [? [? ?]%andb_true_iff]. by rewrite H.
Qed.

Lemma keeps_put_schedule s now tb r q :
  put_schedule s now tb = inr r → tables_ok tb q → tables_ok (snd r) q.
Proof.
  unfold put_schedule. intros E Hok. revert E.
  destruct (select_schedule _ _ _) as [s'|] eqn:E; [|by intros [= <-]].
  destruct (select_schedule_ok _ _ _ _ _ Hok E) as (? & ? & ? & Ho & ?).
  case_match; [|done]. intros [= <-]. apply keeps_with_schedule; [done..| |done]. simpl.
  by rewrite Ho.
Qed.

Lemma keeps_advance id orgID adv now tb r q :
  advance_schedule id orgID adv now tb = inr r → tables_ok tb q → tables_ok (snd r) q.
Proof.
  unfold advance_schedule. intros E Hok. revert E.
  destruct (select_schedule _ _ _) as [s'|] eqn:E; [|by intros [= <-]].
  destruct (select_schedule_ok _ _ _ _ _ Hok E) as (? & ? & ? & Ho & ?).
  case_match; [|done]. intros [= <-]. apply keeps_with_schedule; [done..| |done]. simpl.
  by rewrite Ho.
Qed.

Ltac solve_deletes :=
  constructor; simpl; try done;
  [ intros i Hd; apply lookup_delete_is_Some in Hd as [_ Hd]; auto
  | intros i x Hd; apply lookup_delete_Some in Hd as [_ Hd]; auto ].

Lemma keeps_delete_event id orgID :
  keeps_ids (λ tb, match t_events tb !! id with
    | Some e => if Event_OrgID e =? orgID then with_events (delete id) tb else tb
    | None => tb end).
Proof. intros tb q Hi. repeat case_match; try done. destruct Hi. solve_deletes. Qed.

Lemma keeps_delete_schedule id orgID :
  keeps_ids (λ tb, match select_schedule tb id orgID with
    | Some _ => with_schedules (delete id) tb
    | None => tb end).
Proof. intros tb q Hi. repeat case_match; try done. destruct Hi. solve_deletes. Qed.

Lemma keeps_filter_workspaces P `{!∀ kv, Decision (P kv)} :
  keeps_ids (with_workspaces (filter P)).
Proof.
  intros tb q []. constructor; simpl; try done.
  - intros i [ws Hws]. apply map_lookup_filter_Some in Hws as [Hws _]. eauto.
  - intros i ws Hws. apply map_lookup_filter_Some in Hws as [Hws _]. eauto.
Qed.

#[export] Hint Resolve puts_task puts_event puts_link puts_schedule puts_chunk puts_workspace
  keeps_put_task keeps_delete_event keeps_delete_schedule keeps_filter_workspaces : gritz.

(** ** Rules for the statements a state is known for *)

Lemma wp_time_at Q w0 tb ns w : at_ w0 tb ns w → Q (inr (clock w0)) w → wp time_Now Q w.
Proof. intros [[]] H. apply wp_time_Now. congruence. Qed.

Lemma wp_time_tx Q w0 base ns tb w :
  in_tx w0 base ns tb w → Q (inr (clock w0)) w → wp time_Now Q w.
Proof. intros [[] _ _] H. apply wp_time_Now. congruence. Qed.

(** What is left to show about a body's result: it holds in any state between
    transactions that agrees with where the body stopped. *)
Definition after_rollback {A} (w0 : World) (Q : Err + A → World → Prop) (r : Err + A) (w : World)
    : Prop :=
  ∃ base ns, same w0 base ns w ∧ ∀ w', at_ w0 base ns w' → Q r w'.

Lemma wp_WithTx_rollback {A} (f : Tx → M A) (Q : Err + A → World → Prop) w0 base ns w :
  at_ w0 base ns w →
  (∀ msg w', ¬ healthy w0 → at_ w0 base ns w' → Q (inl (EOther msg)) w') →
  (∀ w', in_tx w0 base ns base w' → wp (f InTx) (after_rollback w0 Q) w') →
  wp (WithTx NoTx f) Q w.
Proof.
  intros Hat Hf Hok. eapply wp_WithTx; [done|done|]. intros w' Hw'.
  eapply wp_mono; [by apply Hok|]. intros r w'' (b & n & Hs & HQ). apply HQ.
  by apply rollback_at.
Qed.

Lemma after_rollback_intro {A} w0 (Q : Err + A → World → Prop) r base ns w :
  same w0 base ns w → (∀ w', at_ w0 base ns w' → Q r w') → after_rollback w0 Q r w.
Proof. unfold after_rollback. eauto. Qed.

(** ** What a handler does *)

(** On an error nothing is committed or published, and an error that no fault
    explains is one of [err]; otherwise [ok] relates the result to the tables
    committed and the notifications published. *)
Definition outcome {A} (w0 : World) (ok : A → Tables → list Notification → Prop)
    (err : Err → Prop) (r : Err + A) (w : World) : Prop :=
  match r with
  | inl e => at_ w0 (committed w0) [] w ∧ (healthy w0 → err e)
  | inr a => ∃ tb ns, at_ w0 tb ns w ∧ ok a tb ns
  end.

Definition HandlerSpec {A} (m : M A) (ok : Z → Tables → A → Tables → list Notification → Prop)
    (err : Tables → Err → Prop) : Prop :=
  ∀ w, world_ok w → wp m (outcome w (ok (clock w) (committed w)) (err (committed w))) w.

Lemma HandlerSpec_run {A} (m : M A) ok err w r w' :
  HandlerSpec m ok err → world_ok w → m w = (r, w') →
  outcome w (ok (clock w) (committed w)) (err (committed w)) r w'.
Proof. intros Hm Hw Hr. specialize (Hm w Hw). unfold wp in Hm. by rewrite Hr in Hm. Qed.

(** One construct of a computation whose state is known. *)
Ltac wp_step :=
  lazymatch goal with
  | |- wp (mret _) _ _ => apply wp_ret
  | |- wp (raise _) _ _ => apply wp_raise
  | |- wp (mbind _ _) _ _ => apply wp_bind
  | |- wp (catch _) _ _ => apply wp_catch
  | |- wp (scan_one _) _ _ => apply wp_scan_one; [intros ? | intros ? ?]
  | H : at_ _ _ _ ?w |- wp time_Now _ ?w => eapply (wp_time_at _ _ _ _ _ H)
  | H : in_tx _ _ _ _ ?w |- wp time_Now _ ?w => eapply (wp_time_tx _ _ _ _ _ _ H)
  | H : at_ _ _ _ ?w |- wp (query NoTx _) _ ?w =>
      eapply wp_query_NoTx; [exact H | intros ? ? ? ? | intros ? ?]; clear H
  | H : in_tx _ _ _ _ ?w |- wp (query InTx _) _ ?w =>
      eapply wp_query_InTx; [exact H | intros ? ? ? ? | intros ? ?]; clear H
  | H : at_ _ _ _ ?w |- wp (update_rows NoTx _) _ ?w =>
      eapply wp_update_NoTx; [exact H | auto with gritz | intros ? ? ? ? | intros ? ?]; clear H
  | H : in_tx _ _ _ _ ?w |- wp (update_rows InTx _) _ ?w =>
      eapply wp_update_InTx; [exact H | auto with gritz | intros ? ? ? ? | intros ? ?]; clear H
  | H : at_ _ _ _ ?w |- wp (insert_row _ NoTx _ _) _ ?w =>
      eapply wp_insert_NoTx;
        [exact H | auto with gritz | intros ? ? ? ? | intros ? ? ? | intros ? ? ? ? ?]; clear H
  | H : in_tx _ _ _ _ ?w |- wp (insert_row _ InTx _ _) _ ?w =>
      eapply wp_insert_InTx;
        [exact H | auto with gritz | intros ? ? ? ? | intros ? ? ? | intros ? ? ? ? ?]; clear H
  | H : at_ _ _ _ ?w |- wp (WithTx NoTx _) _ ?w =>
      eapply wp_WithTx_rollback; [exact H | intros ? ? ? ? | intros ? ?]; clear H
  | H : in_tx _ _ _ _ ?w |- wp (Commit InTx) _ ?w =>
      eapply wp_Commit; [exact H | intros ? ? ? ? | intros ? ?]; clear H
  | H : at_ _ _ _ ?w |- wp (publish _) _ ?w =>
      eapply wp_publish; [exact H | intros ? ?]; clear H
  | H : in_tx _ _ _ _ ?w |- after_rollback _ _ _ ?w =>
      eapply after_rollback_intro; [exact (it_same _ _ _ _ _ H) | intros ? ?]; clear H
  | H : at_ _ _ _ ?w |- after_rollback _ _ _ ?w =>
      eapply after_rollback_intro; [exact (at_same _ _ _ _ H) | intros ? ?]; clear H
  | H : same _ _ _ ?w |- after_rollback _ _ _ ?w =>
      eapply after_rollback_intro; [exact H | intros ? ?]; clear H
  | |- wp (if negb ?b then _ else _) _ _ => destruct b eqn:?; cbn [negb]
  | |- wp (if ?b then _ else _) _ _ => destruct b eqn:?
  | |- wp (match ?x with _ => _ end) _ _ => destruct x eqn:?
  end; cbv beta iota.

Ltac wp := repeat wp_step.

(** The error branches of a [HandlerSpec]: the state is the one to show, and
    a fault contradicts the health of the database. *)
Ltac wp_err :=
  match goal with
  | |- outcome _ _ _ (inl _) _ =>
      split; [assumption|]; intros Hhealthy; try contradiction
  | _ => idtac
  end.

(** ** Rows for concrete worlds *)

Definition org_of (members : list string) (rules : list RoutingRule) : OrgRow :=
  mkOrgRow "org" (hd "u1" members) false "" rules 0 0 None
    (map (λ u, mkOrgMember u "member" 0) members).

Definition users_of (ids : list string) : gmap string UserRow :=
  list_to_map (map (λ id, (id, mkUserRow id (id +:+ "@x") "" None None None "" None 0 0)) ids).
