(* ===== verification/StoreAccounts.v ===== *)
(** * The store's accounts: organisations, users and keys

    Models [internal/store/org.go], [user.go] and [key.go] with their queries
    ([store/sql/queries/org.sql], [user.sql], [key.sql]): the operations, the
    constraints they run into (foreign keys, primary keys, unique indexes), and
    that none of them breaks the tables.  [DestroyOrg], which only tests call,
    is left out. *)

From S2P Require Import Prelude AuthScope ScopeParse EventModel TaskModel Links PubSub.
From S2P Require Import ScheduleModel Rules Store StoreOps StoreLogic.

(** ** The model's records ([internal/model/org.go], [user.go], [key.go]) *)

Record Org := mkOrg {
  Org_ID : Z; Org_Name : string; Org_Owner : string; Org_Archived : bool;
  Org_CreatedAt : Z; Org_UpdatedAt : Z; Org_GitHubInstallationID : Z;
  Org_AtlassianWebhookSecret : string }.

Record OrgMemberWithUser := mkMemberWithUser {
  MU_OrgID : Z; MU_Member : OrgMember; MU_Email : string; MU_Name : string }.

Record User := mkUserModel {
  U_ID : string; U_Email : string; U_Name : string; U_GitHubUserID : Z; U_GitHubUsername : string;
  U_AtlassianAccountID : string; U_AtlassianUsername : string; U_DefaultOrgID : Z;
  U_CreatedAt : Z; U_UpdatedAt : Z }.

Definition HasGitHub (u : User) : bool := negb (U_GitHubUserID u =? 0).
Definition HasAtlassian (u : User) : bool := negb (String.eqb (U_AtlassianAccountID u) "").

Record Key := mkKey {
  Key_ID : string; Key_Name : string; Key_TokenHash : string; Key_OrgID : Z;
  Key_ExpiresAt : option Z; Key_CreatedAt : Z; Key_Scopes : Scopes }.

Definition IsExpired (k : Key) (now : Z) : bool :=
  match Key_ExpiresAt k with Some t => t <? now | None => false end.

(** ** Writes that a constraint may refuse *)

Definition unique_error : Err := EOther "duplicate key value violates unique constraint".

Definition write_row (tx : Tx) (check : Tables → option Err) (put : Z → Tables → Tables) : M unit :=
  exec tx (λ now tb, match check tb with Some err => inl err | None => inr ((), put now tb) end).

(** Another row with the value [b] in the column [f]. *)
Definition taken {A B} `{EqDecision B} (f : A → option B) (m : gmap string A) (id : string)
    (b : option B) : bool :=
  match b with
  | None => false
  | Some b => existsb (λ kv, negb (String.eqb kv.1 id) && bool_decide (f kv.2 = Some b)) (map_to_list m)
  end.

(** ** Organisations *)

Definition new_org_row (name owner : string) (now : Z) : OrgRow :=
  mkOrgRow name owner false "" [] now now None [].

Definition CreateOrg (tx : Tx) (name owner : string) : M Org :=
  now ← time_Now;
  id ← insert_row SeqOrgs tx (λ tb, fk_user tb owner)
         (λ id, with_orgs <[id := new_org_row name owner now]>);
  mret (mkOrg id name owner false now now 0 "").

Definition toModelOrg (id : Z) (r : OrgRow) : Org :=
  mkOrg id (Org_name r) (Org_owner r) (Org_archived r) (Org_created_at r) (Org_updated_at r)
    (default 0 (Org_installation r)) (Org_webhook_secret r).

Definition GetOrg (tx : Tx) (id : Z) : M Org :=
  r ← query tx (λ _ tb, toModelOrg id <$> t_orgs tb !! id);
  scan_one r.

(** [ORDER BY o.name], in the order of bytes. *)
Definition name_le (a b : Org) : Prop := String.le (Org_Name a) (Org_Name b).

#[export] Instance name_le_dec a b : Decision (name_le a b).
Proof. unfold name_le. apply _. Defined.

Definition clear_secret (o : Org) : Org :=
  mkOrg (Org_ID o) (Org_Name o) (Org_Owner o) (Org_Archived o) (Org_CreatedAt o) (Org_UpdatedAt o)
    (Org_GitHubInstallationID o) "".

Definition ListOrgsByMember (tx : Tx) (userID : string) : M (list Org) :=
  query tx (λ _ tb, merge_sort name_le
    (omap (λ kv, if contains_string (Org_members kv.2) userID && negb (Org_archived kv.2)
                 then Some (clear_secret (toModelOrg kv.1 kv.2)) else None)
          (map_to_list (t_orgs tb)))).

Definition org_set_name n now r := mkOrgRow n (Org_owner r) (Org_archived r) (Org_webhook_secret r)
  (Org_rules r) (Org_created_at r) now (Org_installation r) (Org_memberships r).
Definition org_set_archived (now : Z) r := mkOrgRow (Org_name r) (Org_owner r) true (Org_webhook_secret r)
  (Org_rules r) (Org_created_at r) now (Org_installation r) (Org_memberships r).
Definition org_set_secret s r := mkOrgRow (Org_name r) (Org_owner r) (Org_archived r) s
  (Org_rules r) (Org_created_at r) (Org_updated_at r) (Org_installation r) (Org_memberships r).
Definition org_set_rules rs now r := mkOrgRow (Org_name r) (Org_owner r) (Org_archived r)
  (Org_webhook_secret r) rs (Org_created_at r) now (Org_installation r) (Org_memberships r).
Definition org_set_installation i now r := mkOrgRow (Org_name r) (Org_owner r) (Org_archived r)
  (Org_webhook_secret r) (Org_rules r) (Org_created_at r) now i (Org_memberships r).
Definition org_set_members ms r := mkOrgRow (Org_name r) (Org_owner r) (Org_archived r)
  (Org_webhook_secret r) (Org_rules r) (Org_created_at r) (Org_updated_at r) (Org_installation r) ms.

Definition UpdateOrg (tx : Tx) (id : Z) (name : string) : M unit :=
  update_rows tx (λ now, with_orgs (alter (org_set_name name now) id)).

Definition ArchiveOrg (tx : Tx) (id : Z) : M unit :=
  update_rows tx (λ now, with_orgs (alter (org_set_archived now) id)).

(** [ON CONFLICT (org_id, user_id) DO NOTHING]. *)
Definition add_member (m : OrgMember) (r : OrgRow) : OrgRow :=
  if contains_string (Org_members r) (Member_UserID m) then r
  else org_set_members (Org_memberships r ++ [m]) r.

Definition StoreAddOrgMember (tx : Tx) (orgID : Z) (userID role : string) : M unit :=
  write_row tx (λ tb, if fk_org tb orgID && fk_user tb userID then None else Some fk_error)
    (λ now, with_orgs (alter (add_member (mkOrgMember userID role now)) orgID)).

Definition remove_member (userID : string) (r : OrgRow) : OrgRow :=
  org_set_members (filter (λ m, Member_UserID m ≠ userID) (Org_memberships r)) r.

Definition StoreRemoveOrgMember (tx : Tx) (orgID : Z) (userID : string) : M unit :=
  update_rows tx (λ _, with_orgs (alter (remove_member userID) orgID)).

Definition org_memberships (tb : Tables) (orgID : Z) : list OrgMember :=
  order_by Member_CreatedAt (from_option Org_memberships [] (t_orgs tb !! orgID)).

Definition StoreListOrgMembers (tx : Tx) (orgID : Z) : M (list OrgMember) :=
  query tx (λ _ tb, org_memberships tb orgID).

Definition member_with_user (tb : Tables) (orgID : Z) (m : OrgMember) : option OrgMemberWithUser :=
  u ← t_users tb !! Member_UserID m;
  Some (mkMemberWithUser orgID m (UR_email u) (UR_name u)).

Definition ListOrgMembersWithUsers (tx : Tx) (orgID : Z) : M (list OrgMemberWithUser) :=
  query tx (λ _ tb, omap (member_with_user tb orgID) (org_memberships tb orgID)).

Definition is_org_member (tb : Tables) (orgID : Z) (userID : string) : bool :=
  match t_orgs tb !! orgID with
  | Some r => contains_string (Org_members r) userID && negb (Org_archived r)
  | None => false
  end.

Definition IsOrgMember (tx : Tx) (orgID : Z) (userID : string) : M bool :=
  query tx (λ _ tb, is_org_member tb orgID userID).

Definition not_member (userID : string) (orgID : Z) : Err :=
  EOther ("user " +:+ userID +:+ " is not a member of org " +:+ FormatInt orgID).

Definition ResolveOrgOwner (tx : Tx) (orgID : Z) (userID : string) : M Z :=
  ok ← IsOrgMember tx orgID userID;
  if negb (ok : bool) then raise (not_member userID orgID) else mret orgID.

Definition GetOrgAtlassianWebhookSecret (tx : Tx) (orgID : Z) : M string :=
  r ← query tx (λ _ tb, Org_webhook_secret <$> t_orgs tb !! orgID);
  scan_one r.

Definition SetOrgAtlassianWebhookSecret (tx : Tx) (orgID : Z) (secret : string) : M unit :=
  update_rows tx (λ _, with_orgs (alter (org_set_secret secret) orgID)).

Definition SetOrgGitHubInstallation (tx : Tx) (orgID installationID : Z) : M unit :=
  update_rows tx (λ now, with_orgs (alter (org_set_installation (Some installationID) now) orgID)).

Definition clear_installation (installationID now : Z) (r : OrgRow) : OrgRow :=
  if bool_decide (Org_installation r = Some installationID) then org_set_installation None now r else r.

Definition ClearGitHubInstallation (tx : Tx) (installationID : Z) : M unit :=
  update_rows tx (λ now, with_orgs (fmap (clear_installation installationID now))).

Definition installation_orgs (tb : Tables) (installationID : Z) : list Z :=
  omap (λ kv, if bool_decide (Org_installation kv.2 = Some installationID) && negb (Org_archived kv.2)
              then Some kv.1 else None) (map_to_list (t_orgs tb)).

Definition ListOrgIDsByGitHubInstallation (tx : Tx) (installationID : Z) : M (list Z) :=
  query tx (λ _ tb, installation_orgs tb installationID).

Definition GetOrgRoutingRules (tx : Tx) (orgID : Z) : M (list RoutingRule) :=
  r ← query tx (λ _ tb, Org_rules <$> t_orgs tb !! orgID);
  scan_one r.

Definition SetOrgRoutingRules (tx : Tx) (orgID : Z) (rules : list RoutingRule) : M unit :=
  update_rows tx (λ now, with_orgs (alter (org_set_rules rules now) orgID)).

Definition GetRoutingRulesByOrgs (tx : Tx) (orgIDs : list Z) : M (gmap Z (list RoutingRule)) :=
  query tx (λ _ tb, Org_rules <$> filter (λ kv, kv.1 ∈ orgIDs) (t_orgs tb)).

(** ** Users *)

Definition toModelUser (r : UserRow) : User :=
  mkUserModel (UR_id r) (UR_email r) (UR_name r) (default 0 (UR_github_user_id r))
    (default "" (UR_github_username r)) (default "" (UR_atlassian_account_id r))
    (UR_atlassian_username r) (default 0 (UR_default_org_id r)) (UR_created_at r) (UR_updated_at r).

Definition email_taken (tb : Tables) (id email : string) : bool :=
  taken (λ u, Some (UR_email u)) (t_users tb) id (Some email).
Definition github_taken (tb : Tables) (id : string) (githubUserID : option Z) : bool :=
  taken UR_github_user_id (t_users tb) id githubUserID.
Definition atlassian_taken (tb : Tables) (id : string) (accountID : option string) : bool :=
  taken UR_atlassian_account_id (t_users tb) id accountID.

(** [INSERT ... ON CONFLICT (id) DO UPDATE]. *)
Definition upsert_user (id email name : string) (now : Z) (old : option UserRow) : UserRow :=
  match old with
  | None => mkUserRow id email name None None None "" None now now
  | Some r => mkUserRow id email name (UR_github_user_id r) (UR_github_username r)
                (UR_atlassian_account_id r) (UR_atlassian_username r) (UR_default_org_id r)
                (UR_created_at r) now
  end.

Definition put_user (id email name : string) (now : Z) (tb : Tables) : Tables :=
  with_users <[id := upsert_user id email name now (t_users tb !! id)]> tb.

(** The user, with [DefaultOrgID] read back from the row. *)
Definition UpsertUser (tx : Tx) (id email name : string) : M User :=
  exec tx (λ now tb,
    if email_taken tb id email then inl unique_error
    else inr (let r := upsert_user id email name now (t_users tb !! id) in
              mkUserModel id email name 0 "" "" "" (default 0 (UR_default_org_id r))
                (UR_created_at r) (UR_updated_at r),
              put_user id email name now tb)).

Definition GetUser (tx : Tx) (id : string) : M User :=
  r ← query tx (λ _ tb, toModelUser <$> t_users tb !! id);
  scan_one r.

(** The row with [b] in a unique column. *)
Definition user_by {B} `{EqDecision B} (f : UserRow → option B) (tb : Tables) (b : B) : option UserRow :=
  head (filter (λ u, f u = Some b) (map snd (map_to_list (t_users tb)))).

Definition get_user_by {B} `{EqDecision B} (f : UserRow → option B) (tx : Tx) (b : B) : M User :=
  r ← query tx (λ _ tb, toModelUser <$> user_by f tb b);
  scan_one r.

Definition GetUserByEmail (tx : Tx) (email : string) : M User :=
  get_user_by (λ u, Some (UR_email u)) tx email.
Definition GetUserByGitHubUserID (tx : Tx) (githubUserID : Z) : M User :=
  get_user_by UR_github_user_id tx githubUserID.
Definition GetUserByAtlassianAccountID (tx : Tx) (accountID : string) : M User :=
  get_user_by UR_atlassian_account_id tx accountID.

Definition user_set_github gid login now r := mkUserRow (UR_id r) (UR_email r) (UR_name r) gid login
  (UR_atlassian_account_id r) (UR_atlassian_username r) (UR_default_org_id r) (UR_created_at r) now.
Definition user_set_atlassian aid name now r := mkUserRow (UR_id r) (UR_email r) (UR_name r)
  (UR_github_user_id r) (UR_github_username r) aid name (UR_default_org_id r) (UR_created_at r) now.
Definition user_set_default_org o now r := mkUserRow (UR_id r) (UR_email r) (UR_name r)
  (UR_github_user_id r) (UR_github_username r) (UR_atlassian_account_id r) (UR_atlassian_username r)
  o (UR_created_at r) now.

Definition LinkGitHubAccount (tx : Tx) (userID : string) (githubUserID : Z) (username : string)
    : M unit :=
  write_row tx (λ tb, if fk_user tb userID && github_taken tb userID (Some githubUserID)
                      then Some unique_error else None)
    (λ now, with_users (alter (user_set_github (Some githubUserID) (Some username) now) userID)).

Definition StoreUnlinkGitHubAccount (tx : Tx) (userID : string) : M unit :=
  update_rows tx (λ now, with_users (alter (user_set_github None (Some "") now) userID)).

Definition rename_github (githubUserID : Z) (username : string) (now : Z) (r : UserRow) : UserRow :=
  if bool_decide (UR_github_user_id r = Some githubUserID)
  then user_set_github (UR_github_user_id r) (Some username) now r else r.

Definition UpdateGitHubUsername (tx : Tx) (githubUserID : Z) (username : string) : M unit :=
  update_rows tx (λ now, with_users (fmap (rename_github githubUserID username now))).

Definition null_int (z : Z) : option Z := if z =? 0 then None else Some z.

Definition UpdateDefaultOrgID (tx : Tx) (userID : string) (orgID : Z) : M unit :=
  write_row tx (λ tb, if fk_user tb userID && negb (from_option (fk_org tb) true (null_int orgID))
                      then Some fk_error else None)
    (λ now, with_users (alter (user_set_default_org (null_int orgID) now) userID)).

Definition LinkAtlassianAccount (tx : Tx) (userID accountID username : string) : M unit :=
  write_row tx (λ tb, if fk_user tb userID && atlassian_taken tb userID (Some accountID)
                      then Some unique_error else None)
    (λ now, with_users (alter (user_set_atlassian (Some accountID) username now) userID)).

Definition StoreUnlinkAtlassianAccount (tx : Tx) (userID : string) : M unit :=
  update_rows tx (λ now, with_users (alter (user_set_atlassian None "" now) userID)).

(** ** Keys *)

Section keys.
Context {MJ : MapJSON}.

(** The [scopes] column: NULL for an empty set. *)
Definition scopeStrings (scopes : Scopes) : option (list string) :=
  match scopes with [] => None | _ => Some (map Scope_String scopes) end.

(** A malformed entry drops the whole set. *)
Definition parseScopes (strs : option (list string)) : Scopes :=
  match ParseScopes (default [] strs) with inl _ => [] | inr scopes => scopes end.

Definition toModelKey (r : KeyRow) : Key :=
  mkKey (KR_id r) (KR_name r) (KR_token_hash r) (KR_org_id r) (KR_expires_at r) (KR_created_at r)
    (parseScopes (KR_scopes r)).

Definition keyRow (k : Key) (now : Z) : KeyRow :=
  mkKeyRow (Key_ID k) (Key_Name k) (Key_TokenHash k) (Key_OrgID k) (Key_ExpiresAt k) now
    (scopeStrings (Key_Scopes k)).

Definition key_check (k : Key) (tb : Tables) : option Err :=
  if bool_decide (is_Some (t_keys tb !! Key_ID k)) ||
     taken (λ r, Some (KR_token_hash r)) (t_keys tb) (Key_ID k) (Some (Key_TokenHash k))
  then Some unique_error
  else if fk_org tb (Key_OrgID k) then None else Some fk_error.

Definition StoreCreateKey (tx : Tx) (k : Key) : M Key :=
  now ← time_Now;
  write_row tx (key_check k) (λ _, with_keys <[Key_ID k := keyRow k now]>) ;;
  mret (mkKey (Key_ID k) (Key_Name k) (Key_TokenHash k) (Key_OrgID k) (Key_ExpiresAt k) now
          (Key_Scopes k)).

Definition GetKey (tx : Tx) (id : string) (orgID : Z) : M Key :=
  r ← query tx (λ _ tb, r ← t_keys tb !! id;
                        if KR_org_id r =? orgID then Some (toModelKey r) else None);
  scan_one r.

Definition key_by_hash (tb : Tables) (hash : string) : option KeyRow :=
  head (filter (λ r, KR_token_hash r = hash) (map snd (map_to_list (t_keys tb)))).

Definition GetKeyByHash (tx : Tx) (hash : string) : M Key :=
  r ← query tx (λ _ tb, toModelKey <$> key_by_hash tb hash);
  scan_one r.

Definition org_keys (tb : Tables) (orgID : Z) : list KeyRow :=
  order_by_desc KR_created_at
    (where_ (λ r, KR_org_id r =? orgID) (map snd (map_to_list (t_keys tb)))).

Definition StoreListKeys (tx : Tx) (orgID : Z) : M (list Key) :=
  query tx (λ _ tb, map toModelKey (org_keys tb orgID)).

Definition delete_key (id : string) (orgID : Z) (tb : Tables) : Tables :=
  match t_keys tb !! id with
  | Some r => if KR_org_id r =? orgID then with_keys (delete id) tb else tb
  | None => tb
  end.

Definition StoreDeleteKey (tx : Tx) (id : string) (orgID : Z) : M unit :=
  update_rows tx (λ _, delete_key id orgID).
End keys.

(** ** Constraints are kept *)

Lemma fk_org_alter tb f id i :
  fk_org (with_orgs (alter f id) tb) i = fk_org tb i.
Proof.
  unfold fk_org. apply bool_decide_ext. simpl. destruct (decide (id = i)) as [->|Hne].
  - by rewrite lookup_alter_eq, fmap_is_Some.
  - by rewrite lookup_alter_ne.
Qed.

Lemma fk_org_fmap tb f i : fk_org (with_orgs (fmap f) tb) i = fk_org tb i.
Proof. unfold fk_org. apply bool_decide_ext. simpl. by rewrite lookup_fmap, fmap_is_Some. Qed.

Lemma fk_org_insert tb id o i : fk_org tb i = true → fk_org (with_orgs <[id := o]> tb) i = true.
Proof. unfold fk_org. rewrite !bool_decide_eq_true. simpl. rewrite lookup_insert_is_Some'. by right. Qed.

(** A change of the organisations that keeps every foreign key to them. *)
Lemma with_orgs_ok f tb q q' :
  tables_ok tb q → (∀ s, q s ≤ q' s) →
  (∀ i, fk_org tb i = true → fk_org (with_orgs f tb) i = true) →
  (∀ i, is_Some (f (t_orgs tb) !! i) → i < q' SeqOrgs) →
  (∀ i o, f (t_orgs tb) !! i = Some o → org_ok tb o = true) →
  tables_ok (with_orgs f tb) q'.
Proof.
  intros Hok Hq Hfk Hids Hrows. destruct (tables_ok_mono _ _ q' Hok Hq).
  constructor; simpl; try done.
  - intros i r Hr. destruct (task_rows i r Hr). split; [done|by apply Hfk].
  - intros i s Hs. destruct (schedule_rows i s Hs) as [? [? ?]%andb_true_iff]. split; [done|].
    apply andb_true_iff. split; [by apply Hfk|done].
  - intros i ws Hs. destruct (workspace_rows i ws Hs). split; [done|by apply Hfk].
  - intros i u Hu. destruct (user_rows i u Hu) as [? Hd]. split; [done|].
    unfold fk_default_org in *. destruct (UR_default_org_id u); [by apply Hfk|done].
  - intros i k Hk. destruct (key_rows i k Hk). split; [done|by apply Hfk].
Qed.

Lemma keeps_alter_org id (f : OrgRow → OrgRow) :
  (∀ tb o, org_ok tb o = true → org_ok tb (f o) = true) → keeps_ids (with_orgs (alter f id)).
Proof.
  intros Hf tb q Hok. eapply with_orgs_ok; [exact Hok|done|by intros; rewrite fk_org_alter| |].
  - intros i Hi. apply (ids_orgs _ _ Hok). revert Hi. destruct (decide (id = i)) as [->|Hne].
    + by rewrite lookup_alter_eq, fmap_is_Some.
    + by rewrite lookup_alter_ne.
  - intros i o [(-> & o' & Ho & ->)|[_ Ho]]%lookup_alter_Some; [apply Hf|]; by apply (org_rows _ _ Hok i).
Qed.

Lemma org_ok_members tb o o' :
  Org_owner o' = Org_owner o → Org_memberships o' = Org_memberships o → org_ok tb o = true →
  org_ok tb o' = true.
Proof. unfold org_ok, Org_members. by intros -> ->. Qed.

Lemma keeps_set_archived id now : keeps_ids (with_orgs (alter (org_set_archived now) id)).
Proof. apply keeps_alter_org. intros tb o. by apply org_ok_members. Qed.
Lemma keeps_set_name id name now : keeps_ids (with_orgs (alter (org_set_name name now) id)).
Proof. apply keeps_alter_org. intros tb o. by apply org_ok_members. Qed.
Lemma keeps_set_secret id s : keeps_ids (with_orgs (alter (org_set_secret s) id)).
Proof. apply keeps_alter_org. intros tb o. by apply org_ok_members. Qed.
Lemma keeps_set_rules id rs now : keeps_ids (with_orgs (alter (org_set_rules rs now) id)).
Proof. apply keeps_alter_org. intros tb o. by apply org_ok_members. Qed.
Lemma keeps_set_installation id i now : keeps_ids (with_orgs (alter (org_set_installation i now) id)).
Proof. apply keeps_alter_org. intros tb o. by apply org_ok_members. Qed.

Lemma keeps_remove_member id userID : keeps_ids (with_orgs (alter (remove_member userID) id)).
Proof.
  apply keeps_alter_org. intros tb o. unfold org_ok, Org_members. simpl. rewrite !andb_true_iff.
  intros [[Ho Hm] Hn]. split; [split; [done|]|].
  - rewrite forallb_forall in *. intros u Hu. apply Hm. apply in_map_iff in Hu as (m & <- & Hu).
    apply in_map. apply list_elem_of_In in Hu. apply list_elem_of_In.
    by apply list_elem_of_filter in Hu as [_ ?].
  - apply bool_decide_eq_true in Hn. apply bool_decide_eq_true.
    eapply sublist_NoDup; [exact Hn|]. apply (fmap_sublist Member_UserID), sublist_filter.
Qed.

Lemma keeps_clear_installation i now : keeps_ids (with_orgs (fmap (clear_installation i now))).
Proof.
  intros tb q Hok. eapply with_orgs_ok; [exact Hok|done|by intros; rewrite fk_org_fmap| |].
  - intros j Hj. apply (ids_orgs _ _ Hok). by rewrite lookup_fmap, fmap_is_Some in Hj.
  - intros j o Ho. rewrite lookup_fmap, fmap_Some in Ho. destruct Ho as (o' & Ho & ->).
    apply (org_rows _ _ Hok) in Ho. unfold clear_installation. case_bool_decide; [|done].
    revert Ho. by apply org_ok_members.
Qed.

Lemma puts_org name owner now :
  puts_at SeqOrgs (λ tb, fk_user tb owner) (λ id, with_orgs <[id := new_org_row name owner now]>).
Proof.
  intros tb q Hok Hfk. eapply with_orgs_ok; [exact Hok|apply bump_le|intros; by apply fk_org_insert| |].
  - intros i. unfold bump. rewrite decide_True by done.
    by apply (insert_below _ _ _ (q SeqOrgs)); [apply Hok|].
  - intros i o [[_ <-]|[_ Ho]]%lookup_insert_Some; [|by apply (org_rows _ _ Hok i)].
    unfold org_ok. simpl. by rewrite Hfk.
Qed.
#[export] Hint Resolve keeps_set_archived keeps_set_name keeps_set_secret keeps_set_rules
  keeps_set_installation keeps_remove_member keeps_clear_installation puts_org : gritz.

(** ** Guarded writes *)

Definition writes_ok (check : Tables → option Err) (put : Z → Tables → Tables) : Prop :=
  ∀ now tb q, tables_ok tb q → check tb = None → tables_ok (put now tb) q.

Section write_row.
Context (w0 : World) (base : Tables) (ns : list Notification).

Lemma wp_write_InTx (Q : Err + unit → World → Prop) check put tb w :
  in_tx w0 base ns tb w → writes_ok check put →
  (∀ msg w', ¬ healthy w0 → same w0 base ns w' → Q (inl (EOther msg)) w') →
  (∀ e w', check tb = Some e → same w0 base ns w' → Q (inl e) w') →
  (∀ w', check tb = None → in_tx w0 base ns (put (clock w0) tb) w' → Q (inr ()) w') →
  wp (write_row InTx check put) Q w.
Proof.
  intros Hi Hk Hf He Hok. eapply wp_exec_InTx; [done|done| |].
  - intros e w'. destruct (check tb) as [e'|] eqn:E; [|done]. intros [= ->]. auto.
  - intros [] tb' w' E Hq H. destruct (check tb) eqn:Ec; [done|]. injection E as <-.
    apply Hok; [done|]. apply H. rewrite Hq. apply Hk; [apply Hi|done].
Qed.

Lemma wp_write_NoTx (Q : Err + unit → World → Prop) check put w :
  at_ w0 base ns w → writes_ok check put →
  (∀ msg w', ¬ healthy w0 → at_ w0 base ns w' → Q (inl (EOther msg)) w') →
  (∀ e w', check base = Some e → at_ w0 base ns w' → Q (inl e) w') →
  (∀ w', check base = None → at_ w0 (put (clock w0) base) ns w' → Q (inr ()) w') →
  wp (write_row NoTx check put) Q w.
Proof.
  intros Hi Hk Hf He Hok. eapply wp_exec_NoTx; [done|done| |].
  - intros e w'. destruct (check base) as [e'|] eqn:E; [|done]. intros [= ->]. auto.
  - intros [] tb' w' E Hq H. destruct (check base) eqn:Ec; [done|]. injection E as <-.
    apply Hok; [done|]. apply H. rewrite Hq. apply Hk; [apply Hi|done].
Qed.
End write_row.

Lemma writes_member orgID userID role :
  writes_ok (λ tb, if fk_org tb orgID && fk_user tb userID then None else Some fk_error)
    (λ now, with_orgs (alter (add_member (mkOrgMember userID role now)) orgID)).
Proof.
  intros now tb q Hok Hfk. destruct (fk_org tb orgID && fk_user tb userID) eqn:E; [|done].
  apply andb_true_iff in E as [_ Hu].
  eapply with_orgs_ok; [exact Hok|done|by intros; rewrite fk_org_alter| |].
  - intros i Hi. apply (ids_orgs _ _ Hok). revert Hi. destruct (decide (orgID = i)) as [->|Hne].
    + by rewrite lookup_alter_eq, fmap_is_Some.
    + by rewrite lookup_alter_ne.
  - intros i o [(-> & o' & Ho & ->)|[_ Ho]]%lookup_alter_Some; apply (org_rows _ _ Hok) in Ho; [|done].
    unfold add_member. simpl. destruct (contains_string (Org_members o') userID) eqn:E; [done|].
    revert Ho. unfold org_ok, Org_members in *. simpl. rewrite map_app, forallb_app, !andb_true_iff.
    intros [[Ho Hm] Hn]. split; [split; [done|]|].
    + by rewrite Hm; simpl; rewrite Hu.
    + apply bool_decide_eq_true in Hn. apply bool_decide_eq_true. apply NoDup_app. split; [done|].
      split; [|apply NoDup_singleton]. intros x Hx ->%list_elem_of_singleton.
      simpl in Hx. apply contains_string_spec in Hx. by rewrite Hx in E.
Qed.

(** A change of one user's row. *)
Lemma taken_spec {A B} `{EqDecision B} (f : A → option B) (m : gmap string A) id b :
  taken f m id (Some b) = false → ∀ j x, m !! j = Some x → f x = Some b → j = id.
Proof.
  unfold taken. intros Ht j x Hj Hx. destruct (String.eqb_spec j id) as [|Hne]; [done|]. exfalso.
  assert (existsb (λ kv, negb (String.eqb kv.1 id) && bool_decide (f kv.2 = Some b)) (map_to_list m) = true);
    [|congruence].
  apply existsb_exists. exists (j, x). split; [apply list_elem_of_In; by apply elem_of_map_to_list|].
  simpl. rewrite (proj2 (String.eqb_neq j id)) by done. by apply bool_decide_eq_true.
Qed.

Lemma unique_insert {A B} `{EqDecision B} (f : A → option B) (m : gmap string A) id x :
  unique_by f m → taken f m id (f x) = false → unique_by f (<[id := x]> m).
Proof.
  intros Hu Ht i j a b v Hi Hj Hfa Hfb.
  apply lookup_insert_Some in Hi as [[<- <-]|[Hni Hi]], Hj as [[<- <-]|[Hnj Hj]].
  - done.
  - rewrite Hfa in Ht. symmetry. by eapply taken_spec.
  - rewrite Hfb in Ht. by eapply taken_spec.
  - by eapply Hu.
Qed.

Lemma fk_user_insert tb id r u : fk_user tb u = true → fk_user (with_users <[id := r]> tb) u = true.
Proof. unfold fk_user. rewrite !bool_decide_eq_true. simpl. rewrite lookup_insert_is_Some'. by right. Qed.

Lemma org_ok_mono tb tb' o :
  (∀ u, fk_user tb u = true → fk_user tb' u = true) → org_ok tb o = true → org_ok tb' o = true.
Proof.
  unfold org_ok. rewrite !andb_true_iff, !forallb_forall. intros Hu [[Ho Hm] Hn].
  repeat split; auto.
Qed.

Lemma insert_user_ok tb q id r :
  tables_ok tb q → UR_id r = id → fk_default_org tb r = true →
  email_taken tb id (UR_email r) = false → github_taken tb id (UR_github_user_id r) = false →
  atlassian_taken tb id (UR_atlassian_account_id r) = false →
  tables_ok (with_users <[id := r]> tb) q.
Proof.
  intros Hok Hid Hfk He Hg Ha. destruct Hok; constructor; simpl; try done.
  - intros i o Ho. eapply org_ok_mono; [|by apply (org_rows i)]. intros u. by apply fk_user_insert.
  - by row_cases.
  - by apply unique_insert.
  - by apply unique_insert.
  - by apply unique_insert.
Qed.

(** A row's own values are not taken by another. *)
Lemma own_not_taken {A B} `{EqDecision B} (f : A → option B) (m : gmap string A) id x :
  unique_by f m → m !! id = Some x → taken f m id (f x) = false.
Proof.
  intros Hu Hx. unfold taken. destruct (f x) as [b|] eqn:Hf; [|done].
  apply not_true_iff_false. intros ([j y] & Hj & [Hne Hy]%andb_true_iff)%existsb_exists. simpl in *.
  apply list_elem_of_In, elem_of_map_to_list in Hj. apply bool_decide_eq_true in Hy.
  rewrite (Hu j id y x b) in Hne by done. by rewrite String.eqb_refl in Hne.
Qed.

Lemma alter_user tb id f :
  with_users (alter f id) tb =
  match t_users tb !! id with Some r => with_users <[id := f r]> tb | None => tb end.
Proof.
  destruct tb as [? ? ? ? ? ? ? us ks]; unfold with_users; simpl.
  destruct (us !! id) as [r|] eqn:E; f_equal.
  - apply map_eq. intros i. destruct (decide (id = i)) as [->|Hne].
    + by rewrite lookup_alter_eq, lookup_insert_eq, E.
    + by rewrite lookup_alter_ne, lookup_insert_ne.
  - apply map_eq. intros i. destruct (decide (id = i)) as [->|Hne].
    + by rewrite lookup_alter_eq, E.
    + by rewrite lookup_alter_ne.
Qed.

Lemma alter_user_ok tb q id f r :
  tables_ok tb q → t_users tb !! id = Some r →
  UR_id (f r) = UR_id r → UR_email (f r) = UR_email r → fk_default_org tb (f r) = true →
  github_taken tb id (UR_github_user_id (f r)) = false →
  atlassian_taken tb id (UR_atlassian_account_id (f r)) = false →
  tables_ok (with_users (alter f id) tb) q.
Proof.
  intros Hok Hr Hid He Hd Hg Ha. rewrite alter_user, Hr.
  apply insert_user_ok; try done.
  - rewrite Hid. by apply (user_rows _ _ Hok).
  - rewrite He. by apply (own_not_taken (λ u, Some (UR_email u)) _ _ r), Hr; apply Hok.
Qed.

(** The columns a change of a user's row may leave as they are. *)
Lemma own_github tb q id r :
  tables_ok tb q → t_users tb !! id = Some r → github_taken tb id (UR_github_user_id r) = false.
Proof. intros Hok Hr. by apply own_not_taken; [apply Hok|]. Qed.

Lemma own_atlassian tb q id r :
  tables_ok tb q → t_users tb !! id = Some r →
  atlassian_taken tb id (UR_atlassian_account_id r) = false.
Proof. intros Hok Hr. by apply own_not_taken; [apply Hok|]. Qed.

Lemma own_default_org tb q id r :
  tables_ok tb q → t_users tb !! id = Some r → fk_default_org tb r = true.
Proof. intros Hok Hr. by apply (user_rows _ _ Hok id). Qed.
#[export] Hint Resolve own_github own_atlassian own_default_org : gritz.

Lemma put_user_ok tb q id email name now :
  tables_ok tb q → email_taken tb id email = false → tables_ok (put_user id email name now tb) q.
Proof.
  intros Hok He. unfold put_user, upsert_user. destruct (t_users tb !! id) as [r|] eqn:Hr;
    apply insert_user_ok; simpl; eauto with gritz.
  exact (own_default_org _ _ _ _ Hok Hr).
Qed.

Lemma fk_user_Some tb id r : t_users tb !! id = Some r → fk_user tb id = true.
Proof. intros H. unfold fk_user. apply bool_decide_eq_true. by rewrite H. Qed.

(** A write to one user's row, guarded for the row it finds. *)
Lemma writes_user (check : Tables → option Err) id (f : Z → UserRow → UserRow) :
  (∀ now r, UR_id (f now r) = UR_id r ∧ UR_email (f now r) = UR_email r) →
  (∀ now tb q r, tables_ok tb q → t_users tb !! id = Some r → check tb = None →
     fk_default_org tb (f now r) = true ∧
     github_taken tb id (UR_github_user_id (f now r)) = false ∧
     atlassian_taken tb id (UR_atlassian_account_id (f now r)) = false) →
  writes_ok check (λ now, with_users (alter (f now) id)).
Proof.
  intros Hf Hc now tb q Hok Hn. destruct (t_users tb !! id) as [r|] eqn:Hr.
  - destruct (Hf now r), (Hc now tb q r) as (? & ? & ?); try done. by eapply alter_user_ok.
  - by rewrite alter_user, Hr.
Qed.

Lemma guard_user (tb : Tables) id (b : bool) (e : Err) r :
  t_users tb !! id = Some r → (if fk_user tb id && b then Some e else None) = None → b = false.
Proof. intros Hr%fk_user_Some. rewrite Hr. by destruct b. Qed.

Ltac kept_columns :=
  match goal with
  | Hok : tables_ok _ _, Hr : t_users _ !! _ = Some _ |- _ =>
      split; [exact (own_default_org _ _ _ _ Hok Hr)|simpl; eauto with gritz]
  end.

Lemma writes_link_github userID githubUserID username :
  writes_ok (λ tb, if fk_user tb userID && github_taken tb userID (Some githubUserID)
                   then Some unique_error else None)
    (λ now, with_users (alter (user_set_github (Some githubUserID) (Some username) now) userID)).
Proof.
  apply writes_user; [done|]. intros now tb q r Hok Hr Hc. 
  eapply guard_user in Hc; [|done]. kept_columns.
Qed.

Lemma writes_link_atlassian userID accountID username :
  writes_ok (λ tb, if fk_user tb userID && atlassian_taken tb userID (Some accountID)
                   then Some unique_error else None)
    (λ now, with_users (alter (user_set_atlassian (Some accountID) username now) userID)).
Proof.
  apply writes_user; [done|]. intros now tb q r Hok Hr Hc. 
  eapply guard_user in Hc; [|done]. kept_columns.
Qed.

Lemma writes_default_org userID orgID :
  writes_ok (λ tb, if fk_user tb userID && negb (from_option (fk_org tb) true (null_int orgID))
                   then Some fk_error else None)
    (λ now, with_users (alter (user_set_default_org (null_int orgID) now) userID)).
Proof.
  apply writes_user; [done|]. intros now tb q r Hok Hr Hc. simpl.
  eapply guard_user in Hc; [|done]. apply negb_false_iff in Hc.
  split; [|eauto with gritz]. unfold fk_default_org. simpl. by destruct (null_int orgID).
Qed.

Lemma keeps_alter_user id f :
  writes_ok (λ _, None) (λ now, with_users (alter (f now) id)) →
  ∀ now, keeps_ids (with_users (alter (f now) id)).
Proof. intros Hw now tb q Hok. by apply (Hw now). Qed.

Lemma keeps_unlink_github userID now :
  keeps_ids (with_users (alter (user_set_github None (Some "") now) userID)).
Proof.
  apply (keeps_alter_user _ (user_set_github None (Some ""))), writes_user; [done|].
  intros. kept_columns.
Qed.

Lemma keeps_unlink_atlassian userID now :
  keeps_ids (with_users (alter (user_set_atlassian None "" now) userID)).
Proof.
  apply (keeps_alter_user _ (user_set_atlassian None "")), writes_user; [done|].
  intros. kept_columns.
Qed.

Lemma unique_fmap {A B} (f : A → option B) (g : A → A) (m : gmap string A) :
  (∀ x, f (g x) = f x) → unique_by f m → unique_by f (g <$> m).
Proof.
  intros Hg Hu i j x y b Hx Hy. rewrite !lookup_fmap, !fmap_Some in *.
  destruct Hx as (x' & Hx & ->), Hy as (y' & Hy & ->). rewrite !Hg. by apply Hu.
Qed.

Lemma keeps_rename_github githubUserID username now :
  keeps_ids (with_users (fmap (rename_github githubUserID username now))).
Proof.
  assert (Hg : ∀ r, let r' := rename_github githubUserID username now r in
    UR_id r' = UR_id r ∧ UR_email r' = UR_email r ∧ UR_github_user_id r' = UR_github_user_id r ∧
    UR_atlassian_account_id r' = UR_atlassian_account_id r ∧
    UR_default_org_id r' = UR_default_org_id r).
  { intros r. unfold rename_github. by case_bool_decide. }
  intros tb q []. constructor; simpl; try done.
  - intros i o Ho. eapply org_ok_mono; [|by apply (org_rows i)]. intros u. unfold fk_user.
    rewrite !bool_decide_eq_true. simpl. by rewrite lookup_fmap, fmap_is_Some.
  - intros i u Hu. rewrite lookup_fmap, fmap_Some in Hu. destruct Hu as (u' & Hu & ->).
    destruct (Hg u') as (-> & _ & _ & _ & Hd). unfold fk_default_org. rewrite Hd.
    by apply user_rows.
  - apply unique_fmap; [|done]. intros r. by destruct (Hg r) as (_ & -> & _).
  - apply unique_fmap; [|done]. intros r. by destruct (Hg r) as (_ & _ & -> & _).
  - apply unique_fmap; [|done]. intros r. by destruct (Hg r) as (_ & _ & _ & -> & _).
Qed.

Section key_writes.
Context {MJ : MapJSON}.

Lemma writes_key k now : writes_ok (key_check k) (λ _, with_keys <[Key_ID k := keyRow k now]>).
Proof.
  intros _ tb q Hok Hc. unfold key_check in Hc.
  destruct (bool_decide _ || taken _ _ _ _) eqn:E; [done|].
  destruct (fk_org tb (Key_OrgID k)) eqn:Ho; [|done]. apply orb_false_iff in E as [_ Ht].
  destruct Hok; constructor; simpl; try done; [by row_cases|by apply unique_insert].
Qed.

Lemma unique_delete {A B} (f : A → option B) (m : gmap string A) id :
  unique_by f m → unique_by f (delete id m).
Proof.
  intros Hu i j x y b [_ Hx]%lookup_delete_Some [_ Hy]%lookup_delete_Some. by apply Hu.
Qed.

Lemma keeps_delete_key id orgID : keeps_ids (delete_key id orgID).
Proof.
  intros tb q Hok. unfold delete_key. repeat case_match; try done.
  destruct Hok; constructor; simpl; try done; [|by apply unique_delete].
  intros i y [_ Hk]%lookup_delete_Some. eauto.
Qed.
End key_writes.
#[export] Hint Resolve writes_member writes_link_github writes_link_atlassian writes_default_org
  keeps_unlink_github keeps_unlink_atlassian keeps_rename_github writes_key keeps_delete_key : gritz.

(** A guarded write in a state that is known. *)
Ltac wp_write :=
  match goal with
  | H : at_ _ _ _ ?w |- wp (write_row NoTx _ _) _ ?w =>
      eapply wp_write_NoTx;
        [exact H | auto with gritz | intros ? ? ? ? | intros ? ? ? ? | intros ? ? ?]; clear H
  | H : in_tx _ _ _ _ ?w |- wp (write_row InTx _ _) _ ?w =>
      eapply wp_write_InTx;
        [exact H | auto with gritz | intros ? ? ? ? | intros ? ? ? ? | intros ? ? ?]; clear H
  end; cbv beta iota.

(** [UpsertUser] inside a transaction. *)
Lemma wp_UpsertUser (Q : Err + User → World → Prop) w0 base ns tb id email name w :
  in_tx w0 base ns tb w →
  (∀ msg w', ¬ healthy w0 → same w0 base ns w' → Q (inl (EOther msg)) w') →
  (∀ w', email_taken tb id email = true → same w0 base ns w' → Q (inl unique_error) w') →
  (∀ u w', U_ID u = id ∧ U_Email u = email ∧ U_Name u = name ∧
     U_DefaultOrgID u = default 0 (u ← t_users tb !! id; UR_default_org_id u) →
     in_tx w0 base ns (put_user id email name (clock w0) tb) w' → Q (inr u) w') →
  wp (UpsertUser InTx id email name) Q w.
Proof.
  intros Hi Hf He Hok. eapply wp_exec_InTx; [exact Hi|exact Hf| |].
  - intros e w'. destruct (email_taken tb id email) eqn:E; [|done]. intros [= <-]. auto.
  - intros u tb' w' E Hq H. destruct (email_taken tb id email) eqn:Et; [done|].
    injection E as <- <-. apply Hok.
    + simpl. unfold upsert_user. by destruct (t_users tb !! id).
    + apply H. rewrite Hq. apply put_user_ok; [apply Hi|done].
Qed.
