(* ===== verification/ApiBase.v ===== *)
(** * What the API handlers share

    Models [UserInfo] and its names ([internal/auth/apiauth/apiauth.go]), the
    error mapping every transactional handler of
    [internal/server/apiserver] ends with, and the notification they build. *)

From S2P Require Import Prelude AuthScope EventModel TaskModel Links PubSub ScheduleModel Rules.
From S2P Require Import Store StoreOps StoreLogic.

(** ** The caller *)

Definition AuthTypeKey : string := "key".

Record UserInfo := mkUser {
  User_ID : string; User_Email : string; User_Name : string; User_OrgID : Z;
  User_Type : string; User_ClientID : string; User_Scopes : Scopes }.

Definition DisplayName (u : UserInfo) : string :=
  if negb (String.eqb (User_Name u) "") then User_Name u
  else if negb (String.eqb (User_Email u) "") then User_Email u
  else User_ID u.

Definition AuditName (u : UserInfo) : string :=
  let name := DisplayName u in
  if String.eqb (User_Type u) AuthTypeKey then name +:+ " (API key)" else name.

(** ** Errors *)

Definition Err_Error (e : Err) : string :=
  match e with
  | EConnect _ msg => msg
  | ENoRows => "sql: no rows in result set"
  | ESkip => "archiver: skip task"
  | EInvalidRequest msg => "invalid page request: " +:+ msg
  | EUnsupportedDirection => "unsupported page direction"
  | EPanic msg => msg
  | EOther msg => msg
  | EWrap msg _ => msg
  end.

Definition PermissionDenied {A} (msg : string) : M A := raise (EConnect CodePermissionDenied msg).
Definition InvalidArgument {A} (msg : string) : M A := raise (EConnect CodeInvalidArgument msg).
Definition NotFound {A} (msg : string) : M A := raise (EConnect CodeNotFound msg).
Definition Internal {A} (e : Err) : M A := raise (EConnect CodeInternal (Err_Error e)).

(** The block after [WithTx]: typed errors as they are, no rows as
    [notFound], everything else as internal. *)
Definition txError (notFound : string) (e : Err) : Err :=
  if negb (bool_decide (CodeOf e = CodeUnknown)) then e
  else if isNoRows e then EConnect CodeNotFound notFound
  else EConnect CodeInternal (Err_Error e).

(** The block after a plain read. *)
Definition readError (notFound : string) (e : Err) : Err :=
  if isNoRows e then EConnect CodeNotFound notFound
  else EConnect CodeInternal (Err_Error e).

Definition taskNotFound (id : Z) : string := "task " +:+ FormatInt id +:+ " not found".
Definition scheduleNotFound (id : Z) : string := "schedule " +:+ FormatInt id +:+ " not found".

(** The answer does not matter to the tables. *)
Definition ignore {A} (m : M A) : M unit := m ;; mret ().

(** The world a computation ends in. *)
Definition final {A} (m : M A) (w : World) : World := snd (m w).

(** ** Notifications *)

(** [model.Notification{Type: "change", OrgID, UserID, ClientID, Time}] with
    the fields the handler fills in. *)
Definition change (caller : UserInfo) (now : Z) (resources : list NotificationResource)
    (runner : string) (status : TaskStatus) (message : string) : Notification :=
  mkNotification "change" resources now (User_OrgID caller) (User_ID caller)
    (User_ClientID caller) runner status message false.

(** The two resources of every change to a task. *)
Definition task_resources (action : string) (id : Z) : list NotificationResource :=
  [mkResource action "task" id; mkResource "appended" "task_events" id].

(** A lifecycle event of a task attributed to the calling user. *)
Definition user_lifecycle (caller : UserInfo) (kind : LifecycleKind) (task : Task)
    (from_ : string) (fields : list string) : Event :=
  newEvent (Task_ID task) (Task_OrgID task) false
    (Lifecycle (mkLifecycle kind (UserActor (AuditName caller)) from_
                  (Label (Task_Status task)) "" fields)).
