(* ===== verification/Timeline.v ===== *)
(** * Timelines: what appending events does to a task's stream

    The tables after [CreateEvent], the rules for it, and the fact the
    handlers' theorems rest on: appending events extends the timeline
    [ListEventsByTask] returns, in order, and leaves every other timeline
    alone. *)

From S2P Require Import Prelude AuthScope EventModel TaskModel Links PubSub ScheduleModel Rules.
From S2P Require Import Store StoreOps StoreLogic ApiBase.

Definition stored_event (now id : Z) (e : Event) : Event :=
  set_Event_CreatedAt now (set_Event_ID id e).

Definition put_event (now id : Z) (e : Event) : Tables → Tables :=
  with_events <[id := stored_event now id e]>.

(** [es] have been appended, in order, at ids above every event's. *)
Inductive add_events (now : Z) : list Event → Tables → Tables → Prop :=
| add_nil tb : add_events now [] tb tb
| add_cons e es id tb tb' :
    (∀ i, is_Some (t_events tb !! i) → i < id) →
    add_events now es (put_event now id e tb) tb' →
    add_events now (e :: es) tb tb'.

Lemma add_one now e id tb :
  (∀ i, is_Some (t_events tb !! i) → i < id) → add_events now [e] tb (put_event now id e tb).
Proof. intros H. econstructor; [done|constructor]. Qed.

Lemma add_app now es es' tb tb' tb'' :
  add_events now es tb tb' → add_events now es' tb' tb'' → add_events now (es ++ es') tb tb''.
Proof. induction 1; [done|]. simpl. econstructor; eauto. Qed.

Lemma add_snoc now es e id tb tb' :
  add_events now es tb tb' → (∀ i, is_Some (t_events tb' !! i) → i < id) →
  add_events now (es ++ [e]) tb (put_event now id e tb').
Proof. intros H Hid. eapply add_app; [done|]. by apply add_one. Qed.

(** Only the events change. *)
Lemma add_events_frame now es tb tb' :
  add_events now es tb tb' →
  t_tasks tb' = t_tasks tb ∧ t_links tb' = t_links tb ∧ t_schedules tb' = t_schedules tb ∧
  t_chunks tb' = t_chunks tb ∧ t_workspaces tb' = t_workspaces tb ∧ t_orgs tb' = t_orgs tb ∧
  t_users tb' = t_users tb ∧ t_keys tb' = t_keys tb.
Proof. induction 1; [done|]. naive_solver. Qed.

Lemma add_events_tasks now es tb tb' : add_events now es tb tb' → t_tasks tb' = t_tasks tb.
Proof. by intros []%add_events_frame. Qed.

(** ** Rules *)

Section event_rules.
Context (w0 : World) (base : Tables) (ns : list Notification).

Lemma wp_CreateEvent_InTx Q e tb w :
  in_tx w0 base ns tb w →
  (∀ msg w', ¬ healthy w0 → same w0 base ns w' → Q (inl (EOther msg)) w') →
  (∀ w', fk_task tb (Event_TaskID e) && fk_org tb (Event_OrgID e) = false →
     same w0 base ns w' → Q (inl fk_error) w') →
  (∀ id w', (∀ i, is_Some (t_events tb !! i) → i < id) →
     in_tx w0 base ns (put_event (clock w0) id e tb) w' → Q (inr (set_Event_ID id e)) w') →
  wp (CreateEvent InTx e) Q w.
Proof.
  intros Hin Hf Hfk Hok. unfold CreateEvent. wp; try by auto.
  apply Hok; [|done]. by apply ids_events.
Qed.

Lemma wp_CreateEvent_NoTx Q e w :
  at_ w0 base ns w →
  (∀ msg w', ¬ healthy w0 → at_ w0 base ns w' → Q (inl (EOther msg)) w') →
  (∀ w', fk_task base (Event_TaskID e) && fk_org base (Event_OrgID e) = false →
     at_ w0 base ns w' → Q (inl fk_error) w') →
  (∀ id w', (∀ i, is_Some (t_events base !! i) → i < id) →
     at_ w0 (put_event (clock w0) id e base) ns w' → Q (inr (set_Event_ID id e)) w') →
  wp (CreateEvent NoTx e) Q w.
Proof.
  intros Hin Hf Hfk Hok. unfold CreateEvent. wp; try by auto.
  apply Hok; [|done]. by apply ids_events.
Qed.

(** The loop that seeds a stream. *)
Lemma wp_CreateEvents {A} (f : A → Event) Q l tb w :
  in_tx w0 base ns tb w →
  Forall (λ a, fk_task tb (Event_TaskID (f a)) && fk_org tb (Event_OrgID (f a)) = true) l →
  (∀ msg w', ¬ healthy w0 → same w0 base ns w' → Q (inl (EOther msg)) w') →
  (∀ tb' w', add_events (clock w0) (map f l) tb tb' → in_tx w0 base ns tb' w' →
     Q (inr ()) w') →
  wp (for_each l (λ a, CreateEvent InTx (f a) ;; mret ())) Q w.
Proof.
  revert tb w. induction l as [|a l IH]; intros tb w Hin Hfk Hf Hok; simpl.
  { apply wp_ret. eapply Hok; [constructor|done]. }
  apply Forall_cons in Hfk as [Ha Hl]. do 2 apply wp_bind.
  eapply wp_CreateEvent_InTx; [done|done|intros ? H; by rewrite Ha in H|].
  intros id w' Hid Hin'. apply wp_ret. eapply IH; [exact Hin'|exact Hl|done|].
  intros tb' w'' Hadd. apply Hok. simpl. by econstructor.
Qed.
End event_rules.

Section task_rules.
Context (w0 : World) (base : Tables) (ns : list Notification).

Lemma wp_GetTask_InTx Q id orgID tb w :
  in_tx w0 base ns tb w →
  (∀ msg w', ¬ healthy w0 → same w0 base ns w' → Q (inl (EOther msg)) w') →
  (∀ w', select_task tb id orgID = None → in_tx w0 base ns tb w' → Q (inl ENoRows) w') →
  (∀ r w', select_task tb id orgID = Some r → in_tx w0 base ns tb w' →
     Q (inr (toModelTask r)) w') →
  wp (GetTask InTx id orgID) Q w.
Proof. intros Hin Hf Hn Hok. unfold GetTask. wp; eauto. Qed.

Lemma wp_GetTask_NoTx Q id orgID w :
  at_ w0 base ns w →
  (∀ msg w', ¬ healthy w0 → at_ w0 base ns w' → Q (inl (EOther msg)) w') →
  (∀ w', select_task base id orgID = None → at_ w0 base ns w' → Q (inl ENoRows) w') →
  (∀ r w', select_task base id orgID = Some r → at_ w0 base ns w' →
     Q (inr (toModelTask r)) w') →
  wp (GetTask NoTx id orgID) Q w.
Proof. intros Hin Hf Hn Hok. unfold GetTask. wp; eauto. Qed.

Lemma wp_UpdateTask_InTx Q t tb w :
  in_tx w0 base ns tb w →
  (∀ msg w', ¬ healthy w0 → same w0 base ns w' → Q (inl (EOther msg)) w') →
  (∀ w', in_tx w0 base ns (put_task t (clock w0) tb) w' → Q (inr ()) w') →
  wp (UpdateTask InTx t) Q w.
Proof. intros Hin Hf Hok. unfold UpdateTask. wp; eauto. Qed.
End task_rules.

(** [wp_step], and the rules of the operations the handlers share. *)
Ltac wp_op :=
  lazymatch goal with
  | |- wp (GetTaskForUpdate _ _ _) _ _ => unfold GetTaskForUpdate
  | |- wp (PermissionDenied _) _ _ => unfold PermissionDenied
  | |- wp (InvalidArgument _) _ _ => unfold InvalidArgument
  | |- wp (NotFound _) _ _ => unfold NotFound
  | |- wp (Internal _) _ _ => unfold Internal
  | H : in_tx _ _ _ _ ?w |- wp (GetTask InTx _ _) _ ?w =>
      eapply wp_GetTask_InTx; [exact H | intros ? ? ? ? | intros ? ? ? | intros ? ? ? ?]; clear H
  | H : at_ _ _ _ ?w |- wp (GetTask NoTx _ _) _ ?w =>
      eapply wp_GetTask_NoTx; [exact H | intros ? ? ? ? | intros ? ? ? | intros ? ? ? ?]; clear H
  | H : in_tx _ _ _ _ ?w |- wp (UpdateTask InTx _) _ ?w =>
      eapply wp_UpdateTask_InTx; [exact H | intros ? ? ? ? | intros ? ?]; clear H
  | H : in_tx _ _ _ _ ?w |- wp (CreateEvent InTx _) _ ?w =>
      eapply wp_CreateEvent_InTx;
        [exact H | intros ? ? ? ? | intros ? ? ? | intros ? ? ? ?]; clear H
  | H : at_ _ _ _ ?w |- wp (CreateEvent NoTx _) _ ?w =>
      eapply wp_CreateEvent_NoTx;
        [exact H | intros ? ? ? ? | intros ? ? ? | intros ? ? ? ?]; clear H
  | _ => wp_step
  end; cbv beta iota.

Ltac wps := repeat wp_op.

(** ** The timeline *)

Lemma elem_of_where {A} (p : A → bool) l x : x ∈ where_ p l ↔ p x = true ∧ x ∈ l.
Proof. unfold where_. by rewrite list_elem_of_filter. Qed.

Lemma elem_of_rows {A} (m : gmap Z A) x : x ∈ rows m ↔ ∃ i, m !! i = Some x.
Proof.
  unfold rows. rewrite list_elem_of_fmap. split.
  - intros ([i y] & -> & H%elem_of_map_to_list). eauto.
  - intros [i H%elem_of_map_to_list]. by exists (i, x).
Qed.

Lemma elem_of_take_sub {A} n (l : list A) x : x ∈ take n l → x ∈ l.
Proof. rewrite <- (take_drop n l) at 2. set_solver. Qed.

Lemma NoDup_take {A} n (l : list A) : NoDup l → NoDup (take n l).
Proof. rewrite <- (take_drop n l) at 1. by intros (? & _ & _)%NoDup_app. Qed.

(** The rows of a table keyed by an id column are distinct, and so are their
    ids. *)
Lemma NoDup_rows {A} (key : A → Z) (m : gmap Z A) :
  (∀ i x, m !! i = Some x → key x = i) → NoDup (rows m).
Proof.
  intros Hk. unfold rows. apply NoDup_fmap_2_strong; [|apply NoDup_map_to_list].
  intros [i x] [j y] Hx%elem_of_map_to_list Hy%elem_of_map_to_list. simpl. intros ->.
  by rewrite <- (Hk _ _ Hx), <- (Hk _ _ Hy).
Qed.

Lemma NoDup_row_ids {A} (key : A → Z) (m : gmap Z A) l :
  (∀ i x, m !! i = Some x → key x = i) → NoDup l → (∀ x, x ∈ l → ∃ i, m !! i = Some x) →
  NoDup (map key l).
Proof.
  intros Hk Hnd Hin. apply NoDup_fmap_2_strong; [|done]. intros x y Hx Hy Hxy.
  destruct (Hin _ Hx) as [i Hi], (Hin _ Hy) as [j Hj].
  rewrite (Hk _ _ Hi), (Hk _ _ Hj) in Hxy. congruence.
Qed.

#[export] Instance where_Permutation {A} (p : A → bool) :
  Proper ((≡ₚ) ==> (≡ₚ)) (where_ p).
Proof. intros l l' Hl. unfold where_. by rewrite Hl. Qed.

Lemma rows_insert {A} (m : gmap Z A) id x :
  m !! id = None → rows (<[id := x]> m) ≡ₚ x :: rows m.
Proof. intros H. unfold rows. by rewrite map_to_list_insert. Qed.

Lemma where_cons {A} (p : A → bool) x l :
  where_ p (x :: l) = if p x then x :: where_ p l else where_ p l.
Proof. unfold where_. rewrite filter_cons. by destruct (p x). Qed.

#[export] Instance key_le_total {A} (key : A → Z) : Total (key_le key).
Proof. intros a b. unfold key_le. lia. Qed.
#[export] Instance key_le_trans {A} (key : A → Z) : Transitive (key_le key).
Proof. intros a b c. unfold key_le. lia. Qed.

Lemma order_by_Permutation {A} (key : A → Z) l : order_by key l ≡ₚ l.
Proof. apply merge_sort_Permutation. Qed.

Lemma elem_of_order_by {A} (key : A → Z) l x : x ∈ order_by key l ↔ x ∈ l.
Proof. by rewrite order_by_Permutation. Qed.

Lemma elem_of_order_by_desc {A} (key : A → Z) l x : x ∈ order_by_desc key l ↔ x ∈ l.
Proof. apply elem_of_order_by. Qed.

(** A list with an order and distinct keys is the only sorted one of its
    elements. *)
Lemma order_by_unique {A} (key : A → Z) l l' :
  (∀ x y, x ∈ l → y ∈ l → key x = key y → x = y) →
  StronglySorted (key_le key) l' → l' ≡ₚ l → order_by key l = l'.
Proof.
  intros Hinj Hs Hp. eapply (StronglySorted_unique_strong (key_le key)); [| |done|].
  - intros x y Hx Hy Hxy Hyx. rewrite order_by_Permutation in Hx. rewrite Hp in Hy.
    apply Hinj; [done..|]. unfold key_le in *. lia.
  - apply (StronglySorted_merge_sort (key_le key) l).
  - by rewrite order_by_Permutation, Hp.
Qed.

Definition events_keyed (tb : Tables) : Prop :=
  ∀ i e, t_events tb !! i = Some e → Event_ID e = i.

Lemma tables_ok_keyed tb q : tables_ok tb q → events_keyed tb.
Proof. intros Hok i e H. by apply (event_rows _ _ Hok) in H as []. Qed.

(** Whether an event is on a timeline. *)
Definition on_timeline (taskID orgID : Z) (types : list string) (e : Event) : bool :=
  (Event_TaskID e =? taskID) && (Event_OrgID e =? orgID) && type_selected types e.

Lemma task_events_put tb now id e taskID orgID types :
  events_keyed tb → (∀ i, is_Some (t_events tb !! i) → i < id) →
  task_events (put_event now id e tb) taskID orgID types =
  task_events tb taskID orgID types ++
  (if on_timeline taskID orgID types e then [stored_event now id e] else []).
Proof.
  intros Hk Hid. unfold task_events, put_event. simpl.
  assert (Hn : t_events tb !! id = None).
  { destruct (t_events tb !! id) eqn:E; [|done]. specialize (Hid id). rewrite E in Hid.
    specialize (Hid ltac:(done)). lia. }
  apply order_by_unique.
  - intros x y [_ [i Hx]%elem_of_rows]%elem_of_where [_ [j Hy]%elem_of_rows]%elem_of_where Hxy.
    assert (Hk' : ∀ i e', <[id := stored_event now id e]> (t_events tb) !! i = Some e' →
      Event_ID e' = i).
    { intros k e' [[<- <-]|[_ H]]%lookup_insert_Some; [done|]. by apply Hk. }
    apply Hk' in Hx as Hi. apply Hk' in Hy as Hj. congruence.
  - apply StronglySorted_app_2; [|apply (StronglySorted_merge_sort _ _)|].
    + intros x y Hx Hy. case_match; [|by apply not_elem_of_nil in Hy].
      apply list_elem_of_singleton in Hy as ->. rewrite elem_of_order_by in Hx.
      apply elem_of_where in Hx as [_ [i Hx]%elem_of_rows].
      unfold key_le. simpl. rewrite (Hk _ _ Hx). apply Z.lt_le_incl, Hid. by rewrite Hx.
    + case_match; repeat constructor.
  - rewrite order_by_Permutation, rows_insert, where_cons by done.
    unfold on_timeline, stored_event. simpl.
    replace (type_selected types (set_Event_CreatedAt now (set_Event_ID id e)))
      with (type_selected types e) by (by destruct types).
    case_match; [by rewrite Permutation_app_comm | by rewrite app_nil_r].
Qed.

Lemma events_keyed_put now id e tb : events_keyed tb → events_keyed (put_event now id e tb).
Proof. intros Hk i e'. unfold put_event. simpl. intros [[<- <-]|[_ H]]%lookup_insert_Some; [done|]. by apply Hk. Qed.

(** The same events, up to the id and the creation time the store assigns. *)
Definition same_event (now : Z) (e e' : Event) : Prop :=
  e' = stored_event now (Event_ID e') e.

Lemma task_events_add now es tb tb' taskID orgID types :
  add_events now es tb tb' → events_keyed tb →
  ∃ new, task_events tb' taskID orgID types = task_events tb taskID orgID types ++ new ∧
         Forall2 (same_event now) (filter (λ e, on_timeline taskID orgID types e = true) es) new.
Proof.
  induction 1 as [tb|e es id tb tb' Hid Hadd IH]; intros Hk.
  { exists []. rewrite app_nil_r. by split. }
  destruct IH as (new & Hnew & Hall); [by apply events_keyed_put|].
  rewrite Hnew, task_events_put by done. rewrite filter_cons.
  case_decide as Hd; [rewrite Hd|rewrite (not_true_is_false _ Hd)]; rewrite <- app_assoc.
  - exists (stored_event now id e :: new). split; [done|]. by constructor.
  - by exists new.
Qed.
