(* ===== verification/ShellServer.v ===== *)
(** * The debug-shell registry

    Models [internal/server/shellserver/shellserver.go]: the rendezvous
    sessions by id, and the checks each leg of a session passes before its
    connection is upgraded.  A leg that passes is [Upgrade]; the
    relay that bridges the two is [ShellRelay]. *)

From S2P Require Import Prelude AuthScope EventModel TaskModel Links PubSub ScheduleModel Rules.
From S2P Require Import Store StoreOps StoreLogic ApiBase.

Record entry := mkEntry { entry_orgID : Z; entry_taskID : Z }.

Definition Registry := gmap string entry.

(** [Seed]: the error, or the registry with the session. *)
Definition Seed (r : Registry) (id : string) (orgID taskID : Z) : Err + Registry :=
  if String.eqb id "" then inl (EOther "shellserver: empty session id")
  else match r !! id with
       | Some _ => inl (EOther ("shellserver: session " +:+ id +:+ " already exists"))
       | None => inr (<[id := mkEntry orgID taskID]> r)
       end.

(** [remove]: what tear-down does, whichever path got there. *)
Definition remove (r : Registry) (id : string) : Registry := delete id r.

Definition lookup_session (r : Registry) (id : string) : option entry := r !! id.

(** What a leg's handler answers before the upgrade, or that it upgrades. *)
Inductive LegReply :=
| Reject (status : Z) (body : string)
| Upgrade (e : entry).

Definition StatusBadRequest : Z := 400.
Definition StatusUnauthorized : Z := 401.
Definition StatusForbidden : Z := 403.
Definition StatusNotFound : Z := 404.
Definition StatusInternalServerError : Z := 500.

Definition DriverHandler (r : Registry) (caller : option UserInfo) (id : string) : LegReply :=
  match lookup_session r id with
  | None => Reject StatusNotFound "unknown session"
  | Some e =>
      match caller with
      | None => Reject StatusUnauthorized "authentication required"
      | Some caller =>
          if negb (Allow (User_Scopes caller) OpTaskRead
                     [WithTaskID (entry_taskID e); WithTaskArchived false])
          then Reject StatusForbidden "forbidden"
          else Upgrade e
      end
  end.

Definition AuthTypeCookie : string := "cookie".

(** [ResolveOrg] is the configured resolver, [None] when there is none;
    [orgParam] is the parsed [org_id] query parameter. *)
Definition AttachHandler (ResolveOrg : option (string → Z → option Z)) (r : Registry)
    (caller : option UserInfo) (orgParam : option Z) (id : string) : LegReply :=
  match lookup_session r id with
  | None => Reject StatusNotFound "unknown session"
  | Some e =>
      match caller with
      | None => Reject StatusUnauthorized "authentication required"
      | Some caller =>
          let check orgID :=
            if negb (orgID =? entry_orgID e) then Reject StatusNotFound "unknown session"
            else Upgrade e in
          if String.eqb (User_Type caller) AuthTypeCookie then
            match ResolveOrg, orgParam with
            | None, _ => Reject StatusInternalServerError "org resolver not configured"
            | Some _, None => Reject StatusBadRequest "invalid org_id"
            | Some resolve, Some requested =>
                match resolve (User_ID caller) requested with
                | None => Reject StatusForbidden "forbidden"
                | Some orgID => check orgID
                end
            end
          else check (User_OrgID caller)
      end
  end.

(** ** Properties *)

(** a driver holding a task token reaches exactly the sessions of its own
    task: the driver leg upgrades for a registered session when, and only
    when, the session was seeded for the token's task. *)
Theorem driver_leg_own_task (r : Registry) (caller : UserInfo) (opts : ScopeOptions)
    (id : string) (e : entry) :
  User_Scopes caller = AgentScopes opts →
  DriverHandler r (Some caller) id = Upgrade e ↔
  r !! id = Some e ∧ entry_taskID e = soTaskID opts.
Proof.
  intros Hs. unfold DriverHandler, lookup_session. rewrite Hs.
  destruct (r !! id) as [e'|]; [|naive_solver].
  destruct (Allow _ _ _) eqn:E; simpl.
  - apply AgentScopes_allows in E as [(_ & Hid & _)|[[=] _]].
    injection Hid as Hid%FormatInt_inj. split; [intros [= ->] | intros [[= ->] _]]; auto.
  - split; [done|]. intros [[= ->] Hid]. exfalso.
    enough (Allow (AgentScopes opts) OpTaskRead
              [WithTaskID (entry_taskID e); WithTaskArchived false] = true) by congruence.
    apply AgentScopes_allows. left. rewrite Hid. auto.
Qed.

Definition sample_registry : Registry := <["s1" := mkEntry 3 7]> ∅.

Lemma driver_leg_own_task_witness :
  let caller := mkUser "" "" "" 3 "app" "" (AgentScopes (mkScopeOptions 7 [])) in
  DriverHandler sample_registry (Some caller) "s1" = Upgrade (mkEntry 3 7).
Proof.
  intros caller.
  apply (driver_leg_own_task sample_registry caller (mkScopeOptions 7 []) "s1" (mkEntry 3 7));
    [reflexivity | split; reflexivity].
Defined.

(** the operator leg of a token caller upgrades exactly for the sessions
    of the caller's org, and a session of another org answers byte for byte
    as if the registry were empty. *)
Theorem attach_leg_hides (resolve : option (string → Z → option Z)) (r : Registry)
    (caller : UserInfo) (param : option Z) (id : string) :
  User_Type caller ≠ AuthTypeCookie →
  (∀ e, AttachHandler resolve r (Some caller) param id = Upgrade e ↔
        r !! id = Some e ∧ entry_orgID e = User_OrgID caller) ∧
  ((∀ e, r !! id = Some e → entry_orgID e ≠ User_OrgID caller) →
   AttachHandler resolve r (Some caller) param id =
   AttachHandler resolve ∅ (Some caller) param id).
Proof.
  intros Ht. unfold AttachHandler, lookup_session.
  change ((∅ : Registry) !! id) with (@None entry).
  destruct (String.eqb_spec (User_Type caller) AuthTypeCookie); [done|].
  destruct (r !! id) as [e'|]; [|naive_solver].
  destruct (Z.eqb_spec (User_OrgID caller) (entry_orgID e')); simpl; split; naive_solver.
Qed.

Lemma attach_leg_hides_witness :
  let caller := mkUser "" "" "" 4 "app" "" Admin in
  AttachHandler None sample_registry (Some caller) None "s1" =
  AttachHandler None ∅ (Some caller) None "s1".
Proof.
  intros caller. apply (attach_leg_hides None sample_registry caller None "s1");
    [discriminate | intros e He]. vm_compute in He. injection He as <-. discriminate.
Defined.
