(* ===== verification/ShellWire.v ===== *)
(** * The debug shell's endpoints

    Models [internal/shell/shellwire/shellwire.go], the framing of a shell
    session, and the loops at its two ends: [Serve] of [shell.go] between the
    connection and the PTY, and [Operate] of [attach.go] between the connection
    and the operator's terminal.  The relay between them is [ShellRelay]. *)

From S2P Require Import Prelude Strconv.
From Stdlib Require Import Ascii.

(** ** The wire *)

Definition Subprotocol : string := "gritz-shell.v1".

Definition ReadLimit : Z := 2 ^ 20.

Definition byte_of (z : Z) : ascii := ascii_of_N (Z.to_N (z mod 256)).
Definition value_of (c : ascii) : Z := Z.of_N (N_of_ascii c).

Definition TypeData : Z := 0.
Definition TypeResize : Z := 1.
Definition TypeExit : Z := 2.
Definition TypePing : Z := 3.

Record Frame := mkFrame { Frame_Type : Z; Payload : string }.

(** [binary.BigEndian]. *)
Definition PutUint16 (z : Z) : string :=
  String (byte_of (Z.shiftr z 8)) (String (byte_of z) "").

Definition PutUint32 (z : Z) : string :=
  PutUint16 (Z.shiftr z 16) +:+ PutUint16 z.

Definition Uint16 (s : string) : option Z :=
  match s with
  | String a (String b _) => Some (Z.lor (Z.shiftl (value_of a) 8) (value_of b))
  | _ => None
  end.

Definition Uint32 (s : string) : option Z :=
  match s with
  | String a (String b rest) =>
      hi ← Uint16 s; lo ← Uint16 rest; Some (Z.lor (Z.shiftl hi 16) lo)
  | _ => None
  end.

(** The conversions [int32(...)] and [uint32(...)]. *)
Definition to_int32 (z : Z) : Z := (z + 2 ^ 31) mod 2 ^ 32 - 2 ^ 31.
Definition to_uint32 (z : Z) : Z := z mod 2 ^ 32.

Definition Data (b : string) : string := String (byte_of TypeData) b.

Definition Resize (rows cols : Z) : string :=
  String (byte_of TypeResize) (PutUint16 rows +:+ PutUint16 cols).

Definition Exit (code : Z) : string :=
  String (byte_of TypeExit) (PutUint32 (to_uint32 (to_int32 code))).

Definition Ping : string := String (byte_of TypePing) "".

Definition Parse (msg : string) : string + Frame :=
  match msg with
  | EmptyString => inl "shellwire: empty frame"
  | String t payload => inr (mkFrame (value_of t) payload)
  end.

Definition bad_frame (what : string) : string := "shellwire: " +:+ what.

Definition ResizeDims (f : Frame) : string + (Z * Z) :=
  if negb (Frame_Type f =? TypeResize) then inl (bad_frame "not a resize frame")
  else if negb (Nat.eqb (String.length (Payload f)) 4) then inl (bad_frame "resize payload must be 4 bytes")
  else match Uint16 (Payload f), Uint16 (String.substring 2 2 (Payload f)) with
       | Some rows, Some cols => inr (rows, cols)
       | _, _ => inl ""
       end.

Definition ExitCode (f : Frame) : string + Z :=
  if negb (Frame_Type f =? TypeExit) then inl (bad_frame "not an exit frame")
  else if negb (Nat.eqb (String.length (Payload f)) 4) then inl (bad_frame "exit payload must be 4 bytes")
  else match Uint32 (Payload f) with
       | Some code => inr (to_int32 code)
       | None => inl ""
       end.

(** ** The endpoints *)

(** A message of the connection: whether it is binary, and its bytes. *)
Record Msg := mkMsg { msg_binary : bool; msg_data : string }.

#[export] Instance Msg_eq_dec : EqDecision Msg.
Proof. solve_decision. Defined.

Record WinSize := mkWinSize { Rows : Z; Cols : Z }.

(** What the driver's goroutine does with the PTY, in order. *)
Inductive PtyAction :=
| PtyWrite (b : string)
| PtySetsize (rows cols : Z).

(** The connection-to-PTY loop of [Serve] over the messages that arrive;
    [write_ok] says whether each write to the PTY succeeds. *)
Fixpoint serve_input (write_ok : list bool) (msgs : list Msg) : list PtyAction :=
  match msgs with
  | [] => []
  | m :: msgs =>
      if negb (msg_binary m) then serve_input write_ok msgs
      else match Parse (msg_data m) with
           | inl _ => serve_input write_ok msgs
           | inr f =>
               if Frame_Type f =? TypeData then
                 match write_ok with
                 | false :: _ => []
                 | _ => PtyWrite (Payload f) :: serve_input (tail write_ok) msgs
                 end
               else if Frame_Type f =? TypeResize then
                 match ResizeDims f with
                 | inl _ => serve_input write_ok msgs
                 | inr (rows, cols) => PtySetsize rows cols :: serve_input write_ok msgs
                 end
               else serve_input write_ok msgs
           end
  end.

Definition binary (data : string) : Msg := mkMsg true data.

(** The shell's end: [cmd.Wait]'s error. *)
Inductive WaitErr := WaitOK | WaitExit (code : Z) | WaitOther.

Definition exitCode (err : WaitErr) : Z :=
  match err with WaitOK => 0 | WaitExit code => code | WaitOther => 1 end.

(** What [Serve] sends: a frame for each read of the PTY, and at the end the
    exit frame. *)
Definition serve_output (reads : list string) (wait : WaitErr) : list Msg :=
  (binary ∘ Data <$> reads) ++ [binary (Exit (exitCode wait))].

(** The loop of [Operate]: what it writes to [Out], and what it returns, if it
    does not wait for more. *)
Inductive OperateEnd := Waiting | Exited (code : Z) | Failed.

Fixpoint operate (write_ok : list bool) (msgs : list Msg) : string * OperateEnd :=
  match msgs with
  | [] => ("", Waiting)
  | m :: msgs =>
      if negb (msg_binary m) then operate write_ok msgs
      else match Parse (msg_data m) with
           | inl _ => operate write_ok msgs
           | inr f =>
               if Frame_Type f =? TypeData then
                 match write_ok with
                 | false :: _ => ("", Failed)
                 | _ => let '(out, fin) := operate (tail write_ok) msgs in (Payload f +:+ out, fin)
                 end
               else if Frame_Type f =? TypeExit then
                 match ExitCode f with inl _ => ("", Failed) | inr code => ("", Exited code) end
               else operate write_ok msgs
           end
  end.

(** What the operator's writer sends: input read, or a new size. *)
Definition operator_frame (i : string + WinSize) : Msg :=
  match i with
  | inl buf => binary (Data buf)
  | inr ws => binary (Resize (Rows ws) (Cols ws))
  end.

Definition pty_action (i : string + WinSize) : PtyAction :=
  match i with inl buf => PtyWrite buf | inr ws => PtySetsize (Rows ws) (Cols ws) end.

(** [CreateSessionID], of the 16 bytes [rand.Read] gave. *)
Definition CreateSessionID (rand : string + string) : string + string :=
  match rand with
  | inl err => inl ("generating shell session id: " +:+ err)
  | inr b => inr (EncodeToString b)
  end.

(** ** The codec *)

Lemma value_of_byte z : value_of (byte_of z) = z mod 256.
Proof.
  unfold value_of, byte_of. pose proof (Z.mod_pos_bound z 256 ltac:(lia)).
  rewrite N_ascii_embedding by lia. lia.
Qed.

Definition is_uint16 (z : Z) : Prop := 0 ≤ z < 2 ^ 16.

(** A number of [k + m] bits is put together from its two parts. *)
Lemma lor_split z k m :
  0 ≤ k → 0 ≤ m → 0 ≤ z < 2 ^ (k + m) →
  Z.lor (Z.shiftl (Z.shiftr z k mod 2 ^ m) k) (z mod 2 ^ k) = z.
Proof.
  intros Hk Hm Hz. apply Z.bits_inj'. intros n Hn. rewrite Z.lor_spec, Z.shiftl_spec by done.
  destruct (Z.lt_ge_cases n k) as [Hlt|Hge].
  - rewrite Z.testbit_neg_r by lia. by rewrite Z.mod_pow2_bits_low.
  - rewrite (Z.mod_pow2_bits_high z k n) by lia. rewrite orb_false_r.
    destruct (Z.lt_ge_cases (n - k) m) as [Hlt'|Hge'].
    + rewrite Z.mod_pow2_bits_low, Z.shiftr_spec by lia. f_equal. lia.
    + rewrite Z.mod_pow2_bits_high by lia. symmetry.
      rewrite <- (Z.mod_small z (2 ^ (k + m))) by done. apply Z.mod_pow2_bits_high. lia.
Qed.

Lemma Uint16_Put z rest : is_uint16 z → Uint16 (PutUint16 z +:+ rest) = Some z.
Proof.
  intros Hz. change (Some (Z.lor (Z.shiftl (value_of (byte_of (Z.shiftr z 8))) 8) (value_of (byte_of z))) = Some z).
  rewrite !value_of_byte. f_equal.
  apply (lor_split z 8 8); [lia..|exact Hz].
Qed.

Lemma PutUint16_mod z : PutUint16 (z mod 2 ^ 16) = PutUint16 z.
Proof.
  assert (H1 : Z.shiftr (z mod 2 ^ 16) 8 mod 2 ^ 8 = Z.shiftr z 8 mod 2 ^ 8).
  { apply Z.bits_inj'. intros n Hn. destruct (Z.lt_ge_cases n 8).
    - by rewrite !Z.mod_pow2_bits_low, !Z.shiftr_spec, Z.mod_pow2_bits_low by lia.
    - by rewrite !Z.mod_pow2_bits_high by lia. }
  assert (H2 : (z mod 2 ^ 16) mod 2 ^ 8 = z mod 2 ^ 8).
  { apply Z.bits_inj'. intros n Hn. destruct (Z.lt_ge_cases n 8).
    - by rewrite !Z.mod_pow2_bits_low by lia.
    - by rewrite !Z.mod_pow2_bits_high by lia. }
  unfold PutUint16, byte_of. change (2 ^ 8) with 256 in *. by rewrite H1, H2.
Qed.

Lemma Uint32_Put z rest : 0 ≤ z < 2 ^ 32 → Uint32 (PutUint32 z +:+ rest) = Some z.
Proof.
  intros Hz. unfold PutUint32. rewrite str_app_assoc.
  rewrite <- (PutUint16_mod (Z.shiftr z 16)), <- (PutUint16_mod z).
  set (hi := Z.shiftr z 16 mod 2 ^ 16). set (lo := z mod 2 ^ 16).
  assert (Hhi : is_uint16 hi) by (apply Z.mod_pos_bound; lia).
  assert (Hlo : is_uint16 lo) by (apply Z.mod_pos_bound; lia).
  change (Uint32 (PutUint16 hi +:+ (PutUint16 lo +:+ rest))) with
    (hi' ← Uint16 (PutUint16 hi +:+ (PutUint16 lo +:+ rest));
     lo' ← Uint16 (PutUint16 lo +:+ rest); Some (Z.lor (Z.shiftl hi' 16) lo')).
  rewrite !Uint16_Put by done. cbn [mbind option_bind]. f_equal. apply (lor_split z 16 16); lia.
Qed.

Lemma value_of_type t : 0 ≤ t < 4 → value_of (byte_of t) = t.
Proof. intros Ht. rewrite value_of_byte. apply Z.mod_small. lia. Qed.

Lemma Parse_Data b : Parse (Data b) = inr (mkFrame TypeData b).
Proof. reflexivity. Qed.

Lemma Parse_Resize rows cols :
  is_uint16 rows → is_uint16 cols →
  ∃ f, Parse (Resize rows cols) = inr f ∧ Frame_Type f = TypeResize ∧ ResizeDims f = inr (rows, cols).
Proof.
  intros Hr Hc. eexists. split; [reflexivity|]. split; [reflexivity|]. unfold ResizeDims.
  cbn -[PutUint16]. rewrite length_str_app. cbn -[Uint16 PutUint16 String.substring].
  rewrite Uint16_Put by done. change (String.substring 2 2 (PutUint16 rows +:+ PutUint16 cols)) with (PutUint16 cols).
  pose proof (Uint16_Put cols "" Hc) as H. rewrite str_app_nil_r in H. by rewrite H.
Qed.

Lemma to_int32_uint32 z : to_int32 (to_uint32 z) = to_int32 z.
Proof. unfold to_int32, to_uint32. f_equal. by rewrite Zplus_mod_idemp_l. Qed.

Lemma to_int32_idem z : to_int32 (to_int32 z) = to_int32 z.
Proof. unfold to_int32. f_equal. rewrite Z.sub_add. apply Z.mod_mod. lia. Qed.

Lemma Parse_Exit code :
  ∃ f, Parse (Exit code) = inr f ∧ Frame_Type f = TypeExit ∧ ExitCode f = inr (to_int32 code).
Proof.
  eexists. split; [reflexivity|]. split; [reflexivity|]. unfold ExitCode.
  cbn -[PutUint32]. pose proof (Uint32_Put (to_uint32 (to_int32 code)) "") as H.
  rewrite str_app_nil_r in H. rewrite H by (apply Z.mod_pos_bound; lia).
  cbn -[to_int32 to_uint32]. by rewrite to_int32_uint32, to_int32_idem.
Qed.

(** ** The two loops *)

Definition ok_input (i : string + WinSize) : Prop :=
  match i with inl _ => True | inr ws => is_uint16 (Rows ws) ∧ is_uint16 (Cols ws) end.

Lemma tail_true (l : list bool) : Forall (λ b, b = true) l → Forall (λ b, b = true) (tail l).
Proof. destruct l; [done|]. by intros [_ ?]%Forall_cons. Qed.

(** The driver does with its PTY what the operator's terminal did, in order. *)
Lemma serve_input_frames inputs : ∀ write_ok,
  Forall (λ b, b = true) write_ok → Forall ok_input inputs →
  serve_input write_ok (operator_frame <$> inputs) = pty_action <$> inputs.
Proof.
  induction inputs as [|[buf|ws] inputs IH]; intros write_ok Hw Hok; [done|..];
    apply Forall_cons in Hok as [Hi Hok]; rewrite !fmap_cons.
  - cbn [operator_frame pty_action]. unfold binary. cbn [serve_input msg_binary msg_data negb].
    rewrite Parse_Data. cbn [Frame_Type]. change (TypeData =? TypeData) with true. cbv iota.
    rewrite IH by (try apply tail_true; done). destruct Hw as [|b l -> _]; reflexivity.
  - destruct Hi as [Hr Hc]. destruct (Parse_Resize _ _ Hr Hc) as (f & Hp & Ht & Hd).
    cbn [operator_frame pty_action]. unfold binary. cbn [serve_input msg_binary msg_data negb].
    rewrite Hp, Ht. change (TypeResize =? TypeData) with false. change (TypeResize =? TypeResize) with true.
    cbv iota. by rewrite Hd, IH.
Qed.

Definition concat_str (l : list string) : string := foldr String.append "" l.

(** Whatever part of the driver's frames arrives: the terminal shows a beginning
    of the shell's output, and the loop ends only with the shell's exit code,
    after all of it. *)
Lemma operate_frames reads wait : ∀ write_ok msgs,
  Forall (λ b, b = true) write_ok → msgs `prefix_of` serve_output reads wait →
  ∃ out rest, operate write_ok msgs = (out, if bool_decide (msgs = serve_output reads wait)
                                            then Exited (to_int32 (exitCode wait)) else Waiting) ∧
    out +:+ rest = concat_str reads ∧ (msgs = serve_output reads wait → rest = "").
Proof.
  unfold serve_output. induction reads as [|r reads IH]; intros write_ok msgs Hw Hpre.
  - destruct msgs as [|m msgs]; [by exists "", ""|].
    apply prefix_cons_inv_1 in Hpre as Hm. apply prefix_cons_inv_2, prefix_nil_inv in Hpre as ->. subst m.
    exists "", "". split; [|done]. unfold binary. cbn [operate msg_binary msg_data negb fmap list_fmap app].
    destruct (Parse_Exit (exitCode wait)) as (f & Hp & Ht & He). rewrite Hp, Ht, He.
    change (TypeExit =? TypeData) with false. change (TypeExit =? TypeExit) with true. cbv iota.
    by rewrite bool_decide_eq_true_2.
  - destruct msgs as [|m msgs]; [by exists "", (concat_str (r :: reads))|].
    rewrite fmap_cons in *. cbn [app] in *.
    apply prefix_cons_inv_1 in Hpre as Hm. apply prefix_cons_inv_2 in Hpre. subst m.
    destruct (IH (tail write_ok) msgs) as (out & rest & Hrun & Hout & Hall); [by apply tail_true|done|].
    exists (r +:+ out), rest. unfold binary at 1. cbn [compose operate msg_binary msg_data negb].
    rewrite Parse_Data. cbn [Frame_Type Payload]. change (TypeData =? TypeData) with true. cbv iota.
    rewrite Hrun. split.
    + case_bool_decide as H1; case_bool_decide as H2; try (exfalso; naive_solver);
        destruct Hw as [|b l -> _]; reflexivity.
    + split; [by rewrite str_app_assoc, Hout|]. intros Heq. injection Heq as Heq. by apply Hall.
Qed.
