(* ===== verification/ShellRelay.v ===== *)
(** * The debug-shell relay

    Models [internal/shell/shellrelay/shellrelay.go]: a session that bridges two
    connections.  Each call of [Join] is a goroutine, the two timers and [Close]
    are further ones, and they interleave at every lock, channel and connection
    operation; the endpoints send, and go away, whenever they like. *)

From S2P Require Import Prelude AuthScope EventModel TaskModel Links PubSub ScheduleModel Rules.
From S2P Require Import Store StoreOps StoreLogic ApiBase ShellServer ShellWire.

Inductive RelayErr := errLegTaken | errTornDown | errPump.

(** Where a call of [Join] is: before [register], waiting for its peer, in the
    pump before a read or with a message to write, in [teardown], or back. *)
Inductive JoinState :=
| Entering
| Awaiting
| Pumping
| Writing (m : Msg)
| Ending
| Returned (err : RelayErr).

(** A connection: what its endpoint has sent, what of it the relay has still to
    read, what the relay has written to it, whether the relay closed it, whether
    the endpoint is gone, and its call of [Join]. *)
Record Leg := mkLeg {
  l_sent : list Msg; l_inbox : list Msg; l_outbox : list Msg;
  l_closed : bool; l_gone : bool; l_join : JoinState }.

(** A timer: armed, and fired with its function still to run. *)
Record Timer := mkTimer { armed : bool; fired : bool }.

(** [teardown]: not called, past the lock with the legs it saw, or past
    [close(s.done)] with the legs it has yet to close. *)
Inductive Teardown :=
| TdNone
| TdBegun (legs : list nat)
| TdClosing (legs : list nat).

Record Session := mkSession {
  s_idleTimeout : Z; s_legs : list nat; s_timer : Timer; s_idle : Timer;
  s_td : Teardown; s_conns : gmap nat Leg }.

Definition NewSession (idleTimeout : Z) : Session :=
  mkSession idleTimeout [] (mkTimer true false) (mkTimer false false) TdNone ∅.

(** [s.done] is closed. *)
Definition done_closed (s : Session) : bool :=
  match s_td s with TdClosing _ => true | _ => false end.

(** [s.ready] is closed. *)
Definition ready_closed (s : Session) : bool := Nat.eqb (length (s_legs s)) 2.

Definition stop (t : Timer) : Timer := mkTimer false (fired t).

Definition with_conns (f : gmap nat Leg → gmap nat Leg) (s : Session) : Session :=
  mkSession (s_idleTimeout s) (s_legs s) (s_timer s) (s_idle s) (s_td s) (f (s_conns s)).

Definition register (conn : nat) (s : Session) : RelayErr + Session :=
  if done_closed s then inl errTornDown
  else if Nat.eqb (length (s_legs s)) 2 then inl errLegTaken
  else
    let legs := s_legs s ++ [conn] in
    if Nat.eqb (length legs) 2
    then inr (mkSession (s_idleTimeout s) legs (stop (s_timer s))
                (if 0 <? s_idleTimeout s then mkTimer true false else s_idle s) (s_td s) (s_conns s))
    else inr (mkSession (s_idleTimeout s) legs (s_timer s) (s_idle s) (s_td s) (s_conns s)).

Definition peer (conn : nat) (s : Session) : option nat :=
  match s_legs s with
  | a :: rest => if Nat.eqb a conn then head rest else Some a
  | [] => None
  end.

Definition resetIdle (s : Session) : Session :=
  if done_closed s then s
  else mkSession (s_idleTimeout s) (s_legs s) (s_timer s)
         (if 0 <? s_idleTimeout s then mkTimer true (fired (s_idle s)) else s_idle s) (s_td s) (s_conns s).

(** What happens to one connection. *)
Definition set_join (j : JoinState) (l : Leg) : Leg :=
  mkLeg (l_sent l) (l_inbox l) (l_outbox l) (l_closed l) (l_gone l) j.
Definition close_conn (l : Leg) : Leg :=
  mkLeg (l_sent l) (l_inbox l) (l_outbox l) true (l_gone l) (l_join l).
Definition took (m : Msg) (rest : list Msg) (l : Leg) : Leg :=
  mkLeg (l_sent l) rest (l_outbox l) (l_closed l) (l_gone l) (Writing m).
Definition written (m : Msg) (l : Leg) : Leg :=
  mkLeg (l_sent l) (l_inbox l) (l_outbox l ++ [m]) (l_closed l) (l_gone l) (l_join l).
Definition sends (m : Msg) (l : Leg) : Leg :=
  mkLeg (l_sent l ++ [m]) (l_inbox l ++ [m]) (l_outbox l) (l_closed l) (l_gone l) (l_join l).
Definition drops (l : Leg) : Leg :=
  mkLeg (l_sent l) (l_inbox l) (l_outbox l) (l_closed l) true (l_join l).

Definition new_conn : Leg := mkLeg [] [] [] false false Entering.

(** [Join] up to [register], whose refusal closes the connection. *)
Definition join_register (conn : nat) (s : Session) : Session :=
  match register conn s with
  | inl err => with_conns (alter (close_conn ∘ set_join (Returned err)) conn) s
  | inr s' => with_conns (alter (set_join Awaiting) conn) s'
  end.

(** Taking [closeOnce]. *)
Definition teardown_begin (s : Session) : Session :=
  mkSession (s_idleTimeout s) (s_legs s) (stop (s_timer s)) (stop (s_idle s)) (TdBegun (s_legs s)) (s_conns s).

Definition set_td (td : Teardown) (s : Session) : Session :=
  mkSession (s_idleTimeout s) (s_legs s) (s_timer s) (s_idle s) td (s_conns s).

Definition fire (t : Timer) : Timer := mkTimer false true.

Definition too_big (m : Msg) : bool := ReadLimit <? Z.of_nat (String.length (msg_data m)).

(** A read fails once the relay closed the connection, on a message over the
    limit, or when the endpoint is gone. *)
Definition read_fails (l : Leg) : bool :=
  l_closed l || l_gone l || match l_inbox l with m :: _ => too_big m | [] => false end.

Inductive relay_step : Session → Session → Prop :=
| rs_accept s c : s_conns s !! c = None → relay_step s (with_conns (<[c := new_conn]>) s)
| rs_register s c l : s_conns s !! c = Some l → l_join l = Entering → relay_step s (join_register c s)
| rs_ready s c l : s_conns s !! c = Some l → l_join l = Awaiting → ready_closed s = true →
    relay_step s (with_conns (alter (set_join Pumping) c) s)
| rs_torn_down s c l : s_conns s !! c = Some l → l_join l = Awaiting → done_closed s = true →
    relay_step s (with_conns (alter (close_conn ∘ set_join (Returned errTornDown)) c) s)
| rs_read s c l m rest : s_conns s !! c = Some l → l_join l = Pumping → l_closed l = false →
    l_inbox l = m :: rest → too_big m = false →
    relay_step s (with_conns (alter (took m rest) c) (resetIdle s))
| rs_read_err s c l : s_conns s !! c = Some l → l_join l = Pumping → read_fails l = true →
    relay_step s (with_conns (alter (set_join Ending) c) s)
| rs_write s c l m p lp : s_conns s !! c = Some l → l_join l = Writing m →
    peer c s = Some p → s_conns s !! p = Some lp → l_closed lp = false →
    relay_step s (with_conns (λ conns, alter (set_join Pumping) c (alter (written m) p conns)) s)
| rs_write_err s c l m p lp : s_conns s !! c = Some l → l_join l = Writing m →
    peer c s = Some p → s_conns s !! p = Some lp → l_closed lp || l_gone lp = true →
    relay_step s (with_conns (alter (set_join Ending) c) s)
| rs_teardown s : s_td s = TdNone →
    fired (s_timer s) = true ∨ fired (s_idle s) = true ∨
      (∃ c l, s_conns s !! c = Some l ∧ l_join l = Ending) → relay_step s (teardown_begin s)
| rs_close s : s_td s = TdNone → relay_step s (teardown_begin s)
| rs_done s legs : s_td s = TdBegun legs → relay_step s (set_td (TdClosing legs) s)
| rs_close_leg s c legs : s_td s = TdClosing (c :: legs) →
    relay_step s (set_td (TdClosing legs) (with_conns (alter close_conn c) s))
| rs_return s c l : s_conns s !! c = Some l → l_join l = Ending → s_td s = TdClosing [] →
    relay_step s (with_conns (alter (set_join (Returned errPump)) c) s)
| rs_timer s : armed (s_timer s) = true →
    relay_step s (mkSession (s_idleTimeout s) (s_legs s) (fire (s_timer s)) (s_idle s) (s_td s) (s_conns s))
| rs_idle s : armed (s_idle s) = true →
    relay_step s (mkSession (s_idleTimeout s) (s_legs s) (s_timer s) (fire (s_idle s)) (s_td s) (s_conns s))
| rs_send s c l m : s_conns s !! c = Some l → l_closed l = false → l_gone l = false →
    relay_step s (with_conns (alter (sends m) c) s)
| rs_drop s c : relay_step s (with_conns (alter drops c) s).

(** ** The invariant *)

Definition held (l : Leg) : list Msg := match l_join l with Writing m => [m] | _ => [] end.

(** The pump of this connection is over. *)
Definition over (l : Leg) : bool := match l_join l with Ending | Returned _ => true | _ => false end.

(** What the pump of [c] has written. *)
Definition pumped (c : nat) (s : Session) : list Msg :=
  if bool_decide (c ∈ s_legs s) then
    match peer c s with
    | Some p => from_option l_outbox [] (s_conns s !! p)
    | None => []
    end
  else [].

(** Where a call of [Join] may be, by whether it is registered. *)
Definition join_ok (c : nat) (s : Session) (l : Leg) : Prop :=
  match l_join l with
  | Entering => c ∉ s_legs s
  | Awaiting => c ∈ s_legs s
  | Pumping | Writing _ | Ending | Returned errPump => c ∈ s_legs s ∧ ready_closed s = true
  | Returned errTornDown => l_closed l = true ∧ done_closed s = true
  | Returned errLegTaken => (c ∉ s_legs s) ∧ l_closed l = true ∧ ready_closed s = true
  end.

Record relay_inv (s : Session) : Prop := {
  ri_two : (length (s_legs s) ≤ 2)%nat;
  ri_nodup : NoDup (s_legs s);
  ri_conns : ∀ c, c ∈ s_legs s → is_Some (s_conns s !! c);
  ri_join : ∀ c l, s_conns s !! c = Some l → join_ok c s l;
  (** a message is written, held, or still to be read, but for one that was held
      when the pump ended *)
  ri_flow : ∀ c l, s_conns s !! c = Some l →
    ∃ lost, pumped c s ++ held l ++ lost ++ l_inbox l = l_sent l ∧ (lost = [] ∨ over l = true);
  (** nothing is written to a connection that is not one of two legs *)
  ri_quiet : ∀ c l, s_conns s !! c = Some l → c ∉ s_legs s ∨ ready_closed s = false → l_outbox l = [] }.

Lemma pumped_ext c s s' :
  s_legs s' = s_legs s →
  (∀ p, p ∈ s_legs s → from_option l_outbox [] (s_conns s' !! p) = from_option l_outbox [] (s_conns s !! p)) →
  pumped c s' = pumped c s.
Proof.
  intros Hl Ho. unfold pumped, peer. rewrite Hl. destruct (s_legs s) as [|a rest] eqn:E; [done|].
  case_bool_decide; [|done]. destruct (Nat.eqb a c); [|apply Ho; set_solver].
  destruct rest as [|b rest]; [done|]. apply Ho. set_solver.
Qed.

Lemma alter_outbox f c (conns : gmap nat Leg) p :
  (∀ l, conns !! c = Some l → l_outbox (f l) = l_outbox l) →
  from_option l_outbox [] (alter f c conns !! p) = from_option l_outbox [] (conns !! p).
Proof.
  intros Hf. destruct (decide (p = c)) as [->|Hne]; [|by rewrite lookup_alter_ne].
  rewrite lookup_alter_eq. destruct (conns !! c) as [l|]; [|done]. simpl. by apply Hf.
Qed.

(** A step that changes one connection, but not what was written to it. *)
Lemma inv_alter s c l f :
  relay_inv s → s_conns s !! c = Some l → join_ok c s (f l) → l_outbox (f l) = l_outbox l →
  (∃ lost, pumped c s ++ held (f l) ++ lost ++ l_inbox (f l) = l_sent (f l) ∧ (lost = [] ∨ over (f l) = true)) →
  relay_inv (with_conns (alter f c) s).
Proof.
  intros [H2 Hnd Hc Hj Hf Hq] Hl Hjl Ho Hfl.
  assert (Hp : ∀ c', pumped c' (with_conns (alter f c) s) = pumped c' s).
  { intros c'. apply pumped_ext; [done|]. intros p _. apply alter_outbox. intros l' Hl'. by simplify_eq. }
  split; [done|done| | | |].
  - intros c' Hin. cbn [s_conns with_conns]. rewrite lookup_alter_is_Some. by apply Hc.
  - intros c' l'. cbn [s_conns with_conns]. rewrite lookup_alter_Some. intros [(-> & l0 & Hl0 & ->)|[_ Hl']].
    + by simplify_eq.
    + by apply Hj.
  - intros c' l'. cbn [s_conns with_conns]. rewrite Hp, lookup_alter_Some.
    intros [(-> & l0 & Hl0 & ->)|[_ Hl']]; [by simplify_eq|by apply Hf].
  - intros c' l'. cbn [s_conns with_conns]. rewrite lookup_alter_Some.
    intros [(-> & l0 & Hl0 & ->)|[_ Hl']] Hor; [simplify_eq; rewrite Ho|]; by eapply Hq.
Qed.

(** A step that changes no connection and no leg, and does not reopen
    [s.done]. *)
Lemma inv_same s s' :
  relay_inv s → s_legs s' = s_legs s → s_conns s' = s_conns s →
  (done_closed s = true → done_closed s' = true) → relay_inv s'.
Proof.
  intros [H2 Hnd Hc Hj Hf Hq] Hl Hcs Hd.
  assert (Hr : ready_closed s' = ready_closed s) by (unfold ready_closed; by rewrite Hl).
  split; rewrite ?Hl, ?Hcs; auto.
  - intros c l H. specialize (Hj c l H). unfold join_ok in *. rewrite Hl, Hr.
    destruct (l_join l) as [| | | | |[]]; naive_solver.
  - intros c l H. rewrite (pumped_ext c s s') by (done || by rewrite Hcs). by apply Hf.
  - intros c l H Hor. rewrite Hr in Hor. by apply (Hq c l).
Qed.

Lemma relay_inv_New idleTimeout : relay_inv (NewSession idleTimeout).
Proof.
  split; simpl; intros *; rewrite ?lookup_empty; try done; [lia|constructor|set_solver].
Qed.

Lemma inv_accept s c :
  relay_inv s → s_conns s !! c = None → relay_inv (with_conns (<[c := new_conn]>) s).
Proof.
  intros [H2 Hnd Hc Hj Hf Hq] Hnew.
  assert (Hout : c ∉ s_legs s) by (intros Hin; apply Hc in Hin; rewrite Hnew in Hin; by destruct Hin).
  assert (Hp : ∀ c', pumped c' (with_conns (<[c := new_conn]>) s) = pumped c' s).
  { intros c'. apply pumped_ext; [done|]. intros p Hin. cbn [s_conns with_conns].
    by rewrite lookup_insert_ne by (intros ->; done). }
  split; [done|done| | | |]; cbn [s_conns with_conns s_legs].
  - intros c' Hin. rewrite lookup_insert_ne by (intros ->; done). by apply Hc.
  - intros c' l. rewrite lookup_insert_Some. intros [[<- <-]|[_ Hl]]; [done|by apply Hj].
  - intros c' l. rewrite Hp, lookup_insert_Some. intros [[<- <-]|[_ Hl]]; [|by apply Hf].
    exists []. split; [|by left]. unfold pumped. by rewrite bool_decide_eq_false_2.
  - intros c' l. rewrite lookup_insert_Some. intros [[<- <-]|[_ Hl]]; [done|by apply Hq].
Qed.

(** A connection that becomes a leg. *)
Lemma inv_register s c l timer idle :
  relay_inv s → s_conns s !! c = Some l → l_join l = Entering → ready_closed s = false →
  relay_inv (with_conns (alter (set_join Awaiting) c)
    (mkSession (s_idleTimeout s) (s_legs s ++ [c]) timer idle (s_td s) (s_conns s))).
Proof.
  intros [H2 Hnd Hc Hj Hf Hq] Hl Hent Hr.
  assert (Hout : c ∉ s_legs s) by (specialize (Hj c l Hl); unfold join_ok in Hj; by rewrite Hent in Hj).
  assert (Hlen : (length (s_legs s) < 2)%nat) by (unfold ready_closed in Hr; apply Nat.eqb_neq in Hr; lia).
  assert (Hempty : ∀ p, from_option l_outbox [] (alter (set_join Awaiting) c (s_conns s) !! p) = []).
  { intros p. rewrite alter_outbox by done. destruct (s_conns s !! p) as [lp|] eqn:Hp; [|done]. simpl.
    eapply Hq; [done|by right]. }
  assert (Hold : ∀ c', pumped c' s = []).
  { intros c'. unfold pumped. case_bool_decide; [|done]. destruct (peer c' s) as [p|]; [|done].
    pose proof (Hempty p) as H'. by rewrite alter_outbox in H' by done. }
  assert (Hnew : ∀ c', pumped c' (with_conns (alter (set_join Awaiting) c)
    (mkSession (s_idleTimeout s) (s_legs s ++ [c]) timer idle (s_td s) (s_conns s))) = []).
  { intros c'. unfold pumped. case_bool_decide; [|done]. destruct (peer c' _) as [p|]; [apply Hempty|done]. }
  split; cbn [s_legs with_conns s_conns].
  - rewrite length_app. simpl. lia.
  - apply NoDup_app. split; [done|]. split; [set_solver|apply NoDup_singleton].
  - intros c' Hin. rewrite lookup_alter_is_Some. apply elem_of_app in Hin as [Hin| ->%list_elem_of_singleton];
      [by apply Hc|by rewrite Hl].
  - intros c' l'. rewrite lookup_alter_Some. intros [(-> & l0 & Hl0 & ->)|[Hne Hl']].
    { unfold join_ok. simpl. set_solver. }
    specialize (Hj c' l' Hl'). unfold join_ok, ready_closed, done_closed in *. cbn [s_legs s_td with_conns].
    destruct (l_join l') as [| | | | |[]]; rewrite ?Hr in *; try done; try (destruct Hj as [_ Hj]; congruence).
    + set_solver.
    + set_solver.
    + destruct Hj as (_ & _ & Hj). congruence.
  - intros c' l'. rewrite Hnew, lookup_alter_Some. intros [(-> & l0 & Hl0 & ->)|[Hne Hl']].
    + destruct (Hf _ l0 Hl0) as (lost & Heq & Hor). rewrite Hold in Heq. simplify_eq.
      unfold held, over in *. simpl in *. rewrite Hent in *. destruct Hor as [->|Hor]; [|done].
      exists []. split; [done|by left].
    + destruct (Hf c' l' Hl') as (lost & Heq & Hor). rewrite Hold in Heq. by exists lost.
  - intros c' l' Hl' _. pose proof (Hempty c') as H. by rewrite Hl' in H.
Qed.

Lemma peer_two a b c s : s_legs s = [a; b] → a ≠ b → c ∈ s_legs s →
  ∃ p, peer c s = Some p ∧ p ∈ s_legs s ∧ p ≠ c ∧ peer p s = Some c.
Proof.
  intros Hl Hne Hin. unfold peer. rewrite Hl in *. cbn [head].
  apply elem_of_cons in Hin as [->|Hin%list_elem_of_singleton]; [exists b|exists a; subst c].
  - rewrite Nat.eqb_refl, (proj2 (Nat.eqb_neq a b)) by done. set_solver.
  - rewrite Nat.eqb_refl, (proj2 (Nat.eqb_neq a b)) by done. set_solver.
Qed.

Lemma two_legs s : relay_inv s → ready_closed s = true → ∃ a b, s_legs s = [a; b] ∧ a ≠ b.
Proof.
  intros Hinv Hr. pose proof (ri_nodup s Hinv) as Hnd. unfold ready_closed in Hr.
  apply Nat.eqb_eq in Hr. destruct (s_legs s) as [|a [|b [|]]]; try done. exists a, b. split; [done|].
  apply NoDup_cons in Hnd as [Hnd _]. set_solver.
Qed.

(** The peer of a leg in the pump. *)
Lemma peer_of s c l m :
  relay_inv s → s_conns s !! c = Some l → l_join l = Writing m →
  c ∈ s_legs s ∧ ready_closed s = true ∧
  ∃ p, peer c s = Some p ∧ p ∈ s_legs s ∧ p ≠ c ∧ peer p s = Some c.
Proof.
  intros Hinv Hl Hw. pose proof (ri_join s Hinv c l Hl) as Hj. unfold join_ok in Hj. rewrite Hw in Hj.
  destruct Hj as [Hin Hr]. split; [done|]. split; [done|].
  destruct (two_legs s Hinv Hr) as (a & b & Hlegs & Hne). by eapply peer_two.
Qed.

Lemma inv_relay_write s c l m p lp :
  relay_inv s → s_conns s !! c = Some l → l_join l = Writing m → peer c s = Some p →
  s_conns s !! p = Some lp →
  relay_inv (with_conns (λ conns, alter (set_join Pumping) c (alter (written m) p conns)) s).
Proof.
  intros Hinv Hl Hw Hp Hlp. destruct (peer_of s c l m Hinv Hl Hw) as (Hin & Hr & p' & Hp' & Hpin & Hne & Hpp).
  rewrite Hp in Hp'. injection Hp' as <-. pose proof Hinv as [H2 Hnd Hc Hj Hf Hq].
  set (s' := with_conns _ s).
  assert (Hget : ∀ c', s_conns s' !! c' =
    if decide (c' = c) then Some (set_join Pumping l)
    else if decide (c' = p) then Some (written m lp) else s_conns s !! c').
  { intros c'. cbn [s' s_conns with_conns]. destruct (decide (c' = c)) as [->|Hc'].
    - by rewrite lookup_alter_eq, lookup_alter_ne, Hl.
    - rewrite lookup_alter_ne by done. destruct (decide (c' = p)) as [->|Hc''].
      + by rewrite lookup_alter_eq, Hlp.
      + by rewrite lookup_alter_ne. }
  assert (Hpu : ∀ c', pumped c' s' = if decide (c' = c) then pumped c s ++ [m] else pumped c' s).
  { intros c'. destruct (decide (c' = c)) as [->|Hc'].
    - unfold pumped. change (s_legs s') with (s_legs s). rewrite bool_decide_eq_true_2 by done.
      change (peer c s') with (peer c s). by rewrite Hp, Hget, decide_False, decide_True, Hlp by done.
    - unfold pumped. change (s_legs s') with (s_legs s). case_bool_decide as Hin'; [|done].
      change (peer c' s') with (peer c' s). destruct (two_legs s Hinv Hr) as (a & b & Hlegs & Hab).
      assert (c' = p) as ->.
      { rewrite Hlegs in Hin', Hin, Hpin. set_solver. }
      by rewrite Hpp, Hget, decide_True, Hl by done. }
  split; [done|done| | | |].
  - intros c' Hin'. rewrite Hget. repeat case_decide; [done..|]. by apply Hc.
  - intros c' l'. rewrite Hget. repeat case_decide; intros [= <-] || intros Hl'.
    + subst. by split.
    + subst. exact (Hj p lp Hlp).
    + exact (Hj c' l' Hl').
  - intros c' l'. rewrite Hget, Hpu. repeat case_decide; intros [= <-] || intros Hl'.
    + destruct (Hf c l Hl) as (lost & Heq & Hor). unfold held, over in *. rewrite Hw in *.
      destruct Hor as [->|Hor]; [|done]. exists []. split; [|by left]. simpl in *. by rewrite <- app_assoc.
    + subst. exact (Hf p lp Hlp).
    + exact (Hf c' l' Hl').
  - intros c' l'. change (s_legs s') with (s_legs s). change (ready_closed s') with (ready_closed s).
    rewrite Hr, Hget. repeat case_decide; intros [= <-] || intros Hl'; intros [Hout|Hor]; subst; try done.
    apply (Hq c' l' Hl'). by left.
Qed.

Lemma resetIdle_inv s : relay_inv s → relay_inv (resetIdle s).
Proof.
  intros Hinv. apply (inv_same s); [done|by unfold resetIdle; case_match..|].
  unfold resetIdle. case_match; [done|congruence].
Qed.

Lemma resetIdle_same s :
  s_legs (resetIdle s) = s_legs s ∧ s_conns (resetIdle s) = s_conns s ∧
  done_closed (resetIdle s) = done_closed s.
Proof. unfold resetIdle. by destruct (done_closed s) eqn:E; rewrite ?E. Qed.

Lemma join_ok_ext c s s' l :
  s_legs s' = s_legs s → done_closed s' = done_closed s → join_ok c s l → join_ok c s' l.
Proof. unfold join_ok, ready_closed. intros -> ->. done. Qed.

(** What the goroutine of a connection does to itself. *)
Lemma inv_join s c l f j :
  relay_inv s → s_conns s !! c = Some l →
  (f = set_join j ∨ f = close_conn ∘ set_join j) →
  join_ok c s (f l) →
  (held l = [] ∧ (over l = true → match j with Ending | Returned _ => True | _ => False end) ∧
     match j with Writing _ => False | _ => True end) ∨
  match j with Ending => True | _ => False end →
  relay_inv (with_conns (alter f c) s).
Proof.
  intros Hinv Hl Hf Hj Hok. destruct (ri_flow s Hinv c l Hl) as (lost & Heq & Hor).
  apply (inv_alter s c l); [done..| |].
  - by destruct Hf as [->| ->].
  - exists (held l ++ lost).
    assert (Hh : held (f l) = []).
    { destruct Hf as [->| ->]; unfold held; simpl; destruct j; try done; destruct Hok as [(_ & _ & [])|[]]. }
    assert (Hi : l_inbox (f l) = l_inbox l ∧ l_sent (f l) = l_sent l) by (by destruct Hf as [->| ->]).
    destruct Hi as [-> ->]. rewrite Hh. split; [by rewrite <- app_assoc|].
    assert (Ho : over (f l) = match j with Ending | Returned _ => true | _ => false end)
      by (destruct Hf as [->| ->]; by destruct j).
    rewrite Ho. destruct Hok as [(Hheld & Hover & _)|Hend].
    + rewrite Hheld. destruct Hor as [->|Hor]; [by left|right]. specialize (Hover Hor). by destruct j.
    + right. by destruct j.
Qed.

Lemma relay_inv_step s s' : relay_inv s → relay_step s s' → relay_inv s'.
Proof.
  intros Hinv. pose proof (ri_join s Hinv) as Hjoin.
  destruct 1 as [s c Hnew|s c l Hl Hj|s c l Hl Hj Hr|s c l Hl Hj Hd|s c l m rest Hl Hj Hcl Hin Hbig
    |s c l Hl Hj Hf|s c l m p lp Hl Hj Hp Hlp Hcl|s c l m p lp Hl Hj Hp Hlp Hcl|s Ht Hwhy|s Ht|s legs Ht
    |s c legs Ht|s c l Hl Hj Ht|s Ha|s Ha|s c l m Hl Hcl Hg|s c];
    try (specialize (Hjoin c l Hl); unfold join_ok in Hjoin; rewrite ?Hj in Hjoin).
  - by apply inv_accept.
  - unfold join_register, register. destruct (done_closed s) eqn:Hd.
    { apply (inv_join s c l _ (Returned errTornDown)); [done|done|by right|by split|].
      left. unfold held, over. by rewrite Hj. }
    destruct (Nat.eqb (length (s_legs s)) 2) eqn:Hr.
    { apply (inv_join s c l _ (Returned errLegTaken)); [done|done|by right|done|].
      left. unfold held, over. by rewrite Hj. }
    destruct (Nat.eqb (length (s_legs s ++ [c])) 2); by apply inv_register with l.
  - apply (inv_join s c l _ Pumping); [done|done|by left|by split|]. left. unfold held, over. by rewrite Hj.
  - apply (inv_join s c l _ (Returned errTornDown)); [done|done|by right|by split|].
    left. unfold held, over. by rewrite Hj.
  - destruct (resetIdle_same s) as (Hlegs & Hcs & Hd). pose proof (resetIdle_inv s Hinv) as Hinv'.
    apply (inv_alter _ c l); [done|by rewrite Hcs| |done|].
    { apply (join_ok_ext c s); [done|done|]. exact Hjoin. }
    destruct (ri_flow _ Hinv' c l) as (lost & Heq & Hor); [by rewrite Hcs|]. exists []. split; [|by left].
    unfold held, over in *. rewrite Hj, Hin in *. destruct Hor as [->|]; [|done]. exact Heq.
  - apply (inv_join s c l _ Ending); [done|done|by left|exact Hjoin|by right].
  - by eapply inv_relay_write.
  - apply (inv_join s c l _ Ending); [done|done|by left|exact Hjoin|by right].
  - apply (inv_same s); [done..|]. unfold done_closed. by rewrite Ht.
  - apply (inv_same s); [done..|]. unfold done_closed. by rewrite Ht.
  - by apply (inv_same s).
  - assert (Hinv' : relay_inv (set_td (TdClosing legs) s)).
    { by apply (inv_same s). }
    change (relay_inv (with_conns (alter close_conn c) (set_td (TdClosing legs) s))).
    destruct (s_conns s !! c) as [l|] eqn:Hl.
    + apply (inv_alter _ c l); [done|done| |done|exact (ri_flow _ Hinv' c l Hl)].
      pose proof (ri_join _ Hinv' c l Hl) as Hj. unfold join_ok in *. simpl.
      destruct (l_join l) as [| | | | |[]]; naive_solver.
    + apply (inv_same (set_td (TdClosing legs) s)); [done|done| |done]. cbn [s_conns with_conns].
      apply map_eq. intros i. destruct (decide (i = c)) as [->|]; [|by rewrite lookup_alter_ne].
      rewrite lookup_alter_eq. simpl. by rewrite Hl.
  - apply (inv_join s c l _ (Returned errPump)); [done|done|by left|exact Hjoin|].
    left. unfold held, over. by rewrite Hj.
  - by apply (inv_same s).
  - by apply (inv_same s).
  - apply (inv_alter s c l); [done..| |done|].
    + exact Hjoin.
    + destruct (ri_flow s Hinv c l Hl) as (lost & Heq & Hor). exists lost.
      split; [|exact Hor]. change (held (sends m l)) with (held l). cbn [sends l_inbox l_sent].
      by rewrite <- Heq, !app_assoc.
  - destruct (s_conns s !! c) as [l|] eqn:Hl.
    + apply (inv_alter s c l); [done|done|exact (ri_join s Hinv c l Hl)|done|exact (ri_flow s Hinv c l Hl)].
    + apply (inv_same s); [done|done| |done]. cbn [s_conns with_conns].
      apply map_eq. intros i. destruct (decide (i = c)) as [->|]; [|by rewrite lookup_alter_ne].
      rewrite lookup_alter_eq. by rewrite Hl.
Qed.

Lemma relay_reachable_inv idleTimeout s : rtc relay_step (NewSession idleTimeout) s → relay_inv s.
Proof.
  intros Hr. generalize (relay_inv_New idleTimeout). induction Hr as [|x y z Hs _ IH]; [done|].
  intros Hx. apply IH. by eapply relay_inv_step.
Qed.

(** ** The session's promises *)

(** What one leg was written, by what the other sent. *)
Lemma legs_pump s a b la lb :
  relay_inv s → s_legs s = [a; b] ∨ s_legs s = [b; a] →
  s_conns s !! a = Some la → s_conns s !! b = Some lb →
  l_outbox lb `prefix_of` l_sent la ∧ (over la = false → l_outbox lb ++ held la ++ l_inbox la = l_sent la).
Proof.
  intros Hinv Hlegs Ha Hb. destruct (ri_flow s Hinv a la Ha) as (lost & Heq & Hor).
  assert (Hp : pumped a s = l_outbox lb).
  { pose proof (ri_nodup s Hinv) as Hnd. unfold pumped, peer. destruct Hlegs as [E|E]; rewrite E in *;
      apply NoDup_cons in Hnd as [Hnd _]; rewrite bool_decide_eq_true_2 by set_solver; cbn [head].
    - by rewrite Nat.eqb_refl, Hb.
    - assert (b ≠ a) by set_solver. by rewrite (proj2 (Nat.eqb_neq b a)), Hb. }
  rewrite Hp in Heq. split.
  - eexists. symmetry. exact Heq.
  - intros Ho. destruct Hor as [->|Hor]; [done|congruence].
Qed.

(** The relay is a verbatim pump between two connections.  In every
    interleaving at most two connections are legs; what was written to one is a
    beginning of what the endpoint of the other sent, each message once and in
    order, and while neither pump ended nothing is missing but what is held or
    still to be read; a connection that is not one of two legs is written
    nothing, and once its [Join] is back it has been closed. *)
Theorem relay_verbatim (idleTimeout : Z) (s : Session) :
  rtc relay_step (NewSession idleTimeout) s →
  (length (s_legs s) ≤ 2)%nat ∧
  (∀ a b la lb, s_legs s = [a; b] ∨ s_legs s = [b; a] →
     s_conns s !! a = Some la → s_conns s !! b = Some lb →
     l_outbox lb `prefix_of` l_sent la ∧
     (over la = false → l_outbox lb ++ held la ++ l_inbox la = l_sent la)) ∧
  (∀ c l, s_conns s !! c = Some l → c ∉ s_legs s →
     l_outbox l = [] ∧ (∀ err, l_join l = Returned err → l_closed l = true ∧
       (err = errLegTaken ∨ err = errTornDown))).
Proof.
  intros Hr. pose proof (relay_reachable_inv _ s Hr) as Hinv.
  split; [by apply Hinv|]. split.
  - intros a b la lb. by apply legs_pump.
  - intros c l Hl Hout. split; [by eapply (ri_quiet s Hinv); [|left]|].
    intros err Hj. pose proof (ri_join s Hinv c l Hl) as H. unfold join_ok in H. rewrite Hj in H.
    destruct err; naive_solver.
Qed.

(** The steps of a torn-down session to the return of one [Join]. *)
Lemma join_returns s c l :
  relay_inv s → s_td s = TdClosing [] → s_conns s !! c = Some l → c ∈ s_legs s →
  (∀ c' l', c' ∈ s_legs s → s_conns s !! c' = Some l' → l_closed l' = true) →
  ∃ f err, rtc relay_step s (with_conns (alter f c) s) ∧ l_join (f l) = Returned err ∧
    l_closed (f l) = true.
Proof.
  intros Hinv Ht Hl Hin Hclosed. pose proof (ri_join s Hinv c l Hl) as Hj. unfold join_ok in Hj.
  assert (Hret : ∀ f, l_join (f l) = Ending → l_closed (f l) = true →
    rtc relay_step s (with_conns (alter f c) s) →
    ∃ f err, rtc relay_step s (with_conns (alter f c) s) ∧ l_join (f l) = Returned err ∧ l_closed (f l) = true).
  { intros f Hf Hcl Hrun. exists (set_join (Returned errPump) ∘ f), errPump. split; [|by split].
    eapply rtc_r; [exact Hrun|].
    assert (E : with_conns (alter (set_join (Returned errPump) ∘ f) c) s =
      with_conns (alter (set_join (Returned errPump)) c) (with_conns (alter f c) s)).
    { unfold with_conns. simpl. f_equal. apply map_eq. intros i.
      destruct (decide (i = c)) as [->|]; [|by rewrite !lookup_alter_ne].
      rewrite !lookup_alter_eq. by destruct (s_conns s !! c). }
    rewrite E. apply rs_return with (f l); [|done|done]. cbn [s_conns with_conns]. by rewrite lookup_alter_eq, Hl. }
  assert (Hcl : l_closed l = true) by (by eapply Hclosed).
  assert (Hid : with_conns (alter id c) s = s).
  { destruct s as [a1 a2 a3 a4 a5 conns]. unfold with_conns. simpl in *. f_equal. apply map_eq. intros i.
    destruct (decide (i = c)) as [->|]; [by rewrite lookup_alter_eq, Hl|by rewrite lookup_alter_ne]. }
  destruct (l_join l) as [| | |m| |err] eqn:E.
  - done.
  - exists (close_conn ∘ set_join (Returned errTornDown)), errTornDown. split; [|by split].
    apply rtc_once. apply rs_torn_down with l; [done..|]. unfold done_closed. by rewrite Ht.
  - apply (Hret (set_join Ending)); [done|done|]. apply rtc_once. apply rs_read_err with l; [done..|].
    unfold read_fails. by rewrite Hcl.
  - apply (Hret (set_join Ending)); [done|done|]. apply rtc_once.
    destruct (peer_of s c l m Hinv Hl E) as (_ & _ & p & Hp & Hpin & _).
    destruct (ri_conns s Hinv p Hpin) as [lp Hlp]. apply rs_write_err with l m p lp; [done..|].
    by rewrite (Hclosed p lp Hpin Hlp).
  - apply (Hret id); [done|done|]. rewrite Hid. done.
  - exists id, err. rewrite Hid. done.
Qed.

(** The teardown of an established session closes both legs: nothing is
    registered after it. *)
Definition winding (a b : nat) (s : Session) : Prop :=
  s_legs s = [a; b] ∧
  match s_td s with
  | TdNone => True
  | TdBegun legs => legs = [a; b]
  | TdClosing rest => ∀ c l, c ∈ [a; b] → s_conns s !! c = Some l → c ∈ rest ∨ l_closed l = true
  end.

Lemma alter_keeps_closed (f : Leg → Leg) c (conns : gmap nat Leg) (P : nat → Prop) (legs : list nat) :
  (∀ l, l_closed l = true → l_closed (f l) = true) →
  (∀ c' l, c' ∈ legs → conns !! c' = Some l → P c' ∨ l_closed l = true) →
  ∀ c' l, c' ∈ legs → alter f c conns !! c' = Some l → P c' ∨ l_closed l = true.
Proof.
  intros Hf H c' l Hin. rewrite lookup_alter_Some. intros [(-> & l0 & Hl0 & ->)|[_ Hl]]; [|by eauto].
  destruct (H c' l0 Hin Hl0) as [?|?]; [by left|right]. by apply Hf.
Qed.

Lemma winding_with_conns a b s f c :
  (∀ l, l_closed l = true → l_closed (f l) = true) → winding a b s → winding a b (with_conns (alter f c) s).
Proof.
  intros Hf [Hl Ht]. split; [done|]. cbn [s_td with_conns]. destruct (s_td s) as [|legs|rest]; [done..|].
  cbn [s_conns with_conns]. by apply (alter_keeps_closed f c (s_conns s) (λ c', c' ∈ rest)).
Qed.

Lemma winding_step a b s s' : relay_inv s → winding a b s → relay_step s s' → winding a b s'.
Proof.
  intros Hinv Hw. assert (Hsame : ∀ s', s_legs s' = s_legs s → s_td s' = s_td s → s_conns s' = s_conns s → winding a b s').
  { intros s0 H1 H2 H3. unfold winding. by rewrite H1, H2, H3. }
  assert (Hidle : winding a b (resetIdle s)) by (apply Hsame; unfold resetIdle; by case_match).
  destruct 1 as [s c Hnew|s c l Hl Hj|s c l Hl Hj Hr|s c l Hl Hj Hd|s c l m rest Hl Hj Hcl Hin Hbig
    |s c l Hl Hj Hf|s c l m p lp Hl Hj Hp Hlp Hcl|s c l m p lp Hl Hj Hp Hlp Hcl|s Ht Hwhy|s Ht|s legs Ht
    |s c legs Ht|s c l Hl Hj Ht|s Ha|s Ha|s c l m Hl Hcl Hg|s c];
    try (by apply winding_with_conns); try (by apply Hsame).
  - destruct Hw as [Hl Ht]. split; [done|]. cbn [s_td with_conns]. destruct (s_td s); [done..|].
    intros c' l Hin. cbn [s_conns with_conns]. rewrite lookup_insert_ne; [by apply Ht|].
    intros ->. rewrite <- Hl in Hin. apply Hinv in Hin. rewrite Hnew in Hin. by destruct Hin.
  - unfold join_register, register. destruct Hw as [Hlegs Ht].
    destruct (done_closed s); [by apply winding_with_conns|]. rewrite Hlegs. cbn [length Nat.eqb].
    by apply winding_with_conns.
  - change (winding a b (with_conns (alter (set_join Pumping) c) (with_conns (alter (written m) p) s))).
    apply winding_with_conns; [done|]. by apply winding_with_conns.
  - by destruct Hw.
  - by destruct Hw.
  - destruct Hw as [Hl Hw]. split; [done|]. rewrite Ht in Hw. subst. cbn [s_td set_td]. intros. by left.
  - destruct Hw as [Hl Hw]. split; [done|]. rewrite Ht in Hw. cbn [s_td set_td s_conns with_conns].
    intros c' l Hin. rewrite lookup_alter_Some. intros [(-> & l0 & Hl0 & ->)|[Hne Hl']]; [by right|].
    destruct (Hw c' l Hin Hl') as [[->|?]%elem_of_cons|?]; [done|by left|by right].
Qed.

(** A session whose two legs met ends as a whole.  Once its teardown is
    through, both connections are closed, whatever else went on meanwhile, and
    neither call of [Join] can be stuck: each has steps of its own, that touch
    nothing else, to its return. *)
Theorem established_winds_down (idleTimeout : Z) (s0 s : Session) (a b c : nat) :
  rtc relay_step (NewSession idleTimeout) s0 → s_legs s0 = [a; b] → s_td s0 = TdNone →
  rtc relay_step s0 s → s_td s = TdClosing [] → c ∈ [a; b] →
  ∃ l f err, s_conns s !! c = Some l ∧ l_closed l = true ∧
    rtc relay_step s (with_conns (alter f c) s) ∧ l_join (f l) = Returned err.
Proof.
  intros Hreach Hlegs Htd Hrun Hdone Hin.
  assert (H : relay_inv s ∧ winding a b s).
  { assert (H0 : relay_inv s0 ∧ winding a b s0).
    { split; [by eapply relay_reachable_inv|]. split; [done|]. by rewrite Htd. }
    clear -Hrun H0. induction Hrun as [|x y z Hs _ IH]; [done|]. apply IH. destruct H0 as [Hi Hw].
    split; [by eapply relay_inv_step|by eapply winding_step]. }
  destruct H as [Hinv [Hl Hw]]. rewrite Hdone in Hw.
  assert (Hclosed : ∀ c' l', c' ∈ s_legs s → s_conns s !! c' = Some l' → l_closed l' = true).
  { intros c' l' Hc' Hl'. rewrite Hl in Hc'. destruct (Hw c' l' Hc' Hl') as [Hnil|]; [|done].
    by apply not_elem_of_nil in Hnil. }
  rewrite <- Hl in Hin. destruct (ri_conns s Hinv c Hin) as [l Hcl].
  destruct (join_returns s c l Hinv Hdone Hcl Hin Hclosed) as (f & err & Hsteps & Hret & _).
  exists l, f, err. split; [done|]. split; [by eapply Hclosed|]. done.
Qed.

Definition met : Session :=
  mkSession 0 [0%nat; 1%nat] (mkTimer false false) (mkTimer false false) TdNone
    {[0%nat := mkLeg [] [] [] false false Pumping; 1%nat := mkLeg [] [] [] false false Pumping]}.

Lemma met_reachable : rtc relay_step (NewSession 0) met.
Proof.
  eapply (rtc_l _ _ _ _ (rs_accept (NewSession 0) 0%nat eq_refl)). vm_compute.
  eapply rtc_l; [apply (rs_register _ 0%nat new_conn); reflexivity|]. vm_compute.
  eapply rtc_l; [apply (rs_accept _ 1%nat); reflexivity|]. vm_compute.
  eapply rtc_l; [apply (rs_register _ 1%nat new_conn); reflexivity|]. vm_compute.
  eapply rtc_l; [apply (rs_ready _ 0%nat (set_join Awaiting new_conn)); reflexivity|]. vm_compute.
  eapply rtc_l; [apply (rs_ready _ 1%nat (set_join Awaiting new_conn)); reflexivity|]. vm_compute.
  apply rtc_refl.
Qed.

Definition met_closed : Session :=
  mkSession 0 [0%nat; 1%nat] (mkTimer false false) (mkTimer false false) (TdClosing [])
    {[0%nat := mkLeg [] [] [] true false Pumping; 1%nat := mkLeg [] [] [] true false Pumping]}.

Lemma established_winds_down_witness :
  ∃ l f err, s_conns met_closed !! 1%nat = Some l ∧ l_closed l = true ∧
    rtc relay_step met_closed (with_conns (alter f 1%nat) met_closed) ∧ l_join (f l) = Returned err.
Proof.
  apply (established_winds_down 0 met met_closed 0%nat 1%nat 1%nat).
  - exact met_reachable.
  - reflexivity.
  - reflexivity.
  - eapply rtc_l; [apply (rs_close met); reflexivity|]. vm_compute.
    eapply rtc_l; [eapply rs_done; reflexivity|]. vm_compute.
    eapply rtc_l; [eapply rs_close_leg; reflexivity|]. vm_compute.
    eapply rtc_l; [eapply rs_close_leg; reflexivity|]. vm_compute.
    apply rtc_refl.
  - reflexivity.
  - set_solver.
Defined.

(** A leg that registers while the establishment timeout is between reading the
    legs and closing [s.done] is not among the legs it closes: it pumps on in a
    session that is over, until its endpoint sends or leaves. *)
Lemma teardown_race_leaks_leg :
  ∃ s l, rtc relay_step (NewSession 0) s ∧ s_td s = TdClosing [] ∧ s_conns s !! 1%nat = Some l ∧
    l_closed l = false ∧ l_join l = Pumping.
Proof.
  exists (mkSession 0 [0%nat; 1%nat] (mkTimer false true) (mkTimer false false) (TdClosing [])
    {[0%nat := mkLeg [] [] [] true false Awaiting; 1%nat := mkLeg [] [] [] false false Pumping]}).
  eexists. split; [|by repeat split].
  eapply (rtc_l _ _ _ _ (rs_accept (NewSession 0) 0%nat eq_refl)). vm_compute.
  eapply rtc_l; [apply (rs_register _ 0%nat new_conn); reflexivity|]. vm_compute.
  eapply rtc_l; [apply (rs_accept _ 1%nat); reflexivity|]. vm_compute.
  eapply rtc_l; [apply rs_timer; reflexivity|]. vm_compute.
  eapply rtc_l; [apply rs_teardown; [reflexivity|by left]|]. vm_compute.
  eapply rtc_l; [apply (rs_register _ 1%nat new_conn); reflexivity|]. vm_compute.
  eapply rtc_l; [eapply rs_done; reflexivity|]. vm_compute.
  eapply rtc_l; [eapply rs_close_leg; reflexivity|]. vm_compute.
  eapply rtc_l; [apply (rs_ready _ 1%nat (set_join Awaiting new_conn)); reflexivity|]. vm_compute.
  apply rtc_refl.
Qed.

(** Two operators of the org may attach before the driver does: the attach
    handler upgrades both, they become the two legs, and the driver's connection
    is refused. *)
Lemma operators_fill_session (resolve : option (string → Z → option Z)) (u1 u2 : UserInfo) :
  User_Type u1 ≠ ShellServer.AuthTypeCookie → User_OrgID u1 = 3 →
  User_Type u2 ≠ ShellServer.AuthTypeCookie → User_OrgID u2 = 3 →
  AttachHandler resolve sample_registry (Some u1) None "s1" = Upgrade (mkEntry 3 7) ∧
  AttachHandler resolve sample_registry (Some u2) None "s1" = Upgrade (mkEntry 3 7) ∧
  register 2%nat met = inl errLegTaken.
Proof.
  intros H1 O1 H2 O2. split; [|split; [|reflexivity]];
    by apply attach_leg_hides.
Qed.

(** ** From shell to terminal *)

Lemma serve_output_beginning (reads : list string) (wait : WaitErr) sent out :
  sent `prefix_of` serve_output reads wait → out `prefix_of` sent → out `prefix_of` serve_output reads wait.
Proof. intros H1 H2. by etrans. Qed.

(** C25: a debug session, end to end.  Between a driver that serves a shell and
    an operator, over the relay in any interleaving and at any moment: the
    terminal shows a beginning of what the shell put out, the operator is given
    an exit code only after all of it, and it is the shell's as a 32-bit
    number; and the PTY is given a beginning of what the operator typed and of
    the sizes of the terminal, in order. *)
Theorem shell_end_to_end (idleTimeout : Z) (s : Session) (d o : nat) (ld lo : Leg)
    (reads : list string) (wait : WaitErr) (inputs : list (string + WinSize)) (seen typed : list Msg) :
  rtc relay_step (NewSession idleTimeout) s →
  s_legs s = [d; o] ∨ s_legs s = [o; d] →
  s_conns s !! d = Some ld → s_conns s !! o = Some lo →
  l_sent ld `prefix_of` serve_output reads wait → Forall ok_input inputs →
  l_sent lo = operator_frame <$> inputs →
  seen `prefix_of` l_outbox lo → typed `prefix_of` l_outbox ld →
  (∃ out rest, (operate [] seen).1 = out ∧ out +:+ rest = concat_str reads ∧
     ((operate [] seen).2 = Waiting ∨ (operate [] seen).2 = Exited (to_int32 (exitCode wait)) ∧ rest = "")) ∧
  (∃ inputs', inputs' `prefix_of` inputs ∧ serve_input [] typed = pty_action <$> inputs').
Proof.
  intros Hr Hlegs Hd Ho Hsent Hok Hin Hseen Htyped.
  pose proof (relay_reachable_inv _ s Hr) as Hinv.
  destruct (legs_pump s d o ld lo Hinv Hlegs Hd Ho) as [H1 _].
  destruct (legs_pump s o d lo ld Hinv (proj1 (or_comm _ _) Hlegs) Ho Hd) as [H2 _]. split.
  - assert (Hpre : seen `prefix_of` serve_output reads wait) by (do 2 (etrans; [eassumption|]); done).
    destruct (operate_frames reads wait [] seen) as (out & rest & Hrun & Hout & Hall); [done..|].
    exists out, rest. rewrite Hrun. split; [done|]. split; [done|]. simpl.
    case_bool_decide; [right; auto|by left].
  - assert (Hpre : typed `prefix_of` operator_frame <$> inputs) by (rewrite <- Hin; by etrans).
    destruct Hpre as [rest Heq]. apply fmap_app_inv in Heq as (i1 & i2 & -> & -> & ->).
    exists i1. split; [by eexists|]. apply Forall_app in Hok as [Hok _]. by apply serve_input_frames.
Qed.

(** The driver's greeting reached the operator, and the operator's size the
    relay. *)
Definition greeting : Msg := binary (Data "$ ").
Definition sized : Msg := binary (Resize 24 80).

Definition greeted : Session :=
  mkSession 0 [0%nat; 1%nat] (mkTimer false false) (mkTimer false false) TdNone
    {[0%nat := mkLeg [greeting] [] [] false false Pumping;
      1%nat := mkLeg [sized] [sized] [greeting] false false Pumping]}.

Lemma greeted_reachable : rtc relay_step (NewSession 0) greeted.
Proof.
  etrans; [exact met_reachable|]. unfold met.
  eapply rtc_l; [eapply (rs_send _ 0%nat _ greeting); reflexivity|]. vm_compute.
  eapply rtc_l; [eapply (rs_read _ 0%nat _ greeting []); reflexivity|]. vm_compute.
  eapply rtc_l; [eapply (rs_write _ 0%nat _ greeting 1%nat); reflexivity|]. vm_compute.
  eapply rtc_l; [eapply (rs_send _ 1%nat _ sized); reflexivity|]. vm_compute.
  apply rtc_refl.
Qed.

Lemma relay_verbatim_witness :
  ∃ la lb, s_conns greeted !! 0%nat = Some la ∧ s_conns greeted !! 1%nat = Some lb ∧
    l_outbox lb = [greeting] ∧ l_outbox lb `prefix_of` l_sent la.
Proof.
  exists (mkLeg [greeting] [] [] false false Pumping), (mkLeg [sized] [sized] [greeting] false false Pumping).
  split; [reflexivity|]. split; [reflexivity|]. split; [reflexivity|].
  destruct (relay_verbatim 0 greeted greeted_reachable) as (_ & H & _).
  exact (proj1 (H 0%nat 1%nat _ _ (or_introl eq_refl) eq_refl eq_refl)).
Defined.

Lemma shell_end_to_end_witness :
  ∃ out rest, (operate [] [greeting]).1 = out ∧ out +:+ rest = concat_str ["$ "; "bye"] ∧
    ((operate [] [greeting]).2 = Waiting ∨
     (operate [] [greeting]).2 = Exited (to_int32 (exitCode WaitOK)) ∧ rest = "").
Proof.
  apply (shell_end_to_end 0 greeted 0%nat 1%nat (mkLeg [greeting] [] [] false false Pumping)
    (mkLeg [sized] [sized] [greeting] false false Pumping) ["$ "; "bye"] WaitOK
    [inr (mkWinSize 24 80)] [greeting] []).
  - exact greeted_reachable.
  - left. reflexivity.
  - reflexivity.
  - reflexivity.
  - eexists. reflexivity.
  - repeat constructor; cbn; lia.
  - reflexivity.
  - reflexivity.
  - apply prefix_nil.
Defined.
