(* ===== verification/ApiTask.v ===== *)
(** * The task API

    Models [internal/server/apiserver/task.go] and [shell.go]: creating,
    reading, updating, archiving, unarchiving, cancelling and restarting a
    task, listing a runner's tasks, and opening a debug shell. *)

From S2P Require Import Prelude AuthScope EventModel TaskModel Links PubSub ScheduleModel Rules.
From S2P Require Import Store StoreOps StoreLogic ApiBase Timeline ShellServer.

(** ** Requests *)

Record InstructionReq := mkInstr { Instr_Text : string; Instr_Url : string }.

Record CreateTaskRequest := mkCreateTask {
  CT_Name : string; CT_Runner : string; CT_Workspace : string; CT_Namespace : string;
  CT_Draft : bool; CT_AutoArchive : option Z; CT_Instructions : list InstructionReq }.

Record UpdateTaskRequest := mkUpdateTask {
  UT_Id : Z; UT_Name : string; UT_AddInstructions : list InstructionReq;
  UT_Start : bool; UT_AutoArchive : option Z }.

Definition instruction_event (task : Task) (wake : bool) (inst : InstructionReq) : Event :=
  newEvent (Task_ID task) (Task_OrgID task) wake
    (Instruction (mkInstruction (Instr_Text inst) (Instr_Url inst))).

(** ** Creating *)

(** The task a request describes: started, or a draft. *)
Definition new_task (caller : UserInfo) (req : CreateTaskRequest) : Task :=
  let task := mkTask 0 (CT_Name req) (CT_Runner req) (CT_Workspace req) TaskStatusPending
                TaskCommandStart 1 (User_OrgID caller) false 0 0 (CT_Namespace req) 0 "" in
  let task := if CT_Draft req
              then set_Version 0 (set_Command TaskCommandNone (set_Status TaskStatusDraft task))
              else task in
  match CT_AutoArchive req with Some d => set_AutoArchive d task | None => task end.

Definition may_create (caller : UserInfo) (workspace runner : string) : bool :=
  Allow (User_Scopes caller) OpTaskCreate
    [WithTaskWorkspace workspace; WithTaskRunner runner; WithTaskArchived false].

Definition created_message (task : Task) : string :=
  "Task " +:+ FormatInt (Task_ID task) +:+ " created on " +:+ Task_Runner task +:+ "/"
    +:+ Task_Workspace task +:+ ".".

Definition workspaceNotFound (workspace runner : string) : string :=
  "workspace " +:+ quoted workspace +:+ " not found on runner " +:+ quoted runner.

Definition Server_CreateTask (caller : UserInfo) (req : CreateTaskRequest) : M Task :=
  if negb (may_create caller (CT_Workspace req) (CT_Runner req)) then
    PermissionDenied "cannot create task"
  else
    ok ← catch (HasWorkspace NoTx (CT_Runner req) (CT_Workspace req) (User_OrgID caller));
    match ok with
    | inl err => Internal err
    | inr false => NotFound (workspaceNotFound (CT_Workspace req) (CT_Runner req))
    | inr true =>
        r ← catch (WithTx NoTx (λ tx,
          task ← CreateTask tx (new_task caller req);
          CreateEvent tx (user_lifecycle caller LifecycleKindCreated task "" []) ;;
          for_each (CT_Instructions req) (λ inst,
            CreateEvent tx (instruction_event task true inst) ;; mret ()) ;;
          Commit tx ;;
          mret task));
        match r with
        | inl err => Internal err
        | inr task =>
            now ← time_Now;
            publish (change caller now (task_resources "created" (Task_ID task))
                       (PendingRunner task) TaskStatusUnspecified (created_message task)) ;;
            mret task
        end
    end.

(** ** Reading *)

Definition Server_GetTask (caller : UserInfo) (id : Z) : M Task :=
  if negb (AllowOp (User_Scopes caller) OpTaskRead) then PermissionDenied "cannot read task"
  else
    r ← catch (GetTask NoTx id (User_OrgID caller));
    match r with
    | inl err => raise (readError (taskNotFound id) err)
    | inr task =>
        if negb (Allow (User_Scopes caller) OpTaskRead (ScopeAttr task))
        then PermissionDenied "cannot read task"
        else mret task
    end.

Definition Server_ListRunnerTasks (caller : UserInfo) (runner : string) : M (list Task) :=
  if negb (Allow (User_Scopes caller) OpTaskRead []) then PermissionDenied "cannot list tasks"
  else
    r ← catch (ListTasksForRunner NoTx runner (User_OrgID caller));
    match r with
    | inl err => if isNoRows err then mret [] else Internal err
    | inr tasks => mret tasks
    end.

(** ** Updating *)

(** The names of the changed fields, in the order the handler collects them. *)
Definition changed_fields (req : UpdateTaskRequest) : list string :=
  (if negb (String.eqb (UT_Name req) "") then ["name"] else []) ++
  map (λ _, "instructions") (UT_AddInstructions req) ++
  (if UT_Start req then ["status"] else []) ++
  (match UT_AutoArchive req with Some _ => ["auto_archive"] | None => [] end).

Definition Server_UpdateTask (caller : UserInfo) (req : UpdateTaskRequest) : M unit :=
  if negb (AllowOp (User_Scopes caller) OpTaskWrite) then PermissionDenied "cannot write task"
  else
    now ← time_Now;
    r ← catch (WithTx NoTx (λ tx,
      task ← GetTaskForUpdate tx (UT_Id req) (User_OrgID caller);
      if negb (Allow (User_Scopes caller) OpTaskWrite (ScopeAttr task))
      then PermissionDenied "cannot write task"
      else
        let from := Task_Status task in
        let task := if negb (String.eqb (UT_Name req) "") then set_Name (UT_Name req) task
                    else task in
        for_each (UT_AddInstructions req) (λ inst,
          CreateEvent tx (instruction_event task (UT_Start req && CanStart task) inst) ;;
          mret ()) ;;
        let task := if UT_Start req then snd (Start task) else task in
        let task := match UT_AutoArchive req with
                    | Some d => set_AutoArchive d task | None => task end in
        UpdateTask tx task ;;
        CreateEvent tx (user_lifecycle caller LifecycleKindUpdated task (Label from)
                          (changed_fields req)) ;;
        Commit tx ;;
        mret (change caller now (task_resources "updated" (Task_ID task))
                (PendingRunner task) TaskStatusUnspecified
                (if UT_Start req
                 then "Task " +:+ FormatInt (Task_ID task) +:+ " queued: "
                        +:+ Join (changed_fields req) ", " +:+ "."
                 else ""))));
    match r with
    | inl err => raise (txError (taskNotFound (UT_Id req)) err)
    | inr notification => publish notification
    end.

(** ** The user transitions *)

Definition Server_ArchiveTask (caller : UserInfo) (id : Z) : M unit :=
  if negb (AllowOp (User_Scopes caller) OpTaskWrite) then PermissionDenied "cannot write task"
  else
    now ← time_Now;
    r ← catch (WithTx NoTx (λ tx,
      task ← GetTaskForUpdate tx id (User_OrgID caller);
      if negb (Allow (User_Scopes caller) OpTaskWrite (ScopeAttr task))
      then PermissionDenied "cannot write task"
      else
        let from := Task_Status task in
        let (ok, task') := Archive task in
        if negb ok
        then raise (EOther ("cannot archive task with status " +:+ TaskStatus_String from))
        else
          UpdateTask tx task' ;;
          CreateEvent tx (user_lifecycle caller LifecycleKindArchived task' (Label from) []) ;;
          Commit tx ;;
          mret (change caller now (task_resources "archived" (Task_ID task'))
                  (PendingRunner task') TaskStatusUnspecified
                  ("Task " +:+ FormatInt (Task_ID task') +:+ " archived."))));
    match r with
    | inl err => raise (txError (taskNotFound id) err)
    | inr notification => publish notification
    end.

Definition Server_UnarchiveTask (caller : UserInfo) (id : Z) : M unit :=
  if negb (AllowOp (User_Scopes caller) OpTaskWrite) then PermissionDenied "cannot write task"
  else
    now ← time_Now;
    r ← catch (WithTx NoTx (λ tx,
      task ← GetTaskForUpdate tx id (User_OrgID caller);
      if negb (Allow (User_Scopes caller) OpTaskWrite (ScopeAttr task))
      then PermissionDenied "cannot write task"
      else
        let from := Task_Status task in
        let (ok, task') := Unarchive task in
        if negb ok then raise (EOther "cannot unarchive task: not archived")
        else
          UpdateTask tx task' ;;
          CreateEvent tx (user_lifecycle caller LifecycleKindUnarchived task' (Label from) []) ;;
          Commit tx ;;
          mret (change caller now (task_resources "unarchived" (Task_ID task'))
                  (PendingRunner task') TaskStatusUnspecified "")));
    match r with
    | inl err => raise (txError (taskNotFound id) err)
    | inr notification => publish notification
    end.

Definition Server_CancelTask (caller : UserInfo) (id : Z) : M unit :=
  if negb (AllowOp (User_Scopes caller) OpTaskWrite) then PermissionDenied "cannot write task"
  else
    now ← time_Now;
    r ← catch (WithTx NoTx (λ tx,
      task ← GetTaskForUpdate tx id (User_OrgID caller);
      if negb (Allow (User_Scopes caller) OpTaskWrite (ScopeAttr task))
      then PermissionDenied "cannot write task"
      else
        let from := Task_Status task in
        let (ok, task') := Cancel task in
        if negb ok
        then raise (EOther ("cannot cancel task with status " +:+ TaskStatus_String from))
        else
          UpdateTask tx task' ;;
          CreateEvent tx (user_lifecycle caller LifecycleKindCancelled task' (Label from) []) ;;
          Commit tx ;;
          mret (change caller now (task_resources "cancelled" (Task_ID task'))
                  (PendingRunner task') TaskStatusUnspecified
                  (if bool_decide (Task_Status task' = TaskStatusCancelled)
                   then "Task " +:+ FormatInt (Task_ID task') +:+ " cancelled." else ""))));
    match r with
    | inl err => raise (txError (taskNotFound id) err)
    | inr notification => publish notification
    end.

Definition Server_RestartTask (caller : UserInfo) (id : Z) : M unit :=
  if negb (AllowOp (User_Scopes caller) OpTaskWrite) then PermissionDenied "cannot write task"
  else
    now ← time_Now;
    r ← catch (WithTx NoTx (λ tx,
      task ← GetTaskForUpdate tx id (User_OrgID caller);
      if negb (Allow (User_Scopes caller) OpTaskWrite (ScopeAttr task))
      then PermissionDenied "cannot write task"
      else
        let from := Task_Status task in
        let (ok, task') := Restart task in
        if negb ok
        then raise (EOther ("cannot restart task with status " +:+ TaskStatus_String from))
        else
          UpdateTask tx task' ;;
          CreateEvent tx (user_lifecycle caller LifecycleKindRestarted task' (Label from) []) ;;
          Commit tx ;;
          mret (change caller now (task_resources "restarted" (Task_ID task'))
                  (PendingRunner task') TaskStatusUnspecified
                  ("Task " +:+ FormatInt (Task_ID task') +:+ " restart requested."))));
    match r with
    | inl err => raise (txError (taskNotFound id) err)
    | inr notification => publish notification
    end.

(** The transition of [OpenShell]: a start that records the session. *)
Definition openShell (sessionID : string) (t : Task) : bool * Task :=
  if negb (IsTerminal (Task_Status t)) then (false, t)
  else let (ok, t') := Start t in if negb ok then (false, t) else (true, set_ShellSession sessionID t').

(** [shells] is the registry, [None] when none is configured; [sessionID] is
    the random session id the handler creates.  The result is the session id
    and the registry with the session. *)
Definition Server_OpenShell (shells : option Registry) (caller : UserInfo)
    (sessionID : string) (id : Z) : M (string * Registry) :=
  if negb (AllowOp (User_Scopes caller) OpTaskWrite) then PermissionDenied "cannot write task"
  else match shells with
  | None => raise (EConnect CodeUnimplemented "shell sessions are not configured")
  | Some registry =>
    now ← time_Now;
    r ← catch (WithTx NoTx (λ tx,
      task ← GetTaskForUpdate tx id (User_OrgID caller);
      if negb (Allow (User_Scopes caller) OpTaskWrite (ScopeAttr task))
      then PermissionDenied "cannot write task"
      else if negb (IsTerminal (Task_Status task))
      then raise (EConnect CodeFailedPrecondition
                    ("cannot open shell for task with status "
                       +:+ TaskStatus_String (Task_Status task)
                       +:+ ": task must be in a terminal state"))
      else
        let from := Task_Status task in
        let (ok, task') := Start task in
        if negb ok
        then raise (EConnect CodeFailedPrecondition
                      ("cannot open shell for task with status " +:+ TaskStatus_String from))
        else
          let task' := set_ShellSession sessionID task' in
          UpdateTask tx task' ;;
          CreateEvent tx (user_lifecycle caller LifecycleKindRestarted task' (Label from) []) ;;
          Commit tx ;;
          mret (change caller now (task_resources "restarted" (Task_ID task'))
                  (PendingRunner task') TaskStatusUnspecified
                  ("Shell session opened for task " +:+ FormatInt (Task_ID task') +:+ "."))));
    match r with
    | inl err => raise (txError (taskNotFound id) err)
    | inr notification =>
        match Seed registry sessionID (User_OrgID caller) id with
        | inl err => Internal (EWrap "register shell session" err)
        | inr registry' => publish notification ;; mret (sessionID, registry')
        end
    end
  end.
