(* ===== verification/Evolution.v ===== *)
(** * How the tables evolve

    The relation every operation of the server keeps to, whatever its result:
    a task row only moves along the transitions of its model and keeps its
    identity, a new row is a freshly created task, and nothing outside the orgs
    the operation acts for changes.  It is a preorder, so it extends to any
    sequence of operations. *)

From S2P Require Import Prelude AuthScope EventModel TaskModel Links PubSub ScheduleModel Rules.
From S2P Require Import Store StoreOps StoreLogic ApiBase Timeline.

(** ** Rows and models *)

Definition canonical_status (s : TaskStatus) : Prop := TaskStatus_of_int (TaskStatus_int s) = s.
Definition canonical_command (c : TaskCommand) : Prop := TaskCommand_of_int (TaskCommand_int c) = c.
Definition canonical (t : Task) : Prop :=
  canonical_status (Task_Status t) ∧ canonical_command (Task_Command t).

Lemma of_int_canonical n : canonical_status (TaskStatus_of_int n).
Proof.
  unfold canonical_status. destruct n as [|p|p]; [done| |done].
  by do 4 (try destruct p as [p|p|]).
Qed.

Lemma command_of_int_canonical n : canonical_command (TaskCommand_of_int n).
Proof.
  unfold canonical_command. destruct n as [|p|p]; [done| |done].
  by do 2 (try destruct p as [p|p|]).
Qed.

Lemma toModelTask_canonical r : canonical (toModelTask r).
Proof. split; [apply of_int_canonical | apply command_of_int_canonical]. Qed.

(** What a step leaves alone. *)
Definition same_identity (t t' : Task) : Prop :=
  Task_ID t' = Task_ID t ∧ Task_OrgID t' = Task_OrgID t ∧ Task_Namespace t' = Task_Namespace t.

Lemma task_step_identity t t' : task_step t t' → same_identity t t' ∧ (canonical t → canonical t').
Proof.
  destruct 1 as [t e| | | | | | | | |].
  { apply (ApplyRunnerEvent_cases
      (λ r, same_identity t (snd r) ∧ (canonical t → canonical (snd r)))); [done|].
    intros _ _. split; [|split]; intros _; task_cases t; (split; [done|]); intros [? ?]; done. }
  all: task_cases t; (split; [done|]); intros [? ?]; done.
Qed.

Lemma rtc_task_step_identity t t' :
  rtc task_step t t' → same_identity t t' ∧ (canonical t → canonical t').
Proof.
  induction 1 as [t|t t1 t2 Hs _ [(Hi & Ho & Hn) Hc]]; [done|].
  destruct (task_step_identity _ _ Hs) as [(? & ? & ?) ?].
  split; [|by auto]. unfold same_identity. by rewrite Hi, Ho, Hn.
Qed.

(** Writing a task back stores what the model computed, with the row's own
    creation time, the clock's update time and the duration in microseconds. *)
Definition stored_task (now : Z) (r : TaskRow) (t : Task) : Task :=
  set_AutoArchive (of_Microseconds (Microseconds (Task_AutoArchive t)))
    (set_Times (Row_created_at r) now t).

Lemma toModelTask_updateRow now r t :
  canonical t → same_identity (toModelTask r) t →
  toModelTask (updateRow t now r) = stored_task now r t.
Proof.
  intros [Hs Hc] (Hi & Ho & Hn). destruct t. unfold canonical_status, canonical_command in *.
  simpl in *. unfold toModelTask, updateRow, stored_task. simpl. by rewrite Hs, Hc, Hi, Ho, Hn.
Qed.

Lemma toModelTask_taskRow id created updated t :
  canonical t →
  toModelTask (taskRow id created updated t) =
  set_AutoArchive (of_Microseconds (Microseconds (Task_AutoArchive t)))
    (set_Times created updated (set_ID id t)).
Proof.
  intros [Hs Hc]. destruct t. unfold canonical_status, canonical_command in *. simpl in *.
  unfold toModelTask, taskRow. simpl. by rewrite Hs, Hc.
Qed.

Lemma stored_task_steps now r t : rtc task_step t (stored_task now r t).
Proof. unfold stored_task. eapply rtc_l; [apply step_times|]. apply rtc_once, step_auto_archive. Qed.

(** ** Evolution *)

Definition row_evolves (r r' : TaskRow) : Prop :=
  Row_id r' = Row_id r ∧ Row_org_id r' = Row_org_id r ∧ Row_namespace r' = Row_namespace r ∧
  rtc task_step (toModelTask r) (toModelTask r').

Definition row_created (r : TaskRow) : Prop :=
  ∃ t, task_init t ∧ rtc task_step t (toModelTask r).

(** A table whose rows outside [orgs] stay as they are. *)
Definition kept {K A} `{Countable K} (org : A → Z) (orgs : Z → Prop) (m m' : gmap K A) : Prop :=
  ∀ i x, ¬ orgs (org x) → m !! i = Some x ↔ m' !! i = Some x.

(** A user's default org is their own, they belong to it, and it is live. *)
Definition default_org_ok (tb : Tables) (id : string) (u : UserRow) : Prop :=
  ∀ d, UR_default_org_id u = Some d → d ≠ 0 ∧ ∃ o, t_orgs tb !! d = Some o ∧
    Org_owner o = id ∧ id ∈ Org_members o ∧ Org_archived o = false.

Definition defaults_ok (tb : Tables) : Prop :=
  ∀ id u, t_users tb !! id = Some u → default_org_ok tb id u.

Definition default_of (tb : Tables) (id : string) : option Z :=
  u ← t_users tb !! id; UR_default_org_id u.

Record evolves (orgs : Z → Prop) (tb tb' : Tables) : Prop := {
  ev_rows : ∀ i r, t_tasks tb !! i = Some r → ∃ r', t_tasks tb' !! i = Some r' ∧
    row_evolves r r' ∧ (¬ orgs (Row_org_id r) → r' = r);
  ev_new : ∀ i r', t_tasks tb !! i = None → t_tasks tb' !! i = Some r' →
    orgs (Row_org_id r') ∧ row_created r';
  ev_events : kept Event_OrgID orgs (t_events tb) (t_events tb');
  ev_schedules : kept Sched_OrgID orgs (t_schedules tb) (t_schedules tb');
  ev_chunks : kept Chunk_OrgID orgs (t_chunks tb) (t_chunks tb');
  ev_workspaces : kept WS_OrgID orgs (t_workspaces tb) (t_workspaces tb');
  ev_links : ∀ i l r, t_tasks tb !! Link_TaskID l = Some r → ¬ orgs (Row_org_id r) →
    t_links tb !! i = Some l ↔ t_links tb' !! i = Some l;
  ev_orgs : ∀ i, ¬ orgs i → t_orgs tb' !! i = t_orgs tb !! i;
  ev_keys : kept KR_org_id orgs (t_keys tb) (t_keys tb');
  ev_defaults : defaults_ok tb → defaults_ok tb';
  ev_users : ∀ id d, default_of tb id = Some d → d ≠ 0 → default_of tb' id = Some d }.

Lemma row_evolves_refl r : row_evolves r r.
Proof. by repeat split. Qed.

Lemma row_evolves_trans r1 r2 r3 : row_evolves r1 r2 → row_evolves r2 r3 → row_evolves r1 r3.
Proof.
  intros (H1 & H2 & H3 & H4) (G1 & G2 & G3 & G4).
  split; [congruence|split; [congruence|split; [congruence|by etrans]]].
Qed.

Lemma kept_refl {K A} `{Countable K} (org : A → Z) orgs (m : gmap K A) : kept org orgs m m.
Proof. done. Qed.

Lemma kept_trans {K A} `{Countable K} (org : A → Z) orgs (m1 m2 m3 : gmap K A) :
  kept org orgs m1 m2 → kept org orgs m2 m3 → kept org orgs m1 m3.
Proof. intros H12 H23 i x Hx. rewrite (H12 i x Hx). by apply H23. Qed.

Lemma kept_insert {K A} `{Countable K} (org : A → Z) (orgs : Z → Prop) (m : gmap K A) i x :
  orgs (org x) → (∀ y, m !! i = Some y → orgs (org y)) → kept org orgs m (<[i := x]> m).
Proof.
  intros Hx Hold j y Hy. rewrite lookup_insert_Some. split.
  - intros Hj. right. split; [|done]. intros ->. by apply Hy, Hold.
  - by intros [[-> ->]|[_ ?]].
Qed.

Lemma kept_delete {K A} `{Countable K} (org : A → Z) (orgs : Z → Prop) (m : gmap K A) i :
  (∀ y, m !! i = Some y → orgs (org y)) → kept org orgs m (delete i m).
Proof.
  intros Hold j y Hy. rewrite lookup_delete_Some. split; [|by intros [_ ?]].
  intros Hj. split; [|done]. intros ->. by apply Hy, Hold.
Qed.

Lemma evolves_refl orgs tb : evolves orgs tb tb.
Proof.
  constructor; try done.
  - intros i r Hr. exists r. split; [done|]. split; [apply row_evolves_refl|done].
  - intros i r' Hn Hs. congruence.
Qed.

Lemma evolves_trans orgs tb1 tb2 tb3 :
  evolves orgs tb1 tb2 → evolves orgs tb2 tb3 → evolves orgs tb1 tb3.
Proof.
  intros [R1 N1 E1 S1 C1 W1 L1 O1 K1 D1 U1] [R2 N2 E2 S2 C2 W2 L2 O2 K2 D2 U2]. constructor;
    eauto using kept_trans; [| | |intros i Hi; by rewrite O2, O1].
  - intros i r Hr. destruct (R1 _ _ Hr) as (r2 & Hr2 & Hev & Hsame).
    destruct (R2 _ _ Hr2) as (r3 & Hr3 & Hev3 & Hsame3). exists r3. split; [done|].
    split; [by eapply row_evolves_trans|]. intros Hn. rewrite Hsame3, Hsame; [done|done|].
    by destruct Hev as (_ & -> & _).
  - intros i r' Hn Hs. destruct (t_tasks tb2 !! i) as [r2|] eqn:E; [|by apply (N2 i)].
    destruct (N1 _ _ Hn E) as (Ho & t & Ht & Hst).
    destruct (R2 _ _ E) as (r3 & Hr3 & (_ & Horg & _ & Hsteps) & _). simplify_eq.
    split; [by rewrite Horg|]. exists t. split; [done|by etrans].
  - intros i l r Hr Hn. destruct (R1 _ _ Hr) as (r2 & Hr2 & (_ & Horg & _) & _).
    rewrite (L1 i l r Hr Hn). apply (L2 i l r2 Hr2). by rewrite Horg.
Qed.

#[export] Instance evolves_preorder orgs : PreOrder (evolves orgs).
Proof. split; [intros ?; apply evolves_refl | intros ? ? ?; apply evolves_trans]. Qed.

Lemma evolves_mono (orgs orgs' : Z → Prop) tb tb' :
  (∀ o, orgs o → orgs' o) → evolves orgs tb tb' → evolves orgs' tb tb'.
Proof.
  intros Hsub []. constructor; try done; unfold kept in *; eauto 6.
  - intros i r Hr. destruct (ev_rows0 i r Hr) as (r' & ? & ? & Hs). exists r'. split; [done|].
    split; [done|]. intros Hn. apply Hs. auto.
  - intros i r' Hn Hs. destruct (ev_new0 i r' Hn Hs). eauto.
Qed.

(** ** The moves operations are made of *)

Section moves.
Context (orgs : Z → Prop).

Lemma evolves_put_task tb id orgID r t now :
  Row_id r = id → orgs orgID → select_task tb id orgID = Some r →
  rtc task_step (toModelTask r) t → evolves orgs tb (put_task t now tb).
Proof.
  intros Hid Ho Hsel Hsteps. pose proof (proj1 (select_task_Some _ _ _ _) Hsel) as [_ Horg].
  destruct (rtc_task_step_identity _ _ Hsteps) as [Hident Hcanon].
  specialize (Hcanon (toModelTask_canonical r)). pose proof Hident as (Hti & Hto & _).
  simpl in Hti, Hto. unfold put_task. rewrite Hti, Hto, Hid, Horg, Hsel.
  apply select_task_Some in Hsel as [Hr _].
  constructor; try done; simpl.
  - intros i r0 Hi. destruct (decide (i = id)) as [->|Hne].
    + rewrite lookup_insert_eq. eexists. split; [done|]. simplify_eq. split; [|done].
      repeat split. rewrite toModelTask_updateRow by done. etrans; [done|]. apply stored_task_steps.
    + rewrite lookup_insert_ne by done. exists r0. split; [done|]. split; [apply row_evolves_refl|done].
  - intros i r' Hn Hs. apply lookup_insert_Some in Hs as [[<- _]|[_ ?]]; congruence.
Qed.

Lemma evolves_insert_task tb id t now :
  orgs (Task_OrgID t) → task_init t → t_tasks tb !! id = None →
  evolves orgs tb (with_tasks <[id := taskRow id now now t]> tb).
Proof.
  intros Ho Hinit Hn. constructor; try done; simpl.
  - intros i r Hi. rewrite lookup_insert_ne by congruence. exists r. split; [done|].
    split; [apply row_evolves_refl|done].
  - intros i r' Hni Hs. apply lookup_insert_Some in Hs as [[_ <-]|[_ ?]]; [|congruence].
    split; [done|]. exists (set_ID id t). split; [done|].
    assert (Hc : canonical t).
    { destruct Hinit as (_ & [(Hs & Hc & _)|(Hs & Hc & _)]); unfold canonical; by rewrite Hs, Hc. }
    rewrite toModelTask_taskRow by done. eapply rtc_r; [|apply step_auto_archive].
    apply rtc_once, step_times.
Qed.

Lemma evolves_with_events tb f :
  kept Event_OrgID orgs (t_events tb) (f (t_events tb)) → evolves orgs tb (with_events f tb).
Proof. intros H. destruct (evolves_refl orgs tb). by constructor. Qed.

Lemma evolves_with_schedules tb f :
  kept Sched_OrgID orgs (t_schedules tb) (f (t_schedules tb)) →
  evolves orgs tb (with_schedules f tb).
Proof. intros H. destruct (evolves_refl orgs tb). by constructor. Qed.

Lemma evolves_with_chunks tb f :
  kept Chunk_OrgID orgs (t_chunks tb) (f (t_chunks tb)) → evolves orgs tb (with_chunks f tb).
Proof. intros H. destruct (evolves_refl orgs tb). by constructor. Qed.

Lemma evolves_with_workspaces tb f :
  kept WS_OrgID orgs (t_workspaces tb) (f (t_workspaces tb)) →
  evolves orgs tb (with_workspaces f tb).
Proof. intros H. destruct (evolves_refl orgs tb). by constructor. Qed.

Lemma fresh_None {A} (m : gmap Z A) id : (∀ i, is_Some (m !! i) → i < id) → m !! id = None.
Proof.
  intros H. destruct (m !! id) eqn:E; [|done]. specialize (H id). rewrite E in H.
  specialize (H ltac:(done)). lia.
Qed.

Lemma kept_insert_fresh {A} (org : A → Z) (m : gmap Z A) id x :
  orgs (org x) → (∀ i, is_Some (m !! i) → i < id) → kept org orgs m (<[id := x]> m).
Proof.
  intros Ho Hid. apply kept_insert; [done|]. intros y Hy. apply fresh_None in Hid. congruence.
Qed.

Lemma evolves_add_events now es tb tb' :
  add_events now es tb tb' → Forall (λ e, orgs (Event_OrgID e)) es → evolves orgs tb tb'.
Proof.
  induction 1 as [tb|e es id tb tb' Hid _ IH]; [intros _; apply evolves_refl|].
  intros [He Hes]%Forall_cons. etrans; [|by apply IH].
  apply evolves_with_events. by apply kept_insert_fresh.
Qed.

Lemma evolves_insert_link tb id l row :
  (∀ i, is_Some (t_links tb !! i) → i < id) → t_tasks tb !! Link_TaskID l = Some row →
  orgs (Row_org_id row) → evolves orgs tb (with_links <[id := l]> tb).
Proof.
  intros Hid Hrow Ho. destruct (evolves_refl orgs tb). constructor; try done.
  intros i l' r Hr Hn. simpl. rewrite lookup_insert_Some. split.
  - intros Hl. right. split; [|done]. intros <-. apply fresh_None in Hid. congruence.
  - intros [[_ <-]|[_ ?]]; [congruence|done].
Qed.
End moves.

(** One org. *)
Definition only (orgID : Z) : Z → Prop := λ o, o = orgID.

Lemma evolves_select orgs tb tb' id orgID :
  evolves orgs tb tb' → is_Some (select_task tb id orgID) → is_Some (select_task tb' id orgID).
Proof.
  intros Hev [r [Hr Ho]%select_task_Some]. destruct (ev_rows _ _ _ Hev _ _ Hr)
    as (r' & Hr' & (_ & Horg & _) & _). exists r'. apply select_task_Some. by rewrite Horg.
Qed.

(** No task appears or disappears. *)
Definition same_tasks (tb tb' : Tables) : Prop :=
  ∀ i, is_Some (t_tasks tb' !! i) ↔ is_Some (t_tasks tb !! i).

Lemma same_tasks_refl tb : same_tasks tb tb.
Proof. done. Qed.

Lemma same_tasks_trans tb1 tb2 tb3 :
  same_tasks tb1 tb2 → same_tasks tb2 tb3 → same_tasks tb1 tb3.
Proof. intros H12 H23 i. by rewrite (H23 i). Qed.

Lemma same_tasks_put_task tb t now : same_tasks tb (put_task t now tb).
Proof.
  intros i. unfold put_task. destruct (select_task _ _ _) as [r|] eqn:E; [|done].
  apply select_task_Some in E as [E _]. simpl. rewrite lookup_insert_is_Some'.
  split; [intros [<-|?]; [by rewrite E|done]|by right].
Qed.

(** ** Computations that evolve the tables *)

(** The state after a computation that ran some transactions of its own:
    between transactions, evolved within [orgs]. *)
Definition ran (orgs : Z → Prop) (w0 w : World) : Prop :=
  ∃ tb ns, at_ w0 tb ns w ∧ evolves orgs (committed w0) tb.

Lemma ran_refl orgs w : world_ok w → ran orgs w w.
Proof. intros Hw. exists (committed w), []. split; [by apply at_refl|apply evolves_refl]. Qed.

Lemma ran_world_ok orgs w w' : ran orgs w w' → world_ok w'.
Proof. intros (tb & ns & Hat & _). by eapply at_world_ok. Qed.

Lemma ran_healthy orgs w w' : ran orgs w w' → healthy w → healthy w'.
Proof. intros (tb & ns & Hat & _). apply Hat. Qed.

Lemma ran_evolves orgs w w' : ran orgs w w' → evolves orgs (committed w) (committed w').
Proof. intros (tb & ns & Hat & Hev). by rewrite (at_committed _ _ _ _ Hat). Qed.

Lemma ran_trans orgs w0 w1 w2 : ran orgs w0 w1 → ran orgs w1 w2 → ran orgs w0 w2.
Proof.
  intros (tb1 & ns1 & Hat1 & H1) (tb2 & ns2 & Hat2 & H2). exists tb2, (ns1 ++ ns2).
  split; [by eapply at_trans|]. rewrite (at_committed _ _ _ _ Hat1) in H2. by etrans.
Qed.

Lemma ran_mono (orgs orgs' : Z → Prop) w w' :
  (∀ o, orgs o → orgs' o) → ran orgs w w' → ran orgs' w w'.
Proof. intros Hsub (tb & ns & Hat & H). exists tb, ns. split; [done|]. by eapply evolves_mono. Qed.

(** A handler whose outcome evolves the tables runs. *)
Lemma outcome_ran {A} orgs w ok err (r : Err + A) w' :
  world_ok w → outcome w ok err r w' →
  (∀ a tb ns, ok a tb ns → evolves orgs (committed w) tb) → ran orgs w w'.
Proof.
  intros Hw Hout Hev. destruct r as [e|a]; simpl in Hout.
  - destruct Hout as [Hat _]. exists (committed w), []. split; [done|apply evolves_refl].
  - destruct Hout as (tb & ns & Hat & Hok). exists tb, ns. eauto.
Qed.

Lemma spec_ran {A} orgs (m : M A) ok err w :
  HandlerSpec m ok err →
  (∀ now tb q a tb' ns, tables_ok tb q → ok now tb a tb' ns → evolves orgs tb tb') →
  world_ok w → wp m (λ _ w', ran orgs w w') w.
Proof.
  intros Hm Hev Hw. eapply wp_mono; [by apply Hm|]. intros r w' Hout.
  eapply outcome_ran; [done|exact Hout|]. intros a tb ns Hok. eapply Hev; [apply Hw|exact Hok].
Qed.

(** ** Schedules and workspaces *)

Lemma evolves_put_schedule orgs tb s now tb' :
  orgs (Sched_OrgID s) → put_schedule s now tb = inr ((), tb') → evolves orgs tb tb'.
Proof.
  intros Ho Hput. unfold put_schedule in Hput.
  destruct (select_schedule tb (Sched_ID s) (Sched_OrgID s)) as [old|] eqn:E.
  - apply select_schedule_Some in E as [E Hold]. case_match; [|done]. injection Hput as <-.
    apply evolves_with_schedules, kept_insert; [by rewrite <- Hold in Ho|].
    intros y Hy. simplify_eq. by rewrite Hold.
  - injection Hput as <-. apply evolves_refl.
Qed.

Lemma kept_filter {A} (org : A → Z) (orgs : Z → Prop) (m : gmap Z A) (P : Z * A → Prop)
    `{!∀ kv, Decision (P kv)} :
  (∀ i x, ¬ orgs (org x) → P (i, x)) → kept org orgs m (filter P m).
Proof. intros HP i x Hx. rewrite map_lookup_filter_Some. naive_solver. Qed.
