(* ===== verification/Wire.v ===== *)
(** * The wire

    Models the conversions between the model and the messages of the API, in
    [internal/model]: [task.go], [event.go], [link.go], [routing_rule.go],
    [schedule.go], [workspace.go], [logchunk.go], [org.go], [key.go] and
    [user.go].  The well-known types of the protobuf library, timestamps and
    durations, are a parameter; a field of pointer type is an [option]. *)

From S2P Require Import Prelude AuthScope EventModel TaskModel Links PubSub ScheduleModel Rules.
From S2P Require Import Store StoreOps StoreLogic StoreAccounts ApiBase Timeline Evolution.

(** [timestamppb] and [durationpb]: an instant of the store comes back as it was
    and so does every [time.Duration]; a missing duration is zero. *)
Class WellKnown := {
  Timestamp : Type; timestamp_New : Z → Timestamp; AsTime : Timestamp → Z;
  Duration : Type; duration_New : Z → Duration; AsDuration : option Duration → Z }.

Class WellKnownLaws `{WellKnown} := {
  AsTime_New t : AsTime (timestamp_New t) = t;
  AsDuration_New d : is_int64 d = true → AsDuration (Some (duration_New d)) = d;
  AsDuration_nil : AsDuration None = 0 }.

(** [model.TaskURL]. *)
Definition TaskURL (baseURL : string) (taskID orgID : Z) : string :=
  if String.eqb baseURL "" then ""
  else baseURL +:+ "/ui/tasks/" +:+ FormatInt taskID +:+ "?org=" +:+ FormatInt orgID.

(** The generated [String] of the message's [TaskStatus]. *)
Definition PbStatus_String (n : Z) : string :=
  match n with
  | 0 => "UNSPECIFIED" | 1 => "PENDING" | 2 => "RUNNING" | 3 => "RESTARTING" | 4 => "CANCELLING"
  | 5 => "COMPLETED" | 6 => "FAILED" | 7 => "CANCELLED" | 8 => "DRAFT" | _ => FormatInt n
  end.

(** The [int32] of a lifecycle kind. *)
Definition LifecycleKind_int (k : LifecycleKind) : Z :=
  match k with
  | LifecycleKindUnspecified => 0 | LifecycleKindCreated => 1 | LifecycleKindUpdated => 2
  | LifecycleKindCancelled => 3 | LifecycleKindRestarted => 4 | LifecycleKindArchived => 5
  | LifecycleKindUnarchived => 6 | LifecycleKindAutoArchived => 7 | LifecycleKindSandboxStarted => 8
  | LifecycleKindSandboxExited => 9 | LifecycleKindSandboxFailed => 10 | LifecycleKindOther n => n
  end.

Definition LifecycleKind_of_int (n : Z) : LifecycleKind :=
  match n with
  | 0 => LifecycleKindUnspecified | 1 => LifecycleKindCreated | 2 => LifecycleKindUpdated
  | 3 => LifecycleKindCancelled | 4 => LifecycleKindRestarted | 5 => LifecycleKindArchived
  | 6 => LifecycleKindUnarchived | 7 => LifecycleKindAutoArchived | 8 => LifecycleKindSandboxStarted
  | 9 => LifecycleKindSandboxExited | 10 => LifecycleKindSandboxFailed | _ => LifecycleKindOther n
  end.

(** ** Messages *)

Record PbTaskActions := mkPbActions {
  Pb_Archive : bool; Pb_Unarchive : bool; Pb_Cancel : bool; Pb_Restart : bool; Pb_Start : bool }.

Record PbActor := mkPbActor { PbA_Kind : string; PbA_Name : string }.

Record PbRuleCondition := mkPbCondition { PbC_Attr : string; PbC_Op : string; PbC_Value : string }.

Record PbInstruction := mkPbInstruction { PbI_Text : string; PbI_Url : string }.

(** The arms of [Event.payload]. *)
Inductive PbPayload :=
| PbEvent_Instruction (text url : string)
| PbEvent_External (description url data : string) (details : gmap string string) (source type : string)
| PbEvent_Report (content : string)
| PbEvent_Lifecycle (kind : Z) (actor : option PbActor) (from to message : string) (fields : list string)
| PbEvent_Link (linkID : Z) (relevance url title : string) (subscribe : bool).

Record PbRunnerEvent := mkPbRunnerEvent {
  PbR_TaskId : Z; PbR_Event : string; PbR_Version : Z; PbR_Reconcile : bool; PbR_Reason : string }.

Section wire.
Context `{WellKnown}.

Record PbTask := mkPbTask {
  PbT_Id : Z; PbT_Name : string; PbT_Runner : string; PbT_Workspace : string; PbT_Status : Z;
  PbT_Command : Z; PbT_Version : Z; PbT_Archived : bool; PbT_Url : string;
  PbT_CreatedAt : option Timestamp; PbT_UpdatedAt : option Timestamp;
  PbT_AutoArchive : option Duration; PbT_ShellSession : string; PbT_Namespace : string;
  PbT_Actions : option PbTaskActions }.

Record PbEvent := mkPbEvent {
  PbE_Id : Z; PbE_TaskId : Z; PbE_Wake : bool; PbE_CreatedAt : option Timestamp;
  PbE_Payload : option PbPayload }.

Record PbTaskLink := mkPbLink {
  PbL_Id : Z; PbL_TaskId : Z; PbL_Relevance : string; PbL_Url : string; PbL_RoutingKey : string;
  PbL_Title : string; PbL_Subscribe : bool; PbL_CreatedAt : option Timestamp }.

Record PbCreateTaskAction := mkPbCreate {
  PbCr_Workspace : string; PbCr_Runner : string; PbCr_Prompt : string; PbCr_AutoArchive : option Duration }.

Record PbRoutingRule := mkPbRule {
  PbRR_Source : string; PbRR_Type : string; PbRR_Conditions : list PbRuleCondition;
  PbRR_Create : option PbCreateTaskAction; PbRR_Wakeup : bool; PbRR_Public : bool; PbRR_Namespace : string }.

Record PbSchedule := mkPbSchedule {
  PbS_Id : Z; PbS_Name : string; PbS_Workspace : string; PbS_Runner : string; PbS_Namespace : string;
  PbS_Instructions : list PbInstruction; PbS_CronExpr : string; PbS_Timezone : string; PbS_Enabled : bool;
  PbS_AutoArchive : option Duration; PbS_CreatedBy : string; PbS_CreatedAt : option Timestamp;
  PbS_UpdatedAt : option Timestamp; PbS_NextRunAt : option Timestamp; PbS_LastRunAt : option Timestamp;
  PbS_LastTaskId : Z }.

Record PbRegisteredWorkspace := mkPbWorkspace {
  PbW_Name : string; PbW_RunnerId : string; PbW_Description : string; PbW_UpdatedAt : option Timestamp }.

Record PbLogChunk := mkPbChunk {
  PbLC_Id : Z; PbLC_TaskId : Z; PbLC_Version : Z; PbLC_Data : list Z; PbLC_CreatedAt : option Timestamp }.

Record PbOrg := mkPbOrg {
  PbO_Id : Z; PbO_Name : string; PbO_Owner : string;
  PbO_CreatedAt : option Timestamp; PbO_UpdatedAt : option Timestamp }.

Record PbOrgMember := mkPbMember {
  PbM_OrgId : Z; PbM_UserId : string; PbM_Email : string; PbM_Name : string; PbM_Role : string;
  PbM_CreatedAt : option Timestamp }.

Record PbKey := mkPbKey {
  PbK_Id : string; PbK_Name : string; PbK_CreatedAt : option Timestamp; PbK_ExpiresAt : option Timestamp }.

Record PbGitHubAccount := mkPbGitHub {
  PbG_UserId : Z; PbG_Username : string; PbG_CreatedAt : option Timestamp }.

Record PbAtlassianAccount := mkPbAtlassian {
  PbAt_AccountId : string; PbAt_Username : string; PbAt_CreatedAt : option Timestamp }.

(** [if ts != nil { t = ts.AsTime() }]: the zero time otherwise. *)
Definition zero_instant : Z := -62135596800 * 10 ^ 6.
Definition time_of (ts : option Timestamp) : Z := from_option AsTime zero_instant ts.

(** ** Tasks *)

Definition Task_Proto (baseURL : string) (t : Task) : PbTask :=
  mkPbTask (Task_ID t) (Task_Name t) (Task_Runner t) (Task_Workspace t)
    (TaskStatus_int (Task_Status t)) (TaskCommand_int (Task_Command t)) (Task_Version t)
    (Task_Archived t) (TaskURL baseURL (Task_ID t) (Task_OrgID t))
    (Some (timestamp_New (Task_CreatedAt t))) (Some (timestamp_New (Task_UpdatedAt t)))
    (Some (duration_New (Task_AutoArchive t))) (Task_ShellSession t) (Task_Namespace t)
    (Some (mkPbActions (CanArchive t) (CanUnarchive t) (CanCancel t) (CanRestart t) (CanStart t))).

Definition TaskFromProto (pb : PbTask) : Task :=
  mkTask (PbT_Id pb) (PbT_Name pb) (PbT_Runner pb) (PbT_Workspace pb)
    (TaskStatus_of_int (PbT_Status pb)) (TaskCommand_of_int (PbT_Command pb)) (PbT_Version pb) 0
    (PbT_Archived pb) (time_of (PbT_CreatedAt pb)) (time_of (PbT_UpdatedAt pb)) (PbT_Namespace pb)
    (AsDuration (PbT_AutoArchive pb)) (PbT_ShellSession pb).

Definition RunnerEvent_Proto (r : RunnerEvent) : PbRunnerEvent :=
  mkPbRunnerEvent (RE_TaskID r) (RE_Event r) (RE_Version r) (RE_Reconcile r) (RE_Reason r).

Definition RunnerEventFromProto (pb : PbRunnerEvent) : RunnerEvent :=
  mkRunnerEvent (PbR_TaskId pb) (PbR_Event pb) (PbR_Version pb) (PbR_Reconcile pb) (PbR_Reason pb).

(** ** Events *)

Definition Actor_Proto (a : Actor) : PbActor := mkPbActor (Actor_Kind a) (Actor_Name a).

Definition actorFromProto (pb : option PbActor) : Actor :=
  match pb with Some pb => mkActor (PbA_Kind pb) (PbA_Name pb) | None => mkActor "" "" end.

(** [SetPayloadProto] of each payload, and of whichever it is. *)
Definition Instruction_SetPayloadProto (p : InstructionPayload) : PbPayload :=
  PbEvent_Instruction (Instruction_Text p) (Instruction_URL p).

Definition External_SetPayloadProto (p : ExternalPayload) : PbPayload :=
  PbEvent_External (External_Description p) (External_URL p) (External_Data p) (External_Details p)
    (External_Source p) (External_EventType p).

Definition Report_SetPayloadProto (p : ReportPayload) : PbPayload := PbEvent_Report (Report_Content p).

Definition Lifecycle_SetPayloadProto (p : LifecyclePayload) : PbPayload :=
  PbEvent_Lifecycle (LifecycleKind_int (Lifecycle_Kind p)) (Some (Actor_Proto (Lifecycle_Actor p)))
    (Lifecycle_FromStatus p) (Lifecycle_ToStatus p) (Lifecycle_Message p) (Lifecycle_Fields p).

Definition Link_SetPayloadProto (p : LinkPayload) : PbPayload :=
  PbEvent_Link (LinkPayload_LinkID p) (LinkPayload_Relevance p) (LinkPayload_URL p) (LinkPayload_Title p)
    (LinkPayload_Subscribe p).

Definition SetPayloadProto (p : EventPayload) : PbPayload :=
  match p with
  | Instruction p => Instruction_SetPayloadProto p
  | External p => External_SetPayloadProto p
  | Report p => Report_SetPayloadProto p
  | Lifecycle p => Lifecycle_SetPayloadProto p
  | LinkP p => Link_SetPayloadProto p
  end.

Definition EventPayloadFromProto (arm : option PbPayload) : option EventPayload :=
  match arm with
  | None => None
  | Some (PbEvent_Instruction text url) => Some (Instruction (mkInstruction text url))
  | Some (PbEvent_External description url data details source type) =>
      Some (External (mkExternal description url data details source type))
  | Some (PbEvent_Report content) => Some (Report (mkReport content))
  | Some (PbEvent_Lifecycle kind actor from to message fields) =>
      Some (Lifecycle (mkLifecycle (LifecycleKind_of_int kind) (actorFromProto actor) from to message fields))
  | Some (PbEvent_Link linkID relevance url title subscribe) =>
      Some (LinkP (mkLinkPayload linkID relevance url title subscribe))
  end.

Definition Event_Proto (e : Event) : PbEvent :=
  mkPbEvent (Event_ID e) (Event_TaskID e) (Event_Wake e) (Some (timestamp_New (Event_CreatedAt e)))
    (Some (SetPayloadProto (Event_Payload e))).

(** [None] is an event whose [Payload] is nil. *)
Definition EventFromProto (pb : PbEvent) : option Event :=
  payload ← EventPayloadFromProto (PbE_Payload pb);
  Some (mkEvent (PbE_Id pb) (PbE_TaskId pb) 0 (PbE_Wake pb) payload (time_of (PbE_CreatedAt pb))).

(** ** Links, rules, schedules *)

Definition Link_Proto (l : Link) : PbTaskLink :=
  mkPbLink (Link_ID l) (Link_TaskID l) (Link_Relevance l) (Link_URL l) (Link_RoutingKey l)
    (Link_Title l) (Link_Subscribe l) (Some (timestamp_New (Link_CreatedAt l))).

Definition LinkFromProto (pb : PbTaskLink) : Link :=
  mkLink (PbL_Id pb) (PbL_TaskId pb) (PbL_Relevance pb) (PbL_Url pb) (PbL_RoutingKey pb)
    (PbL_Title pb) (PbL_Subscribe pb) (time_of (PbL_CreatedAt pb)) "".

Definition CreateTaskAction_Proto (a : CreateTaskAction) : PbCreateTaskAction :=
  mkPbCreate (Create_Workspace a) (Create_Runner a) (Create_Prompt a)
    (Some (duration_New (Create_AutoArchive a))).

Definition CreateTaskActionFromProto (pb : option PbCreateTaskAction) : option CreateTaskAction :=
  pb ← pb;
  Some (mkCreate (PbCr_Workspace pb) (PbCr_Runner pb) (PbCr_Prompt pb) (AsDuration (PbCr_AutoArchive pb))).

Definition RoutingRule_Proto (r : RoutingRule) : PbRoutingRule :=
  mkPbRule (Rule_Source r) (Rule_Type r)
    (map (λ c, mkPbCondition (Cond_Attr c) (Cond_Op c) (Cond_Value c)) (Rule_Conditions r))
    (CreateTaskAction_Proto <$> Rule_Create r) (Rule_Wakeup r) (Rule_Public r) (Rule_Namespace r).

Definition RoutingRuleFromProto (pb : PbRoutingRule) : RoutingRule :=
  mkRule (PbRR_Source pb) (PbRR_Type pb)
    (map (λ c, mkCondition (PbC_Attr c) (PbC_Op c) (PbC_Value c)) (PbRR_Conditions pb))
    (CreateTaskActionFromProto (PbRR_Create pb)) (PbRR_Wakeup pb) (PbRR_Public pb) (PbRR_Namespace pb).

Definition Schedule_Proto (s : Schedule) : PbSchedule :=
  mkPbSchedule (Sched_ID s) (Sched_Name s) (Sched_Workspace s) (Sched_Runner s) (Sched_Namespace s)
    (map (λ i, mkPbInstruction (SI_Text i) (SI_URL i)) (Sched_Instructions s))
    (Sched_CronExpr s) (Sched_Timezone s) (Sched_Enabled s) (Some (duration_New (Sched_AutoArchive s)))
    (Sched_CreatedBy s) (Some (timestamp_New (Sched_CreatedAt s)))
    (Some (timestamp_New (Sched_UpdatedAt s))) (timestamp_New <$> Sched_NextRunAt s)
    (timestamp_New <$> Sched_LastRunAt s) (default 0 (Sched_LastTaskID s)).

Definition ScheduleInstructionsFromProto (instructions : list PbInstruction) : list ScheduleInstruction :=
  map (λ i, mkScheduleInstruction (PbI_Text i) (PbI_Url i)) instructions.

(** ** Accounts, workspaces, log chunks *)

Definition Workspace_Proto (ws : Workspace) : PbRegisteredWorkspace :=
  mkPbWorkspace (WS_Name ws) (WS_RunnerID ws) (WS_Description ws) (Some (timestamp_New (WS_UpdatedAt ws))).

Definition WorkspaceFromProto (pb : PbRegisteredWorkspace) : Workspace :=
  mkWorkspace 0 "" (PbW_Name pb) (PbW_Description pb) 0 zero_instant.

Definition LogChunk_Proto (c : LogChunk) : PbLogChunk :=
  mkPbChunk (Chunk_ID c) (Chunk_TaskID c) (Chunk_Version c) (Chunk_Data c)
    (Some (timestamp_New (Chunk_CreatedAt c))).

Definition Org_Proto (o : Org) : PbOrg :=
  mkPbOrg (Org_ID o) (Org_Name o) (Org_Owner o) (Some (timestamp_New (Org_CreatedAt o)))
    (Some (timestamp_New (Org_UpdatedAt o))).

Definition OrgMember_Proto (m : OrgMemberWithUser) : PbOrgMember :=
  mkPbMember (MU_OrgID m) (Member_UserID (MU_Member m)) (MU_Email m) (MU_Name m)
    (Member_Role (MU_Member m)) (Some (timestamp_New (Member_CreatedAt (MU_Member m)))).

Definition Key_Proto (k : Key) : PbKey :=
  mkPbKey (Key_ID k) (Key_Name k) (Some (timestamp_New (Key_CreatedAt k)))
    (timestamp_New <$> Key_ExpiresAt k).

Definition GitHubAccountProto (u : User) : option PbGitHubAccount :=
  if negb (HasGitHub u) then None
  else Some (mkPbGitHub (U_GitHubUserID u) (U_GitHubUsername u) (Some (timestamp_New (U_CreatedAt u)))).

Definition AtlassianAccountProto (u : User) : option PbAtlassianAccount :=
  if negb (HasAtlassian u) then None
  else Some (mkPbAtlassian (U_AtlassianAccountID u) (U_AtlassianUsername u)
               (Some (timestamp_New (U_CreatedAt u)))).

(** ** What the wire keeps *)

(** Tenancy stays on the server: the org of a task or an event, the namespace of
    a link. *)
Definition task_off_wire (t : Task) : Task :=
  mkTask (Task_ID t) (Task_Name t) (Task_Runner t) (Task_Workspace t) (Task_Status t) (Task_Command t)
    (Task_Version t) 0 (Task_Archived t) (Task_CreatedAt t) (Task_UpdatedAt t) (Task_Namespace t)
    (Task_AutoArchive t) (Task_ShellSession t).

Definition event_off_wire (e : Event) : Event :=
  mkEvent (Event_ID e) (Event_TaskID e) 0 (Event_Wake e) (Event_Payload e) (Event_CreatedAt e).

Definition link_off_wire (l : Link) : Link :=
  mkLink (Link_ID l) (Link_TaskID l) (Link_Relevance l) (Link_URL l) (Link_RoutingKey l) (Link_Title l)
    (Link_Subscribe l) (Link_CreatedAt l) "".

(** A kind written as the constant it is. *)
Definition canonical_payload (p : EventPayload) : Prop :=
  match p with
  | Lifecycle p => LifecycleKind_of_int (LifecycleKind_int (Lifecycle_Kind p)) = Lifecycle_Kind p
  | _ => True
  end.

Definition rule_duration_ok (r : RoutingRule) : Prop :=
  match Rule_Create r with Some a => is_int64 (Create_AutoArchive a) = true | None => True end.

Context {WKL : WellKnownLaws}.

Lemma map_roundtrip {A B} (f : A → B) (g : B → A) (l : list A) :
  (∀ a, g (f a) = a) → map g (map f l) = l.
Proof. intros H'. induction l; simpl; congruence. Qed.

Lemma payload_roundtrip p : canonical_payload p → EventPayloadFromProto (Some (SetPayloadProto p)) = Some p.
Proof.
  destruct p as [[]|[]|[]|[kind [] from to msg fields]|[]]; simpl; try done.
  intros ->. done.
Qed.

(** C37: what crosses the wire in both directions arrives as it was sent, but for
    the tenancy that stays on the server: tasks, events of every kind, links,
    routing rules with their conditions and actions, runner events, and the
    instructions of a schedule. *)
Theorem wire_roundtrip (baseURL : string) :
  (∀ t, canonical t → is_int64 (Task_AutoArchive t) = true →
     TaskFromProto (Task_Proto baseURL t) = task_off_wire t) ∧
  (∀ e, canonical_payload (Event_Payload e) → EventFromProto (Event_Proto e) = Some (event_off_wire e)) ∧
  (∀ l, LinkFromProto (Link_Proto l) = link_off_wire l) ∧
  (∀ r, rule_duration_ok r → RoutingRuleFromProto (RoutingRule_Proto r) = r) ∧
  (∀ r, RunnerEventFromProto (RunnerEvent_Proto r) = r) ∧
  (∀ s, ScheduleInstructionsFromProto (PbS_Instructions (Schedule_Proto s)) = Sched_Instructions s).
Proof using WKL.
  split; [|split; [|split; [|split; [|split]]]].
  - intros t [Hs Hc] Hd. unfold TaskFromProto, Task_Proto, task_off_wire. simpl.
    by rewrite Hs, Hc, !AsTime_New, AsDuration_New.
  - intros e He. unfold EventFromProto, Event_Proto, event_off_wire. cbn [PbE_Payload].
    rewrite payload_roundtrip by done. simpl. by rewrite AsTime_New.
  - intros l. unfold LinkFromProto, Link_Proto, link_off_wire. simpl. by rewrite AsTime_New.
  - intros [src ty conds create wk pub ns] Hd. unfold RoutingRuleFromProto, RoutingRule_Proto. simpl.
    rewrite map_roundtrip by (by intros []). f_equal.
    destruct create as [[cw cr cp ca]|]; [|done]. simpl. unfold rule_duration_ok in Hd. simpl in Hd.
    by rewrite AsDuration_New.
  - by intros [].
  - intros s. unfold ScheduleInstructionsFromProto, Schedule_Proto. simpl. apply map_roundtrip. by intros [].
Qed.

(** The actions a task is sent with are those that would be carried out. *)
Lemma actions_offered (baseURL : string) (t : Task) :
  PbT_Actions (Task_Proto baseURL t) =
    Some (mkPbActions (fst (Archive t)) (fst (Unarchive t)) (fst (Cancel t)) (fst (Restart t)) (fst (Start t))).
Proof.
  unfold Task_Proto, Archive, Unarchive, Cancel, Restart, Start. cbn [PbT_Actions].
  destruct (CanArchive t), (CanUnarchive t), (CanCancel t), (CanRestart t), (CanStart t); reflexivity.
Qed.

End wire.

(** The types as they are on a machine with 64-bit instants. *)
#[local] Instance sample_well_known : WellKnown := {|
  Timestamp := Z; timestamp_New t := t; AsTime t := t;
  Duration := Z; duration_New d := d; AsDuration d := default 0 d |}.

#[local] Instance sample_well_known_laws : WellKnownLaws.
Proof. by split. Qed.

Lemma wire_roundtrip_witness :
  let e := newEvent 7 3 true (Lifecycle (mkLifecycle LifecycleKindCreated (UserActor "icholy") "" "Pending" "" [])) in
  EventFromProto (Event_Proto e) = Some (event_off_wire e).
Proof.
  intros e. destruct (wire_roundtrip "https://x") as (_ & H & _). apply H. reflexivity.
Defined.
