(* ===== verification/ApiAccounts.v ===== *)
(** * Accounts: organisations, members, keys and sign-in

    Models [internal/server/apiserver/org.go], [key.go] and [github.go], the
    profile ([apiserver.go]), the checks of
    [internal/server/githubserver/installations.go], the token generation of
    [internal/auth/apiauth/token.go] and the resolvers of
    [internal/server/storeauth.go].  What GitHub answers, the random bytes and
    the hash function are parameters. *)

From S2P Require Import Prelude AuthScope ScopeParse EventModel TaskModel Links Strconv PubSub.
From S2P Require Import ScheduleModel Rules Store StoreOps StoreLogic StoreAccounts ApiBase Timeline.
From S2P Require Import Evolution.

(** ** GitHub installations *)

(** What the GitHub API answers: an error with its status code, or the part of
    the response that is read. *)
Record GitHubAccount := mkGitHubAccount { GHA_Type : string; GHA_ID : Z; GHA_Login : string }.
Record GitHubMembership := mkMembership { GHM_State : string; GHM_UserID : Z }.

Record GitHubAPI := mkGitHubAPI {
  GetInstallation : Z → (Z * string) + GitHubAccount;
  GetByID : Z → string + string;
  GetOrgMembership : string → string → (Z * string) + GitHubMembership }.

Definition StatusNotFound : Z := 404.

Definition verifyInstallationAccess (api : GitHubAPI) (installationID : Z) (user : User)
    : option Err :=
  match GetInstallation api installationID with
  | inl (status, err) =>
      if status =? StatusNotFound
      then Some (EConnect CodeNotFound ("no GitHub installation with id " +:+ FormatInt installationID))
      else Some (EConnect CodeInternal ("get installation: " +:+ err))
  | inr account =>
      if String.eqb (GHA_Type account) "Organization" then
        match GetByID api (U_GitHubUserID user) with
        | inl err => Some (EConnect CodeInternal
            ("resolve github user " +:+ FormatInt (U_GitHubUserID user) +:+ ": " +:+ err))
        | inr login =>
            match GetOrgMembership api login (GHA_Login account) with
            | inl (status, err) =>
                if status =? StatusNotFound
                then Some (EConnect CodePermissionDenied "you are not a member of this GitHub organization")
                else Some (EConnect CodeInternal ("get org membership: " +:+ err))
            | inr m =>
                if negb (String.eqb (GHM_State m) "active") ||
                   negb (GHM_UserID m =? U_GitHubUserID user)
                then Some (EConnect CodePermissionDenied
                             "you are not an active member of this GitHub organization")
                else None
            end
        end
      else if String.eqb (GHA_Type account) "User" then
        if negb (U_GitHubUserID user =? GHA_ID account)
        then Some (EConnect CodePermissionDenied "this installation belongs to a different GitHub user")
        else None
      else Some (EConnect CodePermissionDenied
                   ("unsupported installation account type " +:+ quoted (GHA_Type account)))
  end.

(** The GitHub integration: its app slug and its API. *)
Record GithubServer := mkGithubServer { AppSlug : string; GitHub_api : GitHubAPI }.

Definition AppInstallURL (g : GithubServer) : string :=
  if String.eqb (AppSlug g) "" then ""
  else "https://github.com/apps/" +:+ AppSlug g +:+ "/installations/new".

(** ** Organisations *)

Definition owner_refused (what : string) : string := "only the org owner can " +:+ what.

(** [if err != nil { return connect.NewError(connect.CodeInternal, err) }] *)
Definition internal_err {A} (m : M A) : M A :=
  r ← catch m;
  match r with inl err => Internal err | inr a => mret a end.

Definition members_change (caller : UserInfo) (now : Z) (action : string) : Notification :=
  change caller now [mkResource action "org_members" 0] "" TaskStatusUnspecified "".

Definition nil_pointer : Err :=
  EPanic "runtime error: invalid memory address or nil pointer dereference".

Record OrgSettings := mkSettings {
  Settings_McpUrl : string; Settings_GithubInstallationId : Z;
  Settings_AtlassianWebhookSecret : string; Settings_AtlassianWebhookUrl : string;
  Settings_GithubAppUrl : string }.

Section handlers.
Context {MJ : MapJSON}.
(** The server's base URL and its integrations: the Atlassian one carries its
    own base URL. *)
Context (baseURL : string) (atlassian : option string) (github : option GithubServer).

Definition Server_CreateOrg (caller : UserInfo) (name : string) : M Org :=
  if negb (Allow (User_Scopes caller) OpOrgCreate []) then PermissionDenied "cannot create org"
  else if String.eqb name "" then InvalidArgument "name is required"
  else internal_err (WithTx NoTx (λ tx,
    org ← CreateOrg tx name (User_ID caller);
    StoreAddOrgMember tx (Org_ID org) (User_ID caller) "owner" ;;
    Commit tx ;;
    mret org)).

Definition Server_ListOrgs (caller : UserInfo) : M (list Org) :=
  if negb (Allow (User_Scopes caller) OpOrgRead []) then PermissionDenied "cannot list orgs"
  else internal_err (ListOrgsByMember NoTx (User_ID caller)).

Definition Server_DeleteOrg (caller : UserInfo) (id : Z) : M unit :=
  if negb (Allow (User_Scopes caller) OpOrgDelete []) then PermissionDenied "cannot delete org"
  else
    r ← catch (GetOrg NoTx id);
    match r with
    | inl err => raise (readError "org not found" err)
    | inr org =>
        if negb (String.eqb (Org_Owner org) (User_ID caller))
        then PermissionDenied (owner_refused "delete it")
        else
          user ← internal_err (GetUser NoTx (User_ID caller));
          if U_DefaultOrgID user =? id
          then raise (EConnect CodeFailedPrecondition "cannot delete your default org")
          else internal_err (ArchiveOrg NoTx id)
    end.

Definition Server_AddOrgMember (caller : UserInfo) (email : string) : M OrgMemberWithUser :=
  if negb (Allow (User_Scopes caller) OpOrgWrite []) then PermissionDenied "cannot write org"
  else
    org ← internal_err (GetOrg NoTx (User_OrgID caller));
    if negb (String.eqb (Org_Owner org) (User_ID caller))
    then PermissionDenied (owner_refused "add members")
    else if String.eqb email "" then InvalidArgument "email is required"
    else
      r ← catch (GetUserByEmail NoTx email);
      match r with
      | inl err => raise (readError ("no user found with email " +:+ quoted email) err)
      | inr user =>
          internal_err (StoreAddOrgMember NoTx (User_OrgID caller) (U_ID user) "member") ;;
          now ← time_Now;
          publish (members_change caller now "added") ;;
          mret (mkMemberWithUser (User_OrgID caller) (mkOrgMember (U_ID user) "member" now)
                  (U_Email user) (U_Name user))
      end.

Definition Server_RemoveOrgMember (caller : UserInfo) (userID : string) : M unit :=
  if negb (Allow (User_Scopes caller) OpOrgWrite []) then PermissionDenied "cannot write org"
  else
    org ← internal_err (GetOrg NoTx (User_OrgID caller));
    if negb (String.eqb (Org_Owner org) (User_ID caller))
    then PermissionDenied (owner_refused "remove members")
    else if String.eqb userID (Org_Owner org) then InvalidArgument "cannot remove the org owner"
    else
      internal_err (StoreRemoveOrgMember NoTx (User_OrgID caller) userID) ;;
      now ← time_Now;
      publish (members_change caller now "removed").

Definition Server_ListOrgMembers (caller : UserInfo) : M (list OrgMemberWithUser) :=
  if negb (Allow (User_Scopes caller) OpOrgRead []) then PermissionDenied "cannot read org"
  else internal_err (ListOrgMembersWithUsers NoTx (User_OrgID caller)).

(** [s.atlassian.WebhookURL(orgID)] *)
Definition WebhookURL (base : string) (orgID : Z) : string :=
  base +:+ "/webhook/atlassian?org=" +:+ FormatInt orgID.

Definition Server_GetOrgSettings (caller : UserInfo) : M OrgSettings :=
  if negb (Allow (User_Scopes caller) OpOrgRead []) then PermissionDenied "cannot read org"
  else
    org ← internal_err (GetOrg NoTx (User_OrgID caller));
    mret (mkSettings (baseURL +:+ "/mcp") (Org_GitHubInstallationID org)
            (from_option (λ _, Org_AtlassianWebhookSecret org) "" atlassian)
            (from_option (λ base, WebhookURL base (User_OrgID caller)) "" atlassian)
            (from_option AppInstallURL "" github)).

(** [random]: what [rand.Read] fills the 32 bytes with, or its error.  Without
    the integration the method reads a field of a nil pointer. *)
Definition GenerateWebhookSecret (random : string + string) (orgID : Z) : M string :=
  match random with
  | inl err => raise (EOther err)
  | inr b =>
      match atlassian with
      | None => raise nil_pointer
      | Some _ =>
          let secret := EncodeToString b in
          SetOrgAtlassianWebhookSecret NoTx orgID secret ;;
          mret secret
      end
  end.

(** A panic is not an error value: it goes past the handler's own mapping. *)
Definition internal_unless_panic {A} (m : M A) : M A :=
  r ← catch m;
  match r with
  | inl err => if isPanic err then raise err else Internal err
  | inr a => mret a
  end.

Definition Server_GenerateAtlassianWebhookSecret (random : string + string) (caller : UserInfo)
    : M (string * string) :=
  if negb (Allow (User_Scopes caller) OpOrgWrite []) then PermissionDenied "cannot write org"
  else
    secret ← internal_unless_panic (GenerateWebhookSecret random (User_OrgID caller));
    mret (secret, WebhookURL (default "" atlassian) (User_OrgID caller)).

Definition Server_UnlinkGitHubAccount (caller : UserInfo) : M unit :=
  if negb (Allow (User_Scopes caller) OpAccountWrite []) then PermissionDenied "cannot write account"
  else internal_err (StoreUnlinkGitHubAccount NoTx (User_ID caller)).

Definition UnlinkAccount (userID : string) : M unit :=
  match atlassian with
  | None => raise nil_pointer
  | Some _ => StoreUnlinkAtlassianAccount NoTx userID
  end.

Definition Server_UnlinkAtlassianAccount (caller : UserInfo) : M unit :=
  if negb (Allow (User_Scopes caller) OpAccountWrite []) then PermissionDenied "cannot write account"
  else internal_unless_panic (UnlinkAccount (User_ID caller)).

Definition Server_GetRoutingRules (caller : UserInfo) : M (list RoutingRule) :=
  if negb (Allow (User_Scopes caller) OpOrgRead []) then PermissionDenied "cannot read org"
  else internal_err (GetOrgRoutingRules NoTx (User_OrgID caller)).

(** The first rule the registry refuses. *)
Fixpoint invalid_rule (registry : SchemaRegistry) (rules : list RoutingRule) : option string :=
  match rules with
  | [] => None
  | rule :: rest =>
      match Validate registry rule with
      | Some err => Some err
      | None => invalid_rule registry rest
      end
  end.

Definition Server_SetRoutingRules (registry : SchemaRegistry) (caller : UserInfo)
    (rules : list RoutingRule) : M (list RoutingRule) :=
  if negb (Allow (User_Scopes caller) OpOrgWrite []) then PermissionDenied "cannot write org"
  else
    match invalid_rule registry rules with
    | Some err => InvalidArgument err
    | None =>
        internal_err (SetOrgRoutingRules NoTx (User_OrgID caller) rules) ;;
        mret rules
    end.

Definition Server_LinkGitHubInstallation (caller : UserInfo) (installationID : Z) : M unit :=
  if negb (Allow (User_Scopes caller) OpOrgWrite []) then PermissionDenied "cannot write org"
  else if installationID =? 0 then InvalidArgument "installation_id is required"
  else
    match github with
    | None => raise (EConnect CodeFailedPrecondition "GitHub integration is not configured")
    | Some g =>
        user ← internal_err (GetUser NoTx (User_ID caller));
        if negb (HasGitHub user)
        then raise (EConnect CodeFailedPrecondition "link your GitHub account first at /github/login")
        else
          match verifyInstallationAccess (GitHub_api g) installationID user with
          | Some err => raise err
          | None => internal_err (SetOrgGitHubInstallation NoTx (User_OrgID caller) installationID)
          end
    end.

Definition Server_CreateGitHubToken : M unit :=
  raise (EConnect CodeUnimplemented
    "CreateGitHubToken is not implemented on the server; use the runner proxy").

(** ** The profile *)

Record Profile := mkProfile {
  Profile_User : UserInfo; Profile_Account : User; Profile_Orgs : list Org }.

Definition Server_GetProfile (caller : UserInfo) : M Profile :=
  orgs ← internal_err (ListOrgsByMember NoTx (User_ID caller));
  user ← internal_err (GetUser NoTx (User_ID caller));
  mret (mkProfile caller user orgs).

(** ** Keys *)

(** [sha256.Sum256]: the digest's 32 bytes. *)
Context (Sum256 : string → string).

Definition apiKeyPrefix : string := "xat_".

Definition GenerateKey (random : string + string) : string + string :=
  match random with
  | inl err => inl ("generating random bytes: " +:+ err)
  | inr b => inr (apiKeyPrefix +:+ EncodeToString b)
  end.

Definition HashKey (raw : string) : string := EncodeToString (Sum256 raw).
Definition IsKey (token : string) : bool := HasPrefix token apiKeyPrefix.

Definition keys_change (caller : UserInfo) (now : Z) (action : string) : Notification :=
  change caller now [mkResource action "keys" 0] "" TaskStatusUnspecified "".

(** [id]: the new UUID. *)
Definition Server_CreateKey (random : string + string) (id : string) (caller : UserInfo)
    (name : string) (expiresAt : option Z) : M (Key * string) :=
  if negb (Allow (User_Scopes caller) OpKeyCreate []) then PermissionDenied "cannot create key"
  else
    match GenerateKey random with
    | inl err => Internal (EOther err)
    | inr rawKey =>
        let key := mkKey id name (HashKey rawKey) (User_OrgID caller) expiresAt 0 Admin in
        key ← internal_err (StoreCreateKey NoTx key);
        now ← time_Now;
        publish (keys_change caller now "created") ;;
        mret (key, rawKey)
    end.

Definition Server_ListKeys (caller : UserInfo) : M (list Key) :=
  if negb (Allow (User_Scopes caller) OpKeyRead []) then PermissionDenied "cannot list keys"
  else internal_err (StoreListKeys NoTx (User_OrgID caller)).

Definition Server_DeleteKey (caller : UserInfo) (id : string) : M unit :=
  if negb (Allow (User_Scopes caller) OpKeyWrite []) then PermissionDenied "cannot write key"
  else
    internal_err (StoreDeleteKey NoTx id (User_OrgID caller)) ;;
    now ← time_Now;
    publish (keys_change caller now "deleted").

(** ** Sign-in ([storeauth.go]) *)

Definition ValidateKey (keyHash : string) : M UserInfo :=
  key ← GetKeyByHash NoTx keyHash;
  now ← time_Now;
  if IsExpired key now then raise (EOther "key expired")
  else mret (mkUser "" "" (Key_Name key) (Key_OrgID key) AuthTypeKey "" (Key_Scopes key)).

Definition with_default_org (u : User) (orgID : Z) : User :=
  mkUserModel (U_ID u) (U_Email u) (U_Name u) (U_GitHubUserID u) (U_GitHubUsername u)
    (U_AtlassianAccountID u) (U_AtlassianUsername u) orgID (U_CreatedAt u) (U_UpdatedAt u).

Definition Provision (user : UserInfo) : M User :=
  WithTx NoTx (λ tx,
    u ← UpsertUser tx (User_ID user) (User_Email user) (User_Name user);
    u ← (if U_DefaultOrgID u =? 0 then
           org ← CreateOrg tx (User_Name user +:+ "'s Org") (User_ID user);
           StoreAddOrgMember tx (Org_ID org) (User_ID user) "owner" ;;
           UpdateDefaultOrgID tx (User_ID user) (Org_ID org) ;;
           mret (with_default_org u (Org_ID org))
         else mret u);
    Commit tx ;;
    mret u).

Definition ResolveOrg (userID : string) (orgID : Z) : M Z :=
  orgID ← (if orgID =? 0 then
             u ← GetUser NoTx userID;
             if U_DefaultOrgID u =? 0
             then raise (EOther ("user " +:+ userID +:+ " has no default org"))
             else mret (U_DefaultOrgID u)
           else mret orgID);
  ok ← IsOrgMember NoTx orgID userID;
  if negb ok then raise (EOther ("user " +:+ userID +:+ " is not a member of org " +:+ FormatInt orgID))
  else mret orgID.

End handlers.
