(* ===== verification/AccountSpec.v ===== *)
(** * What the account handlers do

    The changes the handlers of [ApiAccounts] make: confined to the caller's
    own orgs, users and keys, and keeping default orgs sound; signing in and
    resolving an org; the life of an API key. *)

From S2P Require Import Prelude AuthScope ScopeParse EventModel TaskModel Links Strconv PubSub.
From S2P Require Import ScheduleModel Rules Store StoreOps StoreLogic StoreAccounts ApiBase Timeline.
From S2P Require Import Evolution ApiAccounts.

(** ** Account changes *)

(** What a change of the accounts made for [user], acting for the org [orgID],
    leaves alone: every other table, other users, orgs the user neither acts
    for nor owns, keys of other orgs; an org that is new is the user's own, only
    an org's owner changes its members or archives it, and default orgs stay
    sound. *)
Record accounts_change (user : string) (orgID : Z) (tb tb' : Tables) : Prop := {
  ac_tables : t_tasks tb' = t_tasks tb ∧ t_events tb' = t_events tb ∧ t_links tb' = t_links tb ∧
    t_schedules tb' = t_schedules tb ∧ t_chunks tb' = t_chunks tb ∧
    t_workspaces tb' = t_workspaces tb;
  ac_users : ∀ id, id ≠ user → t_users tb' !! id = t_users tb !! id;
  ac_orgs : ∀ i o, t_orgs tb !! i = Some o → i ≠ orgID → Org_owner o ≠ user →
    t_orgs tb' !! i = Some o;
  ac_owners : ∀ i o, t_orgs tb !! i = Some o → ∃ o', t_orgs tb' !! i = Some o' ∧
    Org_owner o' = Org_owner o;
  ac_governed : ∀ i o o', t_orgs tb !! i = Some o → t_orgs tb' !! i = Some o' →
    Org_owner o ≠ user → Org_memberships o' = Org_memberships o ∧ Org_archived o' = Org_archived o;
  ac_new_orgs : ∀ i o, t_orgs tb !! i = None → t_orgs tb' !! i = Some o → Org_owner o = user;
  ac_keys : kept KR_org_id (only orgID) (t_keys tb) (t_keys tb');
  ac_defaults : defaults_ok tb → defaults_ok tb';
  ac_default : ∀ id d, default_of tb id = Some d → d ≠ 0 → default_of tb' id = Some d }.

Lemma accounts_refl user orgID tb : accounts_change user orgID tb tb.
Proof. constructor; try done; eauto; [intros; by simplify_eq|]. intros i o. by intros ->. Qed.

Lemma accounts_trans user orgID tb1 tb2 tb3 :
  accounts_change user orgID tb1 tb2 → accounts_change user orgID tb2 tb3 →
  accounts_change user orgID tb1 tb3.
Proof.
  intros [T1 U1 O1 W1 G1 N1 K1 D1 S1] [T2 U2 O2 W2 G2 N2 K2 D2 S2]. constructor; auto.
  - destruct T1 as (? & ? & ? & ? & ? & ?), T2 as (? & ? & ? & ? & ? & ?). repeat split; congruence.
  - intros id Hne. by rewrite U2, U1.
  - intros i o Hi. destruct (W1 i o Hi) as (o2 & Hi2 & Hw2).
    destruct (W2 i o2 Hi2) as (o3 & Hi3 & Hw3). exists o3. by rewrite Hw3.
  - intros i o o3 Hi Hi3 Hne. destruct (W1 i o Hi) as (o2 & Hi2 & Hw2).
    destruct (G1 i o o2) as [<- <-]; [done..|]. apply (G2 i o2 o3); [done..|]. by rewrite Hw2.
  - intros i o Hn Hi. destruct (t_orgs tb2 !! i) as [o2|] eqn:E; [|by eapply N2].
    destruct (W2 i o2 E) as (o3 & Hi3 & Hw3). simplify_eq. rewrite Hw3. by eapply N1.
  - by eapply kept_trans.
Qed.

Lemma accounts_evolves user orgID tb tb' :
  accounts_change user orgID tb tb' → evolves (λ _, True) tb tb'.
Proof.
  intros [(Ht & He & Hl & Hs & Hc & Hw) ? ? ? ? ? ? ? ?].
  constructor; try done; rewrite ?Ht, ?He, ?Hl, ?Hs, ?Hc, ?Hw; try done;
    try by (intros i x H; destruct H).
  - intros i r Hr. exists r. split; [done|]. split; [apply row_evolves_refl|done].
  - intros i r Hn Hr. congruence.
Qed.

(** Changing one org the user owns or acts for, keeping its owner, without
    archiving or unseating the owner of anyone's default org. *)
Lemma accounts_alter_org user orgID tb id f :
  id = orgID ∨ (∃ o, t_orgs tb !! id = Some o ∧ Org_owner o = user) →
  (∀ o, Org_owner (f o) = Org_owner o) →
  (∀ o, t_orgs tb !! id = Some o → Org_owner o = user ∨
     Org_memberships (f o) = Org_memberships o ∧ Org_archived (f o) = Org_archived o) →
  (∀ o, t_orgs tb !! id = Some o → defaults_ok tb →
     (∃ u, default_of tb u = Some id) → Org_archived o = false →
     Org_owner o ∈ Org_members o → Org_archived (f o) = false ∧ Org_owner o ∈ Org_members (f o)) →
  accounts_change user orgID tb (with_orgs (alter f id) tb).
Proof.
  intros Hid Hown Hgov Hf. constructor; try done; simpl.
  - intros i o Hi Hne Hno. rewrite lookup_alter_ne; [done|]. intros <-.
    destruct Hid as [?|(o' & Ho & ?)]; [done|]. by simplify_eq.
  - intros i o Hi. destruct (decide (id = i)) as [->|Hne].
    + rewrite lookup_alter_eq, Hi. simpl. eexists. split; [done|]. apply Hown.
    + rewrite lookup_alter_ne by done. by exists o.
  - intros i o o' Hi [(-> & o2 & Ho & ->)|[_ Ho]]%lookup_alter_Some Hne; simplify_eq; [|done].
    by destruct (Hgov o Hi).
  - intros i o Hn [(-> & o' & Ho & _)|[_ Ho]]%lookup_alter_Some; congruence.
  - intros Hd u r Hu d Hdef. simpl in *. destruct (Hd u r Hu d Hdef) as (Hd0 & o & Ho & Hw & Hm & Ha).
    split; [done|]. destruct (decide (id = d)) as [->|Hne].
    + rewrite lookup_alter_eq, Ho. exists (f o). split; [done|]. rewrite Hown, <- Hw.
      destruct (Hf o) as [? ?]; try done; [|by rewrite Hw].
      exists u. unfold default_of. by rewrite Hu.
    + rewrite lookup_alter_ne by done. by exists o.
Qed.

(** A change that leaves the owner, the members and the archived flag. *)
Lemma accounts_settings user orgID tb f :
  (∀ o, Org_owner (f o) = Org_owner o ∧ Org_memberships (f o) = Org_memberships o ∧
        Org_archived (f o) = Org_archived o) →
  accounts_change user orgID tb (with_orgs (alter f orgID) tb).
Proof.
  intros Hf. apply accounts_alter_org; [by left|intros o; apply Hf|right; apply Hf|].
  intros o _ _ _ Ha Hm. destruct (Hf o) as (_ & Hms & Har). unfold Org_members in *.
  by rewrite Har, Hms.
Qed.

(** A change of the user's own row that keeps its default org. *)
Lemma accounts_alter_user user orgID tb f :
  (∀ r, UR_default_org_id (f r) = UR_default_org_id r) →
  accounts_change user orgID tb (with_users (alter f user) tb).
Proof.
  intros Hf. constructor; try done; simpl; eauto.
  - intros id Hne. by rewrite lookup_alter_ne.
  - intros; by simplify_eq.
  - intros i o. by intros ->.
  - intros Hd id r Hr d Hdef. simpl in Hr.
    apply lookup_alter_Some in Hr as [(-> & r' & Hr & ->)|[_ Hr]]; [|by apply (Hd id r)].
    rewrite Hf in Hdef. by apply (Hd id r').
  - intros id d. unfold default_of. simpl. destruct (decide (user = id)) as [->|Hne].
    + rewrite lookup_alter_eq. destruct (t_users tb !! id); simpl; [|done]. by rewrite Hf.
    + by rewrite lookup_alter_ne.
Qed.

Lemma accounts_keys user orgID tb f :
  kept KR_org_id (only orgID) (t_keys tb) (f (t_keys tb)) →
  accounts_change user orgID tb (with_keys f tb).
Proof.
  intros Hk. constructor; try done; simpl; eauto; [intros; by simplify_eq|].
  intros i o. by intros ->.
Qed.

(** A new org of the user's. *)
Lemma accounts_new_org user orgID tb id o :
  t_orgs tb !! id = None → Org_owner o = user →
  accounts_change user orgID tb (with_orgs <[id := o]> tb).
Proof.
  intros Hn Ho. constructor; try done; simpl.
  - intros i o' Hi _ _. rewrite lookup_insert_ne by congruence. done.
  - intros i o' Hi. rewrite lookup_insert_ne by congruence. eauto.
  - intros i o1 o2 Hi. rewrite lookup_insert_ne by congruence. intros; by simplify_eq.
  - intros i o' Hi [[_ <-]|[_ ?]]%lookup_insert_Some; [done|congruence].
  - intros Hd u r Hu d Hdef. destruct (Hd u r Hu d Hdef) as (? & o' & ? & ?). simpl.
    split; [done|]. exists o'. by rewrite lookup_insert_ne by congruence.
Qed.

Lemma accounts_put_user user orgID tb email name now :
  accounts_change user orgID tb (put_user user email name now tb).
Proof.
  unfold put_user. constructor; try done; simpl; eauto.
  - intros id Hne. by rewrite lookup_insert_ne.
  - intros; by simplify_eq.
  - intros i o. by intros ->.
  - intros Hd id r Hr d Hdef. simpl in Hr. apply lookup_insert_Some in Hr as [[<- <-]|[_ Hr]];
      [|by apply (Hd id r)]. unfold upsert_user in Hdef.
    destruct (t_users tb !! user) as [r|] eqn:E; [|done]. by apply (Hd user r).
  - intros id d. unfold default_of. simpl. destruct (decide (user = id)) as [->|Hne].
    + rewrite lookup_insert_eq. unfold upsert_user. by destruct (t_users tb !! id).
    + by rewrite lookup_insert_ne.
Qed.

(** Giving the user, who has no default org, one that is theirs. *)
Lemma accounts_set_default user orgID tb d o now :
  default 0 (default_of tb user) = 0 → t_orgs tb !! d = Some o →
  Org_owner o = user → user ∈ Org_members o → Org_archived o = false →
  accounts_change user orgID tb (with_users (alter (user_set_default_org (null_int d) now) user) tb).
Proof.
  intros Hno Ho Hw Hm Ha. constructor; try done; simpl; eauto.
  - intros id Hne. by rewrite lookup_alter_ne.
  - intros; by simplify_eq.
  - intros i x. by intros ->.
  - intros Hd id r Hr d' Hdef. simpl in Hr.
    apply lookup_alter_Some in Hr as [(-> & r' & Hr & ->)|[_ Hr]]; [|by apply (Hd id r)].
    simpl in Hdef. unfold null_int in Hdef. destruct (Z.eqb_spec d 0); [done|].
    injection Hdef as <-. split; [done|]. by exists o.
  - intros id d' Hd Hd0. unfold default_of in *. simpl. destruct (decide (user = id)) as [->|Hne].
    + rewrite Hd in Hno. done.
    + by rewrite lookup_alter_ne.
Qed.

(** ** The handlers' changes *)

Definition account_op (user : string) (orgID : Z) {A} (m : M A) : Prop :=
  ∀ w, world_ok w →
    wp m (λ _ w', ∃ tb ns, at_ w tb ns w' ∧ accounts_change user orgID (committed w) tb) w.

Ltac account_step := first [wp_step | wp_write].

Ltac account_op :=
  intros w Hw; pose proof (at_refl w Hw); unfold internal_err, internal_unless_panic, Internal,
    PermissionDenied, InvalidArgument, NotFound in *;
  repeat account_step;
  try solve [eexists _, _; split; [eassumption|apply accounts_refl]].

Section ops.
Context {MJ : MapJSON}.
Context (baseURL : string) (atlassian : option string) (github : option GithubServer).
Context (Sum256 : string → string).

Ltac changed := eexists _, _; split; [eassumption|].

Lemma add_member_owner m o : Org_owner (add_member m o) = Org_owner o.
Proof. unfold add_member. by case_match. Qed.

Lemma add_member_keeps m o u :
  Org_archived (add_member m o) = Org_archived o ∧ (u ∈ Org_members o → u ∈ Org_members (add_member m o)).
Proof.
  unfold add_member. case_match; [done|]. split; [done|]. unfold Org_members. simpl.
  rewrite map_app, elem_of_app. by left.
Qed.

Lemma accounts_add_member user orgID tb id m :
  (∃ o, t_orgs tb !! id = Some o ∧ Org_owner o = user) →
  accounts_change user orgID tb (with_orgs (alter (add_member m) id) tb).
Proof.
  intros (o & Ho & Hw).
  apply accounts_alter_org; [right; by exists o|apply add_member_owner|intros; left; by simplify_eq|].
  clear o Ho Hw.
  intros o _ _ _ Ha Hm. destruct (add_member_keeps m o (Org_owner o)) as [-> Hk]. auto.
Qed.

(** The new org, with its owner as a member. *)
Lemma accounts_create_org user orgID tb q name now :
  tables_ok tb q →
  accounts_change user orgID tb
    (with_orgs (alter (add_member (mkOrgMember user "owner" now)) (q SeqOrgs))
       (with_orgs <[q SeqOrgs := new_org_row name user now]> tb)).
Proof.
  intros Hok.
  apply (accounts_trans _ _ _ (with_orgs <[q SeqOrgs := new_org_row name user now]> tb)).
  - apply accounts_new_org; [|done]. apply fresh_None. apply Hok.
  - apply accounts_add_member. eexists. simpl. rewrite lookup_insert_eq. done.
Qed.

Lemma CreateOrg_account caller name :
  account_op (User_ID caller) (User_OrgID caller) (Server_CreateOrg caller name).
Proof.
  unfold Server_CreateOrg, CreateOrg, StoreAddOrgMember. account_op.
  changed. by apply accounts_create_org.
Qed.

Lemma ListOrgs_account caller :
  account_op (User_ID caller) (User_OrgID caller) (Server_ListOrgs caller).
Proof. unfold Server_ListOrgs, ListOrgsByMember. account_op. Qed.

Lemma DeleteOrg_account caller id :
  account_op (User_ID caller) (User_OrgID caller) (Server_DeleteOrg caller id).
Proof.
  unfold Server_DeleteOrg, GetOrg, GetUser, ArchiveOrg. account_op.
  changed. apply fmap_Some in H as (o & Ho & ->), H0 as (r & Hr & ->). simpl in *.
  apply String.eqb_eq in Heqb0. apply Z.eqb_neq in Heqb1.
  apply accounts_alter_org; [right; by exists o|done|intros; left; by simplify_eq|].
  intros o' Ho' Hd [u Hu] _ _. exfalso. simplify_eq. unfold default_of in Hu.
  destruct (t_users (committed w) !! u) as [r'|] eqn:Hr'; [|done]. simpl in Hu.
  destruct (Hd u r' Hr' id Hu) as (_ & o2 & Ho2 & Hown & _). simplify_eq.
  rewrite Heqb0 in Hr'. simplify_eq. by rewrite Hu in Heqb1.
Qed.

Lemma AddOrgMember_account caller email :
  account_op (User_ID caller) (User_OrgID caller) (Server_AddOrgMember caller email).
Proof.
  unfold Server_AddOrgMember, GetOrg, GetUserByEmail, get_user_by, StoreAddOrgMember. account_op.
  changed. apply fmap_Some in H as (o & Ho & ->). simpl in *.
  apply accounts_add_member. exists o. split; [done|]. by apply String.eqb_eq.
Qed.

Lemma RemoveOrgMember_account caller userID :
  account_op (User_ID caller) (User_OrgID caller) (Server_RemoveOrgMember caller userID).
Proof.
  unfold Server_RemoveOrgMember, GetOrg, StoreRemoveOrgMember. account_op.
  changed. apply fmap_Some in H as (o & Ho & ->). simpl in *.
  apply accounts_alter_org; [by left|done|intros; left; simplify_eq; by apply String.eqb_eq|].
  intros o' Ho' _ _ Ha Hm. simplify_eq.
  split; [done|]. unfold Org_members in *. simpl.
  apply list_elem_of_fmap in Hm as (m & Hm & Hin). rewrite Hm. apply list_elem_of_fmap_2.
  apply list_elem_of_filter. split; [|done]. rewrite <- Hm. intros Heq. rewrite Heq in *.
  by rewrite String.eqb_refl in *.
Qed.

Lemma ListOrgMembers_account caller :
  account_op (User_ID caller) (User_OrgID caller) (Server_ListOrgMembers caller).
Proof. unfold Server_ListOrgMembers, ListOrgMembersWithUsers. account_op. Qed.

Lemma GetOrgSettings_account caller :
  account_op (User_ID caller) (User_OrgID caller)
    (Server_GetOrgSettings baseURL atlassian github caller).
Proof. unfold Server_GetOrgSettings, GetOrg. account_op. Qed.

Lemma GenerateSecret_account random caller :
  account_op (User_ID caller) (User_OrgID caller)
    (Server_GenerateAtlassianWebhookSecret atlassian random caller).
Proof.
  unfold Server_GenerateAtlassianWebhookSecret, GenerateWebhookSecret, SetOrgAtlassianWebhookSecret.
  account_op. changed. by apply accounts_settings.
Qed.

Lemma UnlinkGitHub_account caller :
  account_op (User_ID caller) (User_OrgID caller) (Server_UnlinkGitHubAccount caller).
Proof.
  unfold Server_UnlinkGitHubAccount, StoreUnlinkGitHubAccount. account_op.
  changed. by apply accounts_alter_user.
Qed.

Lemma UnlinkAtlassian_account caller :
  account_op (User_ID caller) (User_OrgID caller) (Server_UnlinkAtlassianAccount atlassian caller).
Proof.
  unfold Server_UnlinkAtlassianAccount, UnlinkAccount, StoreUnlinkAtlassianAccount. account_op.
  changed. by apply accounts_alter_user.
Qed.

Lemma GetRoutingRules_account caller :
  account_op (User_ID caller) (User_OrgID caller) (Server_GetRoutingRules caller).
Proof. unfold Server_GetRoutingRules, GetOrgRoutingRules. account_op. Qed.

Lemma SetRoutingRules_account registry caller rules :
  account_op (User_ID caller) (User_OrgID caller) (Server_SetRoutingRules registry caller rules).
Proof.
  unfold Server_SetRoutingRules, SetOrgRoutingRules. account_op. changed. by apply accounts_settings.
Qed.

Lemma LinkGitHubInstallation_account caller installationID :
  account_op (User_ID caller) (User_OrgID caller)
    (Server_LinkGitHubInstallation github caller installationID).
Proof.
  unfold Server_LinkGitHubInstallation, GetUser, SetOrgGitHubInstallation. account_op.
  changed. by apply accounts_settings.
Qed.

Lemma GetProfile_account caller :
  account_op (User_ID caller) (User_OrgID caller) (Server_GetProfile caller).
Proof. unfold Server_GetProfile, ListOrgsByMember, GetUser. account_op. Qed.

Lemma CreateKey_account random id caller name expiresAt :
  account_op (User_ID caller) (User_OrgID caller)
    (Server_CreateKey Sum256 random id caller name expiresAt).
Proof.
  unfold Server_CreateKey, StoreCreateKey. account_op.
  changed. apply accounts_keys, kept_insert; [done|]. intros y Hy.
  unfold key_check in *. simpl in *. by rewrite Hy in *.
Qed.

Lemma ListKeys_account caller :
  account_op (User_ID caller) (User_OrgID caller) (Server_ListKeys caller).
Proof. unfold Server_ListKeys, StoreListKeys. account_op. Qed.

Lemma DeleteKey_account caller id :
  account_op (User_ID caller) (User_OrgID caller) (Server_DeleteKey caller id).
Proof.
  unfold Server_DeleteKey, StoreDeleteKey. account_op. changed. unfold delete_key.
  destruct (t_keys (committed w) !! id) as [r|] eqn:Hr; [|apply accounts_refl].
  destruct (Z.eqb_spec (KR_org_id r) (User_OrgID caller)); [|apply accounts_refl].
  apply accounts_keys, kept_delete. intros y Hy. by simplify_eq.
Qed.
End ops.

(** ** Sign-in *)

(** A user who signed in: their row, with the default org they were given or
    already had. *)
Definition signed_in (user : UserInfo) (tb : Tables) (u : User) (tb' : Tables) : Prop :=
  (∃ r, t_users tb' !! User_ID user = Some r ∧ UR_email r = User_Email user ∧
        UR_name r = User_Name user ∧ UR_default_org_id r = Some (U_DefaultOrgID u)) ∧
  U_DefaultOrgID u ≠ 0 ∧
  (∀ d, default_of tb (User_ID user) = Some d → d ≠ 0 → U_DefaultOrgID u = d).

Lemma put_user_row id email name now tb :
  ∃ r, t_users (put_user id email name now tb) !! id = Some r ∧ UR_email r = email ∧
       UR_name r = name ∧ UR_default_org_id r = default_of tb id.
Proof.
  eexists. split; [apply lookup_insert_eq|]. unfold upsert_user, default_of.
  by destruct (t_users tb !! id).
Qed.

Definition Provision_err (user : UserInfo) (tb : Tables) (e : Err) : Prop :=
  e = unique_error ∧ email_taken tb (User_ID user) (User_Email user) = true.

(** The default org of a first sign-in, and what it leaves. *)
Definition given_org (id name : string) (now d : Z) (tb : Tables) : Tables :=
  with_users (alter (user_set_default_org (null_int d) now) id)
    (with_orgs (alter (add_member (mkOrgMember id "owner" now)) d)
       (with_orgs <[d := new_org_row name id now]> tb)).

Lemma fk_org_new tb d o : fk_org (with_orgs <[d := o]> tb) d = true.
Proof. unfold fk_org. apply bool_decide_eq_true. simpl. by rewrite lookup_insert_eq. Qed.

Lemma given_org_change id orgID name now q tb :
  tables_ok tb q → default 0 (default_of tb id) = 0 →
  accounts_change id orgID tb (given_org id name now (q SeqOrgs) tb).
Proof.
  intros Hok Hno. eapply accounts_trans; [by apply accounts_create_org|].
  eapply accounts_set_default; [exact Hno| | | |].
  - simpl. rewrite lookup_alter_eq, lookup_insert_eq. done.
  - apply add_member_owner.
  - by left.
  - done.
Qed.

Lemma given_org_row id name now d tb r :
  0 < d → t_users tb !! id = Some r →
  t_users (given_org id name now d tb) !! id = Some (user_set_default_org (Some d) now r).
Proof.
  intros Hd Hr. simpl. rewrite lookup_alter_eq, Hr. simpl. unfold null_int.
  by destruct (Z.eqb_spec d 0); [lia|].
Qed.

Lemma Provision_spec orgID user :
  HandlerSpec (Provision user)
    (λ now tb u tb' ns, accounts_change (User_ID user) orgID tb tb' ∧ signed_in user tb u tb' ∧ ns = [])
    (Provision_err user).
Proof.
  intros w Hw. pose proof (at_refl w Hw). unfold Provision, CreateOrg, StoreAddOrgMember, UpdateDefaultOrgID.
  wp; try solve [wp_err].
  eapply wp_UpsertUser; [exact H0| | |]; clear H0;
    [by intros; wp; wp_err|intros; wp; wp_err; by split|].
  destruct (put_user_row (User_ID user) (User_Email user) (User_Name user) (clock w) (committed w))
    as (r & Hr & He & Hn & Hdef).
  pose proof (accounts_put_user (User_ID user) orgID (committed w) (User_Email user) (User_Name user)
    (clock w)) as Hput.
  set (tb1 := put_user _ _ _ _ _) in *. intros u w2 (Hid & _ & _ & Hu) Hin.
  fold (default_of (committed w) (User_ID user)) in Hu.
  assert (Hfk : fk_user tb1 (User_ID user) = true) by by eapply fk_user_Some.
  assert (Hd1 : default_of tb1 (User_ID user) = default_of (committed w) (User_ID user)).
  { unfold default_of at 1. rewrite Hr. exact Hdef. }
  clearbody tb1. repeat account_step; try solve [wp_err]; cbn [Org_ID] in *.
  - congruence.
  - exfalso. match goal with H : _ = Some _ |- _ => revert H end.
    rewrite fk_org_new. change (fk_user (with_orgs _ tb1)) with (fk_user tb1). by rewrite Hfk.
  - exfalso. match goal with H : (if fk_user ?t _ && _ then _ else _) = _ |- _ =>
      revert H; change (fk_user t) with (fk_user tb1) end.
    rewrite Hfk. unfold null_int. destruct (s SeqOrgs =? 0); unfold from_option; [done|].
    rewrite fk_org_alter, fk_org_new. done.
  - apply Z.eqb_eq in Heqb. rewrite Heqb in Hu.
    match goal with H : tables_ok tb1 _ |- _ => rename H into Hok end.
    pose proof (seq_orgs _ _ Hok) as Hpos. eexists _, _. split; [eassumption|]. split; [|split; [|done]].
    + eapply accounts_trans; [exact Hput|]. apply given_org_change; [done|]. by rewrite Hd1.
    + split; [|split; [simpl; lia|]].
      * eexists. split; [by apply (given_org_row _ (User_Name user +:+ "'s Org") _ _ _ _ Hpos Hr)|]. done.
      * intros d Hd Hd0. rewrite Hd in Hu. done.
  - apply Z.eqb_neq in Heqb. eexists _, _. split; [eassumption|]. split; [done|]. split; [|done].
    destruct (default_of (committed w) (User_ID user)) as [d|] eqn:Hd; [|done]. simpl in Hu.
    split; [|split; [done|]].
    + exists r. split; [done|]. rewrite Hdef, Hu. done.
    + intros d' Hd' _. congruence.
Qed.

(** The org a token is asked for: the one named, or the user's default. *)
Definition asked_org (tb : Tables) (userID : string) (orgID : Z) : Z :=
  if orgID =? 0 then default 0 (default_of tb userID) else orgID.

Definition ResolveOrg_ok (userID : string) (orgID : Z) (tb : Tables) (o : Z) : Prop :=
  o = asked_org tb userID orgID ∧ o ≠ 0 ∧ is_org_member tb o userID = true.

Lemma ResolveOrg_spec userID orgID w :
  world_ok w →
  wp (ResolveOrg userID orgID) (λ r w', at_ w (committed w) [] w' ∧
    match r with
    | inr o => ResolveOrg_ok userID orgID (committed w) o
    | inl _ => healthy w → ¬ ∃ o, ResolveOrg_ok userID orgID (committed w) o
    end) w.
Proof.
  intros Hw. pose proof (at_refl w Hw). unfold ResolveOrg, GetUser, IsOrgMember, ResolveOrg_ok, asked_org.
  assert (Hdef : ∀ u, toModelUser <$> t_users (committed w) !! userID = Some u →
    default 0 (default_of (committed w) userID) = U_DefaultOrgID u).
  { intros u (r & Hr & ->)%fmap_Some. unfold default_of. by rewrite Hr. }
  repeat wp_step; (split; [eassumption|]); try (intros Hh; contradiction); rewrite ?Z.eqb_eq, ?Z.eqb_neq in *.
  - intros _ (o & -> & Hne & _). revert Hne. unfold default_of.
    by destruct (t_users (committed w) !! userID).
  - intros _ (o & -> & Hne & _). apply Hdef in H. lia.
  - apply Hdef in H. rewrite H. done.
  - intros _ (o & -> & _ & Hm). apply Hdef in H. rewrite H in Hm. congruence.
  - done.
  - intros _ (o & -> & _ & Hm). congruence.
Qed.

(** ** Keys *)

Section key_spec.
Context {MJ : MapJSON}.
Context (Sum256 : string → string).

Lemma key_by_hash_row tb q id r :
  tables_ok tb q → t_keys tb !! id = Some r → key_by_hash tb (KR_token_hash r) = Some r.
Proof.
  intros Hok Hr. unfold key_by_hash.
  assert (Hin : r ∈ filter (λ r', KR_token_hash r' = KR_token_hash r) (map snd (map_to_list (t_keys tb)))).
  { apply list_elem_of_filter. split; [done|]. apply list_elem_of_fmap. exists (id, r).
    split; [done|]. by apply elem_of_map_to_list. }
  destruct (filter _ _) as [|x l] eqn:E; [by apply elem_of_nil in Hin|]. simpl. f_equal.
  assert (Hx : x ∈ filter (λ r', KR_token_hash r' = KR_token_hash r) (map snd (map_to_list (t_keys tb)))).
  { rewrite E. by left. }
  apply list_elem_of_filter in Hx as [Hh Hx]. apply list_elem_of_fmap in Hx as ([j y] & -> & Hj).
  apply elem_of_map_to_list in Hj. simpl in *.
  assert (j = id) as ->.
  { apply (unique_hashes _ _ Hok j id y r (KR_token_hash r)); simpl; congruence. }
  congruence.
Qed.

Lemma key_by_hash_inv tb hash r :
  key_by_hash tb hash = Some r → KR_token_hash r = hash ∧ ∃ id, t_keys tb !! id = Some r.
Proof.
  unfold key_by_hash. intros H.
  assert (Hin : r ∈ filter (λ r', KR_token_hash r' = hash) (map snd (map_to_list (t_keys tb)))).
  { destruct (filter _ _); [done|]. injection H as ->. by left. }
  apply list_elem_of_filter in Hin as [Hh Hin]. split; [done|].
  apply list_elem_of_fmap in Hin as ([id y] & -> & Hin). exists id. by apply elem_of_map_to_list in Hin.
Qed.

(** The caller a key's hash stands for, while the key has not expired. *)
Definition key_user (tb : Tables) (now : Z) (hash : string) : Err + UserInfo :=
  match key_by_hash tb hash with
  | None => inl ENoRows
  | Some r =>
      if IsExpired (toModelKey r) now then inl (EOther "key expired")
      else inr (mkUser "" "" (KR_name r) (KR_org_id r) AuthTypeKey "" (parseScopes (KR_scopes r)))
  end.

Lemma ValidateKey_run hash w :
  world_ok w →
  wp (ValidateKey hash) (λ r w', at_ w (committed w) [] w' ∧
    ((∃ msg, ¬ healthy w ∧ r = inl (EOther msg)) ∨ r = key_user (committed w) (clock w) hash)) w.
Proof.
  intros Hw. pose proof (at_refl w Hw). unfold ValidateKey, GetKeyByHash, key_user.
  repeat wp_step; (split; [eassumption|]); try (left; by eexists); right.
  - by apply fmap_None in H as ->.
  - apply fmap_Some in H as (r & -> & ->). by rewrite Heqb.
  - apply fmap_Some in H as (r & -> & ->). by rewrite Heqb.
Qed.

Definition created_key (caller : UserInfo) (id name raw : string) (expiresAt : option Z) (now : Z) : Key :=
  mkKey id name (HashKey Sum256 raw) (User_OrgID caller) expiresAt now Admin.

Definition CreateKey_ok (random : string + string) (id : string) (caller : UserInfo) (name : string)
    (expiresAt : option Z) (now : Z) (tb : Tables) (r : Key * string) (tb' : Tables)
    (ns : list Notification) : Prop :=
  GenerateKey random = inr (snd r) ∧ fst r = created_key caller id name (snd r) expiresAt now ∧
  key_check (fst r) tb = None ∧ tb' = with_keys <[id := keyRow (fst r) now]> tb ∧
  ns = [keys_change caller now "created"].

Definition CreateKey_err (random : string + string) (id : string) (caller : UserInfo) (name : string)
    (expiresAt : option Z) (tb : Tables) (e : Err) : Prop :=
  (Allow (User_Scopes caller) OpKeyCreate [] = false ∧ CodeOf e = CodePermissionDenied) ∨
  (∃ msg, random = inl msg ∧ CodeOf e = CodeInternal) ∨
  (∃ raw, GenerateKey random = inr raw ∧
     key_check (created_key caller id name raw expiresAt 0) tb ≠ None ∧ CodeOf e = CodeInternal).

Lemma CreateKey_spec random id caller name expiresAt :
  HandlerSpec (Server_CreateKey Sum256 random id caller name expiresAt)
    (CreateKey_ok random id caller name expiresAt) (CreateKey_err random id caller name expiresAt).
Proof.
  intros w Hw. pose proof (at_refl w Hw).
  unfold Server_CreateKey, StoreCreateKey, internal_err, Internal, PermissionDenied, CreateKey_err.
  repeat account_step; wp_err.
  - right. left. unfold GenerateKey in *. destruct random as [msg|]; [|done]. by exists msg.
  - right. right. exists s. split; [done|]. split; [|done].
    change (key_check (created_key caller id name s expiresAt 0) (committed w) ≠ None).
    match goal with H : key_check _ _ = Some _ |- _ => intros Hn; revert H end.
    unfold created_key in Hn. by rewrite Hn.
  - eexists _, _. split; [eassumption|]. by split; [|split; [|split]].
  - by left.
Qed.
End key_spec.

(** ** Deleting keys *)

Lemma DeleteKey_spec caller id :
  HandlerSpec (Server_DeleteKey caller id)
    (λ now tb _ tb' ns, tb' = delete_key id (User_OrgID caller) tb ∧ ns = [keys_change caller now "deleted"])
    (λ _ e, Allow (User_Scopes caller) OpKeyWrite [] = false ∧ CodeOf e = CodePermissionDenied).
Proof.
  intros w Hw. pose proof (at_refl w Hw).
  unfold Server_DeleteKey, StoreDeleteKey, internal_err, Internal, PermissionDenied.
  repeat account_step; wp_err; [by eexists _, _|done].
Qed.

(** ** Requests *)

(** One constructor per handler; the random bytes and the new key's id are part
    of the request. *)
Inductive AccountRequest :=
| ReqCreateOrg (name : string)
| ReqListOrgs
| ReqDeleteOrg (id : Z)
| ReqAddOrgMember (email : string)
| ReqRemoveOrgMember (userID : string)
| ReqListOrgMembers
| ReqGetOrgSettings
| ReqGenerateWebhookSecret (random : string + string)
| ReqUnlinkGitHub
| ReqUnlinkAtlassian
| ReqGetRoutingRules
| ReqSetRoutingRules (rules : list RoutingRule)
| ReqLinkInstallation (installationID : Z)
| ReqGetProfile
| ReqCreateKey (random : string + string) (id name : string) (expiresAt : option Z)
| ReqListKeys
| ReqDeleteKey (id : string).

Section serve.
Context {MJ : MapJSON}.
Context (baseURL : string) (atlassian : option string) (github : option GithubServer).
Context (Sum256 : string → string) (registry : SchemaRegistry).

Definition serve_account (caller : UserInfo) (r : AccountRequest) : M unit :=
  match r with
  | ReqCreateOrg name => ignore (Server_CreateOrg caller name)
  | ReqListOrgs => ignore (Server_ListOrgs caller)
  | ReqDeleteOrg id => Server_DeleteOrg caller id
  | ReqAddOrgMember email => ignore (Server_AddOrgMember caller email)
  | ReqRemoveOrgMember userID => Server_RemoveOrgMember caller userID
  | ReqListOrgMembers => ignore (Server_ListOrgMembers caller)
  | ReqGetOrgSettings => ignore (Server_GetOrgSettings baseURL atlassian github caller)
  | ReqGenerateWebhookSecret random =>
      ignore (Server_GenerateAtlassianWebhookSecret atlassian random caller)
  | ReqUnlinkGitHub => Server_UnlinkGitHubAccount caller
  | ReqUnlinkAtlassian => Server_UnlinkAtlassianAccount atlassian caller
  | ReqGetRoutingRules => ignore (Server_GetRoutingRules caller)
  | ReqSetRoutingRules rules => ignore (Server_SetRoutingRules registry caller rules)
  | ReqLinkInstallation id => Server_LinkGitHubInstallation github caller id
  | ReqGetProfile => ignore (Server_GetProfile caller)
  | ReqCreateKey random id name expiresAt =>
      ignore (Server_CreateKey Sum256 random id caller name expiresAt)
  | ReqListKeys => ignore (Server_ListKeys caller)
  | ReqDeleteKey id => Server_DeleteKey caller id
  end.

Lemma ignore_account {A} user orgID (m : M A) : account_op user orgID m → account_op user orgID (ignore m).
Proof.
  intros Hm w Hw. unfold ignore. apply wp_bind. eapply wp_mono; [by apply Hm|].
  by intros [e|a] w' H.
Qed.

#[local] Hint Resolve CreateOrg_account ListOrgs_account DeleteOrg_account AddOrgMember_account
  RemoveOrgMember_account ListOrgMembers_account GetOrgSettings_account GenerateSecret_account
  UnlinkGitHub_account UnlinkAtlassian_account GetRoutingRules_account SetRoutingRules_account
  LinkGitHubInstallation_account GetProfile_account CreateKey_account ListKeys_account
  DeleteKey_account : gritz.

Lemma serve_account_change caller r :
  account_op (User_ID caller) (User_OrgID caller) (serve_account caller r).
Proof. destruct r; simpl; try apply ignore_account; auto with gritz. Qed.

(** C4: tenancy of the account API.  Whatever such a request does, and whether
    or not it succeeds, it touches no task, event, link, schedule, log chunk or
    workspace; no user but the caller; no key of another org; and no org that
    the caller neither acts for nor owns.  An org is never lost or handed to
    another owner, a new one is the caller's, and only an org's owner changes
    its members or archives it. *)
Theorem account_request_confined (caller : UserInfo) (r : AccountRequest) (w w' : World)
    (res : Err + unit) :
  world_ok w → serve_account caller r w = (res, w') →
  world_ok w' ∧
  (t_tasks (committed w') = t_tasks (committed w) ∧ t_events (committed w') = t_events (committed w) ∧
   t_links (committed w') = t_links (committed w) ∧
   t_schedules (committed w') = t_schedules (committed w) ∧
   t_chunks (committed w') = t_chunks (committed w) ∧
   t_workspaces (committed w') = t_workspaces (committed w)) ∧
  (∀ id, id ≠ User_ID caller → t_users (committed w') !! id = t_users (committed w) !! id) ∧
  (∀ i x, KR_org_id x ≠ User_OrgID caller →
     t_keys (committed w) !! i = Some x ↔ t_keys (committed w') !! i = Some x) ∧
  (∀ i o, t_orgs (committed w) !! i = Some o → ∃ o', t_orgs (committed w') !! i = Some o' ∧
     Org_owner o' = Org_owner o ∧
     (i ≠ User_OrgID caller → Org_owner o ≠ User_ID caller → o' = o) ∧
     (Org_owner o ≠ User_ID caller →
        Org_memberships o' = Org_memberships o ∧ Org_archived o' = Org_archived o)) ∧
  (∀ i o, t_orgs (committed w) !! i = None → t_orgs (committed w') !! i = Some o →
     Org_owner o = User_ID caller).
Proof.
  intros Hw Hrun. pose proof (serve_account_change caller r w Hw) as Hch. unfold wp in Hch.
  rewrite Hrun in Hch. destruct Hch as (tb & ns & Hat & Hch).
  rewrite (at_committed _ _ _ _ Hat). split; [by eapply at_world_ok|].
  split; [apply Hch|split; [apply Hch|split; [apply Hch|split; [|apply Hch]]]].
  intros i o Ho. destruct (ac_owners _ _ _ _ Hch i o Ho) as (o' & Ho' & Hown).
  exists o'. split; [done|]. split; [done|]. split.
  - intros Hi Hne. pose proof (ac_orgs _ _ _ _ Hch i o Ho Hi Hne). congruence.
  - by apply (ac_governed _ _ _ _ Hch i).
Qed.
End serve.

(** Without the Atlassian integration, unlinking an account dereferences a nil
    pointer instead of refusing. *)
Lemma Unlink_without_integration caller w :
  Allow (User_Scopes caller) OpAccountWrite [] = true →
  Server_UnlinkAtlassianAccount None caller w = (inl nil_pointer, w).
Proof. intros H. unfold Server_UnlinkAtlassianAccount. by rewrite H. Qed.

(** ** A concrete team: [u1] owns org 3, [u2] is a member and has an admin's
    scopes there. *)

Definition team : Tables :=
  mkTables ∅ ∅ ∅ ∅ ∅ ∅ {[3 := org_of ["u1"; "u2"] []]} (users_of ["u1"; "u2"]) ∅.
Definition team_world : World := mkWorld team None (λ _, 8) [] [] 1000.
Definition team_member : UserInfo := mkUser "u2" "u2@x" "V" 3 "app" "tab" Admin.

Lemma team_ok : world_ok team_world.
Proof. apply world_okb_ok. vm_compute. reflexivity. Qed.

Definition team_serve : UserInfo → AccountRequest → M unit :=
  serve_account "https://x" None None (λ s, s) NewSchemaRegistry.

(** Only the owner removes members, whatever scopes the caller has. *)
Lemma account_request_confined_witness :
  let w' := final (team_serve team_member (ReqRemoveOrgMember "u1")) team_world in
  ∃ o', t_orgs (committed w') !! 3 = Some o' ∧
    Org_memberships o' = Org_memberships (org_of ["u1"; "u2"] []).
Proof.
  intros w'.
  destruct (account_request_confined "https://x" None None (λ s, s) NewSchemaRegistry
    team_member (ReqRemoveOrgMember "u1") team_world w'
    (fst (team_serve team_member (ReqRemoveOrgMember "u1") team_world)) team_ok)
    as (_ & _ & _ & _ & H & _); [apply surjective_pairing|].
  destruct (H 3 (org_of ["u1"; "u2"] [])) as (o' & Ho' & _ & _ & Hg); [reflexivity|].
  exists o'. split; [exact Ho'|]. apply Hg. vm_compute. discriminate.
Defined.
