(* ===== verification/ApiTaskSpec.v ===== *)
(** * What the task API does

    The specifications of the handlers of [ApiTask]: the effect of each on the
    tables and the notifications, on every branch, under any faults of the
    database. *)

From S2P Require Import Prelude AuthScope EventModel TaskModel Links PubSub ScheduleModel Rules.
From S2P Require Import Store StoreOps StoreLogic ApiBase Timeline ShellServer ApiTask.

(** ** The four transitions *)

(** The shape the transactional handlers share. *)
Definition mutateTask (step : Task → bool * Task) (kind : LifecycleKind)
    (refuse : TaskStatus → string) (action : string) (message : Task → string)
    (caller : UserInfo) (id : Z) : M unit :=
  if negb (AllowOp (User_Scopes caller) OpTaskWrite) then PermissionDenied "cannot write task"
  else
    now ← time_Now;
    r ← catch (WithTx NoTx (λ tx,
      task ← GetTaskForUpdate tx id (User_OrgID caller);
      if negb (Allow (User_Scopes caller) OpTaskWrite (ScopeAttr task))
      then PermissionDenied "cannot write task"
      else
        let from := Task_Status task in
        let (ok, task') := step task in
        if negb ok then raise (EOther (refuse from))
        else
          UpdateTask tx task' ;;
          CreateEvent tx (user_lifecycle caller kind task' (Label from) []) ;;
          Commit tx ;;
          mret (change caller now (task_resources action (Task_ID task'))
                  (PendingRunner task') TaskStatusUnspecified (message task'))));
    match r with
    | inl err => raise (txError (taskNotFound id) err)
    | inr notification => publish notification
    end.

(** A transition commits the task it computes and the lifecycle event, and
    publishes one notification. *)
Definition transition_ok (step : Task → bool * Task) (kind : LifecycleKind) (action : string)
    (message : Task → string) (caller : UserInfo) (id : Z)
    (now : Z) (tb : Tables) (_ : unit) (tb' : Tables) (ns : list Notification) : Prop :=
  ∃ row task',
    select_task tb id (User_OrgID caller) = Some row ∧
    Allow (User_Scopes caller) OpTaskWrite (ScopeAttr (toModelTask row)) = true ∧
    step (toModelTask row) = (true, task') ∧
    add_events now [user_lifecycle caller kind task' (Label (Task_Status (toModelTask row))) []]
      (put_task task' now tb) tb' ∧
    ns = [change caller now (task_resources action (Task_ID task')) (PendingRunner task')
            TaskStatusUnspecified (message task')].

(** It is refused for a missing permission, a task the caller's org does not
    have, or a task the transition does not apply to. *)
Definition transition_err (step : Task → bool * Task) (caller : UserInfo) (id : Z)
    (tb : Tables) (e : Err) : Prop :=
  match AllowOp (User_Scopes caller) OpTaskWrite, select_task tb id (User_OrgID caller) with
  | false, _ => CodeOf e = CodePermissionDenied
  | true, None => CodeOf e = CodeNotFound
  | true, Some row =>
      (Allow (User_Scopes caller) OpTaskWrite (ScopeAttr (toModelTask row)) = false ∧
         CodeOf e = CodePermissionDenied) ∨
      (Allow (User_Scopes caller) OpTaskWrite (ScopeAttr (toModelTask row)) = true ∧
         fst (step (toModelTask row)) = false ∧ CodeOf e = CodeInternal)
  end.

(** Transitions keep the identity of the task. *)
Definition keeps_identity (step : Task → bool * Task) : Prop :=
  ∀ t, Task_ID (snd (step t)) = Task_ID t ∧ Task_OrgID (snd (step t)) = Task_OrgID t.

Lemma put_task_fk t now tb id : fk_task tb id = true → fk_task (put_task t now tb) id = true.
Proof. intros H. unfold put_task. case_match; [by apply fk_task_insert|done]. Qed.

Lemma put_task_fk_org t now tb id : fk_org (put_task t now tb) id = fk_org tb id.
Proof. unfold put_task. by case_match. Qed.

(** The foreign keys of an event of a task that was just read and updated. *)
Lemma mutate_fk step tb q id orgID row task' now :
  keeps_identity step → tables_ok tb q → select_task tb id orgID = Some row →
  step (toModelTask row) = (true, task') →
  fk_task (put_task task' now tb) (Task_ID task') &&
  fk_org (put_task task' now tb) (Task_OrgID task') = true.
Proof.
  intros Hk Hok Hsel Hs. destruct (Hk (toModelTask row)) as [Hid Horg]. rewrite Hs in Hid, Horg.
  simpl in Hid, Horg. destruct (select_task_ok _ _ _ _ _ Hok Hsel) as (Hi & Ho & Hft & Hfo).
  rewrite put_task_fk_org, Hid, Horg, Hi, Ho, put_task_fk by done. done.
Qed.

Lemma mutateTask_spec step kind refuse action message caller id :
  keeps_identity step →
  HandlerSpec (mutateTask step kind refuse action message caller id)
    (transition_ok step kind action message caller id) (transition_err step caller id).
Proof.
  intros Hk w Hw. pose proof (at_refl w Hw) as Hat. unfold mutateTask. wps; wp_err;
    unfold transition_err.
  - by rewrite Heqb, H0.
  - exfalso. simpl in H1. rewrite (mutate_fk step (committed w) (seqs w) id (User_OrgID caller) r)
      in H1; try done. apply Hw.
  - do 2 eexists. split; [exact H|]. exists r, t.
    split; [done|]. split; [done|]. split; [done|]. split; [by apply add_one|done].
  - rewrite Heqb, H0, Heqp. by right.
  - rewrite Heqb, H0. by left.
  - by rewrite Heqb.
Qed.

(** The four handlers are instances of the shape. *)
Lemma keeps_Archive : keeps_identity Archive.
Proof. intros t. unfold Archive. by case_match. Qed.
Lemma keeps_Unarchive : keeps_identity Unarchive.
Proof. intros t. unfold Unarchive. by case_match. Qed.
Lemma keeps_Cancel : keeps_identity Cancel.
Proof. intros t. unfold Cancel. by repeat case_match. Qed.
Lemma keeps_Restart : keeps_identity Restart.
Proof. intros t. unfold Restart. by repeat case_match. Qed.
Lemma keeps_Start : keeps_identity Start.
Proof. intros t. unfold Start. by repeat case_match. Qed.

#[export] Hint Resolve keeps_Archive keeps_Unarchive keeps_Cancel keeps_Restart keeps_Start : gritz.

Definition archived_message (t : Task) : string :=
  "Task " +:+ FormatInt (Task_ID t) +:+ " archived.".
Definition cancelled_message (t : Task) : string :=
  if bool_decide (Task_Status t = TaskStatusCancelled)
  then "Task " +:+ FormatInt (Task_ID t) +:+ " cancelled." else "".
Definition restarted_message (t : Task) : string :=
  "Task " +:+ FormatInt (Task_ID t) +:+ " restart requested.".

Lemma ArchiveTask_spec caller id :
  HandlerSpec (Server_ArchiveTask caller id)
    (transition_ok Archive LifecycleKindArchived "archived" archived_message caller id)
    (transition_err Archive caller id).
Proof.
  exact (mutateTask_spec Archive LifecycleKindArchived
    (λ s, "cannot archive task with status " +:+ TaskStatus_String s) "archived"
    archived_message caller id keeps_Archive).
Qed.

Lemma UnarchiveTask_spec caller id :
  HandlerSpec (Server_UnarchiveTask caller id)
    (transition_ok Unarchive LifecycleKindUnarchived "unarchived" (λ _, "") caller id)
    (transition_err Unarchive caller id).
Proof.
  exact (mutateTask_spec Unarchive LifecycleKindUnarchived
    (λ _, "cannot unarchive task: not archived") "unarchived" (λ _, "") caller id
    keeps_Unarchive).
Qed.

Lemma CancelTask_spec caller id :
  HandlerSpec (Server_CancelTask caller id)
    (transition_ok Cancel LifecycleKindCancelled "cancelled" cancelled_message caller id)
    (transition_err Cancel caller id).
Proof.
  exact (mutateTask_spec Cancel LifecycleKindCancelled
    (λ s, "cannot cancel task with status " +:+ TaskStatus_String s) "cancelled"
    cancelled_message caller id keeps_Cancel).
Qed.

Lemma RestartTask_spec caller id :
  HandlerSpec (Server_RestartTask caller id)
    (transition_ok Restart LifecycleKindRestarted "restarted" restarted_message caller id)
    (transition_err Restart caller id).
Proof.
  exact (mutateTask_spec Restart LifecycleKindRestarted
    (λ s, "cannot restart task with status " +:+ TaskStatus_String s) "restarted"
    restarted_message caller id keeps_Restart).
Qed.

(** ** Creating *)

Definition create_ok (caller : UserInfo) (req : CreateTaskRequest)
    (now : Z) (tb : Tables) (task : Task) (tb' : Tables) (ns : list Notification) : Prop :=
  ∃ id,
    may_create caller (CT_Workspace req) (CT_Runner req) = true ∧
    has_workspace tb (CT_Runner req) (CT_Workspace req) (User_OrgID caller) = true ∧
    (∀ i, is_Some (t_tasks tb !! i) → i < id) ∧
    task = set_Times now now (set_ID id (new_task caller req)) ∧
    add_events now
      (user_lifecycle caller LifecycleKindCreated task "" []
       :: map (instruction_event task true) (CT_Instructions req))
      (with_tasks <[id := taskRow id now now (new_task caller req)]> tb) tb' ∧
    ns = [change caller now (task_resources "created" id) (PendingRunner task)
            TaskStatusUnspecified (created_message task)].

Definition create_err (caller : UserInfo) (workspace runner : string) (tb : Tables) (e : Err)
    : Prop :=
  (may_create caller workspace runner = false ∧ CodeOf e = CodePermissionDenied) ∨
  (may_create caller workspace runner = true ∧
   has_workspace tb runner workspace (User_OrgID caller) = false ∧ CodeOf e = CodeNotFound).

Lemma has_workspace_fk tb q runner name orgID :
  tables_ok tb q → has_workspace tb runner name orgID = true → fk_org tb orgID = true.
Proof.
  intros Hok. unfold has_workspace. rewrite existsb_exists. intros (ws & Hin & Hws).
  apply list_elem_of_In, elem_of_rows in Hin as [i Hi].
  apply andb_true_iff in Hws as [_ <-%Z.eqb_eq]. by apply (workspace_rows _ _ Hok) in Hi as [].
Qed.

Lemma new_task_org caller req : Task_OrgID (new_task caller req) = User_OrgID caller.
Proof. unfold new_task. by destruct (CT_Draft req), (CT_AutoArchive req). Qed.

Lemma fk_task_new tb id r : fk_task (with_tasks <[id := r]> tb) id = true.
Proof. unfold fk_task. apply bool_decide_eq_true. simpl. by rewrite lookup_insert_eq. Qed.

Lemma CreateTask_spec caller req :
  HandlerSpec (Server_CreateTask caller req) (create_ok caller req)
    (create_err caller (CT_Workspace req) (CT_Runner req)).
Proof.
  intros w Hw. pose proof (at_refl w Hw) as Hat.
  assert (Hfk : has_workspace (committed w) (CT_Runner req) (CT_Workspace req)
                  (User_OrgID caller) = true →
                fk_org (committed w) (Task_OrgID (new_task caller req)) = true).
  { rewrite new_task_org. eapply has_workspace_fk, Hw. }
  unfold Server_CreateTask, HasWorkspace, CreateTask. wps; wp_err.
  - rewrite Hfk in H by done. done.
  - exfalso. rewrite fk_task_new in H0. simpl in H0.
    unfold fk_org in H0, H. simpl in H0. by rewrite H in H0.
  - eapply wp_CreateEvents; [done| | |].
    + apply Forall_forall. intros inst _. unfold fk_task, fk_org. simpl.
      unfold fk_org in H. rewrite H, andb_true_r. apply (fk_task_new (committed w)).
    + intros ? w1 Hn Hs. wps; wp_err.
    + intros tb1 w1 Hadd Hin. wps; wp_err. do 2 eexists. split; [eassumption|].
      exists (s SeqTasks). split; [done|]. split; [done|].
      split; [by apply ids_tasks|]. split; [done|]. split; [|done].
      eapply add_cons; [|done]. done.
  - by right.
  - by left.
Qed.

(** ** Updating *)

(** The task an update computes from the stored one. *)
Definition updated_task (req : UpdateTaskRequest) (t : Task) : Task :=
  let t := if negb (String.eqb (UT_Name req) "") then set_Name (UT_Name req) t else t in
  let t := if UT_Start req then snd (Start t) else t in
  match UT_AutoArchive req with Some d => set_AutoArchive d t | None => t end.

Definition update_ok (caller : UserInfo) (req : UpdateTaskRequest)
    (now : Z) (tb : Tables) (_ : unit) (tb' : Tables) (ns : list Notification) : Prop :=
  ∃ row tb1, let t := toModelTask row in let t' := updated_task req t in
    select_task tb (UT_Id req) (User_OrgID caller) = Some row ∧
    Allow (User_Scopes caller) OpTaskWrite (ScopeAttr t) = true ∧
    add_events now
      (map (instruction_event t (UT_Start req && CanStart t)) (UT_AddInstructions req)) tb tb1 ∧
    add_events now
      [user_lifecycle caller LifecycleKindUpdated t' (Label (Task_Status t)) (changed_fields req)]
      (put_task t' now tb1) tb' ∧
    ns = [change caller now (task_resources "updated" (Task_ID t')) (PendingRunner t')
            TaskStatusUnspecified
            (if UT_Start req
             then "Task " +:+ FormatInt (Task_ID t') +:+ " queued: "
                    +:+ Join (changed_fields req) ", " +:+ "."
             else "")].

Definition read_task_err (caller : UserInfo) (op : list string) (id : Z) (tb : Tables) (e : Err)
    : Prop :=
  match AllowOp (User_Scopes caller) op, select_task tb id (User_OrgID caller) with
  | false, _ => CodeOf e = CodePermissionDenied
  | true, None => CodeOf e = CodeNotFound
  | true, Some row =>
      Allow (User_Scopes caller) op (ScopeAttr (toModelTask row)) = false ∧
      CodeOf e = CodePermissionDenied
  end.

Lemma updated_task_id req t :
  Task_ID (updated_task req t) = Task_ID t ∧ Task_OrgID (updated_task req t) = Task_OrgID t.
Proof.
  unfold updated_task, Start. by repeat case_match.
Qed.

(** The foreign keys of an event on a task just read, after more events. *)
Lemma update_fk tb q now es tb1 id orgID row t' :
  tables_ok tb q → select_task tb id orgID = Some row → add_events now es tb tb1 →
  Task_ID t' = Row_id row → Task_OrgID t' = Row_org_id row →
  fk_task (put_task t' now tb1) (Task_ID t') && fk_org (put_task t' now tb1) (Task_OrgID t')
  = true.
Proof.
  intros Hok Hsel Hadd Hid Horg.
  destruct (select_task_ok _ _ _ _ _ Hok Hsel) as (Hi & Ho & Hft & Hfo).
  apply add_events_frame in Hadd as (Ht & _ & _ & _ & _ & Hor & _).
  assert (fk_task tb1 id = true ∧ fk_org tb1 orgID = true) as [H1 H2].
  { unfold fk_task, fk_org in *. by rewrite Ht, Hor. }
  rewrite put_task_fk_org, Hid, Horg, Hi, Ho, put_task_fk by done. done.
Qed.

Lemma UpdateTask_spec caller req :
  HandlerSpec (Server_UpdateTask caller req) (update_ok caller req)
    (read_task_err caller OpTaskWrite (UT_Id req)).
Proof.
  intros w Hw. pose proof (at_refl w Hw) as Hat. unfold Server_UpdateTask. wps; wp_err;
    unfold read_task_err.
  - by rewrite Heqb, H0.
  - destruct (select_task_ok _ _ _ _ _ (proj2 Hw) H0) as (Hi & Ho & Hft & Hfo).
    assert (Hn : ∀ t, Task_ID (if negb (String.eqb (UT_Name req) "") then set_Name (UT_Name req) t
                               else t) = Task_ID t) by (intros; by case_match).
    assert (Hn' : ∀ t, Task_OrgID (if negb (String.eqb (UT_Name req) "")
                               then set_Name (UT_Name req) t else t) = Task_OrgID t)
      by (intros; by case_match).
    eapply wp_CreateEvents; [done| | |].
    + apply Forall_forall. intros inst _. simpl. rewrite Hn, Hn'. simpl. by rewrite Hi, Ho, Hft.
    + intros ? w1 Hnh Hs. wps; wp_err.
    + intros tb1 w1 Hadd Hin.
      destruct (updated_task_id req (toModelTask r)) as [Hui Huo].
      pose proof (update_fk _ _ _ _ _ _ _ _ (updated_task req (toModelTask r))
                    (proj2 Hw) H0 Hadd Hui Huo) as Hfk.
      wps; wp_err; [by eapply eq_true_false_abs in Hfk|].
      do 2 eexists. split; [eassumption|].
      exists r, tb1. split; [done|]. split; [done|]. split; [|split; [by apply add_one|done]].
      revert Hadd. unfold instruction_event. rewrite Hn, Hn'. by destruct (negb (String.eqb (UT_Name req) "")).
  - by rewrite Heqb, H0.
  - by rewrite Heqb.
Qed.

(** ** Opening a shell *)

Lemma keeps_openShell sid : keeps_identity (openShell sid).
Proof.
  intros t. unfold openShell. destruct (IsTerminal _); [|done].
  pose proof (keeps_Start t). by destruct (Start t) as [[] t'].
Qed.

Definition shell_message (t : Task) : string :=
  "Shell session opened for task " +:+ FormatInt (Task_ID t) +:+ ".".

(** The registry is seeded after the commit: when it refuses, the start has
    been committed but nobody is told. *)
Definition shell_outcome (registry : Registry) (caller : UserInfo) (sid : string) (id : Z)
    (w : World) (r : Err + (string * Registry)) (w' : World) : Prop :=
  let committed_start := transition_ok (openShell sid) LifecycleKindRestarted "restarted"
                           shell_message caller id (clock w) (committed w) () in
  match r with
  | inr (s, registry') =>
      s = sid ∧ Seed registry sid (User_OrgID caller) id = inr registry' ∧
      ∃ tb ns, at_ w tb ns w' ∧ committed_start tb ns
  | inl e =>
      at_ w (committed w) [] w' ∨
      (∃ err tb ns, Seed registry sid (User_OrgID caller) id = inl err ∧
         CodeOf e = CodeInternal ∧ at_ w tb [] w' ∧ committed_start tb ns)
  end.

Lemma openShell_Start sid t t' :
  IsTerminal (Task_Status t) = true → Start t = (true, t') →
  openShell sid t = (true, set_ShellSession sid t').
Proof. intros Ht Hs. unfold openShell. by rewrite Ht, Hs. Qed.

Lemma OpenShell_spec registry caller sid id w :
  world_ok w →
  wp (Server_OpenShell (Some registry) caller sid id)
    (shell_outcome registry caller sid id w) w.
Proof.
  intros Hw. pose proof (at_refl w Hw) as Hat. unfold Server_OpenShell.
  wps; unfold shell_outcome; try (by left).
  - eapply openShell_Start in Heqp; [|done].
    right. exists e. do 2 eexists. split; [done|]. split; [done|]. split; [exact H2|].
    exists r, (set_ShellSession sid t). split; [done|]. split; [done|].
    split; [exact Heqp|]. split; [by apply add_one|done].
  - eapply openShell_Start in Heqp; [|done]. split; [done|]. split; [done|].
    do 2 eexists. split; [eassumption|].
    exists r, (set_ShellSession sid t). split; [done|]. split; [done|].
    split; [exact Heqp|]. split; [by apply add_one|done].
Qed.

(** ** Reading *)

Lemma GetTask_spec caller id :
  HandlerSpec (Server_GetTask caller id)
    (λ _ tb task tb' ns, ∃ row, select_task tb id (User_OrgID caller) = Some row ∧
       task = toModelTask row ∧
       Allow (User_Scopes caller) OpTaskRead (ScopeAttr task) = true ∧ tb' = tb ∧ ns = [])
    (read_task_err caller OpTaskRead id).
Proof.
  intros w Hw. pose proof (at_refl w Hw) as Hat. unfold Server_GetTask. wps; wp_err;
    unfold read_task_err.
  - by rewrite Heqb, H.
  - do 2 eexists. split; [done|]. exists r. auto.
  - by rewrite Heqb, H.
  - by rewrite Heqb.
Qed.

Lemma ListRunnerTasks_spec caller runner :
  HandlerSpec (Server_ListRunnerTasks caller runner)
    (λ _ tb tasks tb' ns, Allow (User_Scopes caller) OpTaskRead [] = true ∧
       tasks = map toModelTask (runner_rows tb runner (User_OrgID caller)) ∧ tb' = tb ∧ ns = [])
    (λ _ e, Allow (User_Scopes caller) OpTaskRead [] = false ∧ CodeOf e = CodePermissionDenied).
Proof.
  intros w Hw. pose proof (at_refl w Hw) as Hat.
  unfold Server_ListRunnerTasks, ListTasksForRunner. wps; wp_err; try done.
  do 2 eexists. split; [done|]. auto.
Qed.

Lemma toModelTask_command_none row :
  Task_Command (toModelTask row) = TaskCommandNone ↔ Row_command row = 0.
Proof.
  simpl. unfold TaskCommand_of_int. split; [|by intros ->].
  by repeat case_match.
Qed.

(** The rows a change notification of the org names the runner for. *)
Definition names_runner (orgID : Z) (runner : string) (row : TaskRow) : bool :=
  (Row_org_id row =? orgID) && String.eqb (PendingRunner (toModelTask row)) runner.

(** The tasks [ListRunnerTasks] hands a runner are exactly the org's tasks
    whose pending runner is that runner: the filter of the SQL query and
    [Task.PendingRunner], which names whom a change notification wakes, agree. *)
Theorem runner_lists_pending (caller : UserInfo) (runner : string) (w w' : World)
    (tasks : list Task) (id : Z) (row : TaskRow) :
  world_ok w → runner ≠ "" →
  Server_ListRunnerTasks caller runner w = (inr tasks, w') →
  t_tasks (committed w) !! id = Some row →
  toModelTask row ∈ tasks ↔ names_runner (User_OrgID caller) runner row = true.
Proof.
  intros Hw Hr Hrun Hrow.
  pose proof (HandlerSpec_run _ _ _ _ _ _ (ListRunnerTasks_spec caller runner) Hw Hrun)
    as (tb & ns & _ & _ & -> & _ & _).
  rewrite list_elem_of_fmap. unfold runner_rows. setoid_rewrite elem_of_order_by_desc.
  setoid_rewrite elem_of_where. setoid_rewrite elem_of_rows.
  assert (Hsel : names_runner (User_OrgID caller) runner row = true ↔
    String.eqb (Row_runner row) runner && (Row_org_id row =? User_OrgID caller) &&
    negb (Row_command row =? 0) && negb (Row_archived row) = true).
  { pose proof (toModelTask_command_none row) as Hc. unfold names_runner, PendingRunner.
    simpl in *. destruct (Row_org_id row =? User_OrgID caller); simpl; rewrite ?andb_false_r;
      [|done].
    destruct (bool_decide_reflect (TaskCommand_of_int (Row_command row) = TaskCommandNone)),
      (Row_archived row), (Z.eqb_spec (Row_command row) 0),
      (String.eqb_spec (Row_runner row) runner); simpl in *;
      rewrite ?String.eqb_eq; (intuition congruence || by destruct runner). }
  rewrite Hsel. split.
  - intros (row' & Heq & Hp & i & Hi).
    destruct (task_rows _ _ (proj2 Hw) _ _ Hi) as [Hid _].
    destruct (task_rows _ _ (proj2 Hw) _ _ Hrow) as [Hid' _].
    assert (Row_id row = Row_id row') by (by injection Heq).
    enough (row = row') as -> by done. congruence.
  - intros Hp. exists row. eauto.
Qed.

(** A world with one org, a workspace and a task. *)
Definition sample_row : TaskRow := taskRow 7 0 0 sample_task.
Definition sample_tables : Tables :=
  mkTables {[7 := sample_row]} ∅ ∅ ∅ ∅ {[1 := mkWorkspace 1 "r1" "ws" "" 3 0]}
    {[3 := org_of ["u1"] []]} (users_of ["u1"]) ∅.
Definition sample_world : World := mkWorld sample_tables None (λ _, 8) [] [] 1000.
Definition sample_caller : UserInfo := mkUser "u1" "u1@x" "U" 3 "app" "tab" Admin.

Lemma sample_world_ok : world_ok sample_world.
Proof. apply world_okb_ok. vm_compute. reflexivity. Qed.

Lemma runner_lists_pending_witness :
  ∃ tasks w', Server_ListRunnerTasks sample_caller "r1" sample_world = (inr tasks, w') ∧
    (toModelTask sample_row ∈ tasks ↔ names_runner 3 "r1" sample_row = true).
Proof.
  do 2 eexists. split; [reflexivity|].
  eapply (runner_lists_pending sample_caller "r1" sample_world _ _ 7 sample_row);
    [apply sample_world_ok | discriminate | reflexivity..].
Defined.

(** ** The timeline of a new task *)

Lemma task_events_fresh tb q id orgID types :
  tables_ok tb q → (∀ i, is_Some (t_tasks tb !! i) → i < id) → task_events tb id orgID types = [].
Proof.
  intros Hok Hid. unfold task_events.
  assert (where_ (λ e, (Event_TaskID e =? id) && (Event_OrgID e =? orgID) && type_selected types e)
    (rows (t_events tb)) = []) as ->; [|done].
  destruct (where_ _ _) as [|e l] eqn:E; [done|].
  assert (He : e ∈ e :: l) by left. rewrite <- E in He. apply elem_of_where in He as [Hp He].
  apply elem_of_rows in He as [i He].
  destruct (event_rows _ _ Hok _ _ He) as [_ Hfk%bool_decide_eq_true].
  apply Hid in Hfk. apply andb_true_iff in Hp as [[Hp%Z.eqb_eq _]%andb_true_iff _]. lia.
Qed.

(** The stream a created task starts with. *)
Definition created_events (caller : UserInfo) (req : CreateTaskRequest) (task : Task)
    : list Event :=
  user_lifecycle caller LifecycleKindCreated task "" []
    :: map (instruction_event task true) (CT_Instructions req).

(** A created task starts with a complete timeline: in one transaction the
    row is inserted under a fresh id and its stream is exactly the created
    event followed by the request's instructions in order, each waking the
    task; when creation fails there is neither task nor event. *)
Theorem CreateTask_timeline (caller : UserInfo) (req : CreateTaskRequest) (w w' : World)
    (r : Err + Task) :
  world_ok w → Server_CreateTask caller req w = (r, w') →
  match r with
  | inr task =>
      t_tasks (committed w) !! Task_ID task = None ∧
      t_tasks (committed w') = <[Task_ID task := taskRow (Task_ID task) (clock w) (clock w)
        (new_task caller req)]> (t_tasks (committed w)) ∧
      Forall2 (same_event (clock w))
        (created_events caller req task)
        (task_events (committed w') (Task_ID task) (User_OrgID caller) [])
  | inl _ => committed w' = committed w ∧ published w' = published w
  end.
Proof.
  intros Hw Hrun. pose proof (HandlerSpec_run _ _ _ _ _ _ (CreateTask_spec caller req) Hw Hrun) as H.
  destruct r as [e|task]; simpl in H.
  { destruct H as [Hat _]. split; [by apply at_committed in Hat|].
    by rewrite (at_published _ _ _ _ Hat), app_nil_r. }
  destruct H as (tb & ns & Hat & id & _ & _ & Hid & Htask & Hadd & _).
  rewrite (at_committed _ _ _ _ Hat).
  assert (Hti : Task_ID task = id) by (by rewrite Htask).
  assert (Hto : Task_OrgID task = User_OrgID caller) by (rewrite Htask; apply new_task_org).
  rewrite Hti. split; [|split].
  - destruct (t_tasks (committed w) !! id) eqn:E; [|done]. specialize (Hid id). rewrite E in Hid.
    specialize (Hid ltac:(done)). lia.
  - by rewrite (add_events_tasks _ _ _ _ Hadd).
  - destruct (task_events_add _ _ _ _ id (User_OrgID caller) [] Hadd) as (new & -> & Hall).
    { exact (tables_ok_keyed _ _ (proj2 Hw)). }
    change (task_events (with_tasks _ (committed w))) with (task_events (committed w)).
    rewrite (task_events_fresh _ _ _ _ _ (proj2 Hw) Hid). simpl.
    rewrite filter_all in Hall; [exact Hall|].
    apply Forall_forall. intros e [->|He]%elem_of_cons; unfold on_timeline; simpl.
    + rewrite Hti, Hto. lia.
    + apply list_elem_of_fmap in He as (inst & -> & _). simpl. rewrite Hti, Hto. lia.
Qed.

Lemma CreateTask_timeline_witness :
  let req := mkCreateTask "n" "r1" "ws" "" false None [mkInstr "do" ""; mkInstr "it" ""] in
  let run := Server_CreateTask sample_caller req in
  ∃ task w', run sample_world = (inr task, w') ∧
    length (task_events (committed w') (Task_ID task) 3 []) = 3%nat.
Proof.
  intros req run. destruct (run sample_world) as [r w'] eqn:E.
  pose proof (CreateTask_timeline sample_caller req sample_world w' r sample_world_ok E) as H.
  destruct r as [e|task].
  - exfalso. vm_compute in E. discriminate E.
  - exists task, w'. split; [reflexivity|]. destruct H as (_ & _ & Hall).
    apply Forall2_length in Hall. symmetry. exact Hall.
Defined.
