(* ===== verification/ApiRunner.v ===== *)
(** * The runner-event API

    Models [internal/server/apiserver/runner.go]: a batch of runner events is
    folded into the tasks one transaction per event, and each applied event
    publishes its notification before the next one is looked at. *)

From S2P Require Import Prelude AuthScope EventModel TaskModel Links PubSub ScheduleModel Rules.
From S2P Require Import Store StoreOps StoreLogic ApiBase Timeline ShellServer ApiTask.
From S2P Require Import ApiTaskSpec.

(** The terminal statuses stamp the notification and its channel message. *)
Definition terminal_stamp (task : Task) : TaskStatus * string :=
  match Task_Status task with
  | TaskStatusCompleted =>
      (TaskStatusCompleted, "Task " +:+ FormatInt (Task_ID task) +:+ " completed.")
  | TaskStatusFailed =>
      (TaskStatusFailed, "Task " +:+ FormatInt (Task_ID task) +:+ " failed.")
  | TaskStatusCancelled =>
      (TaskStatusCancelled, "Task " +:+ FormatInt (Task_ID task) +:+ " cancelled.")
  | _ => (TaskStatusUnspecified, "")
  end.

Definition runner_notification (caller : UserInfo) (now : Z) (event : RunnerEvent) (task : Task)
    : Notification :=
  change caller now (task_resources "updated" (RE_TaskID event)) (PendingRunner task)
    (fst (terminal_stamp task)) (snd (terminal_stamp task)).

(** [notification.Ignore = true] of an event that did not apply. *)
Definition ignored (caller : UserInfo) (now : Z) (event : RunnerEvent) : Notification :=
  mkNotification "change" (task_resources "updated" (RE_TaskID event)) now (User_OrgID caller)
    (User_ID caller) (User_ClientID caller) "" TaskStatusUnspecified "" true.

(** The body of the loop of [SubmitRunnerEvents]. *)
Definition submit_event (caller : UserInfo) (event : RunnerEvent) : M unit :=
  now ← time_Now;
  r ← catch (WithTx NoTx (λ tx,
    task ← GetTaskForUpdate tx (RE_TaskID event) (User_OrgID caller);
    if negb (Allow (User_Scopes caller) OpTaskWrite (ScopeAttr task))
    then PermissionDenied "cannot submit runner events"
    else
      let original := task in
      let (applied, task') := ApplyRunnerEvent task event in
      if negb applied then mret (ignored caller now event)
      else
        UpdateTask tx task' ;;
        match LifecycleEvent event task' (Task_Status original) with
        | Some ev => CreateEvent tx ev ;; mret ()
        | None => mret ()
        end ;;
        Commit tx ;;
        mret (runner_notification caller now event task')));
  match r with
  | inl err => raise (txError (taskNotFound (RE_TaskID event)) err)
  | inr notification => publish notification
  end.

Definition Server_SubmitRunnerEvents (caller : UserInfo) (events : list RunnerEvent) : M unit :=
  if negb (AllowOp (User_Scopes caller) OpTaskWrite)
  then PermissionDenied "cannot submit runner events"
  else for_each events (submit_event caller).

(** ** One event *)

(** An applied event has a lifecycle event. *)
Lemma applied_lifecycle t t' e from :
  ApplyRunnerEvent t e = (true, t') →
  ∃ kind msg, LifecycleEvent e t' from =
    Some (newEvent (Task_ID t') (Task_OrgID t') false
            (Lifecycle (mkLifecycle kind RunnerActor (Label from) (Label (Task_Status t')) msg []))).
Proof.
  rewrite ApplyRunnerEvent_dispatch. destruct (event_refused t e); [done|].
  unfold event_dispatch, LifecycleEvent. repeat case_match; try done; eauto.
Qed.

Lemma keeps_ApplyRunnerEvent e : keeps_identity (λ t, ApplyRunnerEvent t e).
Proof.
  intros t. apply (ApplyRunnerEvent_cases
    (λ r, Task_ID (snd r) = Task_ID t ∧ Task_OrgID (snd r) = Task_OrgID t)); [done|].
  intros _ _. split; [|split]; intros _; task_cases t; done.
Qed.

(** The event leaves the tables as they are, or commits the folded task with
    its lifecycle event and publishes one notification. *)
Definition submit_ok (caller : UserInfo) (event : RunnerEvent)
    (now : Z) (tb : Tables) (_ : unit) (tb' : Tables) (ns : list Notification) : Prop :=
  ∃ row, select_task tb (RE_TaskID event) (User_OrgID caller) = Some row ∧
    Allow (User_Scopes caller) OpTaskWrite (ScopeAttr (toModelTask row)) = true ∧
    let (applied, task') := ApplyRunnerEvent (toModelTask row) event in
    if applied then
      ∃ ev, LifecycleEvent event task' (Task_Status (toModelTask row)) = Some ev ∧
        add_events now [ev] (put_task task' now tb) tb' ∧
        ns = [runner_notification caller now event task']
    else tb' = tb ∧ ns = [].

Definition submit_err (caller : UserInfo) (event : RunnerEvent) (tb : Tables) (e : Err) : Prop :=
  match select_task tb (RE_TaskID event) (User_OrgID caller) with
  | None => CodeOf e = CodeNotFound
  | Some row =>
      Allow (User_Scopes caller) OpTaskWrite (ScopeAttr (toModelTask row)) = false ∧
      CodeOf e = CodePermissionDenied
  end.

Lemma submit_event_spec caller event :
  HandlerSpec (submit_event caller event) (submit_ok caller event) (submit_err caller event).
Proof.
  intros w Hw. pose proof (at_refl w Hw) as Hat. unfold submit_event.
  wps; wp_err; unfold submit_err.
  - by rewrite H0.
  - exfalso. edestruct applied_lifecycle as (kind & msg & Hl); [exact Heqp|].
    rewrite Heqo in Hl. injection Hl as ->.
    pose proof (mutate_fk _ _ _ _ _ _ _ (clock w) (keeps_ApplyRunnerEvent event) (proj2 Hw)
      H0 Heqp) as Hfk. simpl in H1. congruence.
  - do 2 eexists. split; [exact H|]. exists r. split; [done|]. split; [done|]. rewrite Heqp.
    exists e. split; [done|]. split; [by apply add_one|done].
  - exfalso. edestruct applied_lifecycle as (kind & msg & Hl); [exact Heqp|].
    by rewrite Heqo in Hl.
  - do 2 eexists. split; [exact H1|]. exists r. split; [done|]. split; [done|].
    by rewrite Heqp.
  - by rewrite H0.
Qed.

(** ** A batch *)

(** Every event of a list has been handled, one transaction each. *)
Inductive batch (caller : UserInfo) : World → list RunnerEvent → World → Prop :=
| batch_nil w : batch caller w [] w
| batch_cons w e es w1 w2 tb ns :
    at_ w tb ns w1 → submit_ok caller e (clock w) (committed w) () tb ns →
    batch caller w1 es w2 → batch caller w (e :: es) w2.

Lemma batch_world_ok caller w es w' : batch caller w es w' → world_ok w → world_ok w'.
Proof. induction 1 as [|w e es w1 w2 tb ns Hat _ _ IH]; eauto using at_world_ok. Qed.

Lemma batch_healthy caller w es w' : batch caller w es w' → healthy w → healthy w'.
Proof. induction 1 as [|w e es w1 w2 tb ns Hat _ _ IH]; [done|]. intros H. by apply IH, Hat. Qed.

Definition batch_outcome (caller : UserInfo) (w : World) (events : list RunnerEvent)
    (r : Err + unit) (w' : World) : Prop :=
  ∃ handled rest w1, events = handled ++ rest ∧ batch caller w handled w1 ∧
    at_ w1 (committed w1) [] w' ∧
    match r with
    | inr _ => rest = []
    | inl err => ∃ e rest', rest = e :: rest' ∧
                   (healthy w → submit_err caller e (committed w1) err)
    end.

Lemma for_each_submit caller events w :
  world_ok w → wp (for_each events (submit_event caller)) (batch_outcome caller w events) w.
Proof.
  revert w. induction events as [|e es IH]; intros w Hw; simpl.
  { apply wp_ret. exists [], [], w. split; [done|]. split; [constructor|].
    split; [by apply at_refl|done]. }
  apply wp_bind. eapply wp_mono; [by apply submit_event_spec|].
  intros [err|[]] w1 Ho; simpl in Ho.
  - destruct Ho as [Hat Herr]. exists [], (e :: es), w. split; [done|].
    split; [constructor|]. split; [done|]. eauto.
  - destruct Ho as (tb & ns & Hat & Hok).
    eapply wp_mono; [apply IH; by eapply at_world_ok|].
    intros r w2 (hd & rest & w3 & -> & Hb & Hat' & Hr).
    exists (e :: hd), rest, w3. split; [done|]. split; [by econstructor|]. split; [done|].
    destruct r; [|done]. destruct Hr as (e' & rest' & -> & Herr). exists e', rest'.
    split; [done|]. intros Hh. apply Herr, Hat, Hh.
Qed.

(** A batch of runner events is handled in order, one transaction per
    event: whatever fails, what is committed and published is exactly what a
    prefix of the batch does, and an error without a database fault is the
    first event whose task is missing or not the caller's to write. *)
Theorem SubmitRunnerEvents_prefix (caller : UserInfo) (events : list RunnerEvent)
    (w w' : World) (r : Err + unit) :
  world_ok w → AllowOp (User_Scopes caller) OpTaskWrite = true →
  Server_SubmitRunnerEvents caller events w = (r, w') →
  ∃ handled rest w1, events = handled ++ rest ∧ batch caller w handled w1 ∧
    committed w' = committed w1 ∧ published w' = published w1 ∧
    match r with
    | inr _ => rest = []
    | inl err => ∃ e rest', rest = e :: rest' ∧
                   (healthy w → submit_err caller e (committed w1) err)
    end.
Proof.
  intros Hw Hop Hrun. unfold Server_SubmitRunnerEvents in Hrun. rewrite Hop in Hrun. simpl in Hrun.
  pose proof (for_each_submit caller events w Hw) as H. unfold wp in H. rewrite Hrun in H.
  destruct H as (hd & rest & w1 & -> & Hb & Hat & Hr). exists hd, rest, w1.
  split; [done|]. split; [done|]. split; [by apply at_committed in Hat|]. split; [|done].
  by rewrite (at_published _ _ _ _ Hat), app_nil_r.
Qed.

Lemma SubmitRunnerEvents_prefix_witness :
  let events := [mkRunnerEvent 7 "started" 1 false ""; mkRunnerEvent 9 "started" 1 false ""] in
  ∃ handled rest w1, events = handled ++ rest ∧ batch sample_caller sample_world handled w1 ∧
    length rest = 1%nat.
Proof.
  intros events.
  destruct (Server_SubmitRunnerEvents sample_caller events sample_world) as [r w'] eqn:E.
  assert (Hr : match r with inl err => CodeOf err = CodeNotFound | inr _ => False end).
  { vm_compute in E. injection E as <- _. reflexivity. }
  destruct (SubmitRunnerEvents_prefix sample_caller events sample_world w' r) as
    (hd & rest & w1 & Hev & Hb & _ & _ & Hrest); [apply sample_world_ok | reflexivity | exact E|].
  exists hd, rest, w1. split; [exact Hev|]. split; [exact Hb|].
  destruct r as [err|]; [|done]. destruct Hrest as (e & rest' & -> & Herr).
  specialize (Herr ltac:(constructor)).
  destruct hd as [|e1 hd].
  - (* the first event is not refused *)
    exfalso. simpl in Hev. injection Hev as <- <-. inversion Hb; subst.
    unfold submit_err in Herr. vm_compute in Herr. by destruct Herr.
  - apply (f_equal length) in Hev. rewrite length_app in Hev. simpl in Hev.
    simpl. lia.
Defined.
