(* ===== verification/Scheduler.v ===== *)
(** * The scheduler

    Models [internal/server/scheduler/scheduler.go]: one occurrence of a
    schedule ([Fire]), the worker's fire that also advances the schedule, and
    a tick.  The ticker loop [Run] only calls [Tick] again and logs its error.
    [locked] are the schedules other server instances hold. *)

From S2P Require Import Prelude AuthScope EventModel TaskModel Links PubSub ScheduleModel Rules.
From S2P Require Import Store StoreOps StoreLogic ApiBase Timeline ShellServer ApiTask.
From S2P Require Import ApiTaskSpec.

Definition DefaultBatchSize : nat := 100.

(** [fmt.Errorf("msg: %w", err)] around a computation's error. *)
Definition wrapping {A} (msg : string) (m : M A) : M A :=
  r ← catch m;
  match r with inl err => raise (EWrap msg err) | inr a => mret a end.

Definition fire_notification (now : Z) (task : Task) : Notification :=
  mkNotification "change" (task_resources "created" (Task_ID task)) now (Task_OrgID task) "" ""
    (PendingRunner task) TaskStatusUnspecified (created_message task) false.

Definition Fire (tx : Tx) (sched : Schedule) : M (Task * Notification) :=
  task ← CreateTask tx (Schedule_Task sched);
  for_each (Schedule_Events sched task) (λ ev, CreateEvent tx ev ;; mret ()) ;;
  now ← time_Now;
  mret (task, fire_notification now task).

Section Scheduler.
Context `{Cron}.

Definition fire (tx : Tx) (sched : Schedule) : M Notification :=
  now ← time_Now;
  fired ← Fire tx sched;
  let (task, note) := fired : Task * Notification in
  match Schedule_Next sched now with
  | inl _ =>
      StoreUpdateSchedule tx
        (Sched_set_run false None (Some now) (Some (Task_ID task)) sched)
  | inr next =>
      AdvanceSchedule tx (Sched_ID sched) (Sched_OrgID sched)
        (mkAdvance (Some next) (Some now) (Some (Task_ID task)))
  end ;;
  mret note.

(** The loop of a tick. *)
Fixpoint fire_all (tx : Tx) (due : list Schedule) : M (list Notification) :=
  match due with
  | [] => mret []
  | sched :: rest =>
      n ← wrapping ("fire schedule " +:+ FormatInt (Sched_ID sched)) (fire tx sched);
      ns ← fire_all tx rest;
      mret (n :: ns)
  end.

(** [Tick]: the number of schedules fired. *)
Definition Tick (locked : list Z) (batchSize : nat) : M nat :=
  notifications ← WithTx NoTx (λ tx,
    due ← wrapping "claim due schedules" (ClaimDueSchedules locked tx batchSize);
    ns ← fire_all tx due;
    Commit tx ;;
    mret ns);
  for_each notifications publish ;;
  mret (length notifications).

(** ** What firing does *)

(** The schedule's row after it fired the task [id]. *)
Definition fired_row (now : Z) (s : Schedule) (id : Z) : Schedule :=
  match Schedule_Next s now with
  | inl _ =>
      scheduleRow (Sched_ID s) (Sched_CreatedAt s) now
        (Sched_set_run false None (Some now) (Some id) s)
  | inr next =>
      Sched_set_ids (Sched_ID s) (Sched_CreatedAt s) now
        (Sched_set_run (Sched_Enabled s) (Some next) (Some now) (Some id) s)
  end.

Definition occurrence (now id : Z) (s : Schedule) : Task :=
  set_Times now now (set_ID id (Schedule_Task s)).

(** One occurrence: a task at a fresh id, and its events. *)
Definition fired (now : Z) (s : Schedule) (id : Z) (tb tb' : Tables) : Prop :=
  (∀ i, is_Some (t_tasks tb !! i) → i < id) ∧
  add_events now (Schedule_Events s (occurrence now id s))
    (with_tasks <[id := taskRow id now now (Schedule_Task s)]> tb) tb'.

Inductive fires (now : Z) : list Schedule → list Z → Tables → Tables → Prop :=
| fires_nil tb : fires now [] [] tb tb
| fires_cons s due id ids tb tb1 tb2 :
    fired now s id tb tb1 →
    fires now due ids (with_schedules <[Sched_ID s := fired_row now s id]> tb1) tb2 →
    fires now (s :: due) (id :: ids) tb tb2.

Section rules.
Context (w0 : World) (base : Tables) (ns : list Notification).

Lemma wp_Fire Q s tb w :
  in_tx w0 base ns tb w → fk_org tb (Sched_OrgID s) = true →
  (∀ msg w', ¬ healthy w0 → same w0 base ns w' → Q (inl (EOther msg)) w') →
  (∀ id tb' w', fired (clock w0) s id tb tb' → in_tx w0 base ns tb' w' →
     fk_task tb' id = true →
     Q (inr (occurrence (clock w0) id s,
             fire_notification (clock w0) (occurrence (clock w0) id s))) w') →
  wp (Fire InTx s) Q w.
Proof.
  intros Hin Hfk Hf Hok. unfold Fire, CreateTask. wps; try by auto.
  - simpl in H0. congruence.
  - eapply wp_CreateEvents; [done| |by auto|].
    + assert (Hev : ∀ ev, ev ∈ Schedule_Events s
        (set_Times (clock w0) (clock w0) (set_ID (s0 SeqTasks) (Schedule_Task s))) →
        Event_TaskID ev = s0 SeqTasks ∧ Event_OrgID ev = Sched_OrgID s).
      { intros ev [->|Hev]%elem_of_cons; [done|].
        by apply list_elem_of_fmap in Hev as (inst & -> & _). }
      apply Forall_forall. intros ev Hev'. apply Hev in Hev' as [-> ->].
      rewrite fk_task_new. unfold fk_org in *. simpl. by rewrite Hfk.
    + intros tb1 w1 Hadd Hin'. wps. eapply Hok; [|done|].
      * split; [by apply ids_tasks|]. by rewrite map_id in Hadd.
      * apply add_events_tasks in Hadd. unfold fk_task. rewrite Hadd.
        apply (fk_task_new tb).
Qed.

Lemma wp_fire Q s tb w :
  in_tx w0 base ns tb w → tables_ok tb (seqs w) → t_schedules tb !! Sched_ID s = Some s →
  (∀ msg w', ¬ healthy w0 → same w0 base ns w' → Q (inl (EOther msg)) w') →
  (∀ id tb1 w', fired (clock w0) s id tb tb1 →
     in_tx w0 base ns (with_schedules <[Sched_ID s := fired_row (clock w0) s id]> tb1) w' →
     Q (inr (fire_notification (clock w0) (occurrence (clock w0) id s))) w') →
  wp (fire InTx s) Q w.
Proof.
  intros Hin Hok Hs Hf Hq. unfold fire.
  destruct (schedule_rows _ _ Hok _ _ Hs) as [_ [Hfk _]%andb_true_iff].
  apply wp_bind. eapply wp_time_tx; [done|]. apply wp_bind.
  eapply wp_Fire; [done|done|done|]. intros id tb1 w1 Hfired Hin1 Hft.
  assert (Hsel : select_schedule tb1 (Sched_ID s) (Sched_OrgID s) = Some s).
  { apply select_schedule_Some. split; [|done].
    by destruct Hfired as [_ (_ & _ & -> & _)%add_events_frame]. }
  assert (Hkeep : ∀ row, Sched_ID row = Sched_ID s → Sched_OrgID row = Sched_OrgID s →
    Sched_LastTaskID row = Some id →
    tables_ok (with_schedules <[Sched_ID s := row]> tb1) (seqs w1)).
  { intros row Hid Ho Hl. destruct (select_schedule_ok _ _ _ _ _ (it_ids _ _ _ _ _ Hin1) Hsel)
      as (? & _ & _ & Hfo & _). apply keeps_with_schedule; [done..| |apply Hin1].
    rewrite Ho, Hl, Hfo. simpl. by rewrite Hft. }
  apply wp_bind. cbv beta iota. unfold fired_row in *.
  destruct (Schedule_Next s (clock w0)) as [err|next] eqn:Hn.
  - unfold StoreUpdateSchedule. apply wp_bind. eapply wp_time_tx; [done|].
    eapply wp_exec_InTx; [done|done| |]; unfold put_schedule; simpl; rewrite Hsel, Hft;
      [done|]. intros [] tb' w2 [= <-] Hse Hin2.
    apply wp_ret. eapply Hq; [exact Hfired|]. apply Hin2.
    rewrite Hse. by apply Hkeep.
  - unfold AdvanceSchedule.
    eapply wp_exec_InTx; [done|done| |]; unfold advance_schedule; simpl; rewrite Hsel, Hft;
      [done|]. intros [] tb' w2 [= <-] Hse Hin2.
    apply wp_ret. eapply Hq; [exact Hfired|]. apply Hin2.
    rewrite Hse. by apply Hkeep.
Qed.

Lemma wp_fire_all Q due tb w :
  in_tx w0 base ns tb w → NoDup (map Sched_ID due) →
  Forall (λ s, t_schedules tb !! Sched_ID s = Some s) due →
  (∀ e w', ¬ healthy w0 → same w0 base ns w' → Q (inl e) w') →
  (∀ ids tb' w', fires (clock w0) due ids tb tb' → in_tx w0 base ns tb' w' →
     Q (inr (zip_with (λ s id, fire_notification (clock w0) (occurrence (clock w0) id s))
               due ids)) w') →
  wp (fire_all InTx due) Q w.
Proof.
  revert Q tb w. induction due as [|s due IH]; intros Q tb w Hin Hnd Hall Hf Hq; simpl.
  { apply wp_ret. apply (Hq [] tb); [constructor|done]. }
  apply Forall_cons in Hall as [Hs Hall]. apply NoDup_cons in Hnd as [Hns Hnd].
  apply wp_bind. unfold wrapping. apply wp_bind, wp_catch.
  eapply wp_fire; [done|apply Hin|done|intros; apply wp_raise; eauto|].
  intros id tb1 w1 Hfired Hin1. apply wp_ret, wp_bind. eapply IH; [done|done| |done|].
  - apply Forall_forall. intros s' Hs'. simpl. rewrite lookup_insert_ne.
    + destruct Hfired as [_ (_ & _ & -> & _)%add_events_frame].
      simpl. by eapply Forall_forall in Hall.
    + intros Heq. apply Hns. rewrite Heq. by apply list_elem_of_fmap_2.
  - intros ids tb' w2 Hfires Hin2. apply wp_ret. apply (Hq (id :: ids) tb'); [|done].
    by econstructor.
Qed.
End rules.

(** ** A tick *)

Lemma elem_of_claim now locked limit tb s :
  s ∈ claim_rows now locked limit tb →
  schedule_due now s = true ∧ (Sched_ID s ∉ locked) ∧ ∃ i, t_schedules tb !! i = Some s.
Proof.
  unfold claim_rows. intros Hs%elem_of_take_sub. apply elem_of_where in Hs as [Hl Hs].
  rewrite elem_of_order_by in Hs. apply elem_of_where in Hs as [Hd Hs%elem_of_rows].
  apply negb_true_iff, bool_decide_eq_false in Hl. auto.
Qed.

Lemma claim_NoDup now locked limit tb q :
  tables_ok tb q → NoDup (map Sched_ID (claim_rows now locked limit tb)).
Proof.
  intros Hok. apply (NoDup_row_ids _ (t_schedules tb)).
  - intros i x Hx. by apply (schedule_rows _ _ Hok) in Hx as [].
  - unfold claim_rows, where_. apply NoDup_take, NoDup_filter.
    rewrite order_by_Permutation. apply NoDup_filter, (NoDup_rows Sched_ID).
    intros i x Hx. by apply (schedule_rows _ _ Hok) in Hx as [].
  - by intros x (_ & _ & ?)%elem_of_claim.
Qed.

Lemma claim_rows_keyed now locked limit tb q :
  tables_ok tb q →
  Forall (λ s, t_schedules tb !! Sched_ID s = Some s) (claim_rows now locked limit tb).
Proof.
  intros Hok. apply Forall_forall. intros s (_ & _ & i & Hi)%elem_of_claim.
  by destruct (schedule_rows _ _ Hok _ _ Hi) as [-> _].
Qed.

Definition tick_notifications (now : Z) (due : list Schedule) (ids : list Z)
    : list Notification :=
  zip_with (λ s id, fire_notification now (occurrence now id s)) due ids.

Definition tick_ok (locked : list Z) (limit : nat) (now : Z) (tb : Tables) (k : nat)
    (tb' : Tables) (ns : list Notification) : Prop :=
  ∃ ids, let due := claim_rows now locked limit tb in
    fires now due ids tb tb' ∧ k = length due ∧ ns = tick_notifications now due ids.

Lemma fires_length now due ids tb tb' : fires now due ids tb tb' → length ids = length due.
Proof. induction 1; simpl; congruence. Qed.

Lemma tick_ignore now due ids :
  Forall (λ n, N_Ignore n = false) (tick_notifications now due ids).
Proof.
  unfold tick_notifications. revert ids.
  induction due as [|s due IH]; intros [|id ids]; simpl; constructor; auto.
Qed.

(** Publishing a list of notifications, none of them ignored. *)
Lemma wp_publish_all l Q w0 tb ns w :
  at_ w0 tb ns w → Forall (λ n, N_Ignore n = false) l →
  (∀ w', at_ w0 tb (ns ++ l) w' → Q (inr ()) w') →
  wp (for_each l publish) Q w.
Proof.
  revert ns w. induction l as [|n l IH]; intros ns w Hat Hl HQ; simpl.
  { apply wp_ret, HQ. by rewrite app_nil_r. }
  apply Forall_cons in Hl as [Hn Hl]. apply wp_bind.
  eapply wp_publish; [done|]. rewrite Hn. intros w' Hat'. eapply IH; [done|done|].
  intros w''. rewrite <- app_assoc. apply HQ.
Qed.

Lemma Tick_spec locked limit : HandlerSpec (Tick locked limit) (tick_ok locked limit) (λ _ _, False).
Proof.
  intros w Hw. pose proof (at_refl w Hw) as Hat.
  unfold Tick, ClaimDueSchedules, wrapping. wps; wp_err.
  eapply wp_fire_all; [done|by eapply claim_NoDup, Hw|by eapply claim_rows_keyed, Hw| |].
  - intros e w1 Hn Hs. wps; wp_err.
  - intros ids tb' w1 Hfires Hin. wps; wp_err.
    eapply wp_publish_all; [done|apply tick_ignore|]. intros w3 Hat3.
    apply wp_ret. do 2 eexists. split; [exact Hat3|]. exists ids. split; [done|].
    split; [|done]. apply fires_length in Hfires. rewrite length_zip_with. lia.
Qed.

(** What a batch of fires leaves in the tables. *)
Record fires_effect (now : Z) (due : list Schedule) (ids : list Z) (tb tb' : Tables) : Prop := {
  fe_fresh : ∀ i id, id ∈ ids → is_Some (t_tasks tb !! i) → i < id;
  fe_nodup : NoDup ids;
  fe_rows : Forall2 (λ s id,
    t_tasks tb' !! id = Some (taskRow id now now (Schedule_Task s)) ∧
    t_schedules tb' !! Sched_ID s = Some (fired_row now s id)) due ids;
  fe_tasks : ∀ i, i ∉ ids → t_tasks tb' !! i = t_tasks tb !! i;
  fe_schedules : ∀ i, i ∉ map Sched_ID due → t_schedules tb' !! i = t_schedules tb !! i }.

Lemma fires_effects now due ids tb tb' :
  fires now due ids tb tb' → NoDup (map Sched_ID due) → fires_effect now due ids tb tb'.
Proof.
  induction 1 as [tb|s due id ids tb tb1 tb2 Hfired Hfires IH]; intros Hnd.
  { constructor; try done; try constructor. intros i id Hid. by apply not_elem_of_nil in Hid. }
  apply NoDup_cons in Hnd as [Hns Hnd]. destruct (IH Hnd) as [Hfr Hni Hrows Ht Hsch].
  destruct Hfired as [Hid (Htk & _ & Hsc & _)%add_events_frame]. simpl in Htk, Hsc.
  assert (Hid_ids : id ∉ ids).
  { intros Hin. specialize (Hfr id id Hin). simpl in Hfr. rewrite Htk, lookup_insert_eq in Hfr.
    specialize (Hfr ltac:(done)). lia. }
  constructor.
  - intros i id' [->|Hin]%elem_of_cons Hi; [by apply Hid|]. apply (Hfr i id' Hin). simpl.
    rewrite Htk. by apply lookup_insert_is_Some'; right.
  - by constructor.
  - constructor; [|done]. rewrite Ht, Hsch by done. simpl. rewrite Htk, !lookup_insert_eq. done.
  - intros i [Hne Hi]%not_elem_of_cons. rewrite Ht by done. simpl.
    by rewrite Htk, lookup_insert_ne.
  - intros i [Hne Hi]%not_elem_of_cons. rewrite Hsch by done. simpl.
    by rewrite lookup_insert_ne, Hsc.
Qed.

(** ** Properties *)

(** C38: a tick that succeeds fires every schedule it claims exactly once: the
    claimed schedules correspond one to one to new tasks built from their
    templates, each schedule records its task, and no other task or
    schedule (those held by another instance included) changes. *)
Theorem Tick_exactly_once (locked : list Z) (limit : nat) (w w' : World) (k : nat) :
  world_ok w → Tick locked limit w = (inr k, w') →
  let due := claim_rows (clock w) locked limit (committed w) in
  ∃ ids, k = length due ∧ length ids = length due ∧
    fires_effect (clock w) due ids (committed w) (committed w') ∧
    Forall (λ s, schedule_due (clock w) s = true ∧ (Sched_ID s ∉ locked)) due ∧
    published w' = published w ++ tick_notifications (clock w) due ids.
Proof.
  intros Hw Hrun due.
  destruct (HandlerSpec_run _ _ _ _ _ _ (Tick_spec locked limit) Hw Hrun)
    as (tb & ns & Hat & ids & Hf & Hk & Hns).
  exists ids. split; [done|]. split; [by eapply fires_length|].
  rewrite (at_committed _ _ _ _ Hat). split; [|split].
  - apply fires_effects; [done|]. by eapply claim_NoDup, Hw.
  - apply Forall_forall. intros s (? & ? & _)%elem_of_claim. done.
  - by rewrite (at_published _ _ _ _ Hat), Hns.
Qed.

(** C39: a tick that fails, wherever it fails, commits and publishes nothing,
    so every schedule is as due as it was; and it never fails on a healthy
    database.  (A commit that fails has not taken effect; one whose answer alone
    was lost is outside the model of the database.) *)
Theorem Tick_error_rolls_back (locked : list Z) (limit : nat) (w w' : World) (e : Err) :
  world_ok w → Tick locked limit w = (inl e, w') →
  committed w' = committed w ∧ published w' = published w ∧ ¬ healthy w.
Proof.
  intros Hw Hrun.
  destruct (HandlerSpec_run _ _ _ _ _ _ (Tick_spec locked limit) Hw Hrun) as [Hat Hh].
  split; [by apply at_committed in Hat|]. split; [|by intros ?%Hh].
  by rewrite (at_published _ _ _ _ Hat), app_nil_r.
Qed.

Lemma fired_row_due `{!CronLaws} now s id :
  Schedule_Next s now ≠ inr time_zero → schedule_due now (fired_row now s id) = false.
Proof.
  intros Hz. unfold fired_row, schedule_due. destruct (Schedule_Next s now) as [err|next] eqn:E.
  - done.
  - simpl. apply andb_false_iff. right. apply Schedule_Next_later in E as [->|Hlt]; [done|].
    lia.
Qed.

(** After a tick no schedule it fired is due, provided its expression has
    a next occurrence at all; one whose next occurrence cannot be computed
    any more is disabled. *)
Theorem Tick_settles `{!CronLaws} (locked : list Z) (limit : nat) (w w' : World) (k : nat)
    (s : Schedule) :
  world_ok w → Tick locked limit w = (inr k, w') →
  s ∈ claim_rows (clock w) locked limit (committed w) →
  Schedule_Next s (clock w) ≠ inr time_zero →
  ∃ s', t_schedules (committed w') !! Sched_ID s = Some s' ∧
    schedule_due (clock w) s' = false ∧
    (∀ err, Schedule_Next s (clock w) = inl err → Sched_Enabled s' = false).
Proof.
  intros Hw Hrun Hin Hz.
  destruct (HandlerSpec_run _ _ _ _ _ _ (Tick_spec locked limit) Hw Hrun)
    as (tb & ns & Hat & ids & Hf & _ & _).
  apply fires_effects in Hf as [_ _ Hrows _ _]; [|by eapply claim_NoDup, Hw].
  apply list_elem_of_lookup in Hin as [i Hi].
  destruct (Forall2_lookup_l _ _ _ _ _ Hrows Hi) as (id & _ & _ & Hs).
  exists (fired_row (clock w) s id). rewrite (at_committed _ _ _ _ Hat).
  split; [done|]. split; [by apply fired_row_due|].
  intros err Herr. unfold fired_row. by rewrite Herr.
Qed.

(** an enabled schedule whose expression never occurs (the cron library
    answers the zero time) is due again right after the tick that fired it:
    every later tick creates one more task. *)
Theorem never_occurring_refires (locked : list Z) (limit : nat) (w w' : World) (k : nat)
    (s : Schedule) :
  world_ok w → Tick locked limit w = (inr k, w') →
  s ∈ claim_rows (clock w) locked limit (committed w) →
  Schedule_Next s (clock w) = inr time_zero → time_zero ≤ clock w →
  ∃ s', t_schedules (committed w') !! Sched_ID s = Some s' ∧
    ∀ now, time_zero ≤ now → schedule_due now s' = true.
Proof.
  intros Hw Hrun Hin Hz Hclk.
  destruct (HandlerSpec_run _ _ _ _ _ _ (Tick_spec locked limit) Hw Hrun)
    as (tb & ns & Hat & ids & Hf & _ & _).
  apply fires_effects in Hf as [_ _ Hrows _ _]; [|by eapply claim_NoDup, Hw].
  apply elem_of_claim in Hin as Hdue. destruct Hdue as ([He _]%andb_true_iff & _).
  apply list_elem_of_lookup in Hin as [i Hi].
  destruct (Forall2_lookup_l _ _ _ _ _ Hrows Hi) as (id & _ & _ & Hs).
  exists (fired_row (clock w) s id). rewrite (at_committed _ _ _ _ Hat). split; [done|].
  intros now Hnow. unfold fired_row. rewrite Hz. unfold schedule_due. simpl.
  rewrite He. simpl. by apply Z.leb_le.
Qed.
End Scheduler.

(** ** Witnesses: two schedules, one of which never occurs *)

Definition sample_schedule (id : Z) (expr : string) : Schedule :=
  mkSchedule id 3 "u1" "nightly" "ws" "r1" "" [mkScheduleInstruction "do it" ""] 0 expr "UTC"
    true (Some 0) None None 0 0.

Definition schedule_world : World :=
  mkWorld
    (with_schedules (λ _, <[1 := sample_schedule 1 "@minutely"]>
                            {[2 := sample_schedule 2 "0 0 30 2 *"]}) sample_tables)
    None (λ _, 8) [] [] 120000000.

Lemma schedule_world_ok : world_ok schedule_world.
Proof. apply world_okb_ok. vm_compute. reflexivity. Qed.

Lemma Tick_exactly_once_witness :
  ∃ ids, fires_effect (clock schedule_world)
    (claim_rows (clock schedule_world) [2] 100 (committed schedule_world)) ids
    (committed schedule_world) (committed (final (Tick [2] 100) schedule_world)) ∧
    length ids = 1%nat.
Proof.
  destruct (Tick_exactly_once [2] 100 schedule_world (final (Tick [2] 100) schedule_world) 1)
    as (ids & Hk & Hl & Hf & _); [apply schedule_world_ok | vm_compute; reflexivity |].
  exists ids. split; [exact Hf | rewrite Hl; symmetry; exact Hk].
Defined.

Lemma Tick_error_rolls_back_witness :
  let w := set_faults [None; Some "connection reset"] schedule_world in
  committed (final (Tick [] 100) w) = committed w ∧ published (final (Tick [] 100) w) = [] ∧
  ¬ healthy w.
Proof.
  intros w. apply (Tick_error_rolls_back [] 100 w (final (Tick [] 100) w)
    (EWrap "claim due schedules" (EOther "connection reset")));
    [apply schedule_world_ok | vm_compute; reflexivity].
Defined.

Lemma Tick_settles_witness :
  ∃ s', t_schedules (committed (final (Tick [2] 100) schedule_world)) !! 1 = Some s' ∧
    schedule_due (clock schedule_world) s' = false ∧
    (∀ err, Schedule_Next (sample_schedule 1 "@minutely") (clock schedule_world) = inl err →
            Sched_Enabled s' = false).
Proof.
  apply (@Tick_settles demo_cron demo_cron_laws [2] 100 schedule_world
           (final (Tick [2] 100) schedule_world) 1 (sample_schedule 1 "@minutely"));
    [apply schedule_world_ok | vm_compute; reflexivity | | discriminate].
  vm_compute. apply list_elem_of_here.
Defined.

Lemma never_occurring_refires_witness :
  ∃ s', t_schedules (committed (final (Tick [1] 100) schedule_world)) !! 2 = Some s' ∧
    ∀ now, time_zero ≤ now → schedule_due now s' = true.
Proof.
  apply (never_occurring_refires [1] 100 schedule_world
           (final (Tick [1] 100) schedule_world) 1 (sample_schedule 2 "0 0 30 2 *"));
    [apply schedule_world_ok | vm_compute; reflexivity | | reflexivity | by vm_compute].
  vm_compute. apply list_elem_of_here.
Defined.
