(* ===== verification/ApiSchedule.v ===== *)
(** * The schedule API

    Models [internal/server/apiserver/schedule.go]: creating, reading,
    updating, deleting, toggling and manually running schedules. *)

From S2P Require Import Prelude AuthScope EventModel TaskModel Links PubSub ScheduleModel Rules.
From S2P Require Import Store StoreOps StoreLogic ApiBase Timeline ShellServer ApiTask.
From S2P Require Import ApiTaskSpec Scheduler.

Record ScheduleRequest := mkScheduleReq {
  SR_Name : string; SR_Workspace : string; SR_Runner : string; SR_Namespace : string;
  SR_Instructions : list InstructionReq; SR_CronExpr : string; SR_Timezone : string;
  SR_AutoArchive : option Z }.

(** [ScheduleInstructionsFromProto]. *)
Definition ScheduleInstructionsFromProto (l : list InstructionReq) : list ScheduleInstruction :=
  map (λ inst, mkScheduleInstruction (Instr_Text inst) (Instr_Url inst)) l.

Definition schedule_change (caller : UserInfo) (now : Z) (action : string) (id : Z)
    : Notification :=
  change caller now [mkResource action "schedule" id] "" TaskStatusUnspecified "".

Section ApiSchedule.
Context {CR : Cron}.

Definition new_schedule (caller : UserInfo) (req : ScheduleRequest) (enabled : bool) : Schedule :=
  mkSchedule 0 (User_OrgID caller) (User_ID caller) (SR_Name req) (SR_Workspace req)
    (SR_Runner req) (SR_Namespace req) (ScheduleInstructionsFromProto (SR_Instructions req))
    (default 0 (SR_AutoArchive req)) (SR_CronExpr req) (or_string (SR_Timezone req) "UTC")
    enabled None None None 0 0.

(** [if sched.Enabled { next, err := sched.Next(time.Now()); ... }] *)
Definition realign (sched : Schedule) : M Schedule :=
  if Sched_Enabled sched then
    now ← time_Now;
    match Schedule_Next sched now with
    | inl err => InvalidArgument err
    | inr next => mret (Sched_set_NextRunAt (Some next) sched)
    end
  else mret sched.

Definition validated (sched : Schedule) : M unit :=
  match Schedule_Validate sched with
  | Some err => InvalidArgument err
  | None => mret ()
  end.

Definition Server_CreateSchedule (caller : UserInfo) (req : ScheduleRequest) (enabled : bool)
    : M Schedule :=
  if negb (may_create caller (SR_Workspace req) (SR_Runner req))
  then PermissionDenied "cannot create schedule"
  else
    ok ← catch (HasWorkspace NoTx (SR_Runner req) (SR_Workspace req) (User_OrgID caller));
    match ok with
    | inl err => Internal err
    | inr false => NotFound (workspaceNotFound (SR_Workspace req) (SR_Runner req))
    | inr true =>
        let sched := new_schedule caller req enabled in
        validated sched ;;
        sched ← realign sched;
        r ← catch (StoreCreateSchedule NoTx sched);
        match r with
        | inl err => Internal err
        | inr sched =>
            now ← time_Now;
            publish (schedule_change caller now "created" (Sched_ID sched)) ;;
            mret sched
        end
    end.

Definition Server_GetSchedule (caller : UserInfo) (id : Z) : M Schedule :=
  if negb (Allow (User_Scopes caller) OpTaskRead []) then PermissionDenied "cannot read schedule"
  else
    r ← catch (StoreGetSchedule NoTx id (User_OrgID caller));
    match r with
    | inl err => raise (readError (scheduleNotFound id) err)
    | inr sched => mret sched
    end.

Definition Server_ListSchedules (caller : UserInfo) : M (list Schedule) :=
  if negb (Allow (User_Scopes caller) OpTaskRead [])
  then PermissionDenied "cannot list schedules"
  else
    r ← catch (StoreListSchedules NoTx (User_OrgID caller));
    match r with inl err => Internal err | inr scheds => mret scheds end.

(** The edited schedule: the template and the specification replaced. *)
Definition edit_schedule (req : ScheduleRequest) (s : Schedule) : Schedule :=
  mkSchedule (Sched_ID s) (Sched_OrgID s) (Sched_CreatedBy s) (SR_Name req) (SR_Workspace req)
    (SR_Runner req) (SR_Namespace req) (ScheduleInstructionsFromProto (SR_Instructions req))
    (default 0 (SR_AutoArchive req)) (SR_CronExpr req) (or_string (SR_Timezone req) "UTC")
    (Sched_Enabled s) (Sched_NextRunAt s) (Sched_LastRunAt s) (Sched_LastTaskID s)
    (Sched_CreatedAt s) (Sched_UpdatedAt s).

Definition Server_UpdateSchedule (caller : UserInfo) (id : Z) (req : ScheduleRequest)
    : M Schedule :=
  if negb (may_create caller (SR_Workspace req) (SR_Runner req))
  then PermissionDenied "cannot update schedule"
  else
    ok ← catch (HasWorkspace NoTx (SR_Runner req) (SR_Workspace req) (User_OrgID caller));
    match ok with
    | inl err => Internal err
    | inr false => NotFound (workspaceNotFound (SR_Workspace req) (SR_Runner req))
    | inr true =>
        r ← catch (WithTx NoTx (λ tx,
          existing ← GetScheduleForUpdate tx id (User_OrgID caller);
          let existing := edit_schedule req existing in
          validated existing ;;
          existing ← realign existing;
          StoreUpdateSchedule tx existing ;;
          Commit tx ;;
          mret existing));
        match r with
        | inl err => raise (txError (scheduleNotFound id) err)
        | inr sched =>
            now ← time_Now;
            publish (schedule_change caller now "updated" (Sched_ID sched)) ;;
            mret sched
        end
    end.

Definition Server_DeleteSchedule (caller : UserInfo) (id : Z) : M unit :=
  if negb (Allow (User_Scopes caller) OpTaskWrite [])
  then PermissionDenied "cannot delete schedule"
  else
    r ← catch (StoreDeleteSchedule NoTx id (User_OrgID caller));
    match r with
    | inl err => Internal err
    | inr _ =>
        now ← time_Now;
        publish (schedule_change caller now "deleted" id)
    end.

Definition Server_SetScheduleEnabled (caller : UserInfo) (id : Z) (enabled : bool) : M Schedule :=
  if negb (Allow (User_Scopes caller) OpTaskWrite [])
  then PermissionDenied "cannot update schedule"
  else
    r ← catch (WithTx NoTx (λ tx,
      existing ← GetScheduleForUpdate tx id (User_OrgID caller);
      let existing := Sched_set_Enabled enabled existing in
      existing ← (if enabled then realign existing
                  else mret (Sched_set_NextRunAt None existing));
      StoreUpdateSchedule tx existing ;;
      Commit tx ;;
      mret existing));
    match r with
    | inl err => raise (txError (scheduleNotFound id) err)
    | inr sched =>
        now ← time_Now;
        publish (schedule_change caller now "updated" (Sched_ID sched)) ;;
        mret sched
    end.

(** [note.UserID, note.ClientID = caller.ID, caller.ClientID] *)
Definition with_user (caller : UserInfo) (n : Notification) : Notification :=
  mkNotification (N_Type n) (N_Resources n) (N_Time n) (N_OrgID n) (User_ID caller)
    (User_ClientID caller) (N_Runner n) (N_TaskStatus n) (N_ChannelMessage n) (N_Ignore n).

Definition Server_RunSchedule (caller : UserInfo) (id : Z) : M Task :=
  if negb (AllowOp (User_Scopes caller) OpTaskCreate)
  then PermissionDenied "cannot run schedule"
  else
    r ← catch (WithTx NoTx (λ tx,
      sched ← StoreGetSchedule tx id (User_OrgID caller);
      if negb (may_create caller (Sched_Workspace sched) (Sched_Runner sched))
      then PermissionDenied "cannot run schedule"
      else
        fired ← Fire tx sched;
        Commit tx ;;
        mret fired));
    match r with
    | inl err => raise (txError (scheduleNotFound id) err)
    | inr (task, note) => publish (with_user caller note) ;; mret task
    end.

(** ** Specifications *)

(** A stored schedule is valid, and has a next run exactly while enabled. *)
Definition schedule_wf (s : Schedule) : Prop :=
  Schedule_Validate s = None ∧ (Sched_Enabled s = true ↔ is_Some (Sched_NextRunAt s)).

Lemma Next_validate s t next : Schedule_Next s t = inr next → Schedule_Validate s = None.
Proof. intros Hn. apply (Validate_Next s t). eauto. Qed.

(** [realign] as a function of the clock. *)
Definition realigned (now : Z) (s : Schedule) : string + Schedule :=
  if Sched_Enabled s then
    match Schedule_Next s now with
    | inl err => inl err
    | inr next => inr (Sched_set_NextRunAt (Some next) s)
    end
  else inr s.

Lemma wp_realign Q s now w :
  clock w = now →
  (∀ err, realigned now s = inl err → Q (inl (EConnect CodeInvalidArgument err)) w) →
  (∀ s', realigned now s = inr s' → Q (inr s') w) →
  wp (realign s) Q w.
Proof.
  unfold realign, realigned. intros Hc Herr Hok. destruct (Sched_Enabled s); [|by apply Hok].
  apply wp_bind, wp_time_Now. rewrite Hc.
  destruct (Schedule_Next s now); [by apply Herr | by apply Hok].
Qed.

Lemma realigned_valid now s : Schedule_Validate s = None → ∃ s', realigned now s = inr s'.
Proof.
  intros Hv. apply (Validate_Next s now) in Hv as [next Hn]. unfold realigned. rewrite Hn.
  destruct (Sched_Enabled s); eauto.
Qed.

Lemma realigned_wf now s s' :
  realigned now s = inr s' → Schedule_Validate s = None →
  (Sched_Enabled s = false → Sched_NextRunAt s = None) →
  schedule_wf s' ∧ Sched_ID s' = Sched_ID s ∧ Sched_OrgID s' = Sched_OrgID s ∧
  Sched_LastTaskID s' = Sched_LastTaskID s ∧ Sched_CreatedBy s' = Sched_CreatedBy s.
Proof.
  unfold realigned, schedule_wf. intros Hr Hv Hn. destruct (Sched_Enabled s) eqn:He.
  - destruct (Schedule_Next s now); [done|]. injection Hr as <-. simpl. rewrite He.
    by repeat split.
  - injection Hr as <-. rewrite Hn, He by done. by repeat split.
Qed.

Definition create_schedule_ok (caller : UserInfo) (req : ScheduleRequest) (enabled : bool)
    (now : Z) (tb : Tables) (s : Schedule) (tb' : Tables) (ns : list Notification) : Prop :=
  ∃ id s0, may_create caller (SR_Workspace req) (SR_Runner req) = true ∧
    has_workspace tb (SR_Runner req) (SR_Workspace req) (User_OrgID caller) = true ∧
    fk_user tb (User_ID caller) = true ∧
    (∀ i, is_Some (t_schedules tb !! i) → i < id) ∧
    Schedule_Validate (new_schedule caller req enabled) = None ∧
    realigned now (new_schedule caller req enabled) = inr s0 ∧
    s = Sched_set_ids id now now s0 ∧
    tb' = with_schedules <[id := scheduleRow id now now s0]> tb ∧
    ns = [schedule_change caller now "created" id].

Definition create_schedule_err (caller : UserInfo) (req : ScheduleRequest) (enabled : bool)
    (tb : Tables) (e : Err) : Prop :=
  create_err caller (SR_Workspace req) (SR_Runner req) tb e ∨
  (Schedule_Validate (new_schedule caller req enabled) ≠ None ∧ CodeOf e = CodeInvalidArgument) ∨
  (fk_user tb (User_ID caller) = false ∧ CodeOf e = CodeInternal).

Lemma CreateSchedule_spec caller req enabled :
  HandlerSpec (Server_CreateSchedule caller req enabled)
    (create_schedule_ok caller req enabled) (create_schedule_err caller req enabled).
Proof.
  intros w Hw. pose proof (at_refl w Hw) as Hat.
  unfold Server_CreateSchedule, HasWorkspace, validated, StoreCreateSchedule.
  wps; wp_err.
  - right. left. by rewrite Heqo.
  - eapply wp_realign; [exact (same_clock _ _ _ _ (at_same _ _ _ _ H))| |].
    + intros err Herr. destruct (realigned_valid (clock w) _ Heqo) as [? Hr]. congruence.
    + intros s0 Hs0. destruct (realigned_wf _ _ _ Hs0 Heqo) as (_ & _ & Ho & Hl & Hu); [done|].
      apply (has_workspace_fk _ _ _ _ _ (proj2 Hw)) in Heqb0 as Hfk.
      wps; wp_err; rewrite Hl, Ho, Hu in H0; simpl in H0; rewrite Hfk in H0; simpl in H0.
      * right. right. by split.
      * do 2 eexists. split; [eassumption|]. exists (s SeqSchedules), s0. split; [done|].
        split; [done|]. split; [done|]. split; [by apply ids_schedules|]. auto.
  - left. by right.
  - left. by left.
Qed.

(** An API key names no user, and [schedules.created_by] refers to one: keys
    cannot create schedules, whatever their scopes. *)
Lemma keyless_user_cannot_schedule caller req enabled w r w' :
  world_ok w → fk_user (committed w) (User_ID caller) = false →
  Server_CreateSchedule caller req enabled w = (r, w') →
  (∃ e, r = inl e) ∧ committed w' = committed w.
Proof.
  intros Hw Hu Hr. apply (HandlerSpec_run _ _ _ _ _ _ (CreateSchedule_spec caller req enabled) Hw) in Hr.
  destruct r as [e|s]; simpl in Hr.
  - destruct Hr as [Hat _]. split; [by exists e|exact (at_committed _ _ _ _ Hat)].
  - destruct Hr as (tb & ns & _ & id & s0 & _ & _ & Hfk & _). congruence.
Qed.

(** Handlers that rewrite one of the org's schedules. *)
Definition rewrite_ok (edit : Z → Schedule → string + Schedule) (pre : Prop) (action : string)
    (caller : UserInfo) (id : Z)
    (now : Z) (tb : Tables) (s' : Schedule) (tb' : Tables) (ns : list Notification) : Prop :=
  pre ∧ ∃ s, select_schedule tb id (User_OrgID caller) = Some s ∧ edit now s = inr s' ∧
    put_schedule s' now tb = inr ((), tb') ∧
    ns = [schedule_change caller now action (Sched_ID s')].

Definition UpdateSchedule_edit (req : ScheduleRequest) (now : Z) (s : Schedule)
    : string + Schedule :=
  match Schedule_Validate (edit_schedule req s) with
  | Some err => inl err
  | None => realigned now (edit_schedule req s)
  end.

Definition SetEnabled_edit (enabled : bool) (now : Z) (s : Schedule) : string + Schedule :=
  let s := Sched_set_Enabled enabled s in
  if enabled then realigned now s else inr (Sched_set_NextRunAt None s).

Definition edit_err (edit : Z → Schedule → string + Schedule) (caller : UserInfo) (id : Z)
    (now : Z) (tb : Tables) (e : Err) : Prop :=
  match select_schedule tb id (User_OrgID caller) with
  | None => CodeOf e = CodeNotFound
  | Some s => (∃ err, edit now s = inl err) ∧ CodeOf e = CodeInvalidArgument
  end.

Lemma rewrite_fk tb q id orgID s s' :
  tables_ok tb q → select_schedule tb id orgID = Some s →
  Sched_ID s' = Sched_ID s → Sched_OrgID s' = Sched_OrgID s →
  Sched_LastTaskID s' = Sched_LastTaskID s →
  ∀ now, ∃ tb', put_schedule s' now tb = inr ((), tb').
Proof.
  intros Hok Hsel Hi Ho Hl now.
  destruct (select_schedule_ok _ _ _ _ _ Hok Hsel) as (_ & Hid & Horg & _ & Hfk).
  unfold put_schedule. rewrite Hi, Ho, Hid, Horg, Hsel, Hl, Hfk. eauto.
Qed.

(** The tail the two rewriting handlers share. *)
Lemma wp_rewrite_tail (edit : Z → Schedule → string + Schedule) (pre : Prop) action caller id
    errs w w1 s s' :
  world_ok w → pre → select_schedule (committed w) id (User_OrgID caller) = Some s →
  edit (clock w) s = inr s' →
  Sched_ID s' = Sched_ID s → Sched_OrgID s' = Sched_OrgID s →
  Sched_LastTaskID s' = Sched_LastTaskID s →
  in_tx w (committed w) [] (committed w) w1 →
  wp (StoreUpdateSchedule InTx s' ;; Commit InTx ;; mret s')
    (after_rollback w (λ r w', wp
      match r with
      | inl err => raise (txError (scheduleNotFound id) err)
      | inr sched =>
          now ← time_Now;
          publish (schedule_change caller now action (Sched_ID sched)) ;; mret sched
      end (outcome w (rewrite_ok edit pre action caller id (clock w) (committed w)) errs) w'))
    w1.
Proof.
  intros Hw Hpre Hsel Hed Hi Ho Hl Hin.
  destruct (rewrite_fk _ _ _ _ _ _ (proj2 Hw) Hsel Hi Ho Hl (clock w)) as [tb' Hput].
  unfold StoreUpdateSchedule. wps.
  eapply wp_exec_InTx; [done| | |].
  - intros msg w' Hn Hs. wps; wp_err.
  - intros e w' He. congruence.
  - intros [] tb1 w' Htb Hq Hin'. rewrite Hput in Htb. injection Htb as ->.
    assert (Hin2 : in_tx w (committed w) [] tb1 w').
    { apply Hin'. rewrite Hq. eapply (keeps_put_schedule _ _ _ _ _ Hput), Hin. }
    wps; wp_err. do 2 eexists. split; [eassumption|]. split; [done|]. eauto.
Qed.

Lemma wp_GetSchedule_InTx Q id orgID w0 base ns tb w :
  in_tx w0 base ns tb w →
  (∀ msg w', ¬ healthy w0 → same w0 base ns w' → Q (inl (EOther msg)) w') →
  (∀ w', select_schedule tb id orgID = None → in_tx w0 base ns tb w' → Q (inl ENoRows) w') →
  (∀ s w', select_schedule tb id orgID = Some s → in_tx w0 base ns tb w' → Q (inr s) w') →
  wp (StoreGetSchedule InTx id orgID) Q w.
Proof. intros Hin Hf Hn Hok. unfold StoreGetSchedule. wps; eauto. Qed.

Definition update_schedule_err (caller : UserInfo) (id : Z) (req : ScheduleRequest)
    (now : Z) (tb : Tables) (e : Err) : Prop :=
  create_err caller (SR_Workspace req) (SR_Runner req) tb e ∨
  edit_err (UpdateSchedule_edit req) caller id now tb e.

Definition ScheduleSpec {A} (m : M A)
    (ok : Z → Tables → A → Tables → list Notification → Prop)
    (err : Z → Tables → Err → Prop) : Prop :=
  ∀ w, world_ok w → wp m (outcome w (ok (clock w) (committed w)) (err (clock w) (committed w))) w.

Lemma UpdateSchedule_spec caller id req :
  ScheduleSpec (Server_UpdateSchedule caller id req)
    (rewrite_ok (UpdateSchedule_edit req)
       (may_create caller (SR_Workspace req) (SR_Runner req) = true) "updated" caller id)
    (update_schedule_err caller id req).
Proof.
  intros w Hw. pose proof (at_refl w Hw) as Hat.
  unfold Server_UpdateSchedule, HasWorkspace, GetScheduleForUpdate. wps; wp_err.
  - eapply wp_GetSchedule_InTx; [done| | |]; clear H0.
    + intros msg w1 Hn Hs. wps; wp_err.
    + intros w1 Hsel Hin. wps; wp_err. right. unfold edit_err. by rewrite Hsel.
    + intros s w1 Hsel Hin. unfold validated. wps; wp_err.
      * right. unfold edit_err, UpdateSchedule_edit. rewrite Hsel, Heqo. eauto.
      * eapply wp_realign; [exact (same_clock _ _ _ _ (it_same _ _ _ _ _ Hin))| |].
        -- intros err Herr. destruct (realigned_valid (clock w) _ Heqo) as [? Hr]. congruence.
        -- intros s' Hs'.
           assert (Hk : Sched_ID s' = Sched_ID s ∧ Sched_OrgID s' = Sched_OrgID s ∧
             Sched_LastTaskID s' = Sched_LastTaskID s).
           { revert Hs'. unfold realigned. repeat case_match; intros [= <-]; done. }
           destruct Hk as (? & ? & ?). eapply wp_rewrite_tail; try done.
           unfold UpdateSchedule_edit. by rewrite Heqo.
  - left. by right.
  - left. by left.
Qed.

Lemma SetScheduleEnabled_spec caller id enabled :
  ScheduleSpec (Server_SetScheduleEnabled caller id enabled)
    (rewrite_ok (SetEnabled_edit enabled) (Allow (User_Scopes caller) OpTaskWrite [] = true)
       "updated" caller id)
    (λ now tb e, if Allow (User_Scopes caller) OpTaskWrite []
                 then edit_err (SetEnabled_edit enabled) caller id now tb e
                 else CodeOf e = CodePermissionDenied).
Proof.
  intros w Hw. pose proof (at_refl w Hw) as Hat.
  unfold Server_SetScheduleEnabled, GetScheduleForUpdate. wps; wp_err; [|done].
  eapply wp_GetSchedule_InTx; [done| | |]; clear H.
  - intros msg w1 Hn Hs. wps; wp_err.
  - intros w1 Hsel Hin. wps; wp_err. unfold edit_err. by rewrite Hsel.
  - intros s w1 Hsel Hin. apply wp_bind. destruct enabled.
    + eapply wp_realign; [exact (same_clock _ _ _ _ (it_same _ _ _ _ _ Hin))| |].
      * intros err Herr. wps; wp_err. unfold edit_err, SetEnabled_edit.
        rewrite Hsel, Herr. eauto.
      * intros s' Hs'. eapply wp_rewrite_tail; try done;
          revert Hs'; unfold realigned; repeat case_match; intros [= <-]; done.
    + apply wp_ret. eapply wp_rewrite_tail; done.
Qed.

Lemma DeleteSchedule_spec caller id :
  HandlerSpec (Server_DeleteSchedule caller id)
    (λ now tb _ tb' ns, Allow (User_Scopes caller) OpTaskWrite [] = true ∧
       tb' = (match select_schedule tb id (User_OrgID caller) with
              | Some _ => with_schedules (delete id) tb | None => tb end) ∧
       ns = [schedule_change caller now "deleted" id])
    (λ _ e, Allow (User_Scopes caller) OpTaskWrite [] = false ∧ CodeOf e = CodePermissionDenied).
Proof.
  intros w Hw. pose proof (at_refl w Hw) as Hat.
  unfold Server_DeleteSchedule, StoreDeleteSchedule. wps; wp_err; try done.
  do 2 eexists. split; [eassumption|]. auto.
Qed.

Lemma GetSchedule_spec caller id :
  HandlerSpec (Server_GetSchedule caller id)
    (λ _ tb s tb' ns, Allow (User_Scopes caller) OpTaskRead [] = true ∧
       select_schedule tb id (User_OrgID caller) = Some s ∧ tb' = tb ∧ ns = [])
    (λ tb e, if Allow (User_Scopes caller) OpTaskRead []
             then select_schedule tb id (User_OrgID caller) = None ∧ CodeOf e = CodeNotFound
             else CodeOf e = CodePermissionDenied).
Proof.
  intros w Hw. pose proof (at_refl w Hw) as Hat.
  unfold Server_GetSchedule, StoreGetSchedule. wps; wp_err; try done.
  do 2 eexists. split; [eassumption|]. auto.
Qed.

Lemma ListSchedules_spec caller :
  HandlerSpec (Server_ListSchedules caller)
    (λ _ tb l tb' ns, (∀ s, s ∈ l ↔ Sched_OrgID s = User_OrgID caller ∧
                                    ∃ i, t_schedules tb !! i = Some s) ∧ tb' = tb ∧ ns = [])
    (λ _ e, Allow (User_Scopes caller) OpTaskRead [] = false ∧ CodeOf e = CodePermissionDenied).
Proof.
  intros w Hw. pose proof (at_refl w Hw) as Hat.
  unfold Server_ListSchedules, StoreListSchedules. wps; wp_err; try done.
  do 2 eexists. split; [eassumption|]. split; [|done]. intros s.
  by rewrite elem_of_order_by_desc, elem_of_where, Z.eqb_eq, elem_of_rows.
Qed.

(** A manual run: one occurrence, and nothing on the schedule. *)
Definition run_ok (caller : UserInfo) (id : Z)
    (now : Z) (tb : Tables) (task : Task) (tb' : Tables) (ns : list Notification) : Prop :=
  ∃ s tid, select_schedule tb id (User_OrgID caller) = Some s ∧
    may_create caller (Sched_Workspace s) (Sched_Runner s) = true ∧
    fired now s tid tb tb' ∧ task = occurrence now tid s ∧
    ns = [with_user caller (fire_notification now task)].

Definition run_err (caller : UserInfo) (id : Z) (tb : Tables) (e : Err) : Prop :=
  match AllowOp (User_Scopes caller) OpTaskCreate, select_schedule tb id (User_OrgID caller) with
  | false, _ => CodeOf e = CodePermissionDenied
  | true, None => CodeOf e = CodeNotFound
  | true, Some s => may_create caller (Sched_Workspace s) (Sched_Runner s) = false ∧
                    CodeOf e = CodePermissionDenied
  end.

Lemma RunSchedule_spec caller id :
  HandlerSpec (Server_RunSchedule caller id) (run_ok caller id) (run_err caller id).
Proof.
  intros w Hw. pose proof (at_refl w Hw) as Hat. unfold Server_RunSchedule, run_err.
  wps; wp_err; [|done].
  eapply wp_GetSchedule_InTx; [done| | |]; clear H.
  - intros msg w1 Hn Hs. wps; wp_err.
  - intros w1 Hsel Hin. wps; wp_err. by rewrite Hsel.
  - intros s w1 Hsel Hin. wps; wp_err; [|by rewrite Hsel].
    destruct (select_schedule_ok _ _ _ _ _ (proj2 Hw) Hsel) as (_ & _ & _ & Hfk & _).
    eapply wp_Fire; [done|done| |].
    + intros msg w2 Hn Hs. wps; wp_err.
    + intros tid tb' w2 Hfired Hin2 _. wps; wp_err.
      do 2 eexists. split; [eassumption|]. exists s, tid. auto.
Qed.

(** ** Properties *)

(** a manual run works whether or not the schedule is enabled or still
    valid, leaves every schedule row (next run, last run, last task) as it
    was, and creates the task and the events a scheduled fire creates. *)
Theorem RunSchedule_keeps_cadence (caller : UserInfo) (id : Z) (w w' : World) (task : Task) :
  world_ok w → Server_RunSchedule caller id w = (inr task, w') →
  t_schedules (committed w') = t_schedules (committed w) ∧
  ∃ s tid, t_schedules (committed w) !! id = Some s ∧ Sched_OrgID s = User_OrgID caller ∧
    task = occurrence (clock w) tid s ∧
    fired (clock w) s tid (committed w) (committed w').
Proof.
  intros Hw Hrun.
  destruct (HandlerSpec_run _ _ _ _ _ _ (RunSchedule_spec caller id) Hw Hrun)
    as (tb & ns & Hat & s & tid & Hsel & _ & Hf & Ht & _).
  apply select_schedule_Some in Hsel as [Hs Ho]. rewrite (at_committed _ _ _ _ Hat).
  split; [|exists s, tid; auto]. by destruct Hf as [_ (_ & _ & -> & _)%add_events_frame].
Qed.
End ApiSchedule.

Lemma RunSchedule_keeps_cadence_witness :
  let w := schedule_world in
  let w' := final (Server_RunSchedule sample_caller 2) w in
  t_schedules (committed w') = t_schedules (committed w).
Proof.
  intros w w'.
  apply (RunSchedule_keeps_cadence sample_caller 2 w w'
           (occurrence (clock w) 8 (sample_schedule 2 "0 0 30 2 *")));
    [apply schedule_world_ok | vm_compute; reflexivity].
Defined.
