(* ===== verification/Archiver.v ===== *)
(** * The archiver

    Models [internal/server/archiver/archiver.go]: one batch of auto-archive
    work and the transaction that archives one candidate.  The candidate list
    is read outside the transactions, so each one re-checks the row against
    the version it was listed with. *)

From S2P Require Import Prelude AuthScope EventModel TaskModel Links PubSub ScheduleModel Rules.
From S2P Require Import Store StoreOps StoreLogic ApiBase Timeline ShellServer ApiTask.
From S2P Require Import ApiTaskSpec Scheduler.

Definition archive_event (task : Task) (from : TaskStatus) : Event :=
  newEvent (Task_ID task) (Task_OrgID task) false
    (Lifecycle (mkLifecycle LifecycleKindAutoArchived RunnerActor (Label from)
                  (Label (Task_Status task)) "" [])).

Definition archive_notification (now : Z) (due : TaskDueForArchive) : Notification :=
  mkNotification "change" (task_resources "archived" (Due_ID due)) now (Due_OrgID due) "" "" ""
    TaskStatusUnspecified "" false.

(** [archive]: whether the candidate was archived; a skip is not an error. *)
Definition archive (due : TaskDueForArchive) : M bool :=
  r ← catch (WithTx NoTx (λ tx,
    t ← GetTaskForUpdate tx (Due_ID due) (Due_OrgID due);
    if Task_Archived t || negb (Task_Version t =? Due_Version due) then raise ESkip
    else
      let from := Task_Status t in
      let (ok, t') := Archive t in
      if negb ok then raise ESkip
      else
        UpdateTask tx t' ;;
        CreateEvent tx (archive_event t' from) ;;
        Commit tx));
  match r with
  | inl err => if isSkip err then mret false else raise err
  | inr _ =>
      now ← time_Now;
      publish (archive_notification now due) ;;
      mret true
  end.

(** The loop of [Tick]: a candidate that fails is logged and passed over.
    The result is how many were archived. *)
Fixpoint archive_all (due : list TaskDueForArchive) : M nat :=
  match due with
  | [] => mret 0%nat
  | d :: rest =>
      r ← catch (archive d);
      n ← archive_all rest;
      mret (match r with inr true => S n | _ => n end)
  end.

Definition ArchiverTick (batchSize : nat) : M nat :=
  r ← catch (ListTasksDueForArchive NoTx batchSize);
  match r with
  | inl err => raise (EWrap "list tasks due for archive" err)
  | inr due => archive_all due
  end.

(** ** One candidate *)

(** Archived: the row is the candidate's version, and archivable. *)
Definition archived_ok_step (due : TaskDueForArchive) (now : Z) (tb tb' : Tables) : Prop :=
  ∃ row, select_task tb (Due_ID due) (Due_OrgID due) = Some row ∧
    Row_version row = Due_Version due ∧ CanArchive (toModelTask row) = true ∧
    add_events now [archive_event (set_Archived true (toModelTask row))
                      (Task_Status (toModelTask row))]
      (put_task (set_Archived true (toModelTask row)) now tb) tb'.

Definition archive_ok (due : TaskDueForArchive)
    (now : Z) (tb : Tables) (archived : bool) (tb' : Tables) (ns : list Notification) : Prop :=
  if archived then archived_ok_step due now tb tb' ∧ ns = [archive_notification now due]
  else tb' = tb ∧ ns = [] ∧
    ∃ row, select_task tb (Due_ID due) (Due_OrgID due) = Some row ∧
      (Row_version row ≠ Due_Version due ∨ CanArchive (toModelTask row) = false).

Lemma Archive_ok t t' : Archive t = (true, t') → CanArchive t = true ∧ t' = set_Archived true t.
Proof. unfold Archive. destruct (CanArchive t); [by intros [= <-] | done]. Qed.

Lemma archive_spec due :
  HandlerSpec (archive due) (archive_ok due)
    (λ tb e, select_task tb (Due_ID due) (Due_OrgID due) = None ∧ e = ENoRows).
Proof.
  intros w Hw. pose proof (at_refl w Hw) as Hat. unfold archive. wps; wp_err; try done.
  - do 2 eexists. split; [eassumption|]. split; [done|]. split; [done|]. exists r.
    split; [done|]. apply orb_true_iff in Heqb as [Ha|Hv%negb_true_iff%Z.eqb_neq]; [right|by left].
    unfold CanArchive. by rewrite Ha.
  - exfalso. pose proof (mutate_fk _ _ _ _ _ _ _ (clock w) keeps_Archive (proj2 Hw) H0 Heqp) as Hfk.
    simpl in H1. congruence.
  - apply Archive_ok in Heqp as [Hc ->].
    apply orb_false_iff in Heqb as [_ Hv%negb_false_iff%Z.eqb_eq].
    do 2 eexists. split; [exact H|]. split; [|done]. exists r. repeat (split; [done|]).
    by apply add_one.
  - do 2 eexists. split; [eassumption|]. split; [done|]. split; [done|]. exists r.
    split; [done|]. right. revert Heqp. unfold Archive. by destruct (CanArchive _).
Qed.

(** ** Candidates *)

Lemma of_int_archivable n :
  (n =? 5) || (n =? 6) || (n =? 7) || (n =? 8) =
  IsTerminal (TaskStatus_of_int n) || bool_decide (TaskStatus_of_int n = TaskStatusDraft).
Proof. destruct n as [|p|p]; [done| |done]. by do 4 (try destruct p as [p|p|]). Qed.

Lemma of_int_none n : (n =? 0) = bool_decide (TaskCommand_of_int n = TaskCommandNone).
Proof. by destruct n as [|[[p|p|]|[p|p|]|]|p]. Qed.

(** The query's condition, in the terms of the model: archivable, with a
    deadline that has elapsed. *)
Lemma archive_due_CanArchive now row :
  archive_due now row = true ↔
  CanArchive (toModelTask row) = true ∧ Row_auto_archive row ≠ 0 ∧
  Row_updated_at row + Row_auto_archive row < now.
Proof.
  unfold archive_due, CanArchive, IsDone. simpl. rewrite of_int_archivable, (of_int_none (Row_command row)).
  destruct (Row_archived row), (bool_decide (TaskCommand_of_int _ = _)); simpl;
    rewrite ?andb_false_r, ?andb_true_r; simpl; try naive_solver.
  rewrite !andb_true_iff, negb_true_iff, Z.eqb_neq, Z.ltb_lt. naive_solver.
Qed.

(** ** A batch *)

Definition archived_row (now : Z) (row : TaskRow) : TaskRow :=
  updateRow (set_Archived true (toModelTask row)) now row.

(** The row a candidate stands for, still at the candidate's version and
    archivable. *)
Definition still_due (tb : Tables) (due : TaskDueForArchive) (row : TaskRow) : Prop :=
  select_task tb (Due_ID due) (Due_OrgID due) = Some row ∧
  Row_version row = Due_Version due ∧ CanArchive (toModelTask row) = true.

(** Rows are left alone or archived, and only for a candidate still due. *)
Definition archive_effect (now : Z) (due : list TaskDueForArchive) (tb tb' : Tables) : Prop :=
  ∀ i, t_tasks tb' !! i = t_tasks tb !! i ∨
    ∃ d row, d ∈ due ∧ Due_ID d = i ∧ still_due tb d row ∧
      t_tasks tb' !! i = Some (archived_row now row).

Definition archive_complete (now : Z) (due : list TaskDueForArchive) (tb tb' : Tables) : Prop :=
  ∀ d row, d ∈ due → still_due tb d row →
    t_tasks tb' !! Due_ID d = Some (archived_row now row).

Lemma archived_not_due tb d now row row' :
  still_due tb d row' → t_tasks tb !! Due_ID d = Some (archived_row now row) → False.
Proof. intros ([Hr _]%select_task_Some & _ & Hc) Ha. naive_solver. Qed.

Lemma archived_ok_step_effect due now tb tb' q :
  tables_ok tb q → archived_ok_step due now tb tb' →
  ∃ row, still_due tb due row ∧
    t_tasks tb' = <[Due_ID due := archived_row now row]> (t_tasks tb).
Proof.
  intros Hok (row & Hr & Hv & Hc & (-> & _)%add_events_frame). exists row. split; [done|].
  pose proof (proj1 (select_task_Some _ _ _ _) Hr) as [Hi Ho].
  destruct (task_rows _ _ Hok _ _ Hi) as [Hid _]. unfold put_task. simpl.
  by rewrite Ho, Hid, Hr.
Qed.

Lemma archive_ok_effect due now tb b tb' ns q :
  tables_ok tb q → archive_ok due now tb b tb' ns →
  archive_effect now [due] tb tb' ∧ archive_complete now [due] tb tb' ∧
  length ns = Nat.b2n b.
Proof.
  intros Hok. destruct b; simpl.
  - intros [(row & Hd & Heq)%(archived_ok_step_effect _ _ _ _ _ Hok) ->]. split; [|split; [|done]].
    + intros i. rewrite Heq. destruct (decide (i = Due_ID due)) as [->|Hne].
      * right. exists due, row. rewrite lookup_insert_eq. repeat split; try apply Hd. by left.
      * left. by rewrite lookup_insert_ne.
    + intros d row' ->%list_elem_of_singleton Hd'. rewrite Heq, lookup_insert_eq.
      destruct Hd as [Hr _], Hd' as [Hr' _]. by simplify_eq.
  - intros (-> & -> & row & Hr & Hn). split; [by left|split; [|done]].
    intros d row' ->%list_elem_of_singleton (Hr' & Hv & Hc). simplify_eq.
    destruct Hn; congruence.
Qed.

Lemma archive_effect_trans now due due' tb1 tb2 tb3 :
  archive_effect now due tb1 tb2 → archive_effect now due' tb2 tb3 →
  archive_effect now (due ++ due') tb1 tb3.
Proof.
  intros H12 H23 i. destruct (H23 i) as [->|(d & row & Hd & <- & Hdue & ->)].
  - destruct (H12 i) as [->|(d & row & Hd & <- & Hdue & ->)]; [by left|right].
    exists d, row. split; [by apply elem_of_app; left|done].
  - destruct (H12 (Due_ID d)) as [Heq|(d0 & row0 & _ & Heq & _ & H0)].
    + right. exists d, row. split; [by apply elem_of_app; right|]. split; [done|].
      split; [|done]. destruct Hdue as [[Hr Ho]%select_task_Some ?].
      split; [|done]. apply select_task_Some. by rewrite <- Heq.
    + exfalso. by eapply archived_not_due.
Qed.

Lemma archive_complete_trans now due due' tb1 tb2 tb3 :
  archive_effect now due tb1 tb2 → archive_effect now due' tb2 tb3 →
  archive_complete now due tb1 tb2 → archive_complete now due' tb2 tb3 →
  archive_complete now (due ++ due') tb1 tb3.
Proof.
  intros H12 H23 C12 C23.
  assert (Hkeep : ∀ d row, t_tasks tb2 !! Due_ID d = Some (archived_row now row) →
            t_tasks tb3 !! Due_ID d = Some (archived_row now row)).
  { intros d row Hd. destruct (H23 (Due_ID d)) as [->|(d' & r' & _ & He & Hd' & _)]; [done|].
    exfalso. rewrite <- He in Hd. by eapply archived_not_due. }
  intros d row [Hd|Hd]%elem_of_app Hdue; [by apply Hkeep, C12|].
  pose proof (proj1 (select_task_Some _ _ _ _) (proj1 Hdue)) as [Hi Ho].
  destruct (H12 (Due_ID d)) as [Heq|(d0 & r0 & _ & He & [Hr0 _] & Ha)].
  - apply C23; [done|]. destruct Hdue as [_ ?]. split; [|done].
    apply select_task_Some. by rewrite Heq.
  - apply Hkeep. rewrite He in Hr0. apply select_task_Some in Hr0 as [Hr0 _]. by simplify_eq.
Qed.

Lemma archive_all_spec due : ∀ w, world_ok w →
  wp (archive_all due) (λ r w', ∃ n tb ns, r = inr n ∧ at_ w tb ns w' ∧ length ns = n ∧
    archive_effect (clock w) due (committed w) tb ∧
    (healthy w → archive_complete (clock w) due (committed w) tb)) w.
Proof.
  induction due as [|d due IH]; intros w Hw.
  { exists 0%nat, (committed w), []. split; [done|]. split; [by apply at_refl|].
    split; [done|]. split; [by left|]. by intros _ d row Hd%not_elem_of_nil. }
  simpl. do 2 wp_step. eapply wp_mono; [by apply archive_spec|]. intros r w1 Hout. wp_step.
  assert (∃ tb ns, at_ w tb ns w1 ∧ archive_effect (clock w) [d] (committed w) tb ∧
            length ns = match r with inr true => 1%nat | _ => 0%nat end ∧
            (healthy w → archive_complete (clock w) [d] (committed w) tb))
    as (tb1 & ns1 & Hat & He & Hl & Hc).
  { destruct r as [e|b]; simpl in Hout.
    - destruct Hout as [Hat Herr]. exists (committed w), []. split; [done|]. split; [by left|].
      split; [done|]. intros Hh d' row ->%list_elem_of_singleton [Hr _].
      destruct (Herr Hh). congruence.
    - destruct Hout as (tb & ns & Hat & Hok). exists tb, ns. split; [done|].
      destruct (archive_ok_effect _ _ _ _ _ _ _ (proj2 Hw) Hok) as (? & ? & ->).
      split; [done|]. split; [by destruct b|done]. }
  eapply wp_mono; [apply IH; by eapply at_world_ok|].
  intros r2 w2 (n & tb2 & ns2 & -> & Hat2 & Hn & He2 & Hc2). apply wp_ret.
  pose proof Hat as [[Ecom _ Eclk Hh _] _]. rewrite Eclk, Ecom in *.
  eexists _, tb2, (ns1 ++ ns2). split; [done|]. split; [by eapply at_trans|].
  split; [rewrite length_app, Hl, Hn; by destruct r as [|[]]|].
  split; [by apply (archive_effect_trans _ [d] due _ tb1)|].
  intros Hhe. apply (archive_complete_trans _ [d] due _ tb1); auto.
Qed.

(** ** Properties *)

Definition due_row (row : TaskRow) : TaskDueForArchive :=
  mkDue (Row_id row) (Row_version row) (Row_org_id row).

Definition due_rows (now : Z) (limit : nat) (tb : Tables) : list TaskRow :=
  take limit (order_by Row_updated_at (where_ (archive_due now) (rows (t_tasks tb)))).

Lemma elem_of_due_rows now limit tb row :
  row ∈ due_rows now limit tb → archive_due now row = true ∧ ∃ i, t_tasks tb !! i = Some row.
Proof.
  unfold due_rows. intros H%elem_of_take_sub. rewrite elem_of_order_by in H.
  apply elem_of_where in H as [Hd H%elem_of_rows]. auto.
Qed.

Lemma due_row_still_due now limit tb q row :
  tables_ok tb q → row ∈ due_rows now limit tb → still_due tb (due_row row) row.
Proof.
  intros Hok [Hd [i Hi]]%elem_of_due_rows. apply archive_due_CanArchive in Hd as [Hc _].
  split; [|done]. apply select_task_Some. simpl.
  by destruct (task_rows _ _ Hok _ _ Hi) as [-> _].
Qed.

(** Whatever happened to a candidate since it was listed, archiving it
    either changes nothing and publishes nothing, or found the row still at the
    listed version and archivable, archived exactly that row, recorded the
    transition and published it. *)
Theorem archive_rechecks (due : TaskDueForArchive) (w w' : World) (ok : bool) :
  world_ok w → archive due w = (inr ok, w') →
  if ok then ∃ row, still_due (committed w) due row ∧
    t_tasks (committed w') =
      <[Due_ID due := archived_row (clock w) row]> (t_tasks (committed w)) ∧
    published w' = published w ++ [archive_notification (clock w) due]
  else committed w' = committed w ∧ published w' = published w.
Proof.
  intros Hw Hrun.
  destruct (HandlerSpec_run _ _ _ _ _ _ (archive_spec due) Hw Hrun) as (tb & ns & Hat & Hok).
  pose proof (at_committed _ _ _ _ Hat) as ->. rewrite (at_published _ _ _ _ Hat).
  destruct ok; simpl in Hok.
  - destruct Hok as [(row & Hd & Heq)%(archived_ok_step_effect _ _ _ _ _ (proj2 Hw)) ->]. eauto.
  - destruct Hok as (-> & -> & _). by rewrite app_nil_r.
Qed.

Lemma ArchiverTick_spec batchSize w : world_ok w →
  wp (ArchiverTick batchSize) (λ r w', ∀ n, r = inr n → ∃ tb ns, at_ w tb ns w' ∧
    length ns = n ∧ archive_effect (clock w)
      (map due_row (due_rows (clock w) batchSize (committed w))) (committed w) tb ∧
    (healthy w → archive_complete (clock w)
      (map due_row (due_rows (clock w) batchSize (committed w))) (committed w) tb)) w.
Proof.
  intros Hw. pose proof (at_refl w Hw) as Hat. unfold ArchiverTick, ListTasksDueForArchive.
  do 3 wp_step; simpl; [by apply wp_raise|]. rename H into H1.
  pose proof H1 as [[Hc Hp Hk Hh _] _].
  eapply wp_mono; [apply archive_all_spec; by eapply at_world_ok|].
  intros r w2 (m & tb & ns & -> & Hat2 & Hl & He & Hcc) n' [= <-]. rewrite Hc, Hk in *.
  exists tb, ns. split; [exact (at_trans _ _ _ _ _ [] ns H1 Hat2)|]. auto.
Qed.

Lemma archived_row_not_due now t row : archive_due t (archived_row now row) = false.
Proof. done. Qed.

(** A tick changes no task but those whose deadline has elapsed and that
    can be archived, and those it only archives, whatever faults occur; on a
    healthy database whose due tasks fit in the batch it leaves none due. *)
Theorem ArchiverTick_archives (batchSize : nat) (w w' : World) (n : nat) :
  world_ok w → ArchiverTick batchSize w = (inr n, w') →
  (∀ i, t_tasks (committed w') !! i = t_tasks (committed w) !! i ∨
    ∃ row, t_tasks (committed w) !! i = Some row ∧ archive_due (clock w) row = true ∧
      t_tasks (committed w') !! i = Some (archived_row (clock w) row)) ∧
  length (published w') = (length (published w) + n)%nat ∧
  (healthy w →
   (length (where_ (archive_due (clock w)) (rows (t_tasks (committed w)))) <= batchSize)%nat →
   ∀ i row, t_tasks (committed w') !! i = Some row → archive_due (clock w) row = false).
Proof.
  intros Hw Hrun. pose proof (ArchiverTick_spec batchSize w Hw) as Hwp.
  unfold wp in Hwp. rewrite Hrun in Hwp. destruct (Hwp n eq_refl) as (tb & ns & Hat & Hl & He & Hc).
  rewrite (at_committed _ _ _ _ Hat), (at_published _ _ _ _ Hat), length_app.
  split; [|split; [lia|]].
  - intros i. destruct (He i) as [?|(d & row & Hd & <- & [Hr%select_task_Some _] & Ha)];
      [by left|right]. exists row. split; [apply Hr|]. split; [|done].
    apply list_elem_of_fmap in Hd as (row' & -> & [Hd [i Hi]]%elem_of_due_rows). simpl in Hr.
    destruct (task_rows _ _ (proj2 Hw) _ _ Hi) as [<- _]. destruct Hr. by simplify_eq.
  - intros Hh Hlen i row Hi. destruct (He i) as [Heq|(_ & row' & _ & _ & _ & Ha)];
      [|by simplify_eq]. destruct (archive_due (clock w) row) eqn:Hd; [exfalso|done].
    rewrite Heq in Hi. assert (Hin : row ∈ due_rows (clock w) batchSize (committed w)).
    { unfold due_rows. rewrite take_ge by (rewrite order_by_Permutation; done).
      rewrite elem_of_order_by. apply elem_of_where. split; [done|]. apply elem_of_rows. eauto. }
    specialize (Hc Hh (due_row row) row). simpl in Hc.
    destruct (task_rows _ _ (proj2 Hw) _ _ Hi) as [Hid _].
    rewrite Hid, Heq, Hi in Hc. specialize (Hc ltac:(apply list_elem_of_fmap; eauto)
      (due_row_still_due _ _ _ _ _ (proj2 Hw) Hin)). injection Hc as Hc.
    rewrite Hc in Hd. by rewrite archived_row_not_due in Hd.
Qed.

(** ** A concrete run: task 7 has completed and its deadline has elapsed. *)

Definition done_task : Task :=
  set_AutoArchive 60000000 (set_Command TaskCommandNone (set_Status TaskStatusCompleted
    (toModelTask sample_row))).
Definition archive_world : World :=
  mkWorld (with_tasks (λ _, {[7 := taskRow 7 0 0 done_task]}) sample_tables) None (λ _, 8) [] []
    1000000.

Lemma archive_world_ok : world_ok archive_world.
Proof. apply world_okb_ok. vm_compute. reflexivity. Qed.

Lemma archive_rechecks_witness :
  let w' := final (archive (mkDue 7 5 3)) archive_world in
  committed w' = committed archive_world ∧ published w' = [].
Proof.
  intros w'. apply (archive_rechecks (mkDue 7 5 3) archive_world w' false);
    [apply archive_world_ok | vm_compute; reflexivity].
Defined.

Lemma ArchiverTick_archives_witness :
  length (published (final (ArchiverTick 100) archive_world)) = 1%nat.
Proof.
  destruct (ArchiverTick_archives 100 archive_world (final (ArchiverTick 100) archive_world) 1)
    as (_ & H & _); [apply archive_world_ok | vm_compute; reflexivity | exact H].
Defined.
