(* ===== verification/Pagination.v ===== *)
(** * Keyset pagination

    Models [internal/x/pagination/pagination.go]: page tokens, [List] over a
    [Source], and the page with its two continuation tokens.  The JSON codec
    of the cursor type is the class [TokenJSON] ([encoding/json] works on any
    type by reflection); base64 is [Base64].  A [Source] answers in the store's
    monad.  [Keyset] is the contract the package's comment asks of a source,
    against which [List] is proved. *)

From S2P Require Import Prelude Base64 AuthScope EventModel TaskModel Links PubSub ScheduleModel.
From S2P Require Import Rules Store StoreOps StoreLogic.

(** ** Tokens *)

Record Token (C : Type) := mkToken { Tok_Cursor : option C; Tok_Backward : bool }.
Arguments mkToken {C}. Arguments Tok_Cursor {C}. Arguments Tok_Backward {C}.

(** [json.Marshal] and [json.Unmarshal] at [Token[C]]: a token has fields, so
    its JSON is not empty, and reads back. *)
Class TokenJSON (C : Type) := {
  json_Marshal : Token C → string;
  json_Unmarshal : string → option (Token C) }.

Class TokenJSONLaws (C : Type) `{TokenJSON C} := {
  Unmarshal_Marshal : ∀ t : Token C, json_Unmarshal (json_Marshal t) = Some t;
  Marshal_nonempty : ∀ t : Token C, json_Marshal t ≠ "" }.

Definition Encode {C} `{TokenJSON C} (t : Token C) : string := EncodeToString (json_Marshal t).

Definition Decode {C} `{TokenJSON C} (token : string) : option (Token C) :=
  b ← DecodeString token; json_Unmarshal b.

Lemma Decode_Encode {C} `{TokenJSONLaws C} (t : Token C) : Decode (Encode t) = Some t.
Proof. unfold Decode, Encode. rewrite DecodeString_EncodeToString. apply Unmarshal_Marshal. Qed.

Lemma Encode_nonempty {C} `{TokenJSONLaws C} (t : Token C) : Encode t ≠ "".
Proof. apply EncodeToString_nonempty, Marshal_nonempty. Qed.

(** ** Sources and pages *)

Class Source (T C : Type) := {
  Query : Token C → Z → M (list T);
  Cursor : T → C }.

Record Options := mkOptions {
  DefaultPageSize : Z; MaxPageSize : Z; Reverse : bool; PageSize : Z; PageToken : string }.

Record Page (T : Type) := mkPage {
  Page_Items : list T; Page_NextToken : string; Page_PrevToken : string; Page_More : bool }.
Arguments mkPage {T}. Arguments Page_Items {T}. Arguments Page_NextToken {T}.
Arguments Page_PrevToken {T}. Arguments Page_More {T}.

Definition page_size_message (max : Z) : string :=
  "page_size must be between 1 and " +:+ FormatInt max.

Section list_page.
Context {T C : Type} `{TokenJSON C} (src : Source T C).

(** The two tokens of a non-empty page: [nearest] is its first row in the
    walk's order, [furthest] its last. *)
Definition page_tokens (backward more : bool) (nearest furthest : C) : string * string :=
  if backward then
    (Encode (mkToken (Some nearest) false), Encode (mkToken (Some furthest) true))
  else
    (if more then Encode (mkToken (Some furthest) false) else "",
     Encode (mkToken (Some nearest) true)).

(** The page built from the rows of the over-fetching query. *)
Definition build_page (opt : Options) (size : Z) (backward : bool) (items : list T) : Page T :=
  let more := size <? Z.of_nat (length items) in
  let items := if more then take (Z.to_nat size) items else items in
  let (next, prev) :=
    match items, last items with
    | first :: _, Some final => page_tokens backward more (Cursor first) (Cursor final)
    | _, _ => ("", if backward then PageToken opt else "")
    end in
  mkPage (if Bool.eqb backward (Reverse opt) then items else reverse items) next prev more.

Definition List (opt : Options) : M (Page T) :=
  let size := or_int (PageSize opt) (DefaultPageSize opt) in
  if (size <? 1) || (MaxPageSize opt <? size) then
    raise (EInvalidRequest (page_size_message (MaxPageSize opt)))
  else
    token ← (if String.eqb (PageToken opt) "" then mret (mkToken None false)
             else match Decode (PageToken opt) with
                  | Some t => mret t
                  | None => raise (EInvalidRequest "bad page token")
                  end);
    r ← catch (Query token (size + 1));
    match r with
    | inl err =>
        if isUnsupportedDirection err
        then raise (EInvalidRequest "unsupported page direction")
        else raise err
    | inr items => mret (build_page opt size (Tok_Backward token) items)
    end.
End list_page.

(** ** The contract of a source *)

(** What the package's comment requires of [Query]: over one list of rows,
    ascending in the order of their cursors, the rows beyond the cursor,
    nearest first.  The rows a walk in either direction still has to visit: *)
Section keyset.
Context {T C : Type} (cur : T → C) (lt : C → C → Prop) `{!RelDecision lt}.

Definition beyond (tok : Token C) (x : T) : Prop :=
  match Tok_Cursor tok with
  | None => True
  | Some c => if Tok_Backward tok then lt c (cur x) else lt (cur x) c
  end.

#[export] Instance beyond_dec tok x : Decision (beyond tok x).
Proof using RelDecision0. unfold beyond. repeat case_match; apply _. Defined.

Definition keyset_rows (L : list T) (tok : Token C) : list T :=
  filter (beyond tok) (if Tok_Backward tok then L else reverse L).
End keyset.

(** [serves] says which tokens the source answers (a forward-only source does
    not answer the backward ones). *)
Class Keyset {T C} (src : Source T C) (lt : C → C → Prop) `{!RelDecision lt}
    (rows_of : Tables → list T) (serves : Token C → Prop) : Prop := {
  keyset_order : StrictOrder lt;
  keyset_sorted : ∀ tb q, tables_ok tb q →
    StronglySorted (λ x y, lt (Cursor x) (Cursor y)) (rows_of tb);
  keyset_query : ∀ tok limit, serves tok →
    HandlerSpec (Query tok limit)
      (λ _ tb items tb' ns, tb' = tb ∧ ns = [] ∧
         items = take (Z.to_nat limit) (keyset_rows Cursor lt (rows_of tb) tok))
      (λ _ _, False) }.

Definition with_token (opt : Options) (token : string) : Options :=
  mkOptions (DefaultPageSize opt) (MaxPageSize opt) (Reverse opt) (PageSize opt) token.

Definition size_of (opt : Options) : Z := or_int (PageSize opt) (DefaultPageSize opt).

Definition size_ok (opt : Options) : Prop := 1 ≤ size_of opt ≤ MaxPageSize opt.

Definition empty_token {C} : Token C := mkToken None false.

(** ** Walking *)

(** Filtering a sorted list by "after its [i]th element" drops that far. *)
Lemma filter_after_drop {A} (R : A → A → Prop) (l : list A) i x
    (P : A → Prop) `{!∀ y, Decision (P y)} :
  (∀ y, ¬ R y y) → (∀ y z, R y z → ¬ R z y) →
  StronglySorted R l → l !! i = Some x → (∀ y, P y ↔ R x y) → filter P l = drop (S i) l.
Proof.
  intros Hirr Hasym Hs. revert i. induction Hs as [|y l Hs IH Hy]; intros i; [done|].
  destruct i as [|i]; simpl; intros Hi HP.
  - injection Hi as ->. rewrite filter_cons_False by (rewrite HP; apply Hirr).
    rewrite drop_0. apply filter_all. eapply Forall_impl; [done|]. intros z. apply HP.
  - rewrite filter_cons_False; [by apply IH|]. rewrite HP. intros Hxy.
    rewrite Forall_forall in Hy. specialize (Hy x (list_elem_of_lookup_2 _ _ _ Hi)).
    by destruct (Hasym _ _ Hxy).
Qed.

Lemma StronglySorted_filter {A} (R : A → A → Prop) (P : A → Prop) `{!∀ y, Decision (P y)} l :
  StronglySorted R l → StronglySorted R (filter P l).
Proof.
  induction 1 as [|x l _ IH Hx]; [constructor|]. rewrite filter_cons. case_decide; [|done].
  constructor; [done|]. apply Forall_forall. intros y [_ Hy]%list_elem_of_filter.
  rewrite Forall_forall in Hx. auto.
Qed.

Lemma StronglySorted_reverse {A} (R : A → A → Prop) l :
  StronglySorted R l → StronglySorted (flip R) (reverse l).
Proof.
  induction 1 as [|x l _ IH Hx]; [constructor|]. rewrite reverse_cons.
  apply StronglySorted_app_2; [|done|by repeat constructor].
  intros y z Hy ->%list_elem_of_singleton. rewrite Forall_forall in Hx. apply Hx. by rewrite elem_of_reverse in Hy.
Qed.

Section walk_order.
Context {T C : Type} (cur : T → C) (lt : C → C → Prop) `{!RelDecision lt, !StrictOrder lt}.
Context (L : list T) (Hsorted : StronglySorted (λ x y, lt (cur x) (cur y)) L).

(** The order of a walk. *)
Definition ahead (backward : bool) (x y : T) : Prop :=
  if backward then lt (cur x) (cur y) else lt (cur y) (cur x).

Lemma keyset_rows_sorted tok :
  StronglySorted (ahead (Tok_Backward tok)) (keyset_rows cur lt L tok).
Proof using Hsorted.
  unfold keyset_rows, ahead. apply StronglySorted_filter.
  destruct (Tok_Backward tok); [done|]. by apply StronglySorted_reverse in Hsorted.
Qed.

(** Resuming from a row of a walk leaves exactly the rows after it. *)
Lemma keyset_rows_resume tok i x :
  keyset_rows cur lt L tok !! i = Some x →
  keyset_rows cur lt L (mkToken (Some (cur x)) (Tok_Backward tok)) =
  drop (S i) (keyset_rows cur lt L tok).
Proof using Hsorted StrictOrder0.
  intros Hi. pose proof (list_elem_of_lookup_2 _ _ _ Hi) as Hin.
  unfold keyset_rows in Hin. apply list_elem_of_filter in Hin as [Hx _].
  rewrite <- (filter_after_drop (ahead (Tok_Backward tok)) _ i x
    (beyond cur lt (mkToken (Some (cur x)) (Tok_Backward tok)))); [| | |by apply keyset_rows_sorted|done|done].
  - unfold keyset_rows. simpl. symmetry. apply list_filter_filter_l. intros y. unfold beyond in *.
    simpl. destruct (Tok_Cursor tok); [|done]. destruct (Tok_Backward tok); intros Hy;
      by etrans.
  - intros y. unfold ahead. destruct (Tok_Backward tok); apply irreflexivity, _.
  - intros y z. unfold ahead. destruct (Tok_Backward tok); intros H1 H2;
      by destruct (irreflexivity lt (cur y)); etrans.
Qed.
End walk_order.

(** ** One page *)

(** The page's rows in the order they were walked. *)
Definition walked {T} (opt : Options) (backward : bool) (page : Page T) : list T :=
  if Bool.eqb backward (Reverse opt) then Page_Items page else reverse (Page_Items page).

(** What [PageToken] stands for. *)
Definition resolves {C} `{TokenJSON C} (opt : Options) (tok : Token C) : Prop :=
  (PageToken opt = "" ∧ tok = empty_token) ∨
  (PageToken opt ≠ "" ∧ Decode (PageToken opt) = Some tok).

Lemma resolves_Encode {C} `{TokenJSONLaws C} opt (tok : Token C) :
  resolves (with_token opt (Encode tok)) tok.
Proof. right. split; [apply Encode_nonempty | apply Decode_Encode]. Qed.

Lemma take_over_fetch {A} n (R : list A) :
  let items := take (S n) R in
  let more := Z.of_nat n <? Z.of_nat (length items) in
  more = (n <? length R)%nat ∧ (if more then take n items else items) = take n R.
Proof.
  simpl. rewrite length_take, take_take, (Nat.min_l n (S n)) by lia.
  destruct (Nat.ltb_spec n (length R)), (Z.ltb_spec (Z.of_nat n) (Z.of_nat (S n `min` length R)));
    try lia; [done|]. split; [done|]. by rewrite !take_ge by lia.
Qed.

Section page_facts.
Context {T C : Type} `{TokenJSONLaws C} (src : Source T C).
Context (opt : Options) (n : nat) (backward : bool) (R : list T).
Let page := build_page src opt (Z.of_nat n) backward (take (S n) R).

Lemma page_unfold :
  page = mkPage (if Bool.eqb backward (Reverse opt) then take n R else reverse (take n R))
    (Page_NextToken page) (Page_PrevToken page) (n <? length R)%nat ∧
  (Page_NextToken page, Page_PrevToken page) =
    match take n R, last (take n R) with
    | first :: _, Some final =>
        page_tokens backward (n <? length R)%nat (Cursor first) (Cursor final)
    | _, _ => ("", if backward then PageToken opt else "")
    end.
Proof.
  destruct (take_over_fetch n R) as [Hm Hi]. unfold page, build_page. rewrite Nat2Z.id, Hi, Hm.
  by repeat (case_match; simplify_eq/=).
Qed.

Lemma page_walked : walked opt backward page = take n R.
Proof.
  destruct page_unfold as [-> _]. unfold walked. simpl.
  by destruct (Bool.eqb _ _); rewrite ?reverse_involutive.
Qed.

Lemma page_more : Page_More page = (n <? length R)%nat.
Proof. by destruct page_unfold as [-> _]. Qed.

(** The last row of a page with more rows behind it. *)
Lemma page_final : (0 < n)%nat → R ≠ [] →
  ∃ first final, take n R !! 0%nat = Some first ∧ R !! 0%nat = Some first ∧
    R !! pred (n `min` length R) = Some final ∧
    (Page_NextToken page, Page_PrevToken page) =
      page_tokens backward (n <? length R)%nat (Cursor first) (Cursor final).
Proof.
  intros Hn HR. destruct page_unfold as [_ Htok]. destruct R as [|first rest]; [done|].
  destruct n as [|k]; [lia|]. cbn [take] in Htok.
  assert (∃ final, last (first :: take k rest) = Some final) as [final Hf].
  { destruct (last (first :: take k rest)) eqn:E; [eauto|]. by apply last_None in E. }
  rewrite Hf in Htok. exists first, final. split; [done|]. split; [done|]. split; [|done].
  rewrite last_lookup in Hf. cbn [length] in *. rewrite length_take in Hf.
  change (first :: take k rest) with (take (S k) (first :: rest)) in Hf.
  apply lookup_take_Some in Hf as [Hf _]. rewrite <- Hf. f_equal.
Qed.
End page_facts.

Section list_spec.
Context {T C : Type} `{TokenJSONLaws C} (src : Source T C).
Context (lt : C → C → Prop) `{!RelDecision lt} (rows_of : Tables → list T)
  (serves : Token C → Prop) `{!Keyset src lt rows_of serves}.

(** The rows a token's walk still has to visit. *)
Definition remaining (tb : Tables) (tok : Token C) : list T :=
  keyset_rows Cursor lt (rows_of tb) tok.

Definition page_of (opt : Options) (tb : Tables) (tok : Token C) : Page T :=
  build_page src opt (size_of opt) (Tok_Backward tok)
    (take (S (Z.to_nat (size_of opt))) (remaining tb tok)).

Lemma List_spec opt tok :
  size_ok opt → resolves opt tok → serves tok →
  HandlerSpec (List src opt)
    (λ _ tb page tb' ns, tb' = tb ∧ ns = [] ∧ page = page_of opt tb tok) (λ _ _, False).
Proof using Keyset0.
  intros [Hlo Hhi] Hres Hserves w Hw. unfold List. fold (size_of opt).
  destruct (Z.ltb_spec (size_of opt) 1); [lia|].
  destruct (Z.ltb_spec (MaxPageSize opt) (size_of opt)); [lia|]. cbn [orb].
  assert (Htok : (if String.eqb (PageToken opt) "" then mret (mkToken None false)
             else match Decode (PageToken opt) with
                  | Some t => mret t
                  | None => raise (EInvalidRequest "bad page token")
                  end) w = (inr tok, w)).
  { destruct Hres as [[-> ->]|[Hne ->]]; [done|]. by destruct (String.eqb_spec (PageToken opt) ""). }
  apply wp_bind. unfold wp at 1. rewrite Htok. do 2 wp_step.
  eapply wp_mono; [by apply keyset_query|]. intros [err|items] w1 Hout; simpl in Hout.
  - destruct (isUnsupportedDirection err); by destruct Hout.
  - destruct Hout as (tb & ns & Hat & -> & -> & ->). apply wp_ret. exists (committed w), [].
    split; [done|]. split; [done|]. split; [done|]. unfold page_of, remaining.
    replace (Z.to_nat (size_of opt + 1)) with (S (Z.to_nat (size_of opt))) by lia. done.
Qed.
End list_spec.

(** ** Walks *)

Section walks.
Context {T C : Type} `{TokenJSONLaws C} (src : Source T C).
Context (lt : C → C → Prop) `{!RelDecision lt} (rows_of : Tables → list T)
  (serves : Token C → Prop) `{!Keyset src lt rows_of serves}.

Definition out_of_fuel {A} : M A := raise (EOther "out of fuel").

(** A client that scrolls back until [NextToken] is empty, collecting the
    rows newest first. *)
Fixpoint scroll (fuel : nat) (opt : Options) : M (list T) :=
  page ← List src opt;
  let items := walked opt false page in
  if String.eqb (Page_NextToken page) "" then mret items
  else match fuel with
       | O => out_of_fuel
       | S fuel => rest ← scroll fuel (with_token opt (Page_NextToken page));
                   mret (items ++ rest)
       end.

(** A client that follows [PrevToken] while there is more: the rows, oldest
    first, and the token to come back with. *)
Fixpoint follow (fuel : nat) (opt : Options) : M (list T * string) :=
  page ← List src opt;
  let items := walked opt true page in
  if Page_More page
  then match fuel with
       | O => out_of_fuel
       | S fuel => r ← follow fuel (with_token opt (Page_PrevToken page));
                   mret (items ++ fst r, snd r)
       end
  else mret (items, Page_PrevToken page).

(** A row's cursor, in the walk's direction. *)
Definition at_row (x : T) (backward : bool) : Token C := mkToken (Some (Cursor x)) backward.

Lemma remaining_resume tb q tok i x :
  tables_ok tb q → remaining src lt rows_of tb tok !! i = Some x →
  remaining src lt rows_of tb (at_row x (Tok_Backward tok)) =
  drop (S i) (remaining src lt rows_of tb tok).
Proof using Keyset0.
  intros Hq Hi. pose proof (keyset_order (lt:=lt)).
  eapply (keyset_rows_resume Cursor lt); [by eapply keyset_sorted|exact Hi].
Qed.

Lemma remaining_elem tb tok x : x ∈ remaining src lt rows_of tb tok → x ∈ rows_of tb.
Proof.
  unfold remaining, keyset_rows. intros [_ Hx]%list_elem_of_filter.
  destruct (Tok_Backward tok); [done|]. by apply elem_of_reverse.
Qed.

Lemma with_token_size opt s : size_of (with_token opt s) = size_of opt.
Proof. done. Qed.

Lemma page_of_walked opt tb tok : size_ok opt →
  walked opt (Tok_Backward tok) (page_of src lt rows_of opt tb tok) =
  take (Z.to_nat (size_of opt)) (remaining src lt rows_of tb tok).
Proof.
  intros [Hlo _]. pose proof (page_walked src opt (Z.to_nat (size_of opt)) (Tok_Backward tok)
    (remaining src lt rows_of tb tok)) as Hp. rewrite Z2Nat.id in Hp by lia. exact Hp.
Qed.

(** The tokens of a page that is not empty. *)
Lemma page_of_tokens opt tb q tok :
  tables_ok tb q → size_ok opt → remaining src lt rows_of tb tok ≠ [] →
  let R := remaining src lt rows_of tb tok in
  let n := Z.to_nat (size_of opt) in
  ∃ first final, first ∈ rows_of tb ∧ final ∈ rows_of tb ∧
    (Page_NextToken (page_of src lt rows_of opt tb tok),
     Page_PrevToken (page_of src lt rows_of opt tb tok)) =
      page_tokens (Tok_Backward tok) (n <? length R)%nat (Cursor first) (Cursor final) ∧
    remaining src lt rows_of tb (at_row final (Tok_Backward tok)) = drop n R.
Proof using Keyset0.
  intros Hq [Hlo _] HR R n.
  destruct (page_final src opt n (Tok_Backward tok) R ltac:(lia) HR)
    as (first & final & _ & Hz & Hf & Htok).
  exists first, final. split; [by eapply remaining_elem, list_elem_of_lookup_2|].
  split; [by eapply remaining_elem, list_elem_of_lookup_2|]. split.
  - unfold page_of. fold R n. replace (size_of opt) with (Z.of_nat n) by lia. exact Htok.
  - rewrite (remaining_resume _ _ _ _ _ Hq Hf). fold R.
    destruct (decide (n ≤ length R)%nat); [f_equal; lia|].
    rewrite !drop_ge by lia. done.
Qed.

Lemma page_of_more opt tb tok : size_ok opt →
  Page_More (page_of src lt rows_of opt tb tok) =
  (Z.to_nat (size_of opt) <? length (remaining src lt rows_of tb tok))%nat.
Proof.
  intros [Hlo _]. pose proof (page_more src opt (Z.to_nat (size_of opt)) (Tok_Backward tok)
    (remaining src lt rows_of tb tok)) as Hp. rewrite Z2Nat.id in Hp by lia. exact Hp.
Qed.

Lemma page_of_empty opt tb tok : remaining src lt rows_of tb tok = [] →
  Page_NextToken (page_of src lt rows_of opt tb tok) = "" ∧
  Page_PrevToken (page_of src lt rows_of opt tb tok) =
    if Tok_Backward tok then PageToken opt else "".
Proof. unfold page_of, build_page. intros ->. rewrite take_nil.
  destruct (_ <? _); rewrite ?take_nil; done. Qed.

(** ** Properties *)

Lemma scroll_eq fuel opt :
  scroll fuel opt =
    (page ← List src opt;
     if String.eqb (Page_NextToken page) "" then mret (walked opt false page)
     else match fuel with
          | O => out_of_fuel
          | S fuel => rest ← scroll fuel (with_token opt (Page_NextToken page));
                      mret (walked opt false page ++ rest)
          end).
Proof. by destruct fuel. Qed.

(** What a walk's computation leaves behind: nothing changed, the expected
    result, and no error without a fault. *)
Definition reads {A} (ok : A → Prop) (w : World) (r : Err + A) (w' : World) : Prop :=
  at_ w (committed w) [] w' ∧ match r with inr a => ok a | inl _ => ¬ healthy w end.

Lemma wp_List opt tok w :
  world_ok w → size_ok opt → resolves opt tok → serves tok →
  wp (List src opt) (reads (λ page, page = page_of src lt rows_of opt (committed w) tok) w) w.
Proof using Keyset0.
  intros Hw Hsz Hres Hs. eapply wp_mono; [by eapply (List_spec src lt rows_of serves)|].
  intros [e|page] w1 Hout; simpl in Hout; [done|]. by destruct Hout as (tb & ns & Hat & -> & -> & ->).
Qed.

Lemma reads_trans {A B} (P : A → Prop) (Q : B → Prop) w w1 w2 (r : Err + B) a :
  reads P w (inr a) w1 → reads Q w1 r w2 → reads Q w r w2.
Proof.
  intros [H1 _] [H2 Hr]. split.
  - pose proof (at_committed _ _ _ _ H1) as Hc. rewrite Hc in H2.
    exact (at_trans _ _ _ _ _ [] [] H1 H2).
  - destruct r; [|done]. intros Hh. by apply Hr, H1.
Qed.

(** A forward page: the last one, or its token goes on. *)
Lemma page_of_forward opt tb q tok :
  tables_ok tb q → size_ok opt → Tok_Backward tok = false →
  let R := remaining src lt rows_of tb tok in
  let n := Z.to_nat (size_of opt) in
  let next := Page_NextToken (page_of src lt rows_of opt tb tok) in
  ((length R <= n)%nat ∧ next = "") ∨
  ((n < length R)%nat ∧ ∃ x, x ∈ rows_of tb ∧ next = Encode (at_row x false) ∧
     remaining src lt rows_of tb (at_row x false) = drop n R).
Proof using Keyset0.
  intros Hq Hsz Hfw R n next. destruct (decide (R = [])) as [HR|HR].
  { left. split; [rewrite HR; simpl; lia|]. by apply page_of_empty. }
  destruct (page_of_tokens opt tb q tok Hq Hsz HR) as (x & y & _ & Hy & Htok & Hrest).
  fold R n in Htok, Hrest. rewrite Hfw in Htok, Hrest. injection Htok as Hnext _.
  destruct (Nat.ltb_spec n (length R)); [right|left]; eauto.
Qed.

Lemma scroll_spec fuel : ∀ opt tok w, world_ok w → size_ok opt → resolves opt tok → serves tok →
  (∀ x, x ∈ rows_of (committed w) → serves (at_row x false)) → Tok_Backward tok = false →
  (length (remaining src lt rows_of (committed w) tok) <= fuel)%nat →
  wp (scroll fuel opt) (reads (λ l, l = remaining src lt rows_of (committed w) tok) w) w.
Proof using H0 Keyset0.
  induction fuel as [|fuel IH]; intros opt tok w Hw Hsz Hres Hs Hrows Hfw Hfuel;
    rewrite scroll_eq; wp_step; (eapply wp_mono; [by eapply wp_List|]);
    intros [e|page] w1 Hrd; try exact Hrd; pose proof Hrd as [Hat Hpage]; simpl in Hpage;
    pose proof (page_of_walked opt (committed w) tok Hsz) as Hwalk; rewrite Hfw in Hwalk;
    rewrite Hpage, Hwalk;
    destruct (page_of_forward opt (committed w) _ tok (proj2 Hw) Hsz Hfw)
      as [[Hlen ->]|(Hlen & x & Hx & -> & Hrest)]; simpl;
    try (apply wp_ret; split; [done|]; by rewrite take_ge); [destruct Hsz; lia|].
  pose proof (Encode_nonempty (at_row x false)) as Hne.
  destruct (String.eqb_spec (Encode (at_row x false)) ""); [done|]. wp_step.
  pose proof (at_committed _ _ _ _ Hat) as Hc.
  eapply wp_mono.
  { apply (IH _ (at_row x false)); rewrite ?Hc; auto using resolves_Encode.
    - by eapply at_world_ok.
    - rewrite Hrest, length_drop. destruct Hsz. lia. }
  intros [e'|rest] w2 Hrd2; [by eapply reads_trans|].
  apply wp_ret. eapply (reads_trans _ _ _ _ _ _ _ Hrd).
  destruct Hrd2 as [Hat2 ->]. split; [done|]. by rewrite Hc, Hrest, take_drop.
Qed.

(** Scrolling back from the newest page, following the forward token
    until it is empty, visits every row exactly once, newest first, whatever
    the page size; it changes nothing, and fails only if the database does. *)
Theorem scroll_visits_all (fuel : nat) (opt : Options) (w w' : World) (r : Err + list T) :
  world_ok w → size_ok opt → PageToken opt = "" → serves empty_token →
  (∀ x, x ∈ rows_of (committed w) → serves (at_row x false)) →
  (length (rows_of (committed w)) <= fuel)%nat →
  scroll fuel opt w = (r, w') →
  committed w' = committed w ∧
  match r with
  | inr rows => rows = reverse (rows_of (committed w))
  | inl _ => ¬ healthy w
  end.
Proof using H0 Keyset0.
  intros Hw Hsz Htok Hs Hrows Hfuel Hrun.
  assert (remaining src lt rows_of (committed w) empty_token = reverse (rows_of (committed w)))
    as Hrem by (by apply filter_all, Forall_forall).
  pose proof (scroll_spec fuel opt empty_token w Hw Hsz (or_introl (conj Htok eq_refl)) Hs Hrows
    eq_refl) as Hwp.
  rewrite Hrem, length_reverse in Hwp. specialize (Hwp Hfuel). unfold wp in Hwp.
  rewrite Hrun in Hwp. destruct Hwp as [Hat Hr]. split; [by apply at_committed in Hat|done].
Qed.

Lemma follow_eq fuel opt :
  follow fuel opt =
    (page ← List src opt;
     if Page_More page
     then match fuel with
          | O => out_of_fuel
          | S fuel => r ← follow fuel (with_token opt (Page_PrevToken page));
                      mret (walked opt true page ++ fst r, snd r)
          end
     else mret (walked opt true page, Page_PrevToken page)).
Proof. by destruct fuel. Qed.

(** A followed page's token: the one it was asked with when nothing is new,
    otherwise that of its last row. *)
Lemma page_of_backward opt tb q tok :
  tables_ok tb q → size_ok opt → Tok_Backward tok = true →
  let R := remaining src lt rows_of tb tok in
  let prev := Page_PrevToken (page_of src lt rows_of opt tb tok) in
  (R = [] ∧ prev = PageToken opt) ∨
  (∃ y, y ∈ rows_of tb ∧ prev = Encode (at_row y true) ∧
     remaining src lt rows_of tb (at_row y true) = drop (Z.to_nat (size_of opt)) R).
Proof using Keyset0.
  intros Hq Hsz Hbw R prev. destruct (decide (R = [])) as [HR|HR].
  { left. split; [done|]. unfold prev.
    destruct (page_of_empty opt tb tok HR) as [_ ->]. by rewrite Hbw. }
  right. destruct (page_of_tokens opt tb q tok Hq Hsz HR) as (x & y & _ & Hy & Htok & Hrest).
  rewrite Hbw in Htok, Hrest. injection Htok as _ Hprev. eauto.
Qed.

(** Where a followed walk ends: at a row with nothing newer. *)
Definition caught_up (opt : Options) (tb : Tables) (token : string) : Prop :=
  ∃ y, y ∈ rows_of tb ∧ resolves (with_token opt token) (at_row y true) ∧
    remaining src lt rows_of tb (at_row y true) = [].

Lemma follow_spec fuel : ∀ opt x w, world_ok w → size_ok opt →
  resolves opt (at_row x true) → x ∈ rows_of (committed w) →
  (∀ x, x ∈ rows_of (committed w) → serves (at_row x true)) →
  (length (remaining src lt rows_of (committed w) (at_row x true)) <= fuel)%nat →
  wp (follow fuel opt)
    (reads (λ lt_, fst lt_ = remaining src lt rows_of (committed w) (at_row x true) ∧
                  caught_up opt (committed w) (snd lt_)) w) w.
Proof using H0 Keyset0.
  induction fuel as [|fuel IH]; intros opt x w Hw Hsz Hres Hx Hrows Hfuel;
    rewrite follow_eq; wp_step; (eapply wp_mono; [eapply wp_List; eauto|]);
    intros [e|page] w1 Hrd; try exact Hrd; pose proof Hrd as [Hat Hpage]; simpl in Hpage;
    pose proof (page_of_walked opt (committed w) (at_row x true) Hsz) as Hwalk;
    cbn [Tok_Backward at_row] in Hwalk;
    pose proof (page_of_backward opt _ _ (at_row x true) (proj2 Hw) Hsz eq_refl) as Hbw;
    rewrite Hpage, Hwalk, page_of_more by done;
    set (R := remaining src lt rows_of (committed w) (at_row x true)) in *;
    destruct (Nat.ltb_spec (Z.to_nat (size_of opt)) (length R)) as [Hlt|Hge];
    try (destruct Hsz; lia);
    try (apply wp_ret; split; [done|]; cbn [fst snd]; split; [by rewrite take_ge|];
         destruct Hbw as [[HR ->]|(y & Hy & -> & Hrest)];
         [by exists x|exists y; split; [done|]; split; [apply resolves_Encode|]];
         rewrite Hrest; by apply drop_ge).
  destruct Hbw as [[HR _]|(y & Hy & -> & Hrest)]; [rewrite HR in Hlt; simpl in Hlt; lia|].
  wp_step. pose proof (at_committed _ _ _ _ Hat) as Hc. eapply wp_mono.
  { apply (IH _ y); rewrite ?Hc; auto using resolves_Encode.
    - by eapply at_world_ok.
    - rewrite Hrest, length_drop. destruct Hsz. lia. }
  intros [e'|[l s]] w2 Hrd2; [by eapply reads_trans|].
  apply wp_ret. eapply (reads_trans _ _ _ _ _ _ _ Hrd).
  destruct Hrd2 as [Hat2 [Hl Hs]]. cbn [fst snd] in *. split; [done|]. cbn [fst snd].
  rewrite Hl, Hc, Hrest, take_drop. split; [done|]. by rewrite <- Hc.
Qed.

(** Rows appended later are what a caught-up token leaves to visit. *)
Lemma remaining_appended tb tb' q' new y :
  tables_ok tb' q' → rows_of tb' = rows_of tb ++ new → y ∈ rows_of tb →
  remaining src lt rows_of tb (at_row y true) = [] →
  remaining src lt rows_of tb' (at_row y true) = new.
Proof using Keyset0.
  intros Hq Happ Hy Hnil. pose proof (keyset_sorted tb' q' Hq) as Hs. rewrite Happ in Hs.
  unfold remaining, keyset_rows in *. cbn [Tok_Backward at_row] in *.
  rewrite Happ, filter_app. unfold at_row in *. rewrite Hnil. apply filter_all, Forall_forall.
  intros z Hz. exact (StronglySorted_app_1_elem_of _ _ _ _ _ Hs Hy Hz).
Qed.

(** Following the backward token of a row visits every newer row exactly
    once, oldest first, and ends with a token that has nothing left to visit
    and, when rows are appended to the stream, visits exactly those: a
    follower misses and repeats nothing. *)
Theorem follow_visits_new (fuel : nat) (opt : Options) (x : T) (w w' : World)
    (r : Err + (list T * string)) :
  world_ok w → size_ok opt → PageToken opt = Encode (at_row x true) →
  x ∈ rows_of (committed w) → (∀ x, x ∈ rows_of (committed w) → serves (at_row x true)) →
  (length (rows_of (committed w)) <= fuel)%nat →
  follow fuel opt w = (r, w') →
  committed w' = committed w ∧
  match r with
  | inr (rows, token) =>
      rows = filter (λ y, lt (Cursor x) (Cursor y)) (rows_of (committed w)) ∧
      ∃ y, resolves (with_token opt token) (at_row y true) ∧
        remaining src lt rows_of (committed w) (at_row y true) = [] ∧
        ∀ tb' q' new, tables_ok tb' q' → rows_of tb' = rows_of (committed w) ++ new →
          remaining src lt rows_of tb' (at_row y true) = new
  | inl _ => ¬ healthy w
  end.
Proof using H0 Keyset0.
  intros Hw Hsz Htok Hx Hserves Hfuel Hrun.
  assert (Hres : resolves opt (at_row x true)).
  { right. rewrite Htok. split; [apply Encode_nonempty|apply Decode_Encode]. }
  pose proof (follow_spec fuel opt x w Hw Hsz Hres Hx Hserves) as Hwp.
  unfold wp in Hwp. rewrite Hrun in Hwp. destruct Hwp as [Hat Hr].
  { etrans; [|exact Hfuel]. apply length_filter. }
  split; [by apply at_committed in Hat|]. destruct r as [e|[rows token]]; [done|].
  destruct Hr as [Hrows (y & Hy & Hres' & Hnil)]. cbn [fst snd] in *. split; [exact Hrows|].
  exists y. split; [done|]. split; [done|]. intros tb' q' new Hq Happ.
  by eapply remaining_appended.
Qed.
End walks.
