(* ===== verification/StorePages.v ===== *)
(** * The store's paged listings

    Models the three pagination sources of [internal/store] with their
    queries ([store/sql/queries/event.sql], [logchunk.sql], [task.sql]): a
    task's events ([event.go]), a task's log chunks ([logchunk.go]) and an
    org's tasks ([task.go]), and shows that each one is a [Keyset]. *)

From S2P Require Import Prelude Base64 AuthScope EventModel TaskModel Links PubSub ScheduleModel.
From S2P Require Import Rules Store StoreOps StoreLogic ApiBase Timeline Pagination.
From Stdlib Require Import Ascii.

(** A backward token without a cursor: [token.Cursor.ID] on a nil pointer. *)
Definition nil_cursor {A} : M A :=
  raise (EPanic "runtime error: invalid memory address or nil pointer dereference").

(** ** Events ([store/event.go]) *)

(** [eventCursor{ID}] and [logChunkCursor{ID}]: a bigserial. *)
Record IDCursor := mkIDCursor { Cursor_ID : Z }.

Definition id_lt (a b : IDCursor) : Prop := Cursor_ID a < Cursor_ID b.
#[export] Instance id_lt_dec : RelDecision id_lt.
Proof. intros a b. unfold id_lt. apply _. Defined.

Record ListEventsByTaskPageParams := mkEventPage {
  EP_TaskID : Z; EP_OrgID : Z; EP_Types : list string; EP_PageSize : Z; EP_PageToken : string }.

Definition task_event (taskID orgID : Z) (types : list string) (e : Event) : bool :=
  (Event_TaskID e =? taskID) && (Event_OrgID e =? orgID) && type_selected types e.

(** [id < cursor], when there is one. *)
Definition below (c : option IDCursor) (id : Z) : bool :=
  match c with None => true | Some c => id <? Cursor_ID c end.

Definition eventSource (tx : Tx) (p : ListEventsByTaskPageParams) : Source Event IDCursor := {|
  Query token limit :=
    let mine := task_event (EP_TaskID p) (EP_OrgID p) (EP_Types p) in
    if Tok_Backward token then
      match Tok_Cursor token with
      | None => nil_cursor
      | Some c => query tx (λ _ tb, take (Z.to_nat limit) (order_by Event_ID
          (where_ (λ e, mine e && (Cursor_ID c <? Event_ID e)) (rows (t_events tb)))))
      end
    else query tx (λ _ tb, take (Z.to_nat limit) (order_by_desc Event_ID
          (where_ (λ e, mine e && below (Tok_Cursor token) (Event_ID e)) (rows (t_events tb)))));
  Cursor e := mkIDCursor (Event_ID e) |}.

Definition ListEventsByTaskPage `{TokenJSON IDCursor} (tx : Tx) (p : ListEventsByTaskPageParams)
    : M (Page Event) :=
  List (eventSource tx p) (mkOptions 50 200 true (EP_PageSize p) (EP_PageToken p)).

(** ** Log chunks ([store/logchunk.go]) *)

Record ListLogChunksByTaskPageParams := mkChunkPage {
  LP_TaskID : Z; LP_OrgID : Z; LP_PageSize : Z; LP_PageToken : string }.

Definition task_chunk (taskID orgID : Z) (c : LogChunk) : bool :=
  (Chunk_TaskID c =? taskID) && (Chunk_OrgID c =? orgID).

Definition logChunkSource (tx : Tx) (p : ListLogChunksByTaskPageParams)
    : Source LogChunk IDCursor := {|
  Query token limit :=
    let mine := task_chunk (LP_TaskID p) (LP_OrgID p) in
    if Tok_Backward token then
      match Tok_Cursor token with
      | None => nil_cursor
      | Some c => query tx (λ _ tb, take (Z.to_nat limit) (order_by Chunk_ID
          (where_ (λ x, mine x && (Cursor_ID c <? Chunk_ID x)) (rows (t_chunks tb)))))
      end
    else query tx (λ _ tb, take (Z.to_nat limit) (order_by_desc Chunk_ID
          (where_ (λ x, mine x && below (Tok_Cursor token) (Chunk_ID x)) (rows (t_chunks tb)))));
  Cursor c := mkIDCursor (Chunk_ID c) |}.

Definition ListLogChunksByTaskPage `{TokenJSON IDCursor} (tx : Tx)
    (p : ListLogChunksByTaskPageParams) : M (Page LogChunk) :=
  List (logChunkSource tx p) (mkOptions 50 200 true (LP_PageSize p) (LP_PageToken p)).

(** ** Tasks ([store/task.go]) *)

Record taskCursor := mkTaskCursor { TC_CreatedAt : Z; TC_ID : Z; TC_Archived : bool }.

(** [(created_at, id) < (created_at, id)], as SQL compares rows. *)
Definition pair_lt (a b : Z * Z) : Prop := fst a < fst b ∨ (fst a = fst b ∧ snd a < snd b).
#[export] Instance pair_lt_dec : RelDecision pair_lt.
Proof. intros a b. unfold pair_lt. apply _. Defined.

Definition cursor_key (c : taskCursor) : Z * Z := (TC_CreatedAt c, TC_ID c).
Definition row_key (r : TaskRow) : Z * Z := (Row_created_at r, Row_id r).

Definition task_lt (a b : taskCursor) : Prop := pair_lt (cursor_key a) (cursor_key b).
#[export] Instance task_lt_dec : RelDecision task_lt.
Proof. intros a b. unfold task_lt. apply _. Defined.

(** [ORDER BY created_at DESC, id DESC] *)
Definition newest_first (a b : TaskRow) : Prop := ¬ pair_lt (row_key a) (row_key b).
#[export] Instance newest_first_dec : RelDecision newest_first.
Proof. intros a b. unfold newest_first. apply _. Defined.

Record ListTasksPageParams := mkTaskPage {
  TP_OrgID : Z; TP_PageSize : Z; TP_PageToken : string; TP_Archived : bool }.

Definition listed_task (orgID : Z) (archived : bool) (r : TaskRow) : bool :=
  (Row_org_id r =? orgID) && (archived || negb (Row_archived r)).

Definition before_cursor (c : option taskCursor) (r : TaskRow) : bool :=
  match c with None => true | Some c => bool_decide (pair_lt (row_key r) (cursor_key c)) end.

Definition taskSource (tx : Tx) (p : ListTasksPageParams) : Source Task taskCursor := {|
  Query token limit :=
    if Tok_Backward token then raise EUnsupportedDirection
    else
      let args :=
        rs ← query tx (λ _ tb, take (Z.to_nat limit) (merge_sort newest_first
               (where_ (λ r, listed_task (TP_OrgID p) (TP_Archived p) r &&
                             before_cursor (Tok_Cursor token) r) (rows (t_tasks tb)))));
        mret (map toModelTask rs) in
      match Tok_Cursor token with
      | Some c => if negb (Bool.eqb (TC_Archived c) (TP_Archived p))
                  then raise (EInvalidRequest "page token does not match archived filter")
                  else args
      | None => args
      end;
  Cursor t := mkTaskCursor (Task_CreatedAt t) (Task_ID t) (TP_Archived p) |}.

Definition ListTasksPage `{TokenJSON taskCursor} (tx : Tx) (p : ListTasksPageParams)
    : M (Page Task) :=
  List (taskSource tx p) (mkOptions 50 100 false (TP_PageSize p) (TP_PageToken p)).

(** ** The streams are keysets *)

Lemma where_filter {A} (p q : A → bool) (l : list A) :
  where_ (λ a, p a && q a) l = filter (λ a, q a = true) (where_ p l).
Proof.
  unfold where_. rewrite list_filter_filter. apply list_filter_iff. intros x.
  rewrite andb_true_iff. tauto.
Qed.

Lemma StronglySorted_impl {A} (R S : A → A → Prop) l :
  (∀ x y, R x y → S x y) → StronglySorted R l → StronglySorted S l.
Proof. induction 2; constructor; [done|]. eapply Forall_impl; eauto. Qed.

(** A table keyed by an id, ordered by it. *)
Section by_id.
Context {A : Type} (key : A → Z) (m : gmap Z A) (mine : A → bool).
Hypothesis keyed : ∀ i x, m !! i = Some x → key x = i.

Definition stream : list A := order_by key (where_ mine (rows m)).

Lemma row_inj x y : x ∈ rows m → y ∈ rows m → key x = key y → x = y.
Proof using keyed.
  intros [i Hi]%elem_of_rows [j Hj]%elem_of_rows Hk.
  rewrite (keyed _ _ Hi), (keyed _ _ Hj) in Hk. congruence.
Qed.

Lemma stream_sorted : StronglySorted (λ x y, key x < key y) stream.
Proof using keyed.
  assert (Hle : StronglySorted (key_le key) stream) by apply (StronglySorted_merge_sort (key_le key)).
  assert (Hnd : NoDup stream).
  { unfold stream. rewrite order_by_Permutation. apply NoDup_filter. by eapply NoDup_rows. }
  assert (Hin : ∀ x, x ∈ stream → x ∈ rows m).
  { intros x. unfold stream. rewrite elem_of_order_by. by intros [_ ?]%elem_of_where. }
  clear -Hle Hnd Hin keyed. induction Hle as [|x l Hs IH Hx]; [constructor|].
  apply NoDup_cons in Hnd as [Hxl Hnd]. constructor; [apply IH; [done|set_solver]|].
  rewrite Forall_forall in Hx |- *. intros y Hy. specialize (Hx y Hy). unfold key_le in Hx.
  destruct (decide (key x = key y)) as [E|]; [|lia].
  apply row_inj in E as ->; [done|apply Hin; set_solver..].
Qed.

(** Both queries select from the one stream. *)
Lemma stream_asc (q : A → bool) :
  order_by key (where_ (λ x, mine x && q x) (rows m)) = filter (λ x, q x = true) stream.
Proof using keyed.
  apply order_by_unique.
  - intros x y [_ Hx]%elem_of_where [_ Hy]%elem_of_where. by apply row_inj.
  - apply StronglySorted_filter. eapply StronglySorted_impl; [|apply stream_sorted].
    unfold key_le. intros; lia.
  - rewrite where_filter. unfold stream. by rewrite order_by_Permutation.
Qed.

Lemma stream_desc (q : A → bool) :
  order_by_desc key (where_ (λ x, mine x && q x) (rows m)) =
  filter (λ x, q x = true) (reverse stream).
Proof using keyed.
  unfold order_by_desc. apply (order_by_unique (λ a, - key a)).
  - intros x y [_ Hx]%elem_of_where [_ Hy]%elem_of_where Hk. apply row_inj; [done..|lia].
  - apply StronglySorted_filter.
    eapply StronglySorted_impl; [|apply StronglySorted_reverse, stream_sorted].
    unfold key_le, flip. intros; lia.
  - rewrite where_filter. unfold stream. by rewrite reverse_Permutation, order_by_Permutation.
Qed.
End by_id.

#[export] Instance id_lt_order : StrictOrder id_lt.
Proof. split; unfold id_lt; [intros ? ?; lia | intros ? ? ?; lia]. Qed.

Definition has_cursor {C} (tok : Token C) : Prop :=
  Tok_Backward tok = true → is_Some (Tok_Cursor tok).

Section by_id_rows.
Context {A : Type} (key : A → Z) (m : gmap Z A) (mine : A → bool).
Hypothesis keyed : ∀ i x, m !! i = Some x → key x = i.
Let cur (x : A) : IDCursor := mkIDCursor (key x).

Lemma by_id_forward tok : Tok_Backward tok = false →
  order_by_desc key (where_ (λ x, mine x && below (Tok_Cursor tok) (key x)) (rows m)) =
  keyset_rows cur id_lt (stream key m mine) tok.
Proof using keyed.
  intros Hf. rewrite stream_desc by done. unfold keyset_rows. rewrite Hf.
  apply list_filter_iff. intros x. unfold beyond, below, id_lt. rewrite Hf.
  destruct (Tok_Cursor tok); simpl; [lia|done].
Qed.

Lemma by_id_backward tok c : Tok_Backward tok = true → Tok_Cursor tok = Some c →
  order_by key (where_ (λ x, mine x && (Cursor_ID c <? key x)) (rows m)) =
  keyset_rows cur id_lt (stream key m mine) tok.
Proof using keyed.
  intros Hb Hc. rewrite stream_asc by done. unfold keyset_rows. rewrite Hb.
  apply list_filter_iff. intros x. unfold beyond, id_lt. rewrite Hc, Hb. simpl. lia.
Qed.
End by_id_rows.

Lemma query_spec {A} (f : Z → Tables → A) :
  HandlerSpec (query NoTx f) (λ now tb a tb' ns, tb' = tb ∧ ns = [] ∧ a = f now tb) (λ _ _, False).
Proof.
  intros w Hw. pose proof (at_refl w Hw) as Hat. wp; [by split|]. by exists (committed w), [].
Qed.

Lemma HandlerSpec_impl {A} (m : M A) ok ok' err :
  HandlerSpec m ok err →
  (∀ now tb q a tb' ns, tables_ok tb q → ok now tb a tb' ns → ok' now tb a tb' ns) →
  HandlerSpec m ok' err.
Proof.
  intros Hm Hok w Hw. eapply wp_mono; [by apply Hm|]. intros [e|a] w' Ho; [done|].
  destruct Ho as (tb & ns & Hat & Ho). exists tb, ns. split; [done|]. eapply Hok; [apply Hw|done].
Qed.

Definition event_stream (p : ListEventsByTaskPageParams) (tb : Tables) : list Event :=
  task_events tb (EP_TaskID p) (EP_OrgID p) (EP_Types p).

#[export] Instance eventSource_keyset p :
  Keyset (eventSource NoTx p) id_lt (event_stream p) has_cursor.
Proof.
  assert (Hk : ∀ tb q, tables_ok tb q → ∀ i e, t_events tb !! i = Some e → Event_ID e = i)
    by (intros tb q Hq i e He; by apply (event_rows _ _ Hq) in He as []).
  split; [apply _| |].
  - intros tb q Hq. apply (stream_sorted Event_ID (t_events tb)
      (task_event (EP_TaskID p) (EP_OrgID p) (EP_Types p))). by eapply Hk.
  - intros tok limit Hc. unfold Query, eventSource. destruct (Tok_Backward tok) eqn:Hb.
    + destruct (Hc Hb) as [c Hcur]. rewrite Hcur.
      eapply HandlerSpec_impl; [apply query_spec|]. intros now tb q a tb' ns Hq (-> & -> & ->).
      split; [done|]. split; [done|]. f_equal. apply by_id_backward; [by eapply Hk|done..].
    + eapply HandlerSpec_impl; [apply query_spec|]. intros now tb q a tb' ns Hq (-> & -> & ->).
      split; [done|]. split; [done|]. f_equal. apply by_id_forward; [by eapply Hk|done].
Qed.

Definition chunk_stream (p : ListLogChunksByTaskPageParams) (tb : Tables) : list LogChunk :=
  stream Chunk_ID (t_chunks tb) (task_chunk (LP_TaskID p) (LP_OrgID p)).

#[export] Instance logChunkSource_keyset p :
  Keyset (logChunkSource NoTx p) id_lt (chunk_stream p) has_cursor.
Proof.
  assert (Hk : ∀ tb q, tables_ok tb q → ∀ i c, t_chunks tb !! i = Some c → Chunk_ID c = i)
    by (intros tb q Hq i e He; by apply (chunk_rows _ _ Hq) in He as []).
  split; [apply _| |].
  - intros tb q Hq. apply stream_sorted. by eapply Hk.
  - intros tok limit Hc. unfold Query, logChunkSource. destruct (Tok_Backward tok) eqn:Hb.
    + destruct (Hc Hb) as [c Hcur]. rewrite Hcur.
      eapply HandlerSpec_impl; [apply query_spec|]. intros now tb q a tb' ns Hq (-> & -> & ->).
      split; [done|]. split; [done|]. f_equal. apply by_id_backward; [by eapply Hk|done..].
    + eapply HandlerSpec_impl; [apply query_spec|]. intros now tb q a tb' ns Hq (-> & -> & ->).
      split; [done|]. split; [done|]. f_equal. apply by_id_forward; [by eapply Hk|done].
Qed.

(** ** The task list *)

Lemma pair_lt_trans : Transitive pair_lt.
Proof. intros a b c. unfold pair_lt. lia. Qed.

#[export] Instance newest_first_total : Total newest_first.
Proof. intros a b. unfold newest_first, pair_lt. lia. Qed.
#[export] Instance newest_first_trans : Transitive newest_first.
Proof. intros a b c. unfold newest_first, pair_lt. lia. Qed.

#[export] Instance task_lt_order : StrictOrder task_lt.
Proof. split; unfold task_lt, pair_lt; [intros ? ?; lia | intros ? ? ?; lia]. Qed.

(** The org's listed rows, newest first. *)
Definition task_rows_listed (p : ListTasksPageParams) (tb : Tables) : list TaskRow :=
  merge_sort newest_first
    (where_ (listed_task (TP_OrgID p) (TP_Archived p)) (rows (t_tasks tb))).

Definition task_stream (p : ListTasksPageParams) (tb : Tables) : list Task :=
  map toModelTask (reverse (task_rows_listed p tb)).

Definition task_serves (p : ListTasksPageParams) (tok : Token taskCursor) : Prop :=
  Tok_Backward tok = false ∧ ∀ c, Tok_Cursor tok = Some c → TC_Archived c = TP_Archived p.

Section task_list.
Context (p : ListTasksPageParams) (tb : Tables) (q : Seq → Z) (Hok : tables_ok tb q).

Lemma task_row_inj x y :
  x ∈ rows (t_tasks tb) → y ∈ rows (t_tasks tb) → Row_id x = Row_id y → x = y.
Proof using Hok.
  apply row_inj. intros i r Hr. by apply (task_rows _ _ Hok) in Hr as [].
Qed.

Lemma newest_first_unique (l l' : list TaskRow) :
  (∀ x, x ∈ l → x ∈ rows (t_tasks tb)) →
  StronglySorted newest_first l' → l' ≡ₚ l → merge_sort newest_first l = l'.
Proof using Hok.
  intros Hin Hs Hp. eapply (StronglySorted_unique_strong newest_first); [| |exact Hs|].
  - intros x y Hx Hy Hxy Hyx. rewrite merge_sort_Permutation in Hx. rewrite Hp in Hy.
    apply task_row_inj; [auto..|]. unfold newest_first, pair_lt, row_key in *. simpl in *. lia.
  - apply StronglySorted_merge_sort; apply _.
  - by rewrite merge_sort_Permutation, Hp.
Qed.

Lemma task_rows_listed_filter (f : TaskRow → bool) :
  merge_sort newest_first
    (where_ (λ r, listed_task (TP_OrgID p) (TP_Archived p) r && f r) (rows (t_tasks tb))) =
  filter (λ r, f r = true) (task_rows_listed p tb).
Proof using Hok.
  apply newest_first_unique.
  - by intros x [_ ?]%elem_of_where.
  - apply StronglySorted_filter, StronglySorted_merge_sort; apply _.
  - rewrite where_filter. unfold task_rows_listed. by rewrite merge_sort_Permutation.
Qed.

Lemma task_rows_listed_sorted :
  StronglySorted (λ x y, pair_lt (row_key y) (row_key x)) (task_rows_listed p tb).
Proof using Hok.
  assert (Hle : StronglySorted newest_first (task_rows_listed p tb))
    by (apply StronglySorted_merge_sort; apply _).
  assert (Hnd : NoDup (task_rows_listed p tb)).
  { unfold task_rows_listed. rewrite merge_sort_Permutation. apply NoDup_filter.
    apply (NoDup_rows Row_id). intros i r Hr. by apply (task_rows _ _ Hok) in Hr as []. }
  assert (Hin : ∀ x, x ∈ task_rows_listed p tb → x ∈ rows (t_tasks tb)).
  { intros x. unfold task_rows_listed. rewrite merge_sort_Permutation.
    by intros [_ ?]%elem_of_where. }
  induction Hle as [|x l Hs IH Hx]; [constructor|].
  apply NoDup_cons in Hnd as [Hxl Hnd]. constructor; [apply IH; [done|set_solver]|].
  rewrite Forall_forall in Hx |- *. intros y Hy. specialize (Hx y Hy).
  destruct (decide (Row_id x = Row_id y)) as [E|].
  - apply task_row_inj in E as ->; [done|apply Hin; set_solver..].
  - unfold newest_first, pair_lt, row_key in *. simpl in *. lia.
Qed.

Lemma task_stream_sorted :
  StronglySorted (λ x y, task_lt (Cursor (Source:=taskSource NoTx p) x)
                           (Cursor (Source:=taskSource NoTx p) y)) (task_stream p tb).
Proof using Hok.
  apply (StronglySorted_fmap toModelTask (λ x y, pair_lt (row_key x) (row_key y))); [done|].
  exact (StronglySorted_reverse _ _ task_rows_listed_sorted).
Qed.

Lemma task_list_rows tok : task_serves p tok →
  map toModelTask (merge_sort newest_first
    (where_ (λ r, listed_task (TP_OrgID p) (TP_Archived p) r &&
                  before_cursor (Tok_Cursor tok) r) (rows (t_tasks tb)))) =
  keyset_rows (Cursor (Source:=taskSource NoTx p)) task_lt (task_stream p tb) tok.
Proof using Hok.
  intros [Hb _]. rewrite task_rows_listed_filter. unfold keyset_rows, task_stream. rewrite Hb.
  change (map toModelTask (reverse (task_rows_listed p tb)))
    with (toModelTask <$> reverse (task_rows_listed p tb)).
  rewrite <- fmap_reverse, reverse_involutive. generalize (task_rows_listed p tb) as l.
  assert (Hiff : ∀ r, before_cursor (Tok_Cursor tok) r = true ↔
    beyond (Cursor (Source:=taskSource NoTx p)) task_lt tok (toModelTask r)).
  { intros r. unfold before_cursor, beyond. rewrite Hb. destruct (Tok_Cursor tok); [|done].
    by rewrite bool_decide_eq_true. }
  induction l as [|r l IH]; [done|]. rewrite fmap_cons, !filter_cons.
  destruct (decide (before_cursor (Tok_Cursor tok) r = true)) as [Hr|Hr];
    rewrite Hiff in Hr; [rewrite decide_True by done|rewrite decide_False by done]; simpl;
    by rewrite IH.
Qed.
End task_list.

#[export] Instance taskSource_keyset p :
  Keyset (taskSource NoTx p) task_lt (task_stream p) (task_serves p).
Proof.
  split; [apply _|intros tb q; by apply task_stream_sorted|].
  intros tok limit Hs. assert (Hq : ∀ f, HandlerSpec
      (rs ← query NoTx (λ _ tb, take (Z.to_nat limit) (f tb)); mret (map toModelTask rs))
      (λ _ tb a tb' ns, tb' = tb ∧ ns = [] ∧ a = take (Z.to_nat limit) (map toModelTask (f tb)))
      (λ _ _, False)).
  { intros f w Hw. pose proof (at_refl w Hw) as Hat. wp; [by split|]. exists (committed w), [].
    by rewrite <- (fmap_take toModelTask). }
  pose proof Hs as [Hb Hc]. unfold Query, taskSource. rewrite Hb. cbv zeta.
  replace (match Tok_Cursor tok with Some c => _ | None => _ end) with
    (rs ← query NoTx (λ _ tb, take (Z.to_nat limit) (merge_sort newest_first
       (where_ (λ r, listed_task (TP_OrgID p) (TP_Archived p) r &&
                     before_cursor (Tok_Cursor tok) r) (rows (t_tasks tb)))));
     mret (map toModelTask rs)).
  - eapply HandlerSpec_impl; [apply Hq|]. intros now tb q a tb' ns Hok (-> & -> & ->).
    split; [done|]. split; [done|]. f_equal. by eapply task_list_rows.
  - destruct (Tok_Cursor tok) as [c|]; [|done]. by rewrite (Hc c), Bool.eqb_reflx.
Qed.

(** ** A concrete codec and stream, for the examples *)

Fixpoint pos_string (p : positive) : string :=
  match p with xH => "" | xO p => String "0"%char (pos_string p) | xI p => String "1"%char (pos_string p) end.

Fixpoint string_pos (s : string) : option positive :=
  match s with
  | EmptyString => Some xH
  | String "0"%char s => xO <$> string_pos s
  | String "1"%char s => xI <$> string_pos s
  | _ => None
  end.

Lemma string_pos_string p : string_pos (pos_string p) = Some p.
Proof. induction p as [p IH|p IH|]; simpl; [by rewrite IH..|done]. Qed.

Definition z_string (z : Z) : string :=
  match z with
  | 0 => "z" | Zpos p => String "+"%char (pos_string p) | Zneg p => String "-"%char (pos_string p)
  end.

Definition string_z (s : string) : option Z :=
  match s with
  | String "z"%char EmptyString => Some 0
  | String "+"%char s => Zpos <$> string_pos s
  | String "-"%char s => Zneg <$> string_pos s
  | _ => None
  end.

Lemma string_z_string z : string_z (z_string z) = Some z.
Proof. destruct z; simpl; rewrite ?string_pos_string; done. Qed.

Definition sample_marshal (t : Token IDCursor) : string :=
  String (if Tok_Backward t then "b"%char else "f"%char)
    (match Tok_Cursor t with None => "n" | Some c => z_string (Cursor_ID c) end).

Definition sample_unmarshal (s : string) : option (Token IDCursor) :=
  let cursor s := match s with
                  | String "n"%char EmptyString => Some None
                  | _ => (λ z, Some (mkIDCursor z)) <$> string_z s
                  end in
  match s with
  | String "b"%char s => (λ c, mkToken c true) <$> cursor s
  | String "f"%char s => (λ c, mkToken c false) <$> cursor s
  | _ => None
  end.

Definition sample_json : TokenJSON IDCursor :=
  {| json_Marshal := sample_marshal; json_Unmarshal := sample_unmarshal |}.

Lemma sample_json_laws : @TokenJSONLaws IDCursor sample_json.
Proof.
  split; [|done]. intros [[[z]|] b]; [|by destruct b].
  destruct b, z; simpl; unfold sample_unmarshal, sample_marshal; simpl;
    rewrite ?string_pos_string; done.
Qed.

Definition stream_event (id : Z) : Event :=
  mkEvent id 7 3 false (Report (mkReport "r")) 0.
Definition stream_world : World :=
  mkWorld (mkTables {[7 := taskRow 7 0 0 sample_task]}
      (list_to_map (map (λ i, (i, stream_event i)) [1; 2; 4; 5; 9])) ∅ ∅ ∅ ∅
      {[3 := org_of [] []]} (users_of ["u1"]) ∅)
    None (λ _, 10) [] [] 0.

Lemma stream_world_ok : world_ok stream_world.
Proof. apply world_okb_ok. vm_compute. reflexivity. Qed.

Definition stream_page : ListEventsByTaskPageParams := mkEventPage 7 3 [] 2 "".
Definition stream_options : Options := mkOptions 50 200 true 2 "".

#[local] Existing Instance sample_json.
#[local] Existing Instance sample_json_laws.

Definition stream_scroll : M (list Event) :=
  scroll (eventSource NoTx stream_page) 5 stream_options.

Lemma scroll_visits_all_witness :
  ∃ w', stream_scroll stream_world = (inr (map stream_event [9; 5; 4; 2; 1]), w') ∧
    committed w' = committed stream_world.
Proof.
  destruct (stream_scroll stream_world) as [r w'] eqn:E. exists w'.
  assert (Hr : r = inr (map stream_event [9; 5; 4; 2; 1])) by
    (vm_compute in E; injection E as <- _; reflexivity).
  subst r. split; [reflexivity|].
  apply (scroll_visits_all (eventSource NoTx stream_page) id_lt (event_stream stream_page)
    has_cursor 5 stream_options stream_world w' (inr (map stream_event [9; 5; 4; 2; 1])));
    [apply stream_world_ok | split; vm_compute; discriminate | reflexivity | discriminate
    | intros x _; discriminate | vm_compute; lia | exact E].
Defined.

Definition follow_options : Options :=
  mkOptions 50 200 true 2 (Encode (mkToken (Some (mkIDCursor 2)) true)).

Definition stream_follow : M (list Event * string) :=
  follow (eventSource NoTx stream_page) 5 follow_options.

Lemma follow_visits_new_witness :
  ∃ token w', stream_follow stream_world = (inr (map stream_event [4; 5; 9], token), w') ∧
    committed w' = committed stream_world.
Proof.
  destruct (stream_follow stream_world) as [r w'] eqn:E.
  assert (Hr : ∃ token, r = inr (map stream_event [4; 5; 9], token)) by
    (vm_compute in E; injection E as <- _; eexists; reflexivity).
  destruct Hr as [token ->]. exists token, w'. split; [reflexivity|].
  apply (follow_visits_new (eventSource NoTx stream_page) id_lt (event_stream stream_page)
    has_cursor 5 follow_options (stream_event 2) stream_world w'
    (inr (map stream_event [4; 5; 9], token)));
    [apply stream_world_ok | split; vm_compute; discriminate | reflexivity
    | apply (list_elem_of_lookup_2 _ 1); vm_compute; reflexivity
    | intros x _ _; by eexists | vm_compute; lia | exact E].
Defined.

(** A client's token that asks for the backward walk and names no cursor: the
    listing dereferences the nil cursor instead of refusing the token. *)
Lemma backward_without_cursor_panics (C : TokenJSON IDCursor) (CL : TokenJSONLaws IDCursor)
    (p : ListEventsByTaskPageParams) (w : World) :
  0 ≤ EP_PageSize p ≤ 200 → EP_PageToken p = Encode (mkToken (C:=IDCursor) None true) →
  ∃ msg, ListEventsByTaskPage NoTx p w = (inl (EPanic msg), w).
Proof.
  intros Hsz Htok. eexists. unfold ListEventsByTaskPage, List. cbn [DefaultPageSize MaxPageSize PageSize PageToken].
  rewrite Htok, Decode_Encode. pose proof (Encode_nonempty (mkToken (C:=IDCursor) None true)).
  destruct (String.eqb_spec (Encode (mkToken (C:=IDCursor) None true)) ""); [done|].
  assert (1 ≤ or_int (EP_PageSize p) 50 ≤ 200) as [? ?].
  { unfold or_int. destruct (Z.eqb_spec (EP_PageSize p) 0); lia. }
  destruct (Z.ltb_spec (or_int (EP_PageSize p) 50) 1); [lia|].
  destruct (Z.ltb_spec 200 (or_int (EP_PageSize p) 50)); [lia|]. reflexivity.
Qed.
