(* ===== verification/ApiEvents.v ===== *)
(** * The event, link, log, workspace and token API

    Models the handlers of [internal/server/apiserver/event.go], [link.go],
    [log.go], [workspace.go] and [tasktoken.go], and [ListTasks] of [task.go]
    (the paged listings come from [StorePages]). *)

From S2P Require Import Prelude Base64 AuthScope EventModel TaskModel Links PubSub ScheduleModel.
From S2P Require Import Rules Store StoreOps StoreLogic ApiBase Timeline ShellServer ApiTask.
From S2P Require Import ApiTaskSpec Pagination StorePages.

(** ** Gates the task-bound handlers share *)

(** The row a write needs: the coarse gate, the org-scoped read, then the
    instance check on the row's attributes. *)
Definition writable_task (caller : UserInfo) (id : Z) : M Task :=
  r ← catch (GetTask NoTx id (User_OrgID caller));
  match r with
  | inl err => raise (readError (taskNotFound id) err)
  | inr task =>
      if negb (Allow (User_Scopes caller) OpTaskWrite (ScopeAttr task))
      then PermissionDenied "cannot write task"
      else mret task
  end.

(** A blanket read is authorized without the row; a predicated one needs it. *)
Definition readable_task (caller : UserInfo) (id : Z) : M unit :=
  if negb (Allow (User_Scopes caller) OpTaskRead []) then
    r ← catch (GetTask NoTx id (User_OrgID caller));
    match r with
    | inl err => raise (readError (taskNotFound id) err)
    | inr task =>
        if negb (Allow (User_Scopes caller) OpTaskRead (ScopeAttr task))
        then PermissionDenied "cannot read task"
        else mret ()
    end
  else mret ().

(** A failed listing: a bad request, or internal; a panic is neither. *)
Definition pageError (err : Err) : Err :=
  if isPanic err then err
  else EConnect (if isInvalidRequest err then CodeInvalidArgument else CodeInternal)
         (Err_Error err).

Definition internal_on_error {A} (m : M A) : M A :=
  r ← catch m;
  match r with inl err => Internal err | inr a => mret a end.

Definition page_on_error {A} (m : M A) : M A :=
  r ← catch m;
  match r with inl err => raise (pageError err) | inr a => mret a end.

(** ** Events *)

Definition maxLimit : Z := 100.

Definition Server_ListExternalEvents (caller : UserInfo) (limit : Z) : M (list Event) :=
  let limit := or_int limit maxLimit in
  if (limit <? 0) || (maxLimit <? limit) then
    InvalidArgument ("limit must be at most " +:+ FormatInt maxLimit)
  else if negb (Allow (User_Scopes caller) OpEventRead []) then
    PermissionDenied "cannot list events"
  else internal_on_error
         (ListEvents NoTx (Z.to_nat limit) (User_OrgID caller) [EventTypeExternal]).

Definition eventNotFound (id : Z) : string := "event " +:+ FormatInt id +:+ " not found".

Definition Server_GetEvent (caller : UserInfo) (id : Z) : M Event :=
  if negb (Allow (User_Scopes caller) OpEventRead []) then PermissionDenied "cannot read event"
  else
    r ← catch (GetEvent NoTx id (User_OrgID caller));
    match r with
    | inl err => raise (readError (eventNotFound id) err)
    | inr event => mret event
    end.

Definition Server_DeleteEvent (caller : UserInfo) (id : Z) : M unit :=
  if negb (Allow (User_Scopes caller) OpEventWrite []) then PermissionDenied "cannot write event"
  else
    internal_on_error (DeleteEvent NoTx id (User_OrgID caller)) ;;
    now ← time_Now;
    publish (change caller now [mkResource "deleted" "event" id] "" TaskStatusUnspecified "").

Record ListEventsByTaskRequest := mkListEvents {
  LE_TaskId : Z; LE_PageSize : Z; LE_PageToken : string; LE_Types : list string }.

(** The timeline's previous page is the listing's next one. *)
Record ListEventsByTaskResponse := mkListEventsResponse {
  LER_Events : list Event; LER_PrevPageToken : string; LER_NextPageToken : string;
  LER_More : bool }.

Section paged.
Context `{TokenJSON IDCursor} `{TokenJSON taskCursor}.

Definition Server_ListEventsByTask (caller : UserInfo) (req : ListEventsByTaskRequest)
    : M ListEventsByTaskResponse :=
  if negb (AllowOp (User_Scopes caller) OpTaskRead) then PermissionDenied "cannot read task"
  else
    readable_task caller (LE_TaskId req) ;;
    if (LE_PageSize req =? 0) && String.eqb (LE_PageToken req) "" then
      events ← internal_on_error (ListEventsByTask NoTx (LE_TaskId req) (User_OrgID caller) []);
      mret (mkListEventsResponse events "" "" false)
    else
      page ← page_on_error (ListEventsByTaskPage NoTx
        (mkEventPage (LE_TaskId req) (User_OrgID caller) (LE_Types req) (LE_PageSize req)
           (LE_PageToken req)));
      mret (mkListEventsResponse (Page_Items page) (Page_NextToken page) (Page_PrevToken page)
              (Page_More page)).

Definition Server_ListLogChunksByTask (caller : UserInfo) (taskID pageSize : Z)
    (pageToken : string) : M (list LogChunk * string * string * bool) :=
  if negb (AllowOp (User_Scopes caller) OpTaskRead) then PermissionDenied "cannot read task"
  else
    readable_task caller taskID ;;
    page ← page_on_error (ListLogChunksByTaskPage NoTx
      (mkChunkPage taskID (User_OrgID caller) pageSize pageToken));
    mret (Page_Items page, Page_NextToken page, Page_PrevToken page, Page_More page).

Definition Server_ListTasks (caller : UserInfo) (pageSize : Z) (pageToken : string)
    (archived : bool) : M (list Task * string) :=
  if negb (Allow (User_Scopes caller) OpTaskRead []) then PermissionDenied "cannot list tasks"
  else
    page ← page_on_error (ListTasksPage NoTx
      (mkTaskPage (User_OrgID caller) pageSize pageToken archived));
    mret (Page_Items page, Page_NextToken page).
End paged.

(** ** Links *)

Record CreateLinkRequest := mkCreateLink {
  CL_TaskId : Z; CL_Relevance : string; CL_Url : string; CL_Title : string; CL_Subscribe : bool }.

Definition link_resources (taskID linkID : Z) : list NotificationResource :=
  [mkResource "created" "task_links" taskID; mkResource "created" "link" linkID].

Definition link_event (task : Task) (link : Link) : Event :=
  newEvent (Task_ID task) (Task_OrgID task) false (Link_EventPayload link).

Section links.
Context (url_Parse : string → option Url).

Definition new_link (req : CreateLinkRequest) (now : Z) : Link :=
  mkLink 0 (CL_TaskId req) (CL_Relevance req) (CL_Url req) (RoutingKey url_Parse (CL_Url req))
    (CL_Title req) (CL_Subscribe req) now "".

Definition Server_CreateLink (caller : UserInfo) (req : CreateLinkRequest) : M Link :=
  if negb (AllowOp (User_Scopes caller) OpTaskWrite) then PermissionDenied "cannot write task"
  else
    task ← writable_task caller (CL_TaskId req);
    now ← time_Now;
    r ← catch (WithTx NoTx (λ tx,
      link ← CreateLink tx (new_link req now);
      CreateEvent tx (link_event task link) ;;
      Commit tx ;;
      mret link));
    match r with
    | inl err => Internal err
    | inr link =>
        publish (change caller now (link_resources (CL_TaskId req) (Link_ID link)) ""
                   TaskStatusUnspecified "") ;;
        mret link
    end.
End links.

Definition Server_ListLinks (caller : UserInfo) (taskID : Z) : M (list Link) :=
  if negb (AllowOp (User_Scopes caller) OpTaskRead) then PermissionDenied "cannot read task"
  else
    readable_task caller taskID ;;
    internal_on_error (ListLinksByTask NoTx taskID (User_OrgID caller)).

(** ** Logs *)

Definition reportLogType : string := "llm".

Record LogEntry := mkLogEntry { Log_Type : string; Log_Content : string }.

Definition report_event (task : Task) (entry : LogEntry) : Event :=
  newEvent (Task_ID task) (Task_OrgID task) false (Report (mkReport (Log_Content entry))).

Definition Server_UploadLogs (caller : UserInfo) (taskID : Z) (entries : list LogEntry) : M unit :=
  if negb (AllowOp (User_Scopes caller) OpTaskWrite) then PermissionDenied "cannot write task"
  else
    task ← writable_task caller taskID;
    for_each entries (λ entry,
      if negb (String.eqb (Log_Type entry) reportLogType) then mret ()
      else internal_on_error (CreateEvent NoTx (report_event task entry)) ;; mret ()) ;;
    now ← time_Now;
    publish (change caller now [mkResource "appended" "task_events" taskID] ""
               TaskStatusUnspecified "").

Definition maxLogChunkSize : Z := 1048576.

Definition Server_AppendLogChunk (caller : UserInfo) (taskID version : Z) (data : list Z) : M unit :=
  let len := Z.of_nat (length data) in
  if negb (AllowOp (User_Scopes caller) OpTaskWrite) then PermissionDenied "cannot write task"
  else if len =? 0 then InvalidArgument "data is required"
  else if maxLogChunkSize <? len then
    InvalidArgument ("data must be at most " +:+ FormatInt maxLogChunkSize +:+ " bytes")
  else
    task ← writable_task caller taskID;
    internal_on_error (CreateLogChunk NoTx
      (mkLogChunk 0 (Task_OrgID task) (Task_ID task) version data 0)) ;;
    mret ().

(** ** Workspaces *)

Record WorkspaceReq := mkWorkspaceReq { WR_Name : string; WR_Description : string }.

Definition Server_RegisterWorkspaces (caller : UserInfo) (runnerID : string)
    (workspaces : list WorkspaceReq) : M unit :=
  if negb (Allow (User_Scopes caller) OpWorkspaceWrite []) then
    PermissionDenied "cannot register workspaces"
  else
    r ← catch (WithTx NoTx (λ tx,
      DeleteWorkspacesByRunner tx runnerID (User_OrgID caller) ;;
      for_each workspaces (λ ws,
        CreateWorkspace tx runnerID (WR_Name ws) (WR_Description ws) (User_OrgID caller)) ;;
      Commit tx));
    match r with
    | inl err => Internal err
    | inr _ =>
        now ← time_Now;
        publish (change caller now [mkResource "registered" "workspaces" 0] ""
                   TaskStatusUnspecified "")
    end.

Definition Server_ListWorkspaces (caller : UserInfo) : M (list Workspace) :=
  if negb (Allow (User_Scopes caller) OpWorkspaceRead []) then
    PermissionDenied "cannot list workspaces"
  else internal_on_error (StoreListWorkspaces NoTx (User_OrgID caller)).

Definition Server_ClearWorkspaces (caller : UserInfo) (runnerID : string) : M unit :=
  if negb (Allow (User_Scopes caller) OpWorkspaceWrite []) then
    PermissionDenied "cannot clear workspaces"
  else
    (if negb (String.eqb runnerID "")
     then internal_on_error (DeleteWorkspacesByRunner NoTx runnerID (User_OrgID caller))
     else internal_on_error (StoreClearWorkspaces NoTx (User_OrgID caller))) ;;
    now ← time_Now;
    publish (change caller now [mkResource "cleared" "workspaces" 0] "" TaskStatusUnspecified "").

(** ** Task tokens *)

(** The claims of an app token that carry authority ([AppClaims]). *)
Record AppClaims := mkClaims {
  Claims_Subject : string; Claims_Email : string; Claims_Name : string; Claims_OrgID : Z;
  Claims_Scopes : Scopes; Claims_ExpiresAt : option Z }.

Definition NewTaskTokenClaims (orgID : Z) (scopes : Scopes) : AppClaims :=
  mkClaims "" "" "" orgID scopes None.

Section tokens.
(** [SignAppToken]: the JWT library signs with the server's key. *)
Context (SignAppToken : AppClaims → Err + string).

Definition Server_CreateTaskToken (caller : UserInfo) (taskID : Z) (capabilities : list string)
    : M string :=
  if negb (Allow (User_Scopes caller) OpTaskTokenCreate []) then
    PermissionDenied "cannot mint task tokens"
  else
    match List.find (λ c, negb (ValidCapability c)) capabilities with
    | Some c => InvalidArgument ("invalid capability: " +:+ quoted c)
    | None =>
        r ← catch (GetTask NoTx taskID (User_OrgID caller));
        match r with
        | inl err => raise (readError (taskNotFound taskID) err)
        | inr task =>
            let scopes := AgentScopes (mkScopeOptions (Task_ID task) capabilities) in
            match SignAppToken (NewTaskTokenClaims (Task_OrgID task) scopes) with
            | inl err => Internal err
            | inr token => mret token
            end
        end
    end.
End tokens.

(** ** What the handlers do *)

Definition may_write (caller : UserInfo) (id : Z) (tb : Tables) (row : TaskRow) : Prop :=
  select_task tb id (User_OrgID caller) = Some row ∧
  Allow (User_Scopes caller) OpTaskWrite (ScopeAttr (toModelTask row)) = true.

(** Why a task-bound request is refused: the capability, the row, or the
    capability on that row. *)
Definition refused (caller : UserInfo) (op : list string) (id : Z) (tb : Tables) (e : Err) : Prop :=
  (AllowOp (User_Scopes caller) op = false ∧ CodeOf e = CodePermissionDenied) ∨
  (select_task tb id (User_OrgID caller) = None ∧ CodeOf e = CodeNotFound) ∨
  (∃ row, select_task tb id (User_OrgID caller) = Some row ∧
     Allow (User_Scopes caller) op (ScopeAttr (toModelTask row)) = false ∧
     CodeOf e = CodePermissionDenied).

Ltac refused := unfold refused; first [left; done | right; left; done | right; right; by eexists].

Lemma toModelTask_fk tb q id orgID row :
  tables_ok tb q → select_task tb id orgID = Some row →
  fk_task tb (Task_ID (toModelTask row)) && fk_org tb (Task_OrgID (toModelTask row)) = true ∧
  Task_ID (toModelTask row) = id ∧ Task_OrgID (toModelTask row) = orgID.
Proof.
  intros Hok H. destruct (select_task_ok _ _ _ _ _ Hok H) as (? & ? & ? & ?). simpl.
  by subst; rewrite andb_true_iff.
Qed.

Section CreateLink.
Context (url_Parse : string → option Url) (caller : UserInfo) (req : CreateLinkRequest).

(** The link row and the event that mirrors it, together. *)
Definition CreateLink_ok (now : Z) (tb : Tables) (link : Link) (tb' : Tables)
    (ns : list Notification) : Prop :=
  ∃ row id, may_write caller (CL_TaskId req) tb row ∧
    (∀ i, is_Some (t_links tb !! i) → i < id) ∧
    link = set_Link_ID id (new_link url_Parse req now) ∧
    add_events now [link_event (toModelTask row) link] (with_links <[id := link]> tb) tb' ∧
    ns = [change caller now (link_resources (CL_TaskId req) id) "" TaskStatusUnspecified ""].

Lemma CreateLink_spec :
  HandlerSpec (Server_CreateLink url_Parse caller req) CreateLink_ok
    (refused caller OpTaskWrite (CL_TaskId req)).
Proof.
  intros w Hw. pose proof (at_refl w Hw) as Hat.
  unfold Server_CreateLink, writable_task, CreateLink.
  wps; wp_err; try refused.
  - exfalso. destruct (toModelTask_fk _ _ _ _ _ (proj2 Hw) H) as (Hfk & Hid & _).
    apply andb_true_iff in Hfk as [Hfk _]. rewrite Hid in Hfk. simpl in *. congruence.
  - exfalso. destruct (toModelTask_fk _ _ _ _ _ (proj2 Hw) H) as (Hfk & _). simpl in *.
    unfold fk_task, fk_org in *. simpl in *. congruence.
  - do 2 eexists. split; [exact H3|]. exists r, (s SeqLinks). split; [done|].
    split; [apply H2|]. split; [done|]. split; [by apply add_one|done].
Qed.
End CreateLink.

(** ** Log chunks and reports *)

Definition chunk_size_ok (data : list Z) : Prop :=
  0 < Z.of_nat (length data) ≤ maxLogChunkSize.

Definition AppendLogChunk_ok (caller : UserInfo) (taskID version : Z) (data : list Z)
    (now : Z) (tb : Tables) (_ : unit) (tb' : Tables) (ns : list Notification) : Prop :=
  ∃ row id, may_write caller taskID tb row ∧ chunk_size_ok data ∧
    (∀ i, is_Some (t_chunks tb !! i) → i < id) ∧
    tb' = with_chunks <[id := mkLogChunk id (User_OrgID caller) taskID version data now]> tb ∧
    ns = [].

Lemma AppendLogChunk_spec caller taskID version data :
  HandlerSpec (Server_AppendLogChunk caller taskID version data)
    (AppendLogChunk_ok caller taskID version data)
    (λ tb e, refused caller OpTaskWrite taskID tb e ∨
             (¬ chunk_size_ok data ∧ CodeOf e = CodeInvalidArgument)).
Proof.
  intros w Hw. pose proof (at_refl w Hw) as Hat.
  unfold Server_AppendLogChunk, writable_task, internal_on_error, CreateLogChunk, chunk_size_ok.
  wps; wp_err; try (left; refused); try (right; simpl; split; [lia|done]).
  - exfalso. destruct (toModelTask_fk _ _ _ _ _ (proj2 Hw) H) as (Hfk & _). simpl in *. congruence.
  - destruct (toModelTask_fk _ _ _ _ _ (proj2 Hw) H) as (_ & Hid & Horg).
    do 2 eexists. split; [eassumption|]. exists r, (s SeqChunks). split; [done|].
    unfold chunk_size_ok. split; [lia|].
    split; [by apply (ids_chunks _ _ H2)|]. split; [|done]. by rewrite Hid, Horg.
Qed.

Definition is_report (entry : LogEntry) : bool := String.eqb (Log_Type entry) reportLogType.

(** The reports of a batch, as the events they become. *)
Definition reports (task : Task) (entries : list LogEntry) : list Event :=
  map (report_event task) (List.filter is_report entries).

Definition upload_notification (caller : UserInfo) (taskID now : Z) : Notification :=
  change caller now [mkResource "appended" "task_events" taskID] "" TaskStatusUnspecified "".

(** Each report is its own statement: a fault leaves the ones before it. *)
Definition UploadLogs_outcome (caller : UserInfo) (taskID : Z) (entries : list LogEntry)
    (w : World) (r : Err + unit) (w' : World) : Prop :=
  match r with
  | inr _ => ∃ row tb, may_write caller taskID (committed w) row ∧
      at_ w tb [upload_notification caller taskID (clock w)] w' ∧
      add_events (clock w) (reports (toModelTask row) entries) (committed w) tb
  | inl e =>
      (at_ w (committed w) [] w' ∧
       (healthy w → refused caller OpTaskWrite taskID (committed w) e)) ∨
      (∃ row tb stored lost, may_write caller taskID (committed w) row ∧ at_ w tb [] w' ∧
         reports (toModelTask row) entries = stored ++ lost ∧
         add_events (clock w) stored (committed w) tb ∧ ¬ healthy w)
  end.

Lemma upload_loop task entries w0 : ∀ tb w, at_ w0 tb [] w →
  fk_task tb (Task_ID task) && fk_org tb (Task_OrgID task) = true →
  wp (for_each entries (λ entry,
      if negb (String.eqb (Log_Type entry) reportLogType) then mret ()
      else internal_on_error (CreateEvent NoTx (report_event task entry)) ;; mret ()))
    (λ r w', ∃ tb' stored lost, at_ w0 tb' [] w' ∧ reports task entries = stored ++ lost ∧
       add_events (clock w0) stored tb tb' ∧
       match r with inr _ => lost = [] | inl _ => ¬ healthy w0 end) w.
Proof.
  induction entries as [|entry entries IH]; intros tb w Hat Hfk; simpl.
  { apply wp_ret. exists tb, [], []. repeat (split; [done|]). by split; [constructor|]. }
  apply wp_bind. unfold reports in *. simpl.
  change (String.eqb (Log_Type entry) reportLogType) with (is_report entry).
  destruct (is_report entry); simpl; [|apply wp_ret; by apply IH].
  unfold internal_on_error. wps.
  - exists tb, [], (report_event task entry :: reports task entries).
    repeat (split; [done|]). by split; [constructor|].
  - exfalso. simpl in *. congruence.
  - eapply wp_mono; [by eapply (IH _ _ H0)|].
    intros r w2 (tb' & stored & lost & Hat2 & Hrep & Hadd & Hr).
    exists tb', (report_event task entry :: stored), lost. split; [done|].
    split; [simpl; by f_equal|]. split; [by econstructor|done].
Qed.

Lemma UploadLogs_spec caller taskID entries w :
  world_ok w →
  wp (Server_UploadLogs caller taskID entries) (UploadLogs_outcome caller taskID entries w) w.
Proof.
  intros Hw. pose proof (at_refl w Hw) as Hat. unfold Server_UploadLogs, writable_task.
  wps; try (left; split; [done|]; intros ?; try contradiction; refused).
  eapply wp_mono.
  { eapply upload_loop; [done|]. by destruct (toModelTask_fk _ _ _ _ _ (proj2 Hw) H). }
  intros [e|[]] w1 (tb & stored & lost & Hat1 & Hrep & Hadd & Hr).
  - right. exists r, tb, stored, lost. do 3 (split; [done|]). by split.
  - subst lost. rewrite app_nil_r in Hrep. subst stored. wps. exists r, tb. split; [done|]. by split.
Qed.

(** ** Deleting an event *)

Definition deleted_event (id orgID : Z) (tb : Tables) : Tables :=
  match t_events tb !! id with
  | Some e => if Event_OrgID e =? orgID then with_events (delete id) tb else tb
  | None => tb
  end.

Lemma DeleteEvent_spec caller id :
  HandlerSpec (Server_DeleteEvent caller id)
    (λ now tb _ tb' ns, Allow (User_Scopes caller) OpEventWrite [] = true ∧
       tb' = deleted_event id (User_OrgID caller) tb ∧
       ns = [change caller now [mkResource "deleted" "event" id] "" TaskStatusUnspecified ""])
    (λ _ e, Allow (User_Scopes caller) OpEventWrite [] = false ∧ CodeOf e = CodePermissionDenied).
Proof.
  intros w Hw. pose proof (at_refl w Hw) as Hat.
  unfold Server_DeleteEvent, internal_on_error, DeleteEvent. wps; wp_err; try done.
  do 2 eexists. split; [eassumption|]. done.
Qed.

(** ** Workspaces *)

(** Registering a list of workspaces, one row each. *)
Inductive add_workspaces (now : Z) (runnerID : string) (orgID : Z)
    : list WorkspaceReq → Tables → Tables → Prop :=
| addws_nil tb : add_workspaces now runnerID orgID [] tb tb
| addws_cons ws wss id tb tb' :
    (∀ i, is_Some (t_workspaces tb !! i) → i < id) →
    add_workspaces now runnerID orgID wss
      (with_workspaces <[id := mkWorkspace id runnerID (WR_Name ws) (WR_Description ws) orgID now]> tb)
      tb' →
    add_workspaces now runnerID orgID (ws :: wss) tb tb'.

Lemma has_workspace_spec tb runnerID name orgID :
  has_workspace tb runnerID name orgID = true ↔
  ∃ i ws, t_workspaces tb !! i = Some ws ∧ WS_RunnerID ws = runnerID ∧ WS_Name ws = name ∧
    WS_OrgID ws = orgID.
Proof.
  unfold has_workspace. rewrite existsb_exists. setoid_rewrite <- list_elem_of_In.
  setoid_rewrite elem_of_rows. setoid_rewrite andb_true_iff. setoid_rewrite andb_true_iff.
  setoid_rewrite String.eqb_eq. setoid_rewrite Z.eqb_eq. naive_solver.
Qed.

Lemma add_workspaces_rows now runnerID orgID wss tb tb' :
  add_workspaces now runnerID orgID wss tb tb' →
  t_tasks tb' = t_tasks tb ∧ t_schedules tb' = t_schedules tb ∧
  ∀ r n o, has_workspace tb' r n o = true ↔
    has_workspace tb r n o = true ∨ (r = runnerID ∧ o = orgID ∧ n ∈ map WR_Name wss).
Proof.
  induction 1 as [tb|ws wss id tb tb' Hid _ (Ht & Hs & IH)].
  { split; [done|]. split; [done|]. intros r n o. simpl. rewrite elem_of_nil. tauto. }
  split; [done|]. split; [done|]. intros r n o. rewrite IH. simpl. rewrite elem_of_cons.
  assert (Hn : t_workspaces tb !! id = None).
  { destruct (t_workspaces tb !! id) eqn:E; [|done]. specialize (Hid id). rewrite E in Hid.
    specialize (Hid ltac:(done)). lia. }
  rewrite !has_workspace_spec. simpl. setoid_rewrite lookup_insert_Some. split.
  - intros [(i & x & [[<- <-]|[Hne Hx]] & Hr)|?]; naive_solver.
  - intros [(i & x & Hx & Hr)|(-> & -> & [->|Hin])]; [left|left|right; done].
    + exists i, x. split; [right|done]. split; [|done]. intros ->. congruence.
    + eexists id, _. split; [left; done|done].
Qed.

Definition register_notification (caller : UserInfo) (action : string) (now : Z) : Notification :=
  change caller now [mkResource action "workspaces" 0] "" TaskStatusUnspecified "".

Definition cleared_runner (runnerID : string) (orgID : Z) : Tables → Tables :=
  with_workspaces (filter (λ kv, ¬ (WS_RunnerID kv.2 = runnerID ∧ WS_OrgID kv.2 = orgID))).

Section RegisterWorkspaces.
Context (caller : UserInfo) (runnerID : string) (workspaces : list WorkspaceReq).

Definition RegisterWorkspaces_ok (now : Z) (tb : Tables) (_ : unit) (tb' : Tables)
    (ns : list Notification) : Prop :=
  Allow (User_Scopes caller) OpWorkspaceWrite [] = true ∧
  add_workspaces now runnerID (User_OrgID caller) workspaces
    (cleared_runner runnerID (User_OrgID caller) tb) tb' ∧
  ns = [register_notification caller "registered" now].

Definition RegisterWorkspaces_err (tb : Tables) (e : Err) : Prop :=
  (Allow (User_Scopes caller) OpWorkspaceWrite [] = false ∧ CodeOf e = CodePermissionDenied) ∨
  (fk_org tb (User_OrgID caller) = false ∧ workspaces ≠ [] ∧ CodeOf e = CodeInternal).

Lemma wp_CreateWorkspaces w0 base ns Q wss : ∀ tb w, in_tx w0 base ns tb w →
  (∀ msg w', ¬ healthy w0 → same w0 base ns w' → Q (inl (EOther msg)) w') →
  (∀ w', fk_org tb (User_OrgID caller) = false → wss ≠ [] → same w0 base ns w' →
     Q (inl fk_error) w') →
  (∀ tb' w', add_workspaces (clock w0) runnerID (User_OrgID caller) wss tb tb' →
     in_tx w0 base ns tb' w' → Q (inr ()) w') →
  wp (for_each wss (λ ws,
    CreateWorkspace InTx runnerID (WR_Name ws) (WR_Description ws) (User_OrgID caller))) Q w.
Proof.
  induction wss as [|ws wss IH]; intros tb w Hin Hf Hfk Hok; simpl.
  { apply wp_ret. eapply Hok; [constructor|done]. }
  unfold CreateWorkspace. wps; [by apply Hf|by apply Hfk|].
  eapply (IH _ _ H1); [done| |].
  - intros w2 Hfk2 Hne Hs. apply Hfk; [|done..]. unfold fk_org in *. by simpl in Hfk2.
  - intros tb' w2 Hadd. apply Hok. econstructor; [|exact Hadd]. by apply ids_workspaces.
Qed.

Lemma RegisterWorkspaces_spec :
  HandlerSpec (Server_RegisterWorkspaces caller runnerID workspaces) RegisterWorkspaces_ok
    RegisterWorkspaces_err.
Proof.
  intros w Hw. pose proof (at_refl w Hw) as Hat.
  unfold Server_RegisterWorkspaces, DeleteWorkspacesByRunner, RegisterWorkspaces_err.
  wps; wp_err; try by (left; split).
  eapply wp_CreateWorkspaces; [exact H0| | |].
  - intros msg w2 Hn Hs. eapply after_rollback_intro; [exact Hs|]. intros w3 Hat3.
    wps. by split.
  - intros w2 Hfk Hne Hs. eapply after_rollback_intro; [exact Hs|]. intros w3 Hat3.
    wps. split; [done|]. intros _. by right.
  - intros tb w2 Hadd Hin. wps; wp_err. do 2 eexists. split; [eassumption|].
    by split.
Qed.

(** registering replaces: once it succeeds, the runner's workspaces in
    the caller's org are exactly the ones of the request, and every other
    runner's and org's are untouched; when it fails nothing changes. *)
Theorem RegisterWorkspaces_replaces (w w' : World) (r : Err + unit) :
  world_ok w → Server_RegisterWorkspaces caller runnerID workspaces w = (r, w') →
  match r with
  | inr _ => ∀ runner name org, has_workspace (committed w') runner name org = true ↔
      if String.eqb runner runnerID && (org =? User_OrgID caller)
      then name ∈ map WR_Name workspaces
      else has_workspace (committed w) runner name org = true
  | inl _ => committed w' = committed w ∧ published w' = published w
  end.
Proof.
  intros Hw Hrun. pose proof (HandlerSpec_run _ _ _ _ _ _ RegisterWorkspaces_spec Hw Hrun) as H.
  destruct r as [e|[]]; simpl in H.
  - destruct H as [Hat _]. split; [by apply at_committed in Hat|].
    by rewrite (at_published _ _ _ _ Hat), app_nil_r.
  - destruct H as (tb & ns & Hat & _ & Hadd & _). rewrite (at_committed _ _ _ _ Hat).
    apply add_workspaces_rows in Hadd as (_ & _ & Hadd). intros runner name org.
    rewrite Hadd, !has_workspace_spec. simpl. setoid_rewrite map_lookup_filter_Some. simpl.
    destruct (String.eqb_spec runner runnerID) as [->|Hr];
      [destruct (Z.eqb_spec org (User_OrgID caller)) as [->|Ho]|]; simpl.
    + split; [|by right]. intros [(i & x & [_ Hn] & ? & _ & ?)|(_ & _ & ?)]; [|done].
      exfalso. by apply Hn.
    + rewrite has_workspace_spec. split; [intros [(i & x & [? _] & ?)|(_ & ? & _)]; [by exists i, x|done]|].
      intros (i & x & Hx & ? & ? & Hox). left. exists i, x. split; [|done]. split; [done|].
      intros [_ ?]. congruence.
    + rewrite has_workspace_spec. split; [intros [(i & x & [? _] & ?)|(? & _)]; [by exists i, x|done]|].
      intros (i & x & Hx & Hrx & ?). left. exists i, x. split; [|done]. split; [done|].
      intros [? _]. congruence.
Qed.
End RegisterWorkspaces.

Lemma RegisterWorkspaces_replaces_witness :
  let run := Server_RegisterWorkspaces sample_caller "r1" [mkWorkspaceReq "new" ""] in
  has_workspace (committed (snd (run sample_world))) "r1" "ws" 3 = true ↔ "ws" ∈ ["new"].
Proof.
  intros run. destruct (run sample_world) as [r w'] eqn:E.
  assert (Hr : r = inr ()) by (vm_compute in E; injection E as <- _; reflexivity). subst r.
  exact (RegisterWorkspaces_replaces sample_caller "r1" [mkWorkspaceReq "new" ""] sample_world w'
    (inr ()) sample_world_ok E "r1" "ws" 3).
Defined.

Definition clear_workspaces (runnerID : string) (orgID : Z) : Tables → Tables :=
  if negb (String.eqb runnerID "") then cleared_runner runnerID orgID
  else with_workspaces (filter (λ kv, WS_OrgID kv.2 ≠ orgID)).

Lemma ClearWorkspaces_spec caller runnerID :
  HandlerSpec (Server_ClearWorkspaces caller runnerID)
    (λ now tb _ tb' ns, Allow (User_Scopes caller) OpWorkspaceWrite [] = true ∧
       tb' = clear_workspaces runnerID (User_OrgID caller) tb ∧
       ns = [register_notification caller "cleared" now])
    (λ _ e, Allow (User_Scopes caller) OpWorkspaceWrite [] = false ∧
            CodeOf e = CodePermissionDenied).
Proof.
  intros w Hw. pose proof (at_refl w Hw) as Hat.
  unfold Server_ClearWorkspaces, internal_on_error, DeleteWorkspacesByRunner, StoreClearWorkspaces,
    clear_workspaces.
  wps; wp_err; try done; do 2 eexists; (split; [eassumption|]); done.
Qed.

(** ** Task tokens *)

Section CreateTaskToken.
Context (SignAppToken : AppClaims → Err + string).
Context (caller : UserInfo) (taskID : Z) (capabilities : list string).

Definition minted_claims : AppClaims :=
  NewTaskTokenClaims (User_OrgID caller) (AgentScopes (mkScopeOptions taskID capabilities)).

Lemma CreateTaskToken_spec :
  HandlerSpec (Server_CreateTaskToken SignAppToken caller taskID capabilities)
    (λ _ tb token tb' ns, tb' = tb ∧ ns = [] ∧
       Allow (User_Scopes caller) OpTaskTokenCreate [] = true ∧
       is_Some (select_task tb taskID (User_OrgID caller)) ∧
       Forall (λ c, ValidCapability c = true) capabilities ∧
       SignAppToken minted_claims = inr token)
    (λ _ _, True).
Proof.
  intros w Hw. pose proof (at_refl w Hw) as Hat. unfold Server_CreateTaskToken.
  destruct (List.find _ capabilities) as [c|] eqn:Hf; wps; wp_err; try done.
  - destruct (toModelTask_fk _ _ _ _ _ (proj2 Hw) H) as (_ & Hid & Horg).
    rewrite Hid, Horg in Heqs. exists (committed w), []. do 4 (split; [done|]).
    rewrite H. split; [done|]. split; [|done]. apply Forall_forall. intros c Hc.
    apply list_elem_of_In in Hc. pose proof (List.find_none _ _ Hf _ Hc) as Hv.
    by apply negb_false_iff.
Qed.

(** A token is only minted for a task of the caller's own org, by a
    caller allowed to mint, and changes nothing.  It acts for that org, and
    over any task it allows reading or writing exactly that one, and only
    while it is not archived: archiving the task revokes it.  Beyond tasks it
    allows issuing GitHub tokens, if that capability was asked for. *)
Theorem CreateTaskToken_confined (w w' : World) (token : string) :
  world_ok w → Server_CreateTaskToken SignAppToken caller taskID capabilities w = (inr token, w') →
  Allow (User_Scopes caller) OpTaskTokenCreate [] = true ∧
  committed w' = committed w ∧
  is_Some (select_task (committed w) taskID (User_OrgID caller)) ∧
  ∃ claims, SignAppToken claims = inr token ∧ Claims_OrgID claims = User_OrgID caller ∧
    ∀ op t, Allow (Claims_Scopes claims) op (ScopeAttr t) = true ↔
      ((op = OpTaskRead ∨ op = OpTaskWrite) ∧ Task_ID t = taskID ∧ Task_Archived t = false) ∨
      (op = OpGitHubTokenCreate ∧ CapabilityGitHubToken ∈ capabilities).
Proof.
  intros Hw Hrun.
  destruct (HandlerSpec_run _ _ _ _ _ _ CreateTaskToken_spec Hw Hrun)
    as (tb & ns & Hat & -> & -> & Hal & Hsel & _ & Hsign).
  split; [done|]. split; [by apply at_committed in Hat|]. split; [done|].
  exists minted_claims. split; [done|]. split; [done|]. intros op t.
  unfold minted_claims. cbn [Claims_Scopes NewTaskTokenClaims]. rewrite AgentScopes_allows.
  destruct (attrValue_task (Task_ID t) (Task_Archived t)) as [Hi Ha].
  unfold ScopeAttr. rewrite Hi, Ha. cbn [soTaskID soCapabilities].
  assert (∀ a, Some (FormatInt a) = Some (FormatInt taskID) ↔ a = taskID) as ->
    by (intros a; split; [intros [= ?%(inj FormatInt)]|intros ->]; done).
  assert (∀ b, Some (FormatBool b) = Some "false" ↔ b = false) as -> by (by intros []).
  done.
Qed.
End CreateTaskToken.

Lemma CreateTaskToken_confined_witness :
  let run := Server_CreateTaskToken (λ _, inr "jwt") sample_caller 7 [] in
  ∃ w' claims, run sample_world = (inr "jwt", w') ∧
    Allow (Claims_Scopes claims) OpTaskWrite (ScopeAttr (toModelTask sample_row)) = true.
Proof.
  intros run. destruct (run sample_world) as [r w'] eqn:E.
  assert (Hr : r = inr "jwt") by (vm_compute in E; injection E as <- _; reflexivity). subst r.
  destruct (CreateTaskToken_confined (λ _, inr "jwt") sample_caller 7 [] sample_world w' "jwt"
    sample_world_ok E) as (_ & _ & _ & claims & _ & _ & Hall).
  exists w', claims. split; [reflexivity|]. apply Hall. left. split; [by right|].
  split; vm_compute; reflexivity.
Defined.

(** ** Reads *)

(** A computation that only reads, whatever it answers. *)
Definition ReadOnly {A} (m : M A) : Prop :=
  ∀ w, world_ok w → wp m (λ _ w', at_ w (committed w) [] w') w.

Lemma ReadOnly_pure {A} (r : Err + A) : ReadOnly (λ w, (r, w)).
Proof. intros w Hw. by apply at_refl. Qed.

Lemma ReadOnly_bind {A B} (m : M A) (k : A → M B) :
  ReadOnly m → (∀ a, ReadOnly (k a)) → ReadOnly (m ≫= k).
Proof.
  intros Hm Hk w Hw. apply wp_bind. eapply wp_mono; [by apply Hm|]. intros [e|a] w1 Hat; [done|].
  eapply wp_mono; [apply Hk; by eapply at_world_ok|]. intros r w2 Hat2.
  rewrite (at_committed _ _ _ _ Hat) in Hat2. exact (at_trans _ _ _ _ _ [] [] Hat Hat2).
Qed.

Lemma ReadOnly_catch {A} (m : M A) : ReadOnly m → ReadOnly (catch m).
Proof. intros Hm w Hw. apply wp_catch. eapply wp_mono; [by apply Hm|done]. Qed.

Lemma ReadOnly_query {A} (f : Z → Tables → A) : ReadOnly (query NoTx f).
Proof. intros w Hw. pose proof (at_refl w Hw) as Hat. by wp. Qed.

Lemma ReadOnly_scan_one {A} (r : option A) : ReadOnly (scan_one r).
Proof. destruct r; apply ReadOnly_pure. Qed.

Create HintDb readonly.
#[export] Hint Resolve ReadOnly_pure ReadOnly_query ReadOnly_scan_one : readonly.

(** Follow a reading computation to its statements. *)
Ltac readonly :=
  repeat first
    [ solve [auto with readonly]
    | apply ReadOnly_bind; [|intros ?]
    | apply ReadOnly_catch
    | apply ReadOnly_pure
    | case_match ].

Lemma ReadOnly_GetTask id orgID : ReadOnly (GetTask NoTx id orgID).
Proof. unfold GetTask. readonly. Qed.

Lemma ReadOnly_List {T C} `{TokenJSON C} (src : Source T C) opt :
  (∀ token limit, ReadOnly (Query token limit)) → ReadOnly (List src opt).
Proof. intros Hq. unfold List. readonly. Qed.

#[export] Hint Resolve ReadOnly_GetTask : readonly.

Lemma ReadOnly_readable_task caller id : ReadOnly (readable_task caller id).
Proof. unfold readable_task. readonly. Qed.
#[export] Hint Resolve ReadOnly_readable_task : readonly.

Section paged_reads.
Context `{TokenJSON IDCursor} `{TokenJSON taskCursor}.

Lemma ReadOnly_ListEventsByTaskPage p : ReadOnly (ListEventsByTaskPage NoTx p).
Proof. apply ReadOnly_List. intros token limit. simpl. unfold nil_cursor. readonly. Qed.

Lemma ReadOnly_ListLogChunksByTaskPage p : ReadOnly (ListLogChunksByTaskPage NoTx p).
Proof. apply ReadOnly_List. intros token limit. simpl. unfold nil_cursor. readonly. Qed.

Lemma ReadOnly_ListTasksPage p : ReadOnly (ListTasksPage NoTx p).
Proof. apply ReadOnly_List. intros token limit. simpl. readonly. Qed.

Hint Resolve ReadOnly_ListEventsByTaskPage ReadOnly_ListLogChunksByTaskPage
  ReadOnly_ListTasksPage : readonly.

Lemma ReadOnly_ListEventsByTask caller req : ReadOnly (Server_ListEventsByTask caller req).
Proof. unfold Server_ListEventsByTask, internal_on_error, page_on_error, ListEventsByTask. readonly. Qed.

Lemma ReadOnly_ListLogChunksByTask caller id size token :
  ReadOnly (Server_ListLogChunksByTask caller id size token).
Proof. unfold Server_ListLogChunksByTask, page_on_error. readonly. Qed.

Lemma ReadOnly_ListTasks caller size token archived :
  ReadOnly (Server_ListTasks caller size token archived).
Proof. unfold Server_ListTasks, page_on_error. readonly. Qed.
End paged_reads.

Lemma ReadOnly_ListExternalEvents caller limit : ReadOnly (Server_ListExternalEvents caller limit).
Proof. unfold Server_ListExternalEvents, internal_on_error, ListEvents. readonly. Qed.

Lemma ReadOnly_GetEvent caller id : ReadOnly (Server_GetEvent caller id).
Proof. unfold Server_GetEvent, GetEvent. readonly. Qed.

Lemma ReadOnly_ListLinks caller id : ReadOnly (Server_ListLinks caller id).
Proof. unfold Server_ListLinks, internal_on_error, ListLinksByTask. readonly. Qed.

Lemma ReadOnly_ListWorkspaces caller : ReadOnly (Server_ListWorkspaces caller).
Proof. unfold Server_ListWorkspaces, internal_on_error, StoreListWorkspaces. readonly. Qed.

Lemma ReadOnly_CreateTaskToken sign caller id caps :
  ReadOnly (Server_CreateTaskToken sign caller id caps).
Proof. unfold Server_CreateTaskToken. readonly. Qed.

Lemma ReadOnly_Server_GetTask caller id : ReadOnly (Server_GetTask caller id).
Proof. unfold Server_GetTask. readonly. Qed.

Lemma ReadOnly_ListRunnerTasks caller runner : ReadOnly (Server_ListRunnerTasks caller runner).
Proof. unfold Server_ListRunnerTasks, ListTasksForRunner. readonly. Qed.

(** ** The listing, as its clients walk it *)

(** The filter of the listing, over a task's stream. *)
Definition of_types (types : list string) (stream : list Event) : list Event :=
  filter (λ e, type_selected types e = true) stream.

Section pages.
Context `{TL : TokenJSONLaws IDCursor}.

(** Only the source's cursors matter to a page. *)
Definition page_cursors : Source Event IDCursor := eventSource NoTx (mkEventPage 0 0 [] 0 "").

(** The listing of the server on a stream: the page, or nothing for a token that it
    does not serve. *)
Definition served_page (stream : list Event) (token : string) (types : list string) (pageSize : Z)
    : option ListEventsByTaskResponse :=
  let opt := mkOptions 50 200 true pageSize token in
  tok ← (if String.eqb token "" then Some (mkToken None false) else Decode token);
  match Tok_Backward tok, Tok_Cursor tok with
  | true, None => None
  | backward, _ =>
      let rows := keyset_rows (Cursor (Source:=page_cursors)) id_lt (of_types types stream) tok in
      let page := build_page page_cursors opt (size_of opt) backward (take (S (Z.to_nat (size_of opt))) rows) in
      Some (mkListEventsResponse (Page_Items page) (Page_NextToken page) (Page_PrevToken page) (Page_More page))
  end.

Lemma task_events_of_types tb q taskID orgID types :
  tables_ok tb q → task_events tb taskID orgID types = of_types types (task_events tb taskID orgID []).
Proof using.
  intros Hq. assert (Hk : ∀ i e, t_events tb !! i = Some e → Event_ID e = i)
    by (intros i e He; by apply (event_rows _ _ Hq) in He as []).
  unfold task_events, of_types.
  rewrite (stream_asc Event_ID (t_events tb) (λ e, (Event_TaskID e =? taskID) && (Event_OrgID e =? orgID)) Hk (type_selected types)).
  rewrite (stream_asc Event_ID (t_events tb) (λ e, (Event_TaskID e =? taskID) && (Event_OrgID e =? orgID)) Hk (type_selected [])).
  f_equal. symmetry. apply filter_all, Forall_forall. by intros.
Qed.

(** It is the server's answer: what [ListEventsByTask] returns for a page of a task's
    events is the page of the task's stream. *)
Lemma served_page_is `{TokenJSON taskCursor} caller req w resp w' :
  Server_ListEventsByTask caller req w = (inr resp, w') → world_ok w → 0 < LE_PageSize req <= 200 →
  served_page (task_events (committed w) (LE_TaskId req) (User_OrgID caller) []) (LE_PageToken req)
    (LE_Types req) (LE_PageSize req) = Some resp.
Proof using TL.
  intros Hrun Hw [Hlo Hhi].
  set (p := mkEventPage (LE_TaskId req) (User_OrgID caller) (LE_Types req) (LE_PageSize req) (LE_PageToken req)).
  set (opt := mkOptions 50 200 true (LE_PageSize req) (LE_PageToken req)).
  assert (Hsize : size_of opt = LE_PageSize req).
  { unfold size_of, or_int. simpl. by destruct (Z.eqb_spec (LE_PageSize req) 0); [lia|]. }
  assert (Hwp : wp (Server_ListEventsByTask caller req)
    (λ r _, ∀ resp, r = inr resp → served_page (task_events (committed w) (LE_TaskId req) (User_OrgID caller) [])
       (LE_PageToken req) (LE_Types req) (LE_PageSize req) = Some resp) w); [|unfold wp in Hwp; rewrite Hrun in Hwp; by apply Hwp].
  unfold Server_ListEventsByTask. destruct (AllowOp _ _); cbn [negb]; [|by intros ? [=]].
  apply wp_bind. eapply wp_mono; [by apply ReadOnly_readable_task|].
  intros [e|[]] w1 Hat; [by intros ? [=]|].
  destruct (Z.eqb_spec (LE_PageSize req) 0); [lia|]. cbn [andb].
  assert (Hw1 : world_ok w1) by (by eapply at_world_ok).
  rewrite <-(at_committed _ _ _ _ Hat). unfold page_on_error. apply wp_bind, wp_bind, wp_catch.
  fold p. unfold served_page. fold opt.
  assert (Hone : wp (ListEventsByTaskPage NoTx p) (λ r _, ∀ page, r = inr page →
    ∃ tok, (if String.eqb (LE_PageToken req) "" then Some (mkToken None false) else Decode (LE_PageToken req)) = Some tok ∧
      has_cursor tok ∧ page = page_of (eventSource NoTx p) id_lt (event_stream p) opt (committed w1) tok) w1).
  { assert (Hlist : ∀ tok, has_cursor tok → resolves opt tok →
      wp (List (eventSource NoTx p) opt) (λ r _, ∀ page, r = inr page →
        page = page_of (eventSource NoTx p) id_lt (event_stream p) opt (committed w1) tok) w1).
    { intros tok Hc Hres.
      assert (Hsz : size_ok opt) by (split; rewrite Hsize; simpl; lia).
      eapply wp_mono; [apply (List_spec (eventSource NoTx p) id_lt (event_stream p) has_cursor opt tok); done|].

      intros [err|page] w2 Ho; [by intros ? [=]|]. destruct Ho as (tb & ns & _ & -> & -> & ->). by intros page [= <-]. }
    change (ListEventsByTaskPage NoTx p) with (List (eventSource NoTx p) opt).
    destruct (String.eqb_spec (LE_PageToken req) "") as [E|E].
    - eapply wp_mono; [apply (Hlist (mkToken None false)); [done|by left]|]. intros r w2 Hr page E'. eexists. split; [done|]. split; [done|by apply Hr].
    - destruct (Decode (LE_PageToken req)) as [tok|] eqn:Htok.
      + destruct (decide (Tok_Backward tok = true → is_Some (Tok_Cursor tok))) as [Hc|Hc].
        * eapply wp_mono; [apply (Hlist tok); [done|by right]|]. intros r w2 Hr page E'. eexists. split; [done|]. split; [done|by apply Hr].
        * unfold List. fold (size_of opt). rewrite Hsize, !(proj2 (Z.ltb_ge _ _)) by (simpl; lia). cbn [orb]. change (PageToken opt) with (LE_PageToken req).
          rewrite (proj2 (String.eqb_neq _ _) E). rewrite Htok. apply wp_bind, wp_ret.
          destruct tok as [[c|] []]; try (exfalso; apply Hc; done). simpl. unfold nil_cursor. wps; by intros ? [=].
      + unfold List. fold (size_of opt). rewrite Hsize, !(proj2 (Z.ltb_ge _ _)) by (simpl; lia). cbn [orb]. change (PageToken opt) with (LE_PageToken req).
        rewrite (proj2 (String.eqb_neq _ _) E). rewrite Htok. wps. by intros ? [=]. }
  eapply wp_mono; [exact Hone|]. intros [err|page] w2 Hpage.
  { wps. intros ? [=]. }
  wps. intros ? [= <-]. destruct (Hpage page eq_refl) as (tok & -> & Hc & ->). cbn [mbind option_bind].
  assert (E : event_stream p (committed w1) = of_types (LE_Types req) (task_events (committed w1) (LE_TaskId req) (User_OrgID caller) []))
    by exact (task_events_of_types _ _ _ _ _ (proj2 Hw1)).
  unfold page_of, remaining. rewrite E.
  destruct (Tok_Backward tok) eqn:Hb; [|by destruct (Tok_Cursor tok)].
  destruct (Tok_Cursor tok) eqn:Hcur; [done|]. destruct (Hc Hb) as [? Hs]. congruence.
Qed.
End pages.
