(* ===== verification/McpTools.v ===== *)
(** * The MCP tools

    Models the tools that agents and users call over MCP:
    [internal/server/mcpserver/mcpserver.go], in front of the API, and
    [internal/runner/agentmcp/xmcp.go], which the driver offers its agent with
    the task's token.  Both compose the handlers of the API; a tool's failure is
    a result, not an error. *)

From S2P Require Import Prelude AuthScope EventModel TaskModel Links PubSub ScheduleModel Rules.
From S2P Require Import Store StoreOps StoreLogic ApiBase Timeline ShellServer ApiTask ApiTaskSpec.
From S2P Require Import Pagination StorePages StoreAccounts Evolution ApiEvents Wire.

(** ** Results *)

(** [ErrorResult], by its text up to the error it prints, and [JSONResult]. *)
Inductive ToolResult (A : Type) :=
| ErrorResult (what : string) (err : Err)
| JSONResult (v : A).
Arguments ErrorResult {A}.
Arguments JSONResult {A}.

(** A call of the service: a panic of the handler is not an error it returns. *)
Definition call {A B} (m : M A) (what : string) (k : A → M (ToolResult B)) : M (ToolResult B) :=
  r ← catch m;
  match r with
  | inl err => if isPanic err then raise err else mret (ErrorResult what err)
  | inr a => k a
  end.

Section tools.
Context `{TokenJSON IDCursor} `{TokenJSON taskCursor}.
Context (url_Parse : string → option Url).
Context (baseURL : string).
(** [time.ParseDuration]. *)
Context (ParseDuration : string → Err + Z).

(** ** The user's tools *)

Record taskSummary := mkSummary {
  Sum_ID : Z; Sum_Name : string; Sum_Workspace : string; Sum_Status : string; Sum_URL : string }.

Definition taskSummaryOf (t : Task) : taskSummary :=
  mkSummary (Task_ID t) (Task_Name t) (Task_Workspace t)
    (PbStatus_String (TaskStatus_int (Task_Status t)))
    (TaskURL baseURL (Task_ID t) (Task_OrgID t)).

Record createTaskInput := mkCreateInput {
  CI_Name : string; CI_Workspace : string; CI_Instruction : string; CI_Runner : string;
  CI_AutoArchive : string }.

(** The auto-archive of a request: as given, or the server's default. *)
Definition createTask (defaultAutoArchive : option Z) (caller : UserInfo) (input : createTaskInput)
    : M (ToolResult taskSummary) :=
  let create autoArchive :=
    call (Server_CreateTask caller
            (mkCreateTask (CI_Name input) (CI_Runner input) (CI_Workspace input) "" false autoArchive
               [mkInstr (CI_Instruction input) ""]))
      "failed to create task" (λ task, mret (JSONResult (taskSummaryOf task))) in
  if negb (String.eqb (CI_AutoArchive input) "") then
    match ParseDuration (CI_AutoArchive input) with
    | inl err => mret (ErrorResult ("invalid auto_archive " +:+ quoted (CI_AutoArchive input)) err)
    | inr d => create (Some d)
    end
  else create defaultAutoArchive.

(** A task with its stream and its links; [TD_Events] are the events that
    [protojson] renders. *)
Record taskDetails := mkDetails {
  TD_Summary : taskSummary; TD_Runner : string; TD_Links : list Link; TD_Events : list Event }.

Definition all_events (id : Z) : ListEventsByTaskRequest := mkListEvents id 0 "" [].

Definition getTask (caller : UserInfo) (id : Z) : M (ToolResult taskDetails) :=
  call (Server_GetTask caller id) "failed to get task" (λ task,
  call (Server_ListEventsByTask caller (all_events id)) "failed to list events" (λ events,
  call (Server_ListLinks caller id) "failed to list links" (λ links,
  mret (JSONResult (mkDetails (taskSummaryOf task) (Task_Runner task) links (LER_Events events)))))).

Definition listTasks (caller : UserInfo) : M (ToolResult (list taskSummary)) :=
  call (Server_ListTasks caller 0 "" false) "failed to list tasks" (λ resp,
  mret (JSONResult (map taskSummaryOf resp.1))).

Definition listWorkspaces (caller : UserInfo) : M (ToolResult (list Workspace)) :=
  call (Server_ListWorkspaces caller) "failed to list workspaces" (λ wss, mret (JSONResult wss)).

Record updateTaskInput := mkUpdateInput {
  UI_ID : Z; UI_Instruction : string; UI_URL : string; UI_Start : bool }.

Definition updateTask (caller : UserInfo) (input : updateTaskInput) : M (ToolResult taskSummary) :=
  call (Server_UpdateTask caller
          (mkUpdateTask (UI_ID input) "" [mkInstr (UI_Instruction input) (UI_URL input)] (UI_Start input) None))
    "failed to update task" (λ _,
  call (Server_GetTask caller (UI_ID input)) "failed to get updated task" (λ task,
  mret (JSONResult (taskSummaryOf task)))).

Definition archiveTask (caller : UserInfo) (id : Z) : M (ToolResult taskSummary) :=
  call (Server_ArchiveTask caller id) "failed to archive task" (λ _,
  call (Server_GetTask caller id) "failed to get archived task" (λ task,
  mret (JSONResult (taskSummaryOf task)))).

(** ** The agent's tools *)

(** [hasCapability] and the tools [AddTools] registers. *)
Definition hasCapability (capabilities : list string) (capability : string) : bool :=
  contains_string capabilities capability.

Definition AddTools (capabilities : list string) : list string :=
  ["create_link"; "report"; "get_my_task"; "update_my_task"] ++
  (if hasCapability capabilities CapabilityGitHubToken then ["get_github_token"] else []).

Record createLinkInput := mkLinkInput {
  LI_Relevance : string; LI_URL : string; LI_Title : string; LI_Subscribe : bool }.

Definition createLink (taskID : Z) (caller : UserInfo) (input : createLinkInput) : M (ToolResult string) :=
  call (Server_CreateLink url_Parse caller
          (mkCreateLink taskID (LI_Relevance input) (LI_URL input) (LI_Title input) (LI_Subscribe input)))
    "failed to create link" (λ _, mret (JSONResult ("Link created: " +:+ LI_URL input))).

Definition report (taskID : Z) (caller : UserInfo) (message : string) : M (ToolResult string) :=
  call (Server_UploadLogs caller taskID [mkLogEntry "llm" message]) "failed to upload log"
    (λ _, mret (JSONResult "Report submitted")).

(** The request asks for the instructions and external events. *)
Definition brief_events (taskID : Z) : ListEventsByTaskRequest :=
  mkListEvents taskID 0 "" [EventTypeInstruction; EventTypeExternal].

Definition getMyTask (taskID : Z) (caller : UserInfo) : M (ToolResult (Task * list Link * list Event)) :=
  call (Server_GetTask caller taskID) "failed to get task" (λ task,
  call (Server_ListEventsByTask caller (brief_events taskID)) "failed to get task events" (λ events,
  call (Server_ListLinks caller taskID) "failed to get task links" (λ links,
  mret (JSONResult (task, links, LER_Events events))))).

Definition updateMyTask (taskID : Z) (caller : UserInfo) (name : string) : M (ToolResult string) :=
  call (Server_UpdateTask caller (mkUpdateTask taskID name [] false None)) "failed to update task"
    (λ _, mret (JSONResult "Task updated")).

(** A call of the agent's. *)
Inductive AgentCall :=
| CallCreateLink (input : createLinkInput)
| CallReport (message : string)
| CallGetMyTask
| CallUpdateMyTask (name : string).

(** The tool it names, and what becomes of the tables. *)
Definition agent_call (taskID : Z) (caller : UserInfo) (c : AgentCall) : M unit :=
  match c with
  | CallCreateLink input => createLink taskID caller input ;; mret ()
  | CallReport message => report taskID caller message ;; mret ()
  | CallGetMyTask => getMyTask taskID caller ;; mret ()
  | CallUpdateMyTask name => updateMyTask taskID caller name ;; mret ()
  end.

(** ** An agent's calls stay with its task *)

(** Nothing but this task, its events and its links is touched, and of those
    nothing is lost. *)
Definition only_task (id : Z) (tb tb' : Tables) : Prop :=
  (∀ i, i ≠ id → t_tasks tb' !! i = t_tasks tb !! i) ∧
  (∀ i e, t_events tb' !! i = Some e → t_events tb !! i = Some e ∨ Event_TaskID e = id) ∧
  t_events tb ⊆ t_events tb' ∧
  (∀ i l, t_links tb' !! i = Some l → t_links tb !! i = Some l ∨ Link_TaskID l = id) ∧
  t_links tb ⊆ t_links tb' ∧
  t_schedules tb' = t_schedules tb ∧ t_chunks tb' = t_chunks tb ∧ t_workspaces tb' = t_workspaces tb ∧
  t_orgs tb' = t_orgs tb ∧ t_users tb' = t_users tb ∧ t_keys tb' = t_keys tb.

#[global] Instance only_task_refl id : Reflexive (only_task id).
Proof. intros tb. unfold only_task. split_and!; try reflexivity; auto. Qed.

#[global] Instance only_task_trans id : Transitive (only_task id).
Proof.
  intros a b c (A1 & A2 & A3 & A4 & A5 & A6 & A7 & A8 & A9 & A10 & A11)
    (B1 & B2 & B3 & B4 & B5 & B6 & B7 & B8 & B9 & B10 & B11).
  unfold only_task. split_and!; try congruence.
  - intros i Hi. rewrite B1 by done. by apply A1.
  - intros i e He. apply B2 in He as [He|He]; auto.
  - by etrans.
  - intros i l Hl. apply B4 in Hl as [Hl|Hl]; auto.
  - by etrans.
Qed.

Lemma fresh_none {A} (m : gmap Z A) id : (∀ i, is_Some (m !! i) → i < id) → m !! id = None.
Proof. intros Hid. destruct (m !! id) eqn:E; [|done]. assert (id < id) by (apply Hid; by rewrite E). lia. Qed.

Lemma only_task_events id now es tb tb' :
  add_events now es tb tb' → Forall (λ e, Event_TaskID e = id) es → only_task id tb tb'.
Proof.
  induction 1 as [tb|e es i tb tb' Hfresh _ IH]; intros Hall; [done|].
  apply Forall_cons in Hall as [He Hall]. etrans; [|by apply IH].
  unfold only_task. split_and!; try reflexivity; try (intros; by left).
  - intros j e'. cbn [put_event with_events t_events]. rewrite lookup_insert_Some.
    intros [[<- <-]|[_ H1]]; [by right|by left].
  - cbn [put_event with_events t_events]. apply insert_subseteq. by apply fresh_none.
Qed.

Lemma only_task_put t now tb : only_task (Task_ID t) tb (put_task t now tb).
Proof.
  unfold put_task. destruct (select_task _ _ _); [|reflexivity]. unfold only_task. split_and!; try reflexivity; auto.
  intros i Hi. cbn [with_tasks t_tasks]. by rewrite lookup_insert_ne.
Qed.

Lemma only_task_link id lid l tb :
  (∀ i, is_Some (t_links tb !! i) → i < lid) → Link_TaskID l = id →
  only_task id tb (with_links <[lid := l]> tb).
Proof.
  intros Hfresh Hl. unfold only_task. split_and!; try reflexivity; auto.
  - intros i l'. cbn [with_links t_links]. rewrite lookup_insert_Some. intros [[<- <-]|[_ H1]]; auto.
  - cbn [with_links t_links]. apply insert_subseteq. by apply fresh_none.
Qed.

(** A computation that keeps to one task, whatever it answers. *)
Definition Keeps (id : Z) {A} (m : M A) : Prop :=
  ∀ w, world_ok w → wp m (λ _ w', ∃ tb ns, at_ w tb ns w' ∧ only_task id (committed w) tb) w.

Lemma unchanged_keeps id w w' :
  at_ w (committed w) [] w' → ∃ tb ns, at_ w tb ns w' ∧ only_task id (committed w) tb.
Proof. intros Hat. exists (committed w), []. split; [done|reflexivity]. Qed.

Lemma Keeps_ReadOnly id {A} (m : M A) : ReadOnly m → Keeps id m.
Proof. intros Hm w Hw. eapply wp_mono; [by apply Hm|]. intros r w' Hat. by apply unchanged_keeps. Qed.

Lemma Keeps_bind id {A B} (m : M A) (k : A → M B) :
  Keeps id m → (∀ a, Keeps id (k a)) → Keeps id (m ≫= k).
Proof.
  intros Hm Hk w Hw. apply wp_bind. eapply wp_mono; [by apply Hm|].
  intros [e|a] w1 (tb & ns & Hat & Ht); [by exists tb, ns|].
  eapply wp_mono; [apply Hk; by eapply at_world_ok|]. intros r w2 (tb2 & ns2 & Hat2 & Ht2).
  rewrite (at_committed _ _ _ _ Hat) in Ht2. exists tb2, (ns ++ ns2). split; [by eapply at_trans|by etrans].
Qed.

Lemma Keeps_catch id {A} (m : M A) : Keeps id m → Keeps id (catch m).
Proof. intros Hm w Hw. apply wp_catch. eapply wp_mono; [by apply Hm|done]. Qed.

Lemma Keeps_pure id {A} (r : Err + A) : Keeps id (λ w, (r, w)).
Proof. apply Keeps_ReadOnly, ReadOnly_pure. Qed.

Lemma Keeps_call id {A B} (m : M A) what (k : A → M (ToolResult B)) :
  Keeps id m → (∀ a, Keeps id (k a)) → Keeps id (call m what k).
Proof.
  intros Hm Hk. unfold call. apply Keeps_bind; [by apply Keeps_catch|]. intros [e|a]; [|done].
  destruct (isPanic e); apply Keeps_pure.
Qed.

Lemma Keeps_UpdateTask caller req : Keeps (UT_Id req) (Server_UpdateTask caller req).
Proof.
  intros w Hw. eapply wp_mono; [by apply UpdateTask_spec|]. intros [e|[]] w' Hout.
  { destruct Hout as [Hat _]. by apply unchanged_keeps. }
  destruct Hout as (tb & ns & Hat & row & tb1 & Hsel & _ & Hadd & Hadd' & _). exists tb, ns. split; [done|].
  destruct (select_task_ok _ _ _ _ _ (proj2 Hw) Hsel) as (Hi & _ & _ & _).
  assert (Hid : ∀ t, Task_ID (updated_task req t) = Task_ID t) by (intros t; apply updated_task_id).
  etrans; [apply (only_task_events _ _ _ _ _ Hadd)|].
  - apply Forall_map, Forall_forall. intros inst _. simpl. done.
  - etrans; [|apply (only_task_events _ _ _ _ _ Hadd')].
    + pose proof (only_task_put (updated_task req (toModelTask row)) (clock w) tb1) as Hp.
      rewrite Hid in Hp. simpl in Hp. by rewrite Hi in Hp.
    + repeat constructor. simpl. rewrite Hid. exact Hi.
Qed.

Lemma Keeps_CreateLink caller req : Keeps (CL_TaskId req) (Server_CreateLink url_Parse caller req).
Proof.
  intros w Hw. eapply wp_mono; [by apply CreateLink_spec|]. intros [e|link] w' Hout.
  { destruct Hout as [Hat _]. by apply unchanged_keeps. }
  destruct Hout as (tb & ns & Hat & row & lid & [Hsel _] & Hfresh & -> & Hadd & _). exists tb, ns. split; [done|].
  destruct (select_task_ok _ _ _ _ _ (proj2 Hw) Hsel) as (Hi & _ & _ & _).
  etrans; [apply (only_task_link (CL_TaskId req) lid (set_Link_ID lid (new_link url_Parse req (clock w))));
    [exact Hfresh|reflexivity]|]. apply (only_task_events _ _ _ _ _ Hadd).
  repeat constructor. exact Hi.
Qed.

Lemma Keeps_UploadLogs caller taskID entries : Keeps taskID (Server_UploadLogs caller taskID entries).
Proof.
  assert (Hrep : ∀ row, Row_id row = taskID → Forall (λ e, Event_TaskID e = taskID) (reports (toModelTask row) entries)).
  { intros row Hi. unfold reports. apply Forall_map, Forall_forall. intros e _. exact Hi. }
  intros w Hw. eapply wp_mono; [by apply UploadLogs_spec|]. intros [e|[]] w' Hout.
  - destruct Hout as [[Hat _]|(row & tb & stored & lost & [Hsel _] & Hat & Heq & Hadd & _)]; [by apply unchanged_keeps|].
    exists tb, []. split; [done|]. destruct (select_task_ok _ _ _ _ _ (proj2 Hw) Hsel) as (Hi & _).
    apply (only_task_events _ _ _ _ _ Hadd). specialize (Hrep row Hi). rewrite Heq in Hrep.
    by apply Forall_app in Hrep as [? _].
  - destruct Hout as (row & tb & [Hsel _] & Hat & Hadd). eexists tb, _. split; [done|].
    destruct (select_task_ok _ _ _ _ _ (proj2 Hw) Hsel) as (Hi & _).
    apply (only_task_events _ _ _ _ _ Hadd). by apply Hrep.
Qed.

(** C17: whatever its agent is told to do, the tools a driver gives it touch
    nothing but the driver's own task: its row, new events of its stream and new
    links of it.  No event and no link is lost, and no other table changes, on
    any branch and whatever the database does. *)
Theorem agent_calls_keep_to_task (taskID : Z) (caller : UserInfo) (c : AgentCall) (w w' : World) (r : Err + unit) :
  world_ok w → agent_call taskID caller c w = (r, w') → only_task taskID (committed w) (committed w').
Proof.
  intros Hw Hrun. assert (Hk : Keeps taskID (agent_call taskID caller c)).
  { unfold agent_call. destruct c; (apply Keeps_bind; [|intros ?; apply Keeps_pure]).
    - apply Keeps_call; [|intros ?; apply Keeps_pure]. apply (Keeps_CreateLink caller (mkCreateLink taskID _ _ _ _)).
    - apply Keeps_call; [apply Keeps_UploadLogs|intros ?; apply Keeps_pure].
    - apply Keeps_call; [apply Keeps_ReadOnly, ReadOnly_Server_GetTask|]. intros task.
      apply Keeps_call; [apply Keeps_ReadOnly, ReadOnly_ListEventsByTask|]. intros events.
      apply Keeps_call; [apply Keeps_ReadOnly, ReadOnly_ListLinks|]. intros links. apply Keeps_pure.
    - apply Keeps_call; [|intros ?; apply Keeps_pure]. apply (Keeps_UpdateTask caller (mkUpdateTask taskID _ _ _ _)). }
  specialize (Hk w Hw). unfold wp in Hk. rewrite Hrun in Hk. destruct Hk as (tb & ns & Hat & Ht).
  by rewrite (at_committed _ _ _ _ Hat).
Qed.

(** The brief an agent reads has every event of its task: the unpaged listing
    leaves the requested types aside. *)
Lemma brief_has_every_event (caller : UserInfo) (taskID : Z) (w w' : World) (resp : ListEventsByTaskResponse) :
  Server_ListEventsByTask caller (brief_events taskID) w = (inr resp, w') → world_ok w →
  LER_Events resp = task_events (committed w) taskID (User_OrgID caller) [].
Proof.
  clear url_Parse baseURL ParseDuration. intros Hrun Hw.
  assert (Hwp : wp (Server_ListEventsByTask caller (brief_events taskID))
    (λ r _, ∀ resp, r = inr resp → LER_Events resp = task_events (committed w) taskID (User_OrgID caller) []) w).
  { unfold Server_ListEventsByTask. destruct (AllowOp _ _); cbn [negb]; [|by intros ? [=]].
    apply wp_bind. eapply wp_mono; [by apply ReadOnly_readable_task|].
    intros [e|[]] w1 Hat; [by intros ? [=]|].
    unfold internal_on_error, ListEventsByTask. wps; try (intros ? [=]); naive_solver. }
  unfold wp in Hwp. rewrite Hrun in Hwp. by apply Hwp.
Qed.

End tools.

(** The agent of task 7 reports; the token's JSON and the URL parser play no
    part. *)
Definition sample_agent : UserInfo := mkUser "" "" "" 3 "app" "" (AgentScopes (mkScopeOptions 7 [])).

Definition after_report : World :=
  snd (agent_call (H := {| json_Marshal := λ _, "x"; json_Unmarshal := λ _, None |}) (λ _, None) 7
         sample_agent (CallReport "stuck") sample_world).

Lemma agent_calls_keep_to_task_witness :
  only_task 7 (committed sample_world) (committed after_report) ∧
  map Event_Payload (task_events (committed after_report) 7 3 []) = [Report (mkReport "stuck")].
Proof.
  split; [|vm_compute; reflexivity].
  exact (agent_calls_keep_to_task (H := {| json_Marshal := λ _, "x"; json_Unmarshal := λ _, None |}) (λ _, None)
    7 sample_agent (CallReport "stuck") sample_world after_report _ sample_world_ok (surjective_pairing _)).
Defined.
