(* ===== verification/SignIn.v ===== *)
(** * Authentication

    Models [internal/auth/apiauth/apiauth.go] and [jwt.go] (Bearer tokens, the
    cookie session, the middlewares and the token endpoint),
    [internal/auth/oauthlink/oauthlink.go] (the OAuth callbacks' state) and
    what they run on success.  The JWT library, the session the ZITADEL
    middleware found and the OAuth exchange are parameters. *)

From S2P Require Import Prelude AuthScope ScopeParse EventModel TaskModel Links Strconv PubSub.
From S2P Require Import ScheduleModel Rules Store StoreOps StoreLogic StoreAccounts ApiBase Timeline.
From S2P Require Import ShellServer ApiTask Evolution ApiAccounts AccountSpec ApiTaskSpec Pagination StorePages ApiEvents.

(** ** HTTP *)

(** A response: its status and its body, or where it redirects to. *)
Inductive Response :=
| HttpError (status : Z) (msg : string)
| HttpRedirect (location : string)
| HttpText (body : string)
| HttpToken (token : string) (orgID expiresAt : Z).

Definition StatusBadRequest : Z := 400.
Definition StatusUnauthorized : Z := 401.
Definition StatusForbidden : Z := 403.
Definition StatusMethodNotAllowed : Z := 405.
Definition StatusInternalServerError : Z := 500.

(** What the handlers read of a request: its method, two headers, the query
    parameters, and the session the cookie middleware decrypts (the subject,
    email and name of the ID token). *)
Record HttpRequest := mkHttpRequest {
  Req_Method : string; Req_Authorization : string; Req_XClientID : string;
  Req_Query : string → string; Req_Session : option (string * string * string) }.

(** ** Claims *)

Definition AuthTypeApp : string := "app".
Definition AuthTypeCookie : string := "cookie".

Definition AppTokenTTL : Z := 5 * 60 * 10 ^ 9.

(** [time.Time.Add] of a duration, on the clock, which is in microseconds. *)
Definition Time_Add (now d : Z) : Z := now + Microseconds d.

(** The JWT library: what it signs it parses back until it expires, and a
    numeric date's time. *)
Class JWT := {
  SignedString : AppClaims → Err + string;
  ParseWithClaims : Z → string → Err + AppClaims;
  NewNumericDate : Z → Z }.

Class JWTLaws `{JWT} := {
  Parse_Sign claims token now : SignedString claims = inr token →
    (∀ t, Claims_ExpiresAt claims = Some t → now < t) → ParseWithClaims now token = inr claims;
  Sign_IsKey claims token : SignedString claims = inr token → IsKey token = false }.

Section signin.
Context {MJ : MapJSON} {JW : JWT}.
Context (Sum256 : string → string).
(** What the library's [Context] method does on a nil receiver: panic, or find
    nothing. *)
Context (nil_cookie_context : option Err).

Definition NewAppClaims (user : UserInfo) (now : Z) : AppClaims :=
  mkClaims (User_ID user) (User_Email user) (User_Name user) (User_OrgID user) Admin
    (Some (NewNumericDate (Time_Add now AppTokenTTL))).

(** [strings.CutPrefix]. *)
Fixpoint CutPrefix (s prefix : string) : option string :=
  match prefix, s with
  | EmptyString, _ => Some s
  | String p prefix, String c s => if Ascii.eqb c p then CutPrefix s prefix else None
  | String _ _, EmptyString => None
  end.

Definition with_client (clientID : string) (u : UserInfo) : UserInfo :=
  mkUser (User_ID u) (User_Email u) (User_Name u) (User_OrgID u) (User_Type u) clientID
    (User_Scopes u).

Definition claims_user (claims : AppClaims) (clientID : string) : UserInfo :=
  mkUser (Claims_Subject claims) (Claims_Email claims) (Claims_Name claims) (Claims_OrgID claims)
    AuthTypeApp clientID (Claims_Scopes claims).

Definition authenticate (r : HttpRequest) : M (option UserInfo) :=
  match CutPrefix (Req_Authorization r) "Bearer " with
  | None => mret None
  | Some raw =>
      if IsKey raw then
        user ← ValidateKey (HashKey Sum256 raw);
        mret (Some (with_client (Req_XClientID r) user))
      else
        now ← time_Now;
        match ParseWithClaims now raw with
        | inl err => raise err
        | inr claims => mret (Some (claims_user claims (Req_XClientID r)))
        end
  end.

(** The user of the cookie session. *)
Definition session_user (r : HttpRequest) : option UserInfo :=
  '(subject, email, name) ← Req_Session r;
  Some (mkUser subject email name 0 AuthTypeCookie (Req_XClientID r) Admin).

(** Who a middleware attaches: a user of the request's own, or the configured
    dev user, which is a pointer shared by every request. *)
Inductive Attached :=
| Nobody
| Own (user : UserInfo)
| Dev (user : UserInfo).

Definition attached_user (a : Attached) : option UserInfo :=
  match a with Nobody => None | Own user | Dev user => Some user end.

(** [RequireAuth]: serve the request, refuse it, or leave it to the cookie
    middleware's login. *)
Inductive Admission :=
| Serve (caller : Attached)
| Refuse (resp : Response)
| Login.

Definition attach_session (r : HttpRequest) : Attached :=
  match session_user r with Some user => Own user | None => Nobody end.

Definition RequireAuth (devUser : option UserInfo) (r : HttpRequest) : M Admission :=
  res ← catch (authenticate r);
  match res with
  | inl _ => mret (Refuse (HttpError StatusUnauthorized "invalid or expired token"))
  | inr (Some user) => mret (Serve (Own user))
  | inr None =>
      match devUser with
      | Some user => mret (Serve (Dev user))
      | None => match session_user r with
                | Some user => mret (Serve (Own user))
                | None => mret Login
                end
      end
  end.

Definition CheckAuth (devUser : option UserInfo) (r : HttpRequest) : M Attached :=
  res ← catch (authenticate r);
  match res with
  | inl _ => mret Nobody
  | inr (Some user) => mret (Own user)
  | inr None =>
      match devUser with
      | Some user => mret (Dev user)
      | None => mret (attach_session r)
      end
  end.

(** [Auth.User]: the caller attached to the request.  When there is none, the
    cookie middleware found no session or never ran, so its context holds none
    either; with a dev user that middleware is a nil pointer. *)
Definition Auth_User (devUser : option UserInfo) (caller : Attached) : Err + Attached :=
  match caller, devUser with
  | Nobody, Some _ => from_option inl (inr Nobody) nil_cookie_context
  | _, _ => inr caller
  end.

Definition with_org (orgID : Z) (u : UserInfo) : UserInfo :=
  mkUser (User_ID u) (User_Email u) (User_Name u) orgID (User_Type u) (User_ClientID u)
    (User_Scopes u).

Definition parse_org (raw : string) : option Z :=
  if String.eqb raw "" then Some 0 else ParseInt raw.

(** [user.OrgID = resolved], written through the pointer. *)
Definition set_org (resolved : Z) (caller : Attached) (devUser : option UserInfo)
    : option UserInfo :=
  match caller with Dev user => Some (with_org resolved user) | _ => devUser end.

(** The response, and the dev user afterwards. *)
Definition HandleToken (devUser : option UserInfo) (caller : Attached) (r : HttpRequest)
    : M (Response * option UserInfo) :=
  if negb (String.eqb (Req_Method r) "GET")
  then mret (HttpError StatusMethodNotAllowed "method not allowed", devUser)
  else
    match Auth_User devUser caller with
    | inl err => raise err
    | inr caller =>
        match attached_user caller with
        | None => mret (HttpError StatusUnauthorized "authentication required", devUser)
        | Some user =>
            match parse_org (Req_Query r "org_id") with
            | None => mret (HttpError StatusBadRequest "invalid org_id", devUser)
            | Some orgID =>
                res ← catch (ResolveOrg (User_ID user) orgID);
                match res with
                | inl _ => mret (HttpError StatusForbidden "failed to resolve org", devUser)
                | inr resolved =>
                    now ← time_Now;
                    let devUser := set_org resolved caller devUser in
                    let claims := NewAppClaims (with_org resolved user) now in
                    match SignedString claims with
                    | inl _ =>
                        mret (HttpError StatusInternalServerError "failed to sign token", devUser)
                    | inr token =>
                        mret (HttpToken token resolved
                                (default 0 (Claims_ExpiresAt claims) / 10 ^ 6), devUser)
                    end
                end
            end
        end
    end.

(** [GET /auth/token] as [server.go] mounts it. *)
Definition token_endpoint (devUser : option UserInfo) (r : HttpRequest)
    : M (Response * option UserInfo) :=
  caller ← CheckAuth devUser r;
  HandleToken devUser caller r.

(** The interceptor in front of every API handler. *)
Definition RequireUserInterceptor {A} (caller : Attached) (next : UserInfo → M A) : M A :=
  match attached_user caller with
  | None => raise (EConnect CodeUnauthenticated "authentication required")
  | Some user => next user
  end.

(** ** OAuth account linking *)

(** The state cookie the login set, if the browser sent it. *)
Record CallbackRequest := mkCallback {
  CB_Cookie : option string; CB_State : string; CB_Code : string }.

(** [HandleCallback]: the checks, the code's exchange for a token, and what
    runs with it. *)
Definition HandleCallback (Exchange : string → string + string) (req : CallbackRequest)
    (onSuccess : string → M Response) : M Response :=
  match CB_Cookie req with
  | None => mret (HttpError StatusBadRequest "missing state cookie")
  | Some cookie =>
      if negb (String.eqb (CB_State req) cookie)
      then mret (HttpError StatusBadRequest "state mismatch")
      else if String.eqb (CB_Code req) ""
      then mret (HttpError StatusBadRequest "missing code parameter")
      else match Exchange (CB_Code req) with
           | inl _ => mret (HttpError StatusInternalServerError "failed to exchange code")
           | inr token => onSuccess token
           end
  end.

(** [OnSuccess] of the two providers: [fetch] asks who the token belongs to. *)
Definition link_account {Id} (fetch : string → string + Id) (link : string → Id → M unit)
    (what linked : string) (caller : Attached) (token : string) : M Response :=
  match attached_user caller with
  | None => mret (HttpError StatusUnauthorized "not authenticated")
  | Some user =>
      if String.eqb (User_ID user) ""
      then mret (HttpError StatusForbidden "this operation requires a user identity")
      else match fetch token with
           | inl _ => mret (HttpError StatusInternalServerError what)
           | inr id =>
               res ← catch (link (User_ID user) id);
               match res with
               | inl _ => mret (HttpError StatusInternalServerError linked)
               | inr _ => mret (HttpRedirect "/ui/settings")
               end
           end
  end.

Definition link_github (fetch : string → string + Z * string) : Attached → string → M Response :=
  link_account fetch (λ user gh, LinkGitHubAccount NoTx user (fst gh) (snd gh))
    "failed to fetch GitHub user" "failed to link GitHub account".

Definition link_atlassian (fetch : string → string + string * string)
    : Attached → string → M Response :=
  link_account fetch (λ user me, LinkAtlassianAccount NoTx user (fst me) (snd me))
    "failed to fetch Atlassian user" "failed to link Atlassian account".

(** ** Who a request is served as *)

(** The caller a request is given: a key's or a token's when it bears one that
    is valid, nobody when it bears one that is not, and the dev user's or the
    session's when it bears none. *)
Definition attached_as (tb : Tables) (now : Z) (devUser : option UserInfo) (r : HttpRequest)
    (a : Attached) : Prop :=
  match CutPrefix (Req_Authorization r) "Bearer " with
  | None => a = match devUser with Some user => Dev user | None => attach_session r end
  | Some raw =>
      if IsKey raw then
        match key_user tb now (HashKey Sum256 raw) with
        | inl _ => a = Nobody
        | inr user => a = Own (with_client (Req_XClientID r) user)
        end
      else
        match ParseWithClaims now raw with
        | inl _ => a = Nobody
        | inr claims => a = Own (claims_user claims (Req_XClientID r))
        end
  end.

Lemma authenticate_spec r w :
  world_ok w →
  wp (authenticate r) (λ res w', at_ w (committed w) [] w' ∧
    match CutPrefix (Req_Authorization r) "Bearer " with
    | None => res = inr None
    | Some raw =>
        if IsKey raw then
          (∃ msg, ¬ healthy w ∧ res = inl (EOther msg)) ∨
          res = match key_user (committed w) (clock w) (HashKey Sum256 raw) with
                | inl e => inl e
                | inr user => inr (Some (with_client (Req_XClientID r) user))
                end
        else
          res = match ParseWithClaims (clock w) raw with
                | inl e => inl e
                | inr claims => inr (Some (claims_user claims (Req_XClientID r)))
                end
    end) w.
Proof.
  intros Hw. unfold authenticate. destruct (CutPrefix _ _) as [raw|].
  - destruct (IsKey raw).
    + apply wp_bind. eapply wp_mono; [by apply ValidateKey_run|].
      intros [e|user] w' [Hat Hr]; (split; [done|]).
      * destruct Hr as [(msg & Hh & He)|Hr]; [injection He as ->; left; by exists msg|right].
        by rewrite <- Hr.
      * destruct Hr as [(msg & _ & He)|Hr]; [done|]. right. by rewrite <- Hr.
    + apply wp_bind, wp_time_Now. destruct (ParseWithClaims _ _); (split; [by apply at_refl|done]).
  - split; [by apply at_refl|done].
Qed.

Lemma CheckAuth_spec devUser r w :
  world_ok w →
  wp (CheckAuth devUser r) (λ res w', at_ w (committed w) [] w' ∧
    ∃ a, res = inr a ∧ ((¬ healthy w ∧ a = Nobody) ∨ attached_as (committed w) (clock w) devUser r a)) w.
Proof.
  intros Hw. unfold CheckAuth, attached_as. apply wp_bind, wp_catch.
  eapply wp_mono; [by apply authenticate_spec|]. intros res w' [Hat H].
  destruct (CutPrefix _ _) as [raw|].
  - destruct (IsKey raw).
    + destruct H as [(msg & Hh & ->)| ->].
      * split; [done|]. exists Nobody. auto.
      * destruct (key_user _ _ _); (split; [done|eexists; split; [done|by right]]).
    + subst res. destruct (ParseWithClaims _ _); (split; [done|eexists; split; [done|by right]]).
  - subst res. destruct devUser; (split; [done|eexists; split; [done|by right]]).
Qed.

(** A key's callers have no identity of their own. *)
Lemma key_user_id tb now hash user : key_user tb now hash = inr user → User_ID user = "".
Proof.
  unfold key_user. destruct (key_by_hash _ _) as [x|]; [|done].
  destruct (IsExpired _ _); [done|]. by intros [= <-].
Qed.

Lemma is_org_member_user tb q orgID userID :
  tables_ok tb q → is_org_member tb orgID userID = true → is_Some (t_users tb !! userID).
Proof.
  unfold is_org_member. intros Hok. destruct (t_orgs tb !! orgID) as [o|] eqn:Ho; [|done].
  intros [Hm%contains_string_spec _]%andb_true_iff. apply (org_rows _ _ Hok) in Ho.
  unfold org_ok in Ho. rewrite !andb_true_iff, forallb_forall in Ho. destruct Ho as [[_ Ho] _].
  apply list_elem_of_In, Ho in Hm. by apply bool_decide_eq_true in Hm.
Qed.

Lemma HandleToken_spec devUser a r w :
  world_ok w →
  wp (HandleToken devUser a r) (λ res w', at_ w (committed w) [] w' ∧
    ∀ token org exp dev', res = inr (HttpToken token org exp, dev') →
    ∃ user orgID, attached_user a = Some user ∧ parse_org (Req_Query r "org_id") = Some orgID ∧
      ResolveOrg_ok (User_ID user) orgID (committed w) org ∧
      SignedString (NewAppClaims (with_org org user) (clock w)) = inr token ∧
      dev' = set_org org a devUser) w.
Proof.
  intros Hw. pose proof (at_refl w Hw) as Hat. unfold HandleToken. destruct (negb _); [done|].
  destruct (Auth_User devUser a) as [e|a'] eqn:Ha; [done|].
  destruct (attached_user a') as [user|] eqn:Hu; [|done].
  assert (a' = a) as ->.
  { unfold Auth_User in Ha. destruct a, devUser, nil_cookie_context; simpl in Ha; by simplify_eq/=. }
  destruct (parse_org _) as [orgID|] eqn:Ho; [|done]. apply wp_bind, wp_catch.
  eapply wp_mono; [by apply ResolveOrg_spec|]. intros [e|org] w' [Hat' Hr]; [done|].
  apply wp_bind. eapply wp_time_at; [exact Hat'|]. cbv zeta.
  destruct (SignedString _) as [e|token] eqn:Hs; [done|]. split; [done|].
  intros ? ? ? ? [= <- <- <- <-]. exists user, orgID. auto.
Qed.


(** ** The life of an API key *)

Lemma CutPrefix_app p s : CutPrefix (p +:+ s) p = Some s.
Proof. induction p as [|c p IH]; [by destruct s|]. simpl. by rewrite Ascii.eqb_refl. Qed.

Lemma GenerateKey_IsKey random raw : GenerateKey random = inr raw → IsKey raw = true.
Proof.
  unfold GenerateKey. destruct random as [|b]; [done|]. intros [= <-]. apply HasPrefix_spec. eauto.
Qed.

Lemma Admin_roundtrip : parseScopes (scopeStrings Admin) = Admin.
Proof. reflexivity. Qed.

(** What a key's bearer is answered: the key's org, as its admin, until the key
    expires. *)
Definition key_answer (key : Key) (r : HttpRequest) (now : Z) : Err + option UserInfo :=
  if IsExpired key now then inl (EOther "key expired")
  else inr (Some (mkUser "" "" (Key_Name key) (Key_OrgID key) AuthTypeKey (Req_XClientID r) Admin)).

Lemma authenticate_key raw r w :
  world_ok w → healthy w → Req_Authorization r = "Bearer " +:+ raw → IsKey raw = true →
  fst (authenticate r w) =
  match key_user (committed w) (clock w) (HashKey Sum256 raw) with
  | inl e => inl e
  | inr user => inr (Some (with_client (Req_XClientID r) user))
  end.
Proof.
  intros Hw Hh Hr Hk. pose proof (authenticate_spec r w Hw) as H. unfold wp in H.
  destruct (authenticate r w) as [res w']. destruct H as [_ H].
  rewrite Hr, CutPrefix_app, Hk in H. by destruct H as [(msg & Hn & _)|H].
Qed.

Lemma created_key_user tb q caller id name raw expiresAt now now' :
  let key := created_key Sum256 caller id name raw expiresAt now in
  tables_ok tb q → t_keys tb !! id = Some (keyRow key now) →
  key_user tb now' (HashKey Sum256 raw) =
  if IsExpired key now' then inl (EOther "key expired")
  else inr (mkUser "" "" name (User_OrgID caller) AuthTypeKey "" Admin).
Proof.
  intros key Hok Hrow. unfold key_user.
  change (HashKey Sum256 raw) with (KR_token_hash (keyRow key now)).
  rewrite (key_by_hash_row tb q id) by done. cbn [KR_scopes keyRow key created_key Key_Scopes].
  by rewrite Admin_roundtrip.
Qed.

Lemma deleted_key_user tb q id r orgID now :
  tables_ok tb q → t_keys tb !! id = Some r → KR_org_id r = orgID →
  key_user (delete_key id orgID tb) now (KR_token_hash r) = inl ENoRows.
Proof.
  intros Hok Hr Ho. unfold key_user, delete_key. rewrite Hr, Ho, Z.eqb_refl.
  destruct (key_by_hash _ _) as [x|] eqn:Hx; [|done]. exfalso.
  apply key_by_hash_inv in Hx as (Hh & j & Hj). simpl in Hj.
  apply lookup_delete_Some in Hj as [Hne Hj]. apply Hne. symmetry.
  by apply (unique_hashes _ _ Hok j id x r (KR_token_hash r)); [..|rewrite Hh|].
Qed.

(** The life of an API key.  The key a request creates authenticates its
    bearer as an admin of the creator's org, at any later time at which the
    keys are as the request left them, until it expires; deleting it from that
    org makes its bearer unknown at once, and deleting it on behalf of another
    org has no effect. *)
Theorem api_key_lifecycle (random : string + string) (id : string) (caller : UserInfo)
    (name : string) (expiresAt : option Z) (w w1 : World) (key : Key) (raw : string) :
  world_ok w →
  Server_CreateKey Sum256 random id caller name expiresAt w = (inr (key, raw), w1) →
  Key_OrgID key = User_OrgID caller ∧ Key_Name key = name ∧ Key_ExpiresAt key = expiresAt ∧
  ∀ r w2, world_ok w2 → healthy w2 → committed w2 = committed w1 →
    Req_Authorization r = "Bearer " +:+ raw →
    fst (authenticate r w2) = key_answer key r (clock w2) ∧
    ∀ caller' w3, Server_DeleteKey caller' id w2 = (inr (), w3) →
      fst (authenticate r w3) =
        if User_OrgID caller' =? User_OrgID caller then inl ENoRows else key_answer key r (clock w3).
Proof.
  intros Hw Hrun.
  pose proof (HandlerSpec_run _ _ _ _ _ _ (CreateKey_spec Sum256 random id caller name expiresAt) Hw Hrun)
    as (tb & ns & Hat & Hgen & Hkey & _ & Htb & _). simpl in Hgen, Hkey. subst key.
  apply GenerateKey_IsKey in Hgen. split; [done|]. split; [done|]. split; [done|].
  intros r w2 Hw2 Hh2 Hc Hr. rewrite (at_committed _ _ _ _ Hat) in Hc.
  assert (Hrow : t_keys (committed w2) !! id =
    Some (keyRow (created_key Sum256 caller id name raw expiresAt (clock w)) (clock w))).
  { rewrite Hc, Htb. apply lookup_insert_eq. }
  split.
  - rewrite (authenticate_key raw) by done. rewrite (created_key_user _ (seqs w2) _ _ _ _ _ _ _ (proj2 Hw2) Hrow).
    unfold key_answer. by destruct (IsExpired _ _).
  - intros caller' w3 Hdel.
    pose proof (HandlerSpec_run _ _ _ _ _ _ (DeleteKey_spec caller' id) Hw2 Hdel)
      as (tb3 & ns3 & Hat3 & Htb3 & _).
    assert (Hw3 : world_ok w3) by by eapply at_world_ok.
    rewrite (authenticate_key raw); [|done|by apply Hat3|done|done].
    rewrite (at_committed _ _ _ _ Hat3), Htb3. destruct (Z.eqb_spec (User_OrgID caller') (User_OrgID caller)).
    + change (HashKey Sum256 raw) with (KR_token_hash
        (keyRow (created_key Sum256 caller id name raw expiresAt (clock w)) (clock w))).
      by rewrite (deleted_key_user _ (seqs w2)); [|apply Hw2|exact Hrow|simpl].
    + unfold delete_key. rewrite Hrow. cbn [KR_org_id keyRow created_key Key_OrgID].
      rewrite (proj2 (Z.eqb_neq (User_OrgID caller) (User_OrgID caller'))) by congruence.
      rewrite (created_key_user _ (seqs w2) _ _ _ _ _ _ _ (proj2 Hw2) Hrow).
      unfold key_answer. by destruct (IsExpired _ _).
Qed.

(** ** Tokens *)

(** A signed token's bearer is the user its claims name, until it expires. *)
Lemma token_authenticates `{!JWTLaws} claims token r w :
  world_ok w → SignedString claims = inr token → Req_Authorization r = "Bearer " +:+ token →
  (∀ t, Claims_ExpiresAt claims = Some t → clock w < t) →
  fst (authenticate r w) = inr (Some (claims_user claims (Req_XClientID r))).
Proof.
  intros Hw Hs Hr Ht. pose proof (authenticate_spec r w Hw) as Ha. unfold wp in Ha.
  destruct (authenticate r w) as [res w']. destruct Ha as [_ Ha].
  rewrite Hr, CutPrefix_app, (Sign_IsKey _ _ Hs) in Ha. by rewrite (Parse_Sign _ _ _ Hs Ht) in Ha.
Qed.

(** ** Account linking *)

(** The callback links nothing unless its state is the one the login set. *)
Lemma callback_guarded Exchange req onSuccess w resp w' :
  HandleCallback Exchange req onSuccess w = (inr resp, w') →
  (w' = w ∧ ∃ status msg, resp = HttpError status msg) ∨
  (CB_Cookie req = Some (CB_State req) ∧ ∃ token, Exchange (CB_Code req) = inr token ∧
     onSuccess token w = (inr resp, w')).
Proof.
  unfold HandleCallback. destruct (CB_Cookie req) as [cookie|]; [|intros [= <- <-]; left; eauto].
  destruct (String.eqb_spec (CB_State req) cookie) as [<-|_]; simpl; [|intros [= <- <-]; left; eauto].
  destruct (String.eqb _ _); [intros [= <- <-]; left; eauto|].
  destruct (Exchange _) as [|token]; [intros [= <- <-]; left; eauto|]. intros H. right. eauto.
Qed.

Lemma link_account_op {Id} (fetch : string → string + Id) link what linked orgID user token :
  (∀ u id, account_op u orgID (link u id)) →
  account_op (User_ID user) orgID (link_account fetch link what linked (Own user) token).
Proof.
  intros Hl w Hw. unfold link_account. simpl.
  assert (Hr : ∃ tb ns, at_ w tb ns w ∧ accounts_change (User_ID user) orgID (committed w) tb).
  { eexists _, _. split; [by apply at_refl|apply accounts_refl]. }
  destruct (String.eqb _ _); [done|]. destruct (fetch token) as [|id]; [done|].
  apply wp_bind, wp_catch. eapply wp_mono; [by apply Hl|]. by intros [e|[]] w' H.
Qed.

Lemma LinkGitHubAccount_op u orgID id login : account_op u orgID (LinkGitHubAccount NoTx u id login).
Proof.
  unfold LinkGitHubAccount. account_op. eexists _, _. split; [eassumption|]. by apply accounts_alter_user.
Qed.

Lemma LinkAtlassianAccount_op u orgID id name :
  account_op u orgID (LinkAtlassianAccount NoTx u id name).
Proof.
  unfold LinkAtlassianAccount. account_op. eexists _, _. split; [eassumption|]. by apply accounts_alter_user.
Qed.

Lemma link_github_op fetch orgID user token :
  account_op (User_ID user) orgID (link_github fetch (Own user) token).
Proof. apply link_account_op. intros. apply LinkGitHubAccount_op. Qed.

Lemma link_atlassian_op fetch orgID user token :
  account_op (User_ID user) orgID (link_atlassian fetch (Own user) token).
Proof. apply link_account_op. intros. apply LinkAtlassianAccount_op. Qed.

(** With a dev user, a token asked for an org leaves every later request that
    bears no token in that org: the caller is shared and written through. *)
Theorem dev_token_switches_org (user : UserInfo) (r : HttpRequest) (w w' : World) (token : string)
    (org exp : Z) (dev : option UserInfo) :
  CutPrefix (Req_Authorization r) "Bearer " = None → world_ok w →
  token_endpoint (Some user) r w = (inr (HttpToken token org exp, dev), w') →
  dev = Some (with_org org user).
Proof.
  intros Hr Hw Hrun. assert (Hc : CheckAuth (Some user) r w = (inr (Dev user), w)).
  { unfold CheckAuth, authenticate. by rewrite Hr. }
  unfold token_endpoint, mbind, M_bind in Hrun. rewrite Hc in Hrun.
  pose proof (HandleToken_spec (Some user) (Dev user) r w Hw) as H. unfold wp in H.
  rewrite Hrun in H. destruct H as [_ H].
  by destruct (H _ _ _ _ eq_refl) as (? & ? & _ & _ & _ & _ & ->).
Qed.
End signin.

(** ** Concrete requests *)

#[local] Instance sample_jwt : JWT := {|
  SignedString := λ claims, inr ("ey" +:+ Claims_Subject claims);
  ParseWithClaims := λ _ raw, match CutPrefix raw "ey" with
    | Some sub => inr (mkClaims sub "" "" 3 Admin None)
    | None => inl (EOther "parse token")
    end;
  NewNumericDate := λ t, t |}.

Definition bearer (raw : string) : HttpRequest :=
  mkHttpRequest "GET" ("Bearer " +:+ raw) "tab" (λ key, if String.eqb key "org_id" then "3" else "") None.


Definition new_key (w : World) : (Err + (Key * string)) * World :=
  Server_CreateKey (λ s, s) (inr "7") "k1" team_member "ci" (Some 2000) w.

(** The key works at 1500 and has expired at 2500. *)
Lemma api_key_lifecycle_witness :
  let w1 := snd (new_key team_world) in
  let at_time now := mkWorld (committed w1) None (λ _, 8) [] [] now in
  fst (authenticate (λ s, s) (bearer "xat_37") (at_time 1500)) =
    inr (Some (mkUser "" "" "ci" 3 "key" "tab" Admin)) ∧
  fst (authenticate (λ s, s) (bearer "xat_37") (at_time 2500)) = inl (EOther "key expired").
Proof.
  intros w1 at_time.
  assert (E : ∃ key, new_key team_world = (inr (key, "xat_37"), w1))
    by (eexists; vm_compute; reflexivity).
  destruct E as [key E].
  destruct (api_key_lifecycle (λ s, s) (inr "7") "k1" team_member "ci" (Some 2000) team_world w1 key
    "xat_37" team_ok E) as (Ho & Hn & He & H).
  assert (Hok : ∀ now, world_ok (at_time now)) by (intros now; apply world_okb_ok; vm_compute; reflexivity).
  assert (Hh : ∀ now, healthy (at_time now)) by (intros now; apply Forall_nil; exact I).
  destruct (H (bearer "xat_37") (at_time 1500) (Hok 1500) (Hh 1500) eq_refl eq_refl) as [H1 _].
  destruct (H (bearer "xat_37") (at_time 2500) (Hok 2500) (Hh 2500) eq_refl eq_refl) as [H2 _].
  rewrite H1, H2. unfold key_answer, IsExpired. rewrite He, Ho, Hn. split; reflexivity.
Defined.
