(* ===== verification/Sse.v ===== *)
(** * Server-sent events

    Models [internal/x/sse/sse.go]: the writer, and the reader over a
    [bufio.Scanner] that splits a stream into lines.  The reader gives back what
    the writer wrote, except for the newlines inside the data. *)

From S2P Require Import Prelude ScopeParse Strconv.
From Stdlib Require Import Ascii.

Record SseEvent := mkSse { Sse_ID : string; Sse_Event : string; Sse_Retry : string; Sse_Data : string }.

Definition no_event : SseEvent := mkSse "" "" "" "".

Definition LF : ascii := ascii_of_nat 10.
Definition CR : ascii := ascii_of_nat 13.

(** ** The writer *)

(** [bytes.Lines], each line without its newline. *)
Fixpoint lines_from (line s : string) : list string :=
  match s with
  | EmptyString => if String.eqb line "" then [] else [line]
  | String c s => if Ascii.eqb c LF then line :: lines_from "" s else lines_from (line +:+ String c "") s
  end.

Definition Lines (data : string) : list string := lines_from "" data.

Definition writeField (name value : string) : string := name +:+ ": " +:+ value +:+ String LF "".

Definition field_unless_empty (name value : string) : string :=
  if String.eqb value "" then "" else writeField name value.

Definition data_fields (lines : list string) : string :=
  foldr (λ line rest, writeField "data" line +:+ rest) "" lines.

(** What [Write] sends. *)
Definition Sse_Write (ev : SseEvent) : string :=
  field_unless_empty "id" (Sse_ID ev) +:+ field_unless_empty "event" (Sse_Event ev) +:+
  field_unless_empty "retry" (Sse_Retry ev) +:+ data_fields (Lines (Sse_Data ev)) +:+ String LF "".

(** ** The reader *)

(** [bufio.MaxScanTokenSize]: a line longer than the scanner's buffer is an
    error. *)
Definition MaxScanTokenSize : Z := 65536.

Fixpoint drop_cr (line : string) : string :=
  match line with
  | EmptyString => ""
  | String c "" => if Ascii.eqb c CR then "" else line
  | String c rest => String c (drop_cr rest)
  end.

Definition trim_space (value : string) : string :=
  match value with String " "%char rest => rest | _ => value end.

(** One non-empty line: the event so far and the data so far. *)
Definition read_field (line : string) (ev : SseEvent) (buf : string) : SseEvent * string :=
  let '(name, value, ok) := Cut ":"%char line in
  if negb ok then (ev, buf)
  else
    let value := trim_space value in
    if String.eqb name "id" then (mkSse value (Sse_Event ev) (Sse_Retry ev) (Sse_Data ev), buf)
    else if String.eqb name "event" then (mkSse (Sse_ID ev) value (Sse_Retry ev) (Sse_Data ev), buf)
    else if String.eqb name "retry" then (mkSse (Sse_ID ev) (Sse_Event ev) value (Sse_Data ev), buf)
    else if String.eqb name "data" then (ev, buf +:+ value)
    else (ev, buf).

(** An event and the rest of the stream, or the scanner's error. *)
Inductive ReadResult :=
| ReadEvent (ev : SseEvent) (rest : string)
| ReadError.

Definition with_data (ev : SseEvent) (data : string) : SseEvent :=
  mkSse (Sse_ID ev) (Sse_Event ev) (Sse_Retry ev) data.

(** [line] is the line being scanned.  At the end of the stream the event being
    read is dropped, unless the last line is empty but for a carriage return. *)
Fixpoint read_from (ev : SseEvent) (buf line s : string) : ReadResult :=
  match s with
  | EmptyString =>
      if negb (String.eqb line "") && String.eqb (drop_cr line) ""
      then ReadEvent (with_data ev buf) ""
      else ReadEvent no_event ""
  | String c s =>
      if Ascii.eqb c LF then
        let line := drop_cr line in
        if String.eqb line "" then ReadEvent (with_data ev buf) s
        else let '(ev, buf) := read_field line ev buf in read_from ev buf "" s
      else if MaxScanTokenSize <=? Z.of_nat (String.length line) + 1 then ReadError
      else read_from ev buf (line +:+ String c "") s
  end.

Definition Sse_Read (s : string) : ReadResult := read_from no_event "" "" s.

(** ** Reading back what was written *)

(** A value that stays on its line. *)
Definition one_line (value : string) : bool := absent LF value && String.eqb (drop_cr value) value.

Definition fits (name value : string) : Prop :=
  Z.of_nat (String.length name) + Z.of_nat (String.length value) + 3 ≤ MaxScanTokenSize.

Lemma drop_cr_app s t : t ≠ "" → drop_cr (s +:+ t) = s +:+ drop_cr t.
Proof.
  intros Ht. induction s as [|c s IH]; [done|]. change (String c s +:+ t) with (String c (s +:+ t)).
  assert (Hc : drop_cr (String c (s +:+ t)) = String c (drop_cr (s +:+ t))).
  { destruct (s +:+ t) as [|d r] eqn:E; [by destruct s, t|done]. }
  by rewrite Hc, IH.
Qed.

(** The line being scanned up to its newline. *)
Lemma read_line ev buf line l rest :
  absent LF l = true →
  Z.of_nat (String.length line) + Z.of_nat (String.length l) < MaxScanTokenSize →
  read_from ev buf line (l +:+ String LF rest) =
    if String.eqb (drop_cr (line +:+ l)) "" then ReadEvent (with_data ev buf) rest
    else let '(ev, buf) := read_field (drop_cr (line +:+ l)) ev buf in read_from ev buf "" rest.
Proof.
  revert line. induction l as [|c l IH]; intros line Hl Hn.
  - rewrite str_app_nil_r. change ("" +:+ String LF rest) with (String LF rest).
    cbn [read_from]. by rewrite Ascii.eqb_refl.
  - cbn [absent] in Hl. apply andb_true_iff in Hl as [Hc Hl]. apply negb_true_iff in Hc.
    change (String c l +:+ String LF rest) with (String c (l +:+ String LF rest)).
    cbn [read_from]. rewrite Hc. cbn [String.length] in Hn.
    rewrite (proj2 (Z.leb_gt _ _)) by lia. rewrite IH; [|done|].
    + by rewrite str_app_assoc.
    + rewrite length_str_app. cbn [String.length]. lia.
Qed.

Lemma read_written name value ev buf rest :
  name ≠ "" → absent ":" name = true → absent LF name = true → one_line value = true → fits name value →
  read_from ev buf "" (writeField name value +:+ rest) =
    let '(ev, buf) := read_field (name +:+ ": " +:+ value) ev buf in read_from ev buf "" rest.
Proof.
  intros Hne Hcolon Hlf [Hv Hcr%String.eqb_eq]%andb_true_iff Hfit. unfold fits, MaxScanTokenSize in Hfit.
  unfold writeField. rewrite !str_app_assoc. change (String LF "" +:+ rest) with (String LF rest).
  rewrite <- (str_app_assoc ": "), <- (str_app_assoc name).
  rewrite read_line.
  - change ("" +:+ (name +:+ (": " +:+ value))) with (name +:+ (": " +:+ value)).
    assert (Hd : drop_cr (name +:+ (": " +:+ value)) = name +:+ (": " +:+ value)).
    { rewrite drop_cr_app by done. f_equal. destruct value as [|c v]; [done|].
      by rewrite drop_cr_app, Hcr. }
    rewrite Hd. destruct name; [done|]. reflexivity.
  - rewrite !absent_app, Hlf, Hv. reflexivity.
  - rewrite !length_str_app. cbn [String.length]. unfold MaxScanTokenSize. lia.
Qed.

Lemma read_field_cut name value ev buf :
  absent ":" name = true →
  read_field (name +:+ ": " +:+ value) ev buf =
    if String.eqb name "id" then (mkSse value (Sse_Event ev) (Sse_Retry ev) (Sse_Data ev), buf)
    else if String.eqb name "event" then (mkSse (Sse_ID ev) value (Sse_Retry ev) (Sse_Data ev), buf)
    else if String.eqb name "retry" then (mkSse (Sse_ID ev) (Sse_Event ev) value (Sse_Data ev), buf)
    else if String.eqb name "data" then (ev, buf +:+ value)
    else (ev, buf).
Proof.
  intros Hn. unfold read_field. change (": " +:+ value) with (String ":" (" " +:+ value)).
  by rewrite Cut_app.
Qed.

Lemma read_data lines ev buf rest :
  Forall (λ l, one_line l = true ∧ fits "data" l) lines →
  read_from ev buf "" (data_fields lines +:+ rest) = read_from ev (buf +:+ Join lines "") "" rest.
Proof.
  revert buf. induction lines as [|l lines IH]; intros buf Hall.
  { simpl. by rewrite str_app_nil_r. }
  apply Forall_cons in Hall as [[Hl Hf] Hall].
  change (data_fields (l :: lines)) with (writeField "data" l +:+ data_fields lines).
  rewrite str_app_assoc, read_written by done.
  rewrite read_field_cut by done. cbn [String.eqb Ascii.eqb Bool.eqb]. cbv beta iota.
  rewrite IH by done. f_equal. rewrite str_app_assoc. f_equal.
  destruct lines; simpl; [by rewrite str_app_nil_r|done].
Qed.

Lemma read_unless_empty name value ev buf rest :
  name ≠ "" → absent ":" name = true → absent LF name = true → one_line value = true → fits name value →
  read_from ev buf "" (field_unless_empty name value +:+ rest) =
    if String.eqb value "" then read_from ev buf "" rest
    else let '(ev, buf) := read_field (name +:+ ": " +:+ value) ev buf in read_from ev buf "" rest.
Proof.
  intros. unfold field_unless_empty. destruct (String.eqb value ""); [done|]. by apply read_written.
Qed.

Lemma absent_snoc c s d : absent c (s +:+ String d "") = absent c s && negb (Ascii.eqb d c).
Proof. rewrite absent_app. simpl. by rewrite andb_true_r. Qed.

Lemma Lines_absent data : Forall (λ l, absent LF l = true) (Lines data).
Proof.
  unfold Lines. assert (H : ∀ line, absent LF line = true →
    Forall (λ l, absent LF l = true) (lines_from line data)); [|by apply H].
  induction data as [|c data IH]; intros line Hl; simpl.
  - destruct (String.eqb line ""); by repeat constructor.
  - destruct (Ascii.eqb c LF) eqn:E; [constructor; [done|by apply IH]|].
    apply IH. by rewrite absent_snoc, Hl, E.
Qed.

(** An event the wire carries: its fields stay on their lines, its data has no
    line that ends in a carriage return, and no line outgrows the scanner. *)
Definition wire_ok (ev : SseEvent) : Prop :=
  (one_line (Sse_ID ev) = true ∧ fits "id" (Sse_ID ev)) ∧
  (one_line (Sse_Event ev) = true ∧ fits "event" (Sse_Event ev)) ∧
  (one_line (Sse_Retry ev) = true ∧ fits "retry" (Sse_Retry ev)) ∧
  Forall (λ l, drop_cr l = l ∧ fits "data" l) (Lines (Sse_Data ev)).

(** Reading gives back what was written, and leaves the rest of the stream:
    every field of an event the wire carries, and its data with the newlines
    between its lines dropped. *)
Theorem sse_roundtrip (ev : SseEvent) (rest : string) :
  wire_ok ev →
  Sse_Read (Sse_Write ev +:+ rest) = ReadEvent (with_data ev (Join (Lines (Sse_Data ev)) "")) rest.
Proof.
  intros ([Hi Hif] & [He Hef] & [Hr Hrf] & Hd). unfold Sse_Read, Sse_Write. rewrite !str_app_assoc.
  assert (Hlines : Forall (λ l, one_line l = true ∧ fits "data" l) (Lines (Sse_Data ev))).
  { pose proof (Lines_absent (Sse_Data ev)) as Ha. rewrite Forall_forall in *. intros l Hl.
    destruct (Hd l Hl) as [Hcr Hf]. split; [|done]. unfold one_line. rewrite (Ha l Hl), Hcr. simpl.
    apply String.eqb_refl. }
  destruct ev as [id event retry data]; cbn [Sse_ID Sse_Event Sse_Retry Sse_Data] in *.
  rewrite read_unless_empty, read_field_cut by done.
  destruct (String.eqb_spec id "") as [->|_]; cbn -[read_from];
    rewrite read_unless_empty, read_field_cut by done;
    (destruct (String.eqb_spec event "") as [->|_]; cbn -[read_from];
     rewrite read_unless_empty, read_field_cut by done;
     (destruct (String.eqb_spec retry "") as [->|_]; cbn -[read_from];
      rewrite read_data by done; reflexivity)).
Qed.

Lemma Lines_one data : absent LF data = true → data ≠ "" → Lines data = [data].
Proof.
  unfold Lines. assert (H : ∀ line, absent LF data = true → line +:+ data ≠ "" →
    lines_from line data = [line +:+ data]); [|by intros; apply H].
  induction data as [|c data IH]; intros line Ha Hne; simpl.
  - rewrite str_app_nil_r in *. by rewrite (proj2 (String.eqb_neq _ _) Hne).
  - simpl in Ha. apply andb_true_iff in Ha as [Hc Ha]. apply negb_true_iff in Hc. rewrite Hc.
    rewrite IH; [by rewrite str_app_assoc|done|]. rewrite str_app_assoc. by destruct line.
Qed.

(** The witness: two lines of data are read back as one. *)
Lemma sse_roundtrip_witness :
  let ev := mkSse "7" "change" "" ("ab" +:+ String LF "cd") in
  wire_ok ev ∧ Sse_Read (Sse_Write ev +:+ "id: 8") = ReadEvent (with_data ev "abcd") "id: 8".
Proof.
  intros ev. assert (Hok : wire_ok ev).
  { repeat split; try done. repeat constructor; done. }
  split; [exact Hok|]. exact (sse_roundtrip ev "id: 8" Hok).
Defined.

(** Data on one line, such as compact JSON, comes back whole. *)
Lemma sse_roundtrip_line ev rest :
  wire_ok ev → absent LF (Sse_Data ev) = true →
  Sse_Read (Sse_Write ev +:+ rest) = ReadEvent ev rest.
Proof.
  intros Hok Ha. rewrite sse_roundtrip by done. destruct ev as [i e r data]. simpl in *.
  unfold with_data. simpl. destruct data as [|c data]; [done|]. by rewrite Lines_one.
Qed.

(** ** A stream that is cut short *)

Lemma str_app_cases (p t l m : string) :
  p +:+ t = l +:+ m →
  (∃ d, p = l +:+ d ∧ m = d +:+ t) ∨ (∃ d, d ≠ "" ∧ l = p +:+ d ∧ t = d +:+ m).
Proof.
  revert p. induction l as [|c l IH]; intros p Heq; [left; by exists p|].
  destruct p as [|d p]; [right; exists (String c l); done|].
  injection Heq as -> Heq. destruct (IH _ Heq) as [(x & -> & ->)|(x & Hx & -> & ->)].
  - left. by exists x.
  - right. by exists x.
Qed.

(** The fields an event is written as. *)
Definition event_fields (ev : SseEvent) : list (string * string) :=
  (if String.eqb (Sse_ID ev) "" then [] else [("id", Sse_ID ev)]) ++
  (if String.eqb (Sse_Event ev) "" then [] else [("event", Sse_Event ev)]) ++
  (if String.eqb (Sse_Retry ev) "" then [] else [("retry", Sse_Retry ev)]) ++
  (pair "data" <$> Lines (Sse_Data ev)).

Definition fields_text (fs : list (string * string)) : string :=
  foldr (λ f rest, writeField f.1 f.2 +:+ rest) "" fs.

Definition field_ok (f : string * string) : Prop :=
  (∃ c n, f.1 = String c n ∧ c ≠ CR) ∧ absent ":" f.1 = true ∧ absent LF f.1 = true ∧
  one_line f.2 = true ∧ fits f.1 f.2.

Lemma fields_text_app a b : fields_text (a ++ b) = fields_text a +:+ fields_text b.
Proof. induction a as [|f a IH]; [done|]. simpl. by rewrite IH, str_app_assoc. Qed.

Lemma Sse_Write_fields ev : Sse_Write ev = fields_text (event_fields ev) +:+ String LF "".
Proof.
  unfold Sse_Write, event_fields, field_unless_empty. rewrite !fields_text_app, !str_app_assoc.
  assert (Hd : fields_text (pair "data" <$> Lines (Sse_Data ev)) = data_fields (Lines (Sse_Data ev))).
  { induction (Lines (Sse_Data ev)) as [|l ls IH]; [done|]. by rewrite fmap_cons; simpl; rewrite IH. }
  rewrite Hd. repeat case_match; simpl; by rewrite ?str_app_nil_r.
Qed.

Lemma event_fields_ok ev : wire_ok ev → Forall field_ok (event_fields ev).
Proof.
  intros (Hi & He & Hr & Hd). pose proof (Lines_absent (Sse_Data ev)) as Ha. unfold event_fields.
  rewrite !Forall_app, Forall_fmap. repeat split;
    try (case_match; repeat constructor; simpl; try tauto; by eexists _, _).
  rewrite Forall_forall in *. intros l Hl. destruct (Hd l Hl) as [Hcr Hf]. specialize (Ha l Hl).
  repeat split; try done; [by eexists _, _|]. simpl. unfold one_line. rewrite Ha, Hcr. apply String.eqb_refl.
Qed.

Lemma read_partial ev buf p : ∀ line,
  absent LF p = true → Z.of_nat (String.length line) + Z.of_nat (String.length p) < MaxScanTokenSize →
  drop_cr (line +:+ p) ≠ "" ∨ line +:+ p = "" →
  read_from ev buf line p = ReadEvent no_event "".
Proof.
  induction p as [|c p IH]; intros line Ha Hn Hd; cbn [read_from].
  - rewrite str_app_nil_r in Hd. destruct Hd as [Hd| ->]; [|done].
    by rewrite (proj2 (String.eqb_neq _ _) Hd), andb_false_r.
  - cbn [absent] in Ha. apply andb_true_iff in Ha as [Hc Ha]. apply negb_true_iff in Hc. rewrite Hc.
    cbn [String.length] in Hn. rewrite (proj2 (Z.leb_gt _ _)) by lia. apply IH; [done| |].
    + rewrite length_str_app. cbn [String.length]. lia.
    + by rewrite str_app_assoc.
Qed.

Lemma drop_cr_head c s : c ≠ CR → drop_cr (String c s) ≠ "".
Proof.
  intros Hc. simpl. destruct s; [|done]. destruct (Ascii.eqb_spec c CR); [done|discriminate].
Qed.

Lemma read_fields_cut fs : ∀ ev buf p t,
  Forall field_ok fs → p +:+ t = fields_text fs +:+ String LF "" → t ≠ "" →
  read_from ev buf "" p = ReadEvent no_event "".
Proof.
  induction fs as [|[n v] fs IH]; intros ev buf p t Hok Heq Ht.
  { destruct p as [|c p]; [done|]. injection Heq as -> Heq. by destruct p, t. }
  apply Forall_cons in Hok as [((c & n' & Hn & Hc) & Hcol & Hlf & Hv & Hf) Hok].
  cbn [fst snd] in *. cbn [fields_text foldr fst snd] in Heq. rewrite str_app_assoc in Heq.
  apply str_app_cases in Heq as [(d & -> & Heq)|(d & Hd & Hl & _)].
  - rewrite read_written by (done || by rewrite Hn). destruct (read_field _ _ _) as [ev' buf'].
    by apply (IH _ _ _ t).
  - (* cut within the line of this field *)
    unfold writeField in Hl. symmetry in Hl. rewrite <- (str_app_assoc ": "), <- (str_app_assoc n) in Hl.
    assert (Hp : ∃ d', n +:+ (": " +:+ v) = p +:+ d').
    { apply str_app_cases in Hl as [(d' & -> & Hd')|(d' & _ & -> & _)]; [|by exists d'].
      destruct d' as [|x d']; [exists ""; by rewrite !str_app_nil_r|].
      injection Hd' as _ Hd'. by destruct d'. }
    destruct Hp as [d' Hp].
    assert (Ha : absent LF (n +:+ (": " +:+ v)) = true).
    { apply andb_true_iff in Hv as [Hv _]. rewrite !absent_app, Hlf, Hv. done. }
    assert (Hlen : String.length (n +:+ (": " +:+ v)) = String.length (p +:+ d')) by (by rewrite Hp).
    rewrite !length_str_app in Hlen. cbn [String.length] in Hlen. unfold fits in Hf.
    rewrite Hp, absent_app in Ha. apply andb_true_iff in Ha as [Ha _].
    apply read_partial; [done|cbn [String.length]; lia|]. change ("" +:+ p) with p.
    destruct p as [|x p]; [by right|left]. rewrite Hn in Hp. injection Hp as -> _.
    by apply drop_cr_head.
Qed.

(** An event of which only a part arrived is never taken for an event. *)
Lemma Sse_Read_cut ev p t :
  wire_ok ev → p +:+ t = Sse_Write ev → t ≠ "" → Sse_Read p = ReadEvent no_event "".
Proof.
  intros Hok Heq Ht. rewrite Sse_Write_fields in Heq.
  by eapply read_fields_cut; [apply event_fields_ok|..].
Qed.

(** Reading consumes the stream. *)
Lemma read_from_consumes s : ∀ ev buf line ev' rest,
  read_from ev buf line s = ReadEvent ev' rest →
  (s = "" ∧ rest = "") ∨ (String.length rest < String.length s)%nat.
Proof.
  induction s as [|c s IH]; intros ev buf line ev' rest; cbn [read_from].
  { case_match; intros [= _ <-]; by left. }
  cbn [String.length].
  assert (Hstep : ∀ ev buf line, read_from ev buf line s = ReadEvent ev' rest →
    (String.length rest < S (String.length s))%nat).
  { intros ev0 buf0 line0 H. apply IH in H as [[-> ->]|?]; simpl; lia. }
  destruct (Ascii.eqb c LF).
  - case_match; [intros [= _ <-]; lia|]. destruct (read_field _ _ _). eauto.
  - case_match; [done|]. eauto.
Qed.

(** ** Numbers on the wire *)

Lemma drop_cr_absent s : absent CR s = true → drop_cr s = s.
Proof.
  induction s as [|c s IH]; [done|]. cbn [absent]. intros [Hc Hs]%andb_true_iff.
  apply negb_true_iff in Hc. cbn [drop_cr]. rewrite IH by done. by destruct s; [rewrite Hc|].
Qed.

Lemma digit_on_line n : (n < 10)%N →
  Ascii.eqb (pretty_N_char n) LF = false ∧ Ascii.eqb (pretty_N_char n) CR = false.
Proof.
  intros Hn. destruct n as [|p]; [done|].
  do 4 (destruct p as [p|p|]; try done; try lia).
Qed.

Lemma pretty_go_on_line (k : nat) : ∀ (n : N) (s : string),
  (n < 2 ^ N.of_nat k)%N → absent LF s = true → absent CR s = true →
  absent LF (pretty_N_go n s) = true ∧ absent CR (pretty_N_go n s) = true ∧
  (String.length (pretty_N_go n s) ≤ String.length s + k)%nat.
Proof.
  induction k as [|k IH]; intros n s Hn Hl Hc.
  { assert (n = 0%N) as -> by (simpl in Hn; lia). rewrite pretty_N_go_0. repeat split; [done..|lia]. }
  destruct (decide (n = 0%N)) as [->|Hz]; [rewrite pretty_N_go_0; repeat split; [done..|lia]|].
  rewrite pretty_N_go_step by lia. rewrite Nat2N.inj_succ, N.pow_succ_r' in Hn.
  destruct (digit_on_line (n mod 10)) as [Hd Hd']; [by apply N.mod_lt|].
  destruct (IH (n / 10)%N (String (pretty_N_char (n mod 10)) s)) as (H1 & H2 & H3).
  - apply N.Div0.div_lt_upper_bound. lia.
  - cbn [absent]. by rewrite Hd, Hl.
  - cbn [absent]. by rewrite Hd', Hc.
  - repeat split; [done..|]. cbn [String.length] in H3. lia.
Qed.

Lemma pretty_on_line (n : N) :
  (n < 2 ^ 64)%N →
  absent LF (pretty n) = true ∧ absent CR (pretty n) = true ∧ (String.length (pretty n) ≤ 64)%nat.
Proof.
  intros Hn. unfold pretty, pretty_N. destruct (decide (n = 0%N)) as [->|_]; [repeat split; simpl; lia|].
  destruct (pretty_go_on_line 64 n "") as (H1 & H2 & H3); [done..|]. by repeat split.
Qed.

Lemma FormatInt_on_line z :
  is_int64 z = true → one_line (FormatInt z) = true ∧ (String.length (FormatInt z) ≤ 65)%nat.
Proof.
  unfold is_int64, int64_min, int64_max. intros [H1 H2]%andb_true_iff.
  apply Z.leb_le in H1, H2. unfold FormatInt, one_line.
  assert (Hgo : ∀ (s : string), absent LF s = true ∧ absent CR s = true ∧ (String.length s ≤ 65)%nat →
    absent LF s && String.eqb (drop_cr s) s = true ∧ (String.length s ≤ 65)%nat).
  { intros s (Hl & Hc & Hlen). rewrite Hl, drop_cr_absent by done. by rewrite String.eqb_refl. }
  apply Hgo. destruct z as [|p|p]; [repeat split; simpl; lia| |].
  - destruct (pretty_on_line (Npos p)) as (? & ? & ?); [lia|].
    change (pretty (Zpos p)) with (pretty (Npos p)). repeat split; [done..|lia].
  - destruct (pretty_on_line (Npos p)) as (Ha & Hb & ?); [lia|].
    change (pretty (Zneg p)) with ("-" +:+ pretty (Npos p)). rewrite !absent_app, Ha, Hb.
    repeat split. rewrite length_str_app. simpl. lia.
Qed.
