(* ===== verification/OAuthFlow.v ===== *)
(** * The OAuth flow of third-party clients

    Models [internal/auth/oauthflow]: the authorization-code flow with PKCE and
    refresh tokens.  Every token is a JWT signed with one key and its kind is a
    claim, so the claims of all of them are one payload, which each verifier
    reads for its own fields; this gives the [JWT] interface of [SignIn] its
    implementation.  The JWT library, SHA-256, the UUIDs and the editing of a
    redirect's query are parameters; the two static metadata documents are left
    out. *)

From S2P Require Import Prelude AuthScope ScopeParse EventModel TaskModel Links Strconv PubSub.
From S2P Require Import ScheduleModel Rules Store StoreOps StoreLogic StoreAccounts ApiBase Timeline.
From S2P Require Import ShellServer ApiTask ApiTaskSpec Evolution ApiAccounts AccountSpec Pagination.
From S2P Require Import StorePages ApiEvents SignIn.
From S2P Require Base64.
From Stdlib Require Import Ascii.

(** ** Tokens *)

(** The JSON object a token carries: an absent member reads as the zero value.
    The time of issue is not read back. *)
Record Payload := mkPayload {
  P_Subject : string; P_ExpiresAt : option Z; P_TokenType : string; P_Email : string;
  P_Name : string; P_OrgID : Z; P_ClientID : string; P_RedirectURI : string;
  P_CodeChallenge : string; P_Scopes : Scopes }.

(** The JWT library over such payloads, with the server's key. *)
Class Tokens := {
  SignToken : Payload → Err + string;
  ParseToken : Z → string → Err + Payload;
  NumericDate : Z → Z }.

Class TokensLaws `{Tokens} := {
  Parse_valid p token now : SignToken p = inr token →
    (∀ t, P_ExpiresAt p = Some t → now < t) → ParseToken now token = inr p;
  Parse_expired p token now t : SignToken p = inr token → P_ExpiresAt p = Some t → t ≤ now →
    ∃ err, ParseToken now token = inl err;
  Sign_no_key p token : SignToken p = inr token → IsKey token = false }.

Definition app_payload (c : AppClaims) : Payload :=
  mkPayload (Claims_Subject c) (Claims_ExpiresAt c) "" (Claims_Email c) (Claims_Name c)
    (Claims_OrgID c) "" "" "" (Claims_Scopes c).

(** What [AppClaims] reads of an object. *)
Definition app_claims (p : Payload) : AppClaims :=
  mkClaims (P_Subject p) (P_Email p) (P_Name p) (P_OrgID p) (P_Scopes p) (P_ExpiresAt p).

Section oauth.
Context {TK : Tokens}.

Definition SignAppToken (claims : AppClaims) : Err + string := SignToken (app_payload claims).

Definition VerifyAppToken (now : Z) (token : string) : Err + AppClaims :=
  match ParseToken now token with
  | inl err => inl (EOther ("parse token: " +:+ Err_Error err))
  | inr p => inr (app_claims p)
  end.

#[export] Instance app_jwt : JWT :=
  {| SignedString := SignAppToken; ParseWithClaims := VerifyAppToken; NewNumericDate := NumericDate |}.

#[export] Instance app_jwt_laws `{!TokensLaws} : JWTLaws.
Proof.
  split.
  - intros claims token now Hs Ht. simpl. unfold VerifyAppToken.
    rewrite (Parse_valid (app_payload claims) token now Hs) by done. by destruct claims.
  - intros claims token Hs. by apply (Sign_no_key (app_payload claims)).
Qed.

(** ** [code.go] *)

Definition DefaultAuthCodeTTL : Z := 60 * 10 ^ 9.
Definition DefaultRefreshTokenTTL : Z := 30 * 24 * 3600 * 10 ^ 9.

Record authCodeClaims := mkCodeClaims {
  Code_Subject : string; Code_ExpiresAt : option Z; Code_TokenType : string; Code_Email : string;
  Code_Name : string; Code_OrgID : Z; Code_ClientID : string; Code_RedirectURI : string;
  Code_CodeChallenge : string }.

Definition code_payload (c : authCodeClaims) : Payload :=
  mkPayload (Code_Subject c) (Code_ExpiresAt c) (Code_TokenType c) (Code_Email c) (Code_Name c)
    (Code_OrgID c) (Code_ClientID c) (Code_RedirectURI c) (Code_CodeChallenge c) [].

Definition code_claims (p : Payload) : authCodeClaims :=
  mkCodeClaims (P_Subject p) (P_ExpiresAt p) (P_TokenType p) (P_Email p) (P_Name p) (P_OrgID p)
    (P_ClientID p) (P_RedirectURI p) (P_CodeChallenge p).

Definition verifyAuthCode (now : Z) (token : string) : Err + authCodeClaims :=
  match ParseToken now token with
  | inl err => inl (EOther ("parse auth code: " +:+ Err_Error err))
  | inr p =>
      let claims := code_claims p in
      if negb (String.eqb (Code_TokenType claims) "auth_code")
      then inl (EOther ("wrong token type: " +:+ quoted (Code_TokenType claims)))
      else inr claims
  end.

Record refreshTokenClaims := mkRefreshClaims {
  Refresh_Subject : string; Refresh_ExpiresAt : option Z; Refresh_TokenType : string;
  Refresh_Email : string; Refresh_Name : string; Refresh_OrgID : Z }.

Definition refresh_payload (c : refreshTokenClaims) : Payload :=
  mkPayload (Refresh_Subject c) (Refresh_ExpiresAt c) (Refresh_TokenType c) (Refresh_Email c)
    (Refresh_Name c) (Refresh_OrgID c) "" "" "" [].

Definition refresh_claims (p : Payload) : refreshTokenClaims :=
  mkRefreshClaims (P_Subject p) (P_ExpiresAt p) (P_TokenType p) (P_Email p) (P_Name p) (P_OrgID p).

Definition signRefreshToken (claims : refreshTokenClaims) : Err + string :=
  SignToken (refresh_payload claims).

Definition verifyRefreshToken (now : Z) (token : string) : Err + refreshTokenClaims :=
  match ParseToken now token with
  | inl err => inl (EOther ("parse refresh token: " +:+ Err_Error err))
  | inr p =>
      let claims := refresh_claims p in
      if negb (String.eqb (Refresh_TokenType claims) "refresh_token")
      then inl (EOther ("wrong token type: " +:+ quoted (Refresh_TokenType claims)))
      else inr claims
  end.

(** ** [oauthflow.go] and [handlers.go] *)

(** [oauthflow.New]: the lifetimes, with their defaults. *)
Record Auth := mkAuth { authCodeTTL : Z; refreshTokenTTL : Z }.

Definition OAuth_New (codeTTL refreshTTL : Z) : Auth :=
  mkAuth (or_int codeTTL DefaultAuthCodeTTL) (or_int refreshTTL DefaultRefreshTokenTTL).

(** A POST's form, unless it does not parse; [form] is [r.FormValue]. *)
Record FormRequest := mkForm { Form_Method : string; Form_Value : option (string → string) }.

Inductive OAuthResponse :=
| OAuthError (status : Z) (msg : string)
| Registered (client_id client_name : string) (redirect_uris : list string)
| RedirectTo (redirect_uri : string)
| Issued (access_token refresh_token : string) (expires_in : Z).

Definition BadRequest (msg : string) : OAuthResponse := OAuthError StatusBadRequest msg.

Context (a : Auth) (Sum256 : string → string).
(** [url.Parse] of a redirect, with the values set in its query; [None] when it
    does not parse. *)
Context (set_query : string → list (string * string) → option string).

(** [body]: the decoded request; [id]: the new UUID. *)
Definition HandleRegister (method id : string) (body : option (string * list string)) : OAuthResponse :=
  if negb (String.eqb method "POST") then OAuthError StatusMethodNotAllowed "method not allowed"
  else match body with
       | None => BadRequest "invalid request body"
       | Some (name, uris) => Registered id name uris
       end.

(** A handler of a POSTed form. *)
Definition with_form (r : FormRequest) (k : (string → string) → OAuthResponse) : OAuthResponse :=
  if negb (String.eqb (Form_Method r) "POST")
  then OAuthError StatusMethodNotAllowed "method not allowed"
  else match Form_Value r with None => BadRequest "invalid form data" | Some form => k form end.

Definition any_empty (l : list string) : bool := existsb (String.eqb "") l.

Definition new_code_claims (now : Z) (app : AppClaims) (form : string → string) : authCodeClaims :=
  mkCodeClaims (Claims_Subject app) (Some (NumericDate (Time_Add now (authCodeTTL a)))) "auth_code"
    (Claims_Email app) (Claims_Name app) (Claims_OrgID app) (form "client_id") (form "redirect_uri")
    (form "code_challenge").

Definition HandleAuthorize (now : Z) (r : FormRequest) : OAuthResponse :=
  with_form r (λ form,
    if any_empty [form "token"; form "client_id"; form "redirect_uri"; form "code_challenge"]
    then BadRequest "missing required parameters"
    else if negb (String.eqb (form "response_type") "code") then BadRequest "unsupported response_type"
    else if negb (String.eqb (form "code_challenge_method") "S256")
    then BadRequest "unsupported code_challenge_method"
    else
      match VerifyAppToken now (form "token") with
      | inl _ => OAuthError StatusUnauthorized "invalid token"
      | inr app =>
          match SignToken (code_payload (new_code_claims now app form)) with
          | inl _ => OAuthError StatusInternalServerError "failed to sign auth code"
          | inr code =>
              let state := if String.eqb (form "state") "" then [] else [("state", form "state")] in
              match set_query (form "redirect_uri") (("code", code) :: state) with
              | None => BadRequest "invalid redirect_uri"
              | Some uri => RedirectTo uri
              end
          end
      end).

Definition token_user (subject email name : string) (orgID : Z) : UserInfo :=
  mkUser subject email name orgID AuthTypeApp "" [].

Definition new_refresh_claims (now : Z) (subject email name : string) (orgID : Z)
    : refreshTokenClaims :=
  mkRefreshClaims subject (Some (NumericDate (Time_Add now (refreshTokenTTL a)))) "refresh_token" email name
    orgID.

Definition issueTokens (now : Z) (subject email name : string) (orgID : Z) : OAuthResponse :=
  match SignAppToken (NewAppClaims (token_user subject email name orgID) now) with
  | inl _ => OAuthError StatusInternalServerError "failed to sign access token"
  | inr access =>
      match signRefreshToken (new_refresh_claims now subject email name orgID) with
      | inl _ => OAuthError StatusInternalServerError "failed to sign refresh token"
      | inr refresh => Issued access refresh (AppTokenTTL / 10 ^ 9)
      end
  end.

(** [base64.RawURLEncoding]: the URL-safe encoding without its padding. *)
Fixpoint strip_padding (s : string) : string :=
  match s with
  | EmptyString => ""
  | String c s => if Ascii.eqb c "="%char then strip_padding s else String c (strip_padding s)
  end.

Definition s256 (codeVerifier : string) : string :=
  strip_padding (Base64.EncodeToString (Sum256 codeVerifier)).

Definition handleAuthCodeGrant (now : Z) (form : string → string) : OAuthResponse :=
  if any_empty [form "code"; form "client_id"; form "redirect_uri"; form "code_verifier"]
  then BadRequest "missing required parameters"
  else
    match verifyAuthCode now (form "code") with
    | inl _ => BadRequest "invalid authorization code"
    | inr claims =>
        if negb (String.eqb (Code_ClientID claims) (form "client_id"))
        then BadRequest "client_id mismatch"
        else if negb (String.eqb (Code_RedirectURI claims) (form "redirect_uri"))
        then BadRequest "redirect_uri mismatch"
        else if negb (String.eqb (s256 (form "code_verifier")) (Code_CodeChallenge claims))
        then BadRequest "invalid code_verifier"
        else issueTokens now (Code_Subject claims) (Code_Email claims) (Code_Name claims)
               (Code_OrgID claims)
    end.

Definition handleRefreshTokenGrant (now : Z) (form : string → string) : OAuthResponse :=
  if String.eqb (form "refresh_token") "" then BadRequest "missing refresh_token"
  else
    match verifyRefreshToken now (form "refresh_token") with
    | inl _ => BadRequest "invalid refresh_token"
    | inr claims => issueTokens now (Refresh_Subject claims) (Refresh_Email claims)
                      (Refresh_Name claims) (Refresh_OrgID claims)
    end.

Definition OAuth_HandleToken (now : Z) (r : FormRequest) : OAuthResponse :=
  with_form r (λ form,
    if String.eqb (form "grant_type") "authorization_code" then handleAuthCodeGrant now form
    else if String.eqb (form "grant_type") "refresh_token" then handleRefreshTokenGrant now form
    else BadRequest "unsupported grant_type").

(** ** Whom the flow issues tokens to *)

(** The access token for an identity, which is its org's admin. *)
Definition access_claims (now : Z) (subject email name : string) (orgID : Z) : AppClaims :=
  NewAppClaims (token_user subject email name orgID) now.

(** A response that gives the identity its two tokens at [now]. *)
Definition issued (now : Z) (subject email name : string) (orgID : Z) (resp : OAuthResponse) : Prop :=
  ∃ access refresh, resp = Issued access refresh (AppTokenTTL / 10 ^ 9) ∧
    SignAppToken (access_claims now subject email name orgID) = inr access ∧
    signRefreshToken (new_refresh_claims now subject email name orgID) = inr refresh.

Lemma issueTokens_spec now subject email name orgID :
  issued now subject email name orgID (issueTokens now subject email name orgID) ∨
  ∃ msg, issueTokens now subject email name orgID = OAuthError StatusInternalServerError msg ∧
    ((∃ err, SignAppToken (access_claims now subject email name orgID) = inl err) ∨
     ∃ err, signRefreshToken (new_refresh_claims now subject email name orgID) = inl err).
Proof.
  unfold issueTokens, issued, access_claims. destruct (SignAppToken _) as [e|access].
  { right. eexists. split; [done|]. left. by eexists. }
  destruct (signRefreshToken _) as [e|refresh]; [right|left]; eexists.
  - split; [done|]. right. by eexists.
  - eexists. done.
Qed.

(** The kinds of token, by the claim that tells them apart. *)
Lemma verifyAuthCode_Sign `{!TokensLaws} p token now :
  SignToken p = inr token → (∀ t, P_ExpiresAt p = Some t → now < t) →
  verifyAuthCode now token =
    if String.eqb (P_TokenType p) "auth_code" then inr (code_claims p)
    else inl (EOther ("wrong token type: " +:+ quoted (P_TokenType p))).
Proof.
  intros Hs Ht. unfold verifyAuthCode. rewrite (Parse_valid p token now Hs Ht). simpl.
  by destruct (String.eqb (P_TokenType p) "auth_code").
Qed.

Lemma verifyRefreshToken_Sign `{!TokensLaws} p token now :
  SignToken p = inr token → (∀ t, P_ExpiresAt p = Some t → now < t) →
  verifyRefreshToken now token =
    if String.eqb (P_TokenType p) "refresh_token" then inr (refresh_claims p)
    else inl (EOther ("wrong token type: " +:+ quoted (P_TokenType p))).
Proof.
  intros Hs Ht. unfold verifyRefreshToken. rewrite (Parse_valid p token now Hs Ht). simpl.
  by destruct (String.eqb (P_TokenType p) "refresh_token").
Qed.

(** The kinds of token stay apart.  An app or task token, whatever its
    claims, is neither an authorization code nor a refresh token, and neither
    of these is the other: at the token endpoint each grant refuses every token
    but its own kind. *)
Theorem token_kinds_separate `{!TokensLaws} (now : Z) (form : string → string) (token : string)
    (p : Payload) :
  SignToken p = inr token →
  (P_TokenType p ≠ "auth_code" → form "code" = token →
     ∃ msg, handleAuthCodeGrant now form = BadRequest msg) ∧
  (P_TokenType p ≠ "refresh_token" → form "refresh_token" = token →
     ∃ msg, handleRefreshTokenGrant now form = BadRequest msg) ∧
  (∀ app, P_TokenType (app_payload app) ≠ "auth_code" ∧ P_TokenType (app_payload app) ≠ "refresh_token") ∧
  (∀ t form app, P_TokenType (code_payload (new_code_claims t app form)) = "auth_code") ∧
  (∀ t sub email name org,
     P_TokenType (refresh_payload (new_refresh_claims t sub email name org)) = "refresh_token").
Proof.
  intros Hs.
  assert (Hp : (∃ e, ParseToken now token = inl e) ∨ ParseToken now token = inr p).
  { destruct (P_ExpiresAt p) as [t|] eqn:Ht; [destruct (Z.le_gt_cases t now)|].
    - left. by eapply Parse_expired.
    - right. apply Parse_valid; [done|]. intros t' Ht'. simplify_eq. lia.
    - right. apply Parse_valid; [done|congruence]. }
  repeat split; try done.
  - intros Hk Hf. unfold handleAuthCodeGrant, verifyAuthCode. rewrite Hf.
    destruct (any_empty _); [by eexists|].
    destruct Hp as [[e ->]| ->]; [by eexists|]. cbn [Code_TokenType code_claims].
    rewrite (proj2 (String.eqb_neq _ _) Hk). by eexists.
  - intros Hk Hf. unfold handleRefreshTokenGrant, verifyRefreshToken. rewrite Hf.
    destruct (String.eqb token ""); [by eexists|].
    destruct Hp as [[e ->]| ->]; [by eexists|]. cbn [Refresh_TokenType refresh_claims].
    rewrite (proj2 (String.eqb_neq _ _) Hk). by eexists.
Qed.

Definition exchange_result (t0 t1 : Z) (f g : string → string) (app : AppClaims) : OAuthResponse :=
  if NumericDate (Time_Add t0 (authCodeTTL a)) <=? t1 then BadRequest "invalid authorization code"
  else if negb (String.eqb (f "client_id") (g "client_id")) then BadRequest "client_id mismatch"
  else if negb (String.eqb (f "redirect_uri") (g "redirect_uri")) then BadRequest "redirect_uri mismatch"
  else if negb (String.eqb (s256 (g "code_verifier")) (f "code_challenge"))
  then BadRequest "invalid code_verifier"
  else issueTokens t1 (Claims_Subject app) (Claims_Email app) (Claims_Name app) (Claims_OrgID app).

(** C12: the authorization-code flow.  A code is granted only against a valid app
    token.  Exchanging it gives tokens for the identity of that app token, and
    does so exactly until the code expires, for the same client and redirect,
    and for a verifier whose SHA-256 is the challenge the code was granted for;
    the access token then authenticates that identity until it expires. *)
Theorem code_flow `{!TokensLaws} (t0 : Z) (f : string → string) (uri : string) :
  HandleAuthorize t0 (mkForm "POST" (Some f)) = RedirectTo uri →
  ∃ app code, VerifyAppToken t0 (f "token") = inr app ∧
    set_query (f "redirect_uri")
      (("code", code) :: if String.eqb (f "state") "" then [] else [("state", f "state")]) = Some uri ∧
    ∀ t1 g, g "code" = code → any_empty [g "code"; g "client_id"; g "redirect_uri"; g "code_verifier"] = false →
      handleAuthCodeGrant t1 g = exchange_result t0 t1 f g app ∧
      ∀ access refresh exp, handleAuthCodeGrant t1 g = Issued access refresh exp →
        ∀ t2, t2 < NumericDate (Time_Add t1 AppTokenTTL) →
          VerifyAppToken t2 access =
            inr (access_claims t1 (Claims_Subject app) (Claims_Email app) (Claims_Name app)
                   (Claims_OrgID app)).
Proof.
  unfold HandleAuthorize, with_form. cbn [Form_Method Form_Value]. rewrite String.eqb_refl. cbn [negb].
  destruct (any_empty _); [done|].
  destruct (negb _); [done|]. destruct (negb _); [done|].
  destruct (VerifyAppToken t0 (f "token")) as [e|app] eqn:Hv; [done|].
  destruct (SignToken _) as [e|code] eqn:Hs; [done|].
  destruct (set_query _ _) as [u|] eqn:Hq; [|done]. intros [= ->].
  exists app, code. split; [done|]. split; [done|]. intros t1 g Hg Hne.
  assert (Hx : handleAuthCodeGrant t1 g = exchange_result t0 t1 f g app).
  { unfold handleAuthCodeGrant, exchange_result. rewrite Hne, Hg.
    destruct (Z.leb_spec (NumericDate (Time_Add t0 (authCodeTTL a))) t1) as [Hle|Hlt].
    - destruct (Parse_expired _ _ t1 _ Hs eq_refl Hle) as [err Hp]. unfold verifyAuthCode. by rewrite Hp.
    - rewrite (verifyAuthCode_Sign _ _ _ Hs) by (intros t [= <-]; done). done. }
  split; [exact Hx|]. rewrite Hx. unfold exchange_result. intros access refresh exp Hi t2 Ht2.
  destruct (_ <=? t1); [done|]. do 3 (destruct (negb _); [done|]). unfold issueTokens in Hi. fold (access_claims t1 (Claims_Subject app)
    (Claims_Email app) (Claims_Name app) (Claims_OrgID app)) in Hi.
  destruct (SignAppToken _) as [|tok] eqn:Hsa; [done|]. destruct (signRefreshToken _); [done|].
  injection Hi as -> _ _. eapply (@Parse_Sign app_jwt _); [exact Hsa|]. intros t [= <-]. exact Ht2.
Qed.

(** ** Sessions *)

(** The refresh tokens an identity has held: those it was issued, and those it
    was given for one. *)
Inductive session (subject email name : string) (orgID : Z) : Z → string → Prop :=
| session_start t access refresh exp :
    issueTokens t subject email name orgID = Issued access refresh exp →
    session subject email name orgID t refresh
| session_refresh t t' form access refresh exp :
    session subject email name orgID t (form "refresh_token") →
    handleRefreshTokenGrant t' form = Issued access refresh exp →
    session subject email name orgID t' refresh.

Lemma issued_refresh t subject email name orgID access refresh exp :
  issueTokens t subject email name orgID = Issued access refresh exp →
  signRefreshToken (new_refresh_claims t subject email name orgID) = inr refresh.
Proof.
  unfold issueTokens. destruct (SignAppToken _); [done|]. destruct (signRefreshToken _); [done|].
  by intros [= _ -> _].
Qed.

Lemma refresh_grant `{!TokensLaws} t t' subject email name orgID form :
  signRefreshToken (new_refresh_claims t subject email name orgID) = inr (form "refresh_token") →
  form "refresh_token" ≠ "" →
  handleRefreshTokenGrant t' form =
    if NumericDate (Time_Add t (refreshTokenTTL a)) <=? t' then BadRequest "invalid refresh_token"
    else issueTokens t' subject email name orgID.
Proof.
  intros Hs Hne. unfold handleRefreshTokenGrant.
  rewrite (proj2 (String.eqb_neq _ _) Hne).
  destruct (Z.leb_spec (NumericDate (Time_Add t (refreshTokenTTL a))) t') as [Hle|Hlt].
  - destruct (Parse_expired _ _ t' _ Hs eq_refl Hle) as [err Hp]. unfold verifyRefreshToken. by rewrite Hp.
  - by rewrite (verifyRefreshToken_Sign _ _ _ Hs) by (intros t2 [= <-]; done).
Qed.

(** A session keeps its identity and renews.  However often a session has
    been refreshed, its last refresh token gives, until it expires and not
    after, two new tokens for the identity the session began with. *)
Theorem session_renews `{!TokensLaws} (subject email name : string) (orgID t t' : Z)
    (form : string → string) :
  session subject email name orgID t (form "refresh_token") → form "refresh_token" ≠ "" →
  handleRefreshTokenGrant t' form =
    if NumericDate (Time_Add t (refreshTokenTTL a)) <=? t' then BadRequest "invalid refresh_token"
    else issueTokens t' subject email name orgID.
Proof.
  intros Hsess. apply refresh_grant. remember (form "refresh_token") as token eqn:Heq. clear form Heq.
  induction Hsess as [t access refresh exp Hi|t t1 form access refresh exp _ IH Hi].
  - by eapply issued_refresh.
  - destruct (String.eqb_spec (form "refresh_token") "") as [He|Hne].
    { unfold handleRefreshTokenGrant in Hi. by rewrite He in Hi. }
    rewrite (refresh_grant t t1 subject email name orgID) in Hi by done.
    destruct (_ <=? _); [done|]. by eapply issued_refresh.
Qed.

(** The other way round nothing is checked: the verifier of app tokens takes
    every kind, so an authorization code or a refresh token is a bearer token of
    the identity in it, with no verifier and no grant. *)
Lemma any_token_is_a_bearer `{!TokensLaws} now p token :
  SignToken p = inr token → (∀ t, P_ExpiresAt p = Some t → now < t) →
  VerifyAppToken now token = inr (app_claims p).
Proof. intros Hs Ht. unfold VerifyAppToken. by rewrite (Parse_valid p token now Hs Ht). Qed.
End oauth.

(** ** A task token in the flow *)

#[local] Instance Scope_eq_dec : EqDecision Scope.
Proof. solve_decision. Defined.
#[local] Instance Payload_eq_dec : EqDecision Payload.
Proof. solve_decision. Defined.

(** A key that signs four payloads, each as its place in the list. *)
Definition demo_auth : Auth := OAuth_New 0 0.
Definition task_payload : Payload :=
  app_payload (NewTaskTokenClaims 3 (AgentScopes (mkScopeOptions 7 []))).
Definition code_form : string → string := λ key,
  if String.eqb key "token" then "t0"
  else if String.eqb key "client_id" then "c" else if String.eqb key "redirect_uri" then "https://c"
  else if String.eqb key "code_challenge" then "dg" else if String.eqb key "response_type" then "code"
  else if String.eqb key "code_challenge_method" then "S256" else "".
Definition token_form : string → string := λ key,
  if String.eqb key "grant_type" then "authorization_code"
  else if String.eqb key "code" then "t1" else if String.eqb key "client_id" then "c"
  else if String.eqb key "redirect_uri" then "https://c"
  else if String.eqb key "code_verifier" then "v" else if String.eqb key "refresh_token" then "t3" else "".

Definition demo_payloads : list Payload :=
  [task_payload;
   code_payload (mkCodeClaims "" (Some (Time_Add 0 DefaultAuthCodeTTL)) "auth_code" "" "" 3 "c" "https://c" "dg");
   app_payload (mkClaims "" "" "" 3 Admin (Some (Time_Add 1 AppTokenTTL)));
   refresh_payload (mkRefreshClaims "" (Some (Time_Add 1 DefaultRefreshTokenTTL)) "refresh_token" "" "" 3)].

Definition demo_token (p : Payload) : option string :=
  (λ '(i, _), "t" +:+ FormatInt (Z.of_nat i)) <$> list_find (p =.) demo_payloads.

#[local] Instance demo_tokens : Tokens := {|
  SignToken := λ p, match demo_token p with Some t => inr t | None => inl (EOther "sign") end;
  ParseToken := λ now t,
    match list_find (λ p, demo_token p = Some t) demo_payloads with
    | Some (_, p) =>
        match P_ExpiresAt p with
        | Some e => if e <=? now then inl (EOther "expired") else inr p
        | None => inr p
        end
    | None => inl (EOther "malformed")
    end;
  NumericDate := λ t, t |}.

Lemma demo_token_inv p t : demo_token p = Some t → p ∈ demo_payloads.
Proof.
  unfold demo_token. intros ([i p'] & Hf & _)%fmap_Some. apply list_find_Some in Hf as (Hi & Hp & _).
  apply list_elem_of_lookup. exists i. by rewrite Hp.
Qed.

Lemma demo_payloads_found :
  Forall (λ p, snd <$> list_find (λ p', demo_token p' = demo_token p) demo_payloads = Some p)
    demo_payloads.
Proof. repeat (constructor; [vm_compute; reflexivity|]). constructor. Qed.

Lemma demo_find p t :
  demo_token p = Some t →
  ∃ i, list_find (λ p', demo_token p' = Some t) demo_payloads = Some (i, p).
Proof.
  intros E. pose proof demo_payloads_found as H. rewrite Forall_forall in H.
  specialize (H p (demo_token_inv _ _ E)). rewrite E in H.
  apply fmap_Some in H as ([i p'] & Hf & ->). by exists i.
Qed.

#[local] Instance demo_tokens_laws : TokensLaws.
Proof.
  split.
  - intros p token now Hs Ht. cbn [SignToken ParseToken demo_tokens] in *. destruct (demo_token p) as [t|] eqn:E; [|done].
    injection Hs as ->. destruct (demo_find _ _ E) as [i Hf]. rewrite Hf.
    destruct (P_ExpiresAt p) as [e|]; [|done]. destruct (Z.leb_spec e now); [|done].
    specialize (Ht e eq_refl). lia.
  - intros p token now t Hs Ht Hle. cbn [SignToken ParseToken demo_tokens] in *. destruct (demo_token p) as [t'|] eqn:E; [|done].
    injection Hs as ->. destruct (demo_find _ _ E) as [i Hf]. rewrite Hf, Ht.
    destruct (Z.leb_spec t now); [by eexists|lia].
  - intros p token Hs. cbn [SignToken demo_tokens] in Hs. destruct (demo_token p) as [t|] eqn:E; [|done].
    injection Hs as ->. unfold demo_token in E. by apply fmap_Some in E as ([i p'] & _ & ->).
Qed.

Definition demo_redirect (uri : string) (query : list (string * string)) : option string :=
  Some (uri +:+ "?" +:+ Join (map (λ kv, kv.1 +:+ "=" +:+ kv.2) query) "&").

(** The flow turns a task token, whose scopes are one agent's, into an access
    token that carries its org's admin scopes. *)
Lemma task_token_escalates :
  VerifyAppToken 0 "t0" = inr (NewTaskTokenClaims 3 (AgentScopes (mkScopeOptions 7 []))) ∧
  HandleAuthorize demo_auth demo_redirect 0 (mkForm "POST" (Some code_form)) =
    RedirectTo "https://c?code=t1" ∧
  OAuth_HandleToken demo_auth (λ s, s) 1 (mkForm "POST" (Some token_form)) = Issued "t2" "t3" 300 ∧
  VerifyAppToken 2 "t2" = inr (mkClaims "" "" "" 3 Admin (Some (Time_Add 1 AppTokenTTL))).
Proof. repeat split; vm_compute; reflexivity. Qed.

(** ** Witnesses *)

Lemma code_flow_witness :
  ∃ app, VerifyAppToken 0 "t0" = inr app ∧
    handleAuthCodeGrant demo_auth (λ s, s) 1 token_form =
      exchange_result demo_auth (λ s, s) 0 1 code_form token_form app.
Proof.
  assert (E : HandleAuthorize demo_auth demo_redirect 0 (mkForm "POST" (Some code_form)) =
    RedirectTo "https://c?code=t1") by (vm_compute; reflexivity).
  destruct (code_flow demo_auth (λ s, s) demo_redirect 0 code_form "https://c?code=t1" E) as (app & code & Hv & Hq & H).
  exists app. split; [exact Hv|]. apply (H 1 token_form); [|vm_compute; reflexivity].
  vm_compute in Hq. injection Hq as ->. reflexivity.
Defined.

Lemma token_kinds_separate_witness :
  ∃ msg, handleAuthCodeGrant demo_auth (λ s, s) 0
           (λ key, if String.eqb key "code" then "t0" else token_form key) = BadRequest msg.
Proof.
  assert (E : SignToken task_payload = inr "t0") by (vm_compute; reflexivity).
  destruct (token_kinds_separate demo_auth (λ s, s) 0
    (λ key, if String.eqb key "code" then "t0" else token_form key) "t0" task_payload E) as (H & _).
  apply H; [discriminate|reflexivity].
Defined.

Lemma session_renews_witness :
  handleRefreshTokenGrant demo_auth 2 token_form =
    (if Time_Add 1 DefaultRefreshTokenTTL <=? 2 then BadRequest "invalid refresh_token"
     else issueTokens demo_auth 2 "" "" "" 3) ∧
  handleRefreshTokenGrant demo_auth (Time_Add 1 DefaultRefreshTokenTTL) token_form =
    BadRequest "invalid refresh_token".
Proof.
  assert (Hs : session demo_auth "" "" "" 3 1 (token_form "refresh_token")).
  { eapply (session_start _ _ _ _ _ 1 "t2" "t3" 300). vm_compute. reflexivity. }
  split.
  - apply (session_renews demo_auth "" "" "" 3 1 2 token_form Hs). discriminate.
  - etransitivity; [apply (session_renews demo_auth "" "" "" 3 1 _ token_form Hs); discriminate|].
    vm_compute. reflexivity.
Defined.
