(* ===== verification/NotifyStream.v ===== *)
(** * The notification stream

    Models [internal/server/notifyserver] (the endpoint that forwards an org's
    notifications as server-sent events) and
    [internal/gritzclient/notificationclient.go] (the client that reads them),
    over the publisher of [PubSub] and the wire format of [Sse]. *)

From S2P Require Import Prelude AuthScope ScopeParse EventModel TaskModel Links Strconv PubSub.
From S2P Require Import ScheduleModel Rules Store StoreOps StoreLogic StoreAccounts ApiBase Timeline.
From S2P Require Import ShellServer ApiTask Evolution ApiAccounts AccountSpec ApiTaskSpec Pagination StorePages ApiEvents SignIn Sse.
From Stdlib Require Import Ascii.

(** [encoding/json] on a notification. *)
Class NotificationJSON := {
  Marshal_Notification : Notification → option string;
  Unmarshal_Notification : string → option Notification }.

(** The field [json] leaves out. *)
Definition visible (n : Notification) : Notification :=
  mkNotification (N_Type n) (N_Resources n) (N_Time n) (N_OrgID n) (N_UserID n) (N_ClientID n)
    (N_Runner n) (N_TaskStatus n) (N_ChannelMessage n) false.

(** The encoder writes on one line, and a notification whose strings are valid
    UTF-8 is read back. *)
Class NotificationJSONLaws `{NotificationJSON} (utf8 : Notification → Prop) := {
  Notification_one_line n data : Marshal_Notification n = Some data → one_line data = true;
  Notification_roundtrip n data : utf8 n → Marshal_Notification n = Some data →
    Unmarshal_Notification data = Some (visible n) }.

(** ** The publisher's side *)

(** The life of the stream's channel [c]: what is published to its org, what
    the stream takes from it, and what others do to theirs. *)
Inductive feed (orgID : Z) (c : nat) : LocalPubSub → list Notification → list Notification → LocalPubSub → Prop :=
| feed_done ps : feed orgID c ps [] [] ps
| feed_publish ps n ps1 pub recv ps2 :
    Publish n ps = Some ps1 → feed orgID c ps1 pub recv ps2 →
    feed orgID c ps (if N_OrgID n =? orgID then n :: pub else pub) recv ps2
| feed_receive ps n ps1 pub recv ps2 :
    receive c ps = (Some n, ps1) → feed orgID c ps1 pub recv ps2 → feed orgID c ps pub (n :: recv) ps2
| feed_subscribe ps o pub recv ps2 :
    feed orgID c (snd (Subscribe o ps)) pub recv ps2 → feed orgID c ps pub recv ps2
| feed_other_receive ps c' pub recv ps2 :
    c' ≠ c → feed orgID c (snd (receive c' ps)) pub recv ps2 → feed orgID c ps pub recv ps2
| feed_other_cancel ps o c' pub recv ps2 :
    c' ≠ c → (c' ∈ subs_of ps o ∨ (∃ ch, chans ps !! c' = Some ch ∧ chan_closed ch = true)) →
    feed orgID c (cancel o c' ps) pub recv ps2 → feed orgID c ps pub recv ps2.

(** The channel of the stream: open, subscribed, with a buffer. *)
Definition feeding (orgID : Z) (c : nat) (ps : LocalPubSub) (buf : list Notification) : Prop :=
  pubsub_inv ps ∧ c ∈ subs_of ps orgID ∧ chans ps !! c = Some (mkChan buf false).

Lemma feeding_publish orgID c ps buf n ps' :
  feeding orgID c ps buf → Publish n ps = Some ps' →
  feeding orgID c ps' (if (N_OrgID n =? orgID) && Nat.ltb (length buf) subscriberBufSize
                       then buf ++ [n] else buf).
Proof.
  intros (Hinv & Hc & Hch) Hp. split; [by eapply pubsub_inv_Publish|].
  destruct (Publish_inv_spec ps n Hinv) as (ps1 & Hp1 & Hs & _ & Hcs). rewrite Hp in Hp1. simplify_eq.
  split; [unfold subs_of in *; by rewrite Hs|]. rewrite Hcs, Hch.
  destruct (Z.eqb_spec (N_OrgID n) orgID) as [He|Hne].
  - rewrite bool_decide_eq_true_2 by (by rewrite He). unfold deliver. simpl. by case_match.
  - rewrite bool_decide_eq_false_2; [done|]. intros Hin. by destruct Hne; eapply inv_disjoint.
Qed.

Lemma feeding_subscribe orgID c ps buf o :
  feeding orgID c ps buf → feeding orgID c (snd (Subscribe o ps)) buf.
Proof.
  intros (Hinv & Hc & Hch). split; [by apply pubsub_inv_Subscribe|]. unfold Subscribe. cbn [snd].
  rewrite subs_of_insert. cbn [chans]. split; [case_decide; subst; set_solver|].
  assert (Hlt : (c < next_chan ps)%nat) by (apply Hinv; by rewrite Hch).
  rewrite lookup_insert_ne by lia. done.
Qed.

Lemma feeding_cancel orgID c ps buf o c' :
  c' ≠ c → (c' ∈ subs_of ps o ∨ (∃ ch, chans ps !! c' = Some ch ∧ chan_closed ch = true)) →
  feeding orgID c ps buf → feeding orgID c (cancel o c' ps) buf.
Proof.
  intros Hne Hwho (Hinv & Hc & Hch). split; [by apply pubsub_inv_cancel|]. unfold cancel.
  destruct (chans ps !! c') as [ch|]; [|done]. destruct (chan_closed ch); [done|].
  rewrite subs_of_insert. cbn [chans]. rewrite lookup_insert_ne by done. split; [|done].
  case_decide; subst; [|done]. apply list_elem_of_filter. done.
Qed.

Lemma feeding_other_receive orgID c ps buf c' :
  c' ≠ c → feeding orgID c ps buf → feeding orgID c (snd (receive c' ps)) buf.
Proof.
  intros Hne (Hinv & Hc & Hch). split; [by apply pubsub_inv_receive|]. unfold receive.
  destruct (chans ps !! c') as [[[|n rest] closed]|]; [done| |done].
  split; [done|]. cbn [snd chans]. by rewrite lookup_insert_ne.
Qed.

(** What the stream takes is what was published to its org, in that order, but
    for what found its buffer full. *)
Lemma feed_order orgID c ps pub recv ps2 :
  feed orgID c ps pub recv ps2 → ∀ buf, feeding orgID c ps buf →
  ∃ left, feeding orgID c ps2 left ∧ recv ++ left `sublist_of` buf ++ pub ∧
    ((length (buf ++ pub) ≤ subscriberBufSize)%nat → recv ++ left = buf ++ pub).
Proof.
  induction 1 as [ps|ps n ps1 pub recv ps2 Hp _ IH|ps n ps1 pub recv ps2 Hr _ IH|ps o pub recv ps2 _ IH
    |ps c' pub recv ps2 Hne _ IH|ps o c' pub recv ps2 Hne Hwho _ IH]; intros buf Hf.
  - exists buf. by rewrite app_nil_r.
  - destruct (IH _ (feeding_publish _ _ _ _ _ _ Hf Hp)) as (left & Hl & Hsub & Heq).
    exists left. split; [done|]. destruct (N_OrgID n =? orgID); [|done]. cbn [andb] in *.
    destruct (Nat.ltb_spec (length buf) subscriberBufSize).
    + rewrite <- app_assoc in Hsub, Heq. by split.
    + split; [|rewrite length_app; simpl; lia]. etrans; [exact Hsub|].
      apply sublist_app; [done|]. by apply sublist_cons.
  - destruct Hf as (Hinv & Hc & Hch). unfold receive in Hr. rewrite Hch in Hr.
    destruct buf as [|m rest]; [done|]. injection Hr as -> Hps.
    assert (Hf' : feeding orgID c ps1 rest).
    { subst ps1. split; [|split; [done|cbn [chans]; by rewrite lookup_insert_eq]].
      pose proof (pubsub_inv_receive ps c Hinv) as Hi. unfold receive in Hi. by rewrite Hch in Hi. }
    destruct (IH _ Hf') as (left & Hl & Hsub & Heq). exists left. split; [done|].
    split; [by apply sublist_skip|]. simpl. intros Hlen. f_equal. apply Heq. lia.
  - by apply IH, feeding_subscribe.
  - by apply IH, feeding_other_receive.
  - by apply IH, feeding_cancel.
Qed.

Lemma feeding_new ps orgID :
  pubsub_inv ps → feeding orgID (fst (Subscribe orgID ps)) (snd (Subscribe orgID ps)) [].
Proof.
  intros Hinv. split; [by apply pubsub_inv_Subscribe|]. unfold Subscribe. cbn [fst snd].
  rewrite subs_of_insert, decide_True by done. cbn [chans]. rewrite lookup_insert_eq. set_solver.
Qed.

Section stream.
Context {NJ : NotificationJSON}.

(** ** The server's side *)

(** What the loop of [handleSSE] selects, until the request's context is done.
    After that it may still read a zero notification from its channel, which is
    closed by then, and write it to a client that is gone: left out. *)
Inductive StreamInput :=
| KeepAlive
| Incoming (n : Notification).

(** A write of the response: whole, or up to the byte at which it failed. *)
Definition send (ev : SseEvent) (fault : option nat) : string * bool :=
  match fault with
  | None => (Sse_Write ev, true)
  | Some k => (String.substring 0 k (Sse_Write ev), false)
  end.

Definition keepalive_event : SseEvent := mkSse "" "keepalive" "" "".

Definition change_event (seq : Z) (n : Notification) (data : string) : SseEvent :=
  mkSse (FormatInt seq) (N_Type n) "" data.

(** [runner] is the query's filter, [seq] the last sequence number. *)
Fixpoint stream_loop (runner : string) (seq : Z) (inputs : list (StreamInput * option nat)) : string :=
  match inputs with
  | [] => ""
  | (KeepAlive, fault) :: inputs =>
      let '(out, ok) := send keepalive_event fault in
      if ok : bool then out +:+ stream_loop runner seq inputs else out
  | (Incoming n, fault) :: inputs =>
      if negb (String.eqb runner "") && negb (String.eqb (N_Runner n) runner)
      then stream_loop runner seq inputs
      else
        let seq := wrap64 (seq + 1) in
        match Marshal_Notification n with
        | None => stream_loop runner seq inputs
        | Some data =>
            let '(out, ok) := send (change_event seq n data) fault in
            if ok : bool then out +:+ stream_loop runner seq inputs else out
        end
  end.

(** The zero [time.Time], in microseconds of Unix time. *)
Definition zero_time : Z := -62135596800 * 10 ^ 6.

Definition ready_notification (orgID : Z) : Notification :=
  mkNotification "ready" [] zero_time orgID "" "" "" TaskStatusUnspecified "" false.

Definition ready_event (data : string) : SseEvent := mkSse (FormatInt 0) "ready" "" data.

(** The body of a stream, from the ready event on. *)
Definition stream_body (orgID : Z) (runner : string) (ready_fault : option nat)
    (inputs : list (StreamInput * option nat)) : string :=
  match Marshal_Notification (ready_notification orgID) with
  | None => ""
  | Some data =>
      let '(out, ok) := send (ready_event data) ready_fault in
      if ok : bool then out +:+ stream_loop runner 0 inputs else out
  end.

(** A refusal, or the org subscribed to and the runner filtered by. *)
Inductive StreamStart :=
| StreamRefused (resp : Response)
| StreamOf (orgID : Z) (runner : string).

(** [handleSSE] up to its subscription: [subscribed] and [flusher] say whether
    the publisher takes the subscription and the response can be flushed. *)
Definition handleSSE (subscribed flusher : bool) (caller : option UserInfo) (r : HttpRequest)
    : M StreamStart :=
  match caller with
  | None => mret (StreamRefused (HttpError StatusUnauthorized "authentication required"))
  | Some caller =>
      let start orgID :=
        if negb subscribed
        then StreamRefused (HttpError StatusInternalServerError "subscribe failed")
        else if negb flusher
        then StreamRefused (HttpError StatusInternalServerError "streaming not supported")
        else StreamOf orgID (Req_Query r "runner") in
      if String.eqb (User_Type caller) AuthTypeCookie then
        match ParseInt (Req_Query r "org_id") with
        | None => mret (StreamRefused (HttpError StatusBadRequest "invalid org_id"))
        | Some orgID =>
            res ← catch (ResolveOrg (User_ID caller) orgID);
            match res with
            | inl _ => mret (StreamRefused (HttpError StatusForbidden "forbidden"))
            | inr orgID => mret (start orgID)
            end
        end
      else mret (start (User_OrgID caller))
  end.

(** ** The client's side *)

Inductive ConnectEnd := Disconnected | ReadFailed.

(** The loop of [connect] over what arrives before the stream ends: the
    notifications handed to the handler, in order. *)
Fixpoint connect_loop (fuel : nat) (clientID s : string) : option (list Notification * ConnectEnd) :=
  match fuel with
  | O => None
  | S fuel =>
      match Sse_Read s with
      | ReadError => Some ([], ReadFailed)
      | ReadEvent ev rest =>
          if String.eqb (Sse_Event ev) "" then Some ([], Disconnected)
          else if String.eqb (Sse_Event ev) "keepalive" then connect_loop fuel clientID rest
          else
            match Unmarshal_Notification (Sse_Data ev) with
            | None => connect_loop fuel clientID rest
            | Some n =>
                if negb (String.eqb clientID "") && String.eqb (N_ClientID n) clientID
                then connect_loop fuel clientID rest
                else '(handled, fin) ← connect_loop fuel clientID rest; Some (n :: handled, fin)
            end
      end
  end.

(** [connect] on an accepted response with body [s]. *)
Definition connect (clientID s : string) : option (list Notification * ConnectEnd) :=
  connect_loop (S (String.length s)) clientID s.

(** [Run]: what is handled over the connections it makes, of which those that
    are refused or fail to dial are [None]. *)
Definition NotificationClient_Run (clientID : string) (conns : list (option string)) : list Notification :=
  concat ((λ conn, from_option (λ s, from_option fst [] (connect clientID s)) [] conn) <$> conns).

(** ** The client reads what the server writes *)

Lemma connect_loop_total fuel clientID : ∀ s,
  (String.length s < fuel)%nat → is_Some (connect_loop fuel clientID s).
Proof.
  induction fuel as [|fuel IH]; intros s Hlt; [lia|]. cbn [connect_loop].
  destruct (Sse_Read s) as [ev rest|] eqn:Hr; [|by eexists].
  assert (Hrest : String.eqb (Sse_Event ev) "" = false → is_Some (connect_loop fuel clientID rest)).
  { intros Hne. apply IH. apply read_from_consumes in Hr as H. destruct H as [[-> ->]|?]; [|lia].
    injection Hr as <-. done. }
  destruct (String.eqb (Sse_Event ev) ""); [by eexists|]. specialize (Hrest eq_refl).
  destruct (String.eqb _ "keepalive"); [done|].
  destruct (Unmarshal_Notification _); [|done]. destruct (negb _ && _); [done|].
  destruct Hrest as [[handled fin] ->]. by eexists.
Qed.

Lemma connect_loop_fuel fuel fuel' clientID : ∀ s res,
  connect_loop fuel clientID s = Some res → (fuel ≤ fuel')%nat → connect_loop fuel' clientID s = Some res.
Proof.
  revert fuel'. induction fuel as [|fuel IH]; intros fuel' s res Hrun Hle; [done|].
  destruct fuel' as [|fuel']; [lia|]. cbn [connect_loop] in *.
  repeat case_match; try done; eauto with lia.
  destruct (connect_loop fuel clientID rest) as [[handled fin]|] eqn:Hr; [|done].
  by rewrite (IH fuel' _ _ Hr) by lia.
Qed.

(** More fuel changes nothing. *)
Lemma connect_enough fuel clientID s :
  (String.length s < fuel)%nat → connect_loop fuel clientID s = connect clientID s.
Proof.
  intros Hlt. unfold connect. destruct (connect_loop_total (S (String.length s)) clientID s) as [res Hres]; [lia|].
  rewrite Hres. apply (connect_loop_fuel (S (String.length s))); [done|lia].
Qed.

(** Whether the client hands a notification on. *)
Definition handed_on (clientID : string) (n : Notification) : bool :=
  String.eqb clientID "" || negb (String.eqb (N_ClientID n) clientID).

(** What a whole event at the head of the stream makes of the rest. *)
Definition on_event (clientID : string) (ev : SseEvent) (rest : option (list Notification * ConnectEnd)) :=
  if String.eqb (Sse_Event ev) "" then Some ([], Disconnected)
  else if String.eqb (Sse_Event ev) "keepalive" then rest
  else match Unmarshal_Notification (Sse_Data ev) with
       | Some n => if handed_on clientID n
                   then '(handled, fin) ← rest; Some (n :: handled, fin) else rest
       | None => rest
       end.

Lemma connect_event clientID ev rest :
  wire_ok ev → absent LF (Sse_Data ev) = true →
  connect clientID (Sse_Write ev +:+ rest) = on_event clientID ev (connect clientID rest).
Proof.
  intros Hok Ha. unfold connect at 1. cbn [connect_loop]. rewrite sse_roundtrip_line by done.
  assert (Hlen : (String.length rest < String.length (Sse_Write ev +:+ rest))%nat).
  { rewrite length_str_app, Sse_Write_fields, length_str_app. simpl. lia. }
  rewrite (connect_enough _ clientID rest Hlen). unfold on_event, handed_on.
  destruct (String.eqb clientID "") eqn:E; [done|]. cbn [negb andb orb].
  repeat case_match; simplify_eq/=; try done; by rewrite ?H1 in *.
Qed.

Lemma connect_nothing clientID s : Sse_Read s = ReadEvent no_event "" → connect clientID s = Some ([], Disconnected).
Proof. intros H. unfold connect. cbn [connect_loop]. by rewrite H. Qed.

(** ** What arrives, and in what order *)

Context {utf8 : Notification → Prop} {NJL : NotificationJSONLaws utf8}.

(** A notification the stream carries: of one of the types the server gives its
    notifications, in valid UTF-8, and with an encoding that fits a line of the
    client's scanner. *)
Definition carried (n : Notification) : Prop :=
  N_Type n ∈ ["ready"; "change"] ∧ utf8 n ∧
  ∃ data, Marshal_Notification n = Some data ∧ fits "data" data.

(** Whether the endpoint forwards it. *)
Definition forwarded (runner : string) (n : Notification) : bool :=
  String.eqb runner "" || String.eqb (N_Runner n) runner.

Definition incoming (inputs : list StreamInput) : list Notification :=
  omap (λ i, match i with Incoming n => Some n | KeepAlive => None end) inputs.

Definition no_fault (inputs : list StreamInput) : list (StreamInput * option nat) :=
  (λ i, (i, None)) <$> inputs.

(** What a client with a filter makes of a list of notifications. *)
Definition expected (runner clientID : string) (ns : list Notification) : list Notification :=
  visible <$> filter (λ n, forwarded runner n && handed_on clientID n = true) ns.

Lemma change_event_ok seq n data :
  carried n → is_int64 seq = true → Marshal_Notification n = Some data →
  wire_ok (change_event seq n data) ∧ absent LF data = true.
Proof using NJL.
  intros (Ht & _ & d & Hd & Hfit) Hseq Hm. rewrite Hm in Hd. injection Hd as <-.
  pose proof (Notification_one_line n data Hm) as Hone. pose proof Hone as [Ha _]%andb_true_iff.
  split; [|done]. destruct (FormatInt_on_line seq Hseq) as [Hi Hl].
  assert (Hif : fits "id" (FormatInt seq)) by (unfold fits, MaxScanTokenSize; simpl String.length; lia).
  assert (Htype : one_line (N_Type n) = true ∧ fits "event" (N_Type n)).
  { apply elem_of_cons in Ht as [->|Ht%list_elem_of_singleton]; [done|by rewrite Ht]. }
  repeat split; try done; try apply Htype. simpl. destruct data as [|c data]; [constructor|].
  rewrite Lines_one by done. repeat constructor; [|done].
  apply andb_true_iff in Hone as [_ Hone]. by apply String.eqb_eq.
Qed.

Lemma on_change clientID seq n data rest :
  carried n → Marshal_Notification n = Some data →
  on_event clientID (change_event seq n data) rest =
    if handed_on clientID n then '(handled, fin) ← rest; Some (visible n :: handled, fin) else rest.
Proof using NJL.
  intros (Ht & Hu & _) Hm. unfold on_event, change_event. cbn [Sse_Event Sse_Data].
  rewrite (Notification_roundtrip n data Hu Hm). unfold handed_on. cbn [visible N_ClientID].
  apply elem_of_cons in Ht as [->|Ht%list_elem_of_singleton]; [done|by rewrite Ht].
Qed.

Lemma keepalive_ok : wire_ok keepalive_event.
Proof. repeat split; try done; constructor. Qed.

(** A whole event at the head of what arrived, or a part of it. *)
Lemma connect_head clientID ev rest p t :
  wire_ok ev → absent LF (Sse_Data ev) = true → p +:+ t = Sse_Write ev +:+ rest →
  (∃ d, p = Sse_Write ev +:+ d ∧ rest = d +:+ t ∧
        connect clientID p = on_event clientID ev (connect clientID d)) ∨
  (t ≠ "" ∧ connect clientID p = Some ([], Disconnected)).
Proof.
  intros Hok Ha Heq. apply str_app_cases in Heq as [(d & -> & ->)|(d & Hd & Hw & ->)].
  - left. exists d. split; [done|]. split; [done|]. by apply connect_event.
  - right. split; [by destruct d|]. apply connect_nothing. by apply (Sse_Read_cut ev p d).
Qed.

(** What the client has made of the part [p] of a stream of which [t] is still
    missing. *)
Definition got (clientID p t : string) (ns : list Notification) : Prop :=
  ∃ handled, connect clientID p = Some (handled, Disconnected) ∧
    handled `prefix_of` ns ∧ (t = "" → handled = ns).

Lemma got_loop runner clientID inputs : ∀ seq p t,
  Forall carried (filter (λ n, forwarded runner n = true) (incoming inputs)) → is_int64 seq = true →
  p +:+ t = stream_loop runner seq (no_fault inputs) →
  got clientID p t (expected runner clientID (incoming inputs)).
Proof using NJL.
  unfold expected. induction inputs as [|[|n] inputs IH]; intros seq p t Hall Hseq Heq.
  - destruct p as [|? p]; [|done]. exists []. by split; [|split; [apply prefix_nil|]].
  - cbn -[String.append] in Heq. destruct (connect_head clientID keepalive_event _ p t keepalive_ok eq_refl Heq)
      as [(d & -> & Hd & Hc)|[Ht Hc]].
    + destruct (IH seq d t Hall Hseq (eq_sym Hd)) as (handled & Hrun & Hh).
      exists handled. split; [by rewrite Hc|done].
    + exists []. split; [done|]. split; [apply prefix_nil|done].
  - cbn -[String.append filter wrap64] in Heq, Hall |- *. rewrite filter_cons in Hall |- *.
    fold (no_fault inputs) in Heq.
    assert (Hneg : negb (String.eqb runner "") && negb (String.eqb (N_Runner n) runner) = negb (forwarded runner n)).
    { unfold forwarded. by rewrite negb_orb. }
    rewrite Hneg in Heq. destruct (forwarded runner n) eqn:Hf; cbn [negb andb] in *; cycle 1.
    { rewrite decide_False in Hall |- * by done. by apply (IH seq). }
    rewrite decide_True in Hall by done. apply Forall_cons in Hall as [Hn Hall].
    pose proof (wrap64_range (seq + 1)) as Hseq'.
    destruct (Marshal_Notification n) as [data|] eqn:Hm; cycle 1.
    { destruct Hn as (_ & _ & ? & Hn & _). by rewrite Hm in Hn. }
    destruct (change_event_ok (wrap64 (seq + 1)) n data Hn Hseq' Hm) as [Hok Ha].
    simpl in Heq. destruct (connect_head clientID _ _ p t Hok Ha Heq) as [(d & -> & Hd & Hc)|[Ht Hc]].
    + destruct (IH _ d t Hall Hseq' (eq_sym Hd)) as (handled & Hrun & Hpre & Hall').
      rewrite on_change, Hrun in Hc by done. cbn [andb].
      destruct (handed_on clientID n) eqn:Hh; cbn [mbind option_bind] in Hc.
      * exists (visible n :: handled). rewrite decide_True, fmap_cons by done. split; [done|].
        split; [by apply prefix_cons|]. intros Ht. by rewrite Hall'.
      * exists handled. rewrite decide_False by done. done.
    + exists []. split; [done|]. split; [apply prefix_nil|done].
Qed.

Lemma got_body orgID runner clientID inputs p t :
  carried (ready_notification orgID) →
  Forall carried (filter (λ n, forwarded runner n = true) (incoming inputs)) →
  p +:+ t = stream_body orgID runner None (no_fault inputs) →
  got clientID p t (ready_notification orgID :: expected runner clientID (incoming inputs)).
Proof using NJL.
  intros Hready Hall Heq. unfold stream_body in Heq. pose proof Hready as (_ & _ & data & Hm & _).
  rewrite Hm in Heq. destruct (change_event_ok 0 _ data Hready eq_refl Hm) as [Hok Ha].
  change (change_event 0 (ready_notification orgID) data) with (ready_event data) in Hok.
  destruct (connect_head clientID _ _ p t Hok Ha Heq) as [(d & -> & Hd & Hc)|[Ht Hc]].
  - destruct (got_loop runner clientID inputs 0 d t Hall eq_refl (eq_sym Hd)) as (handled & Hrun & Hpre & Hfull).
    exists (ready_notification orgID :: handled).
    change (ready_event data) with (change_event 0 (ready_notification orgID) data) in Hc.
    rewrite on_change, Hrun in Hc by done.
    assert (Hh : handed_on clientID (ready_notification orgID) = true).
    { unfold handed_on. simpl. by destruct clientID. }
    rewrite Hh in Hc. split; [exact Hc|]. split; [by apply prefix_cons|]. intros Ht. by rewrite Hfull.
  - exists []. split; [done|]. split; [apply prefix_nil|done].
Qed.

(** A write that fails leaves a part of the stream without it. *)
Lemma str_take_drop k (s : string) : ∃ t, String.substring 0 k s +:+ t = s.
Proof.
  revert k. induction s as [|c s IH]; intros [|k]; simpl; try by eexists.
  destruct (IH k) as [t Ht]. exists t. change (String c (String.substring 0 k s) +:+ t) with
    (String c (String.substring 0 k s +:+ t)). by rewrite Ht.
Qed.

Lemma faulted_loop runner (inputs : list (StreamInput * option nat)) : ∀ seq,
  ∃ t, stream_loop runner seq inputs +:+ t = stream_loop runner seq (no_fault inputs.*1).
Proof.
  assert (Hsend : ∀ ev fault (rest whole : string), (∃ t, rest +:+ t = whole) →
    ∃ t, (let '(out, ok) := send ev fault in if ok : bool then out +:+ rest else out) +:+ t =
         Sse_Write ev +:+ whole).
  { intros ev fault rest whole [t Ht]. destruct fault as [k|]; cbn [send].
    - destruct (str_take_drop k (Sse_Write ev)) as [t' Ht']. exists (t' +:+ whole).
      by rewrite <- str_app_assoc, Ht'.
    - exists t. by rewrite str_app_assoc, Ht. }
  induction inputs as [|[[|n] fault] inputs IH]; intros seq; [by exists ""| |].
  - cbn -[String.append send]. apply Hsend. apply IH.
  - cbn -[String.append send wrap64]. destruct (negb _ && _); [apply IH|].
    destruct (Marshal_Notification n); [|apply IH]. apply Hsend. apply IH.
Qed.

Lemma faulted_body orgID runner ready_fault (inputs : list (StreamInput * option nat)) :
  ∃ t, stream_body orgID runner ready_fault inputs +:+ t =
       stream_body orgID runner None (no_fault inputs.*1).
Proof.
  unfold stream_body. destruct (Marshal_Notification _) as [data|]; [|by exists ""].
  destruct (faulted_loop runner inputs 0) as [t Ht]. destruct ready_fault as [k|]; cbn [send].
  - destruct (str_take_drop k (Sse_Write (ready_event data))) as [t' Ht'].
    exists (t' +:+ stream_loop runner 0 (no_fault inputs.*1)). by rewrite <- str_app_assoc, Ht'.
  - exists t. by rewrite str_app_assoc, Ht.
Qed.

(** C16: end to end, from the publisher to the client's handler, over a stream
    that may break off at any byte: the handler is given the ready notification
    and then, in order and each once, the notifications that were published to
    the org since the subscription, that pass the runner filter and that did not
    originate from the client itself; when no more were published than the
    buffer holds and the stream is read to its end, it is given all of them.  This
    is so as long as every published notification can be carried: it is valid UTF-8
    and its encoding fits the 64 KiB line that the client's scanner takes. *)
Theorem stream_delivers (ps : LocalPubSub) (orgID : Z) (runner clientID : string)
    (inputs : list StreamInput) (pub : list Notification) (ps2 : LocalPubSub) (p t : string) :
  let c := fst (Subscribe orgID ps) in
  rtc pubsub_step NewLocalPubSub ps →
  feed orgID c (snd (Subscribe orgID ps)) pub (incoming inputs) ps2 →
  carried (ready_notification orgID) → Forall carried pub →
  p +:+ t = stream_body orgID runner None (no_fault inputs) →
  ∃ handled, connect clientID p = Some (handled, Disconnected) ∧
    (∃ pub', pub' `sublist_of` pub ∧
      handled `prefix_of` ready_notification orgID :: expected runner clientID pub') ∧
    ((length pub ≤ subscriberBufSize)%nat → chans ps2 !! c = Some (mkChan [] false) → t = "" →
      handled = ready_notification orgID :: expected runner clientID pub).
Proof using NJL.
  intros c Hreach Hfeed Hready Hall Heq. apply pubsub_reachable_inv in Hreach as Hinv.
  destruct (feed_order _ _ _ _ _ _ Hfeed [] (feeding_new ps orgID Hinv)) as (left & Hl & Hsub & Hexact).
  assert (Hin : incoming inputs `sublist_of` pub).
  { etrans; [|exact Hsub]. by apply sublist_inserts_r. }
  destruct (got_body orgID runner clientID inputs p t Hready) as (handled & Hrun & Hpre & Hfull); [|done|].
  { apply Forall_forall. intros n [_ Hn]%list_elem_of_filter. rewrite Forall_forall in Hall.
    apply Hall. by eapply elem_of_sublist. }
  exists handled. split; [done|]. split; [by exists (incoming inputs)|].
  intros Hlen Hdrained Ht. rewrite Hfull by done. do 2 f_equal.
  destruct Hl as (_ & _ & Hl). fold c in Hl. rewrite Hdrained in Hl. injection Hl as <-.
  simpl in Hexact. rewrite app_nil_r in Hexact. by apply Hexact.
Qed.

End stream.

(** A codec of the notifications below. *)
Definition sample_change : Notification :=
  mkNotification "change" [] 5 4 "u" "other" "" TaskStatusUnspecified "" false.

#[local] Instance sample_notification_json : NotificationJSON := {|
  Marshal_Notification n := Some (if String.eqb (N_Type n) "ready" then "r" else "c");
  Unmarshal_Notification data :=
    if String.eqb data "r" then Some (ready_notification 4)
    else if String.eqb data "c" then Some sample_change else None |}.

Definition sample_utf8 (n : Notification) : Prop := n = ready_notification 4 ∨ n = sample_change.

#[local] Instance sample_notification_laws : NotificationJSONLaws sample_utf8.
Proof.
  split.
  - intros n data [= <-]. by case_match.
  - intros n data [->| ->] [= <-]; reflexivity.
Qed.

Lemma stream_delivers_witness :
  let c := fst (Subscribe 4 NewLocalPubSub) in
  let p := stream_body 4 "" None (no_fault [KeepAlive; Incoming sample_change]) in
  ∃ handled, connect "mine" p = Some (handled, Disconnected) ∧
    (∃ pub', pub' `sublist_of` [sample_change] ∧
      handled `prefix_of` ready_notification 4 :: expected "" "mine" pub') ∧
    ((length [sample_change] ≤ subscriberBufSize)%nat →
      chans (mkPubSub {[4 := [c]]} {[c := mkChan [] false]} 1) !! c = Some (mkChan [] false) → "" = "" →
      handled = ready_notification 4 :: expected "" "mine" [sample_change]).
Proof.
  intros c p.
  apply (stream_delivers (utf8 := sample_utf8) NewLocalPubSub 4 "" "mine"
    [KeepAlive; Incoming sample_change] [sample_change] _ p "").
  - apply rtc_refl.
  - apply (feed_publish 4 c _ sample_change (mkPubSub {[4 := [c]]} {[c := mkChan [sample_change] false]} 1) []).
    { vm_compute. reflexivity. }
    apply (feed_receive 4 c _ sample_change (mkPubSub {[4 := [c]]} {[c := mkChan [] false]} 1)).
    { vm_compute. reflexivity. }
    apply feed_done.
  - split; [vm_compute; tauto || (left; done)|]. split; [by left|]. exists "r". done.
  - constructor; [|constructor]. split; [vm_compute; right; left|]. split; [by right|]. exists "c". done.
  - apply str_app_nil_r.
Defined.

(** ** Whose stream it is *)

(** Opening a stream changes nothing, and the org it is opened on is the one
    the bearer's credential names, or, for a caller of the cookie session, the
    org asked for, of which that user is a member. *)
Theorem stream_only_for_members (subscribed flusher : bool) (caller : option UserInfo)
    (r : HttpRequest) (w : World) (orgID : Z) (runner : string) :
  world_ok w →
  fst (handleSSE subscribed flusher caller r w) = inr (StreamOf orgID runner) →
  committed (snd (handleSSE subscribed flusher caller r w)) = committed w ∧
  ∃ user, caller = Some user ∧ runner = Req_Query r "runner" ∧
    if String.eqb (User_Type user) AuthTypeCookie
    then ∃ asked, ParseInt (Req_Query r "org_id") = Some asked ∧
           ResolveOrg_ok (User_ID user) asked (committed w) orgID
    else orgID = User_OrgID user.
Proof.
  intros Hw Hrun.
  assert (Hwp : wp (handleSSE subscribed flusher caller r) (λ res w', at_ w (committed w) [] w' ∧
    (res = inr (StreamOf orgID runner) → ∃ user, caller = Some user ∧ runner = Req_Query r "runner" ∧
      if String.eqb (User_Type user) AuthTypeCookie
      then ∃ asked, ParseInt (Req_Query r "org_id") = Some asked ∧
             ResolveOrg_ok (User_ID user) asked (committed w) orgID
      else orgID = User_OrgID user)) w).
  { pose proof (at_refl w Hw) as Hat. unfold handleSSE. destruct caller as [user|]; [|done].
    destruct (String.eqb (User_Type user) AuthTypeCookie) eqn:Hc.
    - destruct (ParseInt _) as [asked|] eqn:Hp; [|done]. apply wp_bind, wp_catch.
      eapply wp_mono; [by apply ResolveOrg_spec|]. intros [e|org] w' [Hat' Hr]; [done|].
      split; [done|]. destruct subscribed, flusher; simpl; try done. intros [= -> <-].
      exists user. rewrite Hc. eauto.
    - split; [done|]. destruct subscribed, flusher; simpl; try done. intros [= <- <-].
      exists user. by rewrite Hc. }
  unfold wp in Hwp. destruct (handleSSE _ _ _ _ w) as [res w']. simpl in *. destruct Hwp as [Hat H].
  split; [by eapply at_committed|by apply H].
Qed.

Lemma stream_only_for_members_witness :
  let user := mkUser "u2" "" "" 0 AuthTypeCookie "tab" Admin in
  let r := mkHttpRequest "GET" "" "" (λ k, if String.eqb k "org_id" then "3" else "") None in
  fst (handleSSE true true (Some user) r team_world) = inr (StreamOf 3 "") ∧
  is_org_member team 3 "u2" = true.
Proof.
  intros user r.
  assert (E : fst (handleSSE true true (Some user) r team_world) = inr (StreamOf 3 "")) by (vm_compute; reflexivity).
  split; [exact E|].
  destruct (stream_only_for_members true true (Some user) r team_world 3 "" team_ok E)
    as (_ & u & [= <-] & _ & H).
  simpl in H. destruct H as (asked & _ & _ & _ & Hm). exact Hm.
Defined.
