(* ===== verification/EventRouter.v ===== *)
(** * The event router

    Models [internal/server/eventrouter/eventrouter.go]: planning (the first
    matching eligible rule of each org), applying a plan (waking the tasks
    subscribed to the event's URL in the rule's namespace, or creating one), and
    routing, which is the two together.  The outcomes handed to
    [OnRouteOutcome] are part of [Route]'s result; [Meta] is opaque and left
    out. *)

From S2P Require Import Prelude AuthScope EventModel TaskModel Links PubSub ScheduleModel Rules.
From S2P Require Import Store StoreOps StoreLogic ApiBase Timeline ShellServer ApiTask.
From S2P Require Import ApiTaskSpec Evolution.

(** ** Planning *)

Record RouteMatch := mkMatch {
  RM_OrgID : Z; RM_Rule : RoutingRule; RM_RuleIndex : nat }.

(** The inner loop of [Plan], from rule [i] on. *)
Fixpoint first_match (isMember : bool) (input : InputEvent) (i : nat) (rules : list RoutingRule)
    : option (RoutingRule * nat) :=
  match rules with
  | [] => None
  | rule :: rest =>
      if negb isMember && negb (Rule_Public rule) then first_match isMember input (S i) rest
      else if Match rule input then Some (rule, i)
      else first_match isMember input (S i) rest
  end.

Definition plan_org (input : InputEvent) (org : OrgRoutingRules) : option RouteMatch :=
  match first_match (OR_IsMember org) input 0 (OR_Rules org) with
  | Some (rule, i) => Some (mkMatch (OR_OrgID org) rule i)
  | None => None
  end.

Definition Plan (input : InputEvent) : M (list RouteMatch) :=
  orgs ← ListRoutingRulesForEvent NoTx (Input_UserID input) (Input_Orgs input);
  mret (omap (plan_org input) orgs).

(** ** Attaching *)

Definition external_payload (input : InputEvent) : EventPayload :=
  External (mkExternal (Input_Description input) (Input_URL input) (Input_Data input)
    (Input_Details input) (Input_Source input) (Input_Type input)).

Definition external_event (taskID orgID : Z) (wake : bool) (input : InputEvent) : Event :=
  newEvent taskID orgID wake (external_payload input).

Definition attach_resources (taskID eventID : Z) : list NotificationResource :=
  [mkResource "updated" "task" taskID; mkResource "updated" "event" eventID;
   mkResource "appended" "task_events" taskID].

Definition attached_message (taskID : Z) (input : InputEvent) : string :=
  "Task " +:+ FormatInt taskID +:+ ": " +:+ Input_Description input +:+ " (" +:+ Input_URL input
    +:+ ")".

Definition woken_message (taskID eventID : Z) (input : InputEvent) : string :=
  "Task " +:+ FormatInt taskID +:+ " woken by event " +:+ FormatInt eventID +:+ ": "
    +:+ Input_Description input +:+ " (" +:+ Input_URL input +:+ ")".

(** A notification with no user behind it. *)
Definition router_notification (orgID now : Z) (resources : list NotificationResource)
    (runner message : string) : Notification :=
  mkNotification "change" resources now orgID "" "" runner TaskStatusUnspecified message false.

Definition attach (taskID : Z) (input : InputEvent) (orgID : Z) (wake : bool) : M Event :=
  now ← time_Now;
  r ← WithTx NoTx (λ tx,
    event ← CreateEvent tx (external_event taskID orgID wake input);
    if negb wake then
      Commit tx ;;
      mret (event, router_notification orgID now (attach_resources taskID (Event_ID event)) ""
                     (attached_message taskID input))
    else
      task ← GetTaskForUpdate tx taskID orgID;
      let wasDone := IsDone task in
      let (_, task') := Start task in
      UpdateTask tx task' ;;
      Commit tx ;;
      mret (event, router_notification orgID now (attach_resources (Task_ID task') (Event_ID event))
                     (PendingRunner task')
                     (if wasDone then woken_message (Task_ID task') (Event_ID event) input else "")));
  publish (snd r) ;;
  mret (fst r).

(** ** Creating *)

Definition default_prompt (input : InputEvent) : string :=
  "You were created by a routing rule in response to a " +:+ Input_Source input +:+ " "
    +:+ Input_Type input +:+ " event.".

Definition rule_prompt (input : InputEvent) (action : CreateTaskAction) : string :=
  if String.eqb (Create_Prompt action) "" then default_prompt input else Create_Prompt action.

Definition rule_task (orgID : Z) (rule : RoutingRule) (action : CreateTaskAction) : Task :=
  mkTask 0 "" (Create_Runner action) (Create_Workspace action) TaskStatusPending TaskCommandStart 1
    orgID false 0 0 (Rule_Namespace rule) (Create_AutoArchive action) "".

Definition created_event (task : Task) : Event :=
  newEvent (Task_ID task) (Task_OrgID task) false
    (Lifecycle (mkLifecycle LifecycleKindCreated RouterActor "" (Label (Task_Status task)) "" [])).

Definition prompt_event (task : Task) (orgID : Z) (prompt : string) : Event :=
  newEvent (Task_ID task) orgID true (Instruction (mkInstruction prompt "")).

Definition created_by_rule_message (taskID : Z) (input : InputEvent) : string :=
  "Task " +:+ FormatInt taskID +:+ " created by routing rule for event: "
    +:+ Input_Description input +:+ " (" +:+ Input_URL input +:+ ")".

Record RouteOutcome := mkOutcome {
  RO_Input : InputEvent; RO_OrgID : Z; RO_Rule : option RoutingRule;
  RO_TaskIDs : list Z; RO_EventIDs : list Z; RO_Created : bool }.

(** The zero [RouteOutcome]. *)
Definition zero_outcome : RouteOutcome :=
  mkOutcome (mkInput "" "" "" "" "" "" [] ∅ ∅) 0 None [] [] false.

Section router.
Context (url_Parse : string → option Url).

Definition trigger_link (taskID now : Z) (input : InputEvent) : Link :=
  mkLink 0 taskID "trigger" (Input_URL input) (RoutingKey url_Parse (Input_URL input)) "" true
    now "".

Definition create (input : InputEvent) (orgID : Z) (rule : RoutingRule)
    (action : CreateTaskAction) : M (Task * Event) :=
  r ← WithTx NoTx (λ tx,
    task ← CreateTask tx (rule_task orgID rule action);
    external ← CreateEvent tx (external_event (Task_ID task) orgID false input);
    CreateEvent tx (created_event task) ;;
    now ← time_Now;
    link ← CreateLink tx (trigger_link (Task_ID task) now input);
    CreateEvent tx (newEvent (Task_ID task) orgID false (Link_EventPayload link)) ;;
    CreateEvent tx (prompt_event task orgID (rule_prompt input action)) ;;
    Commit tx ;;
    mret (task, external,
      router_notification orgID now (task_resources "created" (Task_ID task))
        (PendingRunner task) (created_by_rule_message (Task_ID task) input)));
  publish (snd r) ;;
  mret (fst r).

(** ** Applying *)

(** The fan-out loop: a task that fails is logged and passed over. *)
Fixpoint attach_all (input : InputEvent) (orgID : Z) (wake : bool) (seen : list Z)
    (links : list Link) : M (list (Z * Z)) :=
  match links with
  | [] => mret []
  | link :: rest =>
      if bool_decide (Link_TaskID link ∈ seen) then attach_all input orgID wake seen rest
      else
        r ← catch (attach (Link_TaskID link) input orgID wake);
        done_ ← attach_all input orgID wake (Link_TaskID link :: seen) rest;
        mret (match r with
              | inr event => (Link_TaskID link, Event_ID event) :: done_
              | inl _ => done_
              end)
  end.

Definition in_namespace (rule : RoutingRule) (links : list Link) : list Link :=
  List.filter (λ l, String.eqb (Link_Namespace l) (Rule_Namespace rule)) links.

(** The body of the loop of [Apply]. *)
Definition apply_match (input : InputEvent) (linksByOrg : Z → list Link) (m : RouteMatch)
    : M RouteOutcome :=
  let links := in_namespace (RM_Rule m) (linksByOrg (RM_OrgID m)) in
  match links, Rule_Create (RM_Rule m) with
  | _ :: _, _ =>
      attached ← attach_all input (RM_OrgID m) (Rule_Wakeup (RM_Rule m)) [] links;
      mret (mkOutcome input (RM_OrgID m) (Some (RM_Rule m)) (attached.*1) (attached.*2) false)
  | [], Some action =>
      r ← catch (create input (RM_OrgID m) (RM_Rule m) action);
      mret (match r with
            | inl _ => zero_outcome
            | inr (task, event) =>
                mkOutcome input (RM_OrgID m) (Some (RM_Rule m)) [Task_ID task] [Event_ID event]
                  true
            end)
  | [], None => mret (mkOutcome input (RM_OrgID m) (Some (RM_Rule m)) [] [] false)
  end.

Fixpoint apply_all (input : InputEvent) (linksByOrg : Z → list Link) (matches : list RouteMatch)
    : M (list RouteOutcome) :=
  match matches with
  | [] => mret []
  | m :: rest =>
      o ← apply_match input linksByOrg m;
      os ← apply_all input linksByOrg rest;
      mret (o :: os)
  end.

Definition Apply (input : InputEvent) (matches : list RouteMatch) : M (list RouteOutcome) :=
  match matches with
  | [] => mret []
  | _ =>
      linksByOrg ← FindSubscribedLinksForOrgs NoTx (RoutingKey url_Parse (Input_URL input))
                     (map RM_OrgID matches);
      apply_all input linksByOrg matches
  end.

(** The number of tasks woken or created, and the outcomes handed to the
    callback. *)
Definition Route (input : InputEvent) : M (nat * list RouteOutcome) :=
  if String.eqb (Input_URL input) "" then mret (0%nat, [])
  else
    matches ← Plan input;
    outcomes ← Apply input matches;
    mret (sum_list (map (λ o, length (RO_TaskIDs o)) outcomes), outcomes).
End router.

(** ** What planning reports *)

(** Whether a rule may fire at all: every rule of an org the actor belongs to,
    the public ones otherwise. *)
Definition eligible (isMember : bool) (rule : RoutingRule) : Prop :=
  isMember = true ∨ Rule_Public rule = true.

Definition fires_rule (isMember : bool) (input : InputEvent) (rule : RoutingRule) : Prop :=
  eligible isMember rule ∧ Match rule input = true.

Lemma first_match_spec isMember input rules : ∀ i rule j,
  first_match isMember input i rules = Some (rule, j) ↔
  ∃ k, j = (i + k)%nat ∧ rules !! k = Some rule ∧ fires_rule isMember input rule ∧
    ∀ k' r', (k' < k)%nat → rules !! k' = Some r' → ¬ fires_rule isMember input r'.
Proof.
  induction rules as [|r rules IH]; intros i rule j; simpl.
  { split; [done|]. by intros (k & _ & [=] & _). }
  assert (Hskip : (∃ k, j = (S i + k)%nat ∧ rules !! k = Some rule ∧ fires_rule isMember input rule ∧
      ∀ k' r', (k' < k)%nat → rules !! k' = Some r' → ¬ fires_rule isMember input r') →
    ¬ fires_rule isMember input r →
    ∃ k, j = (i + k)%nat ∧ (r :: rules) !! k = Some rule ∧ fires_rule isMember input rule ∧
      ∀ k' r', (k' < k)%nat → (r :: rules) !! k' = Some r' → ¬ fires_rule isMember input r').
  { intros (k & -> & Hk & Hf & Hmin) Hr. exists (S k). split; [lia|]. split; [done|].
    split; [done|]. intros [|k'] r' Hlt Hr'; simpl in Hr'; [by simplify_eq|].
    eapply Hmin; [|done]. lia. }
  assert (Hunskip : ¬ fires_rule isMember input r →
    (∃ k, j = (i + k)%nat ∧ (r :: rules) !! k = Some rule ∧ fires_rule isMember input rule ∧
      ∀ k' r', (k' < k)%nat → (r :: rules) !! k' = Some r' → ¬ fires_rule isMember input r') →
    ∃ k, j = (S i + k)%nat ∧ rules !! k = Some rule ∧ fires_rule isMember input rule ∧
      ∀ k' r', (k' < k)%nat → rules !! k' = Some r' → ¬ fires_rule isMember input r').
  { intros Hr ([|k] & -> & Hk & Hf & Hmin); simpl in Hk; [by simplify_eq|].
    exists k. split; [lia|]. split; [done|]. split; [done|]. intros k' r' Hlt Hr'.
    apply (Hmin (S k')); [lia|done]. }
  assert (Hdec : fires_rule isMember input r ↔
    negb isMember && negb (Rule_Public r) = false ∧ Match r input = true).
  { unfold fires_rule, eligible. destruct isMember, (Rule_Public r); simpl; naive_solver. }
  destruct (negb isMember && negb (Rule_Public r)) eqn:Helig.
  - assert (Hr : ¬ fires_rule isMember input r) by (rewrite Hdec; naive_solver).
    rewrite IH. split; [intros H; by apply Hskip|by apply Hunskip].
  - destruct (Match r input) eqn:Hmatch.
    + split.
      * intros [= <- <-]. exists 0%nat. split; [lia|]. split; [done|]. split; [by apply Hdec|].
        lia.
      * intros ([|k] & -> & Hk & Hf & Hmin); simpl in Hk; [simplify_eq; by rewrite Nat.add_0_r|].
        exfalso. apply (Hmin 0%nat r); [lia|done|]. by apply Hdec.
    + assert (Hr : ¬ fires_rule isMember input r) by (rewrite Hdec; naive_solver).
      rewrite IH. split; [intros H; by apply Hskip|by apply Hunskip].
Qed.

(** Whether the actor belongs to an org. *)
Definition is_member (input : InputEvent) (org : OrgRow) : bool :=
  contains_string (Org_members org) (Input_UserID input).

Definition event_orgs (input : InputEvent) (tb : Tables) : list OrgRoutingRules :=
  omap (event_org (Input_UserID input) (Input_Orgs input)) (map_to_list (t_orgs tb)).

Lemma elem_of_event_orgs input tb o :
  o ∈ event_orgs input tb ↔
  ∃ org, t_orgs tb !! OR_OrgID o = Some org ∧ Org_archived org = false ∧
    (is_member input org = true ∨ OR_OrgID o ∈ Input_Orgs input) ∧
    OR_IsMember o = is_member input org ∧ OR_Rules o = Org_rules org.
Proof.
  unfold event_orgs. rewrite list_elem_of_omap. split.
  - intros ([id org] & Hin%elem_of_map_to_list & Ho). unfold event_org in Ho.
    fold (is_member input org) in Ho. destruct (Org_archived org) eqn:Ha; [done|].
    destruct (is_member input org) eqn:Hm; [|case_bool_decide; [|done]];
      injection Ho as <-; exists org; rewrite Hm; simpl; auto.
  - intros (org & Hl & Ha & Hor & Hm & Hr). exists (OR_OrgID o, org).
    split; [by apply elem_of_map_to_list|]. unfold event_org. fold (is_member input org).
    rewrite Ha. destruct o as [id m rs]; simpl in *. subst.
    destruct (is_member input org); [done|]. rewrite bool_decide_true; [done|naive_solver].
Qed.

Lemma plan_org_spec input o m :
  plan_org input o = Some m ↔
  RM_OrgID m = OR_OrgID o ∧ OR_Rules o !! RM_RuleIndex m = Some (RM_Rule m) ∧
  fires_rule (OR_IsMember o) input (RM_Rule m) ∧
  ∀ k' r', (k' < RM_RuleIndex m)%nat → OR_Rules o !! k' = Some r' →
    ¬ fires_rule (OR_IsMember o) input r'.
Proof.
  unfold plan_org. destruct m as [id rule i]; simpl.
  pose proof (first_match_spec (OR_IsMember o) input (OR_Rules o) 0 rule i) as Hspec.
  destruct (first_match (OR_IsMember o) input 0 (OR_Rules o)) as [[rule' i']|] eqn:E.
  - split.
    + intros [= <- <- <-]. split; [done|]. destruct (proj1 Hspec eq_refl) as (k & Hk & ?).
      simpl in Hk. by subst k.
    + intros (-> & Hrest). f_equal.
      assert (Some (rule', i') = Some (rule, i)) as [= <- <-]; [|done].
      apply Hspec. exists i. by split.
  - split; [done|]. intros (-> & Hrest).
    assert (None = Some (rule, i)) as [=]. apply Hspec. exists i. by split.
Qed.

Lemma omap_NoDup {A B} (f : A → option B) (key : A → Z) (keyb : B → Z) (l : list A) :
  (∀ a b, f a = Some b → keyb b = key a) → NoDup (map key l) → NoDup (map keyb (omap f l)).
Proof.
  intros Hf. induction l as [|a l IH]; simpl; [constructor|].
  intros [Ha Hnd]%NoDup_cons. destruct (f a) as [b|] eqn:E; [|by apply IH].
  simpl. constructor; [|by apply IH]. rewrite (Hf _ _ E). intros Hin. apply Ha.
  apply list_elem_of_fmap in Hin as (b' & Hk & Hb'). apply list_elem_of_omap in Hb' as (a' & Ha' & E').
  rewrite Hk, (Hf _ _ E'). apply list_elem_of_fmap. eauto.
Qed.

Lemma Plan_spec input :
  HandlerSpec (Plan input) (λ _ tb ms tb' ns, tb' = tb ∧ ns = [] ∧
    ms = omap (plan_org input) (event_orgs input tb)) (λ _ _, False).
Proof.
  intros w Hw. pose proof (at_refl w Hw) as Hat. unfold Plan, ListRoutingRulesForEvent.
  wp; [by split|]. by exists (committed w), [].
Qed.

(** Planning reports, for each org the event belongs to, exactly the first
    of its rules that may fire and matches: an org is considered when it is not
    archived and the actor is a member or the event names it, and a rule of an
    org the actor does not belong to may fire only when it is public.  No org
    is reported twice, and nothing is written. *)
Theorem Plan_first_match (input : InputEvent) (w w' : World) (matches : list RouteMatch) :
  world_ok w → Plan input w = (inr matches, w') →
  committed w' = committed w ∧ NoDup (map RM_OrgID matches) ∧
  ∀ m, m ∈ matches ↔
    ∃ org, t_orgs (committed w) !! RM_OrgID m = Some org ∧ Org_archived org = false ∧
      (is_member input org = true ∨ RM_OrgID m ∈ Input_Orgs input) ∧
      Org_rules org !! RM_RuleIndex m = Some (RM_Rule m) ∧
      fires_rule (is_member input org) input (RM_Rule m) ∧
      ∀ i r, (i < RM_RuleIndex m)%nat → Org_rules org !! i = Some r →
        ¬ fires_rule (is_member input org) input r.
Proof.
  intros Hw Hrun. destruct (HandlerSpec_run _ _ _ _ _ _ (Plan_spec input) Hw Hrun)
    as (tb & ns & Hat & -> & -> & ->).
  split; [by apply at_committed in Hat|]. split.
  - apply (omap_NoDup _ OR_OrgID); [by intros a b (? & _)%plan_org_spec|].
    apply (omap_NoDup _ fst).
    + intros [id org] o. unfold event_org. by repeat case_match; intros [= <-].
    + apply NoDup_fst_map_to_list.
  - intros m. rewrite list_elem_of_omap. setoid_rewrite plan_org_spec.
    setoid_rewrite elem_of_event_orgs. split.
    + intros (o & (org & Hl & Ha & Hor & Hm & Hr) & Hid & Hrest). rewrite Hm, Hr in Hrest.
      exists org. rewrite Hid. naive_solver.
    + intros (org & Hl & Ha & Hor & Hrule & Hrest).
      exists (mkOrgRules (RM_OrgID m) (is_member input org) (Org_rules org)). naive_solver.
Qed.

(** ** What attaching and creating do *)

Definition attach_ok (taskID : Z) (input : InputEvent) (orgID : Z) (wake : bool)
    (now : Z) (tb : Tables) (event : Event) (tb' : Tables) (ns : list Notification) : Prop :=
  let ev := external_event taskID orgID wake input in
  ∃ id, (∀ i, is_Some (t_events tb !! i) → i < id) ∧ event = set_Event_ID id ev ∧ length ns = 1%nat ∧
    if wake then
      ∃ row, select_task tb taskID orgID = Some row ∧
        tb' = put_task (snd (Start (toModelTask row))) now (put_event now id ev tb)
    else tb' = put_event now id ev tb.

Definition attach_err (taskID orgID : Z) (wake : bool) (tb : Tables) (_ : Err) : Prop :=
  if wake then select_task tb taskID orgID = None
  else fk_task tb taskID && fk_org tb orgID = false.

Lemma attach_spec taskID input orgID wake :
  HandlerSpec (attach taskID input orgID wake) (attach_ok taskID input orgID wake)
    (attach_err taskID orgID wake).
Proof.
  intros w Hw. pose proof (at_refl w Hw) as Hat. unfold attach. wps; wp_err.
  - unfold attach_err. destruct wake; [|done].
    destruct (select_task (committed w) taskID orgID) as [row|] eqn:E; [exfalso|done].
    destruct (select_task_ok _ _ _ _ _ (proj2 Hw) E) as (_ & _ & Hft & Hfo). simpl in H0.
    rewrite Hft, Hfo in H0. done.
  - done.
  - do 2 eexists. split; [exact H2|]. exists id. split; [done|]. split; [done|]. split; [done|].
    exists r. split; [done|]. by rewrite Heqp.
  - do 2 eexists. split; [exact H|]. by exists id.
Qed.

(** The rows of a new task satisfy their foreign keys. *)
Ltac fk_new :=
  unfold fk_task, fk_org in *; simpl in *;
  rewrite ?lookup_insert_eq in *; simpl in *;
  rewrite ?(bool_decide_true (is_Some (Some _))) in * by (by eexists); simpl in *; congruence.

Section create.
Context (url_Parse : string → option Url).
Context (input : InputEvent) (orgID : Z) (rule : RoutingRule) (action : CreateTaskAction).

(** The task, its trigger, its link and its prompt, in one transaction. *)
Definition create_rule_ok (now : Z) (tb : Tables) (r : Task * Event) (tb' : Tables)
    (ns : list Notification) : Prop :=
  let t := rule_task orgID rule action in
  ∃ id lid tb1, (∀ i, is_Some (t_tasks tb !! i) → i < id) ∧
    (∀ i, is_Some (t_links tb !! i) → i < lid) ∧
    fst r = set_Times now now (set_ID id t) ∧
    let link := set_Link_ID lid (trigger_link url_Parse id now input) in
    add_events now [external_event id orgID false input; created_event (fst r)]
      (with_tasks <[id := taskRow id now now t]> tb) tb1 ∧
    add_events now [newEvent id orgID false (Link_EventPayload link);
                    prompt_event (fst r) orgID (rule_prompt input action)]
      (with_links <[lid := link]> tb1) tb' ∧
    length ns = 1%nat.

Lemma create_rule_spec :
  HandlerSpec (create url_Parse input orgID rule action) create_rule_ok
    (λ tb _, fk_org tb orgID = false).
Proof.
  intros w Hw. pose proof (at_refl w Hw) as Hat. unfold create, CreateTask, CreateLink. wps; wp_err;
    try done; try (by exfalso; fk_new).
  do 2 eexists. split; [eassumption|]. exists (s SeqTasks), (s0 SeqLinks). eexists.
  split; [apply (ids_tasks _ _ H1)|]. split; [apply (ids_links _ _ H5)|].
  split; [done|]. split; [econstructor; [done|by apply add_one]|].
  split; [econstructor; [done|by apply add_one]|done].
Qed.
End create.

(** ** How routing evolves the tables *)

Lemma attach_evolves taskID input orgID wake now tb q event tb' ns :
  tables_ok tb q → attach_ok taskID input orgID wake now tb event tb' ns →
  evolves (only orgID) tb tb' ∧ same_tasks tb tb'.
Proof.
  intros Hok (id & Hid & _ & _ & H).
  assert (Hput : evolves (only orgID) tb (put_event now id (external_event taskID orgID wake input) tb)).
  { eapply evolves_add_events; [by apply add_one|]. by repeat constructor. }
  destruct wake; [|by subst].
  destruct H as (row & Hsel & ->). split; [|exact (same_tasks_put_task (put_event _ _ _ _) _ _)].
  etrans; [exact Hput|].
  destruct (select_task_ok _ _ _ _ _ Hok Hsel) as (Hrid & _).
  apply (evolves_put_task _ _ taskID orgID row); [done|done|exact Hsel|].
  apply rtc_once, step_start.
Qed.

Section create_evolves.
Context (url_Parse : string → option Url).
Context (input : InputEvent) (orgID : Z) (rule : RoutingRule) (action : CreateTaskAction).

Lemma create_evolves now tb q r tb' ns :
  tables_ok tb q → create_rule_ok url_Parse input orgID rule action now tb r tb' ns →
  evolves (only orgID) tb tb'.
Proof.
  intros Hok (id & lid & tb1 & Hid & Hlid & -> & H1 & H2 & _).
  set (row := taskRow id now now (rule_task orgID rule action)) in *.
  pose proof (add_events_frame _ _ _ _ H1) as (Ht1 & Hl1 & _).
  etrans; [apply (evolves_insert_task _ _ id (rule_task orgID rule action) now);
           [done|by split; [|left]|by apply fresh_None]|].
  etrans; [eapply evolves_add_events; [exact H1|]; by repeat constructor|].
  etrans; [|eapply evolves_add_events; [exact H2|]; by repeat constructor].
  apply (evolves_insert_link _ _ lid _ row); [by rewrite Hl1| |done].
  rewrite Ht1. simpl. by rewrite lookup_insert_eq.
Qed.
End create_evolves.

(** The fan-out: every subscribed task once, none that is not subscribed. *)
Definition attach_all_post (orgID : Z) (seen : list Z) (links : list Link) (w : World)
    (r : Err + list (Z * Z)) (w' : World) : Prop :=
  ∃ l, r = inr l ∧ ran (only orgID) w w' ∧ same_tasks (committed w) (committed w') ∧
    NoDup l.*1 ∧ (∀ id, id ∈ l.*1 → (id ∉ seen) ∧ id ∈ map Link_TaskID links) ∧
    (healthy w → ∀ id, id ∈ map Link_TaskID links → id ∉ seen →
       is_Some (select_task (committed w) id orgID) → id ∈ l.*1).

Lemma attach_run taskID input orgID wake w :
  world_ok w → wp (attach taskID input orgID wake) (λ r w', ran (only orgID) w w' ∧
    same_tasks (committed w) (committed w') ∧
    (healthy w → is_Some (select_task (committed w) taskID orgID) → ∃ e, r = inr e)) w.
Proof.
  intros Hw. eapply wp_mono; [by apply attach_spec|]. intros r w' Hout.
  split; [|split].
  - eapply outcome_ran; [done|exact Hout|]. intros e tb ns Hok. simpl in Hok.
    by eapply attach_evolves; [apply Hw|].
  - destruct r as [e|ev]; simpl in Hout.
    + destruct Hout as [Hat _]. by rewrite (at_committed _ _ _ _ Hat).
    + destruct Hout as (tb & ns & Hat & Hok). rewrite (at_committed _ _ _ _ Hat).
      by eapply attach_evolves; [apply Hw|].
  - intros Hh [row Hrow]. destruct r as [e|ev]; [|eauto]. destruct Hout as [_ Herr].
    specialize (Herr Hh). unfold attach_err in Herr. destruct wake; [congruence|].
    destruct (select_task_ok _ _ _ _ _ (proj2 Hw) Hrow) as (_ & _ & Hf & Ho).
    by rewrite Hf, Ho in Herr.
Qed.

Lemma attach_all_spec input orgID wake links : ∀ seen w, world_ok w →
  wp (attach_all input orgID wake seen links) (attach_all_post orgID seen links w) w.
Proof.
  induction links as [|link links IH]; intros seen w Hw; simpl.
  { exists []. split; [done|]. split; [by apply ran_refl|]. split; [done|]. split; [constructor|].
    split; [by intros id ?%not_elem_of_nil|]. by intros _ id ?%not_elem_of_nil. }
  case_bool_decide as Hseen.
  { eapply wp_mono; [by apply IH|]. intros r w' (l & -> & Hran & Hst & Hnd & Hsub & Hall).
    exists l. split; [done|]. split; [done|]. split; [done|]. split; [done|]. split.
    - intros id Hid. destruct (Hsub id Hid). split; [done|]. by right.
    - intros Hh id [->|Hid]%elem_of_cons Hn Hs; [done|]. by apply Hall. }
  do 2 wp_step. eapply wp_mono; [by apply attach_run|]. intros r w1 (Hran1 & Hst1 & Hok1).
  wp_step. eapply wp_mono; [apply IH; by eapply ran_world_ok|].
  intros r2 w2 (l & -> & Hran2 & Hst2 & Hnd & Hsub & Hall). apply wp_ret.
  set (id0 := Link_TaskID link) in *.
  assert (Hnot : id0 ∉ l.*1) by (intros [Hn _]%Hsub; apply Hn; by left).
  eexists. split; [done|]. split; [by eapply ran_trans|]. split; [by eapply same_tasks_trans|].
  assert (Hin : ∀ id, id ∈ (match r with inr event => (id0, Event_ID event) :: l | inl _ => l end).*1 →
            id = id0 ∨ id ∈ l.*1) by (destruct r; simpl; set_solver).
  split; [by destruct r; [|constructor]|]. split.
  - intros id [->|Hid]%Hin; [split; [done|by left]|]. destruct (Hsub id Hid) as [Hn Hm].
    split; [set_solver|by right].
  - intros Hh id Hid Hn Hs. destruct (decide (id = id0)) as [->|Hne].
    + destruct (Hok1 Hh Hs) as [e ->]. by left.
    + assert (id ∈ l.*1) as Hl; [|destruct r; simpl; set_solver].
      apply Hall; [by eapply ran_healthy|set_solver|set_solver|].
      eapply evolves_select; [by eapply ran_evolves|done].
Qed.

(** ** The wake-or-create decision *)

(** A task subscribed to a key: an unarchived task of the org and namespace
    with a subscribed link under the key. *)
Definition subscriber (tb : Tables) (key : string) (orgID : Z) (namespace : string) (id : Z) : Prop :=
  ∃ i l row, t_links tb !! i = Some l ∧ Link_RoutingKey l = key ∧ Link_Subscribe l = true ∧
    Link_TaskID l = id ∧ t_tasks tb !! id = Some row ∧ Row_archived row = false ∧
    Row_org_id row = orgID ∧ Row_namespace row = namespace.

(** The links [Apply] considers for a match. *)
Definition candidate_links (tb : Tables) (key : string) (orgIDs : list Z) (m : RouteMatch)
    : list Link :=
  in_namespace (RM_Rule m)
    (map snd (where_ (λ ol, fst ol =? RM_OrgID m) (subscribed_rows tb key orgIDs))).

Lemma candidate_links_subscribers tb key orgIDs m id :
  RM_OrgID m ∈ orgIDs →
  id ∈ map Link_TaskID (candidate_links tb key orgIDs m) ↔
  subscriber tb key (RM_OrgID m) (Rule_Namespace (RM_Rule m)) id.
Proof.
  intros Horg. unfold candidate_links, in_namespace, subscriber.
  rewrite list_elem_of_fmap. setoid_rewrite list_elem_of_In. setoid_rewrite filter_In.
  setoid_rewrite <- list_elem_of_In. setoid_rewrite list_elem_of_fmap.
  setoid_rewrite elem_of_where. unfold subscribed_rows. setoid_rewrite elem_of_where.
  setoid_rewrite list_elem_of_omap. setoid_rewrite elem_of_order_by_desc.
  setoid_rewrite elem_of_where. setoid_rewrite elem_of_rows. split.
  - intros (jl & -> & ([o jl'] & -> & Ho & _ & l & [Hkey [i Hi]] & Hj) & Hns). simpl in *.
    apply andb_true_iff in Hkey as [Hkey%String.eqb_eq Hsub]. unfold join_task in Hj.
    destruct (t_tasks tb !! Link_TaskID l) as [row|] eqn:Hrow; simpl in Hj; [|done].
    destruct (Row_archived row) eqn:Ha; [done|]. injection Hj as <- <-. simpl in *.
    exists i, l, row. apply Z.eqb_eq in Ho. apply String.eqb_eq in Hns. repeat split; done.
  - intros (i & l & row & Hi & Hkey & Hsub & Hid & Hrow & Ha & Ho & Hns).
    assert (Hj : ∃ jl, join_task tb l = Some (Row_org_id row, jl) ∧ Link_TaskID jl = id ∧
                   Link_Namespace jl = Row_namespace row).
    { unfold join_task. rewrite Hid, Hrow. simpl. rewrite Ha. eexists. split; [done|].
      by rewrite <- Hid. }
    destruct Hj as (jl & Hj & Hjid & Hjns). exists jl. split; [done|]. split.
    + exists (Row_org_id row, jl). split; [done|]. simpl. split; [by apply Z.eqb_eq|].
      split; [by apply bool_decide_eq_true; rewrite Ho|]. exists l. split; [|done].
      split; [|by exists i]. by rewrite Hkey, String.eqb_refl, Hsub.
    + apply String.eqb_eq. congruence.
Qed.

(** What one match does, given the links looked up for it. *)
Definition match_post (url_Parse : string → option Url) (input : InputEvent) (links : list Link)
    (m : RouteMatch) (w : World) (r : Err + RouteOutcome) (w' : World) : Prop :=
  ∃ o, r = inr o ∧ ran (only (RM_OrgID m)) w w' ∧
    (RO_Created o = false → same_tasks (committed w) (committed w')) ∧
    match links with
    | _ :: _ =>
        RO_Created o = false ∧ NoDup (RO_TaskIDs o) ∧ RO_TaskIDs o ⊆ map Link_TaskID links ∧
        (healthy w → ∀ id, id ∈ map Link_TaskID links →
           is_Some (select_task (committed w) id (RM_OrgID m)) → id ∈ RO_TaskIDs o)
    | [] =>
        match Rule_Create (RM_Rule m) with
        | None => RO_Created o = false ∧ RO_TaskIDs o = [] ∧ committed w' = committed w
        | Some action =>
            if RO_Created o then
              ∃ task ev ns, RO_TaskIDs o = [Task_ID task] ∧
                create_rule_ok url_Parse input (RM_OrgID m) (RM_Rule m) action (clock w)
                  (committed w) (task, ev) (committed w') ns
            else committed w' = committed w ∧ RO_TaskIDs o = [] ∧
                 (healthy w → fk_org (committed w) (RM_OrgID m) = false)
        end
    end.

Lemma apply_match_spec url_Parse input links m w :
  world_ok w →
  wp (apply_match url_Parse input (λ _, links) m)
    (match_post url_Parse input (in_namespace (RM_Rule m) links) m w) w.
Proof.
  intros Hw. unfold apply_match, match_post.
  destruct (in_namespace (RM_Rule m) links) as [|l0 ls] eqn:E.
  - destruct (Rule_Create (RM_Rule m)) as [action|].
    + do 2 wp_step. eapply wp_mono; [by apply create_rule_spec|]. intros r w1 Hout. apply wp_ret.
      eexists. split; [done|]. destruct r as [e|[task ev]]; simpl in Hout.
      * destruct Hout as [Hat Herr]. pose proof (at_committed _ _ _ _ Hat) as Hc.
        split; [exists (committed w), []; split; [done|apply evolves_refl]|].
        simpl. rewrite Hc. by split.
      * destruct Hout as (tb & ns & Hat & Hok). pose proof (at_committed _ _ _ _ Hat) as Hc.
        split; [exists tb, ns; split; [done|]; by eapply create_evolves; [apply Hw|]|].
        split; [done|]. simpl. exists task, ev, ns. by rewrite Hc.
    + apply wp_ret. eexists. split; [done|]. split; [by apply ran_refl|]. by split.
  - wp_step. eapply wp_mono; [by apply attach_all_spec|].
    intros r w1 (l & -> & Hran & Hst & Hnd & Hsub & Hall). apply wp_ret.
    eexists. split; [done|]. split; [done|]. split; [done|]. simpl. split; [done|].
    split; [done|]. split.
    + intros id Hid. by destruct (Hsub id Hid).
    + intros Hh id Hid. apply Hall; [done|done|]. apply not_elem_of_nil.
Qed.

Section decision.
Context (url_Parse : string → option Url) (input : InputEvent) (m : RouteMatch).

Definition subscribed (tb : Tables) : Z → Prop :=
  subscriber tb (RoutingKey url_Parse (Input_URL input)) (RM_OrgID m) (Rule_Namespace (RM_Rule m)).

Definition event_links (tb : Tables) : list Link :=
  candidate_links tb (RoutingKey url_Parse (Input_URL input)) [RM_OrgID m] m.

Lemma event_links_subscribed tb id : id ∈ map Link_TaskID (event_links tb) ↔ subscribed tb id.
Proof. apply candidate_links_subscribers. by left. Qed.

Lemma subscribed_select tb id : subscribed tb id → is_Some (select_task tb id (RM_OrgID m)).
Proof.
  intros (i & l & row & _ & _ & _ & _ & Hrow & _ & Ho & _). exists row.
  by apply select_task_Some.
Qed.

Lemma Apply_one_spec w : world_ok w →
  wp (Apply url_Parse input [m]) (λ r w', match r with
    | inl _ => at_ w (committed w) [] w' ∧ ¬ healthy w
    | inr os => ∃ o, os = [o] ∧
        match_post url_Parse input (event_links (committed w)) m w (inr o) w'
    end) w.
Proof.
  intros Hw. pose proof (at_refl w Hw) as Hat. unfold Apply, FindSubscribedLinksForOrgs, apply_all.
  wp; [by split|]. pose proof H as [[Hc Hp Hk Hh Hi] Ho].
  eapply wp_mono.
  { apply (apply_match_spec _ _ (map snd (where_ (λ ol, fst ol =? RM_OrgID m)
      (subscribed_rows (committed w) (RoutingKey url_Parse (Input_URL input)) [RM_OrgID m])))).
    by eapply at_world_ok. }
  intros r w2 (o & -> & Hran & Hst & Hpost). wp. exists o. split; [done|].
  exists o. split; [done|]. rewrite Hc, Hk in *. split.
  { eapply ran_trans; [|exact Hran]. exists (committed w), []. split; [done|apply evolves_refl]. }
  split; [done|]. unfold event_links, candidate_links. cbn [map] in Hpost |- *.
  destruct (in_namespace _ _); [destruct (Rule_Create (RM_Rule m)); [|done]|naive_solver].
  destruct (RO_Created o); [done|]. naive_solver.
Qed.
End decision.

(** The task a match creates is subscribed to the event's key, in the rule's
    org and namespace. *)
Lemma create_subscribes url_Parse input m action now tb task ev tb' ns :
  create_rule_ok url_Parse input (RM_OrgID m) (RM_Rule m) action now tb (task, ev) tb' ns →
  t_tasks tb !! Task_ID task = None ∧
  t_tasks tb' = <[Task_ID task := taskRow (Task_ID task) now now
    (rule_task (RM_OrgID m) (RM_Rule m) action)]> (t_tasks tb) ∧
  subscribed url_Parse input m tb' (Task_ID task).
Proof.
  intros (id & lid & tb1 & Hid & Hlid & Htask & H1 & H2 & _). simpl in Htask. subst task.
  apply add_events_frame in H1 as (Ht1 & Hl1 & _). apply add_events_frame in H2 as (Ht2 & Hl2 & _).
  simpl in *. split; [by apply fresh_None|]. split; [by rewrite Ht2, Ht1|].
  eexists lid, _, _. rewrite Hl2. simpl. rewrite lookup_insert_eq. do 4 (split; [done|]).
  simpl. rewrite Ht2, Ht1. simpl. rewrite lookup_insert_eq. done.
Qed.

Section decision_properties.
Context (url_Parse : string → option Url) (input : InputEvent) (m : RouteMatch).

(** Wake or create.  When tasks of the matched org and the rule's
    namespace are subscribed to the event's key, the match creates nothing and
    attaches the event to subscribed tasks only, to each at most once, and on
    a healthy database to every one.  When none is, it creates a task exactly
    if the rule asks for one: a new row in that org and namespace, subscribed
    to the key; otherwise it writes nothing. *)
Theorem Apply_decision (w w' : World) (r : Err + list RouteOutcome) :
  world_ok w → Apply url_Parse input [m] w = (r, w') →
  match r with
  | inl _ => ¬ healthy w ∧ committed w' = committed w
  | inr os => ∃ o, os = [o] ∧
      ((∃ id, subscribed url_Parse input m (committed w) id) →
         RO_Created o = false ∧ NoDup (RO_TaskIDs o) ∧ same_tasks (committed w) (committed w') ∧
         (∀ id, id ∈ RO_TaskIDs o → subscribed url_Parse input m (committed w) id) ∧
         (healthy w → ∀ id, subscribed url_Parse input m (committed w) id → id ∈ RO_TaskIDs o)) ∧
      ((∀ id, ¬ subscribed url_Parse input m (committed w) id) →
         match Rule_Create (RM_Rule m), RO_Created o with
         | Some action, true => ∃ id, RO_TaskIDs o = [id] ∧
             t_tasks (committed w) !! id = None ∧
             t_tasks (committed w') = <[id := taskRow id (clock w) (clock w)
               (rule_task (RM_OrgID m) (RM_Rule m) action)]> (t_tasks (committed w)) ∧
             subscribed url_Parse input m (committed w') id
         | Some _, false => committed w' = committed w ∧
             (healthy w → fk_org (committed w) (RM_OrgID m) = false)
         | None, created => created = false ∧ committed w' = committed w
         end)
  end.
Proof.
  intros Hw Hrun. pose proof (Apply_one_spec url_Parse input m w Hw) as Hwp.
  unfold wp in Hwp. rewrite Hrun in Hwp. destruct r as [e|os].
  { destruct Hwp as [Hat Hn]. split; [done|]. by apply at_committed in Hat. }
  destruct Hwp as (o & -> & o' & [= <-] & _ & Hst & Hpost). exists o. split; [done|].
  pose proof (event_links_subscribed url_Parse input m (committed w)) as Hsub.
  destruct (event_links url_Parse input m (committed w)) as [|l ls].
  - split; [intros [id Hid%Hsub]; by apply not_elem_of_nil in Hid|]. intros _.
    destruct (Rule_Create (RM_Rule m)) as [action|]; [|by destruct Hpost as (-> & _ & ->)].
    destruct (RO_Created o); [|by destruct Hpost as (-> & _ & ?)].
    destruct Hpost as (task & ev & ns & Hids & Hok). exists (Task_ID task). split; [done|].
    by eapply create_subscribes.
  - destruct Hpost as (Hcr & Hnd & Hids & Hall). split.
    + intros _. split; [done|]. split; [done|]. split; [by apply Hst|]. split.
      * intros id Hid. apply Hsub, Hids, Hid.
      * intros Hh id Hid. apply Hall; [done|by apply Hsub|by eapply subscribed_select].
    + intros Hn. exfalso. apply (Hn (Link_TaskID l)), Hsub. by left.
Qed.

(** A redelivered event wakes what its first delivery created: once a
    match has created a task for an event, applying the match again for any
    event with the same routing key creates nothing, and on a healthy
    database the event is attached to that task. *)
Theorem redelivery_wakes (again : InputEvent) (w w1 w2 : World) (o1 o2 : RouteOutcome) :
  world_ok w → Apply url_Parse input [m] w = (inr [o1], w1) → RO_Created o1 = true →
  RoutingKey url_Parse (Input_URL again) = RoutingKey url_Parse (Input_URL input) →
  Apply url_Parse again [m] w1 = (inr [o2], w2) →
  RO_Created o2 = false ∧ same_tasks (committed w1) (committed w2) ∧
  (healthy w1 → RO_TaskIDs o1 ⊆ RO_TaskIDs o2).
Proof.
  intros Hw Hrun1 Hcr Hkey Hrun2. pose proof (Apply_one_spec url_Parse input m w Hw) as H1.
  unfold wp in H1. rewrite Hrun1 in H1. destruct H1 as (o & [= <-] & o' & [= <-] & Hran & _ & H1).
  assert (∃ id, RO_TaskIDs o1 = [id] ∧ subscribed url_Parse input m (committed w1) id)
    as (id & Hids & Hsub).
  { destruct (event_links _ _ _ _); [|by destruct H1 as [? _]; congruence].
    destruct (Rule_Create (RM_Rule m)) as [action|]; [|by destruct H1 as [? _]; congruence].
    rewrite Hcr in H1. destruct H1 as (task & ev & ns & Hids & Hok). exists (Task_ID task).
    split; [done|]. by eapply create_subscribes. }
  pose proof (Apply_one_spec url_Parse again m w1 (ran_world_ok _ _ _ Hran)) as H2.
  unfold wp in H2. rewrite Hrun2 in H2. destruct H2 as (o & [= <-] & o' & [= <-] & _ & Hst & H2).
  assert (Hin : id ∈ map Link_TaskID (event_links url_Parse again m (committed w1))).
  { apply event_links_subscribed. unfold subscribed in *. by rewrite Hkey. }
  destruct (event_links url_Parse again m (committed w1)) as [|l ls];
    [by apply not_elem_of_nil in Hin|]. destruct H2 as (Hcr2 & _ & _ & Hall).
  split; [done|]. split; [by apply Hst|]. intros Hh x Hx. rewrite Hids in Hx.
  apply list_elem_of_singleton in Hx as ->. apply Hall; [done|done|].
  by eapply subscribed_select.
Qed.
End decision_properties.

(** ** Routing a whole event *)

Lemma apply_all_spec url_Parse input linksByOrg matches : ∀ w, world_ok w →
  wp (apply_all url_Parse input linksByOrg matches) (λ r w',
    ran (λ o, o ∈ map RM_OrgID matches) w w' ∧
    ∃ os, r = inr os ∧ length os = length matches) w.
Proof.
  induction matches as [|m matches IH]; intros w Hw; simpl.
  { split; [by apply ran_refl|by exists []]. }
  wp_step. eapply wp_mono; [by apply (apply_match_spec _ _ (linksByOrg (RM_OrgID m)))|].
  intros r w1 (o & -> & Hran & _). wp_step.
  eapply wp_mono; [apply IH; by eapply ran_world_ok|].
  intros r w2 (Hran2 & os & -> & Hlen). apply wp_ret. split.
  - eapply ran_trans; [eapply ran_mono; [|exact Hran]|eapply ran_mono; [|exact Hran2]].
    + intros x ->. by left.
    + intros x Hx. by right.
  - eexists. split; [done|]. simpl. by f_equal.
Qed.

Lemma Apply_ran url_Parse input matches w : world_ok w →
  wp (Apply url_Parse input matches) (λ r w', ran (λ o, o ∈ map RM_OrgID matches) w w' ∧
    match r with inr os => length os = length matches | inl _ => ¬ healthy w end) w.
Proof.
  intros Hw. pose proof (at_refl w Hw) as Hat. unfold Apply. destruct matches as [|m matches].
  { apply wp_ret. split; [by apply ran_refl|done]. }
  unfold FindSubscribedLinksForOrgs. wp.
  - split; [|done]. exists (committed w), []. split; [done|apply evolves_refl].
  - eapply wp_mono; [apply apply_all_spec; by eapply at_world_ok|].
    intros r w2 (Hran & os & -> & Hlen). split; [|done].
    eapply ran_trans; [|exact Hran]. exists (committed w), []. split; [done|apply evolves_refl].
Qed.

(** An org whose rules an event can reach. *)
Definition routed_org (input : InputEvent) (tb : Tables) (orgID : Z) : Prop :=
  ∃ org, t_orgs tb !! orgID = Some org ∧ Org_archived org = false ∧
    (is_member input org = true ∨ orgID ∈ Input_Orgs input).

Lemma Route_ran url_Parse input w : world_ok w →
  wp (Route url_Parse input) (λ r w', ran (routed_org input (committed w)) w w' ∧
    match r with
    | inr (n, os) => n = sum_list (map (λ o, length (RO_TaskIDs o)) os)
    | inl _ => ¬ healthy w
    end) w.
Proof.
  intros Hw. unfold Route. destruct (String.eqb (Input_URL input) "").
  { apply wp_ret. split; [by apply ran_refl|done]. }
  wp_step. eapply wp_mono; [by apply Plan_spec|]. intros [e|ms] w1 Hout; simpl in Hout.
  { destruct Hout as [Hat Hn]. split; [|by intros ?%Hn].
    exists (committed w), []. split; [done|apply evolves_refl]. }
  destruct Hout as (tb & ns & Hat & -> & -> & ->).
  pose proof Hat as [[Hc _ _ Hh _] _].
  wp_step. eapply wp_mono; [apply Apply_ran; by eapply at_world_ok|].
  assert (Horgs : ∀ o, o ∈ map RM_OrgID (omap (plan_org input) (event_orgs input (committed w))) →
            routed_org input (committed w) o).
  { intros o (m & -> & Hm)%list_elem_of_fmap. apply list_elem_of_omap in Hm as (x & Hx & Hm).
    apply plan_org_spec in Hm as (-> & _). apply elem_of_event_orgs in Hx as (org & ? & ? & ? & _).
    by exists org. }
  assert (Hpre : ran (routed_org input (committed w)) w w1).
  { exists (committed w), []. split; [done|apply evolves_refl]. }
  intros [e|os] w2 [Hran Hr].
  - split; [|by intros ?%Hh]. eapply ran_trans; [exact Hpre|]. exact (ran_mono _ _ _ _ Horgs Hran).
  - apply wp_ret. split; [|done]. eapply ran_trans; [exact Hpre|]. exact (ran_mono _ _ _ _ Horgs Hran).
Qed.

(** ** A concrete run *)

Definition sample_rule : RoutingRule :=
  mkRule "github" "" [mkCondition "mention" "equals" "bot"] (Some (mkCreate "ws" "r1" "" 0)) true
    true "".
Definition sample_input : InputEvent :=
  mkInput "github" "comment" "d" "body" "https://x/1" "stranger" [3] {["mention" := ["bot"]]} ∅.
Definition router_world : World :=
  mkWorld (mkTables {[7 := sample_row]} ∅ ∅ ∅ ∅ ∅ {[3 := org_of ["u1"] [sample_rule]]}
    (users_of ["u1"]) ∅)
    None (λ _, 8) [] [] 1000.
Definition sample_match : RouteMatch := mkMatch 3 sample_rule 0.
Definition no_url (_ : string) : option Url := None.

Lemma router_world_ok : world_ok router_world.
Proof. apply world_okb_ok. vm_compute. reflexivity. Qed.

Lemma Plan_first_match_witness :
  ∃ w', Plan sample_input router_world = (inr [sample_match], w') ∧
    committed w' = committed router_world.
Proof.
  eexists. split; [reflexivity|].
  apply (Plan_first_match sample_input router_world _ [sample_match]);
    [apply router_world_ok | reflexivity].
Defined.

(** The run of one match, twice. *)
Definition first_run : (Err + list RouteOutcome) * World :=
  Apply no_url sample_input [sample_match] router_world.
Definition second_run : (Err + list RouteOutcome) * World :=
  Apply no_url sample_input [sample_match] (snd first_run).

Lemma Apply_decision_witness :
  ∃ o, fst first_run = inr [o] ∧
    (RO_Created o = true → ∃ id, t_tasks (committed (snd first_run)) !! id ≠ None).
Proof.
  destruct first_run as [r w'] eqn:E. unfold first_run in E.
  pose proof (Apply_decision no_url sample_input sample_match router_world w' r router_world_ok E)
    as H. destruct r as [e|os].
  - exfalso. destruct H as [Hn _]. apply Hn. constructor.
  - destruct H as (o & -> & _ & Hnone). exists o. split; [reflexivity|]. intros Hcr.
    assert (Hn : ∀ id, ¬ subscribed no_url sample_input sample_match (committed router_world) id).
    { intros id (i & l & row & Hl & _). discriminate Hl. }
    specialize (Hnone Hn). simpl in Hnone. rewrite Hcr in Hnone.
    destruct Hnone as (id & _ & _ & Ht & _). exists id. cbn [snd]. rewrite Ht, lookup_insert_eq. discriminate.
Defined.

Lemma redelivery_wakes_witness :
  ∃ o1 o2, fst first_run = inr [o1] ∧ fst second_run = inr [o2] ∧
    RO_Created o1 = true ∧ RO_Created o2 = false.
Proof.
  destruct first_run as [r1 w1] eqn:E1. destruct second_run as [r2 w2] eqn:E2.
  unfold second_run in E2. rewrite E1 in E2. unfold first_run in E1. simpl in E2.
  assert (H1 : ∃ o1, r1 = inr [o1] ∧ RO_Created o1 = true) by
    (vm_compute in E1; injection E1 as <- _; eexists; split; reflexivity).
  assert (H2 : ∃ o2, r2 = inr [o2]) by
    (vm_compute in E1; injection E1 as _ <-; vm_compute in E2; injection E2 as <- _;
     eexists; reflexivity).
  destruct H1 as (o1 & -> & Hc), H2 as (o2 & ->). exists o1, o2. repeat (split; [done|]).
  apply (redelivery_wakes no_url sample_input sample_match sample_input router_world w1 w2 o1 o2
    router_world_ok E1 Hc eq_refl E2).
Defined.
