(* ===== verification/Webhooks.v ===== *)
(** * Webhooks

    Models [internal/server/githubserver/webhook.go] and [reactions.go],
    [internal/server/atlassianserver/webhook.go] and the signature checks of
    [internal/x/githubx/webhook.go] and [internal/x/atlassian/webhook.go]: what
    an incoming delivery becomes as an [InputEvent], who it is attributed to,
    and its routing.  The HMAC, the JSON decoders and the GitHub library's
    parser are parameters; an absent field of its structs is [None]. *)

From S2P Require Import Prelude AuthScope ScopeParse EventModel TaskModel Links Strconv PubSub.
From S2P Require Import ScheduleModel Rules Store StoreOps StoreLogic StoreAccounts ApiBase Timeline.
From S2P Require Import ShellServer ApiTask ApiTaskSpec Evolution EventRouter ApiAccounts AccountSpec.
From S2P Require Import Pagination StorePages ApiEvents SignIn Mentions.
From Stdlib Require Import Ascii.

(** ** GitHub payloads: the fields of go-github's structs that are read *)

Record GHUser := mkGHUser { GU_ID : option Z; GU_Login : option string }.

Record GHComment := mkGHComment {
  GC_Body : option string; GC_HTMLURL : option string; GC_User : option GHUser;
  GC_NodeID : option string; GC_Path : option string; GC_Line : option Z;
  GC_OriginalLine : option Z; GC_StartLine : option Z; GC_Side : option string;
  GC_DiffHunk : option string }.

Record GHIssue := mkGHIssue {
  GI_Number : option Z; GI_HTMLURL : option string; GI_NodeID : option string;
  GI_IsPullRequest : bool }.

Record GHPullRequest := mkGHPullRequest {
  GP_Number : option Z; GP_HTMLURL : option string; GP_NodeID : option string;
  GP_Merged : option bool }.

Record GHReview := mkGHReview {
  GR_Body : option string; GR_HTMLURL : option string; GR_User : option GHUser;
  GR_NodeID : option string }.

(** The event types the handler switches on; [installation] is the id of the
    delivery's installation. *)
Inductive GitHubEvent :=
| IssueCommentEvent (action : option string) (comment : option GHComment) (issue : option GHIssue)
    (installation : option Z)
| PullRequestReviewCommentEvent (action : option string) (comment : option GHComment)
    (pr : option GHPullRequest) (installation : option Z)
| PullRequestReviewEvent (action : option string) (review : option GHReview)
    (pr : option GHPullRequest) (installation : option Z)
| IssuesEvent (action : option string) (issue : option GHIssue) (assignee sender : option GHUser)
    (label : option (option string)) (installation : option Z)
| PullRequestEvent (action : option string) (pr : option GHPullRequest)
    (assignee sender : option GHUser) (label : option (option string)) (installation : option Z)
| InstallationEvent (action : option string) (installation : option Z)
| OtherGitHubEvent.

Record GitHubMeta := mkGitHubMeta {
  GM_AuthorID : Z; GM_AuthorLogin : string; GM_InstallationID : Z; GM_NodeID : string }.

Definition EventTypeIssueComment : string := "issue_comment".
Definition EventTypePullRequestReviewComment : string := "pull_request_review_comment".
Definition EventTypePullRequestReview : string := "pull_request_review".
Definition EventTypeIssueAssigned : string := "issue_assigned".
Definition EventTypePullRequestAssigned : string := "pull_request_assigned".
Definition EventTypePullRequestOpened : string := "pull_request_opened".
Definition EventTypePullRequestClosed : string := "pull_request_closed".
Definition EventTypeLabelAdded : string := "label_added".

(** An event with neither user nor orgs: the handler fills them in. *)
Definition new_input (source typ description data url : string) (attrs : gmap string (list string))
    (details : gmap string string) : InputEvent :=
  mkInput source typ description data url "" [] attrs details.

Definition github_input (typ description data url : string) (attrs : gmap string (list string))
    (details : gmap string string) : InputEvent :=
  new_input "github" typ description data url attrs details.

Definition number_of (n : option Z) : string := "#" +:+ FormatInt (default 0 n).

Definition login_of (u : GHUser) : string := default "" (GU_Login u).

(** The details of a review comment. *)
Definition review_details (c : GHComment) : gmap string string :=
  let line := or_int (default 0 (GC_Line c)) (default 0 (GC_OriginalLine c)) in
  let details := <["line" := FormatInt line]> {["path" := default "" (GC_Path c)]} in
  let details := match default 0 (GC_StartLine c) with
                 | 0 => details
                 | s => <["start_line" := FormatInt s]> details
                 end in
  let details := match default "" (GC_Side c) with
                 | EmptyString => details
                 | s => <["side" := s]> details
                 end in
  match default "" (GC_DiffHunk c) with
  | EmptyString => details
  | h => <["diff_hunk" := h]> details
  end.

Definition review_description (login : string) (number : option Z) (c : GHComment) : string :=
  let line := or_int (default 0 (GC_Line c)) (default 0 (GC_OriginalLine c)) in
  let base := login +:+ " reviewed PR " +:+ number_of number in
  match default "" (GC_Path c) with
  | EmptyString => base
  | path => base +:+ " (" +:+ path +:+ ":" +:+ FormatInt line +:+ ")"
  end.

(** The sender's event on an issue or a pull request. *)
Definition sender_meta (id : Z) (sender : GHUser) (installation : option Z) (node : option string)
    : GitHubMeta :=
  mkGitHubMeta id (login_of sender) (default 0 installation) (default "" node).

Definition created_or_edited (action : option string) : bool :=
  String.eqb (default "" action) "created" || String.eqb (default "" action) "edited".

Definition issue_comment_input (comment : GHComment) (issue : GHIssue) (installation : option Z)
    : option (InputEvent * GitHubMeta) :=
  body ← GC_Body comment; url ← GC_HTMLURL comment; user ← GC_User comment; id ← GU_ID user;
  let body := TrimSpace body in
  let login := login_of user in
  let on := if GI_IsPullRequest issue then " commented on PR " else " commented on issue " in
  Some (github_input EventTypeIssueComment (login +:+ on +:+ number_of (GI_Number issue)) body url
          (<["mention" := Mentions body]> {["user" := [login]]}) ∅,
        sender_meta id user installation (GC_NodeID comment)).

Definition review_comment_input (comment : GHComment) (pr : GHPullRequest) (installation : option Z)
    : option (InputEvent * GitHubMeta) :=
  body ← GC_Body comment; url ← GC_HTMLURL comment; user ← GC_User comment; id ← GU_ID user;
  let body := TrimSpace body in
  let login := login_of user in
  Some (github_input EventTypePullRequestReviewComment
          (review_description login (GP_Number pr) comment) body url
          (<["mention" := Mentions body]> {["user" := [login]]}) (review_details comment),
        sender_meta id user installation (GC_NodeID comment)).

Definition review_input (review : GHReview) (pr : GHPullRequest) (installation : option Z)
    : option (InputEvent * GitHubMeta) :=
  body ← GR_Body review; url ← GR_HTMLURL review; user ← GR_User review; id ← GU_ID user;
  let body := TrimSpace body in
  let login := login_of user in
  Some (github_input EventTypePullRequestReview
          (login +:+ " reviewed PR " +:+ number_of (GP_Number pr)) body url
          (<["mention" := Mentions body]> {["user" := [login]]}) ∅,
        sender_meta id user installation (GR_NodeID review)).

(** What an assignment, a label, an opening and a closing become; [what] is
    the thing they happen to. *)
Definition assigned_input (typ what : string) (number : option Z) (url node : option string)
    (assignee sender : option GHUser) (installation : option Z) : option (InputEvent * GitHubMeta) :=
  url ← url; assignee ← assignee; login ← GU_Login assignee; sender ← sender; id ← GU_ID sender;
  Some (github_input typ
          (login_of sender +:+ " assigned " +:+ what +:+ " " +:+ number_of number +:+ " to @" +:+ login)
          "" url (<["assignee" := [login]]> {["user" := [login_of sender]]}) ∅,
        sender_meta id sender installation node).

Definition labeled_input (what : string) (number : option Z) (url node : option string)
    (label : option (option string)) (sender : option GHUser) (installation : option Z)
    : option (InputEvent * GitHubMeta) :=
  url ← url; label ← label; name ← label; sender ← sender; id ← GU_ID sender;
  Some (github_input EventTypeLabelAdded
          (login_of sender +:+ " labeled " +:+ what +:+ " " +:+ number_of number +:+ " " +:+ quoted name)
          "" url (<["label" := [name]]> {["user" := [login_of sender]]}) ∅,
        sender_meta id sender installation node).

Definition opened_input (pr : GHPullRequest) (sender : option GHUser) (installation : option Z)
    : option (InputEvent * GitHubMeta) :=
  url ← GP_HTMLURL pr; sender ← sender; id ← GU_ID sender;
  Some (github_input EventTypePullRequestOpened
          (login_of sender +:+ " opened PR " +:+ number_of (GP_Number pr)) "" url
          {["user" := [login_of sender]]} ∅,
        sender_meta id sender installation (GP_NodeID pr)).

Definition closed_input (pr : GHPullRequest) (sender : option GHUser) (installation : option Z)
    : option (InputEvent * GitHubMeta) :=
  url ← GP_HTMLURL pr; sender ← sender; id ← GU_ID sender;
  let data := if default false (GP_Merged pr) then "merged" else "closed" in
  Some (github_input EventTypePullRequestClosed
          (login_of sender +:+ " " +:+ data +:+ " PR " +:+ number_of (GP_Number pr)) data url
          (<["state" := [data]]> {["user" := [login_of sender]]}) ∅,
        sender_meta id sender installation (GP_NodeID pr)).

(** [toInputEvent]: [None] for a delivery to ignore. *)
Definition toInputEvent (event : GitHubEvent) : option (InputEvent * GitHubMeta) :=
  match event with
  | IssueCommentEvent action comment issue inst =>
      if negb (created_or_edited action) then None
      else comment ← comment; issue ← issue; issue_comment_input comment issue inst
  | PullRequestReviewCommentEvent action comment pr inst =>
      if negb (created_or_edited action) then None
      else comment ← comment; pr ← pr; review_comment_input comment pr inst
  | PullRequestReviewEvent action review pr inst =>
      if negb (bool_decide (action = Some "submitted")) then None
      else review ← review; pr ← pr; review_input review pr inst
  | IssuesEvent action issue assignee sender label inst =>
      if String.eqb (default "" action) "assigned" then
        issue ← issue;
        assigned_input EventTypeIssueAssigned "issue" (GI_Number issue) (GI_HTMLURL issue)
          (GI_NodeID issue) assignee sender inst
      else if String.eqb (default "" action) "labeled" then
        issue ← issue;
        labeled_input "issue" (GI_Number issue) (GI_HTMLURL issue) (GI_NodeID issue) label sender inst
      else None
  | PullRequestEvent action pr assignee sender label inst =>
      if String.eqb (default "" action) "opened" then
        pr ← pr; opened_input pr sender inst
      else if String.eqb (default "" action) "assigned" then
        pr ← pr;
        assigned_input EventTypePullRequestAssigned "PR" (GP_Number pr) (GP_HTMLURL pr)
          (GP_NodeID pr) assignee sender inst
      else if String.eqb (default "" action) "labeled" then
        pr ← pr;
        labeled_input "PR" (GP_Number pr) (GP_HTMLURL pr) (GP_NodeID pr) label sender inst
      else if String.eqb (default "" action) "closed" then
        pr ← pr; closed_input pr sender inst
      else None
  | InstallationEvent _ _ | OtherGitHubEvent => None
  end.

(** ** Jira payloads *)

Record AtlassianMeta := mkAtlassianMeta { AM_AuthorAccountID : string; AM_AuthorDisplayName : string }.

Definition EventTypeCommentCreated : string := "comment_created".

Definition jira_comment_input (comment : JiraComment) (issue : JiraIssue)
    : option (InputEvent * AtlassianMeta) :=
  let body := TrimSpace (JC_Body comment) in
  let author := JC_Author comment in
  let url := CommentBrowseURL issue (JC_ID comment) in
  if String.eqb (JU_AccountID author) "" || String.eqb url "" then None
  else Some (new_input "atlassian" EventTypeCommentCreated
               (JU_DisplayName author +:+ " commented on " +:+ JI_Key issue) body url
               (<["mention" := AccountMentions body]> {["user" := [JU_AccountID author]]}) ∅,
             mkAtlassianMeta (JU_AccountID author) (JU_DisplayName author)).

Definition jira_label_input (added : list string) (user : JiraUser) (issue : JiraIssue)
    : option (InputEvent * AtlassianMeta) :=
  let url := BrowseURL issue in
  if String.eqb (JU_AccountID user) "" || String.eqb url "" then None
  else Some (new_input "atlassian" EventTypeLabelAdded
               (JU_DisplayName user +:+ " added label(s) " +:+ Join (map quoted added) ", " +:+ " to "
                  +:+ JI_Key issue) "" url
               (<["label" := added]> {["user" := [JU_AccountID user]]}) ∅,
             mkAtlassianMeta (JU_AccountID user) (JU_DisplayName user)).

Definition jira_toInputEvent (p : WebhookPayload) : option (InputEvent * AtlassianMeta) :=
  if String.eqb (WP_Event p) "comment_created" then
    comment ← WP_Comment p; issue ← WP_Issue p; jira_comment_input comment issue
  else if String.eqb (WP_Event p) "jira:issue_updated" then
    match AddedLabels p with
    | [] => None
    | added => issue ← WP_Issue p; user ← WP_User p; jira_label_input added user issue
    end
  else None.

(** ** The GitHub endpoint *)

(** A delivery: its body and the headers the parser reads. *)
Record Delivery := mkDelivery {
  Del_Body : string; Del_Signature256 : string; Del_Signature1 : string; Del_EventType : string }.

Section github.
Context (url_Parse : string → option Url).
(** go-github: the signature check of a body under a secret, and the parser. *)
Context (ValidateSignature : string → string → string → option string).
Context (ParseWebHookEvent : string → string → string + GitHubEvent).

Definition ParseWebHook (d : Delivery) (secret : string) : string + GitHubEvent :=
  let signature := or_string (Del_Signature256 d) (Del_Signature1 d) in
  match (if Nat.ltb 0 (String.length secret)
         then if String.eqb signature "" then Some "missing request signature header"
              else ValidateSignature signature (Del_Body d) secret
         else None) with
  | Some err => inl err
  | None =>
      if String.eqb (Del_EventType d) "" then inl "missing request event type header"
      else ParseWebHookEvent (Del_EventType d) (Del_Body d)
  end.

Definition handleInstallationEvent (action : option string) (installation : option Z) : M Response :=
  if negb (String.eqb (default "" action) "deleted") then mret (HttpText "ignored")
  else
    r ← catch (ClearGitHubInstallation NoTx (default 0 installation));
    match r with
    | inl _ => mret (HttpError StatusInternalServerError "internal error")
    | inr _ => mret (HttpText "cleared")
    end.

Definition with_orgs_of (orgs : list Z) (input : InputEvent) : InputEvent :=
  mkInput (Input_Source input) (Input_Type input) (Input_Description input) (Input_Data input)
    (Input_URL input) (Input_UserID input) orgs (Input_Attrs input) (Input_Details input).

Definition with_user_id (userID : string) (input : InputEvent) : InputEvent :=
  mkInput (Input_Source input) (Input_Type input) (Input_Description input) (Input_Data input)
    (Input_URL input) userID (Input_Orgs input) (Input_Attrs input) (Input_Details input).

(** Refresh the cached login; a failure is only logged. *)
Definition refresh_login (meta : GitHubMeta) (user : User) : M unit :=
  if negb (String.eqb (GM_AuthorLogin meta) "") &&
     negb (String.eqb (GM_AuthorLogin meta) (U_GitHubUsername user))
  then catch (UpdateGitHubUsername NoTx (U_GitHubUserID user) (GM_AuthorLogin meta)) ;; mret ()
  else mret ().

(** The user an event is attributed to: nobody when the account is not linked. *)
Definition linked_user (lookup : M User) (found : User → M unit) : M (Err + string) :=
  r ← catch lookup;
  match r with
  | inr user => found user ;; mret (inr (U_ID user))
  | inl err => if isNoRows err then mret (inr "") else mret (inl err)
  end.

(** The end of both handlers. *)
Definition route_delivery (input : InputEvent) : M (Response * list RouteOutcome) :=
  r ← catch (Route url_Parse input);
  match r with
  | inl _ => mret (HttpError StatusInternalServerError "internal error", [])
  | inr (_, outcomes) => mret (HttpText "processed", outcomes)
  end.

(** The response, and the outcomes the router reported. *)
Definition github_ServeHTTP (secret : string) (d : Delivery) : M (Response * list RouteOutcome) :=
  match ParseWebHook d secret with
  | inl _ => mret (HttpError StatusBadRequest "invalid webhook", [])
  | inr (InstallationEvent action installation) =>
      resp ← handleInstallationEvent action installation; mret (resp, [])
  | inr event =>
      match toInputEvent event with
      | None => mret (HttpText "ignored", [])
      | Some (input, meta) =>
          orgs ← catch (ListOrgIDsByGitHubInstallation NoTx (GM_InstallationID meta));
          match orgs with
          | inl _ => mret (HttpError StatusInternalServerError "internal error", [])
          | inr orgs =>
              user ← linked_user (GetUserByGitHubUserID NoTx (GM_AuthorID meta)) (refresh_login meta);
              match user with
              | inl _ => mret (HttpError StatusInternalServerError "internal error", [])
              | inr userID => route_delivery (with_user_id userID (with_orgs_of orgs input))
              end
          end
      end
  end.

(** ** Reactions *)

Inductive Reaction := Rocket | Eyes.

(** The reaction [react] sends, and through which installation. *)
Definition react (meta : option GitHubMeta) (outcome : RouteOutcome) : M (option (Z * string * Reaction)) :=
  match meta with
  | None => mret None
  | Some meta =>
      if String.eqb (GM_NodeID meta) "" then mret None
      else
        match (if RO_Created outcome then Some Rocket
               else match RO_TaskIDs outcome with [] => None | _ => Some Eyes end) with
        | None => mret None
        | Some content =>
            org ← GetOrg NoTx (RO_OrgID outcome);
            if Org_GitHubInstallationID org =? 0 then mret None
            else mret (Some (Org_GitHubInstallationID org, GM_NodeID meta, content))
        end
  end.

(** ** The Jira endpoint *)

(** HMAC-SHA256 of a body under a secret, and the JSON decoder. *)
Context (hmac : string → string → string).
Context (ParseWebhook : string → option WebhookPayload).

Definition SignWebhook (body secret : string) : string :=
  "sha256=" +:+ EncodeToString (hmac secret body).

Definition VerifyWebhook (body signature secret : string) : option string :=
  if String.eqb signature "" then Some "missing X-Hub-Signature header"
  else
    let '(algo, sigHex, ok) := Cut "="%char signature in
    if negb ok || negb (String.eqb algo "sha256")
    then Some ("unsupported signature format: " +:+ signature)
    else match DecodeString sigHex with
         | None => Some "invalid signature hex"
         | Some sigBytes =>
             if negb (String.eqb sigBytes (hmac secret body)) then Some "signature mismatch" else None
         end.

(** A delivery: the [org] query parameter, the signature header and the body. *)
Record JiraDelivery := mkJira { Jira_Org : string; Jira_Signature : string; Jira_Body : string }.

Definition jira_ServeHTTP (d : JiraDelivery) : M (Response * list RouteOutcome) :=
  if String.eqb (Jira_Org d) "" then mret (HttpError StatusBadRequest "missing org query parameter", [])
  else
    match ParseInt (Jira_Org d) with
    | None => mret (HttpError StatusBadRequest "invalid org query parameter", [])
    | Some orgID =>
        secret ← catch (GetOrgAtlassianWebhookSecret NoTx orgID);
        match secret with
        | inl _ => mret (HttpError StatusInternalServerError "internal error", [])
        | inr secret =>
            if String.eqb secret "" then mret (HttpError StatusForbidden "webhook not configured", [])
            else
              match VerifyWebhook (Jira_Body d) (Jira_Signature d) secret with
              | Some _ => mret (HttpError StatusForbidden "invalid signature", [])
              | None =>
                  match ParseWebhook (Jira_Body d) with
                  | None => mret (HttpError StatusBadRequest "invalid payload", [])
                  | Some payload =>
                      match jira_toInputEvent payload with
                      | None => mret (HttpText "ignored", [])
                      | Some (input, meta) =>
                          user ← linked_user
                                   (GetUserByAtlassianAccountID NoTx (AM_AuthorAccountID meta))
                                   (λ _, mret ());
                          match user with
                          | inl _ => mret (HttpError StatusInternalServerError "internal error", [])
                          | inr userID => route_delivery (with_user_id userID (with_orgs_of [orgID] input))
                          end
                      end
                  end
              end
        end
    end.
End github.

(** ** Signatures *)

Section signatures.
Context (hmac : string → string → string).

(** A Jira delivery's signature is accepted exactly when it is the
    hexadecimal form of the body's MAC under the org's secret; the signature
    the signer writes is one. *)
Theorem VerifyWebhook_spec (body signature secret : string) :
  (VerifyWebhook hmac body signature secret = None ↔
   ∃ sigHex, signature = "sha256=" +:+ sigHex ∧ DecodeString sigHex = Some (hmac secret body)) ∧
  VerifyWebhook hmac body (SignWebhook hmac body secret) secret = None.
Proof.
  assert (Hiff : ∀ s, VerifyWebhook hmac body s secret = None ↔
    ∃ sigHex, s = "sha256=" +:+ sigHex ∧ DecodeString sigHex = Some (hmac secret body)).
  { intros s. unfold VerifyWebhook. split.
    - destruct (String.eqb s ""); [done|]. destruct (Cut "="%char s) as [[algo sigHex] ok] eqn:Hcut. destruct ok; simpl; [|done].
      destruct (String.eqb_spec algo "sha256") as [->|]; simpl; [|done].
      destruct (DecodeString sigHex) as [b|] eqn:Hd; [|done].
      destruct (String.eqb_spec b (hmac secret body)) as [->|]; [|done]. intros _.
      exists sigHex. split; [|done]. by apply Cut_found in Hcut.
    - intros (sigHex & -> & Hd). change (String.eqb ("sha256=" +:+ sigHex) "") with false.
      cbv iota. change ("sha256=" +:+ sigHex) with ("sha256" +:+ String "="%char sigHex).
      rewrite Cut_app by done. simpl. by rewrite Hd, String.eqb_refl. }
  split; [apply Hiff|]. apply Hiff. eexists. split; [done|]. apply DecodeString_Encode.
Qed.
End signatures.

(** ** What a delivery may touch *)

(** The live orgs an event reaches: those named by the delivery, and those its
    linked actor belongs to. *)
Definition reaches (tb : Tables) (userID : string) (orgs : list Z) (o : Z) : Prop :=
  ∃ org, t_orgs tb !! o = Some org ∧ Org_archived org = false ∧
    (contains_string (Org_members org) userID = true ∨ o ∈ orgs).

(** Neither a cached login nor an installation's removal touches a task, an
    org's members or a default org. *)
Lemma evolves_rename orgs tb id login now :
  evolves orgs tb (with_users (fmap (rename_github id login now)) tb).
Proof.
  assert (Hd : ∀ r, UR_default_org_id (rename_github id login now r) = UR_default_org_id r).
  { intros r. unfold rename_github. by case_bool_decide. }
  destruct (evolves_refl orgs tb). constructor; try done.
  - intros Hok u r Hr d Hdef. simpl in Hr. rewrite lookup_fmap, fmap_Some in Hr.
    destruct Hr as (r' & Hr & ->). rewrite Hd in Hdef. by apply (Hok u r').
  - intros u d. unfold default_of. simpl. rewrite lookup_fmap. destruct (t_users tb !! u); simpl; [|done].
    by rewrite Hd.
Qed.

Definition installed (tb : Tables) (installation : Z) : Z → Prop :=
  λ o, ∃ org, t_orgs tb !! o = Some org ∧ Org_installation org = Some installation.

Lemma evolves_clear tb i now :
  evolves (installed tb i) tb (with_orgs (fmap (clear_installation i now)) tb).
Proof.
  destruct (evolves_refl (installed tb i) tb). constructor; try done.
  - intros o Ho. simpl. rewrite lookup_fmap. destruct (t_orgs tb !! o) as [org|] eqn:Horg; [|done].
    simpl. unfold clear_installation. case_bool_decide; [|done]. destruct Ho. by exists org.
  - intros Hok u r Hr d Hdef. destruct (Hok u r Hr d Hdef) as (Hd & org & Horg & Hw & Hm & Ha).
    split; [done|]. exists (clear_installation i now org). simpl. rewrite lookup_fmap, Horg.
    split; [done|]. unfold clear_installation. by case_bool_decide.
Qed.

Lemma route_delivery_ran url_Parse input w :
  world_ok w →
  wp (route_delivery url_Parse input) (λ r w', ran (reaches (committed w) (Input_UserID input)
        (Input_Orgs input)) w w' ∧ is_Some (match r with inr a => Some a | inl _ => None end)) w.
Proof.
  intros Hw. unfold route_delivery. apply wp_bind, wp_catch.
  eapply wp_mono; [by apply Route_ran|]. intros [e|[n os]] w' [Hran _]; apply wp_ret;
    (split; [exact Hran|by eexists]).
Qed.

Definition nothing (w w' : World) : Prop := at_ w (committed w) [] w'.

Lemma nothing_ran orgs w w' : nothing w w' → ran orgs w w'.
Proof. intros Hat. exists (committed w), []. split; [done|apply evolves_refl]. Qed.

Lemma reaches_same tb tb' userID orgs o :
  t_orgs tb' = t_orgs tb → reaches tb' userID orgs o ↔ reaches tb userID orgs o.
Proof. unfold reaches. by intros ->. Qed.

(** The user whose row has [b] in the column [f], or nobody. *)
Definition linked_id {B} `{EqDecision B} (f : UserRow → option B) (tb : Tables) (b : B) : string :=
  from_option UR_id "" (user_by f tb b).

Lemma linked_user_spec {B} `{EqDecision B} (f : UserRow → option B) (b : B) (found : User → M unit)
    (R : World → World → Prop) w :
  world_ok w →
  (∀ w', nothing w w' → R w w') →
  (∀ u w1, nothing w w1 → wp (found u) (λ r w', r = inr () ∧ R w w') w1) →
  wp (linked_user (get_user_by f NoTx b) found) (λ r w', R w w' ∧
    ∃ user, r = inr user ∧ match user with
                           | inl _ => ¬ healthy w
                           | inr userID => userID = linked_id f (committed w) b
                           end) w.
Proof.
  intros Hw Hnone Hfound. pose proof (at_refl w Hw) as Hat.
  unfold linked_user, get_user_by, linked_id. repeat wp_step.
  - done.
  - split; [by apply Hnone|]. by eexists.
  - match goal with Hn : _ <$> _ = None |- _ => apply fmap_None in Hn as -> end. split; [by apply Hnone|]. by eexists.
  - done.
  - match goal with Hn : _ <$> _ = Some _ |- _ => apply fmap_Some in Hn as (row & -> & ->) end. eapply wp_mono; [by apply Hfound|].
    intros r w2 [-> HR]. apply wp_ret. split; [done|]. by eexists.
Qed.

Lemma ran_orgs (P Q : Z → Prop) w0 w1 w2 :
  (∀ o, P o → Q o) → ran (λ _, False) w0 w1 → ran P w1 w2 → ran Q w0 w2.
Proof.
  intros HPQ H1 H2. eapply ran_trans; [|by eapply ran_mono]. by eapply ran_mono; [|exact H1].
Qed.

(** ** Deliveries *)

Section deliveries.
Context (url_Parse : string → option Url).
Context (ValidateSignature : string → string → string → option string).
Context (ParseWebHookEvent : string → string → string + GitHubEvent).
Context (hmac : string → string → string) (ParseWebhook : string → option WebhookPayload).

Lemma refresh_login_spec meta user w w1 :
  world_ok w → nothing w w1 →
  wp (refresh_login meta user) (λ r w', r = inr () ∧
    (ran (λ _, False) w w' ∧ t_orgs (committed w') = t_orgs (committed w))) w1.
Proof.
  intros Hw Hat. unfold refresh_login, UpdateGitHubUsername.
  assert (Hsame : ∀ w', at_ w (committed w) [] w' →
    ran (λ _, False) w w' ∧ t_orgs (committed w') = t_orgs (committed w)).
  { intros w' H. split; [by apply nothing_ran|]. by rewrite (at_committed _ _ _ _ H). }
  unfold nothing in Hat. repeat wp_step; (split; [done|]); auto.
  match goal with H : at_ w _ _ ?w' |- _ => rewrite (at_committed _ _ _ _ H); split; [|done];
    eexists _, _; split; [exact H|] end.
  apply evolves_rename.
Qed.

(** The orgs a GitHub delivery reaches: the live ones that share its
    installation, and those of the user linked to its author. *)
Definition github_orgs (tb : Tables) (meta : GitHubMeta) : Z → Prop :=
  reaches tb (linked_id UR_github_user_id tb (GM_AuthorID meta))
    (installation_orgs tb (GM_InstallationID meta)).

Lemma github_event_ran input meta w :
  world_ok w →
  wp (orgs ← catch (ListOrgIDsByGitHubInstallation NoTx (GM_InstallationID meta));
      match orgs with
      | inl _ => mret (HttpError StatusInternalServerError "internal error", [])
      | inr orgs =>
          user ← linked_user (GetUserByGitHubUserID NoTx (GM_AuthorID meta)) (refresh_login meta);
          match user with
          | inl _ => mret (HttpError StatusInternalServerError "internal error", [])
          | inr userID =>
              route_delivery url_Parse (with_user_id userID (with_orgs_of orgs input))
          end
      end)
    (λ _ w', ran (github_orgs (committed w) meta) w w') w.
Proof.
  intros Hw. pose proof (at_refl w Hw) as Hat. unfold ListOrgIDsByGitHubInstallation.
  do 3 wp_step; [wp_step; by apply nothing_ran|]. rename H into Hat1.
  assert (Hw1 : world_ok w') by by eapply at_world_ok.
  pose proof (at_committed _ _ _ _ Hat1) as Hc. wp_step. unfold GetUserByGitHubUserID.
  eapply wp_mono; [apply (linked_user_spec UR_github_user_id _ _
    (λ w w', ran (λ _, False) w w' ∧ t_orgs (committed w') = t_orgs (committed w))); [done| |]|].
  - intros w2 H2. split; [by apply nothing_ran|]. by rewrite (at_committed _ _ _ _ H2).
  - intros u w2 H2. by apply refresh_login_spec.
  - intros r w2 [[Hran Ho] (user & -> & Hu)]. cbv beta iota. destruct user as [e|userID].
    { apply wp_ret. eapply ran_trans; [by eapply nothing_ran|]. by eapply ran_mono; [|exact Hran]. }
    eapply wp_mono; [apply route_delivery_ran; by eapply ran_world_ok|].
    intros r w3 [Hran3 _]. eapply ran_trans; [by eapply nothing_ran|].
    eapply ran_orgs; [|exact Hran|exact Hran3]. intros o Hr. simpl in Hr.
    apply (reaches_same (committed w')) in Hr; [|done]. rewrite Hc in Hr, Hu. subst userID. exact Hr.
Qed.

(** The orgs a GitHub delivery may touch. *)
Definition github_scope (tb : Tables) (d : Delivery) (secret : string) : Z → Prop :=
  match ParseWebHook ValidateSignature ParseWebHookEvent d secret with
  | inl _ => λ _, False
  | inr (InstallationEvent _ installation) => installed tb (default 0 installation)
  | inr event =>
      match toInputEvent event with
      | None => λ _, False
      | Some (_, meta) => github_orgs tb meta
      end
  end.

Lemma handleInstallation_ran action installation w :
  world_ok w →
  wp (handleInstallationEvent action installation)
    (λ r w', ran (installed (committed w) (default 0 installation)) w w' ∧
             ∃ resp, r = inr resp) w.
Proof.
  intros Hw. pose proof (at_refl w Hw) as Hat.
  unfold handleInstallationEvent, ClearGitHubInstallation. repeat wp_step;
    try (split; [by apply nothing_ran|by eexists]).
  split; [|by eexists]. eexists _, _. split; [eassumption|]. apply evolves_clear.
Qed.

Lemma github_ServeHTTP_ran d secret w :
  world_ok w →
  wp (github_ServeHTTP url_Parse ValidateSignature ParseWebHookEvent secret d)
    (λ _ w', ran (github_scope (committed w) d secret) w w') w.
Proof.
  intros Hw. unfold github_ServeHTTP, github_scope.
  destruct (ParseWebHook _ _ d secret) as [e|event]; [by apply wp_ret, ran_refl|].
  assert (Hev : wp (match toInputEvent event with
    | None => mret (HttpText "ignored", [])
    | Some (input, meta) =>
        orgs ← catch (ListOrgIDsByGitHubInstallation NoTx (GM_InstallationID meta));
        match orgs with
        | inl _ => mret (HttpError StatusInternalServerError "internal error", [])
        | inr orgs =>
            user ← linked_user (GetUserByGitHubUserID NoTx (GM_AuthorID meta)) (refresh_login meta);
            match user with
            | inl _ => mret (HttpError StatusInternalServerError "internal error", [])
            | inr userID =>
                route_delivery url_Parse (with_user_id userID (with_orgs_of orgs input))
            end
        end
    end) (λ _ w', ran (match toInputEvent event with
                       | None => λ _, False
                       | Some (_, meta) => github_orgs (committed w) meta
                       end) w w') w).
  { destruct (toInputEvent event) as [[input meta]|]; [by apply github_event_ran|].
    by apply wp_ret, ran_refl. }
  destruct event; try exact Hev. apply wp_bind. eapply wp_mono; [by apply handleInstallation_ran|].
  intros r w' [Hran (resp & ->)]. by apply wp_ret.
Qed.

(** A GitHub delivery.  One that does not parse, or whose signature is not
    valid under the configured secret, changes nothing; any other moves tasks
    only along their model's transitions and only in live orgs that share its
    installation or have the user linked to its author as a member, and the
    removal of an installation only unlinks the orgs that have it. *)
Theorem github_delivery_confined (d : Delivery) (secret : string) (w w' : World)
    (res : Err + (Response * list RouteOutcome)) :
  world_ok w →
  github_ServeHTTP url_Parse ValidateSignature ParseWebHookEvent secret d w = (res, w') →
  world_ok w' ∧
  (∀ err, ParseWebHook ValidateSignature ParseWebHookEvent d secret = inl err → w' = w) ∧
  evolves (github_scope (committed w) d secret) (committed w) (committed w').
Proof.
  intros Hw Hrun. pose proof (github_ServeHTTP_ran d secret w Hw) as H. unfold wp in H.
  rewrite Hrun in H. split; [by eapply ran_world_ok|]. split; [|by apply ran_evolves].
  intros err He. unfold github_ServeHTTP in Hrun. rewrite He in Hrun. by injection Hrun.
Qed.

(** ** Jira *)

(** The org a delivery is authenticated for: the one its query names, when the
    signature is valid under that org's secret. *)
Definition jira_org (tb : Tables) (d : JiraDelivery) : option Z :=
  orgID ← (if String.eqb (Jira_Org d) "" then None else ParseInt (Jira_Org d));
  org ← t_orgs tb !! orgID;
  if String.eqb (Org_webhook_secret org) "" then None
  else match VerifyWebhook hmac (Jira_Body d) (Jira_Signature d) (Org_webhook_secret org) with
       | None => Some orgID
       | Some _ => None
       end.

(** The orgs it may touch: that one, and those of the user linked to its
    author. *)
Definition jira_scope (tb : Tables) (d : JiraDelivery) : Z → Prop :=
  match jira_org tb d with
  | None => λ _, False
  | Some orgID =>
      match (payload ← ParseWebhook (Jira_Body d); jira_toInputEvent payload) with
      | None => λ _, False
      | Some (_, meta) =>
          reaches tb (linked_id UR_atlassian_account_id tb (AM_AuthorAccountID meta)) [orgID]
      end
  end.

Lemma jira_event_ran orgID input meta w w1 :
  world_ok w → nothing w w1 →
  let Q := λ (_ : Err + (Response * list RouteOutcome)) w', ran (reaches (committed w)
    (linked_id UR_atlassian_account_id (committed w) (AM_AuthorAccountID meta)) [orgID]) w w' in
  wp (linked_user (GetUserByAtlassianAccountID NoTx (AM_AuthorAccountID meta)) (λ _, mret ()))
    (λ r w', match r with
       | inl e => Q (inl e) w'
       | inr user => wp (match user with
           | inl _ => mret (HttpError StatusInternalServerError "internal error", [])
           | inr userID => route_delivery url_Parse (with_user_id userID (with_orgs_of [orgID] input))
           end) Q w'
       end) w1.
Proof.
  intros Hw Hat Q. pose proof (at_committed _ _ _ _ Hat) as Hc.
  assert (Hw1 : world_ok w1) by by eapply at_world_ok. unfold GetUserByAtlassianAccountID.
  eapply wp_mono; [apply (linked_user_spec UR_atlassian_account_id _ _ nothing); [done|done|done]|].
  intros r w2 [Hran (user & -> & Hu)]. cbv beta iota. destruct user as [e|userID].
  { apply wp_ret. eapply ran_trans; by eapply nothing_ran. }
  eapply wp_mono; [apply route_delivery_ran; by eapply at_world_ok|].
  intros r w3 [Hran3 _]. eapply ran_trans; [by eapply nothing_ran|].
  eapply ran_trans; [by eapply nothing_ran|]. simpl in Hran3.
  rewrite (at_committed _ _ _ _ Hran), Hc in Hran3. subst userID. by rewrite Hc in Hran3.
Qed.

Lemma jira_ServeHTTP_ran d w :
  world_ok w →
  wp (jira_ServeHTTP url_Parse hmac ParseWebhook d) (λ _ w',
    ran (jira_scope (committed w) d) w w' ∧
    (jira_org (committed w) d = None → nothing w w')) w.
Proof.
  intros Hw. pose proof (at_refl w Hw) as Hat.
  assert (Hno : ∀ w', nothing w w' → ran (jira_scope (committed w) d) w w' ∧
    (jira_org (committed w) d = None → nothing w w')).
  { intros w' H. split; [by apply nothing_ran|done]. }
  unfold jira_ServeHTTP. destruct (String.eqb (Jira_Org d) "") eqn:Hq; [apply wp_ret; auto|].
  destruct (ParseInt (Jira_Org d)) as [orgID|] eqn:Ho; [|apply wp_ret; auto].
  unfold GetOrgAtlassianWebhookSecret. repeat wp_step; try (by apply Hno).
  match goal with H : _ <$> _ = Some _ |- _ => apply fmap_Some in H as (org & Horg & ->) end.
  assert (Hj : jira_org (committed w) d = Some orgID).
  { unfold jira_org. rewrite Hq, Ho. cbn [mbind option_bind]. rewrite Horg. cbn [mbind option_bind].
    repeat match goal with H : _ = _ |- _ => rewrite H end. done. }
  assert (Hsc : ∀ w2, ran (reaches (committed w)
      (linked_id UR_atlassian_account_id (committed w) (AM_AuthorAccountID a0)) [orgID]) w w2 →
    ran (jira_scope (committed w) d) w w2 ∧ (jira_org (committed w) d = None → nothing w w2)).
  { intros w2 Hran. rewrite Hj. split; [|done]. unfold jira_scope. rewrite Hj.
    repeat match goal with H : ParseWebhook _ = _ |- _ => rewrite H; cbn [mbind option_bind]; clear H end.
    match goal with H : jira_toInputEvent _ = _ |- _ => by rewrite H end. }
  eapply wp_mono; [by eapply (jira_event_ran orgID i a0)|].
  intros [e|user] w2 H2; [by apply Hsc|]. eapply wp_mono; [exact H2|]. intros r w3 H3. by apply Hsc.
Qed.

(** C15: a Jira delivery.  Unless its signature is valid under the secret of the
    org it names, it changes and publishes nothing; otherwise it moves tasks
    only along their model's transitions and only in that org, if it is live,
    and in the live orgs its linked author belongs to. *)
Theorem jira_delivery_confined (d : JiraDelivery) (w w' : World)
    (res : Err + (Response * list RouteOutcome)) :
  world_ok w → jira_ServeHTTP url_Parse hmac ParseWebhook d w = (res, w') →
  world_ok w' ∧
  (jira_org (committed w) d = None → committed w' = committed w ∧ published w' = published w) ∧
  evolves (jira_scope (committed w) d) (committed w) (committed w').
Proof.
  intros Hw Hrun. pose proof (jira_ServeHTTP_ran d w Hw) as H. unfold wp in H.
  rewrite Hrun in H. destruct H as [Hran Hno]. split; [by eapply ran_world_ok|].
  split; [|by apply ran_evolves]. intros Hj. apply Hno in Hj.
  split; [by apply at_committed in Hj|]. apply at_published in Hj. by rewrite app_nil_r in Hj.
Qed.
End deliveries.

(** ** Reactions *)

(** A reaction answers exactly an outcome that created or woke a task, on an
    event that carries a node, in an org with an installation. *)
Lemma react_spec meta outcome w :
  world_ok w →
  wp (react meta outcome) (λ r w', nothing w w' ∧
    ∀ i node content, r = inr (Some (i, node, content)) →
      ∃ m org, meta = Some m ∧ GM_NodeID m = node ∧ node ≠ "" ∧ i ≠ 0 ∧
        t_orgs (committed w) !! RO_OrgID outcome = Some org ∧ default 0 (Org_installation org) = i ∧
        match content with
        | Rocket => RO_Created outcome = true
        | Eyes => RO_Created outcome = false ∧ RO_TaskIDs outcome ≠ []
        end) w.
Proof.
  intros Hw. pose proof (at_refl w Hw) as Hat. unfold react. destruct meta as [m|]; [|done].
  destruct (String.eqb_spec (GM_NodeID m) "") as [|Hn]; [done|].
  destruct (if RO_Created outcome then _ else _) as [content|] eqn:Hc; [|done].
  unfold GetOrg. repeat wp_step; (split; [eassumption|]); intros i node c; try done.
  intros [= <- <- <-]. match goal with H : _ <$> _ = Some _ |- _ => apply fmap_Some in H as (org & Horg & ->) end.
  match goal with H : (_ =? 0) = false |- _ => apply Z.eqb_neq in H end.
  exists m, org. repeat (split; [done|]). destruct (RO_Created outcome); [by injection Hc as <-|].
  destruct (RO_TaskIDs outcome); [done|]. by injection Hc as <-.
Qed.

(** ** Concrete deliveries: [u1]'s org 3 has a secret and an installation *)

Definition hooked_org : OrgRow :=
  org_set_installation (Some 9) 0 (org_set_secret "s" (org_of ["u1"] [sample_rule])).
Definition hooked_world : World :=
  mkWorld (mkTables {[7 := sample_row]} ∅ ∅ ∅ ∅ ∅ {[3 := hooked_org]} (users_of ["u1"]) ∅)
    None (λ _, 8) [] [] 1000.

Lemma hooked_world_ok : world_ok hooked_world.
Proof. apply world_okb_ok. vm_compute. reflexivity. Qed.

Definition demo_hmac (secret body : string) : string := secret +:+ body.

Definition mention_payload : WebhookPayload :=
  mkPayload "comment_created" None (Some (mkJiraComment "5" "[~accountid:bot] hi" (mkJiraUser "a1" "Ann")))
    (Some (mkJiraIssue "X-1" "https://x/rest/api/2/issue/1")) None.

(** The same delivery, signed with another secret and with the org's. *)
Definition forged_delivery : JiraDelivery := mkJira "3" (SignWebhook demo_hmac "{}" "t") "{}".

Lemma jira_delivery_confined_witness :
  jira_org demo_hmac (committed hooked_world) (mkJira "3" (SignWebhook demo_hmac "{}" "s") "{}") = Some 3 ∧
  committed (snd (jira_ServeHTTP no_url demo_hmac (λ _, Some mention_payload) forged_delivery
                    hooked_world)) = committed hooked_world.
Proof.
  split; [vm_compute; reflexivity|].
  destruct (jira_delivery_confined no_url demo_hmac (λ _, Some mention_payload) forged_delivery
    hooked_world _ _ hooked_world_ok (surjective_pairing _)) as (_ & H & _).
  apply H. vm_compute. reflexivity.
Defined.

(** A comment that mentions the bot, by an account nobody linked: the public
    rule of the installation's org creates a task. *)
Definition comment_event : GitHubEvent :=
  IssueCommentEvent (Some "created")
    (Some (mkGHComment (Some "@bot please") (Some "https://x/1") (Some (mkGHUser (Some 5) (Some "ann")))
             (Some "N") None None None None None None))
    (Some (mkGHIssue (Some 1) None None false)) (Some 9).

Definition comment_run : (Err + (Response * list RouteOutcome)) * World :=
  github_ServeHTTP no_url (λ _ _ _, None) (λ _ _, inr comment_event) ""
    (mkDelivery "{}" "" "" "issue_comment") hooked_world.

Lemma github_delivery_confined_witness :
  fst comment_run ≠ inr (HttpText "ignored", []) ∧
  world_ok (snd comment_run) ∧
  github_orgs (committed hooked_world) (mkGitHubMeta 5 "ann" 9 "N") 3.
Proof.
  split; [vm_compute; discriminate|].
  destruct (github_delivery_confined no_url (λ _ _ _, None) (λ _ _, inr comment_event)
    (mkDelivery "{}" "" "" "issue_comment") "" hooked_world _ _ hooked_world_ok
    (surjective_pairing _)) as (Hok & _). split; [exact Hok|].
  exists hooked_org. split; [reflexivity|]. split; [reflexivity|]. right.
  vm_compute. constructor.
Defined.
