(* ===== verification/EventSchemas.v ===== *)
(** * The schemas of the events

    Models the schemas the webhook servers register
    ([internal/server/githubserver/schema.go],
    [internal/server/atlassianserver/schema.go]) and proves that they agree with
    the events the handlers of [Webhooks] emit, except for a [body] that some
    events leave empty. *)

From S2P Require Import Prelude Links Rules EventRouter Mentions Webhooks.

(** ** The schemas *)

Definition issue_comment_type : EventTypeDef :=
  mkEventType "github" EventTypeIssueComment "GitHub: Issue/PR Comment"
    [mkAttrDef "body" "Comment Body"
       "Matched against the comment text."
       "gritz:";
     mkAttrDef "url" "Issue/PR URL"
       "Matched against the commented issue or PR URL, e.g. to scope a rule to a single repo."
       "https://github.com/owner/repo/";
     mkAttrDef "mention" "Mention"
       "GitHub username @-mentioned in the comment (no leading @)."
       "octocat";
     mkAttrDef "user" "User"
       "The GitHub username of the user who commented (no leading @)."
       "octocat"].

Definition pull_request_review_comment_type : EventTypeDef :=
  mkEventType "github" EventTypePullRequestReviewComment "GitHub: PR Review Comment"
    [mkAttrDef "body" "Review Comment Body"
       "Matched against the inline review comment text."
       "gritz:";
     mkAttrDef "url" "PR URL"
       "Matched against the reviewed PR URL, e.g. to scope a rule to a single repo."
       "https://github.com/owner/repo/pull/123";
     mkAttrDef "mention" "Mention"
       "GitHub username @-mentioned in the review comment (no leading @)."
       "octocat";
     mkAttrDef "user" "User"
       "The GitHub username of the user who left the review comment (no leading @)."
       "octocat"].

Definition pull_request_review_type : EventTypeDef :=
  mkEventType "github" EventTypePullRequestReview "GitHub: PR Review"
    [mkAttrDef "body" "Review Body"
       "Matched against the review summary text."
       "gritz:";
     mkAttrDef "url" "PR URL"
       "Matched against the reviewed PR URL, e.g. to scope a rule to a single repo."
       "https://github.com/owner/repo/pull/123";
     mkAttrDef "mention" "Mention"
       "GitHub username @-mentioned in the review (no leading @)."
       "octocat";
     mkAttrDef "user" "User"
       "The GitHub username of the user who submitted the review (no leading @)."
       "octocat"].

Definition issue_assigned_type : EventTypeDef :=
  mkEventType "github" EventTypeIssueAssigned "GitHub: Issue Assigned"
    [mkAttrDef "body" "Issue Body"
       "Matched against the issue description text."
       "gritz:";
     mkAttrDef "url" "Issue URL"
       "Matched against the assigned issue URL, e.g. to scope a rule to a single repo."
       "https://github.com/owner/repo/issues/123";
     mkAttrDef "assignee" "Assignee"
       "The GitHub username newly assigned to the issue (no leading @)."
       "icholy-bot";
     mkAttrDef "user" "User"
       "The GitHub username of the user who assigned the issue (no leading @)."
       "octocat"].

Definition pull_request_assigned_type : EventTypeDef :=
  mkEventType "github" EventTypePullRequestAssigned "GitHub: PR Assigned"
    [mkAttrDef "body" "PR Body"
       "Matched against the pull request description text."
       "gritz:";
     mkAttrDef "url" "PR URL"
       "Matched against the assigned PR URL, e.g. to scope a rule to a single repo."
       "https://github.com/owner/repo/pull/123";
     mkAttrDef "assignee" "Assignee"
       "The GitHub username newly assigned to the pull request (no leading @)."
       "icholy-bot";
     mkAttrDef "user" "User"
       "The GitHub username of the user who assigned the pull request (no leading @)."
       "octocat"].

Definition pull_request_opened_type : EventTypeDef :=
  mkEventType "github" EventTypePullRequestOpened "GitHub: PR Opened"
    [mkAttrDef "body" "PR Description"
       "Matched against the description of the newly opened pull request."
       "gritz:";
     mkAttrDef "url" "PR URL"
       "Matched against the opened PR URL, e.g. to scope a rule to a single repo."
       "https://github.com/owner/repo/pull/123";
     mkAttrDef "user" "User"
       "The GitHub username of the user who opened the pull request (no leading @)."
       "octocat"].

Definition pull_request_closed_type : EventTypeDef :=
  mkEventType "github" EventTypePullRequestClosed "GitHub: PR Closed"
    [mkAttrDef "body" "PR Description"
       "Matched against the description of the closed pull request."
       "gritz:";
     mkAttrDef "url" "PR URL"
       "Matched against the closed PR URL, e.g. to scope a rule to a single repo."
       "https://github.com/owner/repo/pull/123";
     mkAttrDef "state" "State"
       ("Whether the PR was " +:+ quoted "merged" +:+ " or just " +:+ quoted "closed" +:+ ".")
       "merged";
     mkAttrDef "user" "User"
       "The GitHub username of the user who closed the pull request (no leading @)."
       "octocat"].

Definition label_added_type : EventTypeDef :=
  mkEventType "github" EventTypeLabelAdded "GitHub: Label Added"
    [mkAttrDef "body" "Issue/PR Body"
       "Matched against the description of the labeled issue or PR."
       "gritz:";
     mkAttrDef "url" "Issue/PR URL"
       "Matched against the labeled issue or PR URL, e.g. to scope a rule to a single repo."
       "https://github.com/owner/repo/";
     mkAttrDef "label" "Label"
       "The label added to the issue or PR."
       "gritz";
     mkAttrDef "user" "User"
       "The GitHub username of the user who added the label (no leading @)."
       "octocat"].

Definition jira_comment_created_type : EventTypeDef :=
  mkEventType "atlassian" EventTypeCommentCreated "Jira: Issue Comment"
    [mkAttrDef "body" "Comment Body"
       "Matched against the comment text."
       "gritz:";
     mkAttrDef "url" "Issue URL"
       "Matched against the commented issue URL, e.g. to scope a rule to a single project."
       "https://your-domain.atlassian.net/browse/PROJ-";
     mkAttrDef "mention" "Mention"
       "Atlassian account id @-mentioned in the comment. Enter the bare id (no [~accountid:…] wrapper)."
       "5b10ac8d82e05b22cc7d4ef5";
     mkAttrDef "user" "User"
       "Atlassian account id of the user who commented. Enter the bare id (no [~accountid:…] wrapper)."
       "5b10ac8d82e05b22cc7d4ef5"].

Definition jira_label_added_type : EventTypeDef :=
  mkEventType "atlassian" EventTypeLabelAdded "Jira: Label Added"
    [mkAttrDef "body" "Issue Description"
       "Matched against the description of the labeled issue."
       "gritz:";
     mkAttrDef "url" "Issue URL"
       "Matched against the labeled issue URL, e.g. to scope a rule to a single project."
       "https://your-domain.atlassian.net/browse/PROJ-";
     mkAttrDef "label" "Label"
       "The label added to the issue."
       "gritz";
     mkAttrDef "user" "User"
       "Atlassian account id of the user who added the label(s). Enter the bare id (no [~accountid:…] wrapper)."
       "5b10ac8d82e05b22cc7d4ef5"].
Definition github_event_types : list EventTypeDef :=
  [issue_comment_type; pull_request_review_comment_type; pull_request_review_type;
   issue_assigned_type; pull_request_assigned_type; pull_request_opened_type;
   pull_request_closed_type; label_added_type].

Definition jira_event_types : list EventTypeDef := [jira_comment_created_type; jira_label_added_type].

(** [None]: a duplicate registration panics. *)
Definition RegisterSchemas (defs : list EventTypeDef) (reg : SchemaRegistry) : option SchemaRegistry :=
  foldl (λ acc def, acc ≫= MustRegister def) (Some reg) defs.

(** The process-wide registry after the packages' [init] functions, which run
    in the order of the import paths. *)
Definition DefaultSchemaRegistry : option SchemaRegistry :=
  RegisterSchemas jira_event_types NewSchemaRegistry ≫= RegisterSchemas github_event_types.

(** ** The schemas agree with the handlers *)

(** The attributes a condition can look at in an event, and those its type's
    schema offers. *)
Definition event_keys (input : InputEvent) : gset string :=
  {["body"; "url"]} ∪ dom (Input_Attrs input).

Definition schema_keys (reg : SchemaRegistry) (source typ : string) : option (gset string) :=
  def ← EventTypeFor reg source typ; Some (list_to_set (map AttrDef_Key (ET_Attrs def))).

Definition default_keys (source typ : string) : option (gset string) :=
  reg ← DefaultSchemaRegistry; schema_keys reg source typ.

(** The schema registered for an event has exactly its attributes. *)
Definition described (input : InputEvent) : Prop :=
  default_keys (Input_Source input) (Input_Type input) = Some (event_keys input).

Lemma pair_described source typ desc data url k u details (v : list string) :
  default_keys source typ = Some ({["body"; "url"]} ∪ {[k; "user"]}) →
  described (new_input source typ desc data url (<[k := v]> {["user" := u]}) details).
Proof.
  intros H. unfold described, event_keys. simpl. by rewrite H, dom_insert_L, dom_singleton_L.
Qed.

Lemma user_described source typ desc data url u details :
  default_keys source typ = Some ({["body"; "url"]} ∪ {["user"]}) →
  described (new_input source typ desc data url {["user" := u]} details).
Proof. intros H. unfold described, event_keys. simpl. by rewrite H, dom_singleton_L. Qed.

Definition github_keys : list (string * string) :=
  [(EventTypeIssueComment, "mention"); (EventTypePullRequestReviewComment, "mention");
   (EventTypePullRequestReview, "mention"); (EventTypeIssueAssigned, "assignee");
   (EventTypePullRequestAssigned, "assignee"); (EventTypePullRequestClosed, "state");
   (EventTypeLabelAdded, "label")].

Definition schema_agrees (source : string) (tk : string * string) : bool :=
  bool_decide (default_keys source tk.1 = Some ({["body"; "url"]} ∪ {[tk.2; "user"]})).

Lemma github_default_keys typ k :
  (typ, k) ∈ github_keys → default_keys "github" typ = Some ({["body"; "url"]} ∪ {[k; "user"]}).
Proof.
  intros Hin. assert (H : forallb (schema_agrees "github") github_keys = true) by (vm_compute; done).
  rewrite forallb_forall in H. apply list_elem_of_In in Hin. apply H in Hin.
  by apply bool_decide_eq_true in Hin.
Qed.

Lemma github_described event input meta :
  toInputEvent event = Some (input, meta) → described input.
Proof.
  destruct event; simpl; intros H; repeat (case_match; try done);
    unfold issue_comment_input, review_comment_input, review_input, assigned_input, labeled_input,
      opened_input, closed_input, github_input in H; simplify_option_eq;
    first [ apply pair_described, github_default_keys; apply list_elem_of_In; simpl; auto 10
          | apply user_described; vm_compute; reflexivity ].
Qed.

Lemma jira_described p input meta :
  jira_toInputEvent p = Some (input, meta) → described input.
Proof.
  unfold jira_toInputEvent, jira_comment_input, jira_label_input. intros H.
  repeat (case_match; try done); simplify_option_eq; repeat case_match; simplify_eq;
    apply pair_described; vm_compute; reflexivity.
Qed.

(** The events the two handlers emit. *)
Inductive emitted : InputEvent → Prop :=
| emitted_github event input meta : toInputEvent event = Some (input, meta) → emitted input
| emitted_jira p input meta : jira_toInputEvent p = Some (input, meta) → emitted input.

Lemma emitted_described input : emitted input → described input.
Proof. intros []; [by eapply github_described|by eapply jira_described]. Qed.

(** One delivery of each kind. *)
Definition some_user : option GHUser := Some (mkGHUser (Some 1) (Some "ann")).
Definition some_comment : option GHComment :=
  Some (mkGHComment (Some "hi") (Some "u") some_user None None None None None None None).
Definition some_issue : option GHIssue := Some (mkGHIssue None (Some "u") None false).
Definition some_pr : option GHPullRequest := Some (mkGHPullRequest None (Some "u") None None).

Definition github_samples : list GitHubEvent :=
  [IssueCommentEvent (Some "created") some_comment some_issue None;
   PullRequestReviewCommentEvent (Some "created") some_comment some_pr None;
   PullRequestReviewEvent (Some "submitted")
     (Some (mkGHReview (Some "ok") (Some "u") some_user None)) some_pr None;
   IssuesEvent (Some "assigned") some_issue some_user some_user None None;
   PullRequestEvent (Some "assigned") some_pr some_user some_user None None;
   PullRequestEvent (Some "opened") some_pr None some_user None None;
   PullRequestEvent (Some "closed") some_pr None some_user None None;
   IssuesEvent (Some "labeled") some_issue None some_user (Some (Some "bug")) None].

Definition jira_samples : list WebhookPayload :=
  let user := mkJiraUser "a1" "Ann" in
  let issue := Some (mkJiraIssue "X-1" "https://x/rest/api/2/issue/1") in
  [mkPayload "comment_created" None (Some (mkJiraComment "5" "hi" user)) issue None;
   mkPayload "jira:issue_updated" (Some user) None issue (Some [mkChangelogItem "labels" "" "bug"])].

Definition has_type (def : EventTypeDef) (input : InputEvent) : bool :=
  String.eqb (Input_Source input) (ET_Source def) && String.eqb (Input_Type input) (ET_Type def).

Definition sampled (def : EventTypeDef) : bool :=
  existsb (λ e, match toInputEvent e with Some (i, _) => has_type def i | None => false end)
    github_samples ||
  existsb (λ p, match jira_toInputEvent p with Some (i, _) => has_type def i | None => false end)
    jira_samples.

Lemma sampled_emitted def :
  sampled def = true →
  ∃ input, emitted input ∧ Input_Source input = ET_Source def ∧ Input_Type input = ET_Type def.
Proof.
  unfold sampled, has_type. rewrite orb_true_iff, !existsb_exists.
  intros [(x & _ & H)|(x & _ & H)]; case_match; try done; case_match; subst;
    apply andb_true_iff in H as [?%String.eqb_eq ?%String.eqb_eq]; eexists;
    (split; [|by split]); econstructor; eassumption.
Qed.

Lemma default_sampled reg :
  DefaultSchemaRegistry = Some reg → Forall (λ def, sampled def = true) (eventTypes reg).
Proof.
  intros Hreg. apply (f_equal (λ r, from_option (λ r, forallb sampled (eventTypes r)) false r)) in Hreg.
  assert (H : from_option (λ r, forallb sampled (eventTypes r)) false DefaultSchemaRegistry = true)
    by (vm_compute; reflexivity).
  rewrite H in Hreg. simpl in Hreg. symmetry in Hreg. rewrite forallb_forall in Hreg.
  apply Forall_forall. intros def Hdef. apply Hreg. by apply list_elem_of_In.
Qed.

Lemma Validate_keys reg rule ks :
  Validate reg rule = None → schema_keys reg (Rule_Source rule) (Rule_Type rule) = Some ks →
  Forall (λ c, Cond_Attr c ∈ ks) (Rule_Conditions rule).
Proof.
  unfold Validate, schema_keys. do 2 (destruct (String.eqb _ _); [done|]).
  destruct (EventTypeFor _ _ _) as [def|]; [|done]. simpl. rewrite validateConditions_spec.
  intros Hall [= <-]. eapply Forall_impl; [exact Hall|]. intros c [_ H]. cbv beta.
  unfold hasAttr in H. apply existsb_exists in H as (a & Ha & He%String.eqb_eq).
  apply elem_of_list_to_set, list_elem_of_fmap. exists a. split; [done|]. by apply list_elem_of_In.
Qed.

(** The schemas and the handlers agree.  Registration does not panic;
    every event a delivery becomes has a registered schema, which offers exactly
    the attributes the event carries; every registered schema has events; and a
    rule that passes validation conditions only on attributes every event it
    selects carries. *)
Theorem schema_agreement :
  ∃ reg, DefaultSchemaRegistry = Some reg ∧
  (∀ input, emitted input →
     schema_keys reg (Input_Source input) (Input_Type input) = Some (event_keys input)) ∧
  (∀ def, def ∈ eventTypes reg → ∃ input, emitted input ∧
     Input_Source input = ET_Source def ∧ Input_Type input = ET_Type def) ∧
  (∀ rule input, Validate reg rule = None → emitted input →
     Input_Source input = Rule_Source rule → Input_Type input = Rule_Type rule →
     Forall (λ c, Cond_Attr c ∈ event_keys input) (Rule_Conditions rule)).
Proof.
  destruct DefaultSchemaRegistry as [reg|] eqn:Hreg; [|by vm_compute in Hreg].
  exists reg. split; [done|].
  assert (Hkeys : ∀ input, emitted input →
    schema_keys reg (Input_Source input) (Input_Type input) = Some (event_keys input)).
  { intros input H%emitted_described. unfold described, default_keys in H. by rewrite Hreg in H. }
  split; [exact Hkeys|]. split.
  - intros def Hdef. apply sampled_emitted. pose proof (default_sampled reg Hreg) as H.
    by rewrite Forall_forall in H; apply H.
  - intros rule input Hv Hin Hs Ht. specialize (Hkeys input Hin). rewrite Hs, Ht in Hkeys.
    by eapply Validate_keys.
Qed.

(** The schemas of these events offer their description as [body], which the
    handlers leave empty: a condition on it never holds. *)
Definition body_less (typ : string) : bool :=
  contains_string
    [EventTypeIssueAssigned; EventTypePullRequestAssigned; EventTypePullRequestOpened;
     EventTypeLabelAdded] typ.

Lemma body_less_empty input :
  emitted input → body_less (Input_Type input) = true → Input_Data input = "".
Proof.
  intros [event input' meta H|p input' meta H]; revert H.
  - destruct event; simpl; intros H; repeat (case_match; try done);
      unfold issue_comment_input, review_comment_input, review_input, assigned_input, labeled_input,
        opened_input, closed_input, github_input in H; simplify_option_eq; done.
  - unfold jira_toInputEvent, jira_comment_input, jira_label_input. intros H.
    repeat (case_match; try done); simplify_option_eq; repeat case_match; by simplify_eq.
Qed.

Lemma op_holds_empty c : Cond_Value c ≠ "" → op_holds c "" = false.
Proof.
  intros Hv. apply not_true_iff_false. rewrite op_holds_spec. intros [_ H|s _ H|s s' _ H].
  - by rewrite H in Hv.
  - by destruct (Cond_Value c).
  - destruct s; [|done]. by destruct (Cond_Value c).
Qed.

(** A rule on the body of such an event never matches. *)
Lemma body_condition_dead input rule c :
  emitted input → body_less (Input_Type input) = true →
  c ∈ Rule_Conditions rule → Cond_Attr c = "body" → Cond_Value c ≠ "" → Match rule input = false.
Proof.
  intros Hin Ht Hc Ha Hv. unfold Match.
  destruct (negb _ && negb _); [done|]. destruct (negb _ && negb _); [done|].
  apply not_true_iff_false. rewrite forallb_forall. intros H.
  apply list_elem_of_In in Hc. apply H in Hc. unfold Input_Attr in Hc. rewrite Ha in Hc. simpl in Hc.
  unfold conditionMatch in Hc. simpl in Hc. rewrite (body_less_empty input Hin Ht) in Hc.
  by rewrite (op_holds_empty c Hv) in Hc.
Qed.
