(* ===== verification/EventTypes.v ===== *)
(** * The event types API

    Models [internal/server/apiserver/event_types.go]: listing the schemas and
    routing a test event, in a dry run or for real, which stays within its
    caller's org.  The conversion of the schemas to protobuf copies their
    fields and is left out. *)

From S2P Require Import Prelude AuthScope EventModel TaskModel Links PubSub ScheduleModel Rules.
From S2P Require Import Store StoreOps StoreLogic ApiBase Timeline ShellServer ApiTask ApiTaskSpec.
From S2P Require Import Evolution EventRouter.

(** ** The API *)

Definition GetEventTypes (reg : SchemaRegistry) (caller : UserInfo) : M (list EventTypeDef) :=
  if negb (Allow (User_Scopes caller) OpOrgRead []) then PermissionDenied "cannot read org"
  else mret (eventTypes reg).

Record TestEventRequest := mkTestEvent {
  TE_Source : string; TE_Type : string; TE_Attrs : gmap string string; TE_Description : string;
  TE_Fire : bool; TE_Details : gmap string string }.

Record TestEventMatch := mkTestMatch {
  TM_OrgId : Z; TM_RuleIndex : Z; TM_WouldWake : bool; TM_WouldCreate : bool;
  TM_CreatedTaskIds : list Z; TM_EventIds : list Z }.

Record TestEventResponse := mkTestResponse { TR_Fired : bool; TR_Matches : list TestEventMatch }.

Definition int32 (z : Z) : Z := (z + 2 ^ 31) mod 2 ^ 32 - 2 ^ 31.

Definition RouteMatch_Proto (m : RouteMatch) : TestEventMatch :=
  mkTestMatch (RM_OrgID m) (int32 (Z.of_nat (RM_RuleIndex m))) (Rule_Wakeup (RM_Rule m))
    (bool_decide (is_Some (Rule_Create (RM_Rule m)))) [] [].

(** One turn of the loop over the request's attrs. *)
Definition set_test_attr (key value : string) (input : InputEvent) : InputEvent :=
  if String.eqb key "body" then
    mkInput (Input_Source input) (Input_Type input) (Input_Description input) value (Input_URL input)
      (Input_UserID input) (Input_Orgs input) (Input_Attrs input) (Input_Details input)
  else if String.eqb key "url" then
    mkInput (Input_Source input) (Input_Type input) (Input_Description input) (Input_Data input) value
      (Input_UserID input) (Input_Orgs input) (Input_Attrs input) (Input_Details input)
  else
    mkInput (Input_Source input) (Input_Type input) (Input_Description input) (Input_Data input)
      (Input_URL input) (Input_UserID input) (Input_Orgs input) (<[key := [value]]> (Input_Attrs input))
      (Input_Details input).

Definition test_input (caller : UserInfo) (req : TestEventRequest) : InputEvent :=
  map_fold set_test_attr
    (mkInput (TE_Source req) (TE_Type req) (TE_Description req) "" "" (User_ID caller)
       [User_OrgID caller] ∅ (TE_Details req))
    (TE_Attrs req).

(** What a fired outcome adds to its match. *)
Definition report_outcome (m : TestEventMatch) (o : RouteOutcome) : TestEventMatch :=
  mkTestMatch (TM_OrgId m) (TM_RuleIndex m) (TM_WouldWake m) (TM_WouldCreate m)
    (if RO_Created o then RO_TaskIDs o else TM_CreatedTaskIds m) (RO_EventIDs o).

(** [None]: an outcome without a match is an index out of range. *)
Fixpoint report_outcomes (ms : list TestEventMatch) (os : list RouteOutcome)
    : option (list TestEventMatch) :=
  match os, ms with
  | [], _ => Some ms
  | o :: os, m :: ms => cons (report_outcome m o) <$> report_outcomes ms os
  | _ :: _, [] => None
  end.

Section test_event.
Context (url_Parse : string → option Url).

(** [routed]: whether the server has a router. *)
Definition TestEvent (routed : bool) (caller : UserInfo) (req : TestEventRequest)
    : M TestEventResponse :=
  let op := if TE_Fire req then OpOrgWrite else OpOrgRead in
  if negb (Allow (User_Scopes caller) op []) then PermissionDenied "cannot access org"
  else if negb routed then raise (EConnect CodeInternal "event router not configured")
  else
    let input := test_input caller req in
    matches ← catch (Plan input);
    match matches with
    | inl err => Internal err
    | inr matches =>
        let matches := List.filter (λ m, RM_OrgID m =? User_OrgID caller) matches in
        let resp := map RouteMatch_Proto matches in
        if negb (TE_Fire req) then mret (mkTestResponse (TE_Fire req) resp)
        else
          outcomes ← catch (Apply url_Parse input matches);
          match outcomes with
          | inl err => Internal err
          | inr outcomes =>
              match report_outcomes resp outcomes with
              | None => raise (EPanic "index out of range")
              | Some ms => mret (mkTestResponse (TE_Fire req) ms)
              end
          end
    end.
End test_event.

(** ** A test event *)

(** The report of a dry run: the caller's org's match, if any. *)
Definition test_matches (tb : Tables) (caller : UserInfo) (req : TestEventRequest) : list RouteMatch :=
  let input := test_input caller req in
  List.filter (λ m, RM_OrgID m =? User_OrgID caller) (omap (plan_org input) (event_orgs input tb)).

(** A match without the rows a fire writes. *)
Definition planned (m : TestEventMatch) : TestEventMatch :=
  mkTestMatch (TM_OrgId m) (TM_RuleIndex m) (TM_WouldWake m) (TM_WouldCreate m) [] [].

Lemma planned_report ms os :
  length os = length ms →
  ∃ ms', report_outcomes ms os = Some ms' ∧ map planned ms' = map planned ms.
Proof.
  revert ms. induction os as [|o os IH]; intros [|m ms] Hlen; simplify_eq/=; [by exists []|].
  destruct (IH ms) as (ms' & -> & Hp); [lia|]. eexists. split; [done|]. simpl. by rewrite Hp.
Qed.

Lemma planned_Proto ms : map planned (map RouteMatch_Proto ms) = map RouteMatch_Proto ms.
Proof. rewrite map_map. by apply map_ext. Qed.

Section test_event_spec.
Context (url_Parse : string → option Url) (routed : bool) (caller : UserInfo) (req : TestEventRequest).

Definition test_op : list string := if TE_Fire req then OpOrgWrite else OpOrgRead.

Definition test_event_post (w : World) (r : Err + TestEventResponse) (w' : World) : Prop :=
  ran (only (User_OrgID caller)) w w' ∧
  (TE_Fire req = false → at_ w (committed w) [] w') ∧
  match r with
  | inr resp =>
      Allow (User_Scopes caller) test_op [] = true ∧ TR_Fired resp = TE_Fire req ∧
      map planned (TR_Matches resp) = map RouteMatch_Proto (test_matches (committed w) caller req)
  | inl err => isPanic err = false ∧
      (Allow (User_Scopes caller) test_op [] = true → routed = true → ¬ healthy w)
  end.

Lemma TestEvent_spec w :
  world_ok w → wp (TestEvent url_Parse routed caller req) (test_event_post w) w.
Proof.
  intros Hw. pose proof (at_refl w Hw) as Hat. unfold TestEvent. fold test_op.
  destruct (Allow _ test_op []) eqn:Ha; simpl.
  2:{ apply wp_raise. split; [by apply ran_refl|]. split; [done|]. by split; [|congruence]. }
  destruct routed eqn:Hr; simpl.
  2:{ apply wp_raise. split; [by apply ran_refl|]. split; [done|]. split; [done|congruence]. }
  wp_step. apply wp_catch. eapply wp_mono; [by apply Plan_spec|]. intros [e|ms] w1 Hout; simpl in Hout.
  { destruct Hout as [Hat1 Hn]. apply wp_raise. split; [|split; [done|]].
    - exists (committed w), []. split; [done|apply evolves_refl].
    - split; [done|]. by intros _ _ ?%Hn. }
  destruct Hout as (tb & ns & Hat1 & -> & -> & ->). fold (test_matches (committed w) caller req).
  assert (Hran : ran (only (User_OrgID caller)) w w1).
  { exists (committed w), []. split; [done|apply evolves_refl]. }
  destruct (TE_Fire req) eqn:Hf; simpl.
  2:{ apply wp_ret. split; [done|]. split; [done|]. split; [done|]. simpl. rewrite Hf.
    split; [done|]. apply planned_Proto. }
  wp_step. apply wp_catch. eapply wp_mono; [apply Apply_ran; by eapply at_world_ok|].
  intros r w2 [Hran2 Hout].
  assert (Hall : ran (only (User_OrgID caller)) w w2).
  { eapply ran_trans; [exact Hran|]. eapply ran_mono; [|exact Hran2].
    intros o (m & -> & Hm)%list_elem_of_fmap. apply list_elem_of_In, filter_In in Hm as [_ Hm].
    by apply Z.eqb_eq in Hm. }
  destruct r as [e|os].
  - apply wp_raise. split; [done|]. split; [congruence|]. split; [done|]. intros _ _ Hh. apply Hout.
    by eapply ran_healthy.
  - destruct (planned_report (map RouteMatch_Proto (test_matches (committed w) caller req)) os)
      as (ms' & -> & Hp); [by rewrite length_map|].
    apply wp_ret. split; [done|]. split; [congruence|]. split; [done|]. simpl. rewrite Hf, Hp.
    split; [done|]. apply planned_Proto.
Qed.
End test_event_spec.

(** The rule a test event meets: the first of its caller's org that may fire
    and matches. *)
Definition test_plan (tb : Tables) (caller : UserInfo) (req : TestEventRequest) : list TestEventMatch :=
  let input := test_input caller req in
  match t_orgs tb !! User_OrgID caller with
  | Some org =>
      if Org_archived org then []
      else match first_match (is_member input org) input 0 (Org_rules org) with
           | Some (rule, i) => [RouteMatch_Proto (mkMatch (User_OrgID caller) rule i)]
           | None => []
           end
  | None => []
  end.

(** Looking for one key among the entries of a map. *)
Lemma omap_lookup {A B} (f : Z * A → option B) (m : gmap Z A) (k : Z) :
  (∀ i a, i ≠ k → f (i, a) = None) →
  omap f (map_to_list m) = match m !! k with Some a => option_list (f (k, a)) | None => [] end.
Proof.
  intros Hf. assert (Hno : ∀ m', m' !! k = None → omap f (map_to_list m') = []).
  { intros m' Hn. destruct (omap f _) as [|b l] eqn:E; [done|exfalso].
    assert (Hb : b ∈ b :: l) by by left. rewrite <- E in Hb.
    apply list_elem_of_omap in Hb as ([i a] & Hia%elem_of_map_to_list & Hfa).
    rewrite Hf in Hfa; [done|congruence]. }
  destruct (m !! k) as [a|] eqn:E; [|by apply Hno].
  pose proof (map_to_list_delete m k a E) as Hp. apply (omap_Permutation f) in Hp. simpl in Hp.
  rewrite (Hno (delete k m)) in Hp by apply lookup_delete_eq.
  destruct (f (k, a)); simpl in *; [by apply Permutation_singleton_l in Hp|by apply Permutation_nil_l in Hp].
Qed.

Lemma filter_omap {A B} (f : A → option B) (p : B → bool) (l : list A) :
  List.filter p (omap f l) = omap (λ a, b ← f a; if p b then Some b else None) l.
Proof.
  induction l as [|a l IH]; [done|]. cbn [omap list_omap]. rewrite <- IH. destruct (f a) as [b|]; simpl;
    [by destruct (p b)|done].
Qed.

Lemma omap_omap {A B C} (f : A → option B) (g : B → option C) (l : list A) :
  omap g (omap f l) = omap (λ a, f a ≫= g) l.
Proof.
  induction l as [|a l IH]; [done|]. cbn [omap list_omap]. rewrite <- IH. by destruct (f a).
Qed.

Lemma test_input_orgs caller req :
  Input_Orgs (test_input caller req) = [User_OrgID caller] ∧
  Input_UserID (test_input caller req) = User_ID caller.
Proof.
  unfold test_input.
  apply (map_fold_weak_ind (λ input _, Input_Orgs input = [User_OrgID caller] ∧
    Input_UserID input = User_ID caller)); [done|].
  intros key value m input _ [<- <-]. unfold set_test_attr. by repeat case_match.
Qed.

Lemma test_matches_plan tb caller req :
  map RouteMatch_Proto (test_matches tb caller req) = test_plan tb caller req.
Proof.
  unfold test_matches, test_plan, event_orgs. cbv zeta. set (input := test_input caller req).
  assert (Horgs : Input_Orgs input = [User_OrgID caller]) by apply test_input_orgs.
  rewrite omap_omap, filter_omap, (omap_lookup _ _ (User_OrgID caller)).
  - destruct (t_orgs tb !! User_OrgID caller) as [org|]; [|done]. cbv beta.
    unfold event_org. fold (is_member input org). rewrite Horgs.
    destruct (Org_archived org); [done|]. unfold plan_org.
    destruct (is_member input org); [|rewrite bool_decide_true by by left]; simpl;
      (destruct (first_match _ input 0 _) as [[rule i]|]; simpl; [by rewrite Z.eqb_refl|done]).
  - intros i org Hne. cbv beta. unfold event_org, plan_org.
    assert (Hi : (i =? User_OrgID caller) = false) by by apply Z.eqb_neq.
    destruct (Org_archived org); [done|].
    destruct (contains_string _ _); [|case_bool_decide; [|done]]; simpl;
      (destruct (first_match _ input 0 _) as [[rule j]|]; simpl; [by rewrite Hi|done]).
Qed.

(** An injected test event stays within its caller's org, and is not more
    than it says: a dry run writes and publishes nothing, and its report is the
    first rule of the caller's org that may fire and matches, the same that
    firing reports; both need the caller's leave, and fail then only with the
    database. *)
Theorem test_event_confined (url_Parse : string → option Url) (caller : UserInfo)
    (req : TestEventRequest) (w w' : World) (r : Err + TestEventResponse) :
  world_ok w → TestEvent url_Parse true caller req w = (r, w') →
  world_ok w' ∧ evolves (only (User_OrgID caller)) (committed w) (committed w') ∧
  (TE_Fire req = false → committed w' = committed w ∧ published w' = published w) ∧
  match r with
  | inr resp =>
      Allow (User_Scopes caller) (if TE_Fire req then OpOrgWrite else OpOrgRead) [] = true ∧
      TR_Fired resp = TE_Fire req ∧
      map planned (TR_Matches resp) = test_plan (committed w) caller req
  | inl err =>
      isPanic err = false ∧
      (Allow (User_Scopes caller) (if TE_Fire req then OpOrgWrite else OpOrgRead) [] = true →
       ¬ healthy w)
  end.
Proof.
  intros Hw Hrun. pose proof (TestEvent_spec url_Parse true caller req w Hw) as H.
  unfold wp in H. rewrite Hrun in H. destruct H as (Hran & Hdry & H).
  split; [by eapply ran_world_ok|]. split; [by apply ran_evolves|]. split.
  - intros Hf. specialize (Hdry Hf). split; [by apply at_committed in Hdry|].
    apply at_published in Hdry. by rewrite app_nil_r in Hdry.
  - unfold test_op in H. destruct r as [e|resp]; [naive_solver|].
    by rewrite <- test_matches_plan.
Qed.

(** The sample world's public rule, tried by a member and by an API key. *)
Definition test_req (url : string) (fire : bool) : TestEventRequest :=
  mkTestEvent "github" "comment" (<["url" := url]> {["mention" := "bot"]}) "d" fire ∅.

Lemma test_event_confined_witness :
  ∃ resp, fst (TestEvent no_url true sample_caller (test_req "https://x/1" true) router_world) = inr resp ∧
    map planned (TR_Matches resp) = test_plan (committed router_world) sample_caller (test_req "https://x/1" true) ∧
    test_plan (committed router_world) sample_caller (test_req "https://x/1" true) =
      [mkTestMatch 3 0 true true [] []] ∧
    map TM_EventIds (TR_Matches resp) ≠ [[]].
Proof.
  destruct (test_event_confined no_url sample_caller (test_req "https://x/1" true) router_world _ _
    router_world_ok (surjective_pairing _)) as (_ & _ & _ & H).
  destruct (fst (TestEvent no_url true sample_caller (test_req "https://x/1" true) router_world))
    as [e|resp] eqn:E; [vm_compute in E; discriminate E|].
  exists resp. split; [reflexivity|]. split; [apply H|]. split; [vm_compute; reflexivity|].
  vm_compute in E. injection E as <-. discriminate.
Defined.

(** A test event without a URL, fired: routing ignores such an event, firing
    creates the rule's task. *)
Lemma fire_without_url :
  let req := mkTestEvent "github" "comment" {["mention" := "bot"]} "d" true ∅ in
  fst (Route no_url (test_input sample_caller req) router_world) = inr (0%nat, []) ∧
  fst (TestEvent no_url true sample_caller req router_world) =
    inr (mkTestResponse true [mkTestMatch 3 0 true true [8] [8]]).
Proof. split; vm_compute; reflexivity. Qed.
