(* ===== verification/Server.v ===== *)
(** * The server as a whole

    Every request of the API, sign-in and account linking, the webhooks, the
    scheduler's and the archiver's ticks and the event router, as the steps of
    one system ([internal/server/apiserver], [storeauth.go], [githubserver],
    [atlassianserver], [scheduler], [archiver], [eventrouter]), over a database
    that may fail at any statement.  Each step only evolves the tables ([Evolution]), and a
    request only within its caller's org; from that follow the invariants of
    every reachable state. *)

From S2P Require Import Prelude Base64 AuthScope EventModel TaskModel Links PubSub ScheduleModel.
From S2P Require Import Rules Store StoreOps StoreLogic ApiBase Timeline ShellServer ApiTask.
From S2P Require Import Evolution ApiTaskSpec ApiRunner Scheduler ApiSchedule Archiver Pagination.
From S2P Require Import StorePages ApiEvents EventRouter ScopeParse StoreAccounts ApiAccounts.
From S2P Require Import AccountSpec SignIn Mentions Webhooks EventTypes.

(** ** Requests *)

(** One constructor per handler. *)
Inductive Request :=
| ReqCreateTask (req : CreateTaskRequest)
| ReqGetTask (id : Z)
| ReqListTasks (pageSize : Z) (pageToken : string) (archived : bool)
| ReqListRunnerTasks (runner : string)
| ReqUpdateTask (req : UpdateTaskRequest)
| ReqArchiveTask (id : Z)
| ReqUnarchiveTask (id : Z)
| ReqCancelTask (id : Z)
| ReqRestartTask (id : Z)
| ReqOpenShell (registry : option Registry) (sid : string) (id : Z)
| ReqSubmitRunnerEvents (events : list RunnerEvent)
| ReqListExternalEvents (limit : Z)
| ReqGetEvent (id : Z)
| ReqDeleteEvent (id : Z)
| ReqListEventsByTask (req : ListEventsByTaskRequest)
| ReqCreateLink (req : CreateLinkRequest)
| ReqListLinks (taskID : Z)
| ReqUploadLogs (taskID : Z) (entries : list LogEntry)
| ReqAppendLogChunk (taskID version : Z) (data : list Z)
| ReqListLogChunks (taskID pageSize : Z) (pageToken : string)
| ReqRegisterWorkspaces (runnerID : string) (workspaces : list WorkspaceReq)
| ReqListWorkspaces
| ReqClearWorkspaces (runnerID : string)
| ReqCreateTaskToken (taskID : Z) (capabilities : list string)
| ReqCreateSchedule (req : ScheduleRequest) (enabled : bool)
| ReqGetSchedule (id : Z)
| ReqListSchedules
| ReqUpdateSchedule (id : Z) (req : ScheduleRequest)
| ReqDeleteSchedule (id : Z)
| ReqSetScheduleEnabled (id : Z) (enabled : bool)
| ReqRunSchedule (id : Z).

(** A handler's effect when its transaction's part succeeded or not. *)
Definition ran_within (orgs : Z → Prop) {A} (m : M A) : Prop :=
  ∀ w, world_ok w → wp m (λ _ w', ran orgs w w') w.

Lemma ran_within_ignore {A} orgs (m : M A) : ran_within orgs m → ran_within orgs (ignore m).
Proof.
  intros Hm w Hw. unfold ignore. apply wp_bind. eapply wp_mono; [by apply Hm|].
  by intros [e|a] w' H.
Qed.

Lemma ReadOnly_ran {A} orgs (m : M A) : ReadOnly m → ran_within orgs m.
Proof.
  intros Hm w Hw. eapply wp_mono; [by apply Hm|]. intros r w' Hat. exists (committed w), [].
  split; [done|apply evolves_refl].
Qed.

Lemma ran_within_spec {A} orgs (m : M A) ok err :
  HandlerSpec m ok err →
  (∀ now tb q a tb' ns, tables_ok tb q → ok now tb a tb' ns → evolves orgs tb tb') →
  ran_within orgs m.
Proof. intros Hm Hev w Hw. by eapply spec_ran. Qed.

(** [New]'s [onShellClose], which tear-down runs for a session that is over: the
    error is only logged. *)
Definition onShellClose (session : string) (orgID : Z) : M unit :=
  _ ← catch (ClearShellSession NoTx session orgID); mret tt.

(** ** Each handler's tables *)

(** The steps a handler's transition is made of. *)
Definition steps (f : Task → bool * Task) : Prop := ∀ t, rtc task_step t (snd (f t)).

Lemma transition_evolves step kind action message caller id now tb q a tb' ns :
  steps step → tables_ok tb q →
  transition_ok step kind action message caller id now tb a tb' ns →
  evolves (only (User_OrgID caller)) tb tb'.
Proof.
  intros Hst Hok (row & t' & Hsel & _ & Hs & Hadd & _).
  destruct (select_task_ok _ _ _ _ _ Hok Hsel) as (Hid & Horg & _).
  specialize (Hst (toModelTask row)). rewrite Hs in Hst. simpl in Hst.
  etrans; [by apply (evolves_put_task (only (User_OrgID caller)) tb id (User_OrgID caller) row t' now)|].
  eapply evolves_add_events; [exact Hadd|]. constructor; [|constructor].
  destruct (rtc_task_step_identity _ _ Hst) as [(_ & Ho & _) _]. unfold only. simpl in *. congruence.
Qed.

(** The table [onShellClose] leaves: the write, unless it failed. *)
Definition shell_cleared (session : string) (orgID : Z) (tb tb' : Tables) : Prop :=
  tb' = tb ∨ tb' = with_tasks (fmap (clear_shell session orgID)) tb.

Lemma clear_shell_same session orgID r :
  Row_id (clear_shell session orgID r) = Row_id r ∧ Row_org_id (clear_shell session orgID r) = Row_org_id r.
Proof. unfold clear_shell. by destruct (_ && _). Qed.

Lemma keeps_clear_shell session orgID : keeps_ids (with_tasks (fmap (clear_shell session orgID))).
Proof.
  intros tb q Hok. pose proof Hok as [].
  assert (Htask : ∀ id, fk_task (with_tasks (fmap (clear_shell session orgID)) tb) id = fk_task tb id).
  { intros id. unfold fk_task. simpl. rewrite lookup_fmap. apply bool_decide_ext, fmap_is_Some. }
  constructor; try done; intros i x; rewrite ?Htask; simpl.
  - simpl in x. rewrite lookup_fmap in x. apply fmap_is_Some in x. auto.
  - rewrite lookup_fmap. intros Hx.
    apply fmap_Some in Hx as (r & Hr & ->). destruct (clear_shell_same session orgID r) as [-> ->]. eauto.
  - eauto.
  - eauto.
  - eauto.
  - intros Hx. destruct (schedule_rows _ _ Hx) as [Hid Hfk]. split; [done|].
    revert Hfk. unfold fk_last_task. destruct (Sched_LastTaskID x); [|done]. by rewrite Htask.
Qed.

Lemma clear_shell_evolves session orgID tb :
  evolves (only orgID) tb (with_tasks (fmap (clear_shell session orgID)) tb).
Proof.
  destruct (evolves_refl (only orgID) tb). constructor; try done; simpl; intros i r.
  - intros Hr. exists (clear_shell session orgID r). rewrite lookup_fmap, Hr. split; [done|].
    unfold clear_shell. destruct (_ && _) eqn:E.
    + apply andb_true_iff in E as [_ Ho%Z.eqb_eq]. split; [|by intros []]. repeat split.
      apply rtc_once. exact (step_shell (toModelTask r) "").
    + split; [apply row_evolves_refl|done].
  - rewrite lookup_fmap. intros Hn. by rewrite Hn.
Qed.

Lemma shell_cleared_evolves session orgID tb tb' :
  shell_cleared session orgID tb tb' → evolves (only orgID) tb tb'.
Proof. intros [->| ->]; [apply evolves_refl|apply clear_shell_evolves]. Qed.

Lemma onShellClose_spec session orgID w :
  world_ok w → wp (onShellClose session orgID) (λ res w', res = inr tt ∧ ∃ tb,
    at_ w tb [] w' ∧ evolves (only orgID) (committed w) tb ∧ shell_cleared session orgID (committed w) tb ∧
    (healthy w → tb = with_tasks (fmap (clear_shell session orgID)) (committed w))) w.
Proof.
  intros Hw. pose proof (at_refl w Hw) as Hat. unfold onShellClose. apply wp_bind, wp_catch.
  eapply wp_update_NoTx; [exact Hat|apply keeps_clear_shell|intros msg w' Hh Hat'|intros w' Hat'];
    (apply wp_ret; split; [done|]; eexists; split; [exact Hat'|]).
  - split; [apply evolves_refl|]. split; [by left|done].
  - split; [apply clear_shell_evolves|]. by split; [right|].
Qed.

Lemma steps_Archive : steps Archive. Proof. intros t. apply rtc_once, step_archive. Qed.
Lemma steps_Unarchive : steps Unarchive. Proof. intros t. apply rtc_once, step_unarchive. Qed.
Lemma steps_Cancel : steps Cancel. Proof. intros t. apply rtc_once, step_cancel. Qed.
Lemma steps_Restart : steps Restart. Proof. intros t. apply rtc_once, step_restart. Qed.
Lemma steps_openShell sid : steps (openShell sid).
Proof.
  intros t. unfold openShell. destruct (IsTerminal _); [|done].
  pose proof (step_start t) as Hs. destruct (Start t) as [[] t']; simpl in *;
    [|first [done|by apply rtc_once]]. eapply rtc_l; [exact Hs|]. apply rtc_once, step_shell.
Qed.

Lemma steps_updated req t : rtc task_step t (updated_task req t).
Proof.
  unfold updated_task. cbv zeta.
  set (t1 := if negb (String.eqb (UT_Name req) "") then set_Name (UT_Name req) t else t).
  assert (H1 : rtc task_step t t1) by (subst t1; case_match; [apply rtc_once, step_name|done]).
  set (t2 := if UT_Start req then snd (Start t1) else t1).
  assert (H2 : rtc task_step t1 t2) by (subst t2; case_match; [apply rtc_once, step_start|done]).
  etrans; [exact H1|]. etrans; [exact H2|]. case_match; [apply rtc_once, step_auto_archive|done].
Qed.

Lemma update_evolves caller req now tb q a tb' ns :
  tables_ok tb q → update_ok caller req now tb a tb' ns →
  evolves (only (User_OrgID caller)) tb tb'.
Proof.
  intros Hok (row & tb1 & Hsel & _ & Hadd1 & Hadd2 & _).
  destruct (select_task_ok _ _ _ _ _ Hok Hsel) as (Hid & Horg & _).
  pose proof (steps_updated req (toModelTask row)) as Hst.
  pose proof (add_events_tasks _ _ _ _ Hadd1) as Ht1.
  etrans; [eapply evolves_add_events; [exact Hadd1|]|].
  { apply Forall_forall. intros e (inst & -> & _)%list_elem_of_fmap. exact Horg. }
  etrans; [apply (evolves_put_task (only (User_OrgID caller)) tb1 (UT_Id req) (User_OrgID caller)
    row (updated_task req (toModelTask row)) now); [done|done| |done]|].
  { unfold select_task in *. by rewrite Ht1. }
  eapply evolves_add_events; [exact Hadd2|]. constructor; [|constructor].
  destruct (rtc_task_step_identity _ _ Hst) as [(_ & Ho & _) _]. unfold only. simpl in *. congruence.
Qed.

Lemma new_task_init caller req : task_init (new_task caller req).
Proof.
  unfold task_init, new_task. destruct (CT_Draft req), (CT_AutoArchive req); simpl;
    (split; [done|]); by (left + right).
Qed.

Lemma create_task_evolves caller req now tb q a tb' ns :
  tables_ok tb q → create_ok caller req now tb a tb' ns →
  evolves (only (User_OrgID caller)) tb tb'.
Proof.
  intros Hok (id & _ & _ & Hid & -> & Hadd & _).
  etrans; [apply (evolves_insert_task (only (User_OrgID caller)) tb id (new_task caller req) now);
    [apply new_task_org|apply new_task_init|by apply fresh_None]|].
  eapply evolves_add_events; [exact Hadd|]. constructor.
  - unfold only. simpl. apply new_task_org.
  - apply Forall_forall. intros e (inst & -> & _)%list_elem_of_fmap. apply new_task_org.
Qed.

Lemma link_evolves url_Parse caller req now tb q a tb' ns :
  tables_ok tb q → CreateLink_ok url_Parse caller req now tb a tb' ns →
  evolves (only (User_OrgID caller)) tb tb'.
Proof.
  intros Hok (row & id & [Hsel _] & Hid & -> & Hadd & _).
  destruct (select_task_ok _ _ _ _ _ Hok Hsel) as (_ & Horg & _).
  etrans; [|eapply evolves_add_events; [exact Hadd|]; constructor; [exact Horg|constructor]].
  apply (evolves_insert_link _ tb id _ row); [done| |done].
  by apply select_task_Some in Hsel as [? _].
Qed.

Lemma chunk_evolves caller taskID version data now tb q a tb' ns :
  tables_ok tb q → AppendLogChunk_ok caller taskID version data now tb a tb' ns →
  evolves (only (User_OrgID caller)) tb tb'.
Proof.
  intros Hok (row & id & _ & _ & Hid & -> & _). apply evolves_with_chunks.
  by apply kept_insert_fresh.
Qed.

Lemma deleted_event_evolves caller id tb :
  evolves (only (User_OrgID caller)) tb (deleted_event id (User_OrgID caller) tb).
Proof.
  unfold deleted_event. destruct (t_events tb !! id) as [e|] eqn:E; [|apply evolves_refl].
  destruct (Z.eqb_spec (Event_OrgID e) (User_OrgID caller)); [|apply evolves_refl].
  apply evolves_with_events, kept_delete. intros y Hy. by simplify_eq.
Qed.

Lemma cleared_evolves runnerID orgID tb : evolves (only orgID) tb (cleared_runner runnerID orgID tb).
Proof. apply evolves_with_workspaces, kept_filter. intros i x Hx [_ Ho]. by apply Hx. Qed.

Lemma clear_workspaces_evolves runnerID orgID tb :
  evolves (only orgID) tb (clear_workspaces runnerID orgID tb).
Proof.
  unfold clear_workspaces. destruct (negb _); [apply cleared_evolves|].
  apply evolves_with_workspaces, kept_filter. intros i x Hx Ho. by apply Hx.
Qed.

Lemma add_workspaces_evolves now runnerID orgID wss tb tb' :
  add_workspaces now runnerID orgID wss tb tb' → evolves (only orgID) tb tb'.
Proof.
  induction 1 as [tb|ws wss id tb tb' Hid _ IH]; [apply evolves_refl|].
  etrans; [|exact IH]. apply evolves_with_workspaces. by apply kept_insert_fresh.
Qed.

Lemma submit_evolves caller event now tb q a tb' ns :
  tables_ok tb q → submit_ok caller event now tb a tb' ns →
  evolves (only (User_OrgID caller)) tb tb'.
Proof.
  intros Hok (row & Hsel & _ & H).
  destruct (select_task_ok _ _ _ _ _ Hok Hsel) as (Hid & Horg & _).
  pose proof (step_event (toModelTask row) event) as Hs.
  destruct (ApplyRunnerEvent (toModelTask row) event) as [[] t'] eqn:E;
    [|destruct H as [-> _]; apply evolves_refl].
  destruct H as (ev & Hev & Hadd & _). simpl in Hs. apply rtc_once in Hs.
  etrans; [by apply (evolves_put_task (only (User_OrgID caller)) tb (RE_TaskID event)
    (User_OrgID caller) row t' now)|].
  eapply evolves_add_events; [exact Hadd|]. constructor; [|constructor].
  destruct (applied_lifecycle _ _ _ (Task_Status (toModelTask row)) E) as (kind & msg & Hl).
  rewrite Hl in Hev. injection Hev as <-.
  destruct (rtc_task_step_identity _ _ Hs) as [(_ & Ho & _) _]. unfold only. simpl in *. congruence.
Qed.

Section schedules.
Context {CR : Cron}.

Lemma Schedule_Task_init s : task_init (Schedule_Task s).
Proof. split; [done|by left]. Qed.

Lemma fired_evolves now s id tb tb' : fired now s id tb tb' → evolves (only (Sched_OrgID s)) tb tb'.
Proof.
  intros [Hid Hadd].
  etrans; [apply (evolves_insert_task (only (Sched_OrgID s)) tb id (Schedule_Task s) now);
    [done|apply Schedule_Task_init|by apply fresh_None]|].
  eapply evolves_add_events; [exact Hadd|]. constructor; [done|].
  apply Forall_forall. by intros e (inst & -> & _)%list_elem_of_fmap.
Qed.

Lemma fired_row_org now s id : Sched_OrgID (fired_row now s id) = Sched_OrgID s.
Proof. unfold fired_row. by destruct (Schedule_Next s now). Qed.

Lemma fires_evolves now due ids tb tb' :
  fires now due ids tb tb' → NoDup (map Sched_ID due) →
  Forall (λ s, t_schedules tb !! Sched_ID s = Some s) due →
  evolves (λ o, o ∈ map Sched_OrgID due) tb tb'.
Proof.
  induction 1 as [tb|s due id ids tb tb1 tb2 Hfired _ IH]; intros Hnd Hall; [apply evolves_refl|].
  apply NoDup_cons in Hnd as [Hns Hnd]. apply Forall_cons in Hall as [Hs Hall].
  pose proof Hfired as [_ (_ & _ & Hsc & _)%add_events_frame]. simpl in Hsc.
  etrans; [eapply evolves_mono; [|by eapply fired_evolves]; intros o ->; by left|].
  etrans; [apply (evolves_with_schedules (λ o, o ∈ map Sched_OrgID (s :: due)) tb1
    <[Sched_ID s := fired_row now s id]>)|].
  { apply (kept_insert _ (λ o, o ∈ map Sched_OrgID (s :: due)));
      [rewrite fired_row_org; by left|]. intros y Hy. rewrite Hsc in Hy. simplify_eq. by left. }
  eapply evolves_mono; [|apply IH; [done|]]; [intros o Ho; by right|].
  apply Forall_forall. intros s' Hs'. simpl. rewrite Hsc, lookup_insert_ne.
  - by eapply Forall_forall in Hall.
  - intros Heq. apply Hns. rewrite Heq. by apply list_elem_of_fmap_2.
Qed.

Lemma create_schedule_evolves caller req enabled now tb q a tb' ns :
  tables_ok tb q → create_schedule_ok caller req enabled now tb a tb' ns →
  evolves (only (User_OrgID caller)) tb tb'.
Proof.
  intros Hok (id & s0 & _ & _ & _ & Hid & Hv & Hr & _ & -> & _).
  destruct (realigned_wf _ _ _ Hr Hv) as (_ & _ & Ho & _); [done|].
  apply evolves_with_schedules. apply kept_insert_fresh; [exact Ho|exact Hid].
Qed.

Lemma rewrite_evolves edit pre action caller id now tb q a tb' ns :
  (∀ now s s', edit now s = inr s' → Sched_OrgID s' = Sched_OrgID s) →
  tables_ok tb q → rewrite_ok edit pre action caller id now tb a tb' ns →
  evolves (only (User_OrgID caller)) tb tb'.
Proof.
  intros Hed Hok (_ & s & Hsel & He & Hput & _). eapply evolves_put_schedule; [|exact Hput].
  apply Hed in He. apply select_schedule_Some in Hsel as [_ Ho]. unfold only. congruence.
Qed.

Lemma realigned_org now s s' : realigned now s = inr s' → Sched_OrgID s' = Sched_OrgID s.
Proof. unfold realigned. by repeat case_match; intros [= <-]. Qed.

Lemma UpdateSchedule_edit_org req now s s' :
  UpdateSchedule_edit req now s = inr s' → Sched_OrgID s' = Sched_OrgID s.
Proof. unfold UpdateSchedule_edit. case_match; [done|]. by intros ->%realigned_org. Qed.

Lemma SetEnabled_edit_org enabled now s s' :
  SetEnabled_edit enabled now s = inr s' → Sched_OrgID s' = Sched_OrgID s.
Proof. unfold SetEnabled_edit. case_match; [by intros ->%realigned_org|by intros [= <-]]. Qed.

Lemma delete_schedule_evolves id orgID tb :
  evolves (only orgID) tb
    (match select_schedule tb id orgID with Some _ => with_schedules (delete id) tb | None => tb end).
Proof.
  destruct (select_schedule tb id orgID) as [s|] eqn:E; [|apply evolves_refl].
  apply evolves_with_schedules, kept_delete. intros y Hy.
  apply select_schedule_Some in E as [E Ho]. by simplify_eq.
Qed.

Lemma run_evolves caller id now tb q a tb' ns :
  tables_ok tb q → run_ok caller id now tb a tb' ns → evolves (only (User_OrgID caller)) tb tb'.
Proof.
  intros Hok (s & tid & Hsel & _ & Hf & _). apply select_schedule_Some in Hsel as [_ <-].
  by eapply fired_evolves.
Qed.
End schedules.

Lemma batch_ran caller w es w' :
  batch caller w es w' → world_ok w → ran (only (User_OrgID caller)) w w'.
Proof.
  induction 1 as [w|w e es w1 w2 tb ns Hat Hok _ IH]; intros Hw; [by apply ran_refl|].
  eapply ran_trans; [|apply IH; by eapply at_world_ok].
  exists tb, ns. split; [done|]. by eapply submit_evolves; [apply Hw|].
Qed.

Lemma SubmitRunnerEvents_ran caller events :
  ran_within (only (User_OrgID caller)) (Server_SubmitRunnerEvents caller events).
Proof.
  intros w Hw. unfold Server_SubmitRunnerEvents.
  destruct (negb _); [apply wp_raise; by apply ran_refl|].
  eapply wp_mono; [by apply for_each_submit|].
  intros r w' (hd & rest & w1 & -> & Hb & Hat & _).
  eapply ran_trans; [by eapply batch_ran|]. exists (committed w1), []. split; [done|apply evolves_refl].
Qed.

Lemma OpenShell_ran registry caller sid id :
  ran_within (only (User_OrgID caller)) (Server_OpenShell registry caller sid id).
Proof.
  intros w Hw. destruct registry as [registry|].
  - eapply wp_mono; [by apply OpenShell_spec|]. intros [e|[s registry']] w' Hout; simpl in Hout.
    + destruct Hout as [Hat|(err & tb & ns & _ & _ & Hat & Hok)].
      * exists (committed w), []. split; [done|apply evolves_refl].
      * exists tb, []. split; [done|]. eapply transition_evolves; [apply steps_openShell|apply Hw|done].
    + destruct Hout as (_ & _ & tb & ns & Hat & Hok). exists tb, ns. split; [done|].
      eapply transition_evolves; [apply steps_openShell|apply Hw|done].
  - unfold Server_OpenShell. destruct (negb _); apply wp_raise; by apply ran_refl.
Qed.

Lemma UploadLogs_ran caller taskID entries :
  ran_within (only (User_OrgID caller)) (Server_UploadLogs caller taskID entries).
Proof.
  intros w Hw. eapply wp_mono; [by apply UploadLogs_spec|].
  assert (Hev : ∀ row now tb es es', may_write caller taskID (committed w) row →
    reports (toModelTask row) entries = es ++ es' → add_events now es (committed w) tb →
    evolves (only (User_OrgID caller)) (committed w) tb).
  { intros row now tb es es' [Hsel _] Hrep Hadd. eapply evolves_add_events; [exact Hadd|].
    assert (Hall : Forall (λ e, only (User_OrgID caller) (Event_OrgID e)) (es ++ es')).
    { rewrite <- Hrep. apply Forall_forall. intros e (entry & -> & _)%list_elem_of_fmap.
      by apply select_task_Some in Hsel as [_ ?]. }
    by apply Forall_app in Hall as [? _]. }
  intros [e|[]] w' Hout; simpl in Hout.
  - destruct Hout as [[Hat _]|(row & tb & st & lost & Hmay & Hat & Hrep & Hadd & _)].
    + exists (committed w), []. split; [done|apply evolves_refl].
    + exists tb, []. split; [done|]. by eapply Hev.
  - destruct Hout as (row & tb & Hmay & Hat & Hadd). eexists _, _. split; [exact Hat|].
    eapply (Hev _ _ _ _ []); [done|by rewrite app_nil_r|done].
Qed.

Lemma ScheduleSpec_ran {CR : Cron} {A} orgs (m : M A) ok err :
  ScheduleSpec m ok err →
  (∀ now tb q a tb' ns, tables_ok tb q → ok now tb a tb' ns → evolves orgs tb tb') →
  ran_within orgs m.
Proof.
  intros Hm Hev w Hw. eapply wp_mono; [by apply Hm|]. intros r w' Hout.
  eapply outcome_ran; [done|exact Hout|]. intros a tb ns Hok. eapply Hev; [apply Hw|exact Hok].
Qed.

Section server.
Context {CR : Cron} {JC : TokenJSON IDCursor} {JT : TokenJSON taskCursor}.
Context (url_Parse : string → option Url) (SignAppToken : AppClaims → Err + string).

(** The dispatch of the API: a request by an authenticated caller. *)
Definition serve (caller : UserInfo) (r : Request) : M unit :=
  match r with
  | ReqCreateTask req => ignore (Server_CreateTask caller req)
  | ReqGetTask id => ignore (Server_GetTask caller id)
  | ReqListTasks size token archived => ignore (Server_ListTasks caller size token archived)
  | ReqListRunnerTasks runner => ignore (Server_ListRunnerTasks caller runner)
  | ReqUpdateTask req => Server_UpdateTask caller req
  | ReqArchiveTask id => Server_ArchiveTask caller id
  | ReqUnarchiveTask id => Server_UnarchiveTask caller id
  | ReqCancelTask id => Server_CancelTask caller id
  | ReqRestartTask id => Server_RestartTask caller id
  | ReqOpenShell registry sid id => ignore (Server_OpenShell registry caller sid id)
  | ReqSubmitRunnerEvents events => Server_SubmitRunnerEvents caller events
  | ReqListExternalEvents limit => ignore (Server_ListExternalEvents caller limit)
  | ReqGetEvent id => ignore (Server_GetEvent caller id)
  | ReqDeleteEvent id => Server_DeleteEvent caller id
  | ReqListEventsByTask req => ignore (Server_ListEventsByTask caller req)
  | ReqCreateLink req => ignore (Server_CreateLink url_Parse caller req)
  | ReqListLinks id => ignore (Server_ListLinks caller id)
  | ReqUploadLogs id entries => Server_UploadLogs caller id entries
  | ReqAppendLogChunk id version data => Server_AppendLogChunk caller id version data
  | ReqListLogChunks id size token => ignore (Server_ListLogChunksByTask caller id size token)
  | ReqRegisterWorkspaces runner wss => Server_RegisterWorkspaces caller runner wss
  | ReqListWorkspaces => ignore (Server_ListWorkspaces caller)
  | ReqClearWorkspaces runner => Server_ClearWorkspaces caller runner
  | ReqCreateTaskToken id caps => ignore (Server_CreateTaskToken SignAppToken caller id caps)
  | ReqCreateSchedule req enabled => ignore (Server_CreateSchedule caller req enabled)
  | ReqGetSchedule id => ignore (Server_GetSchedule caller id)
  | ReqListSchedules => ignore (Server_ListSchedules caller)
  | ReqUpdateSchedule id req => ignore (Server_UpdateSchedule caller id req)
  | ReqDeleteSchedule id => Server_DeleteSchedule caller id
  | ReqSetScheduleEnabled id enabled => ignore (Server_SetScheduleEnabled caller id enabled)
  | ReqRunSchedule id => ignore (Server_RunSchedule caller id)
  end.

Lemma ReadOnly_GetSchedule caller id : ReadOnly (Server_GetSchedule caller id).
Proof. unfold Server_GetSchedule, StoreGetSchedule. readonly. Qed.

Lemma ReadOnly_ListSchedules caller : ReadOnly (Server_ListSchedules caller).
Proof. unfold Server_ListSchedules, StoreListSchedules. readonly. Qed.

Hint Resolve ReadOnly_GetSchedule ReadOnly_ListSchedules ReadOnly_ListEventsByTask
  ReadOnly_ListLogChunksByTask ReadOnly_ListTasks ReadOnly_ListExternalEvents ReadOnly_GetEvent
  ReadOnly_ListLinks ReadOnly_ListWorkspaces ReadOnly_CreateTaskToken ReadOnly_Server_GetTask
  ReadOnly_ListRunnerTasks : readonly.

(** Every request stays within its caller's org. *)
Lemma serve_ran caller r : ran_within (only (User_OrgID caller)) (serve caller r).
Proof.
  destruct r; simpl; try apply ran_within_ignore;
    try solve [apply ReadOnly_ran; auto with readonly].
  - eapply ran_within_spec; [apply CreateTask_spec|apply create_task_evolves].
  - eapply ran_within_spec; [apply UpdateTask_spec|apply update_evolves].
  - eapply ran_within_spec; [apply ArchiveTask_spec|].
    intros. eapply transition_evolves; [apply steps_Archive|eassumption..].
  - eapply ran_within_spec; [apply UnarchiveTask_spec|].
    intros. eapply transition_evolves; [apply steps_Unarchive|eassumption..].
  - eapply ran_within_spec; [apply CancelTask_spec|].
    intros. eapply transition_evolves; [apply steps_Cancel|eassumption..].
  - eapply ran_within_spec; [apply RestartTask_spec|].
    intros. eapply transition_evolves; [apply steps_Restart|eassumption..].
  - apply OpenShell_ran.
  - apply SubmitRunnerEvents_ran.
  - eapply ran_within_spec; [apply DeleteEvent_spec|].
    intros ? ? ? ? ? ? ? (_ & -> & _). apply deleted_event_evolves.
  - eapply ran_within_spec; [apply CreateLink_spec|apply link_evolves].
  - apply UploadLogs_ran.
  - eapply ran_within_spec; [apply AppendLogChunk_spec|apply chunk_evolves].
  - eapply ran_within_spec; [apply RegisterWorkspaces_spec|].
    intros ? ? ? ? ? ? ? (_ & Hadd%add_workspaces_evolves & _). etrans; [apply cleared_evolves|exact Hadd].
  - eapply ran_within_spec; [apply ClearWorkspaces_spec|].
    intros ? ? ? ? ? ? ? (_ & -> & _). apply clear_workspaces_evolves.
  - eapply ran_within_spec; [apply CreateSchedule_spec|apply create_schedule_evolves].
  - eapply ScheduleSpec_ran; [apply UpdateSchedule_spec|].
    intros. eapply rewrite_evolves; [intros ? ? ?; apply UpdateSchedule_edit_org|eassumption..].
  - eapply ran_within_spec; [apply DeleteSchedule_spec|].
    intros ? ? ? ? ? ? ? (_ & -> & _). apply delete_schedule_evolves.
  - eapply ScheduleSpec_ran; [apply SetScheduleEnabled_spec|].
    intros. eapply rewrite_evolves; [intros ? ? ?; apply SetEnabled_edit_org|eassumption..].
  - eapply ran_within_spec; [apply RunSchedule_spec|apply run_evolves].
Qed.
End server.

(** ** The background components *)

Lemma archive_evolves due now tb q b tb' ns :
  tables_ok tb q → archive_ok due now tb b tb' ns → evolves (λ _, True) tb tb'.
Proof.
  intros Hok. destruct b; simpl; [|intros (-> & _); apply evolves_refl].
  intros [(row & Hr & _ & Hc & Hadd) _].
  destruct (select_task_ok _ _ _ _ _ Hok Hr) as (Hid & Horg & _).
  etrans; [apply (evolves_put_task (λ _, True) tb (Due_ID due) (Due_OrgID due) row); [done..|]|
    eapply evolves_add_events; [exact Hadd|]; by repeat constructor].
  apply rtc_once. pose proof (step_archive (toModelTask row)) as Hs.
  unfold Archive in Hs. by rewrite Hc in Hs.
Qed.

Lemma archive_all_ran due : ran_within (λ _, True) (archive_all due).
Proof.
  induction due as [|d due IH]; intros w Hw; [apply wp_ret; by apply ran_refl|].
  simpl. do 2 wp_step. eapply wp_mono.
  { eapply (spec_ran (λ _, True)); [apply archive_spec|apply archive_evolves|done]. }
  intros r w1 Hran. wp_step.
  eapply wp_mono; [apply IH; exact (ran_world_ok _ _ _ Hran)|].
  intros [e|n] w2 Hran2; [|apply wp_ret]; exact (ran_trans _ _ _ _ Hran Hran2).
Qed.

Lemma ArchiverTick_ran batchSize : ran_within (λ _, True) (ArchiverTick batchSize).
Proof.
  intros w Hw. pose proof (at_refl w Hw) as Hat. unfold ArchiverTick, ListTasksDueForArchive.
  do 3 wp_step; simpl.
  - apply wp_raise. exists (committed w), []. split; [done|apply evolves_refl].
  - eapply wp_mono; [apply archive_all_ran; by eapply at_world_ok|].
    intros r w2 Hran. eapply ran_trans; [|exact Hran].
    exists (committed w), []. split; [done|apply evolves_refl].
Qed.

Lemma Tick_ran {CR : Cron} locked limit : ran_within (λ _, True) (Tick locked limit).
Proof.
  intros w Hw. eapply spec_ran; [apply Tick_spec| |done].
  intros now tb q k tb' ns Hok (ids & Hf & _). eapply evolves_mono; [by intros ? _|].
  eapply fires_evolves; [exact Hf|by eapply claim_NoDup|by eapply claim_rows_keyed].
Qed.

(** ** The system *)

(** What a deployment fixes: its integrations and secrets, and the libraries
    behind them. *)
Record Deployment := mkDeployment {
  Dep_BaseURL : string;
  Dep_Atlassian : option string;
  Dep_GitHub : option GithubServer;
  Dep_Registry : SchemaRegistry;
  Dep_Sum256 : string → string;
  Dep_FetchGitHub : string → string + Z * string;
  Dep_FetchAtlassian : string → string + string * string;
  Dep_WebhookSecret : string;
  Dep_ValidateSignature : string → string → string → option string;
  Dep_ParseGitHub : string → string → string + GitHubEvent;
  Dep_Hmac : string → string → string;
  Dep_ParseJira : string → option WebhookPayload }.

Section system.
Context {CR : Cron} {JC : TokenJSON IDCursor} {JT : TokenJSON taskCursor} {MJ : MapJSON}.
Context (url_Parse : string → option Url) (SignAppToken : AppClaims → Err + string).
Context (dep : Deployment).

Definition account_request : UserInfo → AccountRequest → M unit :=
  serve_account (Dep_BaseURL dep) (Dep_Atlassian dep) (Dep_GitHub dep) (Dep_Sum256 dep)
    (Dep_Registry dep).

Definition github_webhook : Delivery → M (Response * list RouteOutcome) :=
  github_ServeHTTP url_Parse (Dep_ValidateSignature dep) (Dep_ParseGitHub dep) (Dep_WebhookSecret dep).

Definition jira_webhook : JiraDelivery → M (Response * list RouteOutcome) :=
  jira_ServeHTTP url_Parse (Dep_Hmac dep) (Dep_ParseJira dep).

(** One step: a request by any caller, a sign-in, an account linked, a tick of
    a background component, a webhook's delivery, a test event or an event to
    route, or time passing and the database failing or recovering. *)
Inductive server_step : World → World → Prop :=
| step_request caller r w res w' :
    serve url_Parse SignAppToken caller r w = (res, w') → server_step w w'
| step_account caller r w res w' :
    account_request caller r w = (res, w') → server_step w w'
| step_sign_in user w res w' :
    Provision user w = (res, w') → server_step w w'
| step_link_github user token w res w' :
    link_github (Dep_FetchGitHub dep) (Own user) token w = (res, w') → server_step w w'
| step_link_atlassian user token w res w' :
    link_atlassian (Dep_FetchAtlassian dep) (Own user) token w = (res, w') → server_step w w'
| step_tick locked batchSize w res w' :
    Tick locked batchSize w = (res, w') → server_step w w'
| step_archiver batchSize w res w' :
    ArchiverTick batchSize w = (res, w') → server_step w w'
| step_route input w res w' :
    Route url_Parse input w = (res, w') → server_step w w'
| step_github d w res w' :
    github_webhook d w = (res, w') → server_step w w'
| step_jira d w res w' :
    jira_webhook d w = (res, w') → server_step w w'
| step_test_event caller req w res w' :
    TestEvent url_Parse true caller req w = (res, w') → server_step w w'
| step_shell_close session orgID w res w' :
    onShellClose session orgID w = (res, w') → server_step w w'
| step_environment fs now w :
    server_step w
      (mkWorld (committed w) (open_tx w) (seqs w) fs (published w) now).

Lemma ran_within_run {A} orgs (m : M A) w r w' :
  ran_within orgs m → world_ok w → m w = (r, w') →
  world_ok w' ∧ evolves orgs (committed w) (committed w').
Proof.
  intros Hm Hw Hrun. specialize (Hm w Hw). unfold wp in Hm. rewrite Hrun in Hm.
  split; [by eapply ran_world_ok|by apply ran_evolves].
Qed.

Lemma account_op_ran {A} user orgID (m : M A) : account_op user orgID m → ran_within (λ _, True) m.
Proof.
  intros Hm w Hw. eapply wp_mono; [by apply Hm|]. intros r w' (tb & ns & Hat & Hch).
  exists tb, ns. split; [done|]. by eapply accounts_evolves.
Qed.

Lemma Provision_account user : account_op (User_ID user) 0 (Provision user).
Proof.
  intros w Hw. eapply wp_mono; [by apply (Provision_spec 0)|]. intros [e|u] w' Hout; simpl in Hout.
  - destruct Hout as [Hat _]. eexists _, _. split; [exact Hat|apply accounts_refl].
  - destruct Hout as (tb & ns & Hat & Hch & _). by eexists _, _.
Qed.

Lemma ran_any {A} (m : M A) (P : World → Z → Prop) :
  (∀ w, world_ok w → wp m (λ _ w', ran (P w) w w') w) → ran_within (λ _, True) m.
Proof.
  intros Hm w Hw. eapply wp_mono; [by apply Hm|]. intros r w'. by apply ran_mono.
Qed.

Lemma server_step_evolves w w' :
  server_step w w' → world_ok w → world_ok w' ∧ evolves (λ _, True) (committed w) (committed w').
Proof.
  destruct 1 as [caller r w res w' H|caller r w res w' H|user w res w' H|user token w res w' H
    |user token w res w' H|l b w res w' H|b w res w' H|input w res w' H|d w res w' H|d w res w' H
    |caller req w res w' H|session orgID w res w' H|fs now w]; intros Hw.
  - refine (ran_within_run _ _ _ _ _ _ Hw H). apply (ran_any _ (λ _, only (User_OrgID caller))).
    apply serve_ran.
  - refine (ran_within_run _ _ _ _ _ _ Hw H). eapply account_op_ran, serve_account_change.
  - refine (ran_within_run _ _ _ _ _ _ Hw H). eapply account_op_ran, Provision_account.
  - refine (ran_within_run _ _ _ _ _ _ Hw H). eapply account_op_ran, (link_github_op _ 0).
  - refine (ran_within_run _ _ _ _ _ _ Hw H). eapply account_op_ran, (link_atlassian_op _ 0).
  - exact (ran_within_run _ _ _ _ _ (Tick_ran l b) Hw H).
  - exact (ran_within_run _ _ _ _ _ (ArchiverTick_ran b) Hw H).
  - refine (ran_within_run _ _ _ _ _ _ Hw H).
    apply (ran_any _ (λ w, routed_org input (committed w))). intros w0 Hw0.
    eapply wp_mono; [by apply Route_ran|]. by intros r w1 [? _].
  - refine (ran_within_run _ _ _ _ _ _ Hw H).
    eapply (ran_any _ (λ w, github_scope _ _ (committed w) d _)). intros w0 Hw0. by apply github_ServeHTTP_ran.
  - refine (ran_within_run _ _ _ _ _ _ Hw H).
    eapply (ran_any _ (λ w, jira_scope _ _ (committed w) d)). intros w0 Hw0.
    eapply wp_mono; [by apply jira_ServeHTTP_ran|]. by intros r w1 [? _].
  - refine (ran_within_run _ _ _ _ _ _ Hw H). apply (ran_any _ (λ _, only (User_OrgID caller))).
    intros w0 Hw0. eapply wp_mono; [by apply TestEvent_spec|]. by intros r w1 [? _].
  - refine (ran_within_run _ _ _ _ _ _ Hw H). apply (ran_any _ (λ _, only orgID)).
    intros w0 Hw0. eapply wp_mono; [by apply onShellClose_spec|].
    intros r w1 (_ & tb & Hat & Hev & _). by exists tb, [].
  - split; [exact Hw|apply evolves_refl].
Qed.

Lemma server_steps_evolve w w' :
  rtc server_step w w' → world_ok w → world_ok w' ∧ evolves (λ _, True) (committed w) (committed w').
Proof.
  induction 1 as [w|w w1 w2 Hs _ IH]; intros Hw; [split; [done|apply evolves_refl]|].
  destruct (server_step_evolves _ _ Hs Hw) as [Hw1 H1]. destruct (IH Hw1) as [Hw2 H2].
  split; [done|by etrans].
Qed.

Definition tasks_wf (tb : Tables) : Prop :=
  ∀ i r, t_tasks tb !! i = Some r → task_wf (toModelTask r) = true.

Lemma steps_wf t t' : rtc task_step t t' → task_wf t = true → task_wf t' = true.
Proof. induction 1; eauto with gritz. Qed.

Lemma evolves_wf orgs tb tb' : evolves orgs tb tb' → tasks_wf tb → tasks_wf tb'.
Proof.
  intros Hev Hwf i r' Hr'. destruct (t_tasks tb !! i) as [r|] eqn:Hr.
  - destruct (ev_rows _ _ _ Hev _ _ Hr) as (r2 & Hr2 & (_ & _ & _ & Hs) & _). simplify_eq.
    eapply steps_wf; [exact Hs|]. by eapply Hwf.
  - destruct (ev_new _ _ _ Hev _ _ Hr Hr') as (_ & t & Ht & Hs).
    eapply steps_wf; [exact Hs|]. by apply task_init_wf.
Qed.

(** ** Properties *)

(** C1: tenancy.  Whatever a request does, and whether or not it succeeds, a
    row of another org than its caller's is neither added, removed nor
    changed, in any table; and every table's keys stay consistent. *)
Theorem request_confined (caller : UserInfo) (r : Request) (w w' : World) (res : Err + unit) :
  world_ok w → serve url_Parse SignAppToken caller r w = (res, w') →
  world_ok w' ∧
  (∀ i x, Row_org_id x ≠ User_OrgID caller →
     t_tasks (committed w) !! i = Some x ↔ t_tasks (committed w') !! i = Some x) ∧
  (∀ i x, Event_OrgID x ≠ User_OrgID caller →
     t_events (committed w) !! i = Some x ↔ t_events (committed w') !! i = Some x) ∧
  (∀ i x, Sched_OrgID x ≠ User_OrgID caller →
     t_schedules (committed w) !! i = Some x ↔ t_schedules (committed w') !! i = Some x) ∧
  (∀ i x, Chunk_OrgID x ≠ User_OrgID caller →
     t_chunks (committed w) !! i = Some x ↔ t_chunks (committed w') !! i = Some x) ∧
  (∀ i x, WS_OrgID x ≠ User_OrgID caller →
     t_workspaces (committed w) !! i = Some x ↔ t_workspaces (committed w') !! i = Some x) ∧
  (∀ i x row, t_tasks (committed w) !! Link_TaskID x = Some row →
     Row_org_id row ≠ User_OrgID caller →
     t_links (committed w) !! i = Some x ↔ t_links (committed w') !! i = Some x) ∧
  (∀ i, i ≠ User_OrgID caller → t_orgs (committed w') !! i = t_orgs (committed w) !! i) ∧
  (∀ i x, KR_org_id x ≠ User_OrgID caller →
     t_keys (committed w) !! i = Some x ↔ t_keys (committed w') !! i = Some x).
Proof.
  intros Hw Hrun.
  destruct (ran_within_run _ _ _ _ _ (serve_ran url_Parse SignAppToken caller r) Hw Hrun)
    as [Hw' Hev]. split; [done|].
  split; [|repeat split; try by (apply Hev)].
  - intros i x Hx. split; intros Hi.
    + destruct (ev_rows _ _ _ Hev _ _ Hi) as (x' & Hx' & _ & Hsame). by rewrite Hsame in Hx'.
    + destruct (t_tasks (committed w) !! i) as [x'|] eqn:Hi'.
      * destruct (ev_rows _ _ _ Hev _ _ Hi') as (y & Hy & (_ & Ho & _) & Hsame). simplify_eq.
        rewrite Ho in Hx. by rewrite Hsame.
      * destruct (ev_new _ _ _ Hev _ _ Hi' Hi) as [Ho _]. done.
  - intros Hl. by eapply (ev_links _ _ _ Hev).
  - intros Hl. by eapply (ev_links _ _ _ Hev).
Qed.

(** C2: however requests, sign-ins, webhook deliveries, ticks, routed events, torn-down
    shell sessions, failures and the passage of time interleave, the tables stay consistent and every task keeps a command
    its status admits. *)
Theorem reachable_world_wf (w w' : World) :
  world_ok w → tasks_wf (committed w) → rtc server_step w w' →
  world_ok w' ∧ tasks_wf (committed w').
Proof.
  intros Hw Hwf Hs. destruct (server_steps_evolve _ _ Hs Hw) as [Hw' Hev].
  split; [done|by eapply evolves_wf].
Qed.

(** C3: a task is never lost: it keeps its id, org and namespace, and what it
    became is the result of transitions of the model from what it was; a task
    that was not there began as a freshly created one. *)
Theorem task_history (w w' : World) (i : Z) :
  world_ok w → rtc server_step w w' →
  match t_tasks (committed w) !! i with
  | Some r => ∃ r', t_tasks (committed w') !! i = Some r' ∧ Row_id r' = i ∧
      Row_org_id r' = Row_org_id r ∧ Row_namespace r' = Row_namespace r ∧
      rtc task_step (toModelTask r) (toModelTask r')
  | None => ∀ r', t_tasks (committed w') !! i = Some r' →
      ∃ t, task_init t ∧ rtc task_step t (toModelTask r')
  end.
Proof.
  intros Hw Hs. destruct (server_steps_evolve _ _ Hs Hw) as [_ Hev].
  destruct (t_tasks (committed w) !! i) as [r|] eqn:Hr.
  - destruct (task_rows _ _ (proj2 Hw) _ _ Hr) as [Hid _].
    destruct (ev_rows _ _ _ Hev _ _ Hr) as (r' & Hr' & (Hi & Ho & Hn & Hst) & _).
    exists r'. split; [done|]. split; [congruence|done].
  - intros r' Hr'. by destruct (ev_new _ _ _ Hev _ _ Hr Hr').
Qed.

(** C10: a user who has signed in always has an org to work in: whatever the
    server does afterwards, a token asked for without naming an org is for the
    default org their sign-in reported, which is live, theirs and has them as a
    member. *)
Theorem signed_in_user_has_org (user : UserInfo) (u : User) (w w1 w2 : World) :
  world_ok w → defaults_ok (committed w) →
  Provision user w = (inr u, w1) → rtc server_step w1 w2 → healthy w2 →
  fst (ResolveOrg (User_ID user) 0 w2) = inr (U_DefaultOrgID u) ∧
  ∃ o, t_orgs (committed w2) !! U_DefaultOrgID u = Some o ∧ Org_owner o = User_ID user ∧
    User_ID user ∈ Org_members o ∧ Org_archived o = false.
Proof.
  intros Hw Hdef Hrun Hsteps Hh.
  pose proof (HandlerSpec_run _ _ _ _ _ _ (Provision_spec 0 user) Hw Hrun)
    as (tb & ns & Hat & Hch & ((r & Hr & _ & _ & Hd) & Hd0 & _) & _).
  destruct (server_steps_evolve _ _ Hsteps (at_world_ok _ _ _ _ Hat)) as [Hw2 Hev].
  rewrite (at_committed _ _ _ _ Hat) in Hev.
  assert (Hof : default_of (committed w2) (User_ID user) = Some (U_DefaultOrgID u)).
  { apply (ev_users _ _ _ Hev); [|done]. unfold default_of. by rewrite Hr. }
  pose proof (ev_defaults _ _ _ Hev (ac_defaults _ _ _ _ Hch Hdef)) as Hdef2.
  pose proof Hof as Hrow. unfold default_of in Hrow.
  destruct (t_users (committed w2) !! User_ID user) as [r2|] eqn:Hr2; [|done]. simpl in Hrow.
  destruct (Hdef2 _ _ Hr2 _ Hrow) as (_ & o & Ho & Hown & Hm & Har).
  split; [|by exists o].
  assert (Hok : ResolveOrg_ok (User_ID user) 0 (committed w2) (U_DefaultOrgID u)).
  { split; [unfold asked_org; by rewrite Z.eqb_refl, Hof|]. split; [done|].
    unfold is_org_member. rewrite Ho, Har. apply andb_true_iff. split; [|done].
    by apply contains_string_spec. }
  pose proof (ResolveOrg_spec (User_ID user) 0 w2 Hw2) as H. unfold wp in H.
  destruct (ResolveOrg (User_ID user) 0 w2) as [[e|o'] w3]; destruct H as [_ H]; simpl.
  - destruct (H Hh). eauto.
  - destruct H as (-> & _). by destruct Hok as (-> & _).
Qed.
End system.

(** ** A concrete run: a caller of org 3 archives, routes and ticks. *)

#[local] Instance task_json : TokenJSON taskCursor :=
  {| json_Marshal := λ _, ""; json_Unmarshal := λ _, None |}.

Definition other_row : TaskRow := taskRow 6 0 0 
  (mkTask 6 "n" "r1" "ws" TaskStatusPending TaskCommandStart 1 4 false 0 0 "" 0 "").
Definition two_orgs : World :=
  mkWorld
    (mkTables {[6 := other_row; 7 := sample_row]} ∅ ∅ ∅ ∅ {[1 := mkWorkspace 1 "r1" "ws" "" 3 0]}
      {[3 := org_of ["u1"] []; 4 := org_of ["u2"] []]} (users_of ["u1"; "u2"]) ∅)
    None (λ _, 8) [] [] 1000.

Lemma two_orgs_ok : world_ok two_orgs.
Proof. apply world_okb_ok. vm_compute. reflexivity. Qed.

Lemma two_orgs_wf : tasks_wf (committed two_orgs).
Proof.
  intros i r Hr. simpl in Hr. apply lookup_insert_Some in Hr as [[_ <-]|[_ Hr]];
    [reflexivity|apply lookup_singleton_Some in Hr as [_ <-]; reflexivity].
Qed.

Definition sample_serve : UserInfo → Request → M unit :=
  @serve demo_cron sample_json task_json (λ _, None) (λ _, inr "jwt").

Definition sample_deployment : Deployment :=
  mkDeployment "https://gritz" None None NewSchemaRegistry (λ s, s) (λ _, inl "no") (λ _, inl "no") ""
    (λ _ _ _, None) (λ _ _, inl "no") demo_hmac (λ _, None).

Definition sample_step : World → World → Prop :=
  @server_step demo_cron sample_json task_json sample_map_json (λ _, None) (λ _, inr "jwt")
    sample_deployment.

(** The caller cannot cancel the other org's task. *)
Lemma request_confined_witness :
  let w' := final (sample_serve sample_caller (ReqCancelTask 6)) two_orgs in
  t_tasks (committed w') !! 6 = Some other_row.
Proof.
  intros w'. unfold sample_serve in w'.
  destruct (@request_confined demo_cron sample_json task_json (λ _, None) (λ _, inr "jwt")
    sample_caller (ReqCancelTask 6) two_orgs w'
    (fst (sample_serve sample_caller (ReqCancelTask 6) two_orgs)) two_orgs_ok) as (_ & H & _).
  - apply surjective_pairing.
  - apply (H 6 other_row); [vm_compute; discriminate|reflexivity].
Defined.

Lemma sample_run :
  rtc sample_step two_orgs
    (final (sample_serve sample_caller (ReqCancelTask 7)) two_orgs).
Proof. apply rtc_once. eapply step_request. apply surjective_pairing. Defined.

Lemma reachable_world_wf_witness :
  ∃ row, t_tasks (committed (final (sample_serve sample_caller (ReqCancelTask 7)) two_orgs)) !! 7
           = Some row ∧ task_wf (toModelTask row) = true.
Proof.
  destruct (@reachable_world_wf demo_cron sample_json task_json sample_map_json (λ _, None)
    (λ _, inr "jwt") sample_deployment two_orgs _ two_orgs_ok two_orgs_wf sample_run) as [_ H].
  eexists. split; [vm_compute; reflexivity|]. apply (H 7). vm_compute. reflexivity.
Defined.

Lemma task_history_witness :
  ∃ row, t_tasks (committed (final (sample_serve sample_caller (ReqCancelTask 7)) two_orgs)) !! 7
           = Some row ∧ rtc task_step (toModelTask sample_row) (toModelTask row).
Proof.
  destruct (@task_history demo_cron sample_json task_json sample_map_json (λ _, None)
    (λ _, inr "jwt") sample_deployment two_orgs _ 7 two_orgs_ok sample_run) as (row & Hrow & _ & _ & _ & Hs).
  exists row. split; [exact Hrow|exact Hs].
Defined.

(** [u9] signs in, is given org 8, and cannot delete it. *)
Definition newcomer : UserInfo := mkUser "u9" "u9@x" "N" 8 "cookie" "tab" Admin.
Definition first_sign_in : (Err + User) * World := Provision newcomer two_orgs.

Lemma signed_in_user_has_org_witness :
  let w1 := snd first_sign_in in
  let w2 := final (@account_request sample_map_json sample_deployment newcomer (ReqDeleteOrg 8)) w1 in
  fst (ResolveOrg "u9" 0 w2) = inr 8.
Proof.
  intros w1 w2. assert (E : ∃ u, first_sign_in = (inr u, w1) ∧ U_DefaultOrgID u = 8)
    by (eexists; split; vm_compute; reflexivity). destruct E as (u & E & Hu).
  destruct (@signed_in_user_has_org demo_cron sample_json task_json sample_map_json (λ _, None)
    (λ _, inr "jwt") sample_deployment newcomer u two_orgs w1 w2 two_orgs_ok) as [H _].
  - intros id r Hr d Hd.
    assert (Hn : all_rows (λ _ u, bool_decide (UR_default_org_id u = None))
      (t_users (committed two_orgs)) = true) by (vm_compute; reflexivity).
    eapply all_rows_spec in Hn; [|exact Hr]. apply bool_decide_eq_true in Hn. congruence.
  - exact E.
  - apply rtc_once. eapply step_account. apply surjective_pairing.
  - apply Forall_nil. exact I.
  - rewrite Hu in H. exact H.
Defined.
