(* ===== verification/HttpMux.v ===== *)
(** * Routing of HTTP requests

    The part of [net/http]'s [ServeMux] that [internal/server/server.go] relies on:
    patterns of literal segments, with or without a trailing slash and a method,
    the cleaning of a request's path and the choice of a pattern. *)

From S2P Require Import Prelude ScopeParse.
From Stdlib Require Import Ascii.

(** ** Paths *)

Definition slash : ascii := "/"%char.

(** The value of a hexadecimal digit. *)
Definition unhex (c : ascii) : option nat :=
  let n := nat_of_ascii c in
  if (48 <=? n)%nat && (n <=? 57)%nat then Some (n - 48)%nat
  else if (97 <=? n)%nat && (n <=? 102)%nat then Some (n - 87)%nat
  else if (65 <=? n)%nat && (n <=? 70)%nat then Some (n - 55)%nat
  else None.

(** [url.PathUnescape]. *)
Fixpoint PathUnescape (s : string) : option string :=
  match s with
  | EmptyString => Some ""
  | String "%"%char (String a (String b rest)) =>
      match unhex a, unhex b with
      | Some x, Some y => String (ascii_of_nat (16 * x + y)) <$> PathUnescape rest
      | _, _ => None
      end
  | String "%"%char _ => None
  | String c rest => String c <$> PathUnescape rest
  end.

(** A segment is compared unescaped, if it can be. *)
Definition segment (s : string) : string := default s (PathUnescape s).

(** The segments of a path after its first slash; the last is empty when the path
    ends in one. *)
Definition segments (path : string) : list string :=
  match path with String "/"%char rest => Split slash rest | _ => Split slash path end.

Definition clean_segments (segs : list string) : list string :=
  foldl (λ acc s, if String.eqb s "" || String.eqb s "." then acc
                  else if String.eqb s ".." then removelast acc else acc ++ [s]) [] segs.

Fixpoint ends_in_slash (s : string) : bool :=
  match s with
  | EmptyString => false
  | String c EmptyString => Ascii.eqb c slash
  | String _ rest => ends_in_slash rest
  end.

(** [cleanPath]: [path.Clean], but for a trailing slash. *)
Definition cleanPath (path : string) : string :=
  let segs := clean_segments (segments path) in
  let np := "/" +:+ Join segs "/" in
  if ends_in_slash path && negb (String.eqb np "/") then np +:+ "/" else np.

(** ** Patterns *)

Record Pattern := mkPattern { Pat_Method : string; Pat_Segs : list string; Pat_Multi : bool }.

(** [parsePattern]: an optional method and a path; one that ends in a slash
    matches every path below it. *)
Definition parsePattern (s : string) : Pattern :=
  let '(method, path) := match Cut " "%char s with
                         | (m, p, true) => (m, p)
                         | _ => ("", s)
                         end in
  let segs := segments path in
  if ends_in_slash path then mkPattern method (removelast segs) true else mkPattern method segs false.

Definition segs_eqb (a b : list string) : bool := bool_decide (a = b).

Fixpoint strict_prefix (a b : list string) : bool :=
  match a, b with
  | [], _ :: _ => true
  | x :: a, y :: b => String.eqb x y && strict_prefix a b
  | _, [] => false
  end.

Definition matches (segs : list string) (p : Pattern) : bool :=
  if Pat_Multi p then strict_prefix (Pat_Segs p) segs else segs_eqb (Pat_Segs p) segs.

(** [exactMatch]. *)
Definition exact (segs : list string) (p : Pattern) : bool :=
  if Pat_Multi p then segs_eqb (Pat_Segs p ++ [""]) segs else true.

Section mux.
Context {R : Type} (patterns : list (string * R)).

(** Of two matches the one with more literal segments. *)
Definition more_specific (segs : list string) (best : option (Pattern * R)) (e : Pattern * R)
    : option (Pattern * R) :=
  if negb (matches segs e.1) then best
  else match best with
       | None => Some e
       | Some b => if (length (Pat_Segs b.1) <? length (Pat_Segs e.1))%nat then Some e else best
       end.

Definition match_method (method : string) (segs : list string) : option (Pattern * R) :=
  foldl (more_specific segs) None
    (List.filter (λ e, String.eqb (Pat_Method e.1) method)
       (map (λ e, (parsePattern e.1, e.2)) patterns)).

(** A pattern with the request's method comes first; a [HEAD] is also a [GET]. *)
Definition match_request (method path : string) : option (Pattern * R) :=
  let segs := map segment (segments path) in
  match match_method method segs with
  | Some e => Some e
  | None =>
      match (if String.eqb method "HEAD" then match_method "GET" segs else None) with
      | Some e => Some e
      | None => match_method "" segs
      end
  end.

Definition exact_match (path : string) (found : option (Pattern * R)) : bool :=
  match found with Some e => exact (map segment (segments path)) e.1 | None => false end.

Inductive Routed := Dispatch (route : R) | MovedTo (path : string) | NotRouted | BadTarget.

(** [ServeMux.ServeHTTP] up to its call of the handler; [path] is the escaped path. *)
Definition mux (method path : string) : Routed :=
  if String.eqb path "*" then BadTarget
  else
    let path' := if String.eqb method "CONNECT" then path else cleanPath path in
    let found := match_request method path' in
    let below := path' +:+ "/" in
    if negb (exact_match path' found) && negb (ends_in_slash path') && negb (String.eqb path' "")
       && exact_match below (match_request method below)
    then MovedTo below
    else if negb (String.eqb path' path) then MovedTo path'
    else match found with Some e => Dispatch e.2 | None => NotRouted end.

(** ** What is dispatched is registered *)

Lemma best_registered segs l best e :
  foldl (more_specific segs) best l = Some e → best = Some e ∨ (e ∈ l ∧ matches segs e.1 = true).
Proof.
  revert best. induction l as [|x l IH]; intros best; [by left|]. simpl. intros H.
  apply IH in H as [H|[Hin Hm]]; [|right; split; [by apply list_elem_of_further|done]].
  unfold more_specific in H. destruct (matches segs x.1) eqn:Hx; cbn [negb] in H; [|by left].
  destruct best as [b|]; [destruct (_ <? _)%nat|]; simplify_eq; auto using list_elem_of_here.
Qed.

Lemma match_method_registered method segs e :
  match_method method segs = Some e → ∃ s, (s, e.2) ∈ patterns ∧ e.1 = parsePattern s ∧
    Pat_Method e.1 = method ∧ matches segs e.1 = true.
Proof.
  intros [H|[Hin Hm]]%best_registered; [done|].
  apply list_elem_of_In, List.filter_In in Hin as [Hin Hme%String.eqb_eq].
  apply in_map_iff in Hin as ([s r] & <- & Hin). exists s. split; [by apply list_elem_of_In|]. by split.
Qed.

(** A request is dispatched to a registered pattern of its method or of none,
    which its path matches, and only when its path is clean. *)
Lemma mux_dispatch method path route :
  mux method path = Dispatch route → ∃ s, (s, route) ∈ patterns ∧
    (String.eqb method "CONNECT" = true ∨ cleanPath path = path) ∧
    matches (map segment (segments path)) (parsePattern s) = true ∧
    (Pat_Method (parsePattern s) = method ∨ (method = "HEAD" ∧ Pat_Method (parsePattern s) = "GET") ∨
     Pat_Method (parsePattern s) = "").
Proof.
  unfold mux. destruct (String.eqb path "*"); [done|]. cbv zeta.
  destruct (negb (exact_match _ _) && _ && _ && _); [done|].
  set (path' := if String.eqb method "CONNECT" then path else cleanPath path).
  destruct (String.eqb_spec path' path) as [Hp|]; cbn [negb]; [|done]. rewrite Hp.
  destruct (match_request method path) as [e|] eqn:Hm; [|done]. intros [= <-].
  assert (Hclean : String.eqb method "CONNECT" = true ∨ cleanPath path = path).
  { unfold path' in Hp. destruct (String.eqb method "CONNECT"); [by left|by right]. }
  assert (Hreg : ∃ m, (m = method ∨ (method = "HEAD" ∧ m = "GET") ∨ m = "") ∧
    match_method m (map segment (segments path)) = Some e).
  { unfold match_request in Hm. destruct (match_method method _) as [x|] eqn:E1; [simplify_eq; eauto|].
    destruct (String.eqb_spec method "HEAD") as [->|].
    - destruct (match_method "GET" _) as [x|] eqn:E2; simplify_eq; eauto 6.
    - eauto. }
  destruct Hreg as (m & Hm' & He). apply match_method_registered in He as (s & Hin & Hpat & Hpm & Hmatch).
  exists s. rewrite <- Hpat, Hpm. split_and!; [done|done|done|]. destruct Hm' as [->|[[-> ->]| ->]]; auto.
Qed.
End mux.
