(* ===== verification/FrontDoor.v ===== *)
(** * The HTTP front of the server

    Models [internal/server/server.go]: the routes, the middleware in front of each
    and the CORS wrapper, over every handler the library models: the RPC service,
    the token endpoint, the notification stream, account links, webhooks, the OAuth
    endpoints, the shell legs and the MCP tools, and the write that a debug-shell
    session's tear-down makes.  What a request can change is what the credentials it
    carries let it. *)

From S2P Require Import Prelude AuthScope ScopeParse EventModel TaskModel Links Strconv PubSub ScheduleModel Rules.
From S2P Require Import Store StoreOps StoreLogic StoreAccounts ApiBase Timeline ShellServer ApiTask Evolution Wire.
From S2P Require Import ApiAccounts AccountSpec ApiTaskSpec Pagination StorePages ApiEvents McpTools SignIn Sse OAuthFlow.
From S2P Require Import NotifyStream Mentions EventRouter Webhooks EventSchemas EventTypes Server HttpMux.

(** ** Routes *)

(** The middleware of a route. *)
Inductive Gate := Public | Check | Require.

Inductive Route :=
| RouteToken | RouteAuth | RouteApi | RouteEvents
| RouteGitHubLogin | RouteGitHubCallback | RouteGitHubWebhook
| RouteAtlassianLogin | RouteAtlassianCallback | RouteAtlassianWebhook
| RouteMetadata | RouteResourceMetadata | RouteRegister | RouteAuthorize | RouteOAuthToken
| RouteShellDriver | RouteShellAttach | RouteMcp | RouteUI | RouteRoot.

(** The options that register routes, beside the integrations, and CORS. *)
Record Config := mkConfig { Cfg_Notify : bool; Cfg_OAuth : option Auth; Cfg_CORS : bool }.

Definition when {A} (b : bool) (l : list A) : list A := if b then l else [].

(** [Server.Handler]. *)
Definition routes (dep : Deployment) (cfg : Config) : list (string * (Gate * Route)) :=
  [("/auth/token", (Check, RouteToken)); ("/auth/", (Public, RouteAuth));
   ("/gritz.v1.GritzService/", (Check, RouteApi))] ++
  when (Cfg_Notify cfg) [("/events", (Check, RouteEvents))] ++
  when (bool_decide (is_Some (Dep_GitHub dep)))
    [("/github/login", (Require, RouteGitHubLogin)); ("/github/callback", (Require, RouteGitHubCallback));
     ("/webhook/github", (Public, RouteGitHubWebhook))] ++
  when (bool_decide (is_Some (Dep_Atlassian dep)))
    [("/atlassian/login", (Require, RouteAtlassianLogin));
     ("/atlassian/callback", (Require, RouteAtlassianCallback));
     ("/webhook/atlassian", (Public, RouteAtlassianWebhook))] ++
  when (bool_decide (is_Some (Cfg_OAuth cfg)))
    [("/.well-known/oauth-authorization-server", (Public, RouteMetadata));
     ("/.well-known/oauth-protected-resource", (Public, RouteResourceMetadata));
     ("/oauth/register", (Public, RouteRegister)); ("/oauth/authorize", (Public, RouteAuthorize));
     ("/oauth/token", (Public, RouteOAuthToken))] ++
  [("GET /shell/driver", (Require, RouteShellDriver)); ("GET /shell/attach", (Check, RouteShellAttach));
   ("/mcp", (Require, RouteMcp)); ("/ui/", (Require, RouteUI)); ("/", (Public, RouteRoot))].

(** ** Requests *)

(** A call of the RPC service. *)
Inductive ApiCall :=
| CallPing
| CallRequest (r : Request)
| CallAccount (r : AccountRequest)
| CallGetEventTypes
| CallTestEvent (req : TestEventRequest)
| CallCreateGitHubToken.

(** A call of a user's tool. *)
Inductive UserTool :=
| ToolListWorkspaces
| ToolCreateTask (input : createTaskInput)
| ToolGetTask (id : Z)
| ToolListTasks
| ToolUpdateTask (input : updateTaskInput)
| ToolArchiveTask (id : Z).

(** A request, as each handler reads it: the RPC and MCP libraries' decoding of its
    body, the callback's, the webhooks', the form's; its session parameter; and the
    identity that the login library verified, when it is that library's callback. *)
Record FrontRequest := mkFront {
  F_Path : string; F_Http : HttpRequest;
  F_Rpc : Err + ApiCall; F_Tool : option UserTool;
  F_Callback : CallbackRequest; F_Random : string + string;
  F_GitHub : Delivery; F_Jira : JiraDelivery;
  F_Form : FormRequest; F_Register : option (string * list string); F_UUID : string;
  F_Shell : string; F_Flusher : bool; F_Subscribed : bool; F_Login : option UserInfo }.

Inductive Reply :=
| ReplyHttp (resp : Response)
| ReplyLink (cookie : option (string * string)) (resp : Response)
| ReplyRpc (r : Err + unit)
| ReplyTool
| ReplyStream (s : StreamStart)
| ReplyOAuth (r : OAuthResponse)
| ReplyDocument
| ReplyLeg (l : LegReply)
| ReplyLogin
| ReplyPage
| ReplyLibrary
| ReplyEmpty
| ReplyNotFound.

Section front.
Context {CR : Cron} {JC : TokenJSON IDCursor} {JT : TokenJSON taskCursor} {MJ : MapJSON} {TK : Tokens}.
Context (url_Parse : string → option Url) (dep : Deployment) (cfg : Config).
Context (nil_cookie_context : option Err).
Context (ParseDuration : string → Err + Z) (set_query : string → list (string * string) → option string).
(** [oauth2.Config]'s [Exchange] and [AuthCodeURL] of the two providers. *)
Context (ExchangeGitHub ExchangeAtlassian : string → string + string).
Context (LoginGitHub LoginAtlassian : string → string).
(** The live debug-shell sessions. *)
Context (sessions : Registry).

(** [cookieName]. *)
Definition cookieName (provider : string) : string := "gritz_" +:+ provider +:+ "_state".

(** [oauthlink.HandleLogin]: the cookie it sets and the response.  [random] is what
    [generateRandomState] gives. *)
Definition HandleLogin (provider : string) (AuthCodeURL : string → string) (random : string + string)
    : option (string * string) * Response :=
  match random with
  | inl _ => (None, HttpError SignIn.StatusInternalServerError "failed to generate state")
  | inr state => (Some (cookieName provider, state), HttpRedirect (AuthCodeURL state))
  end.

(** [HandleMetadata] and [HandleResourceMetadata]. *)
Definition document (method : string) : Reply :=
  if negb (String.eqb method "GET")
  then ReplyHttp (HttpError StatusMethodNotAllowed "method not allowed") else ReplyDocument.

Definition api_call (caller : UserInfo) (c : ApiCall) : M unit :=
  match c with
  | CallPing => mret tt
  | CallRequest r => serve url_Parse SignAppToken caller r
  | CallAccount r => account_request dep caller r
  | CallGetEventTypes => ignore (GetEventTypes (Dep_Registry dep) caller)
  | CallTestEvent req => ignore (TestEvent url_Parse true caller req)
  | CallCreateGitHubToken =>
      raise (EConnect CodeUnimplemented "CreateGitHubToken is not implemented on the server; use the runner proxy")
  end.

Definition user_tool (caller : UserInfo) (t : UserTool) : M unit :=
  match t with
  | ToolListWorkspaces => ignore (listWorkspaces caller)
  | ToolCreateTask input => ignore (createTask (Dep_BaseURL dep) ParseDuration None caller input)
  | ToolGetTask id => ignore (getTask (Dep_BaseURL dep) caller id)
  | ToolListTasks => ignore (listTasks (Dep_BaseURL dep) caller)
  | ToolUpdateTask input => ignore (updateTask (Dep_BaseURL dep) caller input)
  | ToolArchiveTask id => ignore (archiveTask (Dep_BaseURL dep) caller id)
  end.

(** The RPC handler: an error is a response, a panic is not. *)
Definition serve_rpc (caller : Attached) (c : Err + ApiCall) : M Reply :=
  match c with
  | inl err => mret (ReplyRpc (inl err))
  | inr c =>
      r ← catch (RequireUserInterceptor caller (λ user, api_call user c));
      match r with
      | inl err => if isPanic err then raise err else mret (ReplyRpc r)
      | inr _ => mret (ReplyRpc r)
      end
  end.

(** [mcpserver.Handler]: without a caller there is no server to answer. *)
Definition serve_mcp (caller : Attached) (t : option UserTool) : M Reply :=
  match attached_user caller, t with
  | None, _ => mret (ReplyHttp (HttpError SignIn.StatusBadRequest "no server available"))
  | Some _, None => mret ReplyTool
  | Some user, Some t => _ ← user_tool user t; mret ReplyTool
  end.

(** [AttachHandler], which asks for the org of a browser's user. *)
Definition attach_leg (caller : Attached) (r : HttpRequest) (id : string) : M Reply :=
  let leg resolved :=
    mret (ReplyLeg (AttachHandler (Some (λ _ _, resolved)) sessions (attached_user caller)
                      (ParseInt (Req_Query r "org_id")) id)) in
  match lookup_session sessions id, attached_user caller, ParseInt (Req_Query r "org_id") with
  | Some _, Some user, Some orgID =>
      if String.eqb (User_Type user) ShellServer.AuthTypeCookie then
        res ← catch (ResolveOrg (User_ID user) orgID);
        leg (match res with inl _ => None | inr o => Some o end)
      else leg None
  | _, _, _ => leg None
  end.

Definition oauth (f : Auth → Z → OAuthResponse) : M Reply :=
  match Cfg_OAuth cfg with
  | None => mret ReplyNotFound
  | Some a => now ← time_Now; mret (ReplyOAuth (f a now))
  end.

(** [Auth.Handler]: the login library, whose callback provisions the user it
    verified; nothing, with a dev user. *)
Definition auth_handler (devUser : option UserInfo) (login : option UserInfo) : M Reply :=
  match devUser, login with
  | Some _, _ => mret ReplyNotFound
  | None, None => mret ReplyLibrary
  | None, Some user => _ ← Provision user; mret ReplyLibrary
  end.

(** The handler of a route, for the caller its middleware attached. *)
Definition handle (route : Route) (devUser : option UserInfo) (caller : Attached) (r : FrontRequest) : M Reply :=
  let sum := Dep_Sum256 dep in
  match route with
  | RouteToken => mret ReplyEmpty
  | RouteAuth => auth_handler devUser (F_Login r)
  | RouteApi => serve_rpc caller (F_Rpc r)
  | RouteEvents => s ← handleSSE (F_Subscribed r) (F_Flusher r) (attached_user caller) (F_Http r); mret (ReplyStream s)
  | RouteGitHubLogin => mret (let (cookie, resp) := HandleLogin "github" LoginGitHub (F_Random r) in ReplyLink cookie resp)
  | RouteGitHubCallback =>
      resp ← HandleCallback ExchangeGitHub (F_Callback r) (link_github (Dep_FetchGitHub dep) caller);
      mret (ReplyHttp resp)
  | RouteGitHubWebhook => res ← github_webhook url_Parse dep (F_GitHub r); mret (ReplyHttp res.1)
  | RouteAtlassianLogin => mret (let (cookie, resp) := HandleLogin "atlassian" LoginAtlassian (F_Random r) in ReplyLink cookie resp)
  | RouteAtlassianCallback =>
      resp ← HandleCallback ExchangeAtlassian (F_Callback r) (link_atlassian (Dep_FetchAtlassian dep) caller);
      mret (ReplyHttp resp)
  | RouteAtlassianWebhook => res ← jira_webhook url_Parse dep (F_Jira r); mret (ReplyHttp res.1)
  | RouteMetadata | RouteResourceMetadata => mret (document (Req_Method (F_Http r)))
  | RouteRegister => oauth (λ _ _, HandleRegister (Req_Method (F_Http r)) (F_UUID r) (F_Register r))
  | RouteAuthorize => oauth (λ a now, HandleAuthorize a set_query now (F_Form r))
  | RouteOAuthToken => oauth (λ a now, OAuth_HandleToken a sum now (F_Form r))
  | RouteShellDriver => mret (ReplyLeg (DriverHandler sessions (attached_user caller) (F_Shell r)))
  | RouteShellAttach => attach_leg caller (F_Http r) (F_Shell r)
  | RouteMcp => serve_mcp caller (F_Tool r)
  | RouteUI => mret ReplyPage
  | RouteRoot => mret (ReplyHttp (HttpRedirect "/ui/"))
  end.

(** The handler behind its middleware. *)
Definition guarded (gate : Gate) (devUser : option UserInfo) (r : HttpRequest) (next : Attached → M Reply) : M Reply :=
  match gate with
  | Public => next Nobody
  | Check => a ← CheckAuth (Dep_Sum256 dep) devUser r; next a
  | Require =>
      adm ← RequireAuth (Dep_Sum256 dep) devUser r;
      match adm with
      | Serve a => next a
      | Refuse resp => mret (ReplyHttp resp)
      | Login => mret ReplyLogin
      end
  end.

(** [http.StripPrefix], in front of the pages only: a path that spells the prefix
    with escapes is not found. *)
Definition StripPrefix (route : Route) (path : string) : bool :=
  match route with RouteUI => HasPrefix path "/ui" | _ => true end.

(** A request, with the dev user, which the token endpoint writes to. *)
Definition serve_http (devUser : option UserInfo) (r : FrontRequest) : M (Reply * option UserInfo) :=
  if Cfg_CORS cfg && String.eqb (Req_Method (F_Http r)) "OPTIONS" then mret (ReplyEmpty, devUser)
  else
    match mux (routes dep cfg) (Req_Method (F_Http r)) (F_Path r) with
    | BadTarget => mret (ReplyHttp (HttpError SignIn.StatusBadRequest ""), devUser)
    | NotRouted => mret (ReplyNotFound, devUser)
    | MovedTo path => mret (ReplyHttp (HttpRedirect path), devUser)
    | Dispatch (_, RouteToken) =>
        res ← token_endpoint (Dep_Sum256 dep) nil_cookie_context devUser (F_Http r);
        mret (ReplyHttp res.1, res.2)
    | Dispatch (gate, route) =>
        reply ← (if StripPrefix route (F_Path r) then guarded gate devUser (F_Http r) (λ a, handle route devUser a r)
                 else mret ReplyNotFound);
        mret (reply, devUser)
    end.

(** What [Seed] leaves waiting for a session to be over (a leg left, the
    establishment or idle timer fired, the server closes), but for [remove]. *)
Definition tear_down (id : string) : M unit :=
  match lookup_session sessions id with
  | None => mret tt
  | Some e => onShellClose id (entry_orgID e)
  end.

(** What reaches the front's tables: a request, or the end of a session. *)
Inductive FrontEvent := Incoming (r : FrontRequest) | TearDown (id : string).

Definition front (devUser : option UserInfo) (ev : FrontEvent) : M (Reply * option UserInfo) :=
  match ev with
  | Incoming r => serve_http devUser r
  | TearDown id => _ ← tear_down id; mret (ReplyEmpty, devUser)
  end.
End front.

(** ** What a request can change *)

Section changes.
Context {CR : Cron} {JC : TokenJSON IDCursor} {JT : TokenJSON taskCursor} {MJ : MapJSON} {TK : Tokens}.
Context (url_Parse : string → option Url) (dep : Deployment) (cfg : Config).
Context (nil_cookie_context : option Err).
Context (ParseDuration : string → Err + Z) (set_query : string → list (string * string) → option string).
Context (ExchangeGitHub ExchangeAtlassian : string → string + string).
Context (LoginGitHub LoginAtlassian : string → string).
Context (sessions : Registry).

Local Abbreviation handle := (handle url_Parse dep cfg ParseDuration set_query ExchangeGitHub ExchangeAtlassian
  LoginGitHub LoginAtlassian sessions).
Local Abbreviation serve_http := (serve_http url_Parse dep cfg nil_cookie_context ParseDuration set_query
  ExchangeGitHub ExchangeAtlassian LoginGitHub LoginAtlassian sessions).
Local Abbreviation front := (front url_Parse dep cfg nil_cookie_context ParseDuration set_query
  ExchangeGitHub ExchangeAtlassian LoginGitHub LoginAtlassian sessions).

(** What a user may change: rows of the org they act for, or their own account and
    the orgs they own or act for. *)
Definition acts_for (user : UserInfo) (tb tb' : Tables) : Prop :=
  evolves (only (User_OrgID user)) tb tb' ∨ accounts_change (User_ID user) (User_OrgID user) tb tb'.

(** The changes a handler makes for its caller, or that come of a delivery or a
    login the handler itself has checked. *)
Definition changed (route : Route) (devUser : option UserInfo) (caller : Attached) (r : FrontRequest)
    (tb tb' : Tables) : Prop :=
  tb' = tb ∨
  (∃ user, attached_user caller = Some user ∧ acts_for user tb tb') ∨
  match route with
  | RouteGitHubWebhook =>
      (∃ event, ParseWebHook (Dep_ValidateSignature dep) (Dep_ParseGitHub dep) (F_GitHub r) (Dep_WebhookSecret dep)
        = inr event) ∧
      evolves (github_scope (Dep_ValidateSignature dep) (Dep_ParseGitHub dep) tb (F_GitHub r) (Dep_WebhookSecret dep))
        tb tb'
  | RouteAtlassianWebhook =>
      is_Some (jira_org (Dep_Hmac dep) tb (F_Jira r)) ∧
      evolves (jira_scope (Dep_Hmac dep) (Dep_ParseJira dep) tb (F_Jira r)) tb tb'
  | RouteAuth => devUser = None ∧ ∃ user, F_Login r = Some user ∧ accounts_change (User_ID user) 0 tb tb'
  | _ => False
  end.

(** A computation that keeps the world's tables consistent and changes them by [P]. *)
Definition alters {A} (P : Tables → Tables → Prop) (m : M A) : Prop :=
  ∀ w, world_ok w → wp m (λ _ w', world_ok w' ∧ P (committed w) (committed w')) w.

Lemma alters_pure {A} (P : Tables → Tables → Prop) (r : Err + A) : (∀ tb, P tb tb) → alters P (λ w, (r, w)).
Proof. intros HP w Hw. by split. Qed.

Lemma alters_bind {A B} (P : Tables → Tables → Prop) (m : M A) (k : A → M B) :
  alters P m → (∀ a w, (k a w).2 = w) → alters P (mbind k m).
Proof.
  intros Hm Hk w Hw. apply wp_bind. eapply wp_mono; [by apply Hm|]. intros [e|a] w' H; [done|].
  unfold wp. specialize (Hk a w'). destruct (k a w') as [r w2]. simpl in Hk. by subst.
Qed.

Lemma alters_mono {A} (P Q : Tables → Tables → Prop) (m : M A) :
  (∀ tb tb', P tb tb' → Q tb tb') → alters P m → alters Q m.
Proof. intros HPQ Hm w Hw. eapply wp_mono; [by apply Hm|]. intros r w' [? ?]. auto. Qed.

Lemma alters_ReadOnly {A} (m : M A) : ReadOnly m → alters (λ tb tb', tb' = tb) m.
Proof.
  intros Hm w Hw. eapply wp_mono; [by apply Hm|]. intros r w' Hat.
  split; [exact (at_world_ok _ _ _ _ Hat)|exact (at_committed _ _ _ _ Hat)].
Qed.

Lemma alters_ran {A} orgs (m : M A) : ran_within orgs m → alters (evolves orgs) m.
Proof.
  intros Hm w Hw. eapply wp_mono; [by apply Hm|]. intros r w' H.
  split; [exact (ran_world_ok _ _ _ H)|exact (ran_evolves _ _ _ H)].
Qed.

Lemma alters_account {A} user orgID (m : M A) : account_op user orgID m → alters (accounts_change user orgID) m.
Proof.
  intros Hm w Hw. eapply wp_mono; [by apply Hm|]. intros r w' (tb & ns & Hat & Hch).
  rewrite (at_committed _ _ _ _ Hat). split; [exact (at_world_ok _ _ _ _ Hat)|done].
Qed.

(** *** Tools *)

Lemma ran_within_ret {A} orgs (a : A) : ran_within orgs (mret a).
Proof. intros w Hw. apply wp_ret. by apply ran_refl. Qed.

Lemma ran_within_call {A B} orgs (m : M A) what (k : A → M (ToolResult B)) :
  ran_within orgs m → (∀ a, ran_within orgs (k a)) → ran_within orgs (call m what k).
Proof.
  intros Hm Hk w Hw. unfold call. apply wp_bind, wp_catch. eapply wp_mono; [by apply Hm|].
  intros [e|a] w1 Hran.
  - destruct (isPanic e); [by apply wp_raise|by apply wp_ret].
  - eapply wp_mono; [apply Hk; exact (ran_world_ok _ _ _ Hran)|]. intros r w2. exact (ran_trans _ _ _ _ Hran).
Qed.

Lemma user_tool_ran caller t : ran_within (only (User_OrgID caller)) (user_tool dep ParseDuration caller t).
Proof.
  assert (Hget : ∀ id, ran_within (only (User_OrgID caller)) (Server_GetTask caller id)).
  { intros id. apply ReadOnly_ran, ReadOnly_Server_GetTask. }
  destruct t as [|input|id| |input|id]; apply ran_within_ignore.
  - apply ran_within_call; [apply ReadOnly_ran, ReadOnly_ListWorkspaces|intros ?; apply ran_within_ret].
  - unfold createTask. cbv zeta.
    assert (Hcreate : ∀ req, ran_within (only (User_OrgID caller)) (Server_CreateTask caller req)).
    { intros req. eapply ran_within_spec; [apply CreateTask_spec|apply create_task_evolves]. }
    destruct (negb _); [destruct (ParseDuration _); [apply ran_within_ret|]|];
      (apply ran_within_call; [apply Hcreate|intros ?; apply ran_within_ret]).
  - do 2 (apply ran_within_call; [first [apply Hget|apply ReadOnly_ran, ReadOnly_ListEventsByTask]|intros ?]).
    apply ran_within_call; [apply ReadOnly_ran, ReadOnly_ListLinks|intros ?; apply ran_within_ret].
  - apply ran_within_call; [apply ReadOnly_ran, ReadOnly_ListTasks|intros ?; apply ran_within_ret].
  - apply ran_within_call; [eapply ran_within_spec; [apply UpdateTask_spec|apply update_evolves]|intros ?].
    apply ran_within_call; [apply Hget|intros ?; apply ran_within_ret].
  - apply ran_within_call; [|intros ?; apply ran_within_call; [apply Hget|intros ?; apply ran_within_ret]].
    eapply ran_within_spec; [apply ArchiveTask_spec|].
    intros. eapply transition_evolves; [apply steps_Archive|eassumption..].
Qed.

Lemma api_call_acts caller c : alters (acts_for caller) (api_call url_Parse dep caller c).
Proof.
  destruct c as [|r|r| |req|]; simpl.
  - apply (alters_pure _ (inr tt)). intros tb. left. apply evolves_refl.
  - eapply alters_mono; [by intros ? ? ?; left|]. apply alters_ran, serve_ran.
  - eapply alters_mono; [by intros ? ? ?; right|]. apply alters_account, serve_account_change.
  - apply alters_bind; [|done]. unfold GetEventTypes.
    destruct (negb _); apply (alters_pure _ (inr _)) || apply (alters_pure _ (inl _)); intros tb; left; apply evolves_refl.
  - apply alters_bind; [|done]. eapply alters_mono; [by intros ? ? ?; left|]. apply alters_ran. intros w Hw.
    eapply wp_mono; [by apply TestEvent_spec|]. by intros r w' [? _].
  - apply (alters_pure _ (inl _)). intros tb. left. apply evolves_refl.
Qed.
(** *** Handlers *)

Lemma ReadOnly_ResolveOrg user orgID : ReadOnly (ResolveOrg user orgID).
Proof. intros w Hw. eapply wp_mono; [by apply ResolveOrg_spec|]. by intros r w' [? _]. Qed.

Lemma ReadOnly_resolving {A} user orgID (k : Err + Z → M A) :
  (∀ r w, (k r w).2 = w) → ReadOnly (res ← catch (ResolveOrg user orgID); k res).
Proof.
  intros Hk w Hw. apply wp_bind, wp_catch. eapply wp_mono; [by apply ReadOnly_ResolveOrg|].
  intros r w' Hat. unfold wp. specialize (Hk r w'). destruct (k r w') as [x w2]. simpl in Hk. by subst.
Qed.

Lemma ReadOnly_bind_pure {A B} (m : M A) (k : A → M B) :
  ReadOnly m → (∀ a w, (k a w).2 = w) → ReadOnly (mbind k m).
Proof.
  intros Hm Hk w Hw. apply wp_bind. eapply wp_mono; [by apply Hm|]. intros [e|a] w' Hat; [done|].
  unfold wp. specialize (Hk a w'). destruct (k a w') as [r w2]. simpl in Hk. by subst.
Qed.

Lemma ReadOnly_handleSSE subscribed flusher caller r : ReadOnly (handleSSE subscribed flusher caller r).
Proof.
  unfold handleSSE. destruct caller as [user|]; [|apply (ReadOnly_pure (inr _))]. cbv zeta.
  destruct (String.eqb _ _); [|apply (ReadOnly_pure (inr _))].
  destruct (ParseInt _); [|apply (ReadOnly_pure (inr _))]. apply ReadOnly_resolving. by intros [].
Qed.

Lemma ReadOnly_attach caller r id : ReadOnly (attach_leg sessions caller r id).
Proof.
  unfold attach_leg. cbv zeta.
  destruct (lookup_session _ _); [|apply (ReadOnly_pure (inr _))].
  destruct (attached_user caller); [|apply (ReadOnly_pure (inr _))].
  destruct (ParseInt _); [|apply (ReadOnly_pure (inr _))].
  destruct (String.eqb _ _); [|apply (ReadOnly_pure (inr _))]. apply ReadOnly_resolving. by intros [].
Qed.

Lemma ReadOnly_oauth f : ReadOnly (oauth cfg f).
Proof. unfold oauth. destruct (Cfg_OAuth cfg); [|apply (ReadOnly_pure (inr _))]. intros w Hw. by apply at_refl. Qed.

(** An account link changes the account of the user it finds attached. *)
Definition for_caller (caller : Attached) (tb tb' : Tables) : Prop :=
  tb' = tb ∨ ∃ user, attached_user caller = Some user ∧ acts_for user tb tb'.

Lemma for_caller_pure {A} caller (r : Err + A) : alters (for_caller caller) (λ w, (r, w)).
Proof. apply alters_pure. by left. Qed.

Lemma link_changes {Id} fetch (link : string → Id → M unit) what linked caller token :
  (∀ user orgID id, account_op user orgID (link user id)) →
  alters (for_caller caller) (link_account fetch link what linked caller token).
Proof.
  intros Hlink. unfold link_account.
  destruct (attached_user caller) as [user|] eqn:Hu; [|apply (for_caller_pure caller (inr _))].
  destruct (String.eqb _ _); [apply (for_caller_pure caller (inr _))|].
  destruct (fetch token) as [|id]; [apply (for_caller_pure caller (inr _))|].
  intros w Hw. apply wp_bind, wp_catch.
  eapply wp_mono; [by apply (alters_account (User_ID user) (User_OrgID user)); [apply Hlink|]|].
  intros [e|x] w' [Hw' Hch]; (split; [done|]; right; exists user; split; [done|by right]).
Qed.

Lemma callback_changes caller Exchange req onSuccess :
  (∀ token, alters (for_caller caller) (onSuccess token)) →
  alters (for_caller caller) (HandleCallback Exchange req onSuccess).
Proof.
  intros Hs. unfold HandleCallback. repeat (case_match; try apply (for_caller_pure caller (inr _))). apply Hs.
Qed.

Lemma rpc_changes caller c : alters (for_caller caller) (serve_rpc url_Parse dep caller c).
Proof.
  destruct c as [e|c]; [apply (for_caller_pure caller (inr _))|]. intros w Hw. unfold serve_rpc.
  apply wp_bind, wp_catch. unfold RequireUserInterceptor. destruct (attached_user caller) as [user|] eqn:Hu.
  - eapply wp_mono; [by apply api_call_acts|]. intros [e|x] w' [Hw' Hch].
    + destruct (isPanic e); (split; [done|right; eauto]).
    + split; [done|right; eauto].
  - apply wp_raise. by split; [|left].
Qed.

Lemma mcp_changes caller t : alters (for_caller caller) (serve_mcp dep ParseDuration caller t).
Proof.
  unfold serve_mcp. destruct (attached_user caller) as [user|] eqn:Hu; [|apply (for_caller_pure caller (inr _))].
  destruct t as [t|]; [|apply (for_caller_pure caller (inr _))].
  apply alters_bind; [|done]. eapply alters_mono; [|apply alters_ran, user_tool_ran].
  intros tb tb' Hev. right. exists user. split; [done|by left].
Qed.

Lemma handle_changes route devUser caller r :
  alters (changed route devUser caller r) (handle route devUser caller r).
Proof.
  assert (Hfor : ∀ (m : M Reply), alters (for_caller caller) m → alters (changed route devUser caller r) m).
  { intros m. apply alters_mono. intros tb tb' [->|H]; [by left|right; by left]. }
  assert (Hro : ∀ (m : M Reply), ReadOnly m → alters (changed route devUser caller r) m).
  { intros m H. eapply alters_mono; [|by apply alters_ReadOnly]. by left. }
  assert (Hpure : ∀ reply : Reply, alters (A := Reply) (changed route devUser caller r) (mret reply)).
  { intros reply. apply (alters_pure _ (inr reply)). by left. }
  destruct route; unfold FrontDoor.handle; cbv zeta; try apply Hpure.
  - unfold auth_handler. destruct devUser; [apply Hpure|]. destruct (F_Login r) as [user|] eqn:Hl; [|apply Hpure].
    apply alters_bind; [|done]. eapply alters_mono; [|apply alters_account, Provision_account].
    intros tb tb' H. right. right. split; [done|]. by exists user.
  - apply Hfor, rpc_changes.
  - apply Hro, ReadOnly_bind_pure; [apply ReadOnly_handleSSE|done].
  - apply Hfor, alters_bind; [|done]. apply callback_changes. intros token. apply link_changes.
    intros user orgID id. apply LinkGitHubAccount_op.
  - apply alters_bind; [|done]. intros w Hw.
    destruct (ParseWebHook (Dep_ValidateSignature dep) (Dep_ParseGitHub dep) (F_GitHub r) (Dep_WebhookSecret dep))
      as [err|event] eqn:Hp.
    { unfold github_webhook, github_ServeHTTP. rewrite Hp. by split; [|left]. }
    eapply wp_mono; [by apply github_ServeHTTP_ran|]. intros res w' Hran.
    split; [exact (ran_world_ok _ _ _ Hran)|]. right. right. split; [by exists event|exact (ran_evolves _ _ _ Hran)].
  - apply Hfor, alters_bind; [|done]. apply callback_changes. intros token. apply link_changes.
    intros user orgID id. apply LinkAtlassianAccount_op.
  - apply alters_bind; [|done]. intros w Hw. eapply wp_mono; [by apply jira_ServeHTTP_ran|].
    intros res w' [Hran Hno]. split; [exact (ran_world_ok _ _ _ Hran)|].
    destruct (jira_org _ _ _) as [org|] eqn:Hj; cycle 1.
    { left. specialize (Hno eq_refl). exact (at_committed _ _ _ _ Hno). }
    right. right. split; [by eexists|exact (ran_evolves _ _ _ Hran)].
  - apply Hro, ReadOnly_oauth.
  - apply Hro, ReadOnly_oauth.
  - apply Hro, ReadOnly_oauth.
  - apply Hro, ReadOnly_attach.
  - apply Hfor, mcp_changes.
Qed.
(** *** Whom a request is served for *)

(** The user that the request's credentials name. *)
Definition credited (tb : Tables) (now : Z) (devUser : option UserInfo) (r : HttpRequest) (user : UserInfo) : Prop :=
  ∃ a, attached_as (Dep_Sum256 dep) tb now devUser r a ∧ attached_user a = Some user.

(** What a middleware attaches. *)
Definition vouched (devUser : option UserInfo) (r : HttpRequest) (w w' : World) (a : Attached) : Prop :=
  at_ w (committed w) [] w' ∧
  ∀ user, attached_user a = Some user → credited (committed w) (clock w) devUser r user.

Lemma CheckAuth_vouched devUser r w :
  world_ok w → wp (CheckAuth (Dep_Sum256 dep) devUser r)
    (λ res w', ∃ a, res = inr a ∧ vouched devUser r w w' a) w.
Proof.
  intros Hw. eapply wp_mono; [by apply CheckAuth_spec|]. intros res w' (Hat & a & -> & Ha).
  exists a. split; [done|]. split; [done|]. intros user Hu. destruct Ha as [[_ ->]|Ha]; [done|]. by exists a.
Qed.

Lemma RequireAuth_vouched devUser r w :
  world_ok w → wp (RequireAuth (Dep_Sum256 dep) devUser r) (λ res w', at_ w (committed w) [] w' ∧
    ∃ adm, res = inr adm ∧ ∀ a, adm = Serve a → is_Some (attached_user a) ∧ vouched devUser r w w' a) w.
Proof.
  intros Hw. unfold RequireAuth. apply wp_bind, wp_catch.
  eapply wp_mono; [by apply authenticate_spec|]. intros res w' [Hat H].
  assert (Hown : ∀ user, attached_as (Dep_Sum256 dep) (committed w) (clock w) devUser r (Own user) →
    is_Some (attached_user (Own user)) ∧ vouched devUser r w w' (Own user)).
  { intros user Ha. split; [by eexists|]. split; [done|]. intros u [= <-]. by exists (Own user). }
  unfold attached_as in Hown. destruct (CutPrefix _ _) as [raw|] eqn:Hc.
  - destruct (IsKey raw).
    + destruct H as [(msg & Hh & ->)| ->]; [split; [done|]; by eexists|].
      destruct (key_user _ _ _) as [e|user]; (split; [done|]; eexists; split; [done|]; intros a [= <-]). by apply Hown.
    + subst res. destruct (ParseWithClaims _ _) as [e|claims];
        (split; [done|]; eexists; split; [done|]; intros a [= <-]). by apply Hown.
  - subst res. unfold attach_session in Hown. destruct devUser as [user|].
    + split; [done|]. eexists. split; [done|]. intros a [= <-]. split; [by eexists|]. split; [done|].
      intros u [= <-]. exists (Dev user). split; [|done]. unfold attached_as. by rewrite Hc.
    + destruct (session_user r) as [user|]; (split; [done|]; eexists; split; [done|]; intros a [= <-]). by apply Hown.
Qed.

(** What a request did to the tables: nothing, a change for the user its credentials
    name, what a delivery with a valid signature brings, or the account of a user
    who signed in. *)
Definition http_change (devUser : option UserInfo) (r : FrontRequest) (now : Z) (tb tb' : Tables) : Prop :=
  tb' = tb ∨
  (∃ user, credited tb now devUser (F_Http r) user ∧ acts_for user tb tb') ∨
  ∃ route, mux (routes dep cfg) (Req_Method (F_Http r)) (F_Path r) = Dispatch (Public, route) ∧
    changed route devUser Nobody r tb tb'.

Lemma routes_public s gate route :
  (s, (gate, route)) ∈ routes dep cfg →
  match route with RouteGitHubWebhook | RouteAtlassianWebhook | RouteAuth => gate = Public | _ => True end.
Proof.
  unfold routes, when. rewrite list_elem_of_In. intros Hin. revert Hin.
  destruct (Cfg_Notify cfg), (bool_decide (is_Some (Dep_GitHub dep))), (bool_decide (is_Some (Dep_Atlassian dep))),
    (bool_decide (is_Some (Cfg_OAuth cfg))); simpl; intros Hin;
    repeat (destruct Hin as [[= <- <- <-]|Hin]; [done|]); done.
Qed.

Lemma guarded_changes gate route devUser r w :
  world_ok w → mux (routes dep cfg) (Req_Method (F_Http r)) (F_Path r) = Dispatch (gate, route) →
  wp (guarded dep gate devUser (F_Http r) (λ a, handle route devUser a r))
    (λ _ w', world_ok w' ∧ http_change devUser r (clock w) (committed w) (committed w')) w.
Proof.
  intros Hw Hmux.
  assert (Hnext : ∀ a w1, gate ≠ Public → vouched devUser (F_Http r) w w1 a → wp (handle route devUser a r)
    (λ _ w', world_ok w' ∧ http_change devUser r (clock w) (committed w) (committed w')) w1).
  { intros a w1 Hg [Hat Hv]. eapply wp_mono; [apply handle_changes; exact (at_world_ok _ _ _ _ Hat)|].
    intros res w' [Hw' Hch]. split; [done|]. rewrite (at_committed _ _ _ _ Hat) in Hch.
    destruct Hch as [->|[(user & Hu & Hacts)|Hr]]; [by left|right; left; exists user; eauto|].
    apply mux_dispatch in Hmux as (s & Hin & _). apply routes_public in Hin. destruct route; done. }
  destruct gate; unfold guarded.
  - eapply wp_mono; [by apply handle_changes|]. intros res w' [Hw' Hch]. split; [done|]. right. right. by exists route.
  - apply wp_bind. eapply wp_mono; [by apply CheckAuth_vouched|]. intros res w1 (a & -> & Hv). by apply Hnext.
  - apply wp_bind. eapply wp_mono; [by apply RequireAuth_vouched|]. intros res w1 (Hat & adm & -> & Hadm).
    destruct adm as [a|resp|]; [by apply Hnext; [|apply Hadm]|..];
      (apply wp_ret; split; [exact (at_world_ok _ _ _ _ Hat)|left; exact (at_committed _ _ _ _ Hat)]).
Qed.

Lemma serve_http_changes devUser r w :
  world_ok w → wp (serve_http devUser r)
    (λ _ w', world_ok w' ∧ http_change devUser r (clock w) (committed w) (committed w')) w.
Proof.
  intros Hw. unfold FrontDoor.serve_http. destruct (_ && _); [by split; [|left]|].
  destruct (mux _ _ _) as [[gate route]|path| |] eqn:Hmux; [|by split; [|left]..].
  assert (Hadmit : wp (reply ← (if StripPrefix route (F_Path r) then guarded dep gate devUser (F_Http r)
      (λ a, handle route devUser a r) else mret ReplyNotFound); mret (reply, devUser))
    (λ _ w', world_ok w' ∧ http_change devUser r (clock w) (committed w) (committed w')) w).
  { apply wp_bind. destruct (StripPrefix _ _); [|by split; [|left]].
    eapply wp_mono; [by apply guarded_changes|]. by intros [e|reply] w1 H. }
  destruct route; try exact Hadmit.
  apply wp_bind. unfold token_endpoint. apply wp_bind. eapply wp_mono; [by apply CheckAuth_vouched|].
  intros r1 w1 (a & -> & Hat & _).
  eapply wp_mono; [apply HandleToken_spec; exact (at_world_ok _ _ _ _ Hat)|].
  assert (Hsame : ∀ w2, at_ w1 (committed w1) [] w2 → world_ok w2 ∧
    http_change devUser r (clock w) (committed w) (committed w2)).
  { intros w2 Hat2. split; [exact (at_world_ok _ _ _ _ Hat2)|left].
    by rewrite (at_committed _ _ _ _ Hat2), (at_committed _ _ _ _ Hat). }
  by intros [e|x] w2 [Hat2 _]; apply Hsame.
Qed.

(** What an event did to the tables.  A session's end can only make the task of the
    session's own org that holds it forget it. *)
Definition front_change (devUser : option UserInfo) (ev : FrontEvent) (now : Z) (tb tb' : Tables) : Prop :=
  match ev with
  | Incoming r => http_change devUser r now tb tb'
  | TearDown id => tb' = tb ∨ ∃ e, sessions !! id = Some e ∧ shell_cleared id (entry_orgID e) tb tb'
  end.

(** C5: nothing is done for nobody.  Whatever request reaches the HTTP server, on
    whatever path and to whatever handler, the tables change only on behalf of the
    user that the credentials it carries name (a valid API key, a valid token, the
    session, or the configured dev user), and then only in the org that user acts
    for or in their own account and orgs; without such credentials only a webhook's
    delivery with a valid signature and the callback of a sign-in change anything,
    the delivery in the orgs it is authenticated for and the sign-in that user's
    account.  The one other write is not a request's: when a live debug-shell session
    is over, whoever's leg or whichever timer ended it, the tasks of the org that
    opened the session which still hold it forget it, and nothing else changes. *)
Theorem requests_act_for_their_user (devUser : option UserInfo) (ev : FrontEvent) (w w' : World)
    (res : Err + (Reply * option UserInfo)) :
  world_ok w → front devUser ev w = (res, w') →
  world_ok w' ∧ front_change devUser ev (clock w) (committed w) (committed w').
Proof.
  intros Hw Hrun.
  assert (Hwp : wp (front devUser ev)
    (λ _ w', world_ok w' ∧ front_change devUser ev (clock w) (committed w) (committed w')) w);
    [|by unfold wp in Hwp; rewrite Hrun in Hwp].
  destruct ev as [r|id]; [by apply serve_http_changes|].
  apply wp_bind. unfold tear_down, lookup_session. destruct (sessions !! id) as [e|] eqn:He; [|by split; [|left]].
  eapply wp_mono; [by apply onShellClose_spec|]. intros res1 w1 (-> & tb & Hat & _ & Hch & _).
  split; [exact (at_world_ok _ _ _ _ Hat)|]. rewrite (at_committed _ _ _ _ Hat). right. by exists e.
Qed.
End changes.

(** ** Requests without credentials *)

Section strangers.
Context {CR : Cron} {JC : TokenJSON IDCursor} {JT : TokenJSON taskCursor} {MJ : MapJSON} {TK : Tokens}.
Context (url_Parse : string → option Url) (dep : Deployment) (cfg : Config).
Context (nil_cookie_context : option Err).
Context (ParseDuration : string → Err + Z) (set_query : string → list (string * string) → option string).
Context (ExchangeGitHub ExchangeAtlassian : string → string + string).
Context (LoginGitHub LoginAtlassian : string → string).
Context (sessions : Registry).

Local Abbreviation serve_http := (serve_http url_Parse dep cfg nil_cookie_context ParseDuration set_query
  ExchangeGitHub ExchangeAtlassian LoginGitHub LoginAtlassian sessions).

(** No token, no session, no dev user. *)
Definition stranger (r : HttpRequest) : Prop :=
  CutPrefix (Req_Authorization r) "Bearer " = None ∧ Req_Session r = None.

(** What a stranger is answered where a caller is needed. *)
Definition turned_away (route : Route) (r : FrontRequest) (reply : Reply) : Prop :=
  match route with
  | RouteApi => ∃ e, reply = ReplyRpc (inl e) ∧ ∀ c, F_Rpc r = inr c → CodeOf e = CodeUnauthenticated
  | RouteToken => ∃ status msg, reply = ReplyHttp (HttpError status msg)
  | RouteEvents => reply = ReplyStream (StreamRefused (HttpError StatusUnauthorized "authentication required"))
  | RouteShellAttach => ∃ status msg, reply = ReplyLeg (Reject status msg)
  | RouteGitHubLogin | RouteGitHubCallback | RouteAtlassianLogin | RouteAtlassianCallback
  | RouteShellDriver | RouteMcp => reply = ReplyLogin
  | RouteUI => reply = ReplyLogin ∨ reply = ReplyNotFound
  | _ => True
  end.

(** A stranger gets past no route that needs a caller, and changes nothing there. *)
Theorem strangers_turned_away (r : FrontRequest) (gate : Gate) (route : Route) (w : World) :
  stranger (F_Http r) → Cfg_CORS cfg && String.eqb (Req_Method (F_Http r)) "OPTIONS" = false →
  mux (routes dep cfg) (Req_Method (F_Http r)) (F_Path r) = Dispatch (gate, route) → gate ≠ Public →
  ∃ reply, serve_http None r w = (inr (reply, None), w) ∧ turned_away route r reply.
Proof.
  intros [Hraw Hsess] Hcors Hmux Hgate. unfold FrontDoor.serve_http. rewrite Hcors, Hmux.
  assert (Hcheck : CheckAuth (Dep_Sum256 dep) None (F_Http r) w = (inr Nobody, w)).
  { unfold CheckAuth, authenticate, attach_session, session_user. by rewrite Hraw, Hsess. }
  assert (Hrequire : RequireAuth (Dep_Sum256 dep) None (F_Http r) w = (inr Login, w)).
  { unfold RequireAuth, authenticate, session_user. by rewrite Hraw, Hsess. }
  assert (Hin := Hmux). apply mux_dispatch in Hin as (s & Hin & _).
  assert (Hg : gate = match route with
    | RouteToken | RouteApi | RouteEvents | RouteShellAttach => Check | _ => Require end).
  { revert Hin. unfold routes, when. rewrite list_elem_of_In.
    destruct (Cfg_Notify cfg), (bool_decide (is_Some (Dep_GitHub dep))), (bool_decide (is_Some (Dep_Atlassian dep))),
      (bool_decide (is_Some (Cfg_OAuth cfg))); simpl; intros Hin;
      repeat (destruct Hin as [[= _ <- <-]|Hin]; [done|]); done. }
  subst gate. destruct route; unfold token_endpoint, StripPrefix, guarded, mbind, M_bind; rewrite ?Hcheck, ?Hrequire;
    try (eexists; split; [reflexivity|done]).
  - unfold HandleToken. destruct (negb _); [eexists; split; [reflexivity|by eexists _, _]|].
    eexists. split; [reflexivity|by eexists _, _].
  - unfold handle, serve_rpc. destruct (F_Rpc r) as [e|c] eqn:Hc.
    + eexists. split; [reflexivity|]. exists e. split; [done|]. intros c Hc'. by rewrite Hc in Hc'.
    + eexists. split; [reflexivity|]. eexists. split; [reflexivity|done].
  - unfold handle, attach_leg. destruct (lookup_session _ _) eqn:Hl; (eexists; split; [reflexivity|]);
      unfold AttachHandler; rewrite Hl; by eexists _, _.
  - destruct (HasPrefix _ _); rewrite ?Hrequire; (eexists; split; [reflexivity|]); [by left|by right].
Qed.
End strangers.

(** ** Routes and a request, by evaluation *)

Definition sample_config : Config := mkConfig true None false.

Definition routed (method path : string) : Routed := mux (routes sample_deployment sample_config) method path.

(** An escaped path is the path it spells; one that is not clean, or lacks its
    slash, is redirected. *)
Lemma routed_examples :
  routed "POST" "/mcp" = Dispatch (Require, RouteMcp) ∧
  routed "POST" "/%6dcp" = Dispatch (Require, RouteMcp) ∧
  routed "POST" "/ui/../mcp" = MovedTo "/mcp" ∧
  routed "GET" "/ui" = MovedTo "/ui/" ∧
  routed "GET" "/ui/tasks/7" = Dispatch (Require, RouteUI) ∧
  routed "GET" "/auth/token" = Dispatch (Check, RouteToken) ∧
  routed "GET" "/auth/callback" = Dispatch (Public, RouteAuth) ∧
  routed "HEAD" "/shell/driver" = Dispatch (Require, RouteShellDriver) ∧
  routed "POST" "/shell/driver" = Dispatch (Public, RouteRoot) ∧
  routed "POST" "/webhook/github" = Dispatch (Public, RouteRoot).
Proof. repeat split; vm_compute; reflexivity. Qed.

#[local] Instance front_task_json : TokenJSON taskCursor :=
  {| json_Marshal := λ _, ""; json_Unmarshal := λ _, None |}.

(** A caller with a token of org 3 cancels a task over the RPC service. *)
Definition cancel_request (token : string) : FrontRequest :=
  mkFront "/gritz.v1.GritzService/CancelTask" (mkHttpRequest "POST" token "" (λ _, "") None)
    (inr (CallRequest (ReqCancelTask 7))) None (mkCallback None "" "") (inl "") (mkDelivery "" "" "" "")
    (mkJira "" "" "") (mkForm "" None) None "" "" true true None.

Definition sample_front_of (sessions : Registry) : FrontEvent → M (Reply * option UserInfo) :=
  @front demo_cron sample_json front_task_json sample_map_json demo_tokens (λ _, None) sample_deployment
    sample_config None (λ _, inr 0) demo_redirect inl inl (λ s, s) (λ s, s) sessions None.

Definition sample_front (r : FrontRequest) : M (Reply * option UserInfo) := sample_front_of ∅ (Incoming r).

Lemma requests_act_for_their_user_witness :
  let r := cancel_request "Bearer t2" in
  let w' := snd (sample_front r two_orgs) in
  fst (sample_front r two_orgs) = inr (ReplyRpc (inr tt), None) ∧
  t_tasks (committed w') ≠ t_tasks (committed two_orgs) ∧
  ∃ user, User_OrgID user = 3 ∧ acts_for user (committed two_orgs) (committed w').
Proof.
  intros r w'. split; [vm_compute; reflexivity|]. split; [by vm_compute|].
  destruct (@requests_act_for_their_user demo_cron sample_json front_task_json sample_map_json demo_tokens (λ _, None)
    sample_deployment sample_config None (λ _, inr 0) demo_redirect inl inl (λ s, s) (λ s, s) ∅ None (Incoming r)
    two_orgs w' _ two_orgs_ok (surjective_pairing _)) as (_ & [E|[(user & (a & Ha & Hu) & Hacts)|(route & Hmux & _)]]).
  - exfalso. assert (Ht : t_tasks (committed w') = t_tasks (committed two_orgs)) by (by rewrite E).
    vm_compute in Ht. discriminate Ht.
  - exists user. split; [|exact Hacts]. vm_compute in Ha. subst a. injection Hu as <-. reflexivity.
  - vm_compute in Hmux. discriminate Hmux.
Defined.

Lemma stranger_refused :
  sample_front (cancel_request "") two_orgs =
    (inr (ReplyRpc (inl (EConnect CodeUnauthenticated "authentication required")), None), two_orgs).
Proof. vm_compute. reflexivity. Qed.

(** Whose leg ends a session is not checked against the org that opened it: the
    driver leg asks only for task-read of the session's task, which a user of any org
    with unrestricted scopes has.  One of org 4 takes the driver's place in a session
    of org 3, and when they leave, org 3's task forgets its session. *)
Definition held_row : TaskRow := mkTaskRow 7 "n" "r1" "ws" 6 0 1 3 false 0 0 0 "s1" "".
Definition held_session : World :=
  mkWorld (with_tasks <[7 := held_row]> (committed two_orgs)) None (λ _, 8) [] [] 1000.

Lemma foreign_leg_ends_session :
  let stranger := mkUser "u2" "" "" 4 "app" "" Admin in
  let w' := snd (sample_front_of sample_registry (TearDown "s1") held_session) in
  DriverHandler sample_registry (Some stranger) "s1" = Upgrade (mkEntry 3 7) ∧
  Row_shell_session <$> t_tasks (committed held_session) !! 7 = Some "s1" ∧
  Row_shell_session <$> t_tasks (committed w') !! 7 = Some "".
Proof. vm_compute. repeat split. Qed.
