(* ===== verification/RpcClient.v ===== *)
(** * The client of the service

    Models [internal/gritzclient]'s [client.go], [transport.go] and [retry.go]: the
    headers of a client, the path of every call, and the attempts that a call is
    made of, against the server of [FrontDoor] over a connection that may not carry
    the request or lose the answer.  The retry loop of the backoff library is a
    parameter with the laws it documents. *)

From S2P Require Import Prelude AuthScope ScopeParse EventModel TaskModel Links Strconv PubSub ScheduleModel Rules.
From S2P Require Import Store StoreOps StoreLogic StoreAccounts ApiBase Timeline ShellServer ApiTask Evolution Wire.
From S2P Require Import ApiAccounts AccountSpec ApiTaskSpec Pagination StorePages ApiEvents McpTools SignIn Sse OAuthFlow.
From S2P Require Import NotifyStream Mentions EventRouter Webhooks EventSchemas EventTypes Server HttpMux FrontDoor.

(** ** The paths of the calls *)

Definition request_name (r : Request) : string :=
  match r with
  | ReqCreateTask _ => "CreateTask" | ReqGetTask _ => "GetTask" | ReqListTasks _ _ _ => "ListTasks"
  | ReqListRunnerTasks _ => "ListRunnerTasks" | ReqUpdateTask _ => "UpdateTask" | ReqArchiveTask _ => "ArchiveTask"
  | ReqUnarchiveTask _ => "UnarchiveTask" | ReqCancelTask _ => "CancelTask" | ReqRestartTask _ => "RestartTask"
  | ReqOpenShell _ _ _ => "OpenShell" | ReqSubmitRunnerEvents _ => "SubmitRunnerEvents"
  | ReqListExternalEvents _ => "ListExternalEvents" | ReqGetEvent _ => "GetEvent" | ReqDeleteEvent _ => "DeleteEvent"
  | ReqListEventsByTask _ => "ListEventsByTask" | ReqCreateLink _ => "CreateLink" | ReqListLinks _ => "ListLinks"
  | ReqUploadLogs _ _ => "UploadLogs" | ReqAppendLogChunk _ _ _ => "AppendLogChunk"
  | ReqListLogChunks _ _ _ => "ListLogChunksByTask" | ReqRegisterWorkspaces _ _ => "RegisterWorkspaces"
  | ReqListWorkspaces => "ListWorkspaces" | ReqClearWorkspaces _ => "ClearWorkspaces"
  | ReqCreateTaskToken _ _ => "CreateTaskToken" | ReqCreateSchedule _ _ => "CreateSchedule"
  | ReqGetSchedule _ => "GetSchedule" | ReqListSchedules => "ListSchedules" | ReqUpdateSchedule _ _ => "UpdateSchedule"
  | ReqDeleteSchedule _ => "DeleteSchedule" | ReqSetScheduleEnabled _ _ => "SetScheduleEnabled" | ReqRunSchedule _ => "RunSchedule"
  end.

Definition account_name (r : AccountRequest) : string :=
  match r with
  | ReqCreateOrg _ => "CreateOrg" | ReqListOrgs => "ListOrgs" | ReqDeleteOrg _ => "DeleteOrg"
  | ReqAddOrgMember _ => "AddOrgMember" | ReqRemoveOrgMember _ => "RemoveOrgMember"
  | ReqListOrgMembers => "ListOrgMembers" | ReqGetOrgSettings => "GetOrgSettings"
  | ReqGenerateWebhookSecret _ => "GenerateAtlassianWebhookSecret" | ReqUnlinkGitHub => "UnlinkGitHubAccount"
  | ReqUnlinkAtlassian => "UnlinkAtlassianAccount" | ReqGetRoutingRules => "GetRoutingRules"
  | ReqSetRoutingRules _ => "SetRoutingRules" | ReqLinkInstallation _ => "LinkGitHubInstallation"
  | ReqGetProfile => "GetProfile" | ReqCreateKey _ _ _ _ => "CreateKey" | ReqListKeys => "ListKeys"
  | ReqDeleteKey _ => "DeleteKey"
  end.

Definition call_name (c : ApiCall) : string :=
  match c with
  | CallPing => "Ping" | CallRequest r => request_name r | CallAccount r => account_name r
  | CallGetEventTypes => "GetEventTypes" | CallTestEvent _ => "TestEvent" | CallCreateGitHubToken => "CreateGitHubToken"
  end.

Definition procedure (c : ApiCall) : string := "/gritz.v1.GritzService/" +:+ call_name c.

(** ** The client *)

(** The delays are in nanoseconds. *)
Record RetryInterceptor := mkRetry { MaxRetries : Z; InitialBackoff : Z; MaxBackoff : Z }.

Definition DefaultMaxRetries : Z := 4.
Definition DefaultInitialBackoff : Z := 100 * 10 ^ 6.
Definition DefaultMaxBackoff : Z := 5 * 10 ^ 9.
Definition DefaultTimeout : Z := 30 * 10 ^ 9.

Record ClientOptions := mkClientOptions {
  Opt_Token : string; Opt_Timeout : Z; Opt_ClientID : string; Opt_Retry : RetryInterceptor }.

Definition client_of (token : string) : ClientOptions := mkClientOptions token 0 "" (mkRetry 0 0 0).

Definition or_default (n default : Z) : Z := if n =? 0 then default else n.

(** The interceptor's parameters, its zero fields replaced: attempts and delays. *)
Definition max_tries (i : RetryInterceptor) : Z := Z.max (wrap64 (or_default (MaxRetries i) DefaultMaxRetries + 1)) 1.
Definition retry_delays (i : RetryInterceptor) : Z * Z :=
  (or_default (InitialBackoff i) DefaultInitialBackoff, or_default (MaxBackoff i) DefaultMaxBackoff).
Definition client_timeout (o : ClientOptions) : Z := or_default (Opt_Timeout o) DefaultTimeout.

(** [AuthTransport.RoundTrip]'s headers; a client without a token has no such
    transport. *)
Definition auth_headers (o : ClientOptions) : string * string :=
  if String.eqb (Opt_Token o) "" then ("", "") else ("Bearer " +:+ Opt_Token o, Opt_ClientID o).

Definition http_sent (o : ClientOptions) : HttpRequest :=
  mkHttpRequest "POST" (auth_headers o).1 (auth_headers o).2 (λ _, "") None.

Definition sent (o : ClientOptions) (c : ApiCall) : FrontRequest :=
  mkFront (procedure c) (http_sent o) (inr c) None (mkCallback None "" "") (inl "") (mkDelivery "" "" "" "")
    (mkJira "" "" "") (mkForm "" None) None "" "" false true None.

(** ** Attempts *)

(** What an attempt fails with: no answer came; the caller gave up, or the attempt's
    time was over, which is no code to try again on; or the answer was an error. *)
Inductive CallErr := Unavailable | Cancelled | Answered (e : Err).

Definition isRetryable (e : CallErr) : bool := match e with Unavailable => true | _ => false end.

(** What becomes of an attempt: it does not reach the server, its reply is lost, it
    is cut off by the caller's context or the client's timeout, before or after the
    server executed it, or it is answered. *)
Inductive Link := Unreachable | ReplyLost | CutOff (executed : bool) | Delivered.

(** The loop of the backoff library over attempts that change a state: an attempt
    fails for good, or in a way to try again. *)
Class Backoff := {
  Retry : ∀ {St A E : Type}, Z → E → (nat → St → (bool * E + A) * St) → St → (E + A) * St }.

(** What the library documents: the attempts are made in turn until one succeeds,
    one fails for good, their number is used up or the caller gives up. *)
Inductive retried {St A E : Type} (cancelled : E) (op : nat → St → (bool * E + A) * St) : nat → nat → St → E + A → St → Prop :=
| retried_ok k n s a s' : op k s = (inr a, s') → retried cancelled op k n s (inr a) s'
| retried_permanent k n s e s' : op k s = (inl (true, e), s') → retried cancelled op k n s (inl e) s'
| retried_exhausted k s e s' : op k s = (inl (false, e), s') → retried cancelled op k 0 s (inl e) s'
| retried_given_up k n s e s' : op k s = (inl (false, e), s') → retried cancelled op k n s (inl cancelled) s'
| retried_again k n s e s1 r s' :
    op k s = (inl (false, e), s1) → retried cancelled op (S k) n s1 r s' → retried cancelled op k (S n) s r s'.

Class BackoffLaws `{Backoff} := {
  Retry_retries {St A E} (tries : Z) (cancelled : E) (op : nat → St → (bool * E + A) * St) (s s' : St) (r : E + A) :
    1 <= tries → Retry tries cancelled op s = (r, s') → retried cancelled op 0 (Z.to_nat (tries - 1)) s r s' }.

(** One attempt: the state counts the calls that the server executed. *)
Definition attempt {A} (call : M (Err + A)) (l : Link) (s : World * nat) : (CallErr + A) * (World * nat) :=
  let (w, n) := s in
  match l with
  | Unreachable => (inl Unavailable, s)
  | ReplyLost => (inl Unavailable, (snd (call w), S n))
  | CutOff executed => (inl Cancelled, if executed then (snd (call w), S n) else s)
  | Delivered =>
      let (res, w') := call w in
      (match res with
       | inr (inr a) => inr a
       | inr (inl err) => inl (Answered err)
       | inl _ => inl Unavailable  (* a panic: the connection is closed *)
       end, (w', S n))
  end.

(** [WrapUnary]: the connection's fate may differ at each attempt. *)
Definition WrapUnary `{Backoff} {A} (i : RetryInterceptor) (links : nat → Link) (call : M (Err + A)) (w : World)
    : (CallErr + A) * (World * nat) :=
  Retry (max_tries i) Cancelled (λ k s,
    match attempt call (links k) s with
    | (inl err, s') => (inl (negb (isRetryable err), err), s')
    | (inr a, s') => (inr a, s')
    end) (w, 0%nat).

(** ** The service behind the client *)

Section client.
Context {CR : Cron} {JC : TokenJSON IDCursor} {JT : TokenJSON taskCursor} {MJ : MapJSON} {TK : Tokens}.
Context (url_Parse : string → option Url) (dep : Deployment) (cfg : Config).
Context (nil_cookie_context : option Err).
Context (ParseDuration : string → Err + Z) (set_query : string → list (string * string) → option string).
Context (ExchangeGitHub ExchangeAtlassian : string → string + string).
Context (LoginGitHub LoginAtlassian : string → string).
Context (sessions : Registry).

Local Abbreviation serve_http := (serve_http url_Parse dep cfg nil_cookie_context ParseDuration set_query
  ExchangeGitHub ExchangeAtlassian LoginGitHub LoginAtlassian sessions).
Local Abbreviation api_call := (api_call url_Parse dep).

(** A call as the server executes it: authentication, the interceptor, the handler. *)
Definition rpc {A} (devUser : option UserInfo) (o : ClientOptions) (handler : UserInfo → M A) : M (Err + A) :=
  a ← CheckAuth (Dep_Sum256 dep) devUser (http_sent o);
  r ← catch (RequireUserInterceptor a handler);
  match r with
  | inl err => if isPanic err then raise err else mret (inl err)
  | inr x => mret (inr x)
  end.

Lemma call_name_segments c : segments (procedure c) = ["gritz.v1.GritzService"; call_name c].
Proof. by destruct c as [|[]|[]| | |]. Qed.

(** Every call of a client is routed to the service, whatever the deployment. *)
Lemma rpc_routed c : mux (routes dep cfg) "POST" (procedure c) = Dispatch (Check, RouteApi).
Proof.
  unfold routes, when.
  destruct (Cfg_Notify cfg), (bool_decide (is_Some (Dep_GitHub dep))), (bool_decide (is_Some (Dep_Atlassian dep))),
    (bool_decide (is_Some (Cfg_OAuth cfg))), c as [|[]|[]| | |]; vm_compute; reflexivity.
Qed.

(** The server's front is these steps and nothing else. *)
Lemma serve_http_rpc devUser o c w :
  serve_http devUser (sent o c) w =
    (r ← rpc devUser o (λ user, api_call user c); mret (ReplyRpc r, devUser)) w.
Proof.
  unfold FrontDoor.serve_http. cbn [Req_Method F_Http sent http_sent F_Path].
  rewrite andb_false_r, rpc_routed. unfold guarded, rpc, handle, serve_rpc, StripPrefix.
  cbn [F_Rpc F_Http sent]. unfold mbind, M_bind.
  destruct (CheckAuth _ _ _ w) as [[e|a] w1]; [done|].
  destruct (catch _ w1) as [[e|r] w2]; [done|].
  destruct r as [e|x]; [destruct (isPanic e)|]; done.
Qed.

(** A client without a token is nobody to a server without a dev user: its calls
    are refused and reach no handler. *)
Lemma no_token_refused {A} o (handler : UserInfo → M A) w :
  Opt_Token o = "" →
  rpc None o handler w = (inr (inl (EConnect CodeUnauthenticated "authentication required")), w).
Proof.
  intros Ht. unfold rpc, CheckAuth, authenticate, attach_session, session_user, http_sent, auth_headers.
  by rewrite Ht.
Qed.

(** What a handler with a specification comes to behind the service, when the
    database answers: nothing crashes, a refusal leaves everything as it was, and a
    success is the handler's for the user that the client's token names. *)
Lemma rpc_handler {A} devUser o (handler : UserInfo → M A) ok err w :
  world_ok w → healthy w → (∀ user, HandlerSpec (handler user) (ok user) (err user)) →
  (∀ user tb e, err user tb e → isPanic e = false) →
  match rpc devUser o handler w with
  | (inr (inr a), w') =>
      ∃ user, credited dep (committed w) (clock w) devUser (http_sent o) user ∧
        ∃ tb ns, at_ w tb ns w' ∧ ok user (clock w) (committed w) a tb ns
  | (inr (inl e), w') => at_ w (committed w) [] w'
  | (inl _, _) => False
  end.
Proof.
  intros Hw Hh Hspec Hpanic. unfold rpc, mbind, M_bind.
  assert (Hc := CheckAuth_spec (Dep_Sum256 dep) devUser (http_sent o) w Hw). unfold wp in Hc.
  destruct (CheckAuth _ _ _ w) as [res w1]. destruct Hc as (Hat & a & -> & [[Hn _]|Ha]); [done|].
  unfold RequireUserInterceptor, catch. destruct (attached_user a) as [user|] eqn:Hu; [|exact Hat].
  assert (Hs := Hspec user w1 (at_world_ok _ _ _ _ Hat)). unfold wp in Hs.
  destruct (handler user w1) as [[e|x] w2]; simpl in Hs.
  - destruct Hs as [Hat2 He]. rewrite (at_committed _ _ _ _ Hat) in Hat2, He.
    rewrite (Hpanic user (committed w) e) by (apply He, (same_healthy _ _ _ _ (at_same _ _ _ _ Hat)), Hh).
    exact (at_trans _ _ _ _ _ _ _ Hat Hat2).
  - destruct Hs as (tb & ns & Hat2 & Hok). exists user. split; [by exists a|]. exists tb, ns.
    rewrite (at_committed _ _ _ _ Hat), (same_clock _ _ _ _ (at_same _ _ _ _ Hat)) in Hok.
    split; [|exact Hok]. exact (at_trans _ _ _ _ _ _ _ Hat Hat2).
Qed.
End client.

(** ** What a call comes to *)

Section calls.
Context `{BL : BackoffLaws}.
Context {A : Type} (links : nat → Link) (call : M (Err + A)).

(** What the caller learns of an execution. *)
Definition learned (res : Err + (Err + A)) : CallErr + A :=
  match res with inr (inr a) => inr a | inr (inl err) => inl (Answered err) | inl _ => inl Unavailable end.

(** After the attempts up to the [k]th: nothing reached the server; or the call was
    executed once, and answered, unless it was cut off after that. *)
Definition settled_once (w : World) (r : CallErr + A) (s : World * nat) : Prop :=
  (s = (w, 0%nat) ∧ (r = inl Unavailable ∨ r = inl Cancelled)) ∨
  (s = (snd (call w), 1%nat) ∧
   (r = learned (fst (call w)) ∨ r = inl Cancelled ∧ ∃ k, links k = CutOff true)).

Lemma retried_once k n w r s' :
  (∀ k, links k ≠ ReplyLost) → (∀ e, fst (call w) ≠ inl e) →
  retried Cancelled (λ k s, match attempt call (links k) s with
    | (inl err, s') => (inl (negb (isRetryable err), err), s')
    | (inr a, s') => (inr a, s')
    end) k n (w, 0%nat) r s' →
  settled_once w r s'.
Proof.
  intros Hl Hp Hr. remember (w, 0%nat) as s eqn:Es. revert Es.
  assert (Hone : ∀ k, attempt call (links k) (w, 0%nat) = (inl Unavailable, (w, 0%nat)) ∨
    attempt call (links k) (w, 0%nat) = (inl Cancelled, (w, 0%nat)) ∨
    (attempt call (links k) (w, 0%nat) = (inl Cancelled, (snd (call w), 1%nat)) ∧ links k = CutOff true) ∨
    (attempt call (links k) (w, 0%nat) = (learned (fst (call w)), (snd (call w), 1%nat)) ∧
     learned (fst (call w)) ≠ inl Unavailable)).
  { intros j. specialize (Hl j). unfold attempt, learned. destruct (links j) as [| |[]|]; [by left|done|auto..|].
    do 3 right. destruct (call w) as [[e|[e|a]] w']; [by destruct (Hp e)|done..]. }
  unfold settled_once.
  induction Hr as [k n s a s' Hop|k n s e s' Hop|k s e s' Hop|k n s e s' Hop|k n s e s1 r s' Hop _ IH]; intros ->;
    specialize (Hone k); destruct Hone as [E|[E|[[E Hcut]|[E Hne]]]]; rewrite E in Hop; cbn in Hop.
  all: try (injection Hop as ?; simplify_eq; eauto 8; done).
  all: destruct (learned (fst (call w))) as [[]|]; simplify_eq/=; auto.
Qed.

Lemma retried_bound k n (w : World) m r s' :
  retried Cancelled (λ k s, match attempt call (links k) s with
    | (inl err, s') => (inl (negb (isRetryable err), err), s')
    | (inr a, s') => (inr a, s')
    end) k n (w, m) r s' → (snd s' <= m + S n)%nat.
Proof.
  intros Hr. remember (w, m) as s eqn:Es. revert w m Es.
  assert (Hone : ∀ j w m, (snd (snd (attempt call (links j) (w, m))) <= S m)%nat).
  { intros j w m. unfold attempt. destruct (links j) as [| |[]|], (call w); simpl; lia. }
  induction Hr as [k n s a s' Hop|k n s e s' Hop|k s e s' Hop|k n s e s' Hop|k n s e s1 r s' Hop _ IH];
    intros w m ->; specialize (Hone k w m); destruct (attempt call (links k) (w, m)) as [[e1|a1] s2];
    simplify_eq/=; try lia.
  destruct s1 as [w1 m1]. specialize (IH w1 m1 eq_refl). simpl in *. lia.
Qed.
End calls.

(** The same of a call of the client. *)
Lemma WrapUnary_once `{BL : BackoffLaws} {A} i links (call : M (Err + A)) w r s :
  (∀ k, links k ≠ ReplyLost) → (∀ e, fst (call w) ≠ inl e) →
  WrapUnary i links call w = (r, s) → settled_once links call w r s.
Proof.
  intros Hl Hp Hrun. apply Retry_retries in Hrun; [|unfold max_tries; lia]. by eapply retried_once.
Qed.

(** C13: a client's call has its effect once.  However often the attempts of a call
    do not reach the server, and wherever the caller gives up: as long as no answer
    is lost on the way back and the handler does not crash, either the server
    executed the call exactly once, the tables are those after that one execution and
    the caller has its answer, or it executed nothing and the caller is told that
    the server was unavailable or that the call was given up; only an attempt that is
    cut off, by the caller or its timeout, may have been executed, once too, without
    its answer.  Whatever the
    connection does, the server executes the call no more often than the client may
    try, which is five times for the clients of the commands. *)
Theorem call_runs_once `{BL : BackoffLaws} {A} (i : RetryInterceptor) (links : nat → Link) (call : M (Err + A))
    (w w' : World) (r : CallErr + A) (n : nat) :
  WrapUnary i links call w = (r, (w', n)) →
  (n <= Z.to_nat (max_tries i))%nat ∧
  ((∀ k, links k ≠ ReplyLost) → (∀ e, fst (call w) ≠ inl e) →
   (n = 0%nat ∧ w' = w ∧ (r = inl Unavailable ∨ r = inl Cancelled)) ∨
   (n = 1%nat ∧ w' = snd (call w) ∧
    (match fst (call w) with inr (inr a) => r = inr a | inr (inl e) => r = inl (Answered e) | inl _ => False end ∨
     r = inl Cancelled ∧ ∃ k, links k = CutOff true))).
Proof.
  intros Hrun. apply Retry_retries in Hrun; [|unfold max_tries; lia]. split.
  - apply retried_bound in Hrun. simpl in Hrun. unfold max_tries in *. lia.
  - intros Hl Hp. eapply retried_once in Hrun; [|done..]. destruct Hrun as [[[= -> ->] Hr]|[[= -> ->] Hr]]; [by left|].
    right. split_and!; [done..|]. destruct Hr as [->|Hr]; [left|by right].
    specialize (Hp : ∀ e, fst (call w) ≠ inl e). unfold learned.
    destruct (fst (call w)) as [e|[|]]; [by apply (Hp e)|done..].
Qed.

(** *** A loop, and calls over bad connections *)

Fixpoint retry_loop {St A E} (cancelled : E) (op : nat → St → (bool * E + A) * St) (k n : nat) (s : St) : (E + A) * St :=
  match op k s with
  | (inr a, s') => (inr a, s')
  | (inl (true, e), s') => (inl e, s')
  | (inl (false, e), s') => match n with O => (inl e, s') | S n => retry_loop cancelled op (S k) n s' end
  end.

#[local] Instance plain_backoff : Backoff :=
  {| Retry _ _ _ tries cancelled op s := retry_loop cancelled op 0 (Z.to_nat (tries - 1)) s |}.

#[local] Instance plain_backoff_laws : BackoffLaws.
Proof.
  constructor. intros St A E tries cancelled op s s' r _. simpl. generalize 0%nat as k, (Z.to_nat (tries - 1)) as n.
  intros k n. revert k s. induction n as [|n IH]; intros k s; cbn [retry_loop];
    destruct (op k s) as [[[[] e]|a] s1] eqn:Hop; intros Hrun; simplify_eq/=;
    [by eapply retried_permanent|by eapply retried_exhausted|by eapply retried_ok|by eapply retried_permanent| |by eapply retried_ok].
  eapply retried_again; [exact Hop|]. by apply IH.
Qed.

(** Over a connection that fails as told, then delivers. *)
Definition links_of (l : list Link) (k : nat) : Link := default Delivered (l !! k).

Definition cancel_call : M (Err + unit) :=
  @rpc sample_map_json demo_tokens sample_deployment unit None (client_of "t2")
    (λ user, @serve demo_cron sample_json front_task_json (λ _, None) (@SignAppToken demo_tokens) user (ReqCancelTask 7)).

Lemma call_runs_once_witness :
  let run := WrapUnary (mkRetry 0 0 0) (links_of [Unreachable; Unreachable]) cancel_call two_orgs in
  fst run = inr tt ∧ snd (snd run) = 1%nat ∧
  (snd (snd run) = 0%nat ∧ fst (snd run) = two_orgs ∧ (fst run = inl Unavailable ∨ fst run = inl Cancelled) ∨
   snd (snd run) = 1%nat ∧ fst (snd run) = snd (cancel_call two_orgs) ∧
   (match fst (cancel_call two_orgs) with inr (inr a) => fst run = inr a | inr (inl e) => fst run = inl (Answered e) | inl _ => False end ∨
    fst run = inl Cancelled ∧ ∃ k, links_of [Unreachable; Unreachable] k = CutOff true)).
Proof.
  intros run. split; [vm_compute; reflexivity|]. split; [vm_compute; reflexivity|].
  destruct run as [r [w' n]] eqn:Hrun.
  apply (call_runs_once (mkRetry 0 0 0) (links_of [Unreachable; Unreachable]) cancel_call two_orgs w' r n Hrun).
  - intros [|[|k]]; vm_compute; discriminate.
  - intros e. vm_compute. discriminate.
Defined.

(** When the answer is lost the call runs again: the task was cancelled, and the
    caller is told that it cannot be. *)
Lemma lost_reply_runs_twice :
  let run := WrapUnary (mkRetry 0 0 0) (links_of [ReplyLost]) cancel_call two_orgs in
  fst run = fst (WrapUnary (mkRetry 0 0 0) (links_of []) cancel_call (snd (cancel_call two_orgs))) ∧
  snd (snd run) = 2%nat ∧ fst run ≠ inr tt.
Proof. split_and!; vm_compute; [reflexivity..|discriminate]. Qed.

(** The clients of the commands try five times; a negative number of retries is
    one attempt. *)
Lemma tries : max_tries (mkRetry 0 0 0) = 5 ∧ max_tries (mkRetry (-1) 0 0) = 1 ∧ max_tries (mkRetry int64_max 0 0) = 1.
Proof. repeat split; vm_compute; reflexivity. Qed.

(** A server that cannot be reached is not tried for ever. *)
Lemma gives_up :
  WrapUnary (mkRetry 0 0 0) (λ _, Unreachable) cancel_call two_orgs = (inl Unavailable, (two_orgs, 0%nat)).
Proof. vm_compute. reflexivity. Qed.
