(* ===== verification/ByteTrie.v ===== *)
(** * A byte-keyed trie

    Models [internal/x/bytetrie/bytetrie.go]: insertion, and the one lookup a
    streaming matcher needs (the longest key that is a prefix of the bytes in
    hand, and whether a longer one may still match), with their meaning in
    terms of the keys stored. *)

From S2P Require Import Prelude.
From Stdlib Require Import Ascii.

(** The bytes of a Go string. *)
Fixpoint bytes (s : string) : list ascii :=
  match s with
  | EmptyString => []
  | String c s => c :: bytes s
  end.

#[export] Instance bytes_inj : Inj (=) (=) bytes.
Proof.
  intros s. induction s as [|c s IH]; intros [|d t]; simpl; try done.
  intros [= -> H]. f_equal. by apply IH.
Qed.

Lemma bytes_app s t : bytes (s +:+ t) = bytes s ++ bytes t.
Proof. induction s as [|c s IH]; simpl; [done|]. by rewrite <- IH. Qed.

Lemma length_bytes s : length (bytes s) = String.length s.
Proof. induction s; simpl; congruence. Qed.

(** A node; [value] is [Some] at a terminal one. *)
#[warnings="-register-all"]
Inductive node (V : Type) := Node (children : gmap ascii (node V)) (value : option V).
Arguments Node {V}.

Definition children {V} (n : node V) : gmap ascii (node V) := match n with Node cs _ => cs end.
Definition value {V} (n : node V) : option V := match n with Node _ v => v end.
Definition new_node {V} : node V := Node ∅ None.

(** A trie is its root, [None] for the zero trie. *)
Definition Trie (V : Type) : Type := option (node V).

Section trie.
Context {V : Type}.
Implicit Types (cur : node V) (p q key : list ascii) (v : V).

(** The loop of [Put]: missing nodes are created on the way down. *)
Fixpoint put_at (key : list ascii) (v : V) (cur : node V) : node V :=
  match key with
  | [] => Node (children cur) (Some v)
  | b :: key =>
      Node (<[b := put_at key v (default new_node (children cur !! b))]> (children cur)) (value cur)
  end.

Definition Put (t : Trie V) (key : string) (v : V) : Trie V :=
  if String.eqb key "" then t else Some (put_at (bytes key) v (default new_node t)).

(** The loop of [Lookup] at index [i], the best match so far in hand. *)
Fixpoint walk (p : list ascii) (cur : node V) (i n : nat) (best : option V)
    : nat * option V * bool :=
  match p with
  | [] => (n, best, negb (Nat.eqb (size (children cur)) 0))
  | b :: p =>
      match children cur !! b with
      | None => (n, best, false)
      | Some child =>
          match value child with
          | Some v => walk p child (S i) (S i) (Some v)
          | None => walk p child (S i) n best
          end
      end
  end.

Definition Lookup (t : Trie V) (p : list ascii) : nat * option V * bool :=
  match t with
  | None => (O, None, false)
  | Some root => walk p root O O None
  end.

(** ** What a trie stores *)

Fixpoint get (key : list ascii) (cur : node V) : option V :=
  match key with
  | [] => value cur
  | b :: key => child ← children cur !! b; get key child
  end.

Definition stored (t : Trie V) (key : list ascii) : option V := root ← t; get key root.

Lemma get_new_node key : get key new_node = None.
Proof. by destruct key. Qed.

Lemma get_put_at key k v cur :
  get k (put_at key v cur) = if decide (k = key) then Some v else get k cur.
Proof.
  revert k cur. induction key as [|b key IH]; intros [|c k] cur; simpl.
  - done.
  - done.
  - done.
  - destruct (decide (b = c)) as [<-|Hbc].
    + rewrite lookup_insert_eq. simpl. rewrite IH.
      destruct (decide (k = key)) as [->|]; [by rewrite decide_True|].
      rewrite decide_False by congruence.
      destruct (children cur !! b); simpl; [done|apply get_new_node].
    + rewrite lookup_insert_ne by done. by rewrite decide_False by congruence.
Qed.

Lemma stored_Put t (key : string) v k :
  stored (Put t key v) k =
  if decide (key ≠ "" ∧ k = bytes key) then Some v else stored t k.
Proof.
  unfold Put, stored. destruct (String.eqb_spec key "") as [->|Hne].
  - by destruct (decide _) as [[? _]|].
  - simpl. rewrite get_put_at. destruct (decide (k = bytes key)) as [->|Hk];
      destruct (decide (key ≠ "" ∧ _)) as [Hd|Hd]; try done; [naive_solver..|].
    destruct t; simpl; [done|apply get_new_node].
Qed.

(** No key is empty: it would match at every position. *)
Lemma stored_Put_nil t (key : string) v : stored t [] = None → stored (Put t key v) [] = None.
Proof.
  intros Ht. rewrite stored_Put. rewrite decide_False; [done|]. by destruct key; naive_solver.
Qed.

(** ** The lookup *)

(** The longest key strictly below [cur] on the path [p]. *)
Fixpoint longest (p : list ascii) (cur : node V) : option (nat * V) :=
  match p with
  | [] => None
  | b :: p =>
      child ← children cur !! b;
      match longest p child with
      | Some (k, v) => Some (S k, v)
      | None => pair 1%nat <$> value child
      end
  end.

(** The whole of [p] leads to a node with children. *)
Fixpoint live (p : list ascii) (cur : node V) : bool :=
  match p with
  | [] => negb (Nat.eqb (size (children cur)) 0)
  | b :: p => match children cur !! b with Some child => live p child | None => false end
  end.

Lemma walk_eq p cur i n best :
  walk p cur i n best =
  match longest p cur with
  | Some (k, v) => ((i + k)%nat, Some v, live p cur)
  | None => (n, best, live p cur)
  end.
Proof.
  revert cur i n best. induction p as [|b p IH]; intros cur i n best; simpl; [done|].
  destruct (children cur !! b) as [child|]; simpl; [|done].
  destruct (value child) as [v|]; rewrite IH; destruct (longest p child) as [[k w]|]; simpl;
    repeat (f_equal; try lia).
Qed.

(** Past a dead end more bytes change nothing. *)
Lemma longest_app p q cur : live p cur = false → longest (p ++ q) cur = longest p cur.
Proof.
  revert cur. induction p as [|b p IH]; intros cur Hl; simpl in *.
  - apply negb_false_iff, Nat.eqb_eq, map_size_empty_inv in Hl.
    destruct q as [|c q]; simpl; [done|]. by rewrite Hl, lookup_empty.
  - destruct (children cur !! b) as [child|]; simpl; [|done]. by rewrite IH.
Qed.

Lemma longest_sound p cur k v :
  longest p cur = Some (k, v) →
  get (take k p) cur = Some v ∧ (0 < k <= length p)%nat.
Proof.
  revert cur k. induction p as [|b p IH]; intros cur k H; simpl in H; [done|].
  destruct (children cur !! b) as [child|] eqn:Hc; [|done]. simpl in H.
  destruct (longest p child) as [[k' v']|] eqn:Hl.
  - injection H as <- ->. destruct (IH _ _ Hl) as [Hg Hk]. simpl. rewrite Hc. simpl.
    split; [done|lia].
  - destruct (value child) as [w|] eqn:Hv; [|done]. injection H as <- ->. simpl.
    rewrite Hc. simpl. split; [by destruct p|lia].
Qed.

Lemma longest_complete p cur key v :
  key `prefix_of` p → key ≠ [] → get key cur = Some v →
  ∃ k w, longest p cur = Some (k, w) ∧ (length key <= k)%nat.
Proof.
  intros [q ->] Hne Hg. revert cur Hne Hg. induction key as [|b key IH]; intros cur Hne Hg; [done|].
  simpl in *. destruct (children cur !! b) as [child|]; [|done]. simpl in *.
  destruct key as [|c key].
  - simpl in *. destruct (longest q child) as [[k w]|]; [by exists (S k), w; split; [|lia]|].
    rewrite Hg. by exists 1%nat, v.
  - destruct (IH child) as (k & w & Hk & Hl); [done..|]. rewrite Hk. exists (S k), w.
    split; [done|]. simpl in *. lia.
Qed.

(** ** Well-formed tries: every node but the root has a key at or below it *)

Fixpoint node_at (p : list ascii) (cur : node V) : option (node V) :=
  match p with
  | [] => Some cur
  | b :: p => child ← children cur !! b; node_at p child
  end.

Definition wf_node (cur : node V) : Prop :=
  ∀ p below, p ≠ [] → node_at p cur = Some below → ∃ q v, get q below = Some v.

Definition wf (t : Trie V) : Prop := ∀ root, t = Some root → wf_node root.

Lemma node_at_put p key v cur below :
  node_at p (put_at key v cur) = Some below →
  (∃ q w, get q below = Some w) ∨ node_at p cur = Some below.
Proof.
  revert key cur. induction p as [|b p IH]; intros key cur H; simpl in H.
  - injection H as <-. left. exists key, v. rewrite get_put_at. by rewrite decide_True.
  - destruct key as [|c key]; simpl in H; [by right|]. destruct (decide (c = b)) as [->|Hne].
    + rewrite lookup_insert_eq in H. simpl in H. destruct (IH _ _ H) as [?|Ho]; [by left|].
      destruct (children cur !! b) as [child|] eqn:E; simpl in *; [by right; rewrite E|].
      destruct p as [|d p]; [|done]. simpl in *. injection H as <-. left. exists key, v.
      rewrite get_put_at. by rewrite decide_True.
    + rewrite lookup_insert_ne in H by done. by right.
Qed.

Lemma wf_Put t (key : string) v : wf t → wf (Put t key v).
Proof.
  intros Hwf. unfold Put. destruct (String.eqb key ""); [done|]. intros root [= <-] p below Hp H.
  destruct (node_at_put _ _ _ _ _ H) as [?|Ho]; [done|]. destruct t as [root|]; simpl in Ho.
  - by apply (Hwf root eq_refl p).
  - by destruct p.
Qed.

Lemma wf_empty : wf None.
Proof. done. Qed.

Lemma get_app p q cur : get (p ++ q) cur = below ← node_at p cur; get q below.
Proof.
  revert cur. induction p as [|b p IH]; intros cur; simpl; [done|].
  destruct (children cur !! b); simpl; [apply IH|done].
Qed.

Lemma live_node_at p cur :
  live p cur = true → ∃ below b child, node_at p cur = Some below ∧ children below !! b = Some child.
Proof.
  revert cur. induction p as [|b p IH]; intros cur Hl; simpl in *.
  - apply negb_true_iff, Nat.eqb_neq in Hl. apply map_size_ne_0_lookup in Hl as (b & child & Hb). eauto.
  - destruct (children cur !! b) as [child|]; [|done]. simpl. by apply IH.
Qed.

(** A live path is a proper prefix of a key. *)
Lemma live_extends p root :
  wf_node root → live p root = true → ∃ q v, q ≠ [] ∧ get (p ++ q) root = Some v.
Proof.
  intros Hwf Hl. apply live_node_at in Hl as (below & b & child & Hb & Hc).
  destruct (Hwf (p ++ [b]) child) as (q & v & Hq).
  - by destruct p.
  - clear Hwf. revert root Hb. induction p as [|c p IH]; intros root Hb; simpl in *.
    + injection Hb as ->. by rewrite Hc.
    + destruct (children root !! c); [|done]. by apply IH.
  - exists (b :: q), v. split; [done|]. rewrite get_app, Hb. simpl. by rewrite Hc.
Qed.

(** ** The lookup of a trie *)

Definition longest_key (t : Trie V) (p : list ascii) : option (nat * V) := root ← t; longest p root.
Definition partial (t : Trie V) (p : list ascii) : bool :=
  match t with Some root => live p root | None => false end.

Lemma Lookup_eq t p :
  Lookup t p = match longest_key t p with
               | Some (k, v) => (k, Some v, partial t p)
               | None => (O, None, partial t p)
               end.
Proof.
  destruct t as [root|]; [|done]. simpl. rewrite walk_eq.
  by destruct (longest p root) as [[k v]|].
Qed.

Lemma longest_key_app t p q : partial t p = false → longest_key t (p ++ q) = longest_key t p.
Proof. destruct t as [root|]; [|done]. apply longest_app. Qed.

Lemma longest_key_sound t p k v :
  longest_key t p = Some (k, v) → stored t (take k p) = Some v ∧ (0 < k <= length p)%nat.
Proof. destruct t as [root|]; [|done]. apply longest_sound. Qed.

Lemma longest_key_complete t p key v :
  key `prefix_of` p → key ≠ [] → stored t key = Some v →
  ∃ k w, longest_key t p = Some (k, w) ∧ (length key <= k)%nat.
Proof. destruct t as [root|]; [|done]. apply longest_complete. Qed.

Lemma partial_extends t p :
  wf t → partial t p = true → ∃ q v, q ≠ [] ∧ stored t (p ++ q) = Some v.
Proof. destruct t as [root|]; [|done]. intros Hwf. apply live_extends. by apply Hwf. Qed.
End trie.
