(* ===== verification/Redact.v ===== *)
(** * Secret masking

    Models [internal/x/redact/redact.go]: the stream writer that masks known
    secret values, with its hold-back of possible prefixes and its
    copy-avoiding output, and what it computes: the leftmost-longest masking of
    the whole stream, however the stream is cut into writes. *)

From S2P Require Import Prelude ByteTrie.
From Stdlib Require Import Ascii.

Definition Marker (name : string) : string := "[gritz:masked " +:+ name +:+ "]".

Record Writer := mkWriter { markers : Trie string; held : list ascii }.

(** The names [NewWriter] inserts, in lexical order; a later insertion
    replaces an earlier one, so they go in backwards. *)
Definition secret_names (secrets : gmap string string) : list string :=
  merge_sort String.le
    (omap (λ kv, if String.eqb kv.2 "" then None else Some kv.1) (map_to_list secrets)).

Definition put_secret (secrets : gmap string string) (name : string) (t : Trie string)
    : Trie string :=
  Put t (default "" (secrets !! name)) (Marker name).

Definition NewWriter (secrets : gmap string string) : Writer :=
  mkWriter (foldr (put_secret secrets) None (secret_names secrets)) [].

(** [buf[lo:hi]]. *)
Definition slice (lo hi : nat) (buf : list ascii) : list ascii := take (hi - lo) (drop lo buf).

(** The loop of [consume]: where the scan stopped, the start of the literal run
    not yet copied, and what has been copied out, if anything matched. *)
Fixpoint scan (fuel : nat) (t : Trie string) (final : bool) (buf : list ascii)
    (i lit : nat) (out : option (list ascii)) : nat * nat * option (list ascii) :=
  match fuel with
  | O => (i, lit, out)
  | S fuel =>
      if Nat.ltb i (length buf) then
        let '(n, marker, partial) := Lookup t (drop i buf) in
        if partial && negb final then (i, lit, out)
        else if Nat.eqb n 0 then scan fuel t final buf (S i) lit out
        else
          scan fuel t final buf (i + n) (i + n)
            (Some (default [] out ++ slice lit i buf ++ bytes (default "" marker)))
      else (i, lit, out)
  end.

(** [consume]: the bytes handed to the underlying writer, in one call when there
    are any, and the writer after it. *)
Definition consume (w : Writer) (p : list ascii) (final : bool) : list ascii * Writer :=
  let buf := held w ++ p in
  let '(i, lit, out) := scan (length buf) (markers w) final buf 0 0 None in
  let emit := match out with
              | None => take i buf
              | Some out => out ++ slice lit i buf
              end in
  (emit, mkWriter (markers w) (drop i buf)).

Section sink.
(** The underlying [io.Writer]: its state, and a write's error. *)
Context {W : Type} (w_Write : W → list ascii → option string * W).

Definition emit_to (emit : list ascii) (s : W) : option string * W :=
  match emit with
  | [] => (None, s)
  | _ => w_Write s emit
  end.

Definition Write (w : Writer) (s : W) (p : list ascii) : (nat * option string) * Writer * W :=
  let (emit, w') := consume w p false in
  let (err, s') := emit_to emit s in
  (match err with Some _ => (0%nat, err) | None => (length p, None) end, w', s').

Definition Flush (w : Writer) (s : W) : option string * Writer * W :=
  let (emit, w') := consume w [] true in
  let (err, s') := emit_to emit s in
  (err, w', s').

(** Successive writes. *)
Fixpoint Writes (w : Writer) (s : W) (ps : list (list ascii)) : Writer * W :=
  match ps with
  | [] => (w, s)
  | p :: ps => let '(_, w', s') := Write w s p in Writes w' s' ps
  end.
End sink.

(** A sink that never fails, such as [strings.Builder]. *)
Definition Builder_Write (s p : list ascii) : option string * list ascii := (None, s ++ p).

Definition redact_String (s : string) (secrets : gmap string string) : list ascii :=
  let w := NewWriter secrets in
  let '(_, w, sb) := Write Builder_Write w [] (bytes s) in
  let '(_, _, sb) := Flush Builder_Write w sb in
  sb.

(** ** What masking means

    At each position the longest secret value that starts there is replaced by
    its marker (of the least name, when names share it) and the scan resumes
    after it. *)

Definition candidate (p : list ascii) (kv : string * string) : Prop :=
  kv.2 ≠ "" ∧ bytes kv.2 `prefix_of` p.
#[export] Instance candidate_dec p kv : Decision (candidate p kv).
Proof. unfold candidate. apply _. Defined.

(** A longer value, or the same length and a smaller name. *)
Definition better (a b : string * string) : Prop :=
  (String.length b.2 < String.length a.2)%nat ∨
  (String.length a.2 = String.length b.2 ∧ String.le a.1 b.1).
#[export] Instance better_dec : RelDecision better.
Proof. intros a b. unfold better. apply _. Defined.

Definition secret_at (secrets : gmap string string) (p : list ascii) : option (string * string) :=
  head (merge_sort better (filter (candidate p) (map_to_list secrets))).

(** [skip] bytes of the input belong to a value already masked. *)
Fixpoint mask_from (secrets : gmap string string) (skip : nat) (s : list ascii) : list ascii :=
  match s with
  | [] => []
  | b :: s' =>
      match skip with
      | S skip => mask_from secrets skip s'
      | O =>
          match secret_at secrets s with
          | Some (name, v) =>
              bytes (Marker name) ++ mask_from secrets (pred (String.length v)) s'
          | None => b :: mask_from secrets 0 s'
          end
      end
  end.

Definition mask (secrets : gmap string string) (s : list ascii) : list ascii :=
  mask_from secrets 0 s.

(** ** The trie holds the secrets *)

#[local] Instance better_total : Total better.
Proof.
  intros [n v] [n' v']. unfold better. simpl.
  destruct (lt_eq_lt_dec (String.length v) (String.length v')) as [[?|?]|?]; [tauto| |tauto].
  destruct (total String.le n n'); [left|right]; right; split; congruence.
Qed.

#[local] Instance better_trans : Transitive better.
Proof.
  intros [n1 v1] [n2 v2] [n3 v3]. unfold better. simpl. intros [H1|[H1 ?]] [H2|[H2 ?]];
    [left; lia..|right; split; [congruence|by etrans]].
Qed.

Lemma head_sorted_best (l : list (string * string)) x :
  head (merge_sort better l) = Some x → x ∈ l ∧ ∀ y, y ∈ l → better x y.
Proof.
  pose proof (StronglySorted_merge_sort better l) as Hs.
  pose proof (merge_sort_Permutation better l) as Hp.
  destruct (merge_sort better l) as [|z m]; intros H; [done|]. injection H as ->.
  apply StronglySorted_inv in Hs as [_ Hall]. split; [rewrite <- Hp; by left|].
  intros y Hy. rewrite <- Hp in Hy. apply elem_of_cons in Hy as [->|Hy].
  - destruct (total better x x); done.
  - by eapply Forall_forall in Hall.
Qed.

Lemma secret_at_Some secrets p name v :
  secret_at secrets p = Some (name, v) →
  secrets !! name = Some v ∧ candidate p (name, v) ∧
  ∀ name' v', secrets !! name' = Some v' → candidate p (name', v') →
    better (name, v) (name', v').
Proof.
  intros [Hin Hbest]%head_sorted_best. apply list_elem_of_filter in Hin as [Hc Hin].
  apply elem_of_map_to_list in Hin. split; [done|]. split; [done|].
  intros name' v' Hs Hc'. apply Hbest, list_elem_of_filter. split; [done|].
  by apply elem_of_map_to_list.
Qed.

Lemma secret_at_None secrets p name v :
  secret_at secrets p = None → secrets !! name = Some v → ¬ candidate p (name, v).
Proof.
  intros H Hs Hc. unfold secret_at in H.
  destruct (merge_sort better _) as [|z m] eqn:E; [|done].
  pose proof (merge_sort_Permutation better (filter (candidate p) (map_to_list secrets))) as Hp.
  rewrite E in Hp. apply Permutation_nil_l in Hp.
  assert ((name, v) ∈ filter (candidate p) (map_to_list secrets)) as Hin.
  { apply list_elem_of_filter. split; [done|]. by apply elem_of_map_to_list. }
  rewrite <- Hp in Hin. by apply elem_of_nil in Hin.
Qed.

Lemma elem_of_secret_names secrets name :
  name ∈ secret_names secrets ↔ ∃ v, secrets !! name = Some v ∧ v ≠ "".
Proof.
  unfold secret_names. rewrite merge_sort_Permutation, list_elem_of_omap. split.
  - intros ([n v] & Hin & H). apply elem_of_map_to_list in Hin. simpl in H.
    destruct (String.eqb_spec v "") as [|Hv]; [done|]. injection H as ->. eauto.
  - intros (v & Hs & Hv). exists (name, v). split; [by apply elem_of_map_to_list|]. simpl.
    by destruct (String.eqb_spec v "").
Qed.

(** What the trie stores under a value: the marker of the least name. *)
Definition least_name (secrets : gmap string string) (key : list ascii) (name : string) : Prop :=
  ∃ v, secrets !! name = Some v ∧ v ≠ "" ∧ bytes v = key ∧
    ∀ name', secrets !! name' = Some v → String.le name name'.

Lemma stored_foldr secrets names key m :
  StronglySorted String.le names →
  (∀ n, n ∈ names → ∃ v, secrets !! n = Some v ∧ v ≠ "") →
  stored (foldr (put_secret secrets) None names) key = Some m ↔
  ∃ n v, n ∈ names ∧ secrets !! n = Some v ∧ bytes v = key ∧ m = Marker n ∧
    ∀ n', n' ∈ names → secrets !! n' = Some v → String.le n n'.
Proof.
  intros Hs Hv. induction Hs as [|n names Hs IH Hall]; simpl.
  { split; [done|]. intros (n & v & Hn & _). by apply elem_of_nil in Hn. }
  destruct (Hv n) as (v & Hnv & Hne); [by left|].
  assert (Hrefl : String.le n n) by (destruct (total String.le n n); done).
  unfold put_secret at 1. rewrite Hnv, stored_Put. simpl.
  destruct (decide (v ≠ "" ∧ key = bytes v)) as [[_ ->]|Hno].
  - split.
    + intros [= <-]. exists n, v. repeat split; try done; [by left|].
      intros n' [->|Hn']%elem_of_cons _; [done|]. by eapply Forall_forall in Hall.
    + intros (n2 & v2 & Hn2 & Hs2 & ->%(inj bytes) & -> & Hle). f_equal. f_equal.
      apply (anti_symm String.le); [|apply Hle; [by left|done]].
      apply elem_of_cons in Hn2 as [->|Hn2]; [done|]. by eapply Forall_forall in Hall.
  - rewrite IH by (intros; apply Hv; by right). split.
    + intros (n2 & v2 & Hn2 & Hs2 & <- & -> & Hle). exists n2, v2. repeat split; try done;
        [by right|]. intros n' [->|Hn']%elem_of_cons Hs'; [|by apply Hle]. exfalso.
      apply Hno. by simplify_eq.
    + intros (n2 & v2 & Hn2 & Hs2 & <- & -> & Hle).
      apply elem_of_cons in Hn2 as [->|Hn2]; [exfalso; apply Hno; by simplify_eq|].
      exists n2, v2. repeat split; try done. intros n' Hn'. apply Hle. by right.
Qed.

Lemma markers_stored secrets key m :
  stored (markers (NewWriter secrets)) key = Some m ↔
  ∃ name, m = Marker name ∧ least_name secrets key name.
Proof.
  unfold NewWriter. simpl. rewrite stored_foldr.
  - unfold least_name. split.
    + intros (n & v & [v' [Hs Hne]]%elem_of_secret_names & Hs2 & Hk & -> & Hle). simplify_eq.
      exists n. split; [done|]. eexists. repeat split; try done. intros n' Hn'.
      apply Hle; [|done]. apply elem_of_secret_names. eauto.
    + intros (n & -> & v & Hs & Hne & Hk & Hle). exists n, v. split; [apply elem_of_secret_names; eauto|].
      repeat split; try done. intros n' _. apply Hle.
  - unfold secret_names. apply StronglySorted_merge_sort; apply _.
  - intros n. by rewrite elem_of_secret_names.
Qed.

Lemma length_prefix_eq (a b p : list ascii) :
  a `prefix_of` p → b `prefix_of` p → length a = length b → a = b.
Proof.
  intros [c ->] [d Hd] Hl. by apply app_inj_1 in Hd as [-> _].
Qed.

(** The trie's answer is the reference's. *)
Lemma longest_secret secrets p :
  longest_key (markers (NewWriter secrets)) p =
  (λ nv, (String.length nv.2, Marker nv.1)) <$> secret_at secrets p.
Proof.
  pose proof (markers_stored secrets) as Hms. set (t := markers (NewWriter secrets)) in *.
  clearbody t. assert (Hfound : ∀ k m, longest_key t p = Some (k, m) →
    ∃ n v, m = Marker n ∧ k = String.length v ∧ secrets !! n = Some v ∧ candidate p (n, v) ∧
      ∀ n', secrets !! n' = Some v → String.le n n').
  { intros k m [Hst Hk]%longest_key_sound. apply Hms in Hst as (n & -> & v & Hs & Hne & Hb & Hle).
    exists n, v. split; [done|]. split.
    - rewrite <- length_bytes, Hb, length_take. lia.
    - split; [done|]. split; [|done]. split; [done|]. simpl. rewrite Hb. apply prefix_take. }
  destruct (secret_at secrets p) as [[n v]|] eqn:E; simpl.
  - apply secret_at_Some in E as (Hs & [Hne Hp] & Hbest). simpl in *.
    assert (∃ n0, least_name secrets (bytes v) n0) as [n0 Hn0].
    { exists n. exists v. repeat split; try done. intros n' Hs'.
      destruct (Hbest n' v Hs') as [?|[_ ?]]; [done|simpl in *; lia|done]. }
    destruct (longest_key_complete t p (bytes v) (Marker n0))
      as (k & m & Hl & Hk); [done|by destruct v|apply Hms; eauto|].
    destruct (Hfound _ _ Hl) as (n' & v' & -> & -> & Hs' & Hc' & Hle). rewrite Hl.
    rewrite length_bytes in Hk. destruct (Hbest _ _ Hs' Hc') as [?|[Hlen Hnn]]; simpl in *; [lia|].
    assert (v' = v) as ->.
    { apply (inj bytes), (length_prefix_eq _ _ p); [apply Hc'|done|by rewrite !length_bytes]. }
    assert (n' = n) as -> by (apply (anti_symm String.le); [by apply Hle|done]). done.
  - destruct (longest_key _ p) as [[k m]|] eqn:Hl; [|done].
    destruct (Hfound _ _ eq_refl) as (n & v & _ & _ & Hs & Hc & _). exfalso.
    by eapply secret_at_None.
Qed.

(** ** The scan computes the mask *)

Lemma mask_from_drop secrets k s : mask_from secrets k s = mask secrets (drop k s).
Proof.
  revert k. induction s as [|b s IH]; intros [|k]; [done..|]. simpl. apply IH.
Qed.

Lemma mask_cons secrets b s :
  mask secrets (b :: s) =
  match secret_at secrets (b :: s) with
  | Some (name, v) => bytes (Marker name) ++ mask secrets (drop (String.length v) (b :: s))
  | None => b :: mask secrets s
  end.
Proof.
  unfold mask at 1. cbn [mask_from]. destruct (secret_at secrets (b :: s)) as [[name v]|] eqn:E; [|done].
  apply secret_at_Some in E as (_ & [Hne _] & _). rewrite mask_from_drop. by destruct v.
Qed.

Lemma slice_snoc lit i buf b :
  (lit <= i)%nat → buf !! i = Some b → slice lit (S i) buf = slice lit i buf ++ [b].
Proof.
  intros Hl Hb. unfold slice. replace (S i - lit)%nat with (S (i - lit)) by lia.
  apply take_S_r. rewrite lookup_drop. by replace (lit + (i - lit))%nat with i by lia.
Qed.

Lemma slice_nil i buf : slice i i buf = [].
Proof. unfold slice. by rewrite Nat.sub_diag, take_0. Qed.

#[export] Instance Marker_inj : Inj (=) (=) Marker.
Proof.
  intros a b H. apply (f_equal bytes) in H. unfold Marker in H.
  rewrite !bytes_app in H. apply app_inv_head, app_inv_tail in H. by apply (inj bytes).
Qed.

#[local] Opaque Marker.

Section scan.
Context (secrets : gmap string string) (t : Trie string).
Hypothesis (Ht : ∀ p, longest_key t p =
  (λ nv, (String.length nv.2, Marker nv.1)) <$> secret_at secrets p).

(** What [scan] has decided so far. *)
Definition decided (buf : list ascii) (r : nat * nat * option (list ascii)) : list ascii :=
  let '(i, lit, out) := r in default [] out ++ slice lit i buf.

Record scanned (final : bool) (buf : list ascii) (r r' : nat * nat * option (list ascii)) : Prop := {
  sc_le : (fst (fst r') <= length buf)%nat;
  sc_none : snd r' = None → snd r = None ∧ snd (fst r') = snd (fst r);
  sc_mask : ∀ more, (final = true → more = []) →
    decided buf r' ++ mask secrets (drop (fst (fst r')) buf ++ more) =
    decided buf r ++ mask secrets (drop (fst (fst r)) buf ++ more);
  sc_stop : fst (fst r') = length buf ∨
    (final = false ∧ partial t (drop (fst (fst r')) buf) = true) }.

(** Past the hold-back test, more bytes would not change the lookup. *)
Lemma secret_at_more final p more :
  partial t p && negb final = false → (final = true → more = []) →
  secret_at secrets (p ++ more) = secret_at secrets p.
Proof using Ht.
  intros Hp Hm. destruct final; simpl in *; [by rewrite Hm, app_nil_r|].
  rewrite andb_true_r in Hp. pose proof (longest_key_app t p more Hp) as H. rewrite !Ht in H.
  destruct (secret_at secrets (p ++ more)) as [[n v]|] eqn:E1,
    (secret_at secrets p) as [[n' v']|] eqn:E2; simpl in H; try done.
  assert (Marker n = Marker n') as ->%(inj Marker) by congruence.
  apply secret_at_Some in E1 as [Hs1 _], E2 as [Hs2 _]. congruence.
Qed.

Lemma scan_spec final buf fuel i lit out :
  (length buf - i <= fuel)%nat → (lit <= i <= length buf)%nat →
  scanned final buf (i, lit, out) (scan fuel t final buf i lit out).
Proof using Ht.
  revert i lit out. induction fuel as [|fuel IH]; intros i lit out Hf Hi; cbn [scan].
  { constructor; simpl; [lia|done|done|left; lia]. }
  destruct (Nat.ltb_spec i (length buf)) as [Hlt|Hge];
    [|constructor; simpl; [lia|done|done|left; lia]].
  rewrite Lookup_eq.
  destruct (lookup_lt_is_Some_2 buf i Hlt) as [b Hb].
  assert (Hdrop : drop i buf = b :: drop (S i) buf) by (by apply drop_S).
  assert (Hstep : partial t (drop i buf) && negb final = false → ∀ more,
    (final = true → more = []) →
    mask secrets (drop i buf ++ more) =
    match longest_key t (drop i buf) with
    | Some (k, m) => bytes m ++ mask secrets (drop (i + k) buf ++ more)
    | None => b :: mask secrets (drop (S i) buf ++ more)
    end).
  { intros Hp more Hm. pose proof (secret_at_more final (drop i buf) more Hp Hm) as Hsec.
    rewrite Hdrop in *. simpl app in *. rewrite mask_cons, Hsec, Ht.
    destruct (secret_at secrets (b :: drop (S i) buf)) as [[n v]|] eqn:E; simpl fmap; [|done].
    simpl. f_equal. f_equal. apply secret_at_Some in E as (_ & [_ [q Hq]] & _).
    simpl in Hq. rewrite app_comm_cons, Hq, <- app_assoc, <- length_bytes, drop_app_length.
    f_equal. rewrite <- drop_drop, Hdrop, Hq. by rewrite drop_app_length. }
  destruct (longest_key t (drop i buf)) as [[k m]|] eqn:Hl.
  - destruct (partial t (drop i buf) && negb final) eqn:Hp.
    { constructor; simpl; [lia|done|done|right]. apply andb_true_iff in Hp as [? Hn].
      split; [by destruct final|done]. }
    apply longest_key_sound in Hl as [_ Hk]. rewrite length_drop in Hk.
    destruct (Nat.eqb_spec k 0) as [->|_]; [lia|].
    destruct (IH (i + k)%nat (i + k)%nat (Some (default [] out ++ slice lit i buf ++ bytes m)))
      as [H1 H2 H3 H4]; [lia..|].
    constructor; [done| |intros more Hm|done].
    + by intros [? _]%H2.
    + rewrite H3 by done. simpl. rewrite slice_nil, app_nil_r, Hstep by done.
      by rewrite <- !app_assoc.
  - simpl Nat.eqb. destruct (partial t (drop i buf) && negb final) eqn:Hp.
    { constructor; simpl; [lia|done|done|right]. apply andb_true_iff in Hp as [? Hn].
      split; [by destruct final|done]. }
    destruct (IH (S i) lit out) as [H1 H2 H3 H4]; [lia..|].
    constructor; [done|done|intros more Hm|done].
    rewrite H3 by done. simpl. rewrite (slice_snoc _ _ _ b), Hstep by (done || lia).
    by rewrite <- !app_assoc.
Qed.
End scan.

Lemma wf_markers secrets : wf (markers (NewWriter secrets)).
Proof.
  unfold NewWriter. simpl. induction (secret_names secrets) as [|n l IH]; [apply wf_empty|].
  by apply wf_Put.
Qed.

(** A proper prefix of some secret value. *)
Definition secret_prefix (secrets : gmap string string) (p : list ascii) : Prop :=
  ∃ name v q, secrets !! name = Some v ∧ bytes v = p ++ q ∧ q ≠ [].

Lemma partial_prefix secrets p :
  partial (markers (NewWriter secrets)) p = true → secret_prefix secrets p.
Proof.
  intros (q & m & Hq & Hst)%(partial_extends _ _ (wf_markers secrets)).
  apply markers_stored in Hst as (name & _ & v & Hs & _ & Hv & _). exists name, v, q. done.
Qed.

(** [consume] emits what is decided, and the rest of the stream's mask is that
    of what it still holds. *)
Lemma consume_spec secrets w p final emit w' :
  markers w = markers (NewWriter secrets) → consume w p final = (emit, w') →
  markers w' = markers w ∧
  (∀ more, (final = true → more = []) →
     emit ++ mask secrets (held w' ++ more) = mask secrets (held w ++ p ++ more)) ∧
  (held w' = [] ∨ (final = false ∧ secret_prefix secrets (held w'))).
Proof.
  intros Hm Hc. unfold consume in Hc. set (buf := held w ++ p) in *.
  destruct (scan_spec secrets (markers w) ltac:(by rewrite Hm; apply longest_secret)
    final buf (length buf) 0 0 None) as [H1 H2 H3 H4]; [lia..|].
  destruct (scan _ _ _ _ _ _ _) as [[i lit] out] eqn:E. simpl in *. injection Hc as <- <-. simpl.
  split; [done|]. split.
  - intros more Hmore. specialize (H3 more Hmore). rewrite (app_assoc (held w) p more).
    fold buf. simpl in H3. rewrite drop_0 in H3. rewrite <- H3.
    destruct out as [out|]; [done|]. destruct (H2 eq_refl) as [_ ->].
    unfold slice. by rewrite Nat.sub_0_r.
  - destruct H4 as [->|[-> Hp]]; [left; by rewrite drop_all|right]. split; [done|].
    apply partial_prefix. unfold NewWriter. simpl. by rewrite <- Hm.
Qed.

Lemma Writes_spec secrets ps : ∀ w sb,
  markers w = markers (NewWriter secrets) →
  let (w', sb') := Writes Builder_Write w sb ps in
  markers w' = markers (NewWriter secrets) ∧
  ∀ more, sb' ++ mask secrets (held w' ++ more) =
          sb ++ mask secrets (held w ++ concat ps ++ more).
Proof.
  induction ps as [|p ps IH]; intros w sb Hm; simpl; [done|]. unfold Write.
  destruct (consume w p false) as [emit w1] eqn:E.
  destruct (consume_spec _ _ _ _ _ _ Hm E) as (Hm1 & Hmask & _).
  assert (Hemit : emit_to Builder_Write emit sb = (None, sb ++ emit)).
  { destruct emit; simpl; [by rewrite app_nil_r|done]. }
  rewrite Hemit. specialize (IH w1 (sb ++ emit) ltac:(congruence)).
  destruct (Writes _ _ _ _) as [w2 sb2]. destruct IH as [Hm2 IH]. split; [done|].
  intros more. rewrite IH, <- !app_assoc. f_equal. by rewrite Hmask.
Qed.

(** ** Properties *)

(** C33: masking a stream does not depend on how it is cut into writes: after any
    writes and a flush, the bytes that reached the sink are the leftmost-longest
    masking of the concatenated input, a secret split across writes included;
    masking a whole value is the same function. *)
Theorem Writer_masks_stream (secrets : gmap string string) (ps : list (list ascii)) (s : string) :
  (let (w, sb) := Writes Builder_Write (NewWriter secrets) [] ps in
   snd (Flush Builder_Write w sb) = mask secrets (concat ps)) ∧
  redact_String s secrets = mask secrets (bytes s).
Proof.
  assert (Hstream : ∀ ps, let (w, sb) := Writes Builder_Write (NewWriter secrets) [] ps in
    snd (Flush Builder_Write w sb) = mask secrets (concat ps)).
  { intros ps'. pose proof (Writes_spec secrets ps' (NewWriter secrets) [] eq_refl) as H.
    destruct (Writes _ _ _ _) as [w sb]. destruct H as [Hm H]. unfold Flush.
    destruct (consume w [] true) as [emit w'] eqn:E.
    destruct (consume_spec _ _ _ _ _ _ Hm E) as (_ & Hmask & [Hh|[? _]]); [|done].
    specialize (H []). specialize (Hmask [] ltac:(done)). rewrite Hh in Hmask.
    rewrite !app_nil_r in *. simpl in H, Hmask.
    rewrite <- H, <- Hmask. by destruct emit; rewrite ?app_nil_r. }
  split; [apply Hstream|]. specialize (Hstream [bytes s]). simpl in Hstream.
  rewrite app_nil_r in Hstream. unfold redact_String.
  by destruct (Write _ _ _ _) as [[? w] sb], (Flush _ w sb) as [[? ?] ?].
Qed.

(** Whatever the underlying writer does, errors included, the bytes held back
    between writes are none or a proper prefix of some secret value, so never
    as long as the longest one; and the mask's state is a function of the
    bytes written, not of the sink. *)
Theorem Writer_holds_prefix {W W' : Type} (w_Write : W → list ascii → option string * W)
    (w_Write' : W' → list ascii → option string * W') (s : W) (s' : W')
    (secrets : gmap string string) (ps : list (list ascii)) :
  let w := fst (Writes w_Write (NewWriter secrets) s ps) in
  (held w = [] ∨ secret_prefix secrets (held w)) ∧
  fst (Writes w_Write' (NewWriter secrets) s' ps) = w.
Proof.
  assert (Hgen : ∀ w s s', markers w = markers (NewWriter secrets) →
    (held w = [] ∨ secret_prefix secrets (held w)) →
    let w' := fst (Writes w_Write w s ps) in
    (held w' = [] ∨ secret_prefix secrets (held w')) ∧ fst (Writes w_Write' w s' ps) = w').
  { induction ps as [|p ps' IH]; intros w s1 s1' Hm Hh; simpl; [done|]. unfold Write.
    destruct (consume w p false) as [emit w1] eqn:E.
    destruct (consume_spec _ _ _ _ _ _ Hm E) as (Hm1 & _ & Hh1).
    destruct (emit_to w_Write emit s1) as [e1 s2], (emit_to w_Write' emit s1') as [e1' s2'].
    apply IH; [congruence|tauto]. }
  apply Hgen; [done|by left].
Qed.

(** The secrets "aab" and "b", the first split across two writes. *)
Example mask_example :
  mask (<["A" := "aab"]> (<["B" := "b"]> ∅)) (bytes "xaaabb") =
  bytes ("xa" +:+ Marker "A" +:+ Marker "B").
Proof. vm_compute. reflexivity. Qed.
