(* ===== verification/Outbox.v ===== *)
(** * The durable outbox

    Models [internal/x/outbox/outbox.go] and [engine.go]: the interface of a
    durable FIFO store, and the engine that delivers its head, retries, drops
    and dead-letters, as a state machine interleaved with producers, wake-ups,
    cancellation and crashes.  What the engine guarantees is proved against the
    interface; [FileStore] implements it. *)

From S2P Require Import Prelude.

(** ** The store *)

Record Record_ := mkRecord { Seq : Z; Payload : string }.

(** The [Store] interface, and what a restart does to it.  The first argument
    of an operation is the error its I/O meets, if any. *)
Class Store (S : Type) := {
  Append : option string → string → S → option string * S;
  Peek : option string → S → string + option Record_;
  Drop : option string → bool → S → option string * S;
  Len : S → nat;
  Reopen : S → option S }.

(** What the store promises: a FIFO queue whose operations fail atomically and
    which survives a restart.  [valid] are the payloads it is given
    (marshalled messages), [room] that the sequence counter has not run out. *)
Class StoreLaws (S : Type) `{Store S} (valid : string → Prop) := {
  contents : S → list string;
  store_ok : S → Prop;
  room : S → Prop;
  Append_law io p s : store_ok s → room s → valid p →
    let (err, s') := Append io p s in
    store_ok s' ∧ contents s' = (match err with None => contents s ++ [p] | Some _ => contents s end) ∧
    (io = None → err = None);
  Peek_law io s : store_ok s →
    match Peek io s with
    | inl _ => io ≠ None
    | inr None => contents s = []
    | inr (Some rec) => head (contents s) = Some (Payload rec)
    end;
  Drop_law io dead s : store_ok s →
    let (err, s') := Drop io dead s in
    store_ok s' ∧ contents s' = (match err with None => tail (contents s) | Some _ => contents s end) ∧
    (io = None → err = None);
  Reopen_law s : store_ok s →
    ∃ s', Reopen s = Some s' ∧ store_ok s' ∧ contents s' = contents s }.
Arguments contents {S _} valid {_} s.
Arguments store_ok {S _} valid {_} s.
Arguments room {S _} valid {_} s.

(** ** The engine *)

(** What one call of [Deliver] reports. *)
Inductive DeliverResult := Delivered | Permanent | Transient.

#[export] Instance DeliverResult_eq_dec : EqDecision DeliverResult.
Proof. solve_decision. Defined.

Section engine.
Context {S T : Type} {ST : Store S}.
Context (json_Marshal : T → option string) (json_Unmarshal : string → option T).

(** Where the goroutine of [Run] is: at the top of [drain]'s loop, in a
    delivery, in [drop]'s loop, at the [select] of [Run], or returned. *)
Inductive PC :=
| Draining
| Delivering (payload : string) (msg : T)
| Dropping (dead : bool)
| Waiting
| Stopped.

(** The store, the goroutine, the one-slot [notify] channel, the producers
    between their [Append] and their [Wake], and whether ctx is cancelled. *)
Record Engine := mkEngine {
  eng_store : S; eng_pc : PC; eng_notify : bool; eng_waking : nat; eng_cancelled : bool }.

Definition set_pc (pc : PC) (e : Engine) : Engine :=
  mkEngine (eng_store e) pc (eng_notify e) (eng_waking e) (eng_cancelled e).
Definition set_store (s : S) (e : Engine) : Engine :=
  mkEngine s (eng_pc e) (eng_notify e) (eng_waking e) (eng_cancelled e).

(** [common.SleepContext], then on to [pc] or out of [drain]; [pick] is the
    choice of the select when both of its cases are ready. *)
Definition sleep_then (pick : bool) (pc : PC) (e : Engine) : Engine :=
  set_pc (if eng_cancelled e && pick then Waiting else pc) e.

(** One step of [Run]'s goroutine. *)
Definition run_step (io : option string) (result : DeliverResult) (pick : bool) (e : Engine)
    : Engine :=
  match eng_pc e with
  | Draining =>
      if eng_cancelled e then set_pc Waiting e
      else
        match Peek io (eng_store e) with
        | inl _ => sleep_then pick Draining e
        | inr None => set_pc Waiting e
        | inr (Some rec) =>
            match json_Unmarshal (Payload rec) with
            | None => set_pc (Dropping true) e
            | Some msg => set_pc (Delivering (Payload rec) msg) e
            end
        end
  | Delivering _ _ =>
      match result with
      | Delivered => set_pc (Dropping false) e
      | Permanent => set_pc (Dropping true) e
      | Transient => sleep_then pick Draining e
      end
  | Dropping dead =>
      let (err, s) := Drop io dead (eng_store e) in
      match err with
      | Some _ => sleep_then pick (Dropping dead) (set_store s e)
      | None => set_pc Draining (set_store s e)
      end
  | Waiting =>
      if eng_cancelled e && (pick || negb (eng_notify e)) then set_pc Stopped e
      else if eng_notify e
      then mkEngine (eng_store e) Draining false (eng_waking e) (eng_cancelled e)
      else e
  | Stopped => e
  end.

(** [Enqueue] up to its [Wake]. *)
Definition Enqueue (io : option string) (msg : T) (e : Engine) : option string * Engine :=
  match json_Marshal msg with
  | None => (Some "json", e)
  | Some payload =>
      let (err, s) := Append io payload (eng_store e) in
      match err with
      | Some _ => (err, set_store s e)
      | None =>
          (None, mkEngine s (eng_pc e) (eng_notify e) (1 + eng_waking e)%nat (eng_cancelled e))
      end
  end.

(** [notify.Wake()] of a producer that has appended. *)
Definition Wake (e : Engine) : Engine :=
  mkEngine (eng_store e) (eng_pc e) true (pred (eng_waking e)) (eng_cancelled e).

(** A new process over what the old one left on disk. *)
Definition restart (s : S) : option Engine :=
  s' ← Reopen s; Some (mkEngine s' Draining false 0 false).

(** ** Executions *)

(** What happened so far: the messages made durable, each call of [Deliver],
    and the messages removed with whether they were dead-lettered. *)
Record History := mkHistory {
  h_durable : list string;
  h_attempts : list (string * DeliverResult);
  h_finished : list (string * bool) }.

(** The payloads [Enqueue] hands the store. *)
Definition marshalled (payload : string) : Prop := ∃ msg, json_Marshal msg = Some payload.

Context `{!StoreLaws S marshalled}.
#[local] Abbreviation queue e := (contents marshalled (eng_store e)).

(** The call of [Deliver] that returns at a step, and the message that a step's
    [Drop] takes off. *)
Definition attempt_of (pc : PC) (result : DeliverResult) : list (string * DeliverResult) :=
  match pc with Delivering p _ => [(p, result)] | _ => [] end.

Definition finish_of (io : option string) (e : Engine) : list (string * bool) :=
  match eng_pc e, queue e with
  | Dropping dead, p :: _ =>
      match fst (Drop io dead (eng_store e)) with None => [(p, dead)] | Some _ => [] end
  | _, _ => []
  end.

Definition log (durable : list string) (attempts : list (string * DeliverResult))
    (finished : list (string * bool)) (h : History) : History :=
  mkHistory (h_durable h ++ durable) (h_attempts h ++ attempts) (h_finished h ++ finished).

(** A step of the process: of the goroutine, of a producer, a cancellation, or
    a crash, which may fall between an operation's effect on disk and its
    return, followed by a restart. *)
Inductive outbox_step : Engine * History → Engine * History → Prop :=
| ob_run io result pick e h :
    outbox_step (e, h)
      (run_step io result pick e, log [] (attempt_of (eng_pc e) result) (finish_of io e) h)
| ob_enqueue io msg payload err e e' h :
    room marshalled (eng_store e) → json_Marshal msg = Some payload →
    Enqueue io msg e = (err, e') →
    outbox_step (e, h) (e', log (match err with None => [payload] | Some _ => [] end) [] [] h)
| ob_wake e h : (0 < eng_waking e)%nat → outbox_step (e, h) (Wake e, h)
| ob_cancel e h :
    outbox_step (e, h)
      (mkEngine (eng_store e) (eng_pc e) (eng_notify e) (eng_waking e) true, h)
| ob_crash e e' h : restart (eng_store e) = Some e' → outbox_step (e, h) (e', h)
| ob_crash_append msg payload e e' h :
    room marshalled (eng_store e) → json_Marshal msg = Some payload →
    restart (snd (Append None payload (eng_store e))) = Some e' →
    outbox_step (e, h) (e', log [payload] [] [] h)
| ob_crash_drop dead e e' h :
    eng_pc e = Dropping dead →
    restart (snd (Drop None dead (eng_store e))) = Some e' →
    outbox_step (e, h) (e', log [] [] (finish_of None e) h).

(** ** The invariant *)

(** The attempts made for one finished message: only its own, ending it. *)
Definition concluded (m : string * bool) (block : list (string * DeliverResult)) : Prop :=
  Forall (λ a, a.1 = m.1) block ∧
  if m.2 then json_Unmarshal m.1 = None ∨ (m.1, Permanent) ∈ block
  else (m.1, Delivered) ∈ block.

(** What the program counter says of the head and of its attempts [cur]. *)
Definition pc_ok (e : Engine) (cur : list (string * DeliverResult)) : Prop :=
  match eng_pc e with
  | Delivering p msg => head (queue e) = Some p ∧ json_Unmarshal p = Some msg
  | Dropping dead => ∃ p, head (queue e) = Some p ∧ concluded (p, dead) cur
  | Waiting => eng_cancelled e = true ∨ queue e = [] ∨ eng_notify e = true ∨ (0 < eng_waking e)%nat
  | Stopped => eng_cancelled e = true
  | Draining => True
  end.

Record outbox_inv (st : Engine * History) : Prop := {
  oi_store : store_ok marshalled (eng_store (fst st));
  oi_durable : h_durable (snd st) = map fst (h_finished (snd st)) ++ queue (fst st);
  oi_attempts : ∃ blocks cur,
    h_attempts (snd st) = concat blocks ++ cur ∧
    Forall2 concluded (h_finished (snd st)) blocks ∧
    Forall (λ a, head (queue (fst st)) = Some a.1) cur ∧
    pc_ok (fst st) cur }.

Lemma head_app {A} (l : list A) x y : head l = Some x → head (l ++ y) = Some x.
Proof. by destruct l. Qed.

(** A message that leaves the queue closes its block of attempts. *)
Lemma finish_inv e e' h cur blocks p dead l att :
  store_ok marshalled (eng_store e') →
  h_durable h = map fst (h_finished h) ++ queue e →
  h_attempts h = concat blocks ++ cur → Forall2 concluded (h_finished h) blocks →
  queue e = p :: l → queue e' = l → concluded (p, dead) (cur ++ att) → eng_pc e' = Draining →
  outbox_inv (e', log [] att [(p, dead)] h).
Proof.
  intros Hok Hd Ha Hb Hq Hq' Hc Hpc. constructor; simpl; [done| |].
  - rewrite app_nil_r, Hd, Hq, Hq', map_app. simpl. by rewrite <- app_assoc.
  - exists (blocks ++ [cur ++ att]), []. rewrite concat_app, Ha. simpl. rewrite !app_nil_r, app_assoc.
    split; [done|]. split; [by apply Forall2_app; [|repeat constructor; apply Hc]|].
    split; [done|]. unfold pc_ok. by rewrite Hpc.
Qed.

(** A step that leaves the queue alone. *)
Lemma keep_inv e e' h cur blocks att :
  store_ok marshalled (eng_store e') →
  h_durable h = map fst (h_finished h) ++ queue e →
  h_attempts h = concat blocks ++ cur → Forall2 concluded (h_finished h) blocks →
  queue e' = queue e → Forall (λ a, head (queue e) = Some a.1) (cur ++ att) → pc_ok e' (cur ++ att) →
  outbox_inv (e', log [] att [] h).
Proof.
  intros Hok Hd Ha Hb Hq Hc Hpc. constructor; simpl; [done| |].
  - by rewrite !app_nil_r, Hd, Hq.
  - exists blocks, (cur ++ att). rewrite Ha, app_nil_r, app_assoc. by rewrite Hq.
Qed.

Lemma concluded_head (e : Engine) (p : string) (dead : bool) cur :
  head (queue e) = Some p → Forall (λ a, head (queue e) = Some a.1) cur →
  (if dead then json_Unmarshal p = None ∨ (p, Permanent) ∈ cur else (p, Delivered) ∈ cur) →
  concluded (p, dead) cur.
Proof.
  intros Hh Hc Hd. split; [|done]. eapply Forall_impl; [exact Hc|]. intros a Ha. simpl. congruence.
Qed.

Lemma sleep_pc_ok pick pc e cur :
  pc_ok (set_pc pc e) cur → pc_ok (sleep_then pick pc e) cur.
Proof.
  intros H. unfold sleep_then. destruct (eng_cancelled e) eqn:E, pick; simpl; try done. by left.
Qed.

Lemma run_step_inv io result pick e h :
  outbox_inv (e, h) →
  outbox_inv (run_step io result pick e, log [] (attempt_of (eng_pc e) result) (finish_of io e) h).
Proof.
  intros [Hok Hd (blocks & cur & Ha & Hb & Hc & Hpc)]. simpl in *.
  assert (Hkeep : ∀ e', eng_store e' = eng_store e → pc_ok e' cur → outbox_inv (e', log [] [] [] h)).
  { intros e' Hs Hp. eapply (keep_inv e e' h cur); rewrite ?Hs, ?app_nil_r; done. }
  unfold run_step, attempt_of, finish_of. unfold pc_ok in Hpc.
  destruct (eng_pc e) as [|p msg|dead| |] eqn:Epc.
  - destruct (eng_cancelled e) eqn:Ecan; [apply Hkeep; [done|by left]|].
    pose proof (Peek_law io (eng_store e) Hok) as Hp.
    destruct (Peek io (eng_store e)) as [err|[rec|]].
    + apply Hkeep; [done|]. by apply sleep_pc_ok.
    + destruct (json_Unmarshal (Payload rec)) as [msg|] eqn:Eu; apply Hkeep; try done.
      simpl. exists (Payload rec). split; [done|]. apply (concluded_head e); [done..|by left].
    + apply Hkeep; [done|]. right. by left.
  - destruct Hpc as [Hh Hu].
    assert (Hcur : Forall (λ a, head (queue e) = Some a.1) (cur ++ [(p, result)])).
    { apply Forall_app. split; [done|]. by constructor. }
    assert (Hin : (p, result) ∈ cur ++ [(p, result)]) by (apply elem_of_app; right; by left).
    eapply (keep_inv e _ h cur); try done; destruct result; try done; simpl.
    + exists p. split; [done|]. by apply (concluded_head e).
    + exists p. split; [done|]. apply (concluded_head e); auto.
    + by apply sleep_pc_ok.
  - destruct Hpc as (p & Hh & Hcon). pose proof (Drop_law io dead (eng_store e) Hok) as Hdrop.
    destruct (queue e) as [|p' l] eqn:Eq; [done|]. simpl in Hh. injection Hh as ->.
    destruct (Drop io dead (eng_store e)) as [[err|] s'] eqn:Ed; simpl in *;
      destruct Hdrop as (Hok' & Hq' & _).
    + assert (Hs : eng_store (sleep_then pick (Dropping dead) (set_store s' e)) = s')
        by (unfold sleep_then; by destruct (_ && _)).
      eapply (keep_inv e _ h cur); rewrite ?Hs, ?app_nil_r, ?Eq; try done.
      apply sleep_pc_ok. exists p. simpl. by rewrite Hq'.
    + eapply (finish_inv e _ h cur); rewrite ?app_nil_r, ?Eq; done.
  - destruct (eng_cancelled e) eqn:Ecan; simpl.
    + destruct (pick || _); [by apply Hkeep|]. destruct (eng_notify e) eqn:En; apply Hkeep; try done.
      unfold pc_ok. rewrite Epc. by left.
    + destruct (eng_notify e) eqn:En; apply Hkeep; try done. unfold pc_ok. by rewrite Epc, Ecan, En.
  - apply Hkeep; [done|]. unfold pc_ok. by rewrite Epc.
Qed.

(** The queue growing at its tail keeps what is known of its head. *)
Lemma grow_inv e e' h payload :
  outbox_inv (e, h) → store_ok marshalled (eng_store e') → queue e' = queue e ++ [payload] →
  (∀ cur, pc_ok e cur → pc_ok e' cur) → outbox_inv (e', log [payload] [] [] h).
Proof.
  intros [Hok Hd (blocks & cur & Ha & Hb & Hc & Hpc)] Hok' Hq Hp. simpl in *. constructor; simpl.
  - done.
  - by rewrite app_nil_r, Hd, Hq, <- app_assoc.
  - exists blocks, cur. rewrite !app_nil_r, Hq. split; [done|]. split; [done|]. split; [|by apply Hp].
    eapply Forall_impl; [exact Hc|]. intros a. apply head_app.
Qed.

(** A crash keeps what is on disk, and the attempts made so far. *)
Lemma restart_inv e s e' h :
  outbox_inv (e, h) → store_ok marshalled s → contents marshalled s = queue e →
  restart s = Some e' → outbox_inv (e', log [] [] [] h).
Proof.
  intros [Hok Hd (blocks & cur & Ha & Hb & Hc & _)] Hs Hq Hr. simpl in *.
  destruct (Reopen_law s Hs) as (s' & Hre & Hok' & Hq'). unfold restart in Hr. rewrite Hre in Hr.
  injection Hr as <-. apply (keep_inv e _ h cur blocks); simpl; rewrite ?app_nil_r; try done.
  congruence.
Qed.

Lemma log_nil h : log [] [] [] h = h.
Proof. destruct h. unfold log. simpl. by rewrite !app_nil_r. Qed.

Lemma outbox_step_inv st st' : outbox_step st st' → outbox_inv st → outbox_inv st'.
Proof.
  destruct 1 as [io result pick e h|io msg payload err e e' h Hroom Hm He|e h Hw|e h|e e' h Hr
                |msg payload e e' h Hroom Hm Hr|dead e e' h Hpc Hr]; intros Hinv;
    pose proof Hinv as [Hok Hd (blocks & cur & Ha & Hb & Hc & Hp)]; simpl in *.
  - by apply run_step_inv.
  - unfold Enqueue in He. rewrite Hm in He.
    pose proof (Append_law io payload (eng_store e) Hok Hroom ltac:(by exists msg)) as Happ.
    destruct (Append io payload (eng_store e)) as [[err'|] s']; destruct Happ as (Hok' & Hq & _);
      injection He as <- <-.
    + apply (keep_inv e _ h cur blocks); rewrite ?app_nil_r; try done. unfold pc_ok in *. simpl in *.
      by rewrite Hq.
    + apply (grow_inv e); try done. intros cur'. unfold pc_ok. simpl. rewrite Hq.
      destruct (eng_pc e); try done.
      * intros [? ?]. split; [by apply head_app|done].
      * intros (p & ? & ?). exists p. split; [by apply head_app|done].
      * intros _. right. right. right. lia.
  - rewrite <- (log_nil h). apply (keep_inv e _ h cur blocks); rewrite ?app_nil_r; try done.
    unfold pc_ok in *. simpl. destruct (eng_pc e); try done. right. right. by left.
  - rewrite <- (log_nil h). apply (keep_inv e _ h cur blocks); rewrite ?app_nil_r; try done.
    unfold pc_ok in *. simpl. destruct (eng_pc e); try done. by left.
  - rewrite <- (log_nil h). by apply (restart_inv e (eng_store e)).
  - pose proof (Append_law None payload (eng_store e) Hok Hroom ltac:(by exists msg)) as Happ.
    destruct (Append None payload (eng_store e)) as [err s'].
    destruct Happ as (Hok' & Hq & Herr). pose proof (Herr eq_refl) as ->. simpl in Hr.
    replace (log [payload] [] [] h) with (log [] [] [] (log [payload] [] [] h))
      by (unfold log; simpl; by rewrite !app_nil_r).
    apply (restart_inv (set_pc Draining (set_store s' e)) s'); try done.
    by apply (grow_inv e).
  - pose proof (Drop_law None dead (eng_store e) Hok) as Hdrop. unfold finish_of. rewrite Hpc.
    unfold pc_ok in Hp. rewrite Hpc in Hp. destruct Hp as (p & Hh & Hcon).
    destruct (queue e) as [|p' l] eqn:Eq; [done|]. simpl in Hh. injection Hh as ->.
    destruct (Drop None dead (eng_store e)) as [err s'].
    destruct Hdrop as (Hok' & Hq & Herr). pose proof (Herr eq_refl) as ->. simpl in *.
    replace (log [] [] [(p, dead)] h) with (log [] [] [] (log [] [] [(p, dead)] h))
      by (unfold log; simpl; by rewrite !app_nil_r).
    apply (restart_inv (set_pc Draining (set_store s' e)) s'); try done.
    apply (finish_inv e _ h cur blocks p dead l); rewrite ?app_nil_r, ?Eq; done.
Qed.

(** A fresh engine over a store. *)
Definition started (s : S) : Engine := mkEngine s Draining false 0 false.
Definition history (s : S) : History := mkHistory (contents marshalled s) [] [].

Lemma started_inv s : store_ok marshalled s → outbox_inv (started s, history s).
Proof. intros Hs. constructor; [done..|]. by exists [], []. Qed.

Lemma outbox_reachable s e h :
  store_ok marshalled s → rtc outbox_step (started s, history s) (e, h) → outbox_inv (e, h).
Proof.
  intros Hs Hr. pose proof (started_inv s Hs) as Hinv. revert Hinv.
  generalize (started s, history s) (e, h) Hr. clear. intros st st' Hr.
  induction Hr; eauto using outbox_step_inv.
Qed.

(** ** Progress *)

(** The goroutine alone, nothing failing any more. *)
Definition settle (n : nat) (e : Engine) : Engine :=
  Nat.iter n (run_step None Delivered false) e.

(** The producers that have appended finish their [Wake]. *)
Definition wake_pending (e : Engine) : Engine :=
  if Nat.ltb 0 (eng_waking e) then Wake e else e.

Definition running (e : Engine) : Prop :=
  store_ok marshalled (eng_store e) ∧ eng_cancelled e = false ∧ eng_pc e = Draining.

Lemma settle_add n m e : settle n (settle m e) = settle (n + m) e.
Proof. unfold settle. by rewrite Nat.iter_add. Qed.

Lemma drop_step dead e :
  store_ok marshalled (eng_store e) → eng_cancelled e = false → eng_pc e = Dropping dead →
  running (settle 1 e) ∧ queue (settle 1 e) = tail (queue e).
Proof.
  intros Hok Hc Hpc. simpl. unfold run_step. rewrite Hpc.
  pose proof (Drop_law None dead (eng_store e) Hok) as Hd.
  destruct (Drop None dead (eng_store e)) as [err s']. destruct Hd as (Hok' & Hq & Herr).
  rewrite (Herr eq_refl) in *. by repeat split.
Qed.

Lemma deliver_step p msg e :
  store_ok marshalled (eng_store e) → eng_cancelled e = false → eng_pc e = Delivering p msg →
  running (settle 2 e) ∧ queue (settle 2 e) = tail (queue e).
Proof.
  intros Hok Hc Hpc. rewrite <- (settle_add 1 1).
  assert (settle 1 e = set_pc (Dropping false) e) as ->.
  { simpl. unfold run_step. by rewrite Hpc. }
  by apply (drop_step false (set_pc (Dropping false) e)).
Qed.

Lemma round_step p l e :
  running e → queue e = p :: l → ∃ n, running (settle n e) ∧ queue (settle n e) = l.
Proof.
  intros (Hok & Hc & Hpc) Hq. pose proof (Peek_law None (eng_store e) Hok) as Hp.
  assert (∃ rec, Peek None (eng_store e) = inr (Some rec)) as [rec Hrec].
  { destruct (Peek _ _) as [|[rec|]]; [done|by exists rec|]. by rewrite Hq in Hp. }
  destruct (json_Unmarshal (Payload rec)) as [msg|] eqn:Eu.
  - assert (Hs : settle 1 e = set_pc (Delivering (Payload rec) msg) e).
    { simpl. unfold run_step. by rewrite Hpc, Hc, Hrec, Eu. }
    exists (2 + 1)%nat. rewrite <- settle_add, Hs.
    destruct (deliver_step (Payload rec) msg (set_pc (Delivering (Payload rec) msg) e)) as [Hr Hq'];
      [done..|]. rewrite Hq'. simpl. by rewrite Hq.
  - assert (Hs : settle 1 e = set_pc (Dropping true) e).
    { simpl. unfold run_step. by rewrite Hpc, Hc, Hrec, Eu. }
    exists (1 + 1)%nat. rewrite <- settle_add, Hs.
    destruct (drop_step true (set_pc (Dropping true) e)) as [Hr Hq']; [done..|].
    rewrite Hq'. simpl. by rewrite Hq.
Qed.

Lemma drain_all l : ∀ e, running e → queue e = l → ∃ n, queue (settle n e) = [].
Proof.
  induction l as [|p l IH]; intros e Hr Hq; [by exists 0%nat|].
  destruct (round_step p l e Hr Hq) as (n & Hr' & Hq'). destruct (IH _ Hr' Hq') as [m Hm].
  exists (m + n)%nat. by rewrite <- settle_add.
Qed.

Lemma resume e n : running (settle n e) → ∃ m, queue (settle m e) = [].
Proof.
  intros Hr. destruct (drain_all _ _ Hr eq_refl) as [m Hm]. exists (m + n)%nat.
  by rewrite <- settle_add.
Qed.

(** The goroutine's steps over given answers of [Deliver], for the examples. *)
Fixpoint runs (results : list DeliverResult) (st : Engine * History) : Engine * History :=
  match results with
  | [] => st
  | r :: results =>
      let (e, h) := st in
      runs results
        (run_step None r false e, log [] (attempt_of (eng_pc e) r) (finish_of None e) h)
  end.

Lemma runs_steps results : ∀ st, rtc outbox_step st (runs results st).
Proof.
  induction results as [|r results IH]; intros [e h]; [done|].
  eapply rtc_l; [apply (ob_run None r false)|apply IH].
Qed.

(** ** Properties *)

(** At-least-once, in order.  Through any interleaving of deliveries,
    failures, producers, cancellation and crashes, the messages made durable are
    those taken off, in order, followed by those still queued; each one taken
    off was delivered successfully at least once, or dead-lettered because it
    failed permanently or cannot be decoded; and the calls of [Deliver] go
    through the messages in that order, never passing the head. *)
Theorem outbox_at_least_once (s : S) (e : Engine) (h : History) :
  store_ok marshalled s → rtc outbox_step (started s, history s) (e, h) →
  h_durable h = map fst (h_finished h) ++ queue e ∧
  ∃ blocks cur, h_attempts h = concat blocks ++ cur ∧
    Forall2 concluded (h_finished h) blocks ∧
    Forall (λ a, head (queue e) = Some a.1) cur.
Proof.
  intros Hs Hr. destruct (outbox_reachable _ _ _ Hs Hr) as [_ Hd (blocks & cur & Ha & Hb & Hc & _)].
  split; [done|]. by exists blocks, cur.
Qed.

(** Nothing is stranded, and no wake-up is lost.  From every state the process
    can reach uncancelled, once the producers in flight have signalled and
    failures stop, the goroutine delivers the whole queue and needs no further
    event to do so. *)
Theorem outbox_drains (s : S) (e : Engine) (h : History) :
  store_ok marshalled s → rtc outbox_step (started s, history s) (e, h) →
  eng_cancelled e = false → ∃ n, queue (settle n (wake_pending e)) = [].
Proof.
  intros Hs Hr Hc. destruct (outbox_reachable _ _ _ Hs Hr) as [Hok _ (_ & cur & _ & _ & _ & Hp)].
  simpl in *. assert (Hw : eng_store (wake_pending e) = eng_store e ∧
    eng_pc (wake_pending e) = eng_pc e ∧ eng_cancelled (wake_pending e) = false)
    by (unfold wake_pending; by destruct (Nat.ltb _ _)).
  destruct Hw as (Hws & Hwpc & Hwc). unfold pc_ok in Hp.
  destruct (eng_pc e) as [|p msg|dead| |]; rewrite <- Hws in Hok.
  - by apply (resume _ 0).
  - apply (resume _ 2). by eapply deliver_step.
  - apply (resume _ 1). by eapply drop_step.
  - destruct Hp as [|[Hq|Hn]]; [congruence|exists 0%nat; simpl; by rewrite Hws|].
    apply (resume _ 1). simpl. unfold run_step. rewrite Hwpc, Hwc. simpl.
    assert (eng_notify (wake_pending e) = true) as ->; [|done].
    unfold wake_pending. destruct Hn as [Hn|Hn]; [by destruct (Nat.ltb _ _)|].
    by destruct (Nat.ltb_spec 0 (eng_waking e)); [|lia].
  - congruence.
Qed.
End engine.
Arguments PC : clear implicits.
Arguments Engine : clear implicits.
