(* ===== verification/FileStore.v ===== *)
(** * The outbox on disk

    Models [internal/x/outbox/filestore.go]: one file per record, live and
    dead-lettered ones in two directories, an in-memory queue loaded once at
    [Open].  The file names sort and parse back; the store keeps the promises
    of the outbox's [Store] interface; and a process that dies at any point
    finds its queue again. *)

From S2P Require Import Prelude Links Strconv Outbox.
From Stdlib Require Import Ascii.

(** ** File names *)

Definition seqDigits : nat := 20.

Definition digit_char (d : Z) : ascii := ascii_of_nat (48 + Z.to_nat d).

(** [fmt.Sprintf("%0*d", width, n)], for an [n] of at most [width] digits. *)
Fixpoint padded (width : nat) (n : Z) : string :=
  match width with
  | O => ""
  | S width => padded width (n / 10) +:+ String (digit_char (n mod 10)) ""
  end.

Definition formatSeq (seq : Z) : string := padded seqDigits seq.

(** [strconv.ParseUint(s, 10, 64)]. *)
Definition ParseUint (s : string) : option Z :=
  if String.eqb s "" then None
  else n ← parse_digits 0 s; if n <? 2 ^ 64 then Some n else None.

(** [strings.CutSuffix]. *)
Fixpoint CutSuffix (s suffix : string) : option string :=
  if String.eqb s suffix then Some ""
  else match s with
       | EmptyString => None
       | String c s => String c <$> CutSuffix s suffix
       end.

Definition record_file (seq : Z) : string := formatSeq seq +:+ ".json".

Definition parseRecordName (name : string) : option Z :=
  base ← CutSuffix name ".json"; ParseUint base.

(** ** The store *)

(** [encoding/json] on a [Record]. *)
Class RecordJSON := {
  Marshal_Record : Record_ → option string;
  Unmarshal_Record : string → option Record_ }.

(** A payload in the form [json.Marshal] writes survives the round trip. *)
Class RecordJSONLaws `{RecordJSON} (compact : string → Prop) :=
  Record_roundtrip : ∀ rec, 0 ≤ Seq rec < 2 ^ 64 → compact (Payload rec) →
    ∃ data, Marshal_Record rec = Some data ∧ Unmarshal_Record data = Some rec.

(** The regular files of [dir] and of [dir/dead]. *)
Record Disk := mkDisk { d_live : gmap string string; d_dead : gmap string string }.

Record FileStore := mkFileStore { next : Z; live : list Record_ }.

(** The I/O of [Open]. *)
Inductive IO := IoMkdirAll | IoReadDir | IoReadFile (name : string) | IoReadDead.

Definition wrap_u64 (n : Z) : Z := n mod 2 ^ 64.

Definition name_le (a b : string * string) : Prop := String.le a.1 b.1.
#[export] Instance name_le_dec : RelDecision name_le.
Proof. intros a b. unfold name_le. apply _. Defined.

(** [os.ReadDir]: the entries in file-name order. *)
Definition ReadDir (files : gmap string string) : list (string * string) :=
  merge_sort name_le (map_to_list files).

Definition seq_le (a b : Record_) : Prop := Seq a ≤ Seq b.
#[export] Instance seq_le_dec : RelDecision seq_le.
Proof. intros a b. unfold seq_le. apply _. Defined.

Section filestore.
Context {RJ : RecordJSON}.

(** The first loop of [Open]. *)
Fixpoint load_records (io : IO → option string) (entries : list (string * string))
    : string + (list Record_ * Z) :=
  match entries with
  | [] => inr ([], 0)
  | (name, data) :: rest =>
      match parseRecordName name with
      | None => load_records io rest
      | Some seq =>
          match io (IoReadFile name), Unmarshal_Record data with
          | Some err, _ => inl ("outbox: read record: " +:+ err)
          | None, None => inl "outbox: unmarshal record"
          | None, Some rec =>
              match load_records io rest with
              | inl err => inl err
              | inr (records, liveMax) => inr (rec :: records, Z.max seq liveMax)
              end
          end
      end
  end.

Definition maxSeq (files : gmap string string) : Z :=
  foldr (λ nd m, match parseRecordName nd.1 with Some seq => Z.max seq m | None => m end)
    0 (ReadDir files).

Definition Open (io : IO → option string) (d : Disk) : string + FileStore :=
  match io IoMkdirAll, io IoReadDir with
  | Some err, _ => inl ("outbox: create dir: " +:+ err)
  | None, Some err => inl ("outbox: read dir: " +:+ err)
  | None, None =>
      match load_records io (ReadDir (d_live d)) with
      | inl err => inl err
      | inr (records, liveMax) =>
          match io IoReadDead with
          | Some err => inl ("outbox: read dir: " +:+ err)
          | None =>
              inr (mkFileStore (wrap_u64 (Z.max liveMax (maxSeq (d_dead d)) + 1))
                     (merge_sort seq_le records))
          end
      end
  end.

(** The disk and the process's memory. *)
Definition State : Type := Disk * FileStore.

Definition FileStore_Append (io : option string) (payload : string) (st : State)
    : option string * State :=
  let (d, s) := st in
  let rec := mkRecord (next s) payload in
  match Marshal_Record rec with
  | None => (Some "outbox: marshal record", st)
  | Some data =>
      match io with
      | Some err => (Some err, st)
      | None =>
          (None, (mkDisk (<[record_file (next s) := data]> (d_live d)) (d_dead d),
                  mkFileStore (wrap_u64 (next s + 1)) (live s ++ [rec])))
      end
  end.

Definition FileStore_Peek (st : State) : option Record_ := head (live (snd st)).

(** Dropping a head whose file is missing: a removal tolerates it, a rename
    into the dead-letter area does not. *)
Definition FileStore_Drop (io : option string) (dead : bool) (st : State)
    : option string * State :=
  let (d, s) := st in
  match live s with
  | [] => (None, st)
  | rec :: rest =>
      let file := record_file (Seq rec) in
      match io with
      | Some err => (Some err, st)
      | None =>
          if dead then
            match d_live d !! file with
            | None => (Some "outbox: dead-letter record", st)
            | Some data =>
                (None, (mkDisk (delete file (d_live d)) (<[file := data]> (d_dead d)),
                        mkFileStore (next s) rest))
            end
          else (None, (mkDisk (delete file (d_live d)) (d_dead d), mkFileStore (next s) rest))
      end
  end.

Definition FileStore_Len (st : State) : nat := length (live (snd st)).

Definition no_io : IO → option string := λ _, None.

#[export] Instance FileStore_Store : Store State := {|
  Append := FileStore_Append;
  Peek := λ _ st, inr (FileStore_Peek st);
  Drop := FileStore_Drop;
  Len := FileStore_Len;
  Reopen := λ st, match Open no_io (fst st) with
                  | inl _ => None
                  | inr s => Some (fst st, s)
                  end |}.
End filestore.

(** ** File names parse back *)

Lemma digit_char_ok d : 0 ≤ d < 10 → is_digit (digit_char d) = true ∧ digit_value (digit_char d) = d.
Proof.
  intros Hd. unfold is_digit, digit_value, digit_char. rewrite nat_ascii_embedding by lia.
  rewrite andb_true_iff, !Nat.leb_le. lia.
Qed.

Lemma parse_digits_snoc acc s c :
  parse_digits acc (s +:+ String c "") =
  n ← parse_digits acc s; if is_digit c then Some (n * 10 + digit_value c) else None.
Proof.
  revert acc. induction s as [|b s IH]; intros acc; simpl; [done|].
  destruct (is_digit b); [apply IH|done].
Qed.

Lemma parse_padded width acc n :
  0 ≤ n → parse_digits acc (padded width n) = Some (acc * 10 ^ Z.of_nat width + n mod 10 ^ Z.of_nat width).
Proof.
  revert n. induction width as [|width IH]; intros n Hn; simpl padded.
  - simpl. rewrite Z.mod_1_r. f_equal. lia.
  - rewrite parse_digits_snoc, IH by (apply Z.div_pos; lia). cbn [mbind option_bind].
    destruct (digit_char_ok (n mod 10)) as [-> ->]; [by apply Z.mod_pos_bound|].
    rewrite Nat2Z.inj_succ, Z.pow_succ_r by lia. f_equal.
    rewrite (Z.rem_mul_r n 10) by (try apply Z.pow_nonzero; lia). ring.
Qed.

Lemma parse_formatSeq seq : 0 ≤ seq < 2 ^ 64 → ParseUint (formatSeq seq) = Some seq.
Proof.
  intros Hs. unfold ParseUint, formatSeq.
  assert (padded seqDigits seq ≠ "") as Hne%String.eqb_neq.
  { unfold seqDigits. cbn [padded]. intros He. by destruct (padded 19 (seq / 10)). }
  rewrite Hne, parse_padded by lia. cbn [mbind option_bind].
  change (10 ^ Z.of_nat seqDigits) with 100000000000000000000.
  change (2 ^ 64) with 18446744073709551616 in *. rewrite Z.mod_small by lia.
  change (0 * _ + seq) with seq.
  by destruct (Z.ltb_spec seq 18446744073709551616); [|lia].
Qed.

Lemma CutSuffix_app a suffix : CutSuffix (a +:+ suffix) suffix = Some a.
Proof.
  induction a as [|c a IH];
    [|change (String c a +:+ suffix) with (String c (a +:+ suffix)); cbn [CutSuffix]].
  - change ("" +:+ suffix) with suffix. destruct suffix as [|d suffix]; [done|].
    cbn [CutSuffix]. by rewrite String.eqb_refl.
  - destruct (String.eqb_spec (String c (a +:+ suffix)) suffix) as [He|_]; [|by rewrite IH].
    apply (f_equal String.length) in He. simpl in He. rewrite length_str_app in He. lia.
Qed.

Lemma parse_record_file seq : 0 ≤ seq < 2 ^ 64 → parseRecordName (record_file seq) = Some seq.
Proof.
  intros Hs. unfold parseRecordName, record_file. rewrite CutSuffix_app. by apply parse_formatSeq.
Qed.

Lemma record_file_inj a b :
  0 ≤ a < 2 ^ 64 → 0 ≤ b < 2 ^ 64 → record_file a = record_file b → a = b.
Proof.
  intros Ha Hb He. pose proof (parse_record_file a Ha) as H. rewrite He, parse_record_file in H by done.
  congruence.
Qed.

#[local] Opaque record_file parseRecordName.

(** ** The invariant *)

Section invariant.
Context {RJ : RecordJSON} (compact : string → Prop) {RL : RecordJSONLaws compact}.

(** Memory is the directory: the live files are those of the queue, in
    sequence, and [next] is past every sequence number on disk. *)
Record fs_ok (st : State) : Prop := {
  fo_next : 0 ≤ next (snd st) < 2 ^ 64;
  fo_sorted : StronglySorted Z.lt (map Seq (live (snd st)));
  fo_range : ∀ r, r ∈ live (snd st) → 0 ≤ Seq r < next (snd st);
  fo_data : ∀ r, r ∈ live (snd st) → ∃ data,
    d_live (fst st) !! record_file (Seq r) = Some data ∧ Unmarshal_Record data = Some r;
  fo_files : ∀ name seq, parseRecordName name = Some seq → is_Some (d_live (fst st) !! name) →
    ∃ r, r ∈ live (snd st) ∧ name = record_file (Seq r);
  fo_dead : ∀ name seq, parseRecordName name = Some seq → is_Some (d_dead (fst st) !! name) →
    seq < next (snd st);
  fo_fresh : ∀ r, r ∈ live (snd st) → d_dead (fst st) !! record_file (Seq r) = None }.

Lemma seq_bound st r : fs_ok st → r ∈ live (snd st) → 0 ≤ Seq r < 2 ^ 64.
Proof. intros Hok Hr. pose proof (fo_next _ Hok). pose proof (fo_range _ Hok _ Hr). lia. Qed.

Lemma live_NoDup st : fs_ok st → NoDup (map Seq (live (snd st))).
Proof.
  intros Hok. pose proof (fo_sorted _ Hok) as Hs. induction Hs as [|z l Hs IH Hall]; [constructor|].
  constructor; [|done]. intros Hin. eapply Forall_forall in Hall; [|exact Hin]. lia.
Qed.

Lemma seq_inj st r r' :
  fs_ok st → r ∈ live (snd st) → r' ∈ live (snd st) → Seq r = Seq r' → r = r'.
Proof.
  intros Hok Hr Hr' Heq. destruct (fo_data _ Hok r Hr) as (d & Hd & Hu).
  destruct (fo_data _ Hok r' Hr') as (d' & Hd' & Hu'). rewrite Heq in Hd. congruence.
Qed.

(** ** [Open] finds the queue *)

(** What [load_records] returns when nothing fails. *)
Definition read_record (nd : string * string) : option Record_ :=
  match parseRecordName nd.1 with Some _ => Unmarshal_Record nd.2 | None => None end.

Lemma load_records_spec entries :
  (∀ name data seq, (name, data) ∈ entries → parseRecordName name = Some seq →
     ∃ r, Unmarshal_Record data = Some r ∧ seq = Seq r) →
  load_records no_io entries =
  inr (omap read_record entries, foldr Z.max 0 (map Seq (omap read_record entries))).
Proof.
  induction entries as [|[name data] rest IH]; intros Hall; simpl; [done|].
  assert (Hread : read_record (name, data) =
    match parseRecordName name with Some _ => Unmarshal_Record data | None => None end) by done.
  rewrite Hread. destruct (parseRecordName name) as [seq|] eqn:E.
  - destruct (Hall name data seq) as (r & Hr & ->); [by left|done|]. rewrite Hr, IH; [done|].
    intros n d s Hin. apply (Hall n d s). by right.
  - apply IH. intros n d s Hin. apply (Hall n d s). by right.
Qed.

Lemma elem_of_ReadDir files name data : (name, data) ∈ ReadDir files ↔ files !! name = Some data.
Proof. unfold ReadDir. by rewrite merge_sort_Permutation, elem_of_map_to_list. Qed.

Lemma file_of st name data seq :
  fs_ok st → d_live (fst st) !! name = Some data → parseRecordName name = Some seq →
  ∃ r, r ∈ live (snd st) ∧ name = record_file (Seq r) ∧ Unmarshal_Record data = Some r ∧ seq = Seq r.
Proof.
  intros Hok Hd Hp. destruct (fo_files _ Hok name seq Hp) as (r & Hr & ->); [by eexists|].
  destruct (fo_data _ Hok r Hr) as (data' & Hd' & Hu). rewrite (parse_record_file _ (seq_bound _ _ Hok Hr)) in Hp.
  exists r. split; [done|]. split; [done|]. split; congruence.
Qed.

Lemma elem_of_records st r :
  fs_ok st → r ∈ omap read_record (ReadDir (d_live (fst st))) ↔ r ∈ live (snd st).
Proof.
  intros Hok. rewrite list_elem_of_omap. split.
  - intros ([name data] & Hin & Hr). apply elem_of_ReadDir in Hin. unfold read_record in Hr. simpl in Hr.
    destruct (parseRecordName name) as [seq|] eqn:E; [|done].
    destruct (file_of _ _ _ _ Hok Hin E) as (r' & Hr' & _ & Hu & _). congruence.
  - intros Hr. destruct (fo_data _ Hok r Hr) as (data & Hd & Hu).
    exists (record_file (Seq r), data). split; [by apply elem_of_ReadDir|]. unfold read_record. simpl.
    by rewrite (parse_record_file _ (seq_bound _ _ Hok Hr)).
Qed.

Lemma records_NoDup st : fs_ok st → NoDup (omap read_record (ReadDir (d_live (fst st)))).
Proof.
  intros Hok.
  assert (Hfst : NoDup (map fst (ReadDir (d_live (fst st))))).
  { unfold ReadDir. rewrite merge_sort_Permutation. apply NoDup_fst_map_to_list. }
  assert (Hall : ∀ nd r, nd ∈ ReadDir (d_live (fst st)) → read_record nd = Some r →
    nd.1 = record_file (Seq r)).
  { intros [name data] r Hin Hr. apply elem_of_ReadDir in Hin. unfold read_record in Hr. simpl in *.
    destruct (parseRecordName name) as [seq|] eqn:E; [|done].
    destruct (file_of _ _ _ _ Hok Hin E) as (r' & _ & -> & Hu & _). congruence. }
  revert Hfst Hall. generalize (ReadDir (d_live (fst st))). clear.
  induction l as [|nd l IH]; intros Hnd Hall; simpl; [constructor|].
  apply NoDup_cons in Hnd as [Hn Hnd].
  destruct (read_record nd) as [r|] eqn:E; [|apply IH; [done|intros; apply Hall; [by right|done]]].
  constructor; [|apply IH; [done|intros; apply Hall; [by right|done]]].
  intros (nd' & Hin & Hr)%list_elem_of_omap. apply Hn.
  rewrite (Hall nd r) by (done || by left). rewrite <- (Hall nd' r) by (done || by right).
  by apply list_elem_of_fmap_2.
Qed.

Lemma sorted_records st :
  fs_ok st → merge_sort seq_le (omap read_record (ReadDir (d_live (fst st)))) = live (snd st).
Proof.
  intros Hok. set (recs := omap _ _).
  assert (Hp : recs ≡ₚ live (snd st)).
  { apply NoDup_Permutation; [by apply records_NoDup|apply (NoDup_fmap_1 Seq); by apply live_NoDup|].
    intros r. by apply elem_of_records. }
  assert (Hsorted : StronglySorted Z.lt (map Seq (live (snd st))) →
    StronglySorted seq_le (live (snd st))).
  { clear Hp. induction (live (snd st)) as [|r l IH]; simpl; intros Hs; [constructor|].
    apply StronglySorted_inv in Hs as [Hs Hall]. constructor; [by apply IH|].
    apply Forall_forall. intros r' Hr'. unfold seq_le.
    pose proof (proj1 (Forall_forall _ _) Hall (Seq r') (list_elem_of_fmap_2 Seq _ _ Hr')). lia. }
  apply (StronglySorted_unique_strong seq_le).
  - intros a b Ha Hb H1 H2. unfold seq_le in *. apply (seq_inj st); [done| |done|lia].
    apply elem_of_records; [done|]. by rewrite merge_sort_Permutation in Ha.
  - apply StronglySorted_merge_sort; intros ? *; unfold seq_le; lia.
  - by apply Hsorted, fo_sorted.
  - by rewrite merge_sort_Permutation.
Qed.

Lemma foldr_max_spec l : 0 ≤ foldr Z.max 0 l ∧ (∀ x, x ∈ l → x ≤ foldr Z.max 0 l) ∧
  (foldr Z.max 0 l = 0 ∨ foldr Z.max 0 l ∈ l).
Proof.
  induction l as [|x l (H0 & H1 & H2)]; simpl.
  - split; [done|]. split; [|by left]. intros x Hx. by apply elem_of_nil in Hx.
  - split; [lia|]. split; [intros y [->|Hy]%elem_of_cons; [lia|]; specialize (H1 y Hy); lia|].
    destruct (Z.max_spec x (foldr Z.max 0 l)) as [[_ ->]|[_ ->]]; [|right; by left].
    destruct H2; [by left|right; by right].
Qed.

Lemma maxSeq_eq files :
  maxSeq files = foldr Z.max 0 (omap (λ nd, parseRecordName nd.1) (ReadDir files)).
Proof.
  unfold maxSeq. induction (ReadDir files) as [|nd l IH]; simpl; [done|].
  destruct (parseRecordName nd.1); simpl; by rewrite IH.
Qed.

(** Reopening a consistent directory finds the same queue. *)
Lemma Open_spec st :
  fs_ok st → ∃ s, Open no_io (fst st) = inr s ∧ live s = live (snd st) ∧ fs_ok (fst st, s).
Proof.
  intros Hok. unfold Open. simpl. rewrite load_records_spec.
  2:{ intros name data seq Hin Hp. apply elem_of_ReadDir in Hin.
      destruct (file_of _ _ _ _ Hok Hin Hp) as (r & _ & _ & Hu & Hs). eauto. }
  set (recs := omap read_record _). eexists. split; [done|]. simpl.
  assert (Hlive : merge_sort seq_le recs = live (snd st)) by by apply sorted_records.
  rewrite Hlive. split; [done|].
  set (m1 := foldr Z.max 0 (map Seq recs)). set (m2 := maxSeq (d_dead (fst st))).
  destruct (foldr_max_spec (map Seq recs)) as (H1 & H1' & H1''). fold m1 in H1, H1', H1''.
  destruct (foldr_max_spec (omap (λ nd, parseRecordName nd.1) (ReadDir (d_dead (fst st)))))
    as (H2 & H2' & H2''). rewrite <- maxSeq_eq in H2, H2', H2''. fold m2 in H2, H2', H2''.
  pose proof (fo_next _ Hok) as Hn.
  assert (Hm1 : m1 + 1 ≤ next (snd st) ∨ m1 = 0).
  { destruct H1'' as [?|(r & Heq & Hr)%list_elem_of_fmap]; [by right|left].
    apply elem_of_records in Hr; [|done]. pose proof (fo_range _ Hok r Hr). lia. }
  assert (Hm2 : m2 + 1 ≤ next (snd st) ∨ m2 = 0).
  { destruct H2'' as [?|(nd & Hin & Hp)%list_elem_of_omap]; [by right|left].
    destruct nd as [name data]. apply elem_of_ReadDir in Hin. simpl in Hp.
    pose proof (fo_dead _ Hok name m2 Hp ltac:(by eexists)). lia. }
  assert (Hw : wrap_u64 (Z.max m1 m2 + 1) = Z.max m1 m2 + 1).
  { unfold wrap_u64. change (2 ^ 64) with 18446744073709551616 in *. apply Z.mod_small. lia. }
  constructor; simpl; rewrite ?Hw; try apply Hok.
  - change (2 ^ 64) with 18446744073709551616 in *. lia.
  - intros r Hr. pose proof (fo_range _ Hok r Hr). enough (Seq r ≤ m1) by lia.
    apply H1', list_elem_of_fmap_2. by apply elem_of_records.
  - intros name seq Hp [data Hd]. enough (seq ≤ m2) by lia. apply H2', list_elem_of_omap.
    exists (name, data). split; [by apply elem_of_ReadDir|done].
Qed.

(** ** The operations *)

(** The sequence counter has not run out. *)
Definition fs_room (st : State) : Prop := next (snd st) + 1 < 2 ^ 64.

Lemma other_file st r seq :
  fs_ok st → r ∈ live (snd st) → 0 ≤ seq < 2 ^ 64 → Seq r ≠ seq → record_file (Seq r) ≠ record_file seq.
Proof.
  intros Hok Hr Hs Hne He. apply Hne. apply record_file_inj; [by eapply seq_bound|done..].
Qed.

Lemma Append_ok io payload st :
  fs_ok st → fs_room st → compact payload →
  let (err, st') := FileStore_Append io payload st in
  fs_ok st' ∧ d_dead (fst st') = d_dead (fst st) ∧
  live (snd st') = (match err with
                    | None => live (snd st) ++ [mkRecord (next (snd st)) payload]
                    | Some _ => live (snd st) end) ∧
  (io = None → err = None).
Proof using RL.
  intros Hok Hroom Hc. destruct st as [d s]. unfold FileStore_Append, fs_room in *. simpl in *.
  pose proof (fo_next _ Hok) as Hn. simpl in Hn.
  destruct (Record_roundtrip (mkRecord (next s) payload)) as (data & -> & Hu); [done..|].
  destruct io as [err|]; [done|]. split; [|done].
  assert (Hw : wrap_u64 (next s + 1) = next s + 1) by (apply Z.mod_small; lia).
  constructor; simpl; rewrite ?Hw.
  - lia.
  - rewrite map_app. apply StronglySorted_snoc; [apply Hok|].
    intros y (r & -> & Hr)%list_elem_of_fmap. pose proof (fo_range _ Hok r Hr). simpl in *. lia.
  - intros r [Hr| ->%list_elem_of_singleton]%elem_of_app; simpl; [|lia].
    pose proof (fo_range _ Hok r Hr). simpl in *. lia.
  - intros r [Hr| ->%list_elem_of_singleton]%elem_of_app; simpl.
    + pose proof (fo_range _ Hok r Hr). simpl in *. rewrite lookup_insert_ne; [by apply (fo_data _ Hok)|].
      apply not_eq_sym, (other_file _ _ _ Hok Hr Hn). lia.
    + exists data. by rewrite lookup_insert_eq.
  - intros name seq Hp [Heq|Hs]%lookup_insert_is_Some'.
    + exists (mkRecord (next s) payload). split; [apply elem_of_app; right; by left|done].
    + destruct (fo_files _ Hok name seq Hp Hs) as (r & Hr & ->). exists r.
      split; [by apply elem_of_app; left|done].
  - intros name seq Hp Hd. pose proof (fo_dead _ Hok name seq Hp Hd). simpl in *. lia.
  - intros r [Hr| ->%list_elem_of_singleton]%elem_of_app; [by apply (fo_fresh _ Hok)|]. simpl.
    destruct (d_dead d !! record_file (next s)) as [x|] eqn:E; [|done]. exfalso.
    pose proof (fo_dead _ Hok _ _ (parse_record_file _ Hn) ltac:(by eexists)). simpl in *. lia.
Qed.

Lemma Drop_ok io dead st :
  fs_ok st →
  let (err, st') := FileStore_Drop io dead st in
  fs_ok st' ∧ (∀ file data, d_dead (fst st) !! file = Some data → d_dead (fst st') !! file = Some data) ∧
  live (snd st') = (match err with None => tail (live (snd st)) | Some _ => live (snd st) end) ∧
  (io = None → err = None).
Proof.
  intros Hok. destruct st as [d s]. unfold FileStore_Drop. simpl.
  destruct (live s) as [|rec rest] eqn:El; [done|].
  assert (Hrec : rec ∈ live (snd (d, s))) by (simpl; rewrite El; by left).
  assert (Hrest : ∀ r, r ∈ rest → r ∈ live (snd (d, s))) by (intros; simpl; rewrite El; by right).
  pose proof (seq_bound _ _ Hok Hrec) as Hb.
  assert (Hne : ∀ r, r ∈ rest → record_file (Seq rec) ≠ record_file (Seq r)).
  { intros r Hr. apply not_eq_sym, (other_file _ _ _ Hok (Hrest r Hr) Hb).
    pose proof (fo_sorted _ Hok) as Hs. simpl in Hs. rewrite El in Hs. simpl in Hs.
    apply StronglySorted_inv in Hs as [_ Hall].
    pose proof (proj1 (Forall_forall _ _) Hall (Seq r) (list_elem_of_fmap_2 Seq _ _ Hr)). simpl in *. lia. }
  destruct (fo_data _ Hok rec Hrec) as (data & Hd & Hu). simpl in Hd.
  assert (Hok' : ∀ dd,
    (∀ name seq, parseRecordName name = Some seq → is_Some (dd !! name) → seq < next s) →
    (∀ r, r ∈ rest → dd !! record_file (Seq r) = None) →
    fs_ok (mkDisk (delete (record_file (Seq rec)) (d_live d)) dd, mkFileStore (next s) rest)).
  { intros dd Hdd Hfresh. constructor; simpl; try done.
    - apply Hok.
    - pose proof (fo_sorted _ Hok) as Hs. simpl in Hs. rewrite El in Hs.
      by apply StronglySorted_inv in Hs as [? _].
    - intros r Hr. apply (fo_range _ Hok r (Hrest r Hr)).
    - intros r Hr. rewrite lookup_delete_ne by by apply Hne. apply (fo_data _ Hok r (Hrest r Hr)).
    - intros name seq Hp Hs. apply lookup_delete_is_Some in Hs as [Hnn Hs].
      destruct (fo_files _ Hok name seq Hp Hs) as (r & Hr & ->). simpl in Hr. rewrite El in Hr.
      apply elem_of_cons in Hr as [->|Hr]; [done|]. by exists r. }
  destruct io as [err|]; [done|]. destruct dead.
  - rewrite Hd. split; [|split; [|done]].
    + apply Hok'.
      * intros name seq Hp [Heq|Hs]%lookup_insert_is_Some'; [|by apply (fo_dead _ Hok name)].
        subst name. rewrite parse_record_file in Hp by done. injection Hp as <-.
        apply (fo_range _ Hok rec Hrec).
      * intros r Hr. rewrite lookup_insert_ne by by apply Hne. apply (fo_fresh _ Hok r (Hrest r Hr)).
    + intros file x Hx. simpl. rewrite lookup_insert_ne; [done|]. intros <-.
      pose proof (fo_fresh _ Hok rec Hrec). simpl in *. congruence.
  - split; [|done]. apply Hok'; [apply Hok|]. intros r Hr. apply (fo_fresh _ Hok r (Hrest r Hr)).
Qed.

(** ** The store keeps its promises *)

Definition payloads (st : State) : list string := map Payload (live (snd st)).

#[export] Instance FileStore_laws : StoreLaws State compact.
Proof using RL.
  refine {| contents := payloads; store_ok := fs_ok; room := fs_room |}.
  - intros io p st Hok Hroom Hp. pose proof (Append_ok io p st Hok Hroom Hp) as H. simpl.
    destruct (FileStore_Append io p st) as [[err|] st'], H as (Hok' & _ & Hl & Hio);
      (split; [done|]); split; [|done| |done]; unfold payloads; rewrite Hl; [done|].
    by rewrite map_app.
  - intros io st _. simpl. unfold FileStore_Peek, payloads. by destruct (live (snd st)).
  - intros io dead st Hok. pose proof (Drop_ok io dead st Hok) as H. simpl.
    destruct (FileStore_Drop io dead st) as [[err|] st'], H as (Hok' & _ & Hl & Hio);
      (split; [done|]); split; [|done| |done]; unfold payloads; rewrite Hl; [done|].
    by destruct (live (snd st)).
  - intros st Hok. destruct (Open_spec st Hok) as (s & Hs & Hl & Hok'). simpl. rewrite Hs.
    eexists. split; [done|]. split; [done|]. unfold payloads. simpl. by rewrite Hl.
Defined.

(** What can happen to the directory: an operation whose I/O succeeds or fails,
    and the process dying and opening the directory again. *)
Inductive fs_step : State → State → Prop :=
| fs_append io payload st :
    fs_room st → compact payload → fs_step st (snd (FileStore_Append io payload st))
| fs_drop io dead st : fs_step st (snd (FileStore_Drop io dead st))
| fs_restart st s : Open no_io (fst st) = inr s → fs_step st (fst st, s).

Lemma fs_step_ok st st' :
  fs_step st st' → fs_ok st →
  fs_ok st' ∧ ∀ file data, d_dead (fst st) !! file = Some data → d_dead (fst st') !! file = Some data.
Proof using RL.
  destruct 1 as [io payload st Hroom Hc|io dead st|st s Hs]; intros Hok.
  - pose proof (Append_ok io payload st Hok Hroom Hc) as H.
    destruct (FileStore_Append io payload st) as [err st']. destruct H as (? & Hd & _). simpl.
    by rewrite Hd.
  - pose proof (Drop_ok io dead st Hok) as H.
    destruct (FileStore_Drop io dead st) as [err st']. by destruct H as (? & ? & _).
  - destruct (Open_spec st Hok) as (s' & Hs' & _ & Hok'). split; [|done]. congruence.
Qed.

(** C34: crash safety.  After any sequence of appends, drops, failed I/O and
    restarts, a process that dies now and opens the directory again finds
    exactly the records the old one held, in order; and a dead-lettered record's
    file is never overwritten or lost. *)
Theorem FileStore_crash_safe (st st' : State) :
  fs_ok st → rtc fs_step st st' →
  (∃ s, Open no_io (fst st') = inr s ∧ live s = live (snd st') ∧ fs_ok (fst st', s)) ∧
  ∀ file data, d_dead (fst st) !! file = Some data → d_dead (fst st') !! file = Some data.
Proof using RL.
  intros Hok Hr.
  assert (fs_ok st' ∧ ∀ file data, d_dead (fst st) !! file = Some data →
    d_dead (fst st') !! file = Some data) as [Hok' Hdead].
  { induction Hr as [|st st1 st2 Hs _ IH]; [done|]. destruct (fs_step_ok _ _ Hs Hok) as [Hok1 Hd1].
    destruct (IH Hok1) as [? Hd2]. auto. }
  split; [by apply Open_spec|done].
Qed.

(** An empty directory. *)
Lemma fs_ok_empty : fs_ok (mkDisk ∅ ∅, mkFileStore 1 []).
Proof.
  constructor; simpl; try done; try (by constructor);
    try (intros name seq _ [x Hx]; by rewrite lookup_empty in Hx);
    intros r Hr; by apply elem_of_nil in Hr.
Qed.
End invariant.

(** ** A concrete codec *)

Fixpoint str_take (n : nat) (s : string) : string :=
  match n, s with S n, String c s => String c (str_take n s) | _, _ => "" end.
Fixpoint str_drop (n : nat) (s : string) : string :=
  match n, s with S n, String _ s => str_drop n s | _, _ => s end.

Lemma str_take_app a b : str_take (String.length a) (a +:+ b) = a.
Proof. induction a as [|c a IH]; [done|]. exact (f_equal (String c) IH). Qed.

Lemma str_drop_app a b : str_drop (String.length a) (a +:+ b) = b.
Proof. by induction a. Qed.

Lemma length_padded width n : String.length (padded width n) = width.
Proof.
  revert n. induction width as [|width IH]; intros n; [done|]. cbn [padded].
  rewrite length_str_app, IH. simpl. lia.
Qed.

(** The sequence number's digits, then the payload. *)
#[local] Instance sample_codec : RecordJSON := {|
  Marshal_Record := λ rec, Some (formatSeq (Seq rec) +:+ Payload rec);
  Unmarshal_Record := λ data,
    seq ← ParseUint (str_take seqDigits data); Some (mkRecord seq (str_drop seqDigits data)) |}.

#[local] Instance sample_codec_laws : RecordJSONLaws (λ _, True).
Proof.
  intros [seq payload] Hs _. cbn [Seq Payload] in *. eexists. split; [reflexivity|]. cbn [Unmarshal_Record sample_codec Seq Payload].
  assert (Hl : seqDigits = String.length (formatSeq seq)) by (unfold formatSeq; by rewrite length_padded).
  rewrite Hl, str_take_app, str_drop_app, (parse_formatSeq _ Hs). reflexivity.
Qed.

Definition empty_store : State := (mkDisk ∅ ∅, mkFileStore 1 []).
Definition two_appended : State :=
  snd (FileStore_Append None "b" (snd (FileStore_Append None "a" empty_store))).

Lemma FileStore_crash_safe_witness :
  ∃ s, Open no_io (fst two_appended) = inr s ∧ live s = [mkRecord 1 "a"; mkRecord 2 "b"].
Proof.
  destruct (FileStore_crash_safe (λ _, True) empty_store two_appended) as [(s & Hs & Hl & _) _].
  - apply fs_ok_empty.
  - eapply rtc_l; [|apply rtc_once]; apply fs_append; [reflexivity|exact I|reflexivity|exact I].
  - exists s. split; [exact Hs|]. rewrite Hl. reflexivity.
Defined.

(** A delivered record leaves no trace of its sequence number: after a restart
    it is used again. *)
Example delivered_seq_reused :
  let st := snd (FileStore_Append None "a" empty_store) in
  let st := snd (FileStore_Drop None false st) in
  next (snd st) = 2 ∧ (∃ s, Open no_io (fst st) = inr s ∧ next s = 1).
Proof. split; [reflexivity|]. eexists. split; vm_compute; reflexivity. Qed.
