(* ===== verification/EventOutbox.v ===== *)
(** * The runner's event outbox

    Models [internal/runner/eventoutbox.go]: the outbox that carries runner
    lifecycle events to the server, which of the server's answers dead-letter
    an event, and what at-least-once delivery amounts to when the server's handler
    folds the events into their tasks: each takes effect once. *)

From S2P Require Import Prelude AuthScope EventModel TaskModel Store StoreOps StoreLogic ApiBase Timeline Evolution.
From S2P Require Import ApiTaskSpec ApiRunner Outbox FileStore.

(** [connect.CodeOf] of no error is not a permanent code. *)
Definition isPermanentError (err : option Err) : bool :=
  match err with
  | None => false
  | Some e =>
      match CodeOf e with
      | CodeNotFound | CodeInvalidArgument | CodePermissionDenied => true
      | _ => false
      end
  end.

(** The [Deliver] closure of [NewRunnerEventOutbox], called by a runner whose
    key authenticates as [caller]; the client's transport delivers. *)
Definition Deliver (caller : UserInfo) (ev : RunnerEvent) : M (bool * option Err) :=
  r ← catch (Server_SubmitRunnerEvents caller [ev]);
  let err := match r with inl e => Some e | inr _ => None end in
  mret (isPermanentError err, err).

(** How the engine reads the closure's answer. *)
Definition deliver_result (answer : bool * option Err) : DeliverResult :=
  match answer with
  | (_, None) => Delivered
  | (true, Some _) => Permanent
  | (false, Some _) => Transient
  end.

(** ** One delivery *)

(** A task but for the times of its row, which the fold does not read. *)
Definition timeless (t : Task) : Task := set_AutoArchive 0 (set_Times 0 0 t).

Lemma timeless_stored now r t : timeless (stored_task now r t) = timeless t.
Proof. by destruct t. Qed.

(** A writer's scopes do not depend on what the fold changes. *)
Definition may_write (caller : UserInfo) (t : Task) : Prop :=
  AllowOp (User_Scopes caller) OpTaskWrite = true ∧
  Allow (User_Scopes caller) OpTaskWrite (ScopeAttr t) = true.

Lemma ScopeAttr_fold t e : ScopeAttr (snd (ApplyRunnerEvent t e)) = ScopeAttr t.
Proof.
  apply (ApplyRunnerEvent_cases (λ r, ScopeAttr (snd r) = ScopeAttr t)); [done|].
  intros _ _. repeat split; intros _; task_cases t; done.
Qed.

Lemma timeless_fold t e : timeless (snd (ApplyRunnerEvent t e)) = snd (ApplyRunnerEvent (timeless t) e).
Proof.
  unfold ApplyRunnerEvent. destruct (RE_Reconcile e); [done|].
  replace (Task_Version (timeless t)) with (Task_Version t) by (by destruct t).
  destruct (negb _ && negb _); [done|].
  destruct (String.eqb _ RunnerEventStarted); [task_cases t; done|].
  destruct (String.eqb _ RunnerEventStopped); [task_cases t; done|].
  destruct (String.eqb _ RunnerEventFailed); [task_cases t; done|done].
Qed.

Section delivery.
Context (caller : UserInfo) (i : Z).

(** What the server holds of task [i], for the runner's org. *)
Definition view (w : World) : option Task :=
  timeless ∘ toModelTask <$> select_task (committed w) i (User_OrgID caller).

(** An event is folded into its own task. *)
Definition folded (t : Task) (e : RunnerEvent) : Task :=
  if RE_TaskID e =? i then snd (ApplyRunnerEvent t e) else t.

Lemma view_at w tb ns w' : at_ w tb ns w' → view w' =
  timeless ∘ toModelTask <$> select_task tb i (User_OrgID caller).
Proof. intros Hat. unfold view. by rewrite (at_committed _ _ _ _ Hat). Qed.

(** An error that would dead-letter the event is the server's refusal of it, not a
    fault of its database. *)
Lemma submit_event_refusal e w :
  world_ok w → wp (submit_event caller e) (λ r _, match r with
    | inl err => isPermanentError (Some err) = true → submit_err caller e (committed w) err
    | inr _ => True
    end) w.
Proof.
  intros Hw. pose proof (at_refl w Hw) as Hat. unfold submit_event.
  wps; try done; unfold submit_err; try (intros Hp; vm_compute in Hp; discriminate Hp).
  - intros _. by rewrite H0.
  - intros _. by rewrite H0.
Qed.

Lemma put_task_view tb t row e t' now :
  Row_id row = RE_TaskID e → Row_org_id row = User_OrgID caller →
  select_task tb (RE_TaskID e) (User_OrgID caller) = Some row →
  snd (ApplyRunnerEvent (toModelTask row) e) = t' →
  timeless ∘ toModelTask <$> select_task tb i (User_OrgID caller) = Some t →
  timeless ∘ toModelTask <$> select_task (put_task t' now tb) i (User_OrgID caller) = Some (folded t e).
Proof.
  intros Hid Horg Hsel Ht' Hview.
  destruct (rtc_task_step_identity (toModelTask row) t') as [Hsame Hcan].
  { apply rtc_once. rewrite <- Ht'. apply step_event. }
  pose proof Hsame as (Hti & Hto & _). simpl in Hti, Hto.
  unfold put_task. rewrite Hti, Hto, Hid, Horg, Hsel. unfold select_task in *. simpl. unfold folded.
  destruct (Z.eqb_spec (RE_TaskID e) i) as [Hi|Hne]; [rewrite Hi in *|by rewrite lookup_insert_ne].
  rewrite lookup_insert_eq. simpl. rewrite Horg, Z.eqb_refl. simpl.
  rewrite toModelTask_updateRow; [|by apply Hcan, toModelTask_canonical|done].
  rewrite timeless_stored, <- Ht', timeless_fold. rewrite Hsel in Hview. simpl in Hview. by injection Hview as <-.
Qed.

(** What a call of [Deliver] does to the task: an answered success has folded the
    event in, an error has changed nothing, and one that is permanent is a refusal. *)
Lemma Deliver_spec e w t :
  world_ok w → view w = Some t → wp (Deliver caller e) (λ r w', world_ok w' ∧
    ∃ permanent err, r = inr (permanent, err) ∧
      match err with
      | None => view w' = Some (folded t e) ∧ (RE_TaskID e = i → may_write caller t)
      | Some _ => view w' = Some t ∧ (permanent = true → RE_TaskID e = i → ¬ may_write caller t)
      end) w.
Proof.
  intros Hw Hv. unfold Deliver. apply wp_bind, wp_catch. unfold Server_SubmitRunnerEvents.
  assert (Hscope : ∀ row, select_task (committed w) i (User_OrgID caller) = Some row →
    ScopeAttr t = ScopeAttr (toModelTask row)).
  { intros row Hr. unfold view in Hv. rewrite Hr in Hv. simpl in Hv. injection Hv as <-. by destruct row. }
  destruct (AllowOp (User_Scopes caller) OpTaskWrite) eqn:Hop; simpl; cycle 1.
  { apply wp_raise, wp_ret. split; [done|]. eexists _, _. split; [done|]. split; [done|].
    intros _ _ [H _]. congruence. }
  apply wp_bind.
  pose proof (HandlerSpec_run _ _ _ w _ _ (submit_event_spec caller e) Hw (surjective_pairing _)) as Hout.
  pose proof (submit_event_refusal e w Hw) as Href. unfold wp in *.
  destruct (submit_event caller e w) as [[err|[]] w1]; simpl in Hout |- *.
  - destruct Hout as [Hat _]. split; [exact (at_world_ok _ _ _ _ Hat)|]. eexists _, _. split; [done|].
    rewrite (view_at _ _ _ _ Hat). split; [done|]. intros Hp Hi [_ Ha]. specialize (Href Hp).
    unfold submit_err in Href. rewrite Hi in Href. unfold view in Hv.
    destruct (select_task _ _ _) as [row|]; [|done]. rewrite (Hscope row eq_refl) in Ha. destruct Href. congruence.
  - destruct Hout as (tb & ns & Hat & row & Hsel & Hallow & Happ).
    split; [exact (at_world_ok _ _ _ _ Hat)|]. eexists _, _. split; [done|]. rewrite (view_at _ _ _ _ Hat).
    destruct (select_task_ok _ _ _ _ _ (proj2 Hw) Hsel) as (Hid & Horg & _).
    split; [|intros Hi; split; [done|]; rewrite Hi in Hsel; by rewrite (Hscope row Hsel)].
    destruct (ApplyRunnerEvent (toModelTask row) e) as [[] t'] eqn:Ha.
    + destruct Happ as (ev & _ & Hadd & _). rewrite <- (put_task_view (committed w) t row e t' (clock w));
        [|done..|by rewrite Ha|exact Hv].
      unfold select_task. by rewrite (add_events_tasks _ _ _ _ Hadd).
    + destruct Happ as [-> _]. unfold folded. destruct (Z.eqb_spec (RE_TaskID e) i) as [Hi|]; [|exact Hv].
      unfold view in Hv. rewrite Hi in Hsel. rewrite Hsel in Hv |- *. simpl in *. injection Hv as <-.
      rewrite <- timeless_fold, Ha. f_equal.
      assert (Hsnd : t' = snd (ApplyRunnerEvent (toModelTask row) e)) by (by rewrite Ha). simpl.
      rewrite Hsnd. unfold ApplyRunnerEvent in Ha |- *. clear -Ha. revert Ha.
      unfold applyRunnerEventStarted, applyRunnerEventStopped, applyRunnerEventFailed.
      repeat case_match; intros; simplify_eq/=; done.
Qed.
End delivery.

(** ** Effectively once *)

Section effect.
Context (json_Unmarshal : string → option RunnerEvent) (caller : UserInfo) (i : Z).

Definition decode (payloads : list string) : list RunnerEvent := omap json_Unmarshal payloads.

(** The task after the events of a list of payloads, those of other tasks left out. *)
Definition fold_task (t : Task) (payloads : list string) : Task :=
  fold_events t (filter (λ e, RE_TaskID e = i) (decode payloads)).

(** The messages that left the queue as delivered. *)
Definition delivered (finished : list (string * bool)) : list string :=
  map fst (filter (λ m, m.2 = false) finished).

Fixpoint kept {A} (l : list A) (flags : list bool) : list A :=
  match l, flags with
  | x :: l, true :: flags => x :: kept l flags
  | _ :: l, false :: flags => kept l flags
  | _, _ => []
  end.

Lemma kept_app {A} (l l' : list A) f f' :
  length f = length l → kept (l ++ l') (f ++ f') = kept l f ++ kept l' f'.
Proof.
  revert f. induction l as [|x l IH]; intros [|[] f] Hl; simpl in *; try done;
    rewrite IH by lia; done.
Qed.

Lemma fold_task_app t l l' : fold_task t (l ++ l') = fold_task (fold_task t l) l'.
Proof. unfold fold_task, decode, fold_events. by rewrite omap_app, filter_app, foldl_app. Qed.

Lemma fold_task_one t p e : json_Unmarshal p = Some e → fold_task t [p] = folded i t e.
Proof.
  intros He. unfold fold_task, decode, folded. simpl. rewrite He, filter_cons, filter_nil.
  destruct (Z.eqb_spec (RE_TaskID e) i); by case_decide.
Qed.

Lemma fold_task_skip t p : (∀ e, json_Unmarshal p = Some e → RE_TaskID e ≠ i) → fold_task t [p] = t.
Proof.
  intros Hp. destruct (json_Unmarshal p) as [e|] eqn:He.
  - rewrite (fold_task_one _ _ _ He). unfold folded. by destruct (Z.eqb_spec (RE_TaskID e) i); [destruct (Hp e)|].
  - unfold fold_task, decode. simpl. by rewrite He.
Qed.

Lemma fold_task_twice t p : fold_task (fold_task t [p]) [p] = fold_task t [p].
Proof.
  destruct (json_Unmarshal p) as [e|] eqn:He; [|by rewrite fold_task_skip by naive_solver].
  rewrite !(fold_task_one _ _ _ He). unfold folded. destruct (_ =? _); [|done]. apply ApplyRunnerEvent_idempotent.
Qed.

Lemma ScopeAttr_fold_task t l : ScopeAttr (fold_task t l) = ScopeAttr t.
Proof.
  unfold fold_task, fold_events. generalize (filter (λ e, RE_TaskID e = i) (decode l)). intros es. revert t.
  induction es as [|e es IH]; intros t; [done|]. simpl. by rewrite IH, ScopeAttr_fold.
Qed.

(** Which executions took effect: what an answer says of it.  An execution whose
    answer the outbox has not got counts as a transient failure. *)
Definition landing (t : Task) (a : string * DeliverResult) (landed : bool) : Prop :=
  match a.2 with Delivered => landed = true | Permanent => landed = false | Transient => True end ∧
  ∀ e, json_Unmarshal a.1 = Some e → RE_TaskID e = i →
    (landed = true → may_write caller t) ∧ (a.2 = Permanent → ¬ may_write caller t).

(** A run of copies of one payload folds like a single one. *)
Lemma fold_copies t p (l : list string) : Forall (λ q, q = p) l → l ≠ [] → fold_task t l = fold_task t [p].
Proof.
  induction 1 as [|q l -> Hl IH]; intros Hne; [done|]. destruct l as [|q l]; [done|].
  specialize (IH ltac:(done)). pose proof Hl as [-> _]%Forall_cons.
  change (p :: p :: l) with ([p] ++ [p] ++ l). rewrite !fold_task_app, fold_task_twice, <- fold_task_app. exact IH.
Qed.

(** One block of attempts, all for [p]: once if any of them landed. *)
Lemma fold_block v t p (block : list (string * DeliverResult)) (flags : list bool) :
  Forall (λ a, a.1 = p) block → Forall2 (landing v) block flags →
  ∃ once : bool, fold_task t (map fst (kept block flags)) = fold_task t (if once then [p] else []) ∧
    ((p, Delivered) ∈ block → once = true) ∧
    (∀ e, json_Unmarshal p = Some e → RE_TaskID e = i → (p, Permanent) ∈ block → once = false).
Proof.
  intros Hp Hl.
  assert (Hall : Forall (λ q, q = p) (map fst (kept block flags))).
  { clear Hl. revert flags. induction Hp as [|a block Ha _ IH]; intros [|[] flags]; simpl;
      try done; try apply IH. constructor; [done|apply IH]. }
  assert (Hd : (p, Delivered) ∈ block → map fst (kept block flags) ≠ []).
  { clear Hp Hall. induction Hl as [|a f block flags Ha _ IH]; simpl; [by intros ?%elem_of_nil|].
    intros [<-|Hin]%elem_of_cons; [destruct Ha as [Ha _]; simpl in Ha; by rewrite Ha|].
    destruct f; [done|by apply IH]. }
  assert (Hland : ∀ e, json_Unmarshal p = Some e → RE_TaskID e = i → map fst (kept block flags) ≠ [] → may_write caller v).
  { intros e He Hi. clear Hall Hd. revert Hp.
    induction Hl as [|a f block flags [_ Ha] _ IH]; [done|]. intros [Hpa Hp]%Forall_cons.
    destruct f; simpl; [|by apply IH]. intros _. rewrite <- Hpa in He. by apply (Ha e). }
  assert (Hperm : ∀ e, json_Unmarshal p = Some e → RE_TaskID e = i → (p, Permanent) ∈ block → ¬ may_write caller v).
  { intros e He Hi Hin. clear -Hl Hin He Hi. induction Hl as [|a f block flags [_ Ha] _ IH]; [by apply elem_of_nil in Hin|].
    apply elem_of_cons in Hin as [<-|Hin]; [by apply (Ha e)|by apply IH]. }
  destruct (map fst (kept block flags)) as [|q l] eqn:E.
  - exists false. split; [done|]. split; [|done]. intros Hin. by apply Hd in Hin.
  - exists true. split; [by apply fold_copies|]. split; [done|]. intros e He Hi Hin.
    destruct (Hperm e He Hi Hin). by apply (Hland e He Hi).
Qed.

(** A finished message: exactly the delivered ones count. *)
Lemma fold_concluded v t m block flags :
  concluded json_Unmarshal m block → Forall2 (landing v) block flags →
  fold_task t (map fst (kept block flags)) = fold_task t (delivered [m]).
Proof.
  destruct m as [p dead]. intros [Hp Hdone] Hl. simpl in Hdone, Hp.
  destruct (fold_block v t p block flags Hp Hl) as (once & -> & Hdel & Hperm).
  unfold delivered. rewrite filter_cons, filter_nil. simpl.
  destruct dead; (case_decide; [|done]) || (case_decide; [done|]); simpl.
  - destruct once; [|done]. apply fold_task_skip. intros e He Hi.
    destruct Hdone as [Hn|Hin]; [congruence|]. by specialize (Hperm e He Hi Hin).
  - by rewrite Hdel.
Qed.

Lemma fold_blocks v finished : ∀ blocks t flags,
  Forall2 (concluded json_Unmarshal) finished blocks → Forall2 (landing v) (concat blocks) flags →
  fold_task t (map fst (kept (concat blocks) flags)) = fold_task t (delivered finished).
Proof.
  induction finished as [|m finished IH]; intros blocks t flags Hb Hl.
  - by apply Forall2_nil_inv_l in Hb as ->.
  - apply Forall2_cons_inv_l in Hb as (block & blocks' & Hm & Hb & ->). simpl in Hl |- *.
    apply Forall2_app_inv_l in Hl as (f1 & f2 & Hl1 & Hl2 & ->).
    rewrite kept_app by (symmetry; by eapply Forall2_length).
    rewrite map_app, fold_task_app, (fold_concluded v t m block f1) by done. rewrite (IH _ _ _ Hb Hl2).
    rewrite <- fold_task_app. f_equal. unfold delivered. change (m :: finished) with ([m] ++ finished).
    by rewrite filter_app, map_app.
Qed.

(** A dead letter of the task's was refused, or was no event. *)
Lemma dead_refused v finished : ∀ blocks flags p e,
  Forall2 (concluded json_Unmarshal) finished blocks → Forall2 (landing v) (concat blocks) flags →
  (p, true) ∈ finished → json_Unmarshal p = Some e → RE_TaskID e = i → ¬ may_write caller v.
Proof.
  induction finished as [|m finished IH]; intros blocks flags p e Hb Hl Hin He Hi; [by apply elem_of_nil in Hin|].
  apply Forall2_cons_inv_l in Hb as (block & blocks' & [_ Hm] & Hb & ->). simpl in Hl.
  apply Forall2_app_inv_l in Hl as (f1 & f2 & Hl1 & Hl2 & ->).
  apply elem_of_cons in Hin as [<-|Hin]; [|by eapply IH]. simpl in Hm. destruct Hm as [Hn|Hm]; [congruence|].
  clear -Hm Hl1 He Hi. induction Hl1 as [|a f block flags [_ Ha] _ IH]; [by apply elem_of_nil in Hm|].
  apply elem_of_cons in Hm as [<-|Hm]; [by apply (Ha e)|by apply IH].
Qed.

Context {S : Type} {ST : Store S} (json_Marshal : RunnerEvent → option string).
Context `{!StoreLaws S (marshalled json_Marshal)}.

(** The outbox and the server it delivers to.  The client may send a call more than
    once, a reply may be lost, and a call it has no reply to fails with one of the
    client's own codes, none of which is permanent.  What else the server does
    leaves the task alone; it may change the rest, and how the next statements fail. *)
Inductive delivery_step : Engine S RunnerEvent * History * World → Engine S RunnerEvent * History * World → Prop :=
| ds_engine st st' w :
    outbox_step json_Marshal json_Unmarshal st st' → h_attempts (snd st') = h_attempts (snd st) →
    delivery_step (st, w) (st', w)
| ds_answered pick e h payload ev w w' answer :
    eng_pc e = Delivering payload ev → Deliver caller ev w = (inr answer, w') →
    delivery_step (e, h, w)
      (run_step json_Unmarshal None (deliver_result answer) pick e, log [] [(payload, deliver_result answer)] [] h, w')
| ds_unanswered e h payload ev w w' r :
    eng_pc e = Delivering payload ev → Deliver caller ev w = (r, w') →
    delivery_step (e, h, w) (e, log [] [(payload, Transient)] [] h, w')
| ds_failed pick e h payload ev w :
    eng_pc e = Delivering payload ev →
    delivery_step (e, h, w)
      (run_step json_Unmarshal None Transient pick e, log [] [(payload, Transient)] [] h, w)
| ds_elsewhere st w w' :
    world_ok w' → view caller i w' = view caller i w → delivery_step (st, w) (st, w').

(** Every step is one of the outbox's, but for a call sent without an answer. *)
Definition delivery_inv (t : Task) (st : Engine S RunnerEvent * History * World) : Prop :=
  outbox_inv json_Marshal json_Unmarshal st.1 ∧ world_ok st.2 ∧ ∃ flags,
    Forall2 (landing t) (h_attempts st.1.2) flags ∧
    view caller i st.2 = Some (fold_task t (map fst (kept (h_attempts st.1.2) flags))).

Lemma landing_snoc t attempts flags a landed :
  Forall2 (landing t) attempts flags → landing t a landed →
  Forall2 (landing t) (attempts ++ [a]) (flags ++ [landed]) ∧
  map fst (kept (attempts ++ [a]) (flags ++ [landed])) =
    map fst (kept attempts flags) ++ (if landed then [a.1] else []).
Proof.
  intros Hf Ha. split; [by apply Forall2_app; [|constructor]|].
  rewrite kept_app by (symmetry; by eapply Forall2_length). rewrite map_app. by destruct landed.
Qed.

(** One execution: a success is folded in, an error is not. *)
Lemma executed t attempts flags payload ev w r w' :
  world_ok w → json_Unmarshal payload = Some ev → Forall2 (landing t) attempts flags →
  view caller i w = Some (fold_task t (map fst (kept attempts flags))) → Deliver caller ev w = (r, w') →
  ∃ answer, r = inr answer ∧ world_ok w' ∧
    ∀ result, result = deliver_result answer ∨ result = Transient → ∃ flags',
      Forall2 (landing t) (attempts ++ [(payload, result)]) flags' ∧
      view caller i w' = Some (fold_task t (map fst (kept (attempts ++ [(payload, result)]) flags'))).
Proof.
  intros Hw Hu Hf Hv Hrun. pose proof (Deliver_spec caller i ev w _ Hw Hv) as H. unfold wp in H.
  rewrite Hrun in H. destruct H as (Hw' & permanent & err & -> & H). eexists. split; [done|]. split; [done|].
  assert (Hcan : ∀ t', may_write caller (fold_task t t') ↔ may_write caller t).
  { intros t'. unfold may_write. by rewrite ScopeAttr_fold_task. }
  intros result Hres. destruct err as [err|]; destruct H as [Hview Hscope].
  - exists (flags ++ [false]). destruct (landing_snoc t attempts flags (payload, result) false Hf) as [? ->].
    + split; [by destruct Hres as [->| ->], permanent|]. intros e He Hi. split; [done|].
      intros Hp Hm. simpl in *. replace e with ev in Hi by congruence.
      apply Hscope; [|done|by apply Hcan]. by destruct Hres as [->| ->], permanent.
    + split; [done|]. by rewrite app_nil_r.
  - exists (flags ++ [true]). destruct (landing_snoc t attempts flags (payload, result) true Hf) as [? ->].
    + split; [destruct permanent; by destruct Hres as [->| ->]|]. intros e He Hi. simpl in *.
      replace e with ev in Hi by congruence. split; [intros _; by apply (Hcan (map fst (kept attempts flags))), Hscope|].
      destruct permanent; by destruct Hres as [->| ->].
    + split; [done|]. by rewrite fold_task_app, (fold_task_one _ _ _ Hu).
Qed.

Lemma delivery_step_inv t st st' : delivery_step st st' → delivery_inv t st → delivery_inv t st'.
Proof.
  assert (Hdec : ∀ e h payload ev, outbox_inv json_Marshal json_Unmarshal (e, h) →
    eng_pc e = Delivering payload ev → json_Unmarshal payload = Some ev).
  { intros e h payload ev [_ _ (blocks & cur & _ & _ & _ & Hpc)] He. simpl in Hpc.
    unfold pc_ok in Hpc. rewrite He in Hpc. by destruct Hpc. }
  assert (Hrun : ∀ e h payload ev result pick, outbox_inv json_Marshal json_Unmarshal (e, h) →
    eng_pc e = Delivering payload ev → outbox_inv json_Marshal json_Unmarshal
      (run_step json_Unmarshal None result pick e, log [] [(payload, result)] [] h)).
  { intros e h payload ev result pick Hinv He.
    pose proof (run_step_inv json_Marshal json_Unmarshal None result pick e h Hinv) as H.
    unfold attempt_of, finish_of in H. by rewrite He in H. }
  destruct 1 as [st st' w Hs Ha|pick e h payload ev w w' answer He Hd|e h payload ev w w' r He Hd
    |pick e h payload ev w He|st w w' Hw' Hv]; intros (Hinv & Hw & flags & Hf & Hview); simpl in *.
  - split; [by eapply outbox_step_inv|]. split; [done|]. exists flags. simpl. by rewrite Ha.
  - destruct (executed _ _ _ _ _ _ _ _ Hw (Hdec _ _ _ _ Hinv He) Hf Hview Hd) as (a & [= <-] & Hw' & H).
    split; [by eapply Hrun|]. split; [done|]. by apply H; left.
  - destruct (executed _ _ _ _ _ _ _ _ Hw (Hdec _ _ _ _ Hinv He) Hf Hview Hd) as (a & _ & Hw' & H).
    split; [|split; [done|by apply H; right]].
    destruct Hinv as [Hok Hdur (blocks & cur & Ha & Hb & Hc & Hpc)]. simpl in *.
    eapply (keep_inv _ _ e e h cur blocks); try done; unfold pc_ok in *; rewrite He in *; destruct Hpc.
    + apply Forall_app. split; [done|]. by constructor.
    + done.
  - split; [by eapply Hrun|]. split; [done|]. exists (flags ++ [false]). simpl.
    destruct (landing_snoc t (h_attempts h) flags (payload, Transient) false Hf) as [? ->]; [by split|].
    split; [done|]. by rewrite app_nil_r.
  - split; [done|]. split; [done|]. exists flags. simpl. by rewrite Hv.
Qed.

(** C9: effectively once.  The outbox serves every task of the runner, sends an event
    until the server answers it, and may be cut off, crash and resume anywhere; the
    server may fail anywhere.  For a task that nothing else changes meanwhile, what
    the server holds of it is then the fold, in the order they were enqueued, of its
    delivered events, each exactly once, and of the event at the head of the queue
    possibly already; no dead-lettered event took effect, and one that is the task's
    was refused, the runner's key not being allowed to write the task. *)
Theorem effectively_once (s : S) (e : Engine S RunnerEvent) (h : History) (w0 w : World) (t : Task) :
  store_ok (marshalled json_Marshal) s → world_ok w0 → view caller i w0 = Some t →
  rtc delivery_step (started s, history json_Marshal s, w0) (e, h, w) →
  h_durable h = map fst (h_finished h) ++ contents (marshalled json_Marshal) (eng_store e) ∧
  (∃ pending, (pending = [] ∨ ∃ p, head (contents (marshalled json_Marshal) (eng_store e)) = Some p ∧ pending = [p]) ∧
     view caller i w = Some (fold_task t (delivered (h_finished h) ++ pending))) ∧
  (∀ p ev, (p, true) ∈ h_finished h → json_Unmarshal p = Some ev → RE_TaskID ev = i → ¬ may_write caller t).
Proof.
  intros Hs Hw Hv Hr.
  assert (Hinv : delivery_inv t (e, h, w)).
  { assert (H0 : delivery_inv t (started s, history json_Marshal s, w0)).
    { split; [by apply started_inv|]. split; [done|]. exists []. by split; [constructor|]. }
    revert H0. induction Hr; eauto using delivery_step_inv. }
  destruct Hinv as ([_ Hdur (blocks & cur & Ha & Hb & Hc & _)] & _ & flags & Hf & Hview). simpl in *.
  rewrite Ha in *. apply Forall2_app_inv_l in Hf as (f1 & f2 & Hf1 & Hf2 & ->).
  split; [done|]. split; [|intros p ev Hin; by eapply dead_refused].
  rewrite kept_app in Hview by (symmetry; by eapply Forall2_length).
  rewrite map_app, fold_task_app, (fold_blocks t _ _ _ _ Hb Hf1) in Hview. rewrite Hview.
  destruct (head (contents _ (eng_store e))) as [p|] eqn:Eh.
  - destruct (fold_block t (fold_task t (delivered (h_finished h))) p cur f2) as (k & -> & _); [|done|].
    { eapply Forall_impl; [exact Hc|]. naive_solver. }
    exists (if k then [p] else []). split; [destruct k; eauto|]. by rewrite fold_task_app.
  - destruct Hc as [|a cur Ha' _]; [|done]. apply Forall2_nil_inv_l in Hf2 as ->. simpl.
    exists []. split; [by left|]. by rewrite app_nil_r.
Qed.
End effect.

(** ** A concrete run: one event, sent twice, whose first answer is lost. *)

#[local] Existing Instance sample_codec.

Definition event_Marshal (ev : RunnerEvent) : option string := Some (RE_Event ev).
Definition event_Unmarshal (s : string) : option RunnerEvent := Some (mkRunnerEvent 7 s 1 false "").

#[local] Instance event_codec_laws : RecordJSONLaws (marshalled event_Marshal).
Proof. intros rec Hs _. by apply sample_codec_laws. Defined.

Definition sample_event : RunnerEvent := mkRunnerEvent 7 RunnerEventStarted 1 false "".

Definition queued : Engine State RunnerEvent * History :=
  (snd (Enqueue event_Marshal None sample_event (started empty_store)),
   log [RunnerEventStarted] [] [] (history event_Marshal empty_store)).

Definition drained : Engine State RunnerEvent * History :=
  runs event_Marshal event_Unmarshal
    [Delivered; Transient; Delivered; Delivered; Delivered] queued.

Lemma queued_reachable :
  outbox_step event_Marshal event_Unmarshal
    (started empty_store, history event_Marshal empty_store) queued.
Proof.
  unfold queued. change [RunnerEventStarted] with
    (match fst (Enqueue event_Marshal None sample_event (started empty_store)) with
     | None => [RunnerEventStarted] | Some _ => [] end).
  eapply (ob_enqueue _ _ None sample_event); [vm_compute; reflexivity|reflexivity|].
  apply surjective_pairing.
Defined.

Lemma delivered_reachable :
  rtc (outbox_step event_Marshal event_Unmarshal)
    (started empty_store, history event_Marshal empty_store) drained.
Proof. eapply rtc_l; [apply queued_reachable|apply runs_steps]. Defined.

Lemma outbox_at_least_once_witness :
  h_durable (snd drained) = [RunnerEventStarted] ∧
  h_finished (snd drained) = [(RunnerEventStarted, false)] ∧
  contents (marshalled event_Marshal) (eng_store (fst drained)) = [].
Proof.
  pose proof (outbox_at_least_once event_Marshal event_Unmarshal empty_store
    (fst drained) (snd drained) fs_ok_empty) as H.
  rewrite <- surjective_pairing in H. destruct (H delivered_reachable) as [Hd _].
  assert (Hf : h_finished (snd drained) = [(RunnerEventStarted, false)]) by (vm_compute; reflexivity).
  assert (Hdur : h_durable (snd drained) = [RunnerEventStarted]) by (vm_compute; reflexivity).
  rewrite Hf, Hdur in Hd. split; [exact Hdur|]. split; [exact Hf|].
  apply (app_inv_head [RunnerEventStarted]). symmetry. exact Hd.
Defined.

Lemma outbox_drains_witness :
  ∃ n, contents (marshalled event_Marshal)
    (eng_store (settle event_Unmarshal n (wake_pending (fst queued)))) = [].
Proof.
  apply (outbox_drains event_Marshal event_Unmarshal empty_store (fst queued) (snd queued)).
  - apply fs_ok_empty.
  - rewrite <- surjective_pairing. apply rtc_once, queued_reachable.
  - reflexivity.
Defined.

(** The first call is executed and its reply lost; the client gives up on it, the
    outbox delivers again, is answered, and drops the event. *)
Definition sample_delivery : Engine State RunnerEvent * History * World → Engine State RunnerEvent * History * World → Prop :=
  delivery_step event_Unmarshal sample_caller 7 event_Marshal.

Definition advance (st : Engine State RunnerEvent * History * World) : Engine State RunnerEvent * History * World :=
  let '(e, h, w) := st in
  (run_step event_Unmarshal None Transient false e,
   log [] (attempt_of (eng_pc e) Transient) (finish_of event_Marshal None e) h, w).

Definition sent (st : Engine State RunnerEvent * History * World) : Engine State RunnerEvent * History * World :=
  let '(e, h, w) := st in
  (e, log [] [(RunnerEventStarted, Transient)] [] h, snd (Deliver sample_caller sample_event w)).

Definition answered (st : Engine State RunnerEvent * History * World) : Engine State RunnerEvent * History * World :=
  let '(e, h, w) := st in
  (run_step event_Unmarshal None Delivered false e, log [] [(RunnerEventStarted, Delivered)] [] h,
   snd (Deliver sample_caller sample_event w)).


Lemma advance_step st : (∀ p ev, eng_pc st.1.1 ≠ Delivering p ev) → sample_delivery st (advance st).
Proof.
  destruct st as [[e h] w]. simpl. intros Hpc. apply ds_engine; [apply ob_run|].
  simpl. unfold attempt_of. destruct (eng_pc e); try (by rewrite app_nil_r). by destruct (Hpc payload msg).
Defined.

Lemma sent_step st : eng_pc st.1.1 = Delivering RunnerEventStarted sample_event → sample_delivery st (sent st).
Proof. destruct st as [[e h] w]. intros Hpc. eapply ds_unanswered; [exact Hpc|apply surjective_pairing]. Defined.

Lemma failed_step st : eng_pc st.1.1 = Delivering RunnerEventStarted sample_event → sample_delivery st (advance st).
Proof.
  destruct st as [[e h] w]. intros Hpc. unfold advance, attempt_of, finish_of. simpl in Hpc.
  rewrite Hpc. by eapply ds_failed.
Defined.

Lemma answered_step st :
  eng_pc st.1.1 = Delivering RunnerEventStarted sample_event →
  fst (Deliver sample_caller sample_event st.2) = inr (false, None) → sample_delivery st (answered st).
Proof.
  destruct st as [[e h] w]. simpl. intros Hpc Hans. eapply (ds_answered _ _ _ _ false _ _ _ _ _ _ (false, None)); [exact Hpc|].
  rewrite <- Hans. apply surjective_pairing.
Defined.

Definition resent_1 := advance (queued, sample_world).
Definition resent_2 := advance (sent resent_1).
Definition resent_3 := advance resent_2.
Definition resent : Engine State RunnerEvent * History * World := advance (answered resent_3).

Lemma resent_reachable :
  rtc sample_delivery (started empty_store, history event_Marshal empty_store, sample_world) resent.
Proof.
  apply (rtc_l _ _ (queued, sample_world)); [apply ds_engine; [apply queued_reachable|vm_compute; reflexivity]|].
  apply (rtc_l _ _ resent_1); [apply advance_step; intros ? ? Hc; vm_compute in Hc; discriminate Hc|].
  apply (rtc_l _ _ (sent resent_1)); [apply sent_step; vm_compute; reflexivity|].
  apply (rtc_l _ _ resent_2); [apply failed_step; vm_compute; reflexivity|].
  apply (rtc_l _ _ resent_3); [apply advance_step; intros ? ? Hc; vm_compute in Hc; discriminate Hc|].
  apply (rtc_l _ _ (answered resent_3)); [apply answered_step; vm_compute; reflexivity|].
  apply rtc_once, advance_step. intros ? ? Hc. vm_compute in Hc. discriminate Hc.
Defined.

Lemma effectively_once_witness :
  h_attempts resent.1.2 = [(RunnerEventStarted, Transient); (RunnerEventStarted, Transient); (RunnerEventStarted, Delivered)] ∧
  view sample_caller 7 resent.2 =
    Some (fold_task event_Unmarshal 7 (timeless (toModelTask sample_row)) [RunnerEventStarted]).
Proof.
  split; [vm_compute; reflexivity|].
  pose proof resent_reachable as Hr. unfold sample_delivery in Hr.
  assert (Hpair : resent = (resent.1.1, resent.1.2, resent.2)) by (by destruct resent as [[? ?] ?]).
  rewrite Hpair in Hr. clear Hpair.
  destruct (effectively_once event_Unmarshal sample_caller 7 event_Marshal empty_store resent.1.1 resent.1.2
    sample_world resent.2 (timeless (toModelTask sample_row))) as (_ & (pending & Hp & Hview) & _).
  - apply fs_ok_empty.
  - apply sample_world_ok.
  - vm_compute. reflexivity.
  - exact Hr.
  - rewrite Hview. destruct Hp as [->|(p & Hp & _)]; [vm_compute; reflexivity|vm_compute in Hp; discriminate Hp].
Defined.

(** Why nothing else may act on the task meanwhile: a user asks a running task to
    start again after the event landed, and its second delivery takes the wish for
    one it has already fulfilled. *)
Lemma redelivery_erases_start :
  let once := snd (ApplyRunnerEvent sample_task sample_event) in
  let (asked, wanted) := Start once in
  asked = true ∧ Task_Command wanted = TaskCommandStart ∧
  Task_Command (snd (ApplyRunnerEvent wanted sample_event)) = TaskCommandNone.
Proof. vm_compute. repeat split. Qed.
