(* ===== verification/Prog.v ===== *)
(** * Programs of effects

    The runner's goroutines, as trees of effects: what a goroutine asks of the
    world it shares with the others, and how it goes on with each answer.  A
    program logic over them: a predicate transformer for each effect lifts to
    programs, and what it proves holds of every run and at every step. *)

From S2P Require Import Prelude.

Section prog.
Context {E : Set → Type}.

Inductive Prog (A : Type) : Type :=
| Ret (a : A)
| Do {R : Set} (op : E R) (k : R → Prog A).
Arguments Ret {A} a.
Arguments Do {A R} op k.

Fixpoint prog_bind {A B} (f : A → Prog B) (p : Prog A) : Prog B :=
  match p with
  | Ret a => f a
  | Do op k => Do op (λ r, prog_bind f (k r))
  end.

Definition trigger {R : Set} (op : E R) : Prog R := Do op Ret.

(** [for _, x := range l]. *)
Fixpoint prog_each {A} (l : list A) (f : A → Prog unit) : Prog unit :=
  match l with
  | [] => Ret tt
  | x :: l => prog_bind (λ _, prog_each l f) (f x)
  end.

(** ** Runs

    [op_step] says which answers the world may give, and what they do to it. *)

Section exec.
Context {S : Type} (op_step : ∀ R, E R → S → R → S → Prop).

(** A run without interference, with the effects it had. *)
Fixpoint exec {A} (p : Prog A) (s : S) (l : list {R : Set & (E R * R)%type}) (a : A) (s' : S)
    : Prop :=
  match p with
  | Ret b => a = b ∧ l = [] ∧ s' = s
  | Do op k => ∃ r s1 l1, op_step _ op s r s1 ∧ exec (k r) s1 l1 a s' ∧
                 l = existT _ (op, r) :: l1
  end.

Lemma exec_bind {A B} (f : A → Prog B) (p : Prog A) s l b s' :
  exec (prog_bind f p) s l b s' ↔
  ∃ l1 a s1 l2, exec p s l1 a s1 ∧ exec (f a) s1 l2 b s' ∧ l = l1 ++ l2.
Proof.
  revert s l. induction p as [a|R op k IH]; intros s l; simpl.
  - split; [intros H; by exists [], a, s, l|]. by intros (l1 & a' & s1 & l2 & (-> & -> & ->) & H & ->).
  - split.
    + intros (r & s1 & l' & Hop & (l1 & a & s2 & l2 & H1 & H2 & ->)%IH & ->).
      exists (existT _ (op, r) :: l1), a, s2, l2. naive_solver.
    + intros (l1 & a & s2 & l2 & (r & s1 & l' & Hop & H1 & ->) & H2 & ->).
      exists r, s1, (l' ++ l2). split; [done|]. split; [|done]. apply IH. naive_solver.
Qed.
End exec.

(** The run a deterministic world gives. *)
Fixpoint run {S A} (h : ∀ R, E R → S → R * S) (p : Prog A) (s : S) : A * S :=
  match p with
  | Ret a => (a, s)
  | Do op k => let (r, s') := h _ op s in run h (k r) s'
  end.

(** ** Weakest preconditions *)

Section wp.
Context {G : Type} (spec : ∀ R, E R → (R → G → Prop) → G → Prop).

Fixpoint wp {A} (p : Prog A) (Φ : A → G → Prop) (g : G) : Prop :=
  match p with
  | Ret a => Φ a g
  | Do op k => spec _ op (λ r, wp (k r) Φ) g
  end.

Hypothesis spec_mono : ∀ R (op : E R) (Φ Ψ : R → G → Prop) g,
  (∀ r g', Φ r g' → Ψ r g') → spec R op Φ g → spec R op Ψ g.

Lemma prog_wp_mono {A} (p : Prog A) (Φ Ψ : A → G → Prop) g :
  (∀ a g', Φ a g' → Ψ a g') → wp p Φ g → wp p Ψ g.
Proof using spec_mono.
  intros H. revert g. induction p as [a|R op k IH]; intros g; simpl; [apply H|].
  apply spec_mono. intros r g'. apply IH.
Qed.

Lemma prog_wp_bind {A B} (f : A → Prog B) (p : Prog A) (Φ : B → G → Prop) g :
  wp p (λ a, wp (f a) Φ) g → wp (prog_bind f p) Φ g.
Proof using spec_mono.
  revert g. induction p as [a|R op k IH]; intros g; simpl; [done|].
  apply spec_mono. intros r g'. apply IH.
Qed.

Lemma wp_each {A} (l : list A) (f : A → Prog unit) (I : G → Prop) g :
  (∀ x g', x ∈ l → I g' → wp (f x) (λ _, I) g') → I g → wp (prog_each l f) (λ _, I) g.
Proof using spec_mono.
  intros Hf. revert g. induction l as [|x l IH]; intros g Hg; simpl; [done|].
  apply prog_wp_bind. eapply prog_wp_mono; [|apply Hf; [by left|done]].
  intros [] g' Hg'. simpl. apply IH; [|done]. intros y g'' Hy. apply Hf. by right.
Qed.

(** What a world that follows the transformer does keeps the logic's promise. *)
Lemma wp_exec (op_step : ∀ R, E R → G → R → G → Prop) {A} (p : Prog A) (Φ : A → G → Prop) g l a g' :
  (∀ R (op : E R) (Ψ : R → G → Prop) g r g', spec R op Ψ g → op_step R op g r g' → Ψ r g') →
  wp p Φ g → exec op_step p g l a g' → Φ a g'.
Proof.
  intros Hs. revert g l. induction p as [b|R op k IH]; intros g l; simpl.
  - by intros H (-> & _ & ->).
  - intros Hwp (r & g1 & l1 & Hop & H & _). eapply IH; [|exact H]. exact (Hs _ op (λ r, wp (k r) Φ) _ _ _ Hwp Hop).
Qed.
End wp.

(** ** Worlds

    The transformer of a world that answers as [step] allows, and the same with
    an invariant at every point between two effects. *)

Section worlds.
Context {G : Type} (step : ∀ R, E R → G → R → G → Prop).

Definition demonic (R : Set) (op : E R) (Φ : R → G → Prop) (g : G) : Prop :=
  ∀ r g', step R op g r g' → Φ r g'.

Lemma demonic_mono (R : Set) (op : E R) (Φ Ψ : R → G → Prop) g :
  (∀ r g', Φ r g' → Ψ r g') → demonic R op Φ g → demonic R op Ψ g.
Proof. intros H Hd r g' Hs. by apply H, Hd. Qed.

Lemma demonic_exec {A} (p : Prog A) (Φ : A → G → Prop) g l a g' :
  wp demonic p Φ g → exec step p g l a g' → Φ a g'.
Proof. apply wp_exec. intros R op Ψ g0 r g1 Hd. apply Hd. Qed.

Context (I : G → Prop).

Definition keeping (R : Set) (op : E R) (Φ : R → G → Prop) (g : G) : Prop :=
  ∀ r g', step R op g r g' → I g' ∧ Φ r g'.

Lemma keeping_mono (R : Set) (op : E R) (Φ Ψ : R → G → Prop) g :
  (∀ r g', Φ r g' → Ψ r g') → keeping R op Φ g → keeping R op Ψ g.
Proof. intros H Hk r g' Hs. destruct (Hk r g' Hs). auto. Qed.

(** The states a run of [p] passes through: where it may be cut off. *)
Fixpoint passes {A} (p : Prog A) (g g' : G) : Prop :=
  g' = g ∨
  match p with
  | Ret _ => False
  | Do op k => ∃ r g1, step _ op g r g1 ∧ passes (k r) g1 g'
  end.

Lemma keeping_passes {A} (p : Prog A) (Φ : A → G → Prop) g g' :
  I g → wp keeping p Φ g → passes p g g' → I g'.
Proof.
  revert g. induction p as [a|R op k IH]; intros g Hg; simpl; [by intros _ [->|[]]|].
  intros Hk [->|(r & g1 & Hs & Hp)]; [done|]. destruct (Hk r g1 Hs). by eapply IH.
Qed.
End worlds.

(** A stronger transformer proves more of a program. *)
Lemma wp_stronger {G : Type} (spec spec' : ∀ R, E R → (R → G → Prop) → G → Prop) {A} (p : Prog A)
    (Φ : A → G → Prop) g :
  (∀ R (op : E R) (Φ Ψ : R → G → Prop) g, (∀ r g', Φ r g' → Ψ r g') → spec' R op Φ g → spec' R op Ψ g) →
  (∀ R (op : E R) (Φ : R → G → Prop) g, spec R op Φ g → spec' R op Φ g) →
  wp spec p Φ g → wp spec' p Φ g.
Proof.
  intros Hm Hs. revert g. induction p as [a|R op k IH]; intros g; simpl; [done|].
  intros H. eapply Hm; [|by apply Hs]. intros r g' Hr. by apply IH.
Qed.
End prog.
Arguments Prog E A : clear implicits.
Arguments Ret {E A} a.
Arguments Do {E A R} op k.
Arguments exec {E S} op_step {A} p s l a s'.

Notation "x ⟵ p ;; q" := (prog_bind (λ x, q) p) (at level 100, p at next level, right associativity).
Notation "p ;;; q" := (prog_bind (λ _, q) p) (at level 100, right associativity).
