(* ===== verification/TaskLog.v ===== *)
(** * Reading a task's log

    Models [internal/gritzclient/logs.go]: the walk of a log's pages, the
    transcript ([History]) and what is appended past it ([Follow]), against the
    pages that [Server_ListLogChunksByTask] serves ([ApiEvents], [StorePages],
    [Pagination]) while the driver goes on shipping.  The methods are programs of
    [Prog]. *)

From S2P Require Import Prelude Base64 AuthScope EventModel TaskModel Links PubSub ScheduleModel.
From S2P Require Import Rules Store StoreOps StoreLogic ApiBase Timeline Pagination StorePages Prog.

(** ** The pages of a transcript *)

(** [ListLogChunksByTaskResponse]. *)
Record LogPage := mkLogPage {
  LogPage_Chunks : list LogChunk; LogPage_Prev : string; LogPage_Next : string; LogPage_More : bool }.

(** The listing's next page is the response's previous one. *)
Definition response_of (page : Page LogChunk) : LogPage :=
  mkLogPage (Page_Items page) (Page_NextToken page) (Page_PrevToken page) (Page_More page).

Section tasklog.
Context `{TokenJSONLaws IDCursor}.

Definition chunk_cursor (c : LogChunk) : IDCursor := mkIDCursor (Chunk_ID c).

Definition older_than (c : LogChunk) : string := Encode (mkToken (Some (chunk_cursor c)) false).
Definition newer_than (c : LogChunk) : string := Encode (mkToken (Some (chunk_cursor c)) true).

Definition log_options (pageSize : Z) (token : string) : Options := mkOptions 50 200 true pageSize token.

(** The response to a request at [token] when the task's chunks are [L]. *)
Definition log_page (pageSize : Z) (L : list LogChunk) (token : string) : option LogPage :=
  let opt := log_options pageSize token in
  tok ← (if String.eqb token "" then Some empty_token else Decode token);
  Some (response_of (build_page (logChunkSource NoTx (mkChunkPage 0 0 0 "")) opt (size_of opt)
    (Tok_Backward tok)
    (take (S (Z.to_nat (size_of opt))) (keyset_rows chunk_cursor id_lt L tok)))).

(** What the server answers is that page. *)
Lemma served_page (p : ListLogChunksByTaskPageParams) (w w' : World) (page : Page LogChunk) :
  world_ok w → size_ok (log_options (LP_PageSize p) (LP_PageToken p)) →
  (∀ tok, Decode (LP_PageToken p) = Some tok → has_cursor tok) →
  ListLogChunksByTaskPage NoTx p w = (inr page, w') →
  log_page (LP_PageSize p) (chunk_stream p (committed w)) (LP_PageToken p) = Some (response_of page).
Proof using H0.
  intros Hw Hsz Hcur Hrun. set (opt := log_options (LP_PageSize p) (LP_PageToken p)) in *.
  assert (Hwp : ∀ tok, resolves opt tok → has_cursor tok →
    page = page_of (logChunkSource NoTx p) id_lt (chunk_stream p) opt (committed w) tok).
  { intros tok Hres Hs. pose proof (wp_List (logChunkSource NoTx p) id_lt (chunk_stream p) has_cursor opt tok w
      Hw Hsz Hres Hs) as Hwp. unfold StoreLogic.wp in Hwp.
    assert (Hrun' : List (logChunkSource NoTx p) opt w = (inr page, w')) by exact Hrun.
    rewrite Hrun' in Hwp. by destruct Hwp as [_ ->]. }
  unfold log_page. fold opt. destruct (String.eqb_spec (LP_PageToken p) "") as [He|Hne].
  - simpl. f_equal. rewrite (Hwp empty_token); [done|by left|done].
  - destruct (Decode (LP_PageToken p)) as [tok|] eqn:Hd.
    + simpl. f_equal. rewrite (Hwp tok); [done|by right|by apply Hcur].
    + exfalso. unfold ListLogChunksByTaskPage, List in Hrun.
      fold (log_options (LP_PageSize p) (LP_PageToken p)) in Hrun. fold opt in Hrun. fold (size_of opt) in Hrun.
      destruct Hsz as [Hlo Hhi].
      destruct (Z.ltb_spec (size_of opt) 1); [lia|].
      destruct (Z.ltb_spec (MaxPageSize opt) (size_of opt)); [lia|]. cbn [orb] in Hrun.
      change (PageToken opt) with (LP_PageToken p) in Hrun.
      destruct (String.eqb_spec (LP_PageToken p) ""); [done|]. rewrite Hd in Hrun. discriminate Hrun.
Qed.

(** ** Where tokens stand *)

Definition ascending (L : list LogChunk) : Prop := StronglySorted (λ x y, Chunk_ID x < Chunk_ID y) L.

(** The token of the older page behind the first [n] chunks, and that of the
    chunks past them.  Neither is moved by appending. *)
Definition stands_back (L : list LogChunk) (token : string) (n : nat) : Prop :=
  ∃ x, L !! n = Some x ∧ token = older_than x.
Definition stands_ahead (L : list LogChunk) (token : string) (n : nat) : Prop :=
  ∃ y, (0 < n)%nat ∧ L !! pred n = Some y ∧ token = newer_than y.

Lemma stands_back_app L new token n : stands_back L token n → stands_back (L ++ new) token n.
Proof. intros (x & Hx & ->). exists x. split; [by apply lookup_app_l_Some|done]. Qed.

Lemma stands_ahead_app L new token n : stands_ahead L token n → stands_ahead (L ++ new) token n.
Proof. intros (y & Hn & Hy & ->). exists y. split; [done|]. split; [by apply lookup_app_l_Some|done]. Qed.

Lemma stands_ahead_nonempty L token n : stands_ahead L token n → token ≠ "".
Proof using H0. intros (y & _ & _ & ->). apply Encode_nonempty. Qed.

Lemma rows_newer L n y :
  ascending L → (0 < n)%nat → L !! pred n = Some y →
  keyset_rows chunk_cursor id_lt L (mkToken (Some (chunk_cursor y)) true) = drop n L.
Proof.
  intros Hs Hn Hy. unfold keyset_rows. cbn [Tok_Backward].
  rewrite (filter_after_drop (λ x y, Chunk_ID x < Chunk_ID y) L (pred n) y) by (done || (intros; lia)).
  f_equal. lia.
Qed.

Lemma rows_older L n x :
  ascending L → L !! n = Some x →
  keyset_rows chunk_cursor id_lt L (mkToken (Some (chunk_cursor x)) false) = reverse (take n L).
Proof.
  intros Hs Hx. pose proof (lookup_lt_Some _ _ _ Hx) as Hlt. unfold keyset_rows. cbn [Tok_Backward].
  rewrite (filter_after_drop (λ x y, Chunk_ID y < Chunk_ID x) (reverse L) (length L - S n) x).
  - rewrite drop_reverse. do 2 f_equal. lia.
  - intros; lia.
  - intros; lia.
  - by apply StronglySorted_reverse in Hs.
  - rewrite reverse_lookup by lia. rewrite <- Hx. f_equal. lia.
  - done.
Qed.

Definition src0 : Source LogChunk IDCursor := logChunkSource NoTx (mkChunkPage 0 0 0 "").

(** A page that ends just before the [n]th chunk. *)
Definition older_page (L : list LogChunk) (n : nat) (page : LogPage) : Prop :=
  ∃ j, (j < n)%nat ∧ LogPage_Chunks page = drop j (take n L) ∧ LogPage_More page = (0 <? j)%nat ∧
    ((0 < j)%nat → stands_back L (LogPage_Prev page) j) ∧ stands_ahead L (LogPage_Next page) n.

(** A page that starts at the [n]th chunk. *)
Definition newer_page (L : list LogChunk) (n : nat) (page : LogPage) : Prop :=
  ∃ k, LogPage_Chunks page = take k (drop n L) ∧ (n + k ≤ length L)%nat ∧
    LogPage_More page = (n + k <? length L)%nat ∧ (LogPage_More page = true → (0 < k)%nat) ∧
    stands_ahead L (LogPage_Next page) (n + k).

Lemma build_older L n s opt tok :
  (0 < s)%nat → (0 < n ≤ length L)%nat → size_of opt = Z.of_nat s → Reverse opt = true →
  keyset_rows chunk_cursor id_lt L tok = reverse (take n L) →
  older_page L n (response_of (build_page src0 opt (size_of opt) false
    (take (S s) (keyset_rows chunk_cursor id_lt L tok)))).
Proof using H0.
  intros Hs Hn Hsz Hrev Hrows. rewrite Hrows, Hsz. set (R := reverse (take n L)).
  assert (HlR : length R = n) by (unfold R; rewrite length_reverse, length_take; lia).
  assert (Hlook : ∀ i, (i < n)%nat → R !! i = L !! (n - S i)%nat).
  { intros i Hi. unfold R. rewrite reverse_lookup by (rewrite length_take; lia).
    rewrite length_take, Nat.min_l by lia. apply lookup_take_lt. lia. }
  destruct (page_unfold src0 opt s false R) as [Hpage _].
  destruct (page_final src0 opt s false R Hs) as (first & final & _ & Hfirst & Hfinal & Htok).
  { intros E. rewrite E in HlR. simpl in HlR. lia. }
  set (page := build_page _ _ _ _ _) in *. rewrite HlR in *. injection Htok as Hnext Hprev.
  assert (Hfin : L !! (n - s `min` n)%nat = Some final).
  { rewrite Hlook in Hfinal by lia. rewrite <- Hfinal. f_equal. lia. }
  exists (n - s)%nat. split; [lia|]. split; [|split; [|split]].
  - rewrite Hpage. unfold response_of. rewrite Hrev. cbn [LogPage_Chunks Page_Items Bool.eqb].
    unfold R. rewrite take_reverse, reverse_involutive, length_take. f_equal. lia.
  - rewrite Hpage. unfold response_of. cbn [LogPage_More Page_More].
    destruct (Nat.ltb_spec s n), (Nat.ltb_spec 0 (n - s)); lia || done.
  - intros Hj. cbn [response_of LogPage_Prev]. rewrite Hnext.
    destruct (Nat.ltb_spec s n); [|lia]. exists final. split; [|done].
    rewrite <- Hfin. f_equal. lia.
  - cbn [response_of LogPage_Next]. rewrite Hprev. exists first. split; [lia|]. split; [|done].
    rewrite Hlook in Hfirst by lia. rewrite <- Hfirst. f_equal. lia.
Qed.

Lemma build_newer L n s opt tok :
  (0 < s)%nat → (n ≤ length L)%nat → size_of opt = Z.of_nat s → Reverse opt = true →
  stands_ahead L (PageToken opt) n → keyset_rows chunk_cursor id_lt L tok = drop n L →
  newer_page L n (response_of (build_page src0 opt (size_of opt) true
    (take (S s) (keyset_rows chunk_cursor id_lt L tok)))).
Proof using H0.
  intros Hs Hn Hsz Hrev Hahead Hrows. rewrite Hrows, Hsz. set (R := drop n L).
  assert (HlR : length R = (length L - n)%nat) by (unfold R; apply length_drop).
  destruct (page_unfold src0 opt s true R) as [Hpage Htok0]. pose proof (page_final src0 opt s true R Hs) as Hfin.
  set (page := build_page _ _ _ _ _) in *.
  exists (s `min` (length L - n))%nat. split; [|split; [lia|split; [|split]]].
  - rewrite Hpage. unfold response_of. rewrite Hrev. cbn [LogPage_Chunks Page_Items Bool.eqb]. fold R.
    destruct (decide (s ≤ length L - n)%nat); [f_equal; lia|]. by rewrite !take_ge by lia.
  - rewrite Hpage. unfold response_of. cbn [LogPage_More Page_More]. rewrite HlR.
    destruct (Nat.ltb_spec s (length L - n)), (Nat.ltb_spec (n + s `min` (length L - n)) (length L)); lia || done.
  - rewrite Hpage. unfold response_of. cbn [LogPage_More Page_More]. rewrite HlR.
    intros Hlt%Nat.ltb_lt. lia.
  - cbn [response_of LogPage_Next]. destruct (decide (R = [])) as [HR|HR].
    + rewrite HR, take_nil in Htok0. injection Htok0 as _ ->. rewrite HR in HlR. simpl in HlR.
      replace (n + s `min` (length L - n))%nat with n by lia. done.
    + destruct (Hfin HR) as (first & final & _ & _ & Hfinal & Htok). rewrite HlR in *.
      injection Htok as _ ->. exists final.
      assert (0 < length R)%nat by (destruct R; [done|simpl; lia]). split; [lia|]. split; [|done].
      unfold R in Hfinal. rewrite lookup_drop in Hfinal. rewrite <- Hfinal. f_equal. lia.
Qed.

(** The pages a reader asks for: the tail, an older one, the newer ones. *)
Section pages.
Context (pageSize : Z) (Hsize : 0 ≤ pageSize ≤ 200).

Let size : nat := Z.to_nat (or_int pageSize 50).

Lemma size_positive token : (0 < size)%nat ∧ size_of (log_options pageSize token) = Z.of_nat size.
Proof using Hsize.
  unfold size, size_of, log_options, or_int. cbn [PageSize DefaultPageSize].
  destruct (Z.eqb_spec pageSize 0); split; lia.
Qed.

Lemma page_tail L : ascending L →
  ∃ page, log_page pageSize L "" = Some page ∧
    match L with
    | [] => page = mkLogPage [] "" "" false
    | _ => older_page L (length L) page
    end.
Proof using H0 Hsize.
  intros Hs. destruct (size_positive "") as [Hp Hsz]. unfold log_page. cbn [String.eqb mbind option_bind].
  eexists. split; [reflexivity|]. destruct L as [|c L].
  { unfold build_page. cbn. by rewrite (proj2 (Z.ltb_ge _ _)) by lia. }
  rewrite Hsz, Nat2Z.id, <- Hsz. apply build_older; [done|simpl; lia|done|done|].
  rewrite take_ge by done. unfold keyset_rows. cbn [Tok_Backward empty_token].
  apply filter_all, Forall_forall. done.
Qed.

Lemma page_back L token n : ascending L → (0 < n)%nat → stands_back L token n →
  ∃ page, log_page pageSize L token = Some page ∧ older_page L n page.
Proof using H0 Hsize.
  intros Hs Hn (x & Hx & ->). destruct (size_positive (older_than x)) as [Hp Hsz]. unfold log_page.
  pose proof (Encode_nonempty (mkToken (Some (chunk_cursor x)) false)) as Hne. unfold older_than in *.
  rewrite (proj2 (String.eqb_neq _ _) Hne), Decode_Encode. cbn [mbind option_bind].
  eexists. split; [reflexivity|]. rewrite Hsz, Nat2Z.id, <- Hsz. apply lookup_lt_Some in Hx as Hlt.
  apply build_older; [done|lia|done|done|]. by apply rows_older.
Qed.

Lemma page_ahead L token n : ascending L → stands_ahead L token n →
  ∃ page, log_page pageSize L token = Some page ∧ newer_page L n page.
Proof using H0 Hsize.
  intros Hs Ha. pose proof Ha as (y & Hn & Hy & ->). destruct (size_positive (newer_than y)) as [Hp Hsz].
  unfold log_page. pose proof (Encode_nonempty (mkToken (Some (chunk_cursor y)) true)) as Hne.
  unfold newer_than in *. rewrite (proj2 (String.eqb_neq _ _) Hne), Decode_Encode. cbn [mbind option_bind].
  eexists. split; [reflexivity|]. rewrite Hsz, Nat2Z.id, <- Hsz. apply lookup_lt_Some in Hy as Hlt.
  apply build_newer; [done|lia|done|done|exact Ha|]. by apply rows_newer.
Qed.

End pages.

(** ** The reader's programs *)

(** What reading a log asks of the world: a page at a token, a chunk handed to the
    consumer and whether it wants more, an error handed to it, a wait between two
    polls and whether the context outlived it. *)
Inductive LOp : Set → Type :=
| LList (token : string) : LOp (string + LogPage)%type
| LYield (c : LogChunk) : LOp bool
| LYieldErr (e : string) : LOp bool
| LSleep : LOp bool.

Fixpoint yieldChunks (chunks : list LogChunk) : Prog LOp bool :=
  match chunks with
  | [] => Ret true
  | c :: chunks => more ⟵ trigger (LYield c) ;; if (more : bool) then yieldChunks chunks else Ret false
  end.

(** The follow cursor after a page yielded in full. *)
Definition advance (resp : LogPage) (follow : string) : string :=
  if String.eqb (LogPage_Next resp) "" then follow else LogPage_Next resp.

(** The iterator over the pages from [cur] towards the tail, with the body it is
    ranged with and the body's state; [None] when the fuel runs out. *)
Fixpoint ListLogChunksByTask {S} (fuel : nat) (cur : string)
    (yield : string + LogPage → S → Prog LOp (bool * S)) (s : S) : Prog LOp (option (bool * S)) :=
  match fuel with
  | O => Ret None
  | Datatypes.S fuel =>
      r ⟵ trigger (LList cur) ;;
      match r with
      | inl e => b ⟵ yield (inl e) s ;; Ret (Some (false, b.2))
      | inr resp =>
          b ⟵ yield (inr resp) s ;;
          if negb (fst b) then Ret (Some (false, b.2))
          else if negb (LogPage_More resp) then Ret (Some (true, b.2))
          else if String.eqb (LogPage_Next resp) "" then Ret (Some (true, b.2))
          else ListLogChunksByTask fuel (LogPage_Next resp) yield b.2
      end
  end.

(** The body both methods range over it with. *)
Definition page_body (r : string + LogPage) (follow : string) : Prog LOp (bool * string) :=
  match r with
  | inl e => trigger (LYieldErr e) ;;; Ret (false, follow)
  | inr resp =>
      more ⟵ yieldChunks (LogPage_Chunks resp) ;;
      if (more : bool) then Ret (true, advance resp follow) else Ret (false, follow)
  end.

(** The first pass of [History]: back to the oldest page. *)
Fixpoint rewind (fuel : nat) (resp : LogPage) (paged : bool)
    : Prog LOp (option (string + LogPage * bool)) :=
  match fuel with
  | O => Ret None
  | Datatypes.S fuel =>
      if LogPage_More resp && negb (String.eqb (LogPage_Prev resp) "") then
        r ⟵ trigger (LList (LogPage_Prev resp)) ;;
        match r with
        | inl e => Ret (Some (inl e))
        | inr resp => rewind fuel resp true
        end
      else Ret (Some (inr (resp, paged)))
  end.

(** Whether the range ran to its end, and the follow cursor it leaves. *)
Definition History (fuel : nat) (follow : string) : Prog LOp (option (bool * string)) :=
  r ⟵ trigger (LList "") ;;
  match r : string + LogPage with
  | inl e => trigger (LYieldErr e) ;;; Ret (Some (false, follow))
  | inr resp =>
      oldest ⟵ rewind fuel resp false ;;
      match oldest with
      | None => Ret None
      | Some (inl e) => trigger (LYieldErr e) ;;; Ret (Some (false, follow))
      | Some (inr (resp, paged)) =>
          more ⟵ yieldChunks (LogPage_Chunks resp) ;;
          if negb more then Ret (Some (false, follow))
          else
            let follow := advance resp follow in
            if negb paged then Ret (Some (true, follow))
            else ListLogChunksByTask fuel follow page_body follow
      end
  end.

(** A follow that has ended, one still at it after its polls, and a walk inside it
    that had no fuel left. *)
Inductive Followed := Ended (follow : string) | Following (follow : string) | OutOfFuel.

Fixpoint Follow (polls fuel : nat) (follow : string) : Prog LOp Followed :=
  match polls with
  | O => Ret (Following follow)
  | S polls =>
      awake ⟵ trigger LSleep ;;
      if negb awake then Ret (Ended follow)
      else
        r ⟵ (if String.eqb follow "" then History fuel follow
              else ListLogChunksByTask fuel follow page_body follow) ;;
        match r with
        | None => Ret OutOfFuel
        | Some (false, follow) => Ret (Ended follow)
        | Some (true, follow) => Follow polls fuel follow
        end
  end.

(** [gritz logs], with and without [-f]: the consumer's answer to a chunk is
    whether the write to the standard output worked. *)
Definition logs_action (polls fuel : nat) (follow : bool) : Prog LOp Followed :=
  r ⟵ History fuel "" ;;
  match r with
  | None => Ret OutOfFuel
  | Some (false, cursor) => Ret (Ended cursor)
  | Some (true, cursor) => if negb follow then Ret (Ended cursor) else Follow polls fuel cursor
  end.

(** ** What the reader hands on

    Between a reader's requests the driver appends: the transcript grows, up to
    [N] chunks in all.  A request may fail. *)

Record Reading := mkReading { rd_log : list LogChunk; rd_out : list LogChunk; rd_asleep : bool }.

Section reading.
Context (pageSize : Z) (Hsize : 0 ≤ pageSize ≤ 200) (N : nat).

Definition reading_step (R : Set) (op : LOp R) (g : Reading) : R → Reading → Prop :=
  match op in LOp R return R → Reading → Prop with
  | LList token => λ r g', ∃ new,
      g' = mkReading (rd_log g ++ new) (rd_out g) false ∧ ascending (rd_log g') ∧
      (length (rd_log g') ≤ N)%nat ∧ ∀ page, r = inr page → log_page pageSize (rd_log g') token = Some page
  | LYield c => λ _ g', g' = mkReading (rd_log g) (rd_out g ++ [c]) false
  | LYieldErr _ => λ _ g', g' = mkReading (rd_log g) (rd_out g) false
  | LSleep => λ _ g', g' = mkReading (rd_log g) (rd_out g) true
  end.

(** The chunks handed on are the transcript's first [n]. *)
Definition at_chunk (g : Reading) (n : nat) : Prop :=
  ascending (rd_log g) ∧ (length (rd_log g) ≤ N)%nat ∧ (n ≤ length (rd_log g))%nat ∧ rd_out g = take n (rd_log g).

(** What has been handed on is the beginning of the transcript, and all of it by
    the time the reader sleeps. *)
Definition in_order (g : Reading) : Prop :=
  rd_out g `prefix_of` rd_log g ∧ (rd_asleep g = true → rd_out g = rd_log g).

Let wpr {A} (p : Prog LOp A) (Φ : A → Reading → Prop) : Reading → Prop :=
  wp (keeping reading_step in_order) p Φ.

Lemma wpr_bind {A B} (f : A → Prog LOp B) (p : Prog LOp A) (Φ : A → Reading → Prop) (Ψ : B → Reading → Prop) g :
  wpr p Φ g → (∀ a g', Φ a g' → wpr (f a) Ψ g') → wpr (prog_bind f p) Ψ g.
Proof.
  intros Hp Hf. assert (Hm := @keeping_mono LOp Reading reading_step in_order).
  apply prog_wp_bind; [exact Hm|]. eapply prog_wp_mono; [exact Hm| |exact Hp]. exact Hf.
Qed.

Lemma at_order g n : at_chunk g n → rd_asleep g = false → in_order g.
Proof.
  intros (_ & _ & _ & Hy) Hb. split; [|by rewrite Hb].
  exists (drop n (rd_log g)). by rewrite Hy, take_drop.
Qed.

(** A request, at a reader that has handed on [n] chunks. *)
Lemma wpr_list token g n (Φ : string + LogPage → Reading → Prop) :
  at_chunk g n →
  (∀ r g', at_chunk g' n → (∃ new, rd_log g' = rd_log g ++ new) →
    (∀ page, r = inr page → log_page pageSize (rd_log g') token = Some page) → Φ r g') →
  wpr (trigger (LList token)) Φ g.
Proof.
  intros (_ & _ & Hn & Hy) HΦ r g' (new & -> & Hs & Hl & Hpage). cbn in *.
  assert (Hat : at_chunk (mkReading (rd_log g ++ new) (rd_out g) false) n).
  { split; [done|]. split; [done|]. cbn. rewrite length_app. split; [lia|]. by rewrite take_app_le. }
  split; [by eapply at_order|]. apply HΦ; [done|by exists new|done].
Qed.

Lemma wpr_yield_err e g n (Φ : bool → Reading → Prop) :
  at_chunk g n → (∀ b g', at_chunk g' n → Φ b g') → wpr (trigger (LYieldErr e)) Φ g.
Proof.
  intros Ha HΦ b g' ->. assert (at_chunk (mkReading (rd_log g) (rd_out g) false) n) by done.
  split; [by eapply at_order|]. by apply HΦ.
Qed.

(** A page that starts where the reader stands is handed on chunk by chunk. *)
Lemma wpr_yieldChunks k g n :
  at_chunk g n → (n + k ≤ length (rd_log g))%nat →
  wpr (yieldChunks (take k (drop n (rd_log g))))
    (λ more g', rd_log g' = rd_log g ∧ if more then at_chunk g' (n + k) else ∃ m, at_chunk g' m) g.
Proof.
  revert g n. induction k as [|k IH]; intros g n Ha Hk.
  - cbn. rewrite Nat.add_0_r. done.
  - destruct (lookup_lt_is_Some_2 (rd_log g) n) as [c Hc]; [lia|].
    rewrite (drop_S _ _ _ Hc). cbn [take yieldChunks]. intros more g' ->.
    assert (Ha' : at_chunk (mkReading (rd_log g) (rd_out g ++ [c]) false) (S n)).
    { destruct Ha as (Hs & Hl & _ & Hy). split; [done|]. split; [done|]. cbn. split; [lia|].
      by rewrite Hy, (take_S_r _ _ _ Hc). }
    split; [by eapply at_order|]. destruct more; [|cbn; eauto].
    replace (n + S k)%nat with (S n + k)%nat by lia. apply (IH _ _ Ha'). cbn. lia.
Qed.
(** Where a range leaves the reader: at the tail with the cursor past it, or cut
    short somewhere. *)
Definition settled (r : option (bool * string)) (g : Reading) : Prop :=
  match r with
  | Some (true, follow) =>
      at_chunk g (length (rd_log g)) ∧
      (follow = "" ∧ rd_log g = [] ∨ stands_ahead (rd_log g) follow (length (rd_log g)))
  | Some (false, _) => ∃ m, at_chunk g m
  | None => False
  end.

Lemma advance_ahead L resp follow n : stands_ahead L (LogPage_Next resp) n → advance resp follow = LogPage_Next resp.
Proof using H0.
  intros Ha%stands_ahead_nonempty. unfold advance. by rewrite (proj2 (String.eqb_neq _ _) Ha).
Qed.

Lemma wpr_walk fuel cur g n :
  at_chunk g n → stands_ahead (rd_log g) cur n → (N - n < fuel)%nat →
  wpr (ListLogChunksByTask fuel cur page_body cur) settled g.
Proof using H0 Hsize.
  revert cur g n. induction fuel as [|fuel IH]; intros cur g n Ha Hahead Hfuel; [lia|].
  cbn [ListLogChunksByTask]. eapply wpr_bind; [by eapply wpr_list, (λ r g' A B C, conj A (conj B C))|].
  intros r g1 (Ha1 & [new Hnew] & Hpage). destruct r as [e|resp].
  - eapply wpr_bind.
    + cbn [page_body]. eapply wpr_bind; [eapply wpr_yield_err; [exact Ha1|]; exact (λ b g' A, A)|].
      intros b g2 Ha2. instantiate (1 := λ _ g', at_chunk g' n). exact Ha2.
    + intros b g2 Ha2. by exists n.
  - apply (stands_ahead_app _ new) in Hahead. rewrite <- Hnew in Hahead.
    destruct (page_ahead pageSize Hsize _ _ _ (proj1 Ha1) Hahead)
      as (page & Hp & k & Hchunks & Hk & Hmore & Hpos & Hnext).
    rewrite (Hpage _ eq_refl) in Hp. injection Hp as <-. clear Hpage.
    eapply wpr_bind.
    + cbn [page_body]. rewrite Hchunks. eapply wpr_bind; [by apply wpr_yieldChunks|].
      intros more g2 [HL Hg2]. rewrite <- HL in *.
      instantiate (1 := λ b g', rd_log g' = rd_log g1 ∧
        match b with (true, f) => at_chunk g' (n + k) ∧ f = LogPage_Next resp | (false, _) => ∃ m, at_chunk g' m end).
      destruct more; cbn; [|by rewrite HL]. split; [done|]. split; [done|]. by eapply advance_ahead.
    + intros [more f] g2 [HL Hg2]. rewrite <- HL in *. destruct more; cbn [negb fst snd]; [|exact Hg2].
      destruct Hg2 as [Ha2 ->]. rewrite Hmore. destruct (Nat.ltb_spec (n + k) (length (rd_log g2))) as [Hlt|Hge]; cbn [negb].
      * rewrite (proj2 (String.eqb_neq _ _) (stands_ahead_nonempty _ _ _ Hnext)).
        destruct Ha1 as (_ & _ & Hn1 & _), Ha2 as (Hs2 & Hl2 & Hr). specialize (Hpos Hmore).
        apply (IH _ _ (n + k)%nat); [done|done|lia].
      * cbn. replace (length (rd_log g2)) with (n + k)%nat by lia. auto.
Qed.
(** What the first pass ends with: the transcript's first [n] chunks, which are all
    of it when there was nothing to page over. *)
Definition oldest_page (paged : bool) (resp : LogPage) (n : nat) (g : Reading) : Prop :=
  at_chunk g 0 ∧ (n ≤ length (rd_log g))%nat ∧ LogPage_Chunks resp = take n (rd_log g) ∧
  stands_ahead (rd_log g) (LogPage_Next resp) n ∧ (paged = false → n = length (rd_log g)).

Lemma wpr_rewind fuel resp paged g n :
  at_chunk g 0 → (n ≤ length (rd_log g))%nat → older_page (rd_log g) n resp → (n < fuel)%nat →
  (paged = false → n = length (rd_log g)) →
  wpr (rewind fuel resp paged)
    (λ r g', match r with
             | Some (inr (resp', paged')) => ∃ n', oldest_page paged' resp' n' g'
             | Some (inl _) => at_chunk g' 0
             | None => False
             end) g.
Proof using H0 Hsize.
  revert resp paged g n. induction fuel as [|fuel IH]; intros resp paged g n Ha Hn Hold Hfuel Hpaged; [lia|].
  destruct Hold as (j & Hj & Hchunks & Hmore & Hback & Hnext). cbn [rewind]. rewrite Hmore.
  destruct (Nat.ltb_spec 0 j) as [Hpos|Hz]; cbn [andb].
  - specialize (Hback Hpos). destruct Hback as (x & Hx & Hprev).
    rewrite Hprev. unfold older_than. rewrite (proj2 (String.eqb_neq _ _) (Encode_nonempty _)). cbn [negb].
    eapply wpr_bind; [by eapply wpr_list, (λ r g' A B C, conj A (conj B C))|].
    intros r g1 (Ha1 & [new Hnew] & Hpage). destruct r as [e|resp1]; [exact Ha1|].
    assert (Hx1 : stands_back (rd_log g1) (older_than x) j).
    { rewrite Hnew. apply stands_back_app. by exists x. }
    destruct (page_back pageSize Hsize _ _ _ (proj1 Ha1) Hpos Hx1) as (page & Hp & Hold1).
    unfold older_than in Hp. rewrite (Hpage _ eq_refl) in Hp. injection Hp as <-.
    apply (IH _ _ _ j); [done| |done|lia|done]. rewrite Hnew, length_app. lia.
  - cbn. exists n. replace j with 0%nat in Hchunks by lia. done.
Qed.

Lemma wpr_History fuel g :
  at_chunk g 0 → (N < fuel)%nat → wpr (History fuel "") settled g.
Proof using H0 Hsize.
  intros Ha Hfuel. unfold History.
  eapply wpr_bind; [by eapply wpr_list, (λ r g' A B C, conj A (conj B C))|].
  intros r g1 (Ha1 & _ & Hpage). destruct r as [e|resp].
  { eapply wpr_bind; [eapply wpr_yield_err; [exact Ha1|]; exact (λ b g' A, A)|].
    intros b g2 Ha2. by exists 0%nat. }
  destruct (page_tail pageSize Hsize _ (proj1 Ha1)) as (page & Hp & Htail).
  rewrite (Hpage _ eq_refl) in Hp. injection Hp as <-. clear Hpage.
  destruct (rd_log g1) as [|c L] eqn:HL.
  { subst resp. destruct fuel; [lia|]. cbn. unfold settled. rewrite HL. split; [exact Ha1|by left]. }
  rewrite <- HL in Htail.
  eapply wpr_bind.
  { apply (wpr_rewind _ _ _ _ (length (rd_log g1))); [done|done|exact Htail| |done].
    destruct Ha1 as (_ & Hl & _). lia. }
  intros [[e|[oldest paged]]|] g2 Hr; [| |done].
  { eapply wpr_bind; [eapply wpr_yield_err; [exact Hr|]; exact (λ b g' A, A)|].
    intros b g3 Ha3. by exists 0%nat. }
  destruct Hr as (n & Ha2 & Hn & Hchunks & Hahead & Hpaged). rewrite Hchunks.
  eapply wpr_bind; [exact (wpr_yieldChunks n _ 0 Ha2 Hn)|].
  intros more g3 [HL3 Hg3]. rewrite <- HL3 in *. destruct more; cbn [negb]; [|exact Hg3]. cbn in Hg3.
  rewrite (advance_ahead _ _ _ _ Hahead). destruct paged; cbn [negb].
  - apply (wpr_walk _ _ _ n); [done|done|lia].
  - cbn. rewrite <- (Hpaged eq_refl). auto.
Qed.

Lemma wpr_Follow polls fuel follow g :
  settled (Some (true, follow)) g → (N < fuel)%nat →
  wpr (Follow polls fuel follow) (λ r _, r ≠ OutOfFuel) g.
Proof using H0 Hsize.
  revert follow g. induction polls as [|polls IH]; intros follow g Hg Hfuel; [done|].
  cbn [Follow]. intros awake g1 ->. destruct Hg as [Ha Hcur].
  split.
  { split; [|intros _]; cbn; destruct Ha as (_ & _ & _ & ->); rewrite firstn_all; [by exists []; rewrite app_nil_r|done]. }
  destruct awake; cbn [negb]; [|done]. set (g1 := mkReading _ _ _).
  assert (Ha1 : at_chunk g1 (length (rd_log g1))) by done.
  apply (wpr_bind _ _ settled).
  { destruct Hcur as [[-> HL]|Hahead].
    - apply wpr_History; [|done]. by rewrite HL in Ha.
    - rewrite (proj2 (String.eqb_neq _ _) (stands_ahead_nonempty _ _ _ Hahead)).
      apply (wpr_walk _ _ _ (length (rd_log g))); [done|done|lia]. }
  intros [[[|] f]|] g2 Hg2; [by apply IH|done|done].
Qed.

(** C32: [gritz logs -f] prints the transcript: whatever the driver appends between
    its requests, whichever of them fail and wherever a write stops it, what it has
    written is at every moment the beginning of the task's transcript, each chunk
    once and in order, and whenever it sleeps it has written every chunk the server
    had when last asked.  For a transcript of at most [N] chunks its walks end, and
    the part before the follow has then written all of it. *)
Theorem logs_print_transcript polls fuel follow (L : list LogChunk) :
  ascending L → (length L ≤ N)%nat → (N < fuel)%nat →
  (∀ g, passes reading_step (logs_action polls fuel follow) (mkReading L [] false) g →
    rd_out g `prefix_of` rd_log g ∧ (rd_asleep g = true → rd_out g = rd_log g)) ∧
  (∀ effects r g, exec reading_step (logs_action polls fuel follow) (mkReading L [] false) effects r g →
    r ≠ OutOfFuel) ∧
  (∀ effects cursor g, exec reading_step (History fuel "") (mkReading L [] false) effects (Some (true, cursor)) g →
    rd_out g = rd_log g).
Proof using H0 Hsize.
  intros Hs Hl Hfuel. set (g0 := mkReading L [] false).
  assert (Ha : at_chunk g0 0) by (split; [done|split; [done|split; [apply Nat.le_0_l|done]]]).
  assert (Hwp : wpr (logs_action polls fuel follow) (λ r _, r ≠ OutOfFuel) g0).
  { eapply wpr_bind; [by apply wpr_History|]. intros [[[|] f]|] g Hg; [|done|done].
    destruct follow; cbn [negb]; [by apply wpr_Follow|done]. }
  assert (Hrun : ∀ A (p : Prog LOp A) (Φ : A → Reading → Prop) effects r g,
    wpr p Φ g0 → exec reading_step p g0 effects r g → Φ r g).
  { intros A p Φ effects r g Hp. apply demonic_exec. eapply wp_stronger; [apply demonic_mono| |exact Hp].
    intros R op Ψ g' Hk r' g'' Hr. by apply Hk. }
  split; [|split].
  - intros g Hp. eapply (keeping_passes reading_step in_order); [|exact Hwp|exact Hp]. by eapply at_order.
  - intros effects r g He. by eapply (Hrun _ _ (λ r _, r ≠ OutOfFuel)).
  - intros effects cursor g He. pose proof (Hrun _ _ _ _ _ _ (wpr_History fuel g0 Ha Hfuel) He) as [(_ & _ & _ & Hy) _].
    by rewrite Hy, firstn_all.
Qed.
End reading.
End tasklog.

(** A log of three chunks read two at a time, to which a fourth is appended while
    the reader sleeps. *)
Definition sample_chunk (id : Z) : LogChunk := mkLogChunk id 3 7 1 [id] 0.

Definition sample_reader (R : Set) (op : LOp R) (g : list LogChunk * list LogChunk)
    : R * (list LogChunk * list LogChunk) :=
  let '(L, Y) := g in
  match op in LOp R return R * (list LogChunk * list LogChunk) with
  | LList token => (default (inl "bad page token") (inr <$> @log_page sample_json 2 L token), (L, Y))
  | LYield c => (true, (L, Y ++ [c]))
  | LYieldErr _ => (true, (L, Y))
  | LSleep => if (length L =? 3)%nat then (true, (L ++ [sample_chunk 9], Y)) else (false, (L, Y))
  end.

Example follow_reads_on :
  snd (run sample_reader (logs_action 5 5 true) (map sample_chunk [1; 4; 5], [])) =
    (map sample_chunk [1; 4; 5; 9], map sample_chunk [1; 4; 5; 9]).
Proof. vm_compute. reflexivity. Qed.

Lemma logs_print_transcript_witness :
  ascending (map sample_chunk [1; 4; 5]) ∧
  ∀ g, passes (@reading_step sample_json 2 8) (logs_action 5 9 true) (mkReading (map sample_chunk [1; 4; 5]) [] false) g →
    rd_out g `prefix_of` rd_log g.
Proof.
  assert (Hs : ascending (map sample_chunk [1; 4; 5])) by (repeat constructor).
  split; [exact Hs|]. intros g Hg.
  exact (proj1 (proj1 (@logs_print_transcript sample_json sample_json_laws 2 ltac:(lia) 8 5 9 true _ Hs
    ltac:(simpl; lia) ltac:(lia)) g Hg)).
Defined.
