(* ===== verification/Workspace.v ===== *)
(** * Workspaces and the sandbox's environment

    Models [internal/runner/workspace/workspace.go] (the workspace record, its
    validation, the agent config made from it), the config record of
    [internal/runner/agent/config.go] and the environment lists of
    [internal/x/envx] and [internal/command/driver.go] through which declared
    secrets reach the driver's mask.  Reading the YAML file and expanding its
    variables is left out. *)

From S2P Require Import Prelude AuthScope ScopeParse.
From Stdlib Require Import Ascii.

(** ** The agent config *)

Record McpServer := mkMcpServer {
  Mcp_Type : string; Mcp_URL : string; Mcp_Headers : gmap string string;
  Mcp_Command : string; Mcp_Args : list string; Mcp_Env : gmap string string }.

Definition McpServer_Validate (m : McpServer) : option string :=
  if String.eqb (Mcp_Type m) "" then Some "type is required"
  else if String.eqb (Mcp_Type m) "stdio" then
    if String.eqb (Mcp_Command m) "" then Some "command is required for stdio" else None
  else if String.eqb (Mcp_Type m) "http" || String.eqb (Mcp_Type m) "sse" then
    if String.eqb (Mcp_URL m) "" then Some ("url is required for " +:+ Mcp_Type m) else None
  else Some ("unknown type: " +:+ Mcp_Type m).

(** [ClaudeConfig] and its siblings. *)
Record ModelBin := mkModelBin { mb_Model : string; mb_Bin : string }.

Record DummyToolCall := mkToolCall { tc_Server : string; tc_Tool : string; tc_Arguments : string }.

Record DummyConfig := mkDummy {
  dum_Sleep : Z; dum_ToolCalls : list DummyToolCall; dum_Commands : list string; dum_Error : string }.

Record Agent := mkAgent {
  Agent_Type : string; Agent_Cwd : string; Agent_Prompt : string; Agent_Verbose : bool;
  Agent_McpServers : gmap string McpServer;
  Agent_Claude : option ModelBin; Agent_Codex : option ModelBin; Agent_Copilot : option ModelBin;
  Agent_Cursor : option ModelBin; Agent_Sloppy : option string; Agent_Dummy : option DummyConfig }.

(** [agent.Config]. *)
Record Config := mkConfig {
  Cfg_Type : string; Cfg_Cwd : string; Cfg_Prompt : string; Cfg_Verbose : bool;
  Cfg_McpServers : gmap string McpServer; Cfg_Commands : list string;
  Cfg_Capabilities : list string;
  Cfg_Claude : option ModelBin; Cfg_Codex : option ModelBin; Cfg_Copilot : option ModelBin;
  Cfg_Cursor : option ModelBin; Cfg_Sloppy : option string; Cfg_Dummy : option DummyConfig;
  Cfg_SetupCommandsCompleted : Z; Cfg_Started : bool; Cfg_NextEventToken : string }.

(** ** Workspaces *)

(** The runtime sections ([container:], [lambda_microvm:]) belong to the
    backends. *)
Record Workspace := mkWorkspace {
  WS_Description : string; WS_Agent : Agent; WS_Commands : list string;
  WS_Capabilities : list string; WS_Secrets : gmap string string }.

(** [slices.Sorted(maps.Keys(m))]. *)
Definition sorted_keys (m : gmap string string) : list string :=
  merge_sort String.le (map fst (map_to_list m)).

Definition SecretNames (w : Workspace) : list string := sorted_keys (WS_Secrets w).

(** A loop that returns at the first failure. *)
Definition first_error {A} (f : A → option string) (l : list A) : option string := head (omap f l).

(** Go ranges over a map in any order; which of several failures is reported is
    that order's choice, here that of [map_to_list]. *)
Definition Agent_Validate (a : Agent) : option string :=
  first_error (λ kv, (λ err, "mcp_servers." +:+ kv.1 +:+ ": " +:+ err) <$> McpServer_Validate kv.2)
    (map_to_list (Agent_McpServers a)).

Definition Workspace_Validate (w : Workspace) : option string :=
  match Agent_Validate (WS_Agent w) with
  | Some err => Some ("agent: " +:+ err)
  | None =>
      first_error (λ capability, if negb (ValidCapability capability)
                                 then Some ("unknown capability " +:+ quoted capability) else None)
        (WS_Capabilities w)
  end.

Definition Config_Validate (workspaces : gmap string Workspace) : option string :=
  if Nat.eqb (size workspaces) 0 then Some "no workspaces defined"
  else first_error
         (λ kv, (λ err, "workspace " +:+ quoted kv.1 +:+ ": " +:+ err) <$> Workspace_Validate kv.2)
         (map_to_list workspaces).

Definition Config_Get (workspaces : gmap string Workspace) (name : string) : string + Workspace :=
  match workspaces !! name with
  | None => inl ("workspace " +:+ quoted name +:+ " not found")
  | Some ws => inr ws
  end.

Definition AgentConfig (w : Workspace) : Config :=
  let a := WS_Agent w in
  mkConfig (Agent_Type a) (Agent_Cwd a) (Agent_Prompt a) (Agent_Verbose a)
    (Agent_McpServers a) (WS_Commands w) (WS_Capabilities w)
    (Agent_Claude a) (Agent_Codex a) (Agent_Copilot a) (Agent_Cursor a) (Agent_Sloppy a)
    (Agent_Dummy a) 0 false "".

(** [cfg.McpServers[name] = srv]. *)
Definition set_mcp_server (name : string) (srv : McpServer) (cfg : Config) : Config :=
  mkConfig (Cfg_Type cfg) (Cfg_Cwd cfg) (Cfg_Prompt cfg) (Cfg_Verbose cfg)
    (<[name := srv]> (Cfg_McpServers cfg)) (Cfg_Commands cfg) (Cfg_Capabilities cfg)
    (Cfg_Claude cfg) (Cfg_Codex cfg) (Cfg_Copilot cfg) (Cfg_Cursor cfg) (Cfg_Sloppy cfg)
    (Cfg_Dummy cfg) (Cfg_SetupCommandsCompleted cfg) (Cfg_Started cfg) (Cfg_NextEventToken cfg).

(** ** Environments *)

(** [envx.FromMap]. *)
Definition FromMap (m : gmap string string) : list string :=
  map (λ k, k +:+ "=" +:+ default "" (m !! k)) (sorted_keys m).

(** The environment a process sees of a list of [KEY=value] entries: the last
    entry of a name wins, as with [exec.Cmd] and with container runtimes. *)
Definition env_entry (entry : string) : string * string :=
  let '(k, v, _) := Cut "=" entry in (k, v).

Definition environ (entries : list string) : gmap string string :=
  foldl (λ m e, <[(env_entry e).1 := (env_entry e).2]> m) ∅ entries.

Definition Getenv (env : gmap string string) (key : string) : string := default "" (env !! key).

(** The runner's side: the entries [Runner.spec] appends for the secrets. *)
Definition secret_env (w : Workspace) : list string :=
  let names := SecretNames w in
  match names with
  | [] => []
  | _ => map (λ name, name +:+ "=" +:+ default "" (WS_Secrets w !! name)) names ++
         ["GRITZ_SECRETS=" +:+ Join names ","]
  end.

(** The driver's side. *)
Definition driverSecrets (env : gmap string string) (token : string) : gmap string string :=
  <["token" := token]>
    (foldl (λ secrets name, if String.eqb name "" then secrets
                            else <[name := Getenv env name]> secrets)
       ∅ (Split "," (Getenv env "GRITZ_SECRETS"))).

(** ** Insertions by a function of the key *)

Lemma lookup_foldl_insert (f : string → string) (names : list string) (m : gmap string string) k :
  foldl (λ m n, <[n := f n]> m) m names !! k = if decide (k ∈ names) then Some (f k) else m !! k.
Proof.
  revert m. induction names as [|n names IH]; intros m; cbn [foldl].
  - rewrite decide_False; [done|]. apply not_elem_of_nil.
  - rewrite IH. destruct (decide (k = n)) as [->|Hne].
    + rewrite lookup_insert_eq, (decide_True (P := n ∈ n :: names)) by (by left).
      by destruct (decide _).
    + rewrite lookup_insert_ne by done.
      destruct (decide (k ∈ names)), (decide (k ∈ n :: names)); set_solver.
Qed.

Lemma elem_of_sorted_keys m k : k ∈ sorted_keys m ↔ is_Some (m !! k).
Proof.
  unfold sorted_keys. rewrite merge_sort_Permutation, list_elem_of_fmap. split.
  - intros ([k' v] & -> & H%elem_of_map_to_list). by exists v.
  - intros [v H]. exists (k, v). by rewrite elem_of_map_to_list.
Qed.

(** A name that can be an environment variable and a member of the list. *)
Definition env_name (n : string) : Prop :=
  n ≠ "" ∧ absent "=" n = true ∧ absent "," n = true ∧ n ≠ "GRITZ_SECRETS".

Lemma env_entry_pair n v : absent "=" n = true → env_entry (n +:+ "=" +:+ v) = (n, v).
Proof.
  intros Hn. unfold env_entry. change ("=" +:+ v) with (String "=" v). by rewrite Cut_app.
Qed.

Lemma environ_pairs base (f : string → string) names :
  Forall env_name names →
  environ (base ++ map (λ n, n +:+ "=" +:+ f n) names) =
  foldl (λ m n, <[n := f n]> m) (environ base) names.
Proof.
  intros Hn. unfold environ. rewrite foldl_app. fold (environ base). generalize (environ base) as m.
  induction Hn as [|n names (_ & Hn & _) _ IH]; intros m; [done|].
  cbn [map foldl]. rewrite IH, env_entry_pair by done. done.
Qed.

Lemma names_of_secrets w :
  map_Forall (λ n _, env_name n) (WS_Secrets w) → Forall env_name (SecretNames w).
Proof.
  intros H. apply Forall_forall. intros n [v Hv]%elem_of_sorted_keys. by apply (H n v).
Qed.

(** The fold of [driverSecrets] over names that are there. *)
Lemma mask_fold (g f : string → string) names (m : gmap string string) :
  Forall (λ n, n ≠ "" ∧ g n = f n) names →
  foldl (λ secrets name, if String.eqb name "" then secrets else <[name := g name]> secrets) m names =
  foldl (λ m n, <[n := f n]> m) m names.
Proof.
  intros H. revert m. induction H as [|n names [Hn Hg] _ IH]; intros m; [done|]. cbn [foldl].
  rewrite IH, Hg. by destruct (String.eqb_spec n "").
Qed.

(** ** Property *)

(** What the runner declares, the driver masks.  Whatever environment the
    sandbox comes with, the driver's mask holds exactly the workspace's
    secrets with their values, and the task token under its own name, which
    displaces a secret of that name. *)
Theorem declared_secrets_masked (w : Workspace) (base : list string) (token : string) :
  WS_Secrets w ≠ ∅ → map_Forall (λ n _, env_name n) (WS_Secrets w) →
  driverSecrets (environ (base ++ secret_env w)) token = <["token" := token]> (WS_Secrets w).
Proof.
  intros Hne Hn. pose proof (names_of_secrets w Hn) as Hnames.
  assert (Hnil : SecretNames w ≠ []).
  { intros He. apply Hne, map_eq. intros n. rewrite lookup_empty.
    destruct (WS_Secrets w !! n) as [v|] eqn:E; [|done].
    assert (n ∈ SecretNames w) as Hin by (apply elem_of_sorted_keys; eauto).
    rewrite He in Hin. by apply elem_of_nil in Hin. }
  set (val := λ n, default "" (WS_Secrets w !! n)).
  assert (Henv : environ (base ++ secret_env w) =
    <["GRITZ_SECRETS" := Join (SecretNames w) ","]>
      (foldl (λ m n, <[n := val n]> m) (environ base) (SecretNames w))).
  { unfold secret_env. destruct (SecretNames w) as [|n names] eqn:E; [done|]. rewrite <- E in *.
    rewrite app_assoc. rewrite <- (environ_pairs base val) by done.
    unfold environ at 1. by rewrite foldl_app. }
  rewrite Henv. unfold driverSecrets. f_equal.
  assert (Hgs : ∀ m : gmap string string, Getenv (<["GRITZ_SECRETS" := Join (SecretNames w) ","]> m)
    "GRITZ_SECRETS" = Join (SecretNames w) ",") by (intros m; unfold Getenv; by rewrite lookup_insert_eq).
  rewrite Hgs.
  rewrite Split_Join; [|done|by eapply Forall_impl; [exact Hnames|intros n (_ & _ & ? & _)]].
  rewrite (mask_fold _ val).
  - apply map_eq. intros k. rewrite lookup_foldl_insert, lookup_empty. unfold val.
    destruct (decide (k ∈ SecretNames w)) as [[v Hv]%elem_of_sorted_keys|Hk]; [by rewrite Hv|].
    destruct (WS_Secrets w !! k) eqn:E; [|done]. exfalso. apply Hk, elem_of_sorted_keys. eauto.
  - apply Forall_forall. intros n Hin.
    destruct (proj1 (Forall_forall _ _) Hnames n Hin) as (Hn0 & _ & _ & Hng). split; [done|].
    unfold Getenv. by rewrite lookup_insert_ne, lookup_foldl_insert, decide_True by done.
Qed.

(** Whatever value a secret named [token] has, the mask holds the task token
    there instead. *)
Lemma token_secret_displaced (env : gmap string string) (token : string) :
  driverSecrets env token !! "token" = Some token.
Proof. unfold driverSecrets. by rewrite lookup_insert_eq. Qed.

Definition sample_workspace : Workspace :=
  mkWorkspace "" (mkAgent "dummy" "" "" false ∅ None None None None None None) [] []
    {["GH_TOKEN" := "ghp"; "NPM" := "npm=1,2"]}.

(** Two secrets in an environment that already has one of the names. *)
Lemma declared_secrets_masked_witness :
  driverSecrets (environ (["GH_TOKEN=stale"; "HOME=/root"] ++ secret_env sample_workspace)) "jwt" =
  {["token" := "jwt"; "GH_TOKEN" := "ghp"; "NPM" := "npm=1,2"]}.
Proof.
  rewrite (declared_secrets_masked sample_workspace ["GH_TOKEN=stale"; "HOME=/root"] "jwt").
  - vm_compute. reflexivity.
  - intros H. by apply (f_equal (lookup "NPM")) in H.
  - apply map_Forall_to_list. vm_compute. repeat constructor; done.
Defined.
