(* ===== verification/GoText.v ===== *)
(** * Text, dates and JSON, as Go's library writes them

    What the prompt of an agent, the summaries of its tool calls and its
    configuration use of [unicode/utf8], [encoding/json] and [time]: the runes of a
    string, the text of a JSON value, and the date and minute of an instant. *)

From S2P Require Import Prelude.
From S2P Require Workspace.
From Stdlib Require Import Ascii.

(** ** Runes *)

Definition in_byte (lo hi : nat) (c : ascii) : bool :=
  Nat.leb lo (nat_of_ascii c) && Nat.leb (nat_of_ascii c) hi.

Definition continuation : ascii → bool := in_byte 128 191.

(** The width of the rune a string starts with, 0 where its bytes are no UTF-8
    ([utf8.DecodeRuneInString], whose width for those is 1). *)
Definition rune_at (s : string) : nat :=
  match s with
  | EmptyString => 0
  | String a s =>
      if in_byte 0 127 a then 1
      else match s with
           | EmptyString => 0
           | String b s =>
               if in_byte 194 223 a && continuation b then 2
               else match s with
                    | EmptyString => 0
                    | String c s =>
                        if (in_byte 224 224 a && in_byte 160 191 b || in_byte 225 236 a && continuation b ||
                            in_byte 237 237 a && in_byte 128 159 b || in_byte 238 239 a && continuation b) &&
                           continuation c then 3
                        else match s with
                             | EmptyString => 0
                             | String d _ =>
                                 if (in_byte 240 240 a && in_byte 144 191 b || in_byte 241 243 a && continuation b ||
                                     in_byte 244 244 a && in_byte 128 143 b) && continuation c && continuation d
                                 then 4 else 0
                             end
                    end
           end
  end.

(** U+FFFD, which stands for a byte that is no rune. *)
Definition RuneError : string :=
  String (ascii_of_nat 239) (String (ascii_of_nat 191) (String (ascii_of_nat 189) "")).

(** [[]rune(s)], each rune as its own text; [skip] bytes of the last are still to
    be passed over. *)
Fixpoint runes_from (skip : nat) (s : string) : list string :=
  match s with
  | EmptyString => []
  | String _ rest =>
      match skip with
      | S skip => runes_from skip rest
      | O => match rune_at s with
             | O => RuneError :: runes_from 0 rest
             | S width => String.substring 0 (S width) s :: runes_from width rest
             end
      end
  end.

Definition runes : string → list string := runes_from 0.

(** [string(r)] of a slice of runes. *)
Definition of_runes (r : list string) : string := foldr String.append "" r.

(** ** JSON *)

(** How [encoding/json] writes a string: with the HTML characters, and the line
    separators U+2028 and U+2029, as escapes. *)
Definition json_escape (s : string) : string :=
  String (ascii_of_nat 92) s.

Definition json_byte (c : ascii) : string :=
  let n := nat_of_ascii c in
  if Nat.eqb n 34 || Nat.eqb n 92 then json_escape (String c "")
  else match n with
       | 8 => json_escape "b" | 9 => json_escape "t" | 10 => json_escape "n"
       | 12 => json_escape "f" | 13 => json_escape "r"
       | _ => if Nat.ltb n 32 || Nat.eqb n 38 || Nat.eqb n 60 || Nat.eqb n 62
              then json_escape "u00" +:+ String (hex_digit (n / 16)) (String (hex_digit (n mod 16)) "")
              else String c ""
       end%nat.

Definition json_rune (r : string) : string :=
  match r with
  | String c EmptyString => json_byte c
  | String a (String b (String c EmptyString)) =>
      if String.eqb r RuneError then r
      else if in_byte 226 226 a && in_byte 128 128 b && in_byte 168 169 c
      then json_escape "u202" +:+ String (hex_digit (nat_of_ascii c - 160)) ""
      else r
  | _ => r
  end.

Definition json_quote : string := String (ascii_of_nat 34) "".

Definition json_string (s : string) : string := json_quote +:+ of_runes (json_rune <$> runes s) +:+ json_quote.

(** A JSON value, as the code builds it; an object's fields are in the order of a
    struct's, or sorted when it is a map. *)
#[warnings="-register-all"]
Inductive Json :=
| JBool (b : bool)
| JNumber (n : Z)
| JString (s : string)
| JArray (l : list Json)
| JObject (fields : list (string * Json)).

(** [json.Marshal]. *)
Fixpoint Marshal (v : Json) : string :=
  match v with
  | JBool b => FormatBool b
  | JNumber n => FormatInt n
  | JString s => json_string s
  | JArray l => "[" +:+ Join (map Marshal l) "," +:+ "]"
  | JObject fields => "{" +:+ Join (map (λ '(k, v), json_string k +:+ ":" +:+ Marshal v) fields) "," +:+ "}"
  end.

Definition newline : string := String (ascii_of_nat 10) "".

Definition bracketed (opening closing pad : string) (items : list string) : string :=
  match items with
  | [] => opening +:+ closing
  | _ => opening +:+ newline +:+ Join (map (λ i, pad +:+ "  " +:+ i) items) ("," +:+ newline) +:+
         newline +:+ pad +:+ closing
  end.

(** [json.MarshalIndent] with no prefix and an indent of two spaces. *)
Fixpoint marshal_indent (pad : string) (v : Json) : string :=
  match v with
  | JArray l => bracketed "[" "]" pad (map (marshal_indent (pad +:+ "  ")) l)
  | JObject fields =>
      bracketed "{" "}" pad (map (λ '(k, v), json_string k +:+ ": " +:+ marshal_indent (pad +:+ "  ") v) fields)
  | v => Marshal v
  end.

Definition MarshalIndent : Json → string := marshal_indent "".

(** A map as an object: its keys in order. *)
Definition json_map (m : gmap string string) : Json :=
  JObject (omap (λ k, v ← m !! k; Some (k, JString v)) (Workspace.sorted_keys m)).

(** ** Dates *)

(** The year, month and day of a day, counted from 1970-01-01. *)
Definition civil_of_days (days : Z) : Z * Z * Z :=
  let z := days + 719468 in
  let era := z / 146097 in
  let doe := z mod 146097 in
  let yoe := (doe - doe / 1460 + doe / 36524 - doe / 146096) / 365 in
  let doy := doe - (365 * yoe + yoe / 4 - yoe / 100) in
  let mp := (5 * doy + 2) / 153 in
  let month := if mp <? 10 then mp + 3 else mp - 9 in
  (yoe + era * 400 + (if month <=? 2 then 1 else 0), month, doy - (153 * mp + 2) / 5 + 1).

(** The day of a date. *)
Definition days_of_civil (date : Z * Z * Z) : Z :=
  let '(y, m, d) := date in
  let y := if m <=? 2 then y - 1 else y in
  let era := y / 400 in
  let yoe := y mod 400 in
  let doy := (153 * (if 2 <? m then m - 3 else m + 9) + 2) / 5 + d - 1 in
  era * 146097 + (yoe * 365 + yoe / 4 - yoe / 100 + doy) - 719468.

Definition pad_digits (width : nat) (n : Z) : string :=
  let s := FormatInt (Z.abs n) in
  (if n <? 0 then "-" else "") +:+ String.concat "" (repeat "0" (width - String.length s)) +:+ s.

(** [t.UTC().Format("2006-01-02 15:04")] of an instant in microseconds. *)
Definition format_minute (t : Z) : string :=
  let minutes := t / (60 * 10 ^ 6) in
  let '(y, m, d) := civil_of_days (minutes / 1440) in
  pad_digits 4 y +:+ "-" +:+ pad_digits 2 m +:+ "-" +:+ pad_digits 2 d +:+ " " +:+
  pad_digits 2 (minutes mod 1440 / 60) +:+ ":" +:+ pad_digits 2 (minutes mod 60).

(** ** The date is the one of the day *)

(** The year of an era, and the day of the year. *)
Lemma year_of_era doe :
  0 <= doe < 146097 →
  let yoe := (doe - doe / 1460 + doe / 36524 - doe / 146096) / 365 in
  0 <= yoe < 400 ∧ 0 <= doe - (365 * yoe + yoe / 4 - yoe / 100) <= 365.
Proof. intros H. cbn zeta. split; Z.to_euclidean_division_equations; lia. Qed.

(** March comes first in the count, so that a leap day is the last of its year. *)
Lemma month_of_day doy :
  0 <= doy <= 365 →
  let mp := (5 * doy + 2) / 153 in 0 <= mp <= 11 ∧ 1 <= doy - (153 * mp + 2) / 5 + 1 <= 31.
Proof. intros H. cbn zeta. split; Z.to_euclidean_division_equations; lia. Qed.

Lemma civil_days days :
  days_of_civil (civil_of_days days) = days ∧
  let '(_, m, d) := civil_of_days days in 1 <= m <= 12 ∧ 1 <= d <= 31.
Proof.
  unfold civil_of_days. set (z := days + 719468).
  pose proof (year_of_era (z mod 146097) ltac:(by apply Z.mod_pos_bound)) as [Hy Hd]. cbn zeta in Hy, Hd.
  set (yoe := (z mod 146097 - _ + _ - _) / 365) in *. set (doy := z mod 146097 - (365 * yoe + _ - _)) in *.
  destruct (month_of_day doy Hd) as [Hm Hday]. cbn zeta in Hm, Hday. set (mp := (5 * doy + 2) / 153) in *.
  assert (Hmod : (yoe + z / 146097 * 400) mod 400 = yoe) by (rewrite Z.mod_add, Z.mod_small; lia).
  assert (Hdiv : (yoe + z / 146097 * 400) / 400 = z / 146097) by (rewrite Z.div_add, Z.div_small; lia).
  pose proof (Z.div_mod z 146097 ltac:(lia)) as Hz. unfold days_of_civil.
  destruct (Z.ltb_spec mp 10).
  - replace (mp + 3 <=? 2) with false by lia. replace (2 <? mp + 3) with true by lia.
    rewrite Z.add_0_r, Hmod, Hdiv, Z.add_simpl_r. subst z doy. lia.
  - replace (mp - 9 <=? 2) with true by lia. replace (2 <? mp - 9) with false by lia.
    rewrite Z.add_simpl_r, Z.sub_add, Hmod, Hdiv. subst z doy. lia.
Qed.

(** ** Runes of a text made of runes *)

Definition is_rune (r : string) : Prop := r ≠ "" ∧ rune_at r = String.length r.

Lemma rune_at_app r t : is_rune r → rune_at (r +:+ t) = String.length r.
Proof.
  intros [Hne H]. destruct r as [|a [|b [|c [|d [|e r]]]]]; [done|..]; simpl in H |- *;
    repeat (case_match; try discriminate; try reflexivity).
Qed.

Lemma substring_app r t : String.substring 0 (String.length r) (r +:+ t) = r.
Proof. induction r as [|c r IH]; [by destruct t|]. simpl. by rewrite IH. Qed.

Lemma runes_skip r t : runes_from (String.length r) (r +:+ t) = runes t.
Proof. induction r as [|c r IH]; [done|exact IH]. Qed.

Lemma runes_cons r t : is_rune r → runes (r +:+ t) = r :: runes t.
Proof.
  intros H. pose proof (rune_at_app r t H) as Hw. destruct r as [|c r]; [by destruct H|].
  change (String c r +:+ t) with (String c (r +:+ t)) in *. unfold runes. cbn [runes_from].
  rewrite Hw. cbn [String.length].
  f_equal; [exact (substring_app (String c r) t)|exact (runes_skip r t)].
Qed.

Lemma runes_of_runes l t : Forall is_rune l → runes (of_runes l +:+ t) = l ++ runes t.
Proof.
  induction 1 as [|r l Hr _ IH]; [done|]. cbn [of_runes foldr]. fold (of_runes l).
  by rewrite str_app_assoc, runes_cons, IH by done.
Qed.

Lemma substring_rune s w :
  rune_at s = S w → is_rune (String.substring 0 (S w) s).
Proof.
  intros H. destruct s as [|a [|b [|c [|d s]]]]; [done|..]; simpl in H;
    repeat (case_match; try discriminate); injection H as <-; (split; [done|]); simpl;
    repeat match goal with E : _ = true |- _ => rewrite E; clear E | E : _ = false |- _ => rewrite E; clear E end;
    first [reflexivity|by destruct s].
Qed.

Lemma runes_from_ok skip s : Forall is_rune (runes_from skip s).
Proof.
  revert skip. induction s as [|c s IH]; intros skip; [constructor|]. cbn [runes_from].
  destruct skip as [|skip]; [|apply IH]. destruct (rune_at (String c s)) as [|w] eqn:E; constructor; try apply IH.
  - done.
  - by apply substring_rune.
Qed.

Lemma runes_app_rune l r : Forall is_rune l → is_rune r → runes (of_runes l +:+ r) = l ++ [r].
Proof. intros Hl Hr. rewrite runes_of_runes by done. f_equal. by rewrite <- (str_app_nil_r r) at 1; rewrite runes_cons. Qed.

Example format_minute_example : format_minute 1700000100000000 = "2023-11-14 22:15".
Proof. vm_compute. reflexivity. Qed.
