(* ===== verification/ToolLog.v ===== *)
(** * Summaries of tool calls

    Models [internal/runner/agent/toollog]: the line an agent's tool call is logged
    as, whatever its arguments are: short, on one line, and without the fields that
    were redacted. *)

From S2P Require Import Prelude AuthScope ScopeParse Links Strconv Mentions GoText.
From Stdlib Require Import Ascii.

(** A [float64], as the code looks at it: the integer it is, if it is one, and
    [strconv.FormatFloat(f, 'g', -1, 64)].  Converting an integer that an [int64]
    does not hold gives what the machine gives. *)
Class Floats := {
  Float : Type; float_integer : Float → option Z; FormatFloat : Float → string; int64_of : Z → Z }.

Class FloatsLaws `{Floats} := {
  int64_of_id z : is_int64 z = true → int64_of z = z;
  FormatFloat_line f c : c ∈ [10; 13]%nat → absent (ascii_of_nat c) (FormatFloat f) = true }.

(** A decoded JSON value, [any]. *)
#[warnings="-register-all"]
Inductive Any `{Floats} :=
| ANull
| AString (s : string)
| ABool (b : bool)
| ANumber (f : Float)
| AArray (l : list Any)
| AObject (m : list (string * Any)).

Definition maxValueLen : nat := 120.
Definition maxSummaryLen : nat := 200.
Definition truncatedPlaceholder : string := "<truncated>".

(** A literal has no line break. *)
Ltac literal_line := intros ? Hn; repeat (apply elem_of_cons in Hn as [->|Hn]; [reflexivity|]); by apply elem_of_nil in Hn.

Section toollog.
Context `{Floats}.

Definition ellipsis : string := "…".

Definition truncateRunes (s : string) (max : nat) : string :=
  let r := runes s in
  if Nat.leb (length r) max then s else of_runes (take max r) +:+ ellipsis.

Definition collapseWhitespace (s : string) : string := Join (Fields s) " ".

Definition formatScalarString (s : string) : string :=
  let s := truncateRunes (collapseWhitespace s) maxValueLen in
  if Contains s " " then quoted s else s.

(** The bounds are compared as [float64]: 2^63 itself is within them. *)
Definition formatNumber (f : Float) : string :=
  match float_integer f with
  | Some n => if (- 2 ^ 63 <=? n) && (n <=? 2 ^ 63) then FormatInt (int64_of n) else FormatFloat f
  | None => FormatFloat f
  end.

Definition array_part (el : Any) : option string :=
  match el with
  | AString s => Some s
  | ABool b => Some (FormatBool b)
  | ANumber f => Some (formatNumber f)
  | _ => None
  end.

Definition formatArray (arr : list Any) : string :=
  match mapM array_part arr with
  | Some parts => formatScalarString (Join parts " ")
  | None => "[" +:+ FormatInt (Z.of_nat (length arr)) +:+ " items]"
  end.

(** [null] is passed over before. *)
Definition formatValue (v : Any) : string :=
  match v with
  | ANull => "<nil>"
  | AString s => formatScalarString s
  | ABool b => FormatBool b
  | ANumber f => formatNumber f
  | AArray l => formatArray l
  | AObject _ => "{…}"
  end.

Definition keys_of (input : gmap string Any) : list string := merge_sort String.le (map fst (map_to_list input)).

Definition summary_pair (input : gmap string Any) (k : string) : option string :=
  match input !! k with
  | None | Some ANull => None
  | Some v => Some (k +:+ "=" +:+ formatValue v)
  end.

Definition Summarize (input : gmap string Any) : string :=
  truncateRunes (Join (omap (summary_pair input) (keys_of input)) " ") maxSummaryLen.

(** The loop of [Redact]. *)
Fixpoint Redact (input : gmap string Any) (keys : list string) : gmap string Any :=
  match keys with
  | [] => input
  | k :: keys =>
      Redact (if decide (is_Some (input !! k)) then <[k := AString truncatedPlaceholder]> input else input) keys
  end.

(** ** Short *)

Lemma ellipsis_rune : is_rune ellipsis.
Proof. done. Qed.

Lemma truncateRunes_short s max : (length (runes (truncateRunes s max)) <= S max)%nat.
Proof.
  unfold truncateRunes. destruct (Nat.leb_spec (length (runes s)) max); [lia|].
  rewrite runes_app_rune; [|apply Forall_take, runes_from_ok|apply ellipsis_rune].
  rewrite length_app, length_take. simpl. lia.
Qed.

(** ** On one line *)

(** No line break. *)
Definition one_line (s : string) : Prop := ∀ n, n ∈ [10; 13]%nat → absent (ascii_of_nat n) s = true.

Lemma one_line_app a b : one_line (a +:+ b) ↔ one_line a ∧ one_line b.
Proof.
  unfold one_line. setoid_rewrite absent_app. setoid_rewrite andb_true_iff. naive_solver.
Qed.

Lemma one_line_Join l sep : one_line sep → Forall one_line l → one_line (Join l sep).
Proof.
  intros Hsep Hl n Hn. apply absent_Join; [|by apply Hsep]. eapply Forall_impl; [exact Hl|]. intros s Hs. by apply Hs.
Qed.

Lemma space_breaks n s : n ∈ [10; 13]%nat → space_width (String (ascii_of_nat n) s) = 1%nat.
Proof. intros Hn. repeat (apply elem_of_cons in Hn as [->|Hn]; [reflexivity|]). by apply elem_of_nil in Hn. Qed.

Lemma fields_from_line skip field s : one_line field → Forall one_line (fields_from skip field s).
Proof.
  revert skip field. induction s as [|c s IH]; intros skip field Hf; cbn [fields_from].
  - destruct (String.eqb field ""); by repeat constructor.
  - destruct skip as [|skip]; [|by apply IH]. destruct (space_width (String c s)) eqn:Hw.
    + apply IH. apply one_line_app. split; [done|]. intros n Hn. cbn [absent]. rewrite andb_true_r, negb_true_iff.
      apply Ascii.eqb_neq. intros ->. by rewrite space_breaks in Hw.
    + destruct (String.eqb field ""); [by apply IH; literal_line|]. constructor; [done|]. by apply IH; literal_line.
Qed.

Lemma collapse_line s : one_line (collapseWhitespace s).
Proof. apply one_line_Join; [literal_line|]. apply fields_from_line. literal_line. Qed.

Lemma substring_line n m s : one_line s → one_line (String.substring n m s).
Proof.
  revert n m. induction s as [|c s IH]; intros n m Hs; [by destruct n, m|].
  apply (one_line_app (String c "") s) in Hs as [Hc Hs].
  destruct n, m; cbn [String.substring]; [literal_line| |by apply IH..].
  change (one_line (String c "" +:+ String.substring 0 m s)). apply one_line_app. split; [done|by apply IH].
Qed.

Lemma runes_line skip s : one_line s → Forall one_line (runes_from skip s).
Proof.
  revert skip. induction s as [|c s IH]; intros skip Hs; [constructor|].
  pose proof Hs as Hrest. apply (one_line_app (String c "") s) in Hrest as [_ Hrest]. cbn [runes_from].
  destruct skip as [|skip]; [|by apply IH].
  destruct (rune_at _); constructor; try (by apply IH); [literal_line|by apply substring_line].
Qed.

Lemma of_runes_line r : Forall one_line r → one_line (of_runes r).
Proof.
  induction 1 as [|x r Hx _ IH]; [literal_line|]. cbn [of_runes foldr]. by apply one_line_app.
Qed.

Lemma truncateRunes_line s max : one_line s → one_line (truncateRunes s max).
Proof.
  intros Hs. unfold truncateRunes. destruct (Nat.leb _ _); [done|]. apply one_line_app.
  split; [|literal_line]. apply of_runes_line, Forall_take. by apply runes_line.
Qed.

Lemma digits_line (n : N) s : one_line s → one_line (pretty_N_go n s).
Proof.
  revert s. induction (N.lt_wf_0 n) as [n _ IH]. intros s Hs.
  destruct (decide (n = 0%N)) as [->|Hn]; [by rewrite pretty_N_go_0|].
  rewrite pretty_N_go_step by lia. apply IH; [by apply N.div_lt; lia|].
  apply (one_line_app (String _ "")). split; [|done]. intros c Hc. cbn [absent]. rewrite andb_true_r, negb_true_iff.
  apply Ascii.eqb_neq. intros E. destruct (digit_of_N (n mod 10)) as [Hd _]; [by apply N.mod_lt|]. rewrite E in Hd.
  repeat (apply elem_of_cons in Hc as [->|Hc]; [discriminate Hd|]). by apply elem_of_nil in Hc.
Qed.

Lemma FormatInt_line z : one_line (FormatInt z).
Proof.
  assert (Hp : ∀ p, one_line (pretty (Npos p))) by (intros p; apply digits_line; literal_line).
  destruct z as [|p|p]; [literal_line|apply Hp|]. apply (one_line_app "-"). split; [literal_line|apply Hp].
Qed.

Lemma quoted_line s : one_line (quoted s).
Proof.
  unfold quoted. apply one_line_app. split; [literal_line|]. apply one_line_app. split; [|literal_line].
  induction s as [|c s IH]; [literal_line|]. cbn [quote_bytes]. apply one_line_app. split; [|exact IH].
  destruct c as [[] [] [] [] [] [] [] []]; literal_line.
Qed.

Lemma formatScalarString_line s : one_line (formatScalarString s).
Proof.
  unfold formatScalarString. destruct (Contains _ _); [apply quoted_line|].
  apply truncateRunes_line, collapse_line.
Qed.

Context {FL : FloatsLaws}.

Lemma formatNumber_line f : one_line (formatNumber f).
Proof using FL.
  assert (one_line (FormatFloat f)) by (intros n Hn; by apply FormatFloat_line).
  unfold formatNumber. destruct (float_integer f) as [n|]; [|done]. destruct (_ && _); [apply FormatInt_line|done].
Qed.

Lemma FormatBool_line b : one_line (FormatBool b).
Proof. destruct b; literal_line. Qed.

Lemma formatValue_line v : one_line (formatValue v).
Proof using FL.
  destruct v as [|s|b|f|l|m]; cbn [formatValue]; try literal_line.
  - apply formatScalarString_line.
  - apply FormatBool_line.
  - apply formatNumber_line.
  - unfold formatArray. destruct (mapM array_part l); [apply formatScalarString_line|].
    apply (one_line_app "["). split; [literal_line|]. apply one_line_app. split; [apply FormatInt_line|literal_line].
Qed.

Lemma elem_of_keys (input : gmap string Any) k : k ∈ keys_of input ↔ is_Some (input !! k).
Proof.
  unfold keys_of. rewrite (merge_sort_Permutation String.le). setoid_rewrite list_elem_of_fmap. split.
  - intros ([k' v] & -> & Hin). exists v. by apply elem_of_map_to_list.
  - intros [v Hv]. exists (k, v). split; [done|]. by apply elem_of_map_to_list.
Qed.

Lemma summary_line (input : gmap string Any) :
  (∀ k, is_Some (input !! k) → one_line k) → one_line (Summarize input).
Proof using FL.
  intros Hk. apply truncateRunes_line, one_line_Join; [literal_line|]. apply Forall_forall. intros s Hs.
  apply list_elem_of_omap in Hs as (k & Hin%elem_of_keys & Hp). unfold summary_pair in Hp.
  assert (Hline : ∀ v, one_line (k +:+ "=" +:+ formatValue v)).
  { intros v. apply one_line_app. split; [by apply Hk|]. apply (one_line_app "="). split; [literal_line|apply formatValue_line]. }
  destruct (input !! k) as [v|]; [|done]. replace s with (k +:+ "=" +:+ formatValue v); [apply Hline|].
  destruct v; congruence.
Qed.

(** ** Redacted *)

Lemma Redact_lookup keys (input : gmap string Any) k :
  Redact input keys !! k =
    (if decide (k ∈ keys) then (λ _, AString truncatedPlaceholder) <$> input !! k else input !! k).
Proof.
  revert input. induction keys as [|key keys IH]; intros input; [done|]. cbn [Redact]. rewrite IH.
  set (redact := λ _ : Any, AString truncatedPlaceholder).
  assert (Hone : (if decide (is_Some (input !! key)) then <[key := AString truncatedPlaceholder]> input else input) !! k =
    if decide (k = key) then redact <$> input !! k else input !! k).
  { clear IH. destruct (decide (k = key)) as [->|Hne]; case_decide as Hs; try done.
    - rewrite lookup_insert_eq. by destruct Hs as [v ->].
    - apply eq_None_not_Some in Hs. by rewrite Hs.
    - by rewrite lookup_insert_ne. }
  clear IH. rewrite Hone. destruct (decide (k = key)) as [->|Hne].
  - rewrite (decide_True (P := key ∈ key :: keys)) by left. destruct (decide (key ∈ keys)); [|done]. by destruct (input !! key).
  - destruct (decide (k ∈ keys)); [rewrite decide_True by (by right); done|].
    rewrite decide_False; [done|]. rewrite elem_of_cons. tauto.
Qed.

(** Calls that differ in redacted fields alone read the same. *)
Lemma Redact_same (input input' : gmap string Any) redacted :
  (∀ k, k ∉ redacted → input !! k = input' !! k) → dom input = dom input' →
  Redact input redacted = Redact input' redacted.
Proof.
  intros Hsame Hdom. apply map_eq. intros k. rewrite !Redact_lookup. case_decide as Hin; [|by apply Hsame].
  assert (Hs : is_Some (input !! k) ↔ is_Some (input' !! k)) by (by rewrite <- !elem_of_dom, Hdom).
  destruct (input !! k) as [v|], (input' !! k) as [v'|]; try done; [by destruct Hs as [[] _]; eauto|by destruct Hs as [_ []]; eauto].
Qed.

(** C40: a tool call's summary is short, on one line unless a key of the call breaks
    it, and tells nothing of what was redacted: it has at most 201 characters, and
    two calls with the same keys that differ in redacted fields alone have the same
    summary. *)
Theorem summary_bounded (input input' : gmap string Any) (redacted : list string) :
  (∀ k, k ∉ redacted → input !! k = input' !! k) → dom input = dom input' →
  (length (runes (Summarize (Redact input redacted))) <= S maxSummaryLen)%nat ∧
  ((∀ k, is_Some (input !! k) → one_line k) → one_line (Summarize (Redact input redacted))) ∧
  Summarize (Redact input redacted) = Summarize (Redact input' redacted).
Proof using FL.
  intros Hsame Hdom. split; [apply truncateRunes_short|]. split.
  - intros Hk. apply summary_line. intros k Hs. apply Hk. rewrite Redact_lookup in Hs.
    case_decide; [by apply fmap_is_Some in Hs|done].
  - f_equal. by apply Redact_same.
Qed.
End toollog.

(** ** The summaries of the tests *)

#[local] Instance int_floats : Floats := {|
  Float := Z; float_integer f := Some f; FormatFloat f := FormatInt f;
  int64_of z := if is_int64 z then z else int64_min |}.

#[local] Instance int_floats_laws : FloatsLaws.
Proof. split; [by intros z Hz; simpl; rewrite Hz|intros f n; apply FormatInt_line]. Qed.

Example summaries :
  Summarize ∅ = "" ∧
  Summarize {["title" := AString "Add summaries"]} = "title=" +:+ quoted "Add summaries" ∧
  Summarize {["subscribe" := ABool true; "count" := ANumber 42]} = "count=42 subscribe=true" ∧
  Summarize {["command" := AArray [AString "go"; AString "test"]]} = "command=" +:+ quoted "go test" ∧
  Summarize {["items" := AArray [AObject []; AString "y"]]} = "items=[2 items]" ∧
  Summarize {["a" := ANull; "b" := AString "keep"]} = "b=keep" ∧
  Summarize {["text" := AString ("line one" +:+ newline +:+ " line   two")]} = "text=" +:+ quoted "line one line two".
Proof. repeat split; vm_compute; reflexivity. Qed.

Lemma summary_bounded_witness :
  let call content := {["file_path" := AString "x.go"; "content" := AString content]} in
  (length (runes (Summarize (Redact (call "package x") ["content"]))) <= 201)%nat ∧
  one_line (Summarize (Redact (call "package x") ["content"])) ∧
  Summarize (Redact (call "package x") ["content"]) = Summarize (Redact (call "secret") ["content"]).
Proof.
  intros call.
  destruct (summary_bounded (call "package x") (call "secret") ["content"]) as (Hlen & Hline & Hsame).
  - intros k Hk. unfold call. destruct (decide (k = "file_path")) as [->|Hf]; [done|].
    rewrite !lookup_insert_ne by done. rewrite lookup_singleton_ne by (intros <-; by apply Hk; left).
    by rewrite lookup_singleton_ne by (intros <-; by apply Hk; left).
  - unfold call. by rewrite !dom_insert_L, !dom_singleton_L.
  - split; [exact Hlen|]. split; [|exact Hsame]. apply Hline.
    clear. intros k Hk%elem_of_dom. unfold call in Hk. rewrite dom_insert_L, dom_singleton_L in Hk.
    apply elem_of_union in Hk as [Hk|Hk]; apply elem_of_singleton in Hk as ->; literal_line.
Defined.

(** Keys are not collapsed, and so a key with a line break breaks the line; and
    2^63 passes the test of the bounds without being an [int64]. *)
Lemma summary_breaks_line :
  ¬ one_line (Summarize {["a" +:+ newline +:+ "b" := ABool true]}) ∧
  formatNumber (H := int_floats) (2 ^ 63) = "-9223372036854775808".
Proof.
  split; [|vm_compute; reflexivity]. intros Hl. specialize (Hl 10%nat ltac:(left)). vm_compute in Hl. discriminate Hl.
Qed.
