(* ===== verification/AgentProcess.v ===== *)
(** * An agent's process and the reader of its output

    Models the part that the agents of [internal/runner/agent] share ([claude.go],
    [codex.go], [copilot.go], [cursor.go], [sloppy.go]): a subprocess whose standard
    output is a pipe, the [bufio.Scanner] that cuts the pipe into lines, and the
    wait for the process.  The kernel's pipe holds a bounded number of bytes, and a
    process whose output does not fit is blocked. *)

From S2P Require Import Prelude.
From Stdlib Require Import Ascii.
From stdpp Require Import relations.

Definition LF : ascii := ascii_of_nat 10.
Definition CR : ascii := ascii_of_nat 13.

(** [bufio.ScanLines]: a trailing carriage return is no part of the line. *)
Fixpoint dropCR (l : list ascii) : list ascii :=
  match l with
  | [] => []
  | [c] => if Ascii.eqb c CR then [] else [c]
  | c :: l => c :: dropCR l
  end.

(** The complete lines at the start, and what follows the last line feed. *)
Fixpoint split_lines (s : list ascii) : list (list ascii) * list ascii :=
  match s with
  | [] => ([], [])
  | c :: s =>
      let (ls, rest) := split_lines s in
      if Ascii.eqb c LF then ([] :: ls, rest)
      else match ls with
           | [] => ([], c :: rest)
           | l :: ls => ((c :: l) :: ls, rest)
           end
  end.

(** The lines a scanner finds in the whole of an output: the last needs no line
    feed. *)
Definition lines_of (s : list ascii) : list (list ascii) :=
  let (ls, rest) := split_lines s in
  (dropCR <$> ls) ++ match rest with [] => [] | _ => [dropCR rest] end.

(** The first line feed. *)
Fixpoint cut_line (s : list ascii) : option (list ascii * list ascii) :=
  match s with
  | [] => None
  | c :: s => if Ascii.eqb c LF then Some ([], s) else prod_map (cons c) id <$> cut_line s
  end.

(** [for scanner.Scan()], then [cmd.Wait()], then the return. *)
Inductive Phase := Scanning | Waiting | Returned.

(** What the process has still to write, the pipe, whether the process is gone, the
    scanner's buffer and the lines it gave. *)
Record PipeState := mkPipe {
  ps_todo : list ascii; ps_pipe : list ascii; ps_exited : bool;
  ps_buf : list ascii; ps_phase : Phase; ps_lines : list (list ascii) }.

Definition spawned (output : list ascii) : PipeState := mkPipe output [] false [] Scanning [].

Section pipe.
(** The capacity of the pipe, and [bufio.MaxScanTokenSize], the most a scanner
    buffers. *)
Context (capacity maxTokenSize : nat).

Inductive PipeLabel :=
| PWrite (n : nat)
| PExit
| PKill
| PRead (n : nat)
| PLine
| PTooLong
| PEof
| PReturn.

(** A step: the process writes what fits, ends, or is killed; the scanner reads
    into its buffer where it holds no line, gives a line, gives up on one that
    fills the buffer, or comes to the end; [Wait] returns when the process is
    gone. *)
Definition pipe_step (l : PipeLabel) (s : PipeState) : option PipeState :=
  let '(mkPipe todo pipe exited buf phase lines) := s in
  match l with
  | PWrite n =>
      if Nat.leb 1 n && Nat.leb n (length todo) && Nat.leb (length pipe + n) capacity && negb exited
      then Some (mkPipe (drop n todo) (pipe ++ take n todo) exited buf phase lines) else None
  | PExit => match todo, exited with [], false => Some (mkPipe [] pipe true buf phase lines) | _, _ => None end
  | PKill => if exited then None else Some (mkPipe [] pipe true buf phase lines)
  | PRead n =>
      match phase, cut_line buf with
      | Scanning, None =>
          if Nat.leb 1 n && Nat.leb n (length pipe) && Nat.leb (length buf + n) maxTokenSize
          then Some (mkPipe todo (drop n pipe) exited (buf ++ take n pipe) phase lines) else None
      | _, _ => None
      end
  | PLine =>
      match phase, cut_line buf with
      | Scanning, Some (line, buf) => Some (mkPipe todo pipe exited buf phase (lines ++ [dropCR line]))
      | _, _ => None
      end
  | PTooLong =>
      match phase, cut_line buf with
      | Scanning, None =>
          if Nat.leb maxTokenSize (length buf) then Some (mkPipe todo pipe exited buf Waiting lines) else None
      | _, _ => None
      end
  | PEof =>
      match phase, cut_line buf, pipe, exited with
      | Scanning, None, [], true =>
          if Nat.leb maxTokenSize (length buf) then None
          else Some (mkPipe todo [] true buf Waiting (lines ++ match buf with [] => [] | _ => [dropCR buf] end))
      | _, _, _, _ => None
      end
  | PReturn =>
      match phase, exited with Waiting, true => Some (mkPipe todo pipe exited buf Returned lines) | _, _ => None end
  end.

(** The steps of a run that nobody cancels. *)
Definition ran (s s' : PipeState) : Prop := ∃ l, l ≠ PKill ∧ pipe_step l s = Some s'.

(** ** Lines *)

Lemma cut_line_Some s l rest : cut_line s = Some (l, rest) ↔ s = l ++ LF :: rest ∧ LF ∉ l.
Proof.
  revert l. induction s as [|c s IH]; intros l; cbn [cut_line].
  - split; [done|]. by intros [H _]; destruct l.
  - destruct (Ascii.eqb_spec c LF) as [->|Hc].
    + split; [intros [= <- <-]; split; [done|apply not_elem_of_nil]|]. intros [H Hn]. destruct l as [|d l].
      * by injection H as ->.
      * injection H as <- ->. destruct Hn. by left.
    + rewrite fmap_Some. split.
      * intros ([l' r] & E & [= -> ->]). apply IH in E as [-> Hn]. split; [done|]. apply not_elem_of_cons.
        split; [by apply not_eq_sym|done].
      * intros [H Hn]. destruct l as [|d l]; [by injection H as -> ->|]. injection H as -> ->.
        apply not_elem_of_cons in Hn as [_ Hn]. exists (l, rest). split; [by apply IH|done].
Qed.

Lemma cut_line_None s : cut_line s = None ↔ LF ∉ s.
Proof.
  split.
  - intros H Hin. apply list_elem_of_split in Hin as (l & r & E).
    induction s as [|c s IH] in l, E, H |- *; [by destruct l|]. cbn [cut_line] in H.
    destruct (Ascii.eqb_spec c LF); [done|]. apply fmap_None in H.
    destruct l as [|d l]; [by injection E as -> _|]. injection E as _ E. by apply (IH H l).
  - intros Hn. destruct (cut_line s) as [[l r]|] eqn:E; [|done]. apply cut_line_Some in E as [-> _].
    destruct Hn. apply elem_of_app. right. by left.
Qed.

Lemma split_line l rest :
  LF ∉ l → split_lines (l ++ LF :: rest) = (l :: (split_lines rest).1, (split_lines rest).2).
Proof.
  induction l as [|c l IH]; intros Hl; cbn [app split_lines].
  - destruct (split_lines rest). by rewrite Ascii.eqb_refl.
  - apply not_elem_of_cons in Hl as [Hc Hl]. rewrite IH by done.
    destruct (Ascii.eqb_spec c LF) as [->|]; [by destruct Hc|done].
Qed.

Lemma split_none s : LF ∉ s → split_lines s = ([], s).
Proof.
  induction s as [|c s IH]; intros Hs; [done|]. apply not_elem_of_cons in Hs as [Hc Hs]. cbn [split_lines].
  rewrite IH by done. destruct (Ascii.eqb_spec c LF) as [->|]; [by destruct Hc|done].
Qed.

(** The text of complete lines. *)
Definition text (ls : list (list ascii)) : list ascii := mbind (λ l, l ++ [LF]) ls.

Lemma split_text ls rest :
  Forall (λ l, LF ∉ l) ls → split_lines (text ls ++ rest) = (ls ++ (split_lines rest).1, (split_lines rest).2).
Proof.
  induction 1 as [|l ls Hl _ IH]; [simpl; by destruct (split_lines rest)|]. cbn [text mbind list_bind].
  rewrite <- !app_assoc. cbn [app]. rewrite split_line by exact Hl. unfold text in IH. by rewrite IH.
Qed.

Lemma line_inj l m a b : LF ∉ l → LF ∉ m → l ++ LF :: a = m ++ LF :: b → l = m ∧ a = b.
Proof.
  intros Hl Hm E. assert (H1 : cut_line (l ++ LF :: a) = Some (l, a)) by by apply cut_line_Some.
  assert (H2 : cut_line (l ++ LF :: a) = Some (m, b)) by by apply cut_line_Some.
  rewrite H1 in H2. by injection H2 as -> ->.
Qed.

(** ** The invariant *)

Definition tail_line (buf : list ascii) : list (list ascii) := match buf with [] => [] | _ => [dropCR buf] end.

(** Nothing is lost or made up: what was written is the lines given, the buffer, the
    pipe and what is still to write. *)
Definition scanned (output : list ascii) (ls : list (list ascii)) (s : PipeState) : Prop :=
  output = text ls ++ ps_buf s ++ ps_pipe s ++ ps_todo s ∧
  Forall (λ l, (LF ∉ l) ∧ (length l < maxTokenSize)%nat) ls ∧
  (length (ps_pipe s) <= capacity)%nat ∧ (length (ps_buf s) <= maxTokenSize)%nat ∧
  (ps_exited s = true → ps_todo s = []) ∧
  match ps_phase s with
  | Scanning => ps_lines s = dropCR <$> ls
  | phase =>
      (phase = Returned → ps_exited s = true) ∧ (LF ∉ ps_buf s) ∧
      ((length (ps_buf s) < maxTokenSize)%nat ∧ ps_pipe s = [] ∧ ps_exited s = true ∧
         ps_lines s = (dropCR <$> ls) ++ tail_line (ps_buf s) ∨
       maxTokenSize = length (ps_buf s) ∧ ps_lines s = dropCR <$> ls)
  end.

Lemma scanned_spawned output : scanned output [] (spawned output).
Proof. unfold scanned, spawned. cbn. split_and!; solve [done|lia|constructor]. Qed.

Lemma scanned_step output ls s l s' :
  l ≠ PKill → scanned output ls s → pipe_step l s = Some s' → ∃ ls', scanned output ls' s'.
Proof.
  intros Hk (Ho & Hls & Hpipe & Hbuf & Hex & Hph) Hs. destruct s as [todo pipe exited buf phase lines].
  cbn [ps_todo ps_pipe ps_exited ps_buf ps_phase ps_lines] in *. unfold scanned.
  destruct l as [n| | |n| | | |]; cbn [pipe_step] in Hs.
  - destruct (_ && _) eqn:E; [|done]. injection Hs as <-. rewrite !andb_true_iff, negb_true_iff, !Nat.leb_le in E.
    destruct E as [[[_ Hn] Hc] He]. exists ls. cbn [ps_todo ps_pipe ps_exited ps_buf ps_phase ps_lines]. subst exited.
    rewrite <- !app_assoc, take_drop, length_app, length_take. split_and!; try done; [lia|].
    destruct phase; [done|..]; destruct Hph as (Hr & Hlf & [(_ & _ & [=] & _)|[??]]); split_and!; eauto.
  - destruct todo, exited; try done. injection Hs as <-. exists ls.
    cbn [ps_todo ps_pipe ps_exited ps_buf ps_phase ps_lines]. split_and!; try done.
    destruct phase; [done|..]; destruct Hph as (Hr & Hlf & [(_ & _ & [=] & _)|[??]]); split_and!; eauto.
  - done.
  - destruct phase; [|done..]. destruct (cut_line buf); [done|]. destruct (_ && _) eqn:E; [|done].
    injection Hs as <-. rewrite !andb_true_iff, !Nat.leb_le in E. destruct E as [[_ Hn] Hc]. exists ls.
    cbn [ps_todo ps_pipe ps_exited ps_buf ps_phase ps_lines]. rewrite length_app, length_take, length_drop.
    split_and!; try done; [|lia..]. rewrite Ho, <- (take_drop n pipe) at 1. by rewrite !app_assoc.
  - destruct phase; [|done..]. destruct (cut_line buf) as [[line rest]|] eqn:E; [|done]. injection Hs as <-.
    apply cut_line_Some in E as [-> Hl]. rewrite length_app in Hbuf. cbn [length] in Hbuf. exists (ls ++ [line]).
    cbn [ps_todo ps_pipe ps_exited ps_buf ps_phase ps_lines]. split_and!; try done.
    + rewrite Ho. unfold text. rewrite bind_app. cbn. by rewrite <- !app_assoc.
    + apply Forall_app. split; [done|]. repeat constructor; [done|lia].
    + lia.
    + by rewrite fmap_app, Hph.
  - destruct phase; [|done..]. destruct (cut_line buf) eqn:E; [done|]. destruct (Nat.leb_spec maxTokenSize (length buf)); [|done].
    injection Hs as <-. exists ls. cbn [ps_todo ps_pipe ps_exited ps_buf ps_phase ps_lines].
    split_and!; try done; [by apply cut_line_None|]. right. split; [lia|done].
  - destruct phase; [|done..]. destruct (cut_line buf) eqn:E; [done|]. destruct pipe; [|done]. destruct exited; [|done].
    destruct (Nat.leb_spec maxTokenSize (length buf)); [done|]. injection Hs as <-. exists ls.
    cbn [ps_todo ps_pipe ps_exited ps_buf ps_phase ps_lines]. split_and!; try done; [by apply cut_line_None|].
    left. split_and!; [done..|]. by rewrite Hph.
  - destruct phase; [done| |done]. destruct exited; [|done]. injection Hs as <-. exists ls.
    cbn [ps_todo ps_pipe ps_exited ps_buf ps_phase ps_lines]. split_and!; try done; [by apply Hph|]. apply Hph.
Qed.

Lemma scanned_reachable output s : rtc ran (spawned output) s → ∃ ls, scanned output ls s.
Proof.
  intros Hr. assert (H : ∃ ls, scanned output ls (spawned output)) by (eexists; apply scanned_spawned).
  induction Hr as [s|s s1 s2 (l & Hl & Hs) _ IH]; [done|]. destruct H as [ls H]. apply IH.
  by apply (scanned_step output ls s l s1).
Qed.

(** ** Runs are finite *)

Definition remaining (s : PipeState) : nat :=
  3 * length (ps_todo s) + 2 * length (ps_pipe s) + length (ps_buf s) + (if ps_exited s then 0 else 1) +
  match ps_phase s with Scanning => 2 | Waiting => 1 | Returned => 0 end.

Lemma ran_remaining s s' : ran s s' → (remaining s' < remaining s)%nat.
Proof.
  intros (l & Hk & Hs). destruct s as [todo pipe exited buf phase lines]. unfold remaining.
  destruct l as [n| | |n| | | |]; cbn [pipe_step] in Hs; [| |done|..].
  - destruct (_ && _) eqn:E; [|done]. injection Hs as <-. rewrite !andb_true_iff, !Nat.leb_le in E.
    cbn [ps_todo ps_pipe ps_exited ps_buf ps_phase]. rewrite length_drop, length_app, length_take. lia.
  - destruct todo, exited; try done. injection Hs as <-. cbn. lia.
  - destruct phase, (cut_line buf); try done. destruct (_ && _) eqn:E; [|done]. injection Hs as <-.
    rewrite !andb_true_iff, !Nat.leb_le in E. cbn [ps_todo ps_pipe ps_exited ps_buf ps_phase].
    rewrite length_drop, length_app, length_take. lia.
  - destruct phase, (cut_line buf) as [[line rest]|] eqn:E; try done. injection Hs as <-.
    apply cut_line_Some in E as [-> _]. cbn [ps_todo ps_pipe ps_exited ps_buf ps_phase]. rewrite length_app. cbn [length]. lia.
  - destruct phase, (cut_line buf); try done. destruct (Nat.leb _ _); [|done]. injection Hs as <-.
    cbn [ps_todo ps_pipe ps_exited ps_buf ps_phase]. lia.
  - destruct phase, (cut_line buf), pipe, exited; try done. destruct (Nat.leb _ _); [done|]. injection Hs as <-.
    cbn [ps_todo ps_pipe ps_exited ps_buf ps_phase]. lia.
  - destruct phase, exited; try done. injection Hs as <-. cbn [ps_todo ps_pipe ps_exited ps_buf ps_phase]. lia.
Qed.

Lemma nsteps_remaining n s s' : nsteps ran n s s' → (n + remaining s' <= remaining s)%nat.
Proof. induction 1 as [|n s s1 s2 Hs%ran_remaining _ IH]; lia. Qed.

Lemma nsteps_spawned n output s : nsteps ran n (spawned output) s → (n <= 3 * length output + 3)%nat.
Proof. intros H%nsteps_remaining. unfold remaining, spawned in H. cbn in H. lia. Qed.

(** ** Every line is read *)

(** No line is as long as the scanner's limit. *)
Definition fits (output : list ascii) : Prop :=
  Forall (λ l, length l < maxTokenSize)%nat (split_lines output).1 ∧
  (length (split_lines output).2 < maxTokenSize)%nat.

(** What follows the lines that were given starts with a line that fits. *)
Lemma fits_next output ls buf rest :
  fits output → output = text ls ++ buf ++ rest → Forall (λ l, LF ∉ l) ls → LF ∉ buf →
  (length buf < maxTokenSize)%nat.
Proof.
  intros [Hls Hlast] -> Hlf Hbuf. rewrite split_text in Hls, Hlast by done. cbn [fst snd] in *.
  apply Forall_app in Hls as [_ Hls]. destruct (cut_line rest) as [[l rest']|] eqn:E.
  - apply cut_line_Some in E as [-> Hl]. rewrite app_assoc, split_line in Hls by (rewrite elem_of_app; tauto).
    cbn [fst] in Hls. apply Forall_cons in Hls as [Hls _]. rewrite length_app in Hls. lia.
  - apply cut_line_None in E. rewrite split_none in Hlast by (rewrite elem_of_app; tauto).
    cbn [snd] in Hlast. rewrite length_app in Hlast. lia.
Qed.

Lemma scanned_progress output ls s :
  (0 < capacity)%nat → fits output → scanned output ls s → ps_phase s ≠ Returned → ∃ s', ran s s'.
Proof.
  intros Hcap Hfits (Ho & Hls & Hpipe & Hbuf & Hex & Hph) Hr. destruct s as [todo pipe exited buf phase lines].
  cbn [ps_todo ps_pipe ps_exited ps_buf ps_phase ps_lines] in *.
  assert (Hlf : Forall (λ l, LF ∉ l) ls) by (eapply Forall_impl; [exact Hls|by intros l []]).
  assert (Hnext : LF ∉ buf → (length buf < maxTokenSize)%nat) by (intros; eapply fits_next; eauto).
  destruct phase; [| |done].
  - destruct (cut_line buf) as [[line rest]|] eqn:E.
    { eexists. exists PLine. split; [done|]. cbn [pipe_step]. by rewrite E. }
    pose proof (Hnext ltac:(by apply cut_line_None)) as Hlen. destruct pipe as [|c pipe].
    + destruct exited; [|destruct todo as [|c todo]].
      * eexists. exists PEof. split; [done|]. cbn [pipe_step]. rewrite E.
        by destruct (Nat.leb_spec maxTokenSize (length buf)); [lia|].
      * by eexists; exists PExit.
      * eexists. exists (PWrite 1). split; [done|]. cbn [pipe_step length].
        by destruct (Nat.leb_spec (0 + 1) capacity); [|lia].
    + eexists. exists (PRead 1). split; [done|]. cbn [pipe_step length]. rewrite E.
      by destruct (Nat.leb_spec (length buf + 1) maxTokenSize); [|lia].
  - destruct Hph as (_ & Hb & Hph). specialize (Hnext Hb). destruct Hph as [(_ & _ & -> & _)|[Hm _]]; [|lia].
    by eexists; exists PReturn.
Qed.

(** C22: an agent's prompt comes to an end and its output is read to the end.  While
    no line of the output is as long as the scanner's limit, however the process's
    writes and the scanner's reads interleave and whatever the pipe holds, there is
    always a next step until the prompt has returned, there are no more than three
    steps for each byte and three more, and the lines that the prompt was given by
    the time it returns are those of the output, each once and in order. *)
Theorem prompt_reads_all (output : list ascii) (n : nat) (s : PipeState) :
  (0 < capacity)%nat → fits output → nsteps ran n (spawned output) s →
  (n <= 3 * length output + 3)%nat ∧
  ((∃ s', ran s s') ∨ ps_phase s = Returned ∧ ps_lines s = lines_of output).
Proof.
  intros Hcap Hfits Hrun. split; [by apply nsteps_spawned in Hrun|].
  destruct (scanned_reachable output s) as [ls H]; [apply rtc_nsteps; by exists n|].
  destruct (ps_phase s) eqn:E; [left; eapply scanned_progress; eauto; congruence..|]. right. split; [done|].
  destruct H as (Ho & Hls & _ & _ & Hex & Hph). rewrite E in Hph. destruct Hph as (Hr & Hb & Hph).
  assert (Hlf : Forall (λ l, LF ∉ l) ls) by (eapply Forall_impl; [exact Hls|by intros l []]).
  pose proof (fits_next _ _ _ _ Hfits Ho Hlf Hb) as Hlen.
  destruct Hph as [(_ & Hp & _ & ->)|[Hm _]]; [|lia]. rewrite (Hex (Hr eq_refl)), Hp, app_nil_r in Ho.
  unfold lines_of. rewrite Ho, split_text, split_none by done. cbn [fst snd]. by rewrite app_nil_r.
Qed.

(** ** A line too long *)

Lemma lines_before_long ls ls' long rest post :
  text ls' ++ rest = text ls ++ long ++ post → Forall (λ l, LF ∉ l) ls → LF ∉ long →
  Forall (λ l, (LF ∉ l) ∧ (length l < maxTokenSize)%nat) ls' → (maxTokenSize <= length long)%nat →
  ∃ ls'', ls = ls' ++ ls''.
Proof.
  revert ls. induction ls' as [|l ls' IH]; intros ls E Hls Hlong Hls' Hlen; [by exists ls|].
  apply Forall_cons in Hls' as [[Hl Hshort] Hls']. cbn [text mbind list_bind] in E.
  rewrite <- !app_assoc in E. cbn [app] in E. destruct ls as [|m ls].
  - exfalso. cbn in E. apply (f_equal (lookup (length l))) in E.
    rewrite list_lookup_middle, lookup_app_l in E by (done || lia). symmetry in E.
    by apply Hlong, (list_elem_of_lookup_2 _ (length l)).
  - apply Forall_cons in Hls as [Hm Hls]. cbn [text mbind list_bind] in E. rewrite <- !app_assoc in E. cbn [app] in E.
    apply line_inj in E as [-> E]; [|done..]. destruct (IH ls E) as [ls'' ->]; try done. by exists ls''.
Qed.

(** A line that reaches the scanner's limit hangs the agent.  Where an output
    has a line of 64 KiB or more and goes on for more than a pipe holds, the scanner
    gives up on the line, nobody reads the pipe, the process blocks on it and the
    wait for the process has no end: until somebody kills it no run comes to the
    prompt's return, and every run comes to a stop. *)
Theorem long_line_hangs (ls : list (list ascii)) (long post : list ascii) (n : nat) (s : PipeState) :
  let output := text ls ++ long ++ post in
  Forall (λ l, LF ∉ l) ls → LF ∉ long → length long = maxTokenSize → (capacity < length post)%nat →
  nsteps ran n (spawned output) s →
  (n <= 3 * length output + 3)%nat ∧ ps_phase s ≠ Returned.
Proof.
  intros output Hlf Hlong Hlen Hpost Hrun. split; [by apply nsteps_spawned in Hrun|]. intros Hret.
  destruct (scanned_reachable output s) as [ls' (Ho & Hls & Hp & Hb & Hex & Hph)]; [apply rtc_nsteps; by exists n|].
  rewrite Hret in Hph. destruct Hph as (Hr & _). rewrite (Hex (Hr eq_refl)), app_nil_r in Ho.
  destruct (lines_before_long ls ls' long _ post (eq_sym Ho)) as [ls'' ->]; [done..|lia|].
  apply (f_equal length) in Ho. unfold output, text in Ho. rewrite bind_app, !length_app in Ho. lia.
Qed.
End pipe.

(** ** The wait *)

(** How the process ended, and what [cmd.Wait] makes of it as [os/exec] documents:
    a process that did not succeed gives its own status; the context's error is
    given only where the process was interrupted and succeeded all the same. *)
Inductive ExitState := Exited (code : Z) | Signaled (signal : string).

Inductive WaitError := ExitError (st : ExitState) | ContextCanceled.

Definition Wait (st : ExitState) (interrupted : bool) : option WaitError :=
  match st with
  | Exited 0 => if interrupted then Some ContextCanceled else None
  | st => Some (ExitError st)
  end.

(** [errors.Is(err, context.Canceled)]. *)
Definition is_canceled (err : option WaitError) : bool :=
  match err with Some ContextCanceled => true | _ => false end.

(** [Agent.Prompt] is to answer a cancelled context with [context.Canceled]; an
    agent that its SIGTERM kills, or that ends with a failure of its own, does not. *)
Lemma cancelled_prompt (st : ExitState) : is_canceled (Wait st true) = true ↔ st = Exited 0.
Proof. destruct st as [[| |]|]; split; try done; congruence. Qed.

(** ** Runs, by evaluation *)

#[export] Instance PipeLabel_eq : EqDecision PipeLabel.
Proof. solve_decision. Defined.

(** The steps of [labels] taken in order. *)
Fixpoint run_labels (capacity max : nat) (labels : list PipeLabel) (s : PipeState) : option PipeState :=
  match labels with
  | [] => Some s
  | l :: labels => s ← pipe_step capacity max l s; run_labels capacity max labels s
  end.

Lemma run_labels_nsteps capacity max labels s s' :
  PKill ∉ labels → run_labels capacity max labels s = Some s' → nsteps (ran capacity max) (length labels) s s'.
Proof.
  revert s. induction labels as [|l labels IH]; intros s Hk Hs; cbn [run_labels length] in *.
  - injection Hs as ->. constructor.
  - apply not_elem_of_cons in Hk as [Hl Hk]. destruct (pipe_step capacity max l s) as [s1|] eqn:E; [|done].
    econstructor; [exists l; split; [by apply not_eq_sym|exact E]|by apply IH].
Qed.

Definition two_lines : list ascii := ["a"; LF; "b"; CR; LF; "c"]%char.
Definition two_lines_run : list PipeLabel :=
  [PWrite 2; PRead 2; PLine; PWrite 2; PRead 1; PWrite 1; PRead 2; PWrite 1; PLine; PRead 1; PExit; PEof; PReturn].

Definition two_lines_end : PipeState := mkPipe [] [] true ["c"%char] Returned [["a"]; ["b"]; ["c"]]%char.

Lemma prompt_reads_all_witness :
  nsteps (ran 2 4) 13 (spawned two_lines) two_lines_end ∧ ps_lines two_lines_end = lines_of two_lines.
Proof.
  assert (Hrun : nsteps (ran 2 4) 13 (spawned two_lines) two_lines_end).
  { apply (run_labels_nsteps 2 4 two_lines_run); [by apply (bool_decide_unpack _)|reflexivity]. }
  split; [exact Hrun|].
  destruct (prompt_reads_all 2 4 two_lines 13 two_lines_end ltac:(lia)
    ltac:(split; vm_compute; repeat constructor) Hrun) as [_ [[s' (l & _ & H)]|[_ H]]]; [|exact H].
  destruct l as [[|n]| | |n| | | |]; discriminate H.
Defined.

Definition too_long_run : list PipeLabel := [PWrite 2; PRead 2; PWrite 1; PRead 1; PTooLong; PWrite 2].

Lemma long_line_hangs_witness :
  ∃ s, run_labels 2 3 too_long_run (spawned ["x"; "y"; "z"; "1"; "2"; "3"]%char) = Some s ∧
    ps_phase s = Waiting ∧ ps_phase s ≠ Returned ∧ ∀ l, l ≠ PKill → pipe_step 2 3 l s = None.
Proof.
  eexists. split; [reflexivity|]. split; [done|]. split.
  - apply (long_line_hangs 2 3 [] ["x"; "y"; "z"] ["1"; "2"; "3"] (length too_long_run))%char; cbn; try (done || lia).
    + by apply (bool_decide_unpack _).
    + apply (run_labels_nsteps 2 3 too_long_run); [by apply (bool_decide_unpack _)|reflexivity].
  - intros [n| | |n| | | |] Hk; try done. cbn [pipe_step]. destruct n as [|n]; [done|].
    cbn [length]. destruct (Nat.leb_spec (2 + S n) 2); [lia|]. by rewrite andb_false_r.
Defined.
