(* ===== verification/AgentCli.v ===== *)
(** * The agents

    Models [internal/runner/agent]'s agents, one per command-line tool:
    [interface.go] (the choice of an agent), [claude.go], [codex.go], [copilot.go],
    [cursor.go], [sloppy.go] (the command line, the MCP configuration each tool
    reads, and what its output is logged as) and [dummy.go].  A prompt is a program
    over the home directory, the files, the processes and the log; the process and
    the reading of its output are [AgentProcess]'s. *)

From S2P Require Import Prelude Prog Workspace GoText ToolLog AgentProcess.
From Stdlib Require Import Ascii.

(** ** MCP configuration *)

(** A Go map as a JSON object: its keys in order. *)
Definition sorted_entries {A} (m : gmap string A) : list (string * A) :=
  omap (λ k, pair k <$> m !! k) (merge_sort String.le (map fst (map_to_list m))).

Definition any_object (m : gmap string Json) : Json := JObject (sorted_entries m).

Definition strings_json (l : list string) : Json := JArray (JString <$> l).

(** [if len(x) > 0 { server[key] = x }]. *)
Definition set_strings (key : string) (l : list string) (m : gmap string Json) : gmap string Json :=
  match l with [] => m | _ => <[key := strings_json l]> m end.

Definition set_map (key : string) (v m : gmap string Json) : gmap string Json :=
  if decide (v = ∅) then m else <[key := any_object v]> m.

Definition string_map (m : gmap string string) : gmap string Json := JString <$> m.

Definition is_stdio (srv : McpServer) : bool := String.eqb (Mcp_Type srv) "stdio".
Definition is_http (srv : McpServer) : bool := String.eqb (Mcp_Type srv) "http" || String.eqb (Mcp_Type srv) "sse".

(** A field of a struct with [omitempty]. *)
Definition omit_string (key s : string) : list (string * Json) := if String.eqb s "" then [] else [(key, JString s)].
Definition omit_strings (key : string) (l : list string) : list (string * Json) :=
  match l with [] => [] | _ => [(key, strings_json l)] end.
Definition omit_map (key : string) (m : gmap string string) : list (string * Json) :=
  if decide (m = ∅) then [] else [(key, any_object (string_map m))].

(** [json.Marshal] of an [McpServer]. *)
Definition McpServer_json (srv : McpServer) : Json :=
  JObject ((("type", JString (Mcp_Type srv)) :: omit_string "url" (Mcp_URL srv)) ++
    omit_map "headers" (Mcp_Headers srv) ++ omit_string "command" (Mcp_Command srv) ++
    omit_strings "args" (Mcp_Args srv) ++ omit_map "env" (Mcp_Env srv)).

Definition mcp_object (f : McpServer → Json) (servers : gmap string McpServer) : Json :=
  JObject [("mcpServers", any_object (f <$> servers))].

(** [mcpConfigJSON]'s server. *)
Definition copilot_server (srv : McpServer) : Json :=
  let server : gmap string Json := {["tools" := strings_json ["*"]]} in
  any_object
    (if is_stdio srv then
       set_map "env" (string_map (Mcp_Env srv)) (set_strings "args" (Mcp_Args srv)
         (<["command" := JString (Mcp_Command srv)]> (<["type" := JString "local"]> server)))
     else if is_http srv then
       set_map "headers" (string_map (Mcp_Headers srv))
         (<["url" := JString (Mcp_URL srv)]> (<["type" := JString (Mcp_Type srv)]> server))
     else server).

(** [writeMcpConfig]'s server. *)
Definition cursor_server (srv : McpServer) : Json :=
  any_object
    (if is_stdio srv then
       set_map "env" (string_map (Mcp_Env srv)) (set_strings "args" (Mcp_Args srv)
         {["command" := JString (Mcp_Command srv)]})
     else if is_http srv then
       set_map "headers" (string_map (Mcp_Headers srv))
         (<["url" := JString (Mcp_URL srv)]> {["transport" := JString (Mcp_Type srv)]})
     else ∅).

(** [sloppyMcpServer]: the environment has no place in it. *)
Definition sloppy_server (srv : McpServer) : Json :=
  JObject (("command", JString (Mcp_Command srv)) :: omit_strings "args" (Mcp_Args srv)).

(** The order in which [range] visits a map, which is any. *)
Class MapOrder := { range : ∀ {A}, gmap string A → list (string * A) }.
Class MapOrderLaws `{MapOrder} := { range_all {A} (m : gmap string A) : range m ≡ₚ map_to_list m }.

Section toml.
Context `{MapOrder}.

(** A table of strings, where there are any. *)
Definition toml_table (name : string) (m : gmap string string) : string :=
  if decide (m = ∅) then ""
  else newline +:+ "[" +:+ name +:+ "]" +:+ newline +:+
       foldr String.append "" ((λ '(k, v), k +:+ " = " +:+ quoted v +:+ newline) <$> range m).

(** One round of [writeConfig]'s loop. *)
Definition codex_section (entry : string * McpServer) : string :=
  let '(name, srv) := entry in
  "[mcp_servers." +:+ name +:+ "]" +:+ newline +:+
  (if is_stdio srv then
     "command = " +:+ quoted (Mcp_Command srv) +:+ newline +:+
     match Mcp_Args srv with
     | [] => ""
     | args => "args = [" +:+ Join (quoted <$> args) ", " +:+ "]" +:+ newline
     end +:+
     toml_table ("mcp_servers." +:+ name +:+ ".env") (Mcp_Env srv)
   else if is_http srv then
     "url = " +:+ quoted (Mcp_URL srv) +:+ newline +:+
     toml_table ("mcp_servers." +:+ name +:+ ".http_headers") (Mcp_Headers srv)
   else "") +:+ newline.

Definition codex_config (servers : gmap string McpServer) : string :=
  foldr String.append "" (codex_section <$> range servers).
End toml.

(** ** Command lines *)

Definition opt_model (o : option ModelBin) : string := from_option mb_Model "" o.
Definition opt_bin (o : option ModelBin) (default : string) : string := or_string (from_option mb_Bin "" o) default.

Definition flag (name value : string) : list string := if String.eqb value "" then [] else [name; value].
Definition when (b : bool) (arg : string) : list string := if b then [arg] else [].

Definition has_servers (servers : gmap string McpServer) : bool := negb (bool_decide (servers = ∅)).

Definition claude_args (o : option ModelBin) (servers : gmap string McpServer) (prompt : string) (resume : bool)
    : list string :=
  ["--dangerously-skip-permissions"; "--verbose"; "--output-format"; "stream-json"; "--strict-mcp-config";
   "--model"; or_string (opt_model o) "opus"] ++
  (if has_servers servers then ["--mcp-config"; Marshal (mcp_object McpServer_json servers)] else []) ++
  when resume "--continue" ++ ["--print"; prompt].

Definition codex_args (o : option ModelBin) (prompt : string) (resume : bool) : list string :=
  if resume then ["exec"; "resume"; "--dangerously-bypass-approvals-and-sandbox"; "--json"; "--last"; prompt]
  else ["exec"; "--dangerously-bypass-approvals-and-sandbox"; "--json"] ++ flag "--model" (opt_model o) ++ [prompt].

Definition copilot_args (o : option ModelBin) (servers : gmap string McpServer) (prompt : string) (resume : bool)
    : list string :=
  ["--silent"; "--allow-all-tools"; "--allow-all-paths"; "--allow-all-urls"; "--no-auto-update"] ++
  flag "--model" (opt_model o) ++
  (if has_servers servers then ["--additional-mcp-config"; Marshal (mcp_object copilot_server servers)] else []) ++
  when resume "--continue" ++ ["--prompt"; prompt].

Definition cursor_args (o : option ModelBin) (prompt : string) (resume : bool) : list string :=
  ["--print"; "--approve-mcps"; "--force"; "--output-format"; "stream-json"] ++
  flag "--model" (opt_model o) ++ when resume "--continue" ++ [prompt].

Definition sloppy_args (config : option string) (prompt : string) : list string :=
  match config with Some path => ["--config"; path] | None => [] end ++ ["--prompt"; prompt].

(** ** What the output is logged as *)

Inductive Level := Debug | Info | Warn | Error.
Record LogRecord := mkLog { Log_Level : Level; Log_Msg : string; Log_Attrs : list (string * string) }.

Section events.
Context `{Floats}.

Record ClaudeBlock := mkClaudeBlock {
  CB_Type : string; CB_Text : string; CB_Name : string; CB_Input : gmap string Any;
  CB_ToolUseID : string; CB_Content : string; CB_IsError : bool }.
Record ClaudeEvent := mkClaudeEvent { CE_Type : string; CE_Content : list ClaudeBlock }.

Record CodexItem := mkCodexItem {
  CI_Type : string; CI_Content : list (string * string); CI_Name : string; CI_Arguments : string; CI_Status : string }.
Record CodexEvent := mkCodexEvent { CX_Type : string; CX_Item : CodexItem }.

(** The sub-objects of a tool call, as raw text. *)
Record CursorEvent := mkCursorEvent {
  CU_Type : string; CU_Subtype : string; CU_SessionID : string; CU_Content : list (string * string);
  CU_CallID : string; CU_Read : option string; CU_Write : option string; CU_Edit : option string;
  CU_Bash : option string; CU_IsError : bool }.

(** [json.Unmarshal] into each; an object that is no object, or is missing, is
    empty. *)
Class AgentJSON := {
  Unmarshal_Claude : string → option ClaudeEvent;
  Unmarshal_Codex : string → option CodexEvent;
  Unmarshal_Cursor : string → option CursorEvent;
  Unmarshal_object : string → gmap string Any;
  Unmarshal_args : string → gmap string Any }.

Context `{AgentJSON}.

Definition claude_bulky : list string := ["old_string"; "new_string"; "content"].
Definition cursor_bulky : list string := ["old_string"; "new_string"; "content"; "fileText"; "contents"].

Definition claude_assistant (b : ClaudeBlock) : list LogRecord :=
  if String.eqb (CB_Type b) "text" then
    if String.eqb (CB_Text b) "" then [] else [mkLog Info "text" [("content", CB_Text b)]]
  else if String.eqb (CB_Type b) "tool_use" then
    [mkLog Info "tool" [("name", CB_Name b); ("summary", Summarize (Redact (CB_Input b) claude_bulky))]]
  else [].

Definition claude_user (b : ClaudeBlock) : list LogRecord :=
  if String.eqb (CB_Type b) "tool_result" then
    if CB_IsError b then [mkLog Error "tool_result" [("tool_use_id", CB_ToolUseID b); ("err", CB_Content b)]]
    else [mkLog Debug "tool_result" [("tool_use_id", CB_ToolUseID b)]]
  else [].

(** [handleStreamEvent]: [None] where the line is no event. *)
Definition claude_event (line : string) : option (list LogRecord) :=
  event ← Unmarshal_Claude line;
  Some (if String.eqb (CE_Type event) "assistant" then CE_Content event ≫= claude_assistant
        else if String.eqb (CE_Type event) "user" then CE_Content event ≫= claude_user
        else []).

Definition text_block (b : string * string) : list LogRecord :=
  if String.eqb b.1 "text" && negb (String.eqb b.2 "") then [mkLog Info "text" [("content", b.2)]] else [].

Definition codex_item (item : CodexItem) : list LogRecord :=
  if String.eqb (CI_Type item) "message" then CI_Content item ≫= text_block
  else if String.eqb (CI_Type item) "function_call" then
    if String.eqb (CI_Name item) "" then []
    else
      let input := if String.eqb (CI_Arguments item) "" then ∅ else Unmarshal_object (CI_Arguments item) in
      [mkLog Info "tool" [("name", CI_Name item); ("summary", Summarize input)]]
  else if String.eqb (CI_Type item) "function_call_output" then
    [mkLog Debug "tool_result" [("status", CI_Status item)]]
  else [].

Definition codex_event (line : string) : option (list LogRecord) :=
  event ← Unmarshal_Codex line;
  Some (if String.eqb (CX_Type event) "item.created" || String.eqb (CX_Type event) "item.completed"
        then codex_item (CX_Item event)
        else if String.eqb (CX_Type event) "error" then [mkLog Error "codex error" [("data", line)]]
        else []).

(** The tool a call is of: the first of its sub-objects that is set. *)
Definition cursor_tool (e : CursorEvent) : string * option string :=
  match CU_Read e, CU_Write e, CU_Edit e, CU_Bash e with
  | Some raw, _, _, _ => ("read", Some raw)
  | None, Some raw, _, _ => ("write", Some raw)
  | None, None, Some raw, _ => ("edit", Some raw)
  | None, None, None, Some raw => ("bash", Some raw)
  | None, None, None, None => ("unknown", None)
  end.

Definition cursor_event (line : string) : option (list LogRecord) :=
  event ← Unmarshal_Cursor line;
  Some (if String.eqb (CU_Type event) "system" then
          [mkLog Info "system" [("subtype", CU_Subtype event); ("session_id", CU_SessionID event)]]
        else if String.eqb (CU_Type event) "assistant" then CU_Content event ≫= text_block
        else if String.eqb (CU_Type event) "tool_call" then
          let (name, raw) := cursor_tool event in
          let args := Redact (from_option Unmarshal_args ∅ raw) cursor_bulky in
          [mkLog Info "tool" [("name", name); ("subtype", CU_Subtype event); ("call_id", CU_CallID event);
                              ("summary", Summarize args)]]
        else if String.eqb (CU_Type event) "result" then
          if CU_IsError event then [mkLog Error "result" [("is_error", "true")]] else []
        else []).

Definition raw_output (line : string) : list LogRecord := [mkLog Info "output" [("line", line)]].

(** One round of the scanner's loop. *)
Definition log_line (verbose : bool) (event : string → option (list LogRecord)) (line : string) : list LogRecord :=
  if verbose then raw_output line else default (raw_output line) (event line).

(** ** Programs *)

(** A process to run: its command line, directory, what its environment is, and
    whether its standard error goes to the driver's log too. *)
Record Launch := mkLaunch {
  L_Bin : string; L_Args : list string; L_Dir : string; L_Env : list string; L_Tee : bool }.

Inductive CliErr :=
| ErrText (msg : string)
| ErrWait (err : WaitError).

Inductive CliOp : Set → Type :=
| UserHomeDir : CliOp (string + string)
| CMkdirAll (path : string) (mode : Z) : CliOp (option string)
| CWriteFile (path data : string) (mode : Z) : CliOp (option string)
| LookPath (name : string) : CliOp (option string)
| CStat (path : string) : CliOp bool
| RunProcess (l : Launch) : CliOp (string + list string * option WaitError)%type
| CLog (r : LogRecord) : CliOp unit
| ConnectMCP (command : string) (args env : list string) : CliOp (option string)
| CallTool (server name arguments : string) : CliOp (string + string)
| RunCommand (command : string) : CliOp (option string)
| Sleep (duration : option Z) : CliOp bool.

Abbreviation CliProg := (Prog CliOp).

(** What the agents share: the log, the directory, the environment, the servers. *)
Record AgentBase := mkBase {
  AB_Cwd : string; AB_Env : list string; AB_Verbose : bool; AB_Servers : gmap string McpServer }.

Definition log (level : Level) (msg : string) (attrs : list (string * string)) : CliProg unit :=
  trigger (CLog (mkLog level msg attrs)).

Definition logged (line : string → list LogRecord) (lines : list string) : list LogRecord := lines ≫= line.

(** Start, the scanner's loop, [Wait]. *)
Definition run_cli (l : Launch) (line : string → list LogRecord) : CliProg (option CliErr) :=
  r ⟵ trigger (RunProcess l) ;;
  match r with
  | inl err => Ret (Some (ErrText err))
  | inr (lines, err) =>
      prog_each (logged line lines) (λ r, trigger (CLog r)) ;;;
      Ret (option_map ErrWait err)
  end.

Definition claude_Prompt (a : AgentBase) (o : option ModelBin) (prompt : string) (resume : bool)
    : CliProg (option CliErr) :=
  log Info "sending prompt" [("text", prompt)] ;;;
  run_cli (mkLaunch (opt_bin o "claude") (claude_args o (AB_Servers a) prompt resume) (AB_Cwd a)
             (AB_Env a ++ ["IS_SANDBOX=1"; "DISABLE_AUTOUPDATER=1"]) true)
    (log_line (AB_Verbose a) claude_event).

(** [writeConfig] and its siblings: a file in a directory of the home. *)
Definition write_home (dir file data : string) : CliProg (string + string) :=
  home ⟵ trigger UserHomeDir ;;
  match home with
  | inl err => Ret (inl ("failed to get home directory: " +:+ err))
  | inr home =>
      let dir := home +:+ "/" +:+ dir in
      err ⟵ trigger (CMkdirAll dir 493) ;;
      match err with
      | Some err => Ret (inl err)
      | None =>
          let path := dir +:+ "/" +:+ file in
          err ⟵ trigger (CWriteFile path data 420) ;;
          Ret (match err with Some err => inl err | None => inr path end)
      end
  end.

Context `{MapOrder}.

Definition codex_Prompt (a : AgentBase) (o : option ModelBin) (prompt : string) (resume : bool)
    : CliProg (option CliErr) :=
  log Info "sending prompt" [("text", prompt)] ;;;
  r ⟵ (if has_servers (AB_Servers a) then write_home ".codex" "config.toml" (codex_config (AB_Servers a))
       else Ret (inr "")) ;;
  match r with
  | inl err => Ret (Some (ErrText ("failed to write codex config: " +:+ err)))
  | inr _ =>
      run_cli (mkLaunch (opt_bin o "codex") (codex_args o prompt resume) (AB_Cwd a) (AB_Env a) false)
        (log_line (AB_Verbose a) codex_event)
  end.

Definition copilot_Prompt (a : AgentBase) (o : option ModelBin) (prompt : string) (resume : bool)
    : CliProg (option CliErr) :=
  log Info "sending prompt" [("text", prompt)] ;;;
  (if has_servers (AB_Servers a)
   then log Info "mcp config" [("json", Marshal (mcp_object copilot_server (AB_Servers a)))]
   else log Warn "no mcp servers configured" []) ;;;
  run_cli (mkLaunch (opt_bin o "copilot") (copilot_args o (AB_Servers a) prompt resume) (AB_Cwd a) (AB_Env a) false)
    raw_output.

(** The loop of [findBin] over the names, then the default location. *)
Fixpoint find_on_path (names : list string) : CliProg (option string) :=
  match names with
  | [] => Ret None
  | name :: names =>
      p ⟵ trigger (LookPath name) ;;
      match p with Some p => Ret (Some p) | None => find_on_path names end
  end.

Definition not_found : string :=
  "cursor agent CLI not found (install: curl -fsSL https://cursor.com/install | bash)".

Definition cursor_findBin (o : option ModelBin) : CliProg (string + string) :=
  let bin := from_option mb_Bin "" o in
  if negb (String.eqb bin "") then Ret (inr bin)
  else
    p ⟵ find_on_path ["cursor-agent"; "agent"] ;;
    match p with
    | Some p => Ret (inr p)
    | None =>
        home ⟵ trigger UserHomeDir ;;
        match home with
        | inl _ => Ret (inl not_found)
        | inr home =>
            let p := home +:+ "/.local/bin/agent" in
            found ⟵ trigger (CStat p) ;;
            Ret (if found : bool then inr p else inl not_found)
        end
    end.

Definition cursor_Prompt (a : AgentBase) (o : option ModelBin) (prompt : string) (resume : bool)
    : CliProg (option CliErr) :=
  log Info "sending prompt" [("text", prompt)] ;;;
  r ⟵ (if has_servers (AB_Servers a)
       then write_home ".cursor" "mcp.json" (MarshalIndent (mcp_object cursor_server (AB_Servers a)))
       else Ret (inr "")) ;;
  match r with
  | inl err => Ret (Some (ErrText ("failed to write MCP config: " +:+ err)))
  | inr _ =>
      bin ⟵ cursor_findBin o ;;
      match bin with
      | inl err => Ret (Some (ErrText err))
      | inr bin =>
          run_cli (mkLaunch bin (cursor_args o prompt resume) (AB_Cwd a) (AB_Env a) false)
            (log_line (AB_Verbose a) cursor_event)
      end
  end.

(** Sloppy's [writeMcpConfig]: the first server that is not stdio, in any order,
    refuses the config. *)
Definition sloppy_config (servers : gmap string McpServer) : string + Json :=
  match list_find (λ e : string * McpServer, is_stdio e.2 = false) (range servers) with
  | Some (_, (name, srv)) =>
      inl ("sloppy only supports stdio MCP servers, got " +:+ Mcp_Type srv +:+ " for " +:+ quoted name)
  | None => inr (mcp_object sloppy_server servers)
  end.

Definition sloppy_writeMcpConfig (servers : gmap string McpServer) : CliProg (string + string) :=
  match sloppy_config servers with
  | inl err => Ret (inl err)
  | inr config => write_home ".sloppy" "sloppy.json" (MarshalIndent config)
  end.

Definition sloppy_Prompt (a : AgentBase) (bin : option string) (prompt : string) (resume : bool)
    : CliProg (option CliErr) :=
  if resume then Ret (Some (ErrText "sloppy does not support session resume"))
  else
    log Info "sending prompt" [("text", prompt)] ;;;
    r ⟵ (if has_servers (AB_Servers a)
         then path ⟵ sloppy_writeMcpConfig (AB_Servers a) ;;
              Ret (match path with inl err => inl err | inr path => inr (Some path) end)
         else Ret (inr None)) ;;
    match r with
    | inl err => Ret (Some (ErrText ("failed to write MCP config: " +:+ err)))
    | inr config =>
        run_cli (mkLaunch (or_string (default "" bin) "sloppy") (sloppy_args config prompt) (AB_Cwd a) (AB_Env a) false)
          raw_output
    end.

(** ** The dummy agent *)

Definition connectMCP (a : AgentBase) (name : string) : CliProg (option string) :=
  match AB_Servers a !! name with
  | None => Ret (Some ("MCP server not found: " +:+ name))
  | Some srv =>
      if negb (is_stdio srv)
      then Ret (Some ("MCP server " +:+ name +:+ " is not stdio type: " +:+ Mcp_Type srv))
      else
        log Info "connecting to MCP server" [("name", name); ("command", Mcp_Command srv)] ;;;
        trigger (ConnectMCP (Mcp_Command srv) (Mcp_Args srv) (AB_Env a ++ FromMap (Mcp_Env srv)))
  end.

Fixpoint doToolCalls (a : AgentBase) (calls : list DummyToolCall) : CliProg (option string) :=
  match calls with
  | [] => Ret None
  | tc :: calls =>
      err ⟵ connectMCP a (tc_Server tc) ;;
      match err with
      | Some _ => Ret err
      | None =>
          log Info "calling tool" [("server", tc_Server tc); ("name", tc_Tool tc)] ;;;
          r ⟵ trigger (CallTool (tc_Server tc) (tc_Tool tc) (tc_Arguments tc)) ;;
          match r with
          | inl err => Ret (Some err)
          | inr result => log Info "tool result" [("name", tc_Tool tc); ("result", result)] ;;; doToolCalls a calls
          end
      end
  end.

Fixpoint doCommands (commands : list string) : CliProg (option string) :=
  match commands with
  | [] => Ret None
  | command :: commands =>
      log Info "Running dummy command" [("command", command)] ;;;
      err ⟵ trigger (RunCommand command) ;;
      match err with
      | Some err => Ret (Some ("dummy command failed: " +:+ err))
      | None => doCommands commands
      end
  end.

(** [true] where the sleep came to its end; without a duration it has none.  The
    seconds are multiplied as an [int64]. *)
Definition doSleep (sleep : Z) : CliProg bool :=
  if sleep =? 0 then Ret true
  else if sleep <? 0 then log Info "dummy agent sleeping forever" [] ;;; trigger (Sleep None)
  else log Info "dummy agent sleeping" [] ;;; trigger (Sleep (Some (wrap64 (sleep * 10 ^ 9)))).

Definition doError (error : string) : CliProg (option string) :=
  if String.eqb error "" then Ret None
  else log Info "dummy agent returning error" [("err", error)] ;;; Ret (Some error).

Definition dummy_Prompt (a : AgentBase) (o : option DummyConfig) (prompt : string) (resume : bool)
    : CliProg (option CliErr) :=
  log Info "dummy agent received prompt" [("text", prompt); ("resume", FormatBool resume)] ;;;
  match o with
  | None => Ret None
  | Some o =>
      err ⟵ doToolCalls a (dum_ToolCalls o) ;;
      match err with
      | Some err => Ret (Some (ErrText err))
      | None =>
          err ⟵ doCommands (dum_Commands o) ;;
          match err with
          | Some err => Ret (Some (ErrText err))
          | None =>
              slept ⟵ doSleep (dum_Sleep o) ;;
              if slept : bool then
                err ⟵ doError (dum_Error o) ;; Ret (option_map ErrText err)
              else Ret (Some (ErrWait ContextCanceled))
          end
      end
  end.

(** ** The choice of an agent *)

(** [agent.Options]. *)
Record AgentOptions := mkAgentOptions {
  AO_Type : string; AO_Cwd : string; AO_Env : list string; AO_Verbose : bool;
  AO_Servers : gmap string McpServer; AO_Claude : option ModelBin; AO_Codex : option ModelBin;
  AO_Copilot : option ModelBin; AO_Cursor : option ModelBin; AO_Sloppy : option string;
  AO_Dummy : option DummyConfig }.

Inductive AgentImpl :=
| ClaudeAgent (o : option ModelBin)
| Codegritz (o : option ModelBin)
| CopilotAgent (o : option ModelBin)
| CursorAgent (o : option ModelBin)
| SloppyAgent (bin : option string)
| DummyAgent (o : option DummyConfig).

Definition agent_base (o : AgentOptions) : AgentBase :=
  mkBase (or_string (AO_Cwd o) ".") (AO_Env o) (AO_Verbose o) (AO_Servers o).

Definition NewAgent (o : AgentOptions) : string + (AgentBase * AgentImpl) :=
  let type := or_string (AO_Type o) "claude" in
  if String.eqb type "claude" then inr (agent_base o, ClaudeAgent (AO_Claude o))
  else if String.eqb type "codex" then inr (agent_base o, Codegritz (AO_Codex o))
  else if String.eqb type "copilot" then inr (agent_base o, CopilotAgent (AO_Copilot o))
  else if String.eqb type "cursor" then inr (agent_base o, CursorAgent (AO_Cursor o))
  else if String.eqb type "sloppy" then inr (agent_base o, SloppyAgent (AO_Sloppy o))
  else if String.eqb type "dummy" then inr (agent_base o, DummyAgent (AO_Dummy o))
  else inl ("unknown agent type: " +:+ AO_Type o).

(** [Agent.Prompt]. *)
Definition agent_Prompt (a : AgentBase) (impl : AgentImpl) : string → bool → CliProg (option CliErr) :=
  match impl with
  | ClaudeAgent o => claude_Prompt a o
  | Codegritz o => codex_Prompt a o
  | CopilotAgent o => copilot_Prompt a o
  | CursorAgent o => cursor_Prompt a o
  | SloppyAgent bin => sloppy_Prompt a bin
  | DummyAgent o => dummy_Prompt a o
  end.

(** ** One run of the tool, with the prompt *)

(** The processes that were run, with what came of each. *)
Abbreviation Runs := (list (Launch * (string + list string * option WaitError))).

(** What went wrong before a process could be run. *)
Inductive Fault := NoHome | NoDirectory | NotWritten | NotOnPath (name : string) | NotThere (path : string).

Abbreviation CliGhost := (Runs * list Fault)%type.

Definition noted (g : CliGhost) (failed : bool) (f : Fault) : CliGhost :=
  (g.1, g.2 ++ if failed then [f] else []).

Definition run_step (R : Set) (op : CliOp R) (g : CliGhost) (r : R) (g' : CliGhost) : Prop :=
  match op in CliOp R return R → Prop with
  | RunProcess l => λ r, g' = (g.1 ++ [(l, r)], g.2)
  | UserHomeDir => λ r, g' = noted g (match r with inl _ => true | inr _ => false end) NoHome
  | CMkdirAll _ _ => λ r, g' = noted g (bool_decide (is_Some r)) NoDirectory
  | CWriteFile _ _ _ => λ r, g' = noted g (bool_decide (is_Some r)) NotWritten
  | LookPath name => λ r, g' = noted g (bool_decide (r = None)) (NotOnPath name)
  | CStat path => λ r, g' = noted g (negb r) (NotThere path)
  | _ => λ _, g' = g
  end r.

Definition outcome (r : string + list string * option WaitError) : option CliErr :=
  match r with inl err => Some (ErrText err) | inr (_, err) => option_map ErrWait err end.

(** The argument by which a tool goes on with its last session. *)
Definition resume_flag (impl : AgentImpl) : string := match impl with Codegritz _ => "resume" | _ => "--continue" end.

Definition impl_model (impl : AgentImpl) : string :=
  match impl with
  | ClaudeAgent o => or_string (opt_model o) "opus"
  | Codegritz o | CopilotAgent o | CursorAgent o => opt_model o
  | _ => ""
  end.

(** The prompt is the last argument, as it is, and the session goes on just when it
    is to, unless the model or the prompt is spelled like the flag. *)
Record prompted (impl : AgentImpl) (prompt : string) (resume : bool) (args : list string) : Prop := {
  prompted_last : ∃ before, args = before ++ [prompt];
  prompted_resume : resume = true → resume_flag impl ∈ args;
  prompted_fresh : resume = false → resume_flag impl ∈ args →
    impl_model impl = resume_flag impl ∨ prompt = resume_flag impl ∨
    ∃ path, impl = SloppyAgent path }.

(** The file a tool reads its servers from could not be written. *)
Definition config_failed (faults : list Fault) : Prop := NoHome ∈ faults ∨ NoDirectory ∈ faults ∨ NotWritten ∈ faults.

(** Why an agent runs nothing. *)
Definition prevented (a : AgentBase) (impl : AgentImpl) (resume : bool) (faults : list Fault) : Prop :=
  match impl with
  | Codegritz _ => has_servers (AB_Servers a) = true ∧ config_failed faults
  | CursorAgent o =>
      (has_servers (AB_Servers a) = true ∧ config_failed faults) ∨
      (from_option mb_Bin "" o = "" ∧ NotOnPath "cursor-agent" ∈ faults ∧ NotOnPath "agent" ∈ faults ∧
       (NoHome ∈ faults ∨ ∃ home, NotThere (home +:+ "/.local/bin/agent") ∈ faults))
  | SloppyAgent _ =>
      resume = true ∨
      (has_servers (AB_Servers a) = true ∧
       (config_failed faults ∨ ∃ name srv, AB_Servers a !! name = Some srv ∧ is_stdio srv = false))
  | ClaudeAgent _ | CopilotAgent _ | DummyAgent _ => False
  end.

Definition one_run (a : AgentBase) (impl : AgentImpl) (prompt : string) (resume : bool) (err : option CliErr)
    (g : CliGhost) : Prop :=
  match g.1 with
  | [] => (∃ msg, err = Some (ErrText msg)) ∧ prevented a impl resume g.2
  | [(launch, r)] => prompted impl prompt resume (L_Args launch) ∧ err = outcome r
  | _ => False
  end.

Ltac in_args H := repeat (first [apply elem_of_cons in H as [H|H] | apply elem_of_app in H as [H|H]]; try discriminate H).

Lemma in_flag f name value : f ∈ flag name value → f = name ∨ f = value.
Proof.
  unfold flag. destruct (String.eqb _ _); [by intros ?%elem_of_nil|]. intros Hf. in_args Hf; auto. by apply elem_of_nil in Hf.
Qed.

Lemma claude_prompted o servers prompt resume :
  prompted (ClaudeAgent o) prompt resume (claude_args o servers prompt resume).
Proof.
  unfold claude_args. split.
  - eexists. rewrite !app_assoc. change ["--print"; prompt] with (["--print"] ++ [prompt]). by rewrite app_assoc.
  - intros ->. rewrite !elem_of_app. right. right. left. by left.
  - intros -> Hf. cbn [resume_flag impl_model] in *. in_args Hf; auto.
    all: try (by apply elem_of_nil in Hf). destruct (has_servers servers); in_args Hf; by apply elem_of_nil in Hf.
Qed.

#[local] Hint Extern 1 => match goal with Hf : _ ∈ [] |- _ => by apply elem_of_nil in Hf end : core.

Ltac fresh_args Hf := cbn [resume_flag impl_model] in *; in_args Hf; auto;
  apply in_flag in Hf as [Hf|Hf]; [discriminate Hf|auto].

Lemma codex_prompted o prompt resume : prompted (Codegritz o) prompt resume (codex_args o prompt resume).
Proof.
  unfold codex_args. split.
  - destruct resume; [by eexists ["exec"; _; _; _; _]|]. rewrite app_assoc. by eexists.
  - intros ->. right. by left.
  - intros -> Hf. fresh_args Hf.
Qed.

Lemma copilot_prompted o servers prompt resume :
  prompted (CopilotAgent o) prompt resume (copilot_args o servers prompt resume).
Proof.
  unfold copilot_args. split.
  - eexists. rewrite !app_assoc. change ["--prompt"; prompt] with (["--prompt"] ++ [prompt]). by rewrite app_assoc.
  - intros ->. rewrite !elem_of_app. right. right. right. left. by left.
  - intros -> Hf. cbn [resume_flag impl_model] in *. in_args Hf; auto.
    + apply in_flag in Hf as [Hf|Hf]; [discriminate Hf|auto].
    + destruct (has_servers servers); in_args Hf; auto.
Qed.

Lemma cursor_prompted o prompt resume : prompted (CursorAgent o) prompt resume (cursor_args o prompt resume).
Proof.
  unfold cursor_args. split.
  - eexists. rewrite !app_assoc. done.
  - intros ->. rewrite !elem_of_app. right. right. left. by left.
  - intros -> Hf. fresh_args Hf.
Qed.

Lemma sloppy_prompted bin config prompt : prompted (SloppyAgent bin) prompt false (sloppy_args config prompt).
Proof.
  unfold sloppy_args. split; [|done|eauto].
  eexists. change ["--prompt"; prompt] with (["--prompt"] ++ [prompt]). by rewrite app_assoc.
Qed.

(** *** Programs *)

Abbreviation cli := (wp (demonic run_step)).

Lemma cli_bind {A B} (f : A → CliProg B) (p : CliProg A) (Φ : B → CliGhost → Prop) g :
  cli p (λ a, cli (f a) Φ) g → cli (prog_bind f p) Φ g.
Proof. apply prog_wp_bind. exact (demonic_mono run_step). Qed.

Lemma cli_mono {A} (p : CliProg A) (Φ Ψ : A → CliGhost → Prop) g : (∀ a g', Φ a g' → Ψ a g') → cli p Φ g → cli p Ψ g.
Proof. apply (prog_wp_mono _ (demonic_mono run_step)). Qed.

Lemma cli_log {B} level msg attrs (p : CliProg B) Φ g :
  cli p Φ g → cli (prog_bind (λ _, p) (log level msg attrs)) Φ g.
Proof. intros Hp [] g' Hs. cbn in Hs. by subst. Qed.

Lemma cli_logs l g : cli (prog_each l (λ r, trigger (CLog r))) (λ _ g', g' = g) g.
Proof. apply wp_each; [exact (demonic_mono run_step)| |done]. intros r g' _ -> [] g1 Hs. exact Hs. Qed.

Lemma cli_run l line g : cli (run_cli l line) (λ err g', ∃ r, g' = (g.1 ++ [(l, r)], g.2) ∧ err = outcome r) g.
Proof.
  unfold run_cli. apply cli_bind. intros r g' Hs. cbn in Hs. destruct r as [err|[lines err]]; cbn [wp]; [by eexists|].
  apply cli_bind. eapply cli_mono; [|apply cli_logs]. intros [] g1 ->. cbn [wp]. by eexists.
Qed.

(** A program that runs nothing, and what it notes. *)
Definition runs_nothing {A} (Post : A → list Fault → Prop) (p : CliProg A) : Prop :=
  ∀ g, cli p (λ a g', g'.1 = g.1 ∧ ∃ fs, g'.2 = g.2 ++ fs ∧ Post a fs) g.

Lemma nothing_bind {A B} Post (f : A → CliProg B) (p : CliProg A) (Φ : B → CliGhost → Prop) g :
  runs_nothing Post p → (∀ a fs, Post a fs → cli (f a) Φ (g.1, g.2 ++ fs)) → cli (prog_bind f p) Φ g.
Proof.
  intros Hp Hf. apply cli_bind. eapply cli_mono; [|apply Hp].
  intros a [runs faults] [Hr (fs & Hfs & Hpost)]. simpl in *. subst. by apply Hf.
Qed.

Lemma nothing_ret {A} (Post : A → list Fault → Prop) (a : A) : Post a [] → runs_nothing Post (Ret a).
Proof. intros Ha g. split; [done|]. exists []. by rewrite app_nil_r. Qed.

Lemma nothing_mono {A} (Post Post' : A → list Fault → Prop) (p : CliProg A) :
  (∀ a fs, Post a fs → Post' a fs) → runs_nothing Post p → runs_nothing Post' p.
Proof. intros Hp Hn g. eapply cli_mono; [|apply Hn]. intros a g' [Hr (fs & Hfs & Ha)]. eauto. Qed.

Lemma nothing_then {A B} Post Post' (f : A → CliProg B) (p : CliProg A) :
  runs_nothing Post p → (∀ a fs, Post a fs → runs_nothing (λ b fs', Post' b (fs ++ fs')) (f a)) →
  runs_nothing Post' (prog_bind f p).
Proof.
  intros Hp Hf g. eapply nothing_bind; [exact Hp|]. intros a fs Ha. eapply cli_mono; [|by apply (Hf a fs Ha)].
  intros b g' [Hr (fs' & Hfs & Hb)]. simpl in *. split; [done|]. exists (fs ++ fs'). by rewrite Hfs, app_assoc.
Qed.

(** One operation that may be noted. *)
Ltac one_op := intros ? ? ? Hs; cbn in Hs; unfold noted in Hs; subst; split; [done|]; eexists; split; [reflexivity|].

Lemma nothing_home : runs_nothing (λ r fs, fs = match r with inl _ => [NoHome] | inr _ => [] end) (trigger UserHomeDir).
Proof. one_op. by destruct r. Qed.

Lemma nothing_mkdir dir mode : runs_nothing (λ r fs, fs = match r with Some _ => [NoDirectory] | None => [] end) (trigger (CMkdirAll dir mode)).
Proof. one_op. by destruct r. Qed.

Lemma nothing_write path data mode :
  runs_nothing (λ r fs, fs = match r with Some _ => [NotWritten] | None => [] end) (trigger (CWriteFile path data mode)).
Proof. one_op. by destruct r. Qed.

Lemma nothing_look name : runs_nothing (λ r fs, fs = match r with Some _ => [] | None => [NotOnPath name] end) (trigger (LookPath name)).
Proof. one_op. by destruct r. Qed.

Lemma nothing_stat path : runs_nothing (λ r fs, fs = if r : bool then [] else [NotThere path]) (trigger (CStat path)).
Proof. one_op. by destruct r. Qed.

Definition config_post {A} (r : string + A) (fs : list Fault) : Prop := ∀ err, r = inl err → config_failed fs.

Lemma nothing_write_home dir file data : runs_nothing config_post (write_home dir file data).
Proof.
  unfold write_home. eapply nothing_then; [apply nothing_home|]. intros [err|home] fs ->.
  { apply nothing_ret. intros ? _. left. by left. }
  eapply nothing_then; [apply nothing_mkdir|]. intros [err|] fs ->.
  { apply nothing_ret. intros ? _. right. left. by left. }
  eapply nothing_then; [apply nothing_write|]. intros [err|] fs ->; apply nothing_ret.
  - intros ? _. right. right. by left.
  - intros ? [=].
Qed.

Lemma nothing_find_on_path names :
  runs_nothing (λ r fs, r = None → ∀ name, name ∈ names → NotOnPath name ∈ fs) (find_on_path names).
Proof.
  induction names as [|name names IH]; cbn [find_on_path].
  { apply nothing_ret. intros _ name Hn. by apply elem_of_nil in Hn. }
  eapply nothing_then; [apply nothing_look|]. intros [p|] fs ->; [by apply nothing_ret|].
  eapply nothing_mono; [|exact IH]. cbn beta. intros r fs Hfs Hr name' [->|Hn]%elem_of_cons; [by left|].
  right. by apply Hfs.
Qed.

Lemma nothing_findBin o : runs_nothing (λ r fs, ∀ err, r = inl err →
  from_option mb_Bin "" o = "" ∧ NotOnPath "cursor-agent" ∈ fs ∧ NotOnPath "agent" ∈ fs ∧
  (NoHome ∈ fs ∨ ∃ home, NotThere (home +:+ "/.local/bin/agent") ∈ fs)) (cursor_findBin o).
Proof.
  unfold cursor_findBin. destruct (String.eqb_spec (from_option mb_Bin "" o) "") as [Hbin|]; cbn [negb];
    [|by apply nothing_ret].
  eapply nothing_then; [apply (nothing_find_on_path ["cursor-agent"; "agent"])|].
  intros [p|] fs Hfs; [by apply nothing_ret|].
  assert (Hin : NotOnPath "cursor-agent" ∈ fs ∧ NotOnPath "agent" ∈ fs).
  { split; apply Hfs; [done|by left|done|right; by left]. }
  eapply nothing_then; [apply nothing_home|]. intros [err|home] fs' ->.
  { apply nothing_ret. intros ? _. split; [done|]. rewrite !elem_of_app. split_and!; [tauto|tauto|].
    left. right. left. by left. }
  eapply nothing_then; [apply nothing_stat|]. intros [] fs' ->; [by apply nothing_ret|].
  apply nothing_ret. intros ? _. split; [done|]. rewrite !elem_of_app. split_and!; [tauto|tauto|].
  right. exists home. rewrite !elem_of_app. right. right. left. by left.
Qed.

Lemma run_prompted a impl prompt resume l line g :
  g.1 = [] → prompted impl prompt resume (L_Args l) → cli (run_cli l line) (one_run a impl prompt resume) g.
Proof.
  intros Hg Hp. eapply cli_mono; [|apply cli_run]. intros err g' (r & -> & ->). unfold one_run. simpl.
  by rewrite Hg.
Qed.

Definition is_dummy (impl : AgentImpl) : bool := match impl with DummyAgent _ => true | _ => false end.

(** The program that writes a configuration, where there are servers. *)
Lemma nothing_config {A} (servers : gmap string McpServer) (p : CliProg (string + A)) (none : A) Post :
  runs_nothing Post p →
  runs_nothing (λ r fs, ∀ err, r = inl err → has_servers servers = true ∧ Post r fs)
    (if has_servers servers then p else Ret (inr none)).
Proof.
  intros Hp. destruct (has_servers servers); [|by apply nothing_ret].
  eapply nothing_mono; [|exact Hp]. auto.
Qed.

Context {MOL : MapOrderLaws}.

Lemma sloppy_config_refused servers err :
  sloppy_config servers = inl err → ∃ name srv, servers !! name = Some srv ∧ is_stdio srv = false.
Proof using MOL.
  unfold sloppy_config. destruct (list_find _ _) as [[i [name srv]]|] eqn:E; [|done]. intros _. exists name, srv.
  apply list_find_Some in E as (Hi & Hs & _). split; [|done].
  apply elem_of_map_to_list. rewrite <- range_all. by eapply list_elem_of_lookup_2.
Qed.

Lemma nothing_sloppy servers : runs_nothing (λ r fs, ∀ err, r = inl err →
  config_failed fs ∨ ∃ name srv, servers !! name = Some srv ∧ is_stdio srv = false) (sloppy_writeMcpConfig servers).
Proof using MOL.
  unfold sloppy_writeMcpConfig. destruct (sloppy_config servers) as [err|config] eqn:E.
  - apply nothing_ret. intros ? _. right. by eapply sloppy_config_refused.
  - eapply nothing_mono; [|apply nothing_write_home]. intros r fs Hr err Herr. left. by eapply Hr.
Qed.

Lemma agent_Prompt_runs a impl prompt resume :
  is_dummy impl = false → cli (agent_Prompt a impl prompt resume) (one_run a impl prompt resume) ([], []).
Proof using MOL.
  intros Hd. destruct impl as [o|o|o|o|bin|o]; [..|done]; cbn [agent_Prompt].
  - unfold claude_Prompt. apply cli_log, run_prompted; [done|apply claude_prompted].
  - unfold codex_Prompt. apply cli_log. eapply nothing_bind.
    { eapply (nothing_config (AB_Servers a)), nothing_write_home. }
    intros [err|path] fs Hfs; [|apply run_prompted; [done|apply codex_prompted]].
    split; [by eexists|]. destruct (Hfs err eq_refl) as [Hhas Hc]. split; [done|by eapply Hc].
  - unfold copilot_Prompt. apply cli_log. eapply (nothing_bind (λ _ fs, fs = [])).
    { destruct (has_servers _); intros g [] g' Hs; cbn in Hs; subst; (split; [done|]; exists []; by rewrite app_nil_r). }
    intros [] fs ->. apply run_prompted; [done|apply copilot_prompted].
  - unfold cursor_Prompt. apply cli_log. eapply nothing_bind.
    { eapply (nothing_config (AB_Servers a)), nothing_write_home. }
    intros [err|path] fs Hfs.
    { split; [by eexists|]. left. destruct (Hfs err eq_refl) as [Hhas Hc]. split; [done|by eapply Hc]. }
    eapply nothing_bind; [apply nothing_findBin|]. intros [err|path'] fs' Hfs'; [|apply run_prompted; [done|apply cursor_prompted]].
    split; [by eexists|]. right. cbn [fst snd]. destruct (Hfs' err eq_refl) as (Hb & Hp1 & Hp2 & Hp3).
    split; [done|]. rewrite !elem_of_app. split_and!; [by right..|].
    destruct Hp3 as [Hp3|[home Hp3]]; [left; by right|right; exists home; apply elem_of_app; by right].
  - unfold sloppy_Prompt. destruct resume; [split; [by eexists|by left]|]. apply cli_log. eapply nothing_bind.
    { apply (nothing_config (AB_Servers a) _ None (λ r fs, ∀ err, r = inl err →
        config_failed fs ∨ ∃ name srv, AB_Servers a !! name = Some srv ∧ is_stdio srv = false)).
      eapply nothing_then; [apply nothing_sloppy|]. intros [err|path] fs Hfs; apply nothing_ret; [|by intros ? [=]].
      rewrite app_nil_r. intros ? _. by eapply Hfs. }
    intros [err|config] fs Hfs; [|apply run_prompted; [done|apply sloppy_prompted]].
    split; [by eexists|]. right. destruct (Hfs err eq_refl) as [Hhas Hc]. split; [done|by eapply Hc].
Qed.

(** C20: an agent runs its tool once, on the prompt.  Whatever the world answers, a
    prompt of an agent that is a command-line tool runs one process, whose last
    argument is the prompt as it was given and which goes on with the last session
    just when it is to, and what the prompt returns is what became of that process;
    or it runs nothing and fails with a message, and then only because the file that
    its MCP servers go to could not be written, because Cursor's tool is neither
    configured nor on the path nor in the home, because Sloppy was to go on with a
    session, or because Sloppy was given a server that is not stdio. *)
Theorem agent_runs_prompt (a : AgentBase) (impl : AgentImpl) (prompt : string) (resume : bool)
    (l : list {R : Set & (CliOp R * R)%type}) (err : option CliErr) (g : CliGhost) :
  is_dummy impl = false → exec run_step (agent_Prompt a impl prompt resume) ([], []) l err g →
  one_run a impl prompt resume err g.
Proof using MOL. intros Hd. exact (demonic_exec run_step _ _ _ _ _ _ (agent_Prompt_runs a impl prompt resume Hd)). Qed.

(** ** The log *)

(** Two blocks that differ in bulky fields alone. *)
Definition alike (bulky : list string) (m m' : gmap string Any) : Prop :=
  (∀ k, k ∉ bulky → m !! k = m' !! k) ∧ dom m = dom m'.

(** What a tool call writes to a file is not logged. *)
Lemma claude_redacts b m :
  alike claude_bulky (CB_Input b) m →
  claude_assistant b = claude_assistant
    (mkClaudeBlock (CB_Type b) (CB_Text b) (CB_Name b) m (CB_ToolUseID b) (CB_Content b) (CB_IsError b)).
Proof. intros [Hs Hd]. unfold claude_assistant. cbn [CB_Type CB_Text CB_Name CB_Input].
  by rewrite (Redact_same _ _ _ Hs Hd). Qed.

(** A line that is no event is logged as it is, and so is every line in verbose
    mode. *)
Lemma unread_line_logged verbose event line :
  verbose = true ∨ event line = None → log_line verbose event line = [mkLog Info "output" [("line", line)]].
Proof. unfold log_line. destruct verbose; [done|]. by intros [[=]| ->]. Qed.

(** The records of an output are those of its lines, in order: with
    [AgentProcess.prompt_reads_all], of the lines of everything the tool wrote. *)
Lemma run_cli_logs l line lines err :
  let answer (R : Set) (op : CliOp R) (s : list LogRecord) : R → list LogRecord → Prop :=
    match op in CliOp R return R → list LogRecord → Prop with
    | RunProcess _ => λ r s', r = inr (lines, err) ∧ s' = s
    | CLog rec => λ _ s', s' = s ++ [rec]
    | _ => λ _ _, False
    end in
  ∀ trace r s, exec (λ R op s r s', answer R op s r s') (run_cli l line) [] trace r s →
    s = lines ≫= line ∧ r = option_map ErrWait err.
Proof.
  intros answer trace r s Hrun.
  assert (Hlog : ∀ recs s0, wp (demonic (λ R op s r s', answer R op s r s')) (prog_each recs (λ r, trigger (CLog r)))
    (λ _ s', s' = s0 ++ recs) s0).
  { induction recs as [|rec recs IH]; intros s0; cbn [prog_each]; [by rewrite app_nil_r|].
    apply prog_wp_bind; [apply demonic_mono|]. intros [] s1 Hs. cbn in Hs. subst. cbn [wp].
    eapply prog_wp_mono; [apply demonic_mono| |apply IH]. intros [] s' ->. by rewrite <- app_assoc. }
  refine (demonic_exec (λ R op s r s', answer R op s r s') _ (λ r s, s = lines ≫= line ∧ r = option_map ErrWait err)
    _ _ _ _ _ Hrun).
  unfold run_cli. apply prog_wp_bind; [apply demonic_mono|]. intros r0 s0 Hs. cbn in Hs. destruct Hs as [-> ->]. cbn [wp].
  apply prog_wp_bind; [apply demonic_mono|]. eapply prog_wp_mono; [apply demonic_mono| |apply Hlog]. by intros [] s' ->.
Qed.

(** ** Every server is in the configuration *)

Lemma elem_of_entries {A} (m : gmap string A) k v : (k, v) ∈ sorted_entries m ↔ m !! k = Some v.
Proof.
  unfold sorted_entries. rewrite list_elem_of_omap. split.
  - intros (k' & _ & Hk). destruct (m !! k') as [v'|] eqn:E; [|done]. by injection Hk as -> ->.
  - intros Hk. exists k. split; [|by rewrite Hk]. rewrite (merge_sort_Permutation String.le).
    apply list_elem_of_fmap. exists (k, v). split; [done|by apply elem_of_map_to_list].
Qed.

(** The object that a tool reads: each server under its name, and no other. *)
Lemma mcp_object_servers f servers name v :
  ∃ fields, mcp_object f servers = JObject [("mcpServers", JObject fields)] ∧
    ((name, v) ∈ fields ↔ ∃ srv, servers !! name = Some srv ∧ v = f srv).
Proof.
  eexists. split; [reflexivity|]. rewrite elem_of_entries, lookup_fmap, fmap_Some. split.
  - intros (srv & Hn & Hv). by exists srv.
  - intros (srv & Hn & Hv). by exists srv.
Qed.

(** Codex's file, in whatever order it was written. *)
Lemma codex_sections servers name srv :
  servers !! name = Some srv → ∃ before after, codex_config servers = before +:+ codex_section (name, srv) +:+ after.
Proof using MOL.
  intros Hn. unfold codex_config. assert (Hin : (name, srv) ∈ range servers).
  { rewrite range_all. by apply elem_of_map_to_list. }
  apply list_elem_of_split in Hin as (l1 & l2 & ->). rewrite fmap_app. cbn [fmap list_fmap].
  exists (foldr String.append "" (codex_section <$> l1)), (foldr String.append "" (codex_section <$> l2)).
  induction (codex_section <$> l1) as [|s l IH]; [done|]. cbn [app foldr]. by rewrite IH, str_app_assoc.
Qed.

(** Sloppy's file has no place for a server's environment, and says nothing of it. *)
Lemma sloppy_drops_env srv env :
  sloppy_server srv = sloppy_server (mkMcpServer (Mcp_Type srv) (Mcp_URL srv) (Mcp_Headers srv) (Mcp_Command srv)
    (Mcp_Args srv) env).
Proof. reflexivity. Qed.

Lemma NewAgent_unknown o :
  (∃ err, NewAgent o = inl err) ↔
  or_string (AO_Type o) "claude" ∉ ["claude"; "codex"; "copilot"; "cursor"; "sloppy"; "dummy"].
Proof.
  unfold NewAgent. rewrite !not_elem_of_cons. generalize (or_string (AO_Type o) "claude") as type. intros type.
  destruct (String.eqb_spec type "claude"), (String.eqb_spec type "codex"), (String.eqb_spec type "copilot"),
    (String.eqb_spec type "cursor"), (String.eqb_spec type "sloppy"), (String.eqb_spec type "dummy");
    split; intros Hx; try (by destruct Hx); try tauto.
  - split_and!; try done. apply not_elem_of_nil.
  - by eexists.
Qed.
End events.

(** ** A run, by evaluation *)

#[local] Instance cli_floats : Floats := {|
  Float := Z; float_integer f := Some f; FormatFloat f := FormatInt f;
  int64_of z := if is_int64 z then z else int64_min |}.

(** A decoder that knows one line of each tool. *)
#[local] Instance cli_json : AgentJSON := {|
  Unmarshal_Claude line :=
    if String.eqb line "tool" then Some (mkClaudeEvent "assistant"
      [mkClaudeBlock "text" "hi" "" ∅ "" "" false;
       mkClaudeBlock "tool_use" "" "Write" {["file_path" := AString "x.go"; "content" := AString "package x"]} "" "" false])
    else None;
  Unmarshal_Codex _ := None; Unmarshal_Cursor _ := None;
  Unmarshal_object _ := ∅; Unmarshal_args _ := ∅ |}.

#[local] Instance cli_order : MapOrder := {| range _ := map_to_list |}.
#[local] Instance cli_order_laws : MapOrderLaws.
Proof. by constructor. Defined.

Example claude_logs :
  mbind (M := list) (log_line false claude_event) ["tool"; "not json"] =
    [mkLog Info "text" [("content", "hi")];
     mkLog Info "tool" [("name", "Write"); ("summary", "content=<truncated> file_path=x.go")];
     mkLog Info "output" [("line", "not json")]].
Proof. vm_compute. reflexivity. Qed.

Definition gritz_server : McpServer :=
  mkMcpServer "stdio" "" ∅ "gritz" ["mcp"] {["TOKEN" := "x<y"]}.

Definition cli_base : AgentBase := mkBase "." ["HOME=/root"] false {["gritz" := gritz_server]}.

Example configurations :
  let q := json_quote in
  let k s := q +:+ s +:+ q +:+ ":" in
  Marshal (mcp_object McpServer_json (AB_Servers cli_base)) =
    "{" +:+ k "mcpServers" +:+ "{" +:+ k "gritz" +:+ "{" +:+ k "type" +:+ q +:+ "stdio" +:+ q +:+ "," +:+
    k "command" +:+ q +:+ "gritz" +:+ q +:+ "," +:+ k "args" +:+ "[" +:+ q +:+ "mcp" +:+ q +:+ "]," +:+
    k "env" +:+ "{" +:+ k "TOKEN" +:+ q +:+ "x\u003cy" +:+ q +:+ "}}}}" ∧
  codex_config (AB_Servers cli_base) =
    "[mcp_servers.gritz]
command = " +:+ q +:+ "gritz" +:+ q +:+ "
args = [" +:+ q +:+ "mcp" +:+ q +:+ "]

[mcp_servers.gritz.env]
TOKEN = " +:+ q +:+ "x<y" +:+ q +:+ "

".
Proof. split; vm_compute; reflexivity. Qed.

(** Codex resumes its session, and the tool fails. *)
Lemma agent_runs_prompt_witness :
  ∃ l, let r := inr ([], Some (ExitError (Exited 1))) in
    exec run_step (agent_Prompt cli_base (Codegritz None) "go on" true) ([], []) l
      (Some (ErrWait (ExitError (Exited 1)))) ([(mkLaunch "codex"
        ["exec"; "resume"; "--dangerously-bypass-approvals-and-sandbox"; "--json"; "--last"; "go on"] "."
        ["HOME=/root"] false, r)], []) ∧
    prompted (Codegritz None) "go on" true
      ["exec"; "resume"; "--dangerously-bypass-approvals-and-sandbox"; "--json"; "--last"; "go on"].
Proof.
  assert (Hrun : ∃ l, exec run_step (agent_Prompt cli_base (Codegritz None) "go on" true) ([], []) l
      (Some (ErrWait (ExitError (Exited 1)))) ([(mkLaunch "codex"
        ["exec"; "resume"; "--dangerously-bypass-approvals-and-sandbox"; "--json"; "--last"; "go on"] "."
        ["HOME=/root"] false, inr ([], Some (ExitError (Exited 1))))], [])).
  { eexists. unfold agent_Prompt, codex_Prompt, log, trigger.
    replace (has_servers (AB_Servers cli_base)) with true by (vm_compute; reflexivity).
    unfold write_home, run_cli, trigger.
    cbn [prog_bind exec]. exists tt. do 2 eexists. split; [reflexivity|]. split; [|reflexivity].
    exists (inr "/root"). do 2 eexists. split; [reflexivity|]. split; [|reflexivity].
    exists None. do 2 eexists. split; [reflexivity|]. split; [|reflexivity].
    exists None. do 2 eexists. split; [reflexivity|]. split; [|reflexivity].
    cbn [prog_bind exec]. exists (inr ([], Some (ExitError (Exited 1)))). do 2 eexists.
    split; [reflexivity|]. split; [|reflexivity].
    split; [reflexivity|]. split; reflexivity. }
  destruct Hrun as [l Hrun]. exists l. split; [exact Hrun|].
  exact (proj1 (agent_runs_prompt cli_base (Codegritz None) "go on" true l _ _ eq_refl Hrun)).
Defined.
