(* ===== verification/McpSwap.v ===== *)
(** * MCP plumbing

    Models [internal/x/mcpswap]: the upstream session that can be swapped while
    requests are served, as steps that interleave at every atomic access, lock and
    call of a session, and which requests are forwarded to it; [internal/x/githubmcp]: when the session is rotated;
    [internal/x/mcpchannel] and [internal/runner/agentmcp/proxy.go]: writing on a
    connection and forwarding between two.

    What the MCP library does with a call, and with a session that is closed, is not
    fixed by the steps; what it documents is a hypothesis ([library_ok]). *)

From S2P Require Import Prelude GoText.
From stdpp Require Import relations.

(** ** The upstream *)

Inductive SessionState := Open | Closing | Closed.

(** A request through [Dispatch]: it came, it loaded the session, its call is at
    the session, and how it ended: answered, without a session, not taken by its
    session, or without an answer. *)
Inductive Request :=
| Arrived
| Loaded (s : nat)
| Calling (s : nat)
| Served (s : nat)
| NoSession
| Refused (s : nat)
| Cut (s : nat).

(** Who holds [swapMu]: [Swap] while it connects and when it has, [Close] while the
    session it took closes. *)
Inductive Holder :=
| Nobody
| Connecting
| Connected (s : nat)
| ClosingOne (s : nat).

#[export] Instance SessionState_eq : EqDecision SessionState.
Proof. solve_decision. Defined.
#[export] Instance Request_eq : EqDecision Request.
Proof. solve_decision. Defined.
#[export] Instance Holder_eq : EqDecision Holder.
Proof. solve_decision. Defined.

(** The sessions, [u.session], the holder, the goroutines of [closeInBackground], the
    requests, and the sessions whose connection broke. *)
Record Upstream := mkUpstream {
  up_sessions : list SessionState; up_active : option nat; up_holder : Holder;
  up_background : list nat; up_requests : list Request; up_lost : list nat }.

Definition upstream_New : Upstream := mkUpstream [] None Nobody [] [] [].

Definition with_request (r : nat) (q : Request) (u : Upstream) : Upstream :=
  mkUpstream (up_sessions u) (up_active u) (up_holder u) (up_background u) (<[r := q]> (up_requests u)) (up_lost u).

Definition with_session (s : nat) (st : SessionState) (u : Upstream) : Upstream :=
  mkUpstream (<[s := st]> (up_sessions u)) (up_active u) (up_holder u) (up_background u) (up_requests u) (up_lost u).

Definition with_holder (h : Holder) (u : Upstream) : Upstream :=
  mkUpstream (up_sessions u) (up_active u) h (up_background u) (up_requests u) (up_lost u).

Inductive SwapLabel :=
| URequest
| ULoad (r : nat)
| UCall (r : nat) (taken : bool)
| UReply (r : nat) (answered : bool)
| ULost (s : nat)
| USwap
| UConnect (ok : bool)
| UStore
| UClose
| UCloseBegin (s : nat)
| UCloseEnd (s : nat)
| URelease.

Definition upstream_step (l : SwapLabel) (u : Upstream) : option Upstream :=
  match l with
  | URequest => Some (mkUpstream (up_sessions u) (up_active u) (up_holder u) (up_background u) (up_requests u ++ [Arrived]) (up_lost u))
  | ULoad r =>
      (* [u.session.Load()] *)
      match up_requests u !! r with
      | Some Arrived => Some (with_request r (match up_active u with Some s => Loaded s | None => NoSession end) u)
      | _ => None
      end
  | UCall r taken =>
      match up_requests u !! r with
      | Some (Loaded s) => Some (with_request r (if taken then Calling s else Refused s) u)
      | _ => None
      end
  | UReply r answered =>
      match up_requests u !! r with
      | Some (Calling s) => Some (with_request r (if answered then Served s else Cut s) u)
      | _ => None
      end
  | ULost s =>
      Some (mkUpstream (up_sessions u) (up_active u) (up_holder u) (up_background u) (up_requests u) (s :: up_lost u))
  | USwap => match up_holder u with Nobody => Some (with_holder Connecting u) | _ => None end
  | UConnect ok =>
      match up_holder u with
      | Connecting =>
          Some (if ok then
                  mkUpstream (up_sessions u ++ [Open]) (up_active u) (Connected (length (up_sessions u)))
                    (up_background u) (up_requests u) (up_lost u)
                else with_holder Nobody u)
      | _ => None
      end
  | UStore =>
      (* [u.session.Swap(session)] and the goroutine that closes the previous *)
      match up_holder u with
      | Connected s =>
          Some (mkUpstream (up_sessions u) (Some s) Nobody
                  (match up_active u with Some prev => prev :: up_background u | None => up_background u end)
                  (up_requests u) (up_lost u))
      | _ => None
      end
  | UClose =>
      match up_holder u with
      | Nobody =>
          Some (mkUpstream (up_sessions u) None (match up_active u with Some s => ClosingOne s | None => Nobody end)
                  (up_background u) (up_requests u) (up_lost u))
      | _ => None
      end
  | UCloseBegin s =>
      if bool_decide (s ∈ up_background u ∨ up_holder u = ClosingOne s) && bool_decide (up_sessions u !! s = Some Open)
      then Some (with_session s Closing u) else None
  | UCloseEnd s =>
      if bool_decide (up_sessions u !! s = Some Closing) then Some (with_session s Closed u) else None
  | URelease =>
      match up_holder u with
      | ClosingOne s => if bool_decide (up_sessions u !! s = Some Closed) then Some (with_holder Nobody u) else None
      | _ => None
      end
  end.

Definition swaps (u u' : Upstream) : Prop := ∃ l, upstream_step l u = Some u'.

(** What the MCP library documents of a session whose connection holds: it takes a
    call until [Close] is called on it, it answers every call it took, and [Close]
    returns when they are answered. *)
Definition library_ok (l : SwapLabel) (u : Upstream) : Prop :=
  match l with
  | UCall r taken => ∀ s, up_requests u !! r = Some (Loaded s) → s ∉ up_lost u →
      taken = true ↔ up_sessions u !! s = Some Open
  | UReply r false => ∀ s, up_requests u !! r = Some (Calling s) → s ∉ up_lost u → up_sessions u !! s = Some Closed
  | UCloseEnd s => s ∉ up_lost u → ∀ r, up_requests u !! r ≠ Some (Calling s)
  | _ => True
  end.

Definition documented_swaps (u u' : Upstream) : Prop := ∃ l, upstream_step l u = Some u' ∧ library_ok l u.

(** ** The invariant *)

Record upstream_inv (u : Upstream) : Prop := {
  (* The active session and the one to become it are open, and nobody closes them. *)
  inv_active s : up_active u = Some s →
    up_sessions u !! s = Some Open ∧ (s ∉ up_background u) ∧ up_holder u ≠ ClosingOne s ∧ up_holder u ≠ Connected s;
  inv_connected s : up_holder u = Connected s → up_sessions u !! s = Some Open ∧ s ∉ up_background u;
  (* A session that is open is accounted for. *)
  inv_open s : up_sessions u !! s = Some Open →
    up_active u = Some s ∨ up_holder u = Connected s ∨ s ∈ up_background u ∨ up_holder u = ClosingOne s;
  inv_background s : s ∈ up_background u → (s < length (up_sessions u))%nat;
  inv_closing s : up_holder u = ClosingOne s → (s < length (up_sessions u))%nat;
  inv_loaded r s : up_requests u !! r = Some (Loaded s) → (s < length (up_sessions u))%nat }.

Lemma inv_New : upstream_inv upstream_New.
Proof. split; cbn; intros; try done; by apply not_elem_of_nil in H. Qed.

(** A request moves; what its new state needs is shown. *)
Lemma inv_request r q u :
  upstream_inv u → (∀ s, q = Loaded s → (s < length (up_sessions u))%nat) → upstream_inv (with_request r q u).
Proof.
  intros [] Hl. split; cbn; try done. intros r' s Hq. apply list_lookup_insert_Some in Hq as [(-> & -> & _)|[_ Hq]]; eauto.
Qed.

(** A session closes a step further. *)
Lemma inv_session s st u :
  upstream_inv u → st ≠ Open → up_active u ≠ Some s → up_holder u ≠ Connected s → upstream_inv (with_session s st u).
Proof.
  intros [Ha Hco Ho Hb Hcl Hlo] Hst Hact Hcon. split; cbn; try (by intros *; rewrite length_insert; eauto).
  - intros t Ht. destruct (Ha t Ht) as (? & ? & ? & ?). by rewrite list_lookup_insert_ne by congruence.
  - intros t Ht. destruct (Hco t Ht) as [? ?]. by rewrite list_lookup_insert_ne by congruence.
  - intros t Ht. apply list_lookup_insert_Some in Ht as [(_ & -> & _)|[_ Ht]]; [done|by apply Ho].
Qed.

Lemma swap_inv_step u u' l : upstream_inv u → upstream_step l u = Some u' → upstream_inv u'.
Proof.
  intros Hinv Hs. destruct l as [|r|r taken|r answered|s| |ok| | |s|s|]; cbn [upstream_step] in Hs.
  - injection Hs as <-. destruct Hinv. split; cbn; try done;
      intros r s Hq; apply lookup_app_Some in Hq as [Hq|[_ Hq]]; try (by eauto);
      apply list_lookup_singleton_Some in Hq as [_ [=]].
  - destruct (up_requests u !! r) as [[]|] eqn:Hq; try done. injection Hs as <-. apply inv_request; [done|].
      destruct (up_active u) as [t|] eqn:Ha; try done. intros s [= ->]. apply (inv_active _ Hinv) in Ha as [Ha _].
    by eapply lookup_lt_Some.
  - destruct (up_requests u !! r) as [[]|] eqn:Hq; try done. injection Hs as <-. apply inv_request; [done|]. by destruct taken.
  - destruct (up_requests u !! r) as [[]|] eqn:Hq; try done. injection Hs as <-. apply inv_request; [done|]. by destruct answered.
  - injection Hs as <-. by destruct Hinv.
  - destruct (up_holder u) eqn:Hh; try done. injection Hs as <-. destruct Hinv. split; cbn; try done.
    + intros s Ha. destruct (inv_active0 s Ha) as (? & ? & _). by split_and!.
    + intros s Ho. destruct (inv_open0 s Ho) as [?|[Hc|[?|Hc]]]; auto; rewrite Hh in Hc; done.
  - destruct (up_holder u) eqn:Hh; try done. injection Hs as <-. destruct Hinv, ok.
    + split; cbn; try done.
      * intros s Ha. destruct (inv_active0 s Ha) as (Hs & ? & _). pose proof (lookup_lt_Some _ _ _ Hs).
        split_and!; try done; [by rewrite lookup_app_l|intros [= E]; lia].
      * intros s [= <-]. split; [by apply list_lookup_middle|]. intros Hb%inv_background0. lia.
      * intros s Ho. apply lookup_app_Some in Ho as [Ho|[Hl Ho]].
        -- destruct (inv_open0 s Ho) as [?|[Hc|[?|Hc]]]; auto; rewrite Hh in Hc; done.
        -- apply list_lookup_singleton_Some in Ho as [Hz _]. right. left. f_equal. lia.
      * intros s Hb%inv_background0. rewrite length_app. lia.
      * intros r s Hq%inv_loaded0. rewrite length_app. lia.
    + split; cbn; try done.
      * intros s Ha. destruct (inv_active0 s Ha) as (? & ? & _). by split_and!.
      * intros s Ho. destruct (inv_open0 s Ho) as [?|[Hc|[?|Hc]]]; auto; rewrite Hh in Hc; done.
  - destruct (up_holder u) as [| |s|s] eqn:Hh; try done. injection Hs as <-. destruct Hinv.
    destruct (inv_connected0 s Hh) as [Hopen Hback]. split; cbn; try done.
    + intros t [= <-]. split_and!; try done. destruct (up_active u) as [prev|] eqn:Ha; [|done].
      apply not_elem_of_cons. split; [|done]. intros ->. by destruct (inv_active0 prev eq_refl) as (_ & _ & _ & []).
    + intros t Ho. destruct (inv_open0 t Ho) as [->|[Hc|[Hb|Hc]]].
      * right. right. left. by left.
      * rewrite Hh in Hc. injection Hc as ->. by left.
      * right. right. left. destruct (up_active u); [by right|done].
      * rewrite Hh in Hc. done.
    + intros t Hb. destruct (up_active u) as [prev|] eqn:Ha; [|by apply inv_background0].
      apply elem_of_cons in Hb as [->|Hb]; [|by apply inv_background0].
      destruct (inv_active0 prev eq_refl) as [Hs _]. by eapply lookup_lt_Some.
  - destruct (up_holder u) eqn:Hh; try done. injection Hs as <-. destruct Hinv. split; cbn; try done.
    + intros s. by destruct (up_active u).
    + intros s Ho. destruct (inv_open0 s Ho) as [->|[Hc|[?|Hc]]]; auto; rewrite Hh in Hc; done.
    + intros s Hc. destruct (up_active u) as [t|] eqn:Ha; [|done]. injection Hc as ->.
      destruct (inv_active0 s eq_refl) as [Hs _]. by eapply lookup_lt_Some.
  - destruct (_ && _) eqn:E; [|done]. injection Hs as <-. apply andb_true_iff in E as [Hw%bool_decide_eq_true Ho%bool_decide_eq_true].
    apply inv_session; try done.
    + intros Ha. destruct (inv_active _ Hinv s Ha) as (_ & Hnb & Hnh & _). tauto.
    + intros Hc. destruct (inv_connected _ Hinv s Hc) as [_ Hnb]. rewrite Hc in Hw. by destruct Hw.
  - case_bool_decide as Hc; [|done]. injection Hs as <-. apply inv_session; try done.
    + intros Ha. destruct (inv_active _ Hinv s Ha) as (Hs & _). congruence.
    + intros Hn. destruct (inv_connected _ Hinv s Hn) as [Hs _]. congruence.
  - destruct (up_holder u) as [| | |s] eqn:Hh; try done. case_bool_decide as Hc; [|done]. injection Hs as <-.
    destruct Hinv. split; cbn; try done.
    + intros t Ha. destruct (inv_active0 t Ha) as (? & ? & _). by split_and!.
    + intros t Ho. destruct (inv_open0 t Ho) as [?|[Hx|[?|Hx]]]; auto; rewrite Hh in Hx; [done|]. injection Hx as ->. congruence.
Qed.

Lemma swap_inv_reachable u : rtc swaps upstream_New u → upstream_inv u.
Proof.
  intros Hr. pose proof inv_New as Hi. induction Hr as [u|u u1 u2 (l & Hs) _ IH]; [done|].
  apply IH. by eapply swap_inv_step.
Qed.

(** What a library that keeps its promises makes of the requests. *)
Record calls_inv (u : Upstream) : Prop := {
  inv_calling r s : up_requests u !! r = Some (Calling s) → s ∉ up_lost u →
    up_sessions u !! s = Some Open ∨ up_sessions u !! s = Some Closing;
  inv_refused r s : up_requests u !! r = Some (Refused s) → s ∈ up_lost u ∨
    up_sessions u !! s = Some Closing ∨ up_sessions u !! s = Some Closed;
  inv_cut r s : up_requests u !! r = Some (Cut s) → s ∈ up_lost u }.

(** Sessions only move on, and none is found again. *)
Lemma calls_inv_sessions u u' :
  calls_inv u → up_requests u' = up_requests u → up_lost u ⊆ up_lost u' →
  (∀ s st, up_sessions u !! s = Some st → up_sessions u' !! s = Some st ∨
     up_sessions u' !! s = Some Closing ∨
     (up_sessions u' !! s = Some Closed ∧ st = Closing ∧ (s ∉ up_lost u → ∀ r, up_requests u !! r ≠ Some (Calling s)))) →
  calls_inv u'.
Proof.
  intros [Hca Hre Hcu] Hq Hl Hs. split; intros r s; rewrite Hq; intros Hr.
  - intros Hn. assert (Hn' : s ∉ up_lost u) by set_solver.
    destruct (Hca r s Hr Hn') as [H|H]; destruct (Hs s _ H) as [?|[?|(_ & ? & Hno)]]; auto; try done.
    by destruct (Hno Hn' r).
  - destruct (Hre r s Hr) as [?|[H|H]]; [left; set_solver|..]; destruct (Hs s _ H) as [?|[?|(? & _)]]; auto.
  - set_solver.
Qed.

Lemma calls_inv_request u r q :
  calls_inv u →
  (∀ s, q = Calling s → s ∉ up_lost u → up_sessions u !! s = Some Open ∨ up_sessions u !! s = Some Closing) →
  (∀ s, q = Refused s → s ∈ up_lost u ∨ up_sessions u !! s = Some Closing ∨ up_sessions u !! s = Some Closed) →
  (∀ s, q = Cut s → s ∈ up_lost u) → calls_inv (with_request r q u).
Proof.
  intros [] Hc Hr Hu. split; cbn; intros r' s Hq; apply list_lookup_insert_Some in Hq as [(-> & -> & _)|[_ Hq]]; eauto.
Qed.

Lemma calls_inv_step u u' l :
  upstream_inv u → calls_inv u → upstream_step l u = Some u' → library_ok l u → calls_inv u'.
Proof.
  intros Hi Hinv Hs Hlib. destruct l as [|r|r taken|r answered|s| |ok| | |s|s|]; cbn [upstream_step] in Hs.
  - injection Hs as <-. destruct Hinv as [H1 H2 H3]. split; cbn;
      intros r s Hq; apply lookup_app_Some in Hq as [Hq|[_ Hq]]; try (by eauto);
      apply list_lookup_singleton_Some in Hq as [_ [=]].
  - destruct (up_requests u !! r) as [[]|] eqn:Hq; try done. injection Hs as <-.
    apply calls_inv_request; try done; by destruct (up_active u).
  - destruct (up_requests u !! r) as [[|t| | | | |]|] eqn:Hq; try done. injection Hs as <-. specialize (Hlib t Hq).
    destruct (decide (t ∈ up_lost u)) as [Hlost|Hlost]; [by destruct taken; apply calls_inv_request; try done; intros s [= <-]; auto|].
    specialize (Hlib Hlost). destruct taken; apply calls_inv_request; try done; intros s [= <-].
    + intros _. left. by apply Hlib.
    + right. destruct (lookup_lt_is_Some_2 _ _ (inv_loaded _ Hi _ _ Hq)) as [[] Hst]; auto. apply Hlib in Hst. done.
  - destruct (up_requests u !! r) as [[| |t| | | |]|] eqn:Hq; try done. injection Hs as <-.
    destruct answered; apply calls_inv_request; try done. intros s [= <-].
    destruct (decide (t ∈ up_lost u)) as [|Hlost]; [done|]. specialize (Hlib t Hq Hlost).
    destruct (inv_calling _ Hinv r t Hq Hlost); congruence.
  - injection Hs as <-. apply (calls_inv_sessions u); cbn; [done..|set_solver|auto].
  - destruct (up_holder u); try done. injection Hs as <-. apply (calls_inv_sessions u); cbn; auto.
  - destruct (up_holder u); try done. injection Hs as <-. apply (calls_inv_sessions u); destruct ok; cbn; auto.
    intros s st Hst. left. by apply lookup_app_l_Some.
  - destruct (up_holder u); try done. injection Hs as <-. apply (calls_inv_sessions u); cbn; auto.
  - destruct (up_holder u); try done. injection Hs as <-. apply (calls_inv_sessions u); cbn; auto.
  - destruct (_ && _) eqn:E; [|done]. injection Hs as <-. apply andb_true_iff in E as [_ Ho%bool_decide_eq_true].
    apply (calls_inv_sessions u); cbn; auto. intros t st Hst. destruct (decide (s = t)) as [->|].
    + right. left. apply list_lookup_insert_eq. by eapply lookup_lt_Some.
    + left. by rewrite list_lookup_insert_ne.
  - case_bool_decide as Hc; [|done]. injection Hs as <-. apply (calls_inv_sessions u); cbn; auto.
    intros t st Hst. destruct (decide (s = t)) as [->|].
    + right. right. split; [apply list_lookup_insert_eq; by eapply lookup_lt_Some|]. split; [congruence|done].
    + left. by rewrite list_lookup_insert_ne.
  - destruct (up_holder u); try done. case_bool_decide; [|done]. injection Hs as <-. apply (calls_inv_sessions u); cbn; auto.
Qed.

Lemma calls_inv_reachable u : rtc documented_swaps upstream_New u → rtc swaps upstream_New u ∧ calls_inv u.
Proof.
  intros Hr. assert (H0 : calls_inv upstream_New) by (by split). revert H0. pose proof inv_New as Hi. revert Hi.
  induction Hr as [u|u u1 u2 (l & Hs & Hlib) _ IH]; intros Hi Hc; [done|].
  destruct IH as [Hr Hend]; [by eapply swap_inv_step|by eapply calls_inv_step|].
  split; [|done]. eapply rtc_l; [by exists l|done].
Qed.

(** Nothing is left to do but what the outside may ask for: a new request, a swap, a
    close. *)
Definition settled (u : Upstream) : Prop :=
  ∀ l, match l with URequest | USwap | UClose => True | _ => upstream_step l u = None end.

Lemma settled_sessions u s st : upstream_inv u → settled u → up_sessions u !! s = Some st → st ≠ Closed → up_active u = Some s.
Proof.
  intros Hinv Hset Hs Hst. assert (Hbegin : st = Open → s ∈ up_background u ∨ up_holder u = ClosingOne s → False).
  { intros -> Hw. specialize (Hset (UCloseBegin s)). cbn in Hset.
    rewrite (bool_decide_eq_true_2 _ Hw), (bool_decide_eq_true_2 _ Hs) in Hset. discriminate Hset. }
  destruct st; [| |done].
  - destruct (inv_open _ Hinv s Hs) as [Ha|[Hc|Hw]]; [done| |destruct Hbegin; tauto].
    specialize (Hset UStore). cbn in Hset. rewrite Hc in Hset. discriminate Hset.
  - exfalso. specialize (Hset (UCloseEnd s)). cbn in Hset. rewrite (bool_decide_eq_true_2 _ Hs) in Hset. discriminate Hset.
Qed.


(** *** Runs, by evaluation *)

(** Whether the library keeps its word in a run. *)
Definition library_okb (l : SwapLabel) (u : Upstream) : bool :=
  match l with
  | UCall r taken =>
      match up_requests u !! r with
      | Some (Loaded s) => bool_decide (s ∈ up_lost u) || Bool.eqb taken (bool_decide (up_sessions u !! s = Some Open))
      | _ => true
      end
  | UReply r false =>
      match up_requests u !! r with
      | Some (Calling s) => bool_decide (s ∈ up_lost u) || bool_decide (up_sessions u !! s = Some Closed)
      | _ => true
      end
  | UCloseEnd s => bool_decide (s ∈ up_lost u) || negb (bool_decide (Calling s ∈ up_requests u))
  | _ => true
  end.

Lemma library_okb_ok l u : library_okb l u = true → library_ok l u.
Proof.
  destruct l as [| |r taken|r []| | | | | | |s|]; cbn; try done.
  - intros H s Hq. rewrite Hq in H. intros Hn. rewrite (bool_decide_eq_false_2 _ Hn) in H. cbn in H.
    apply Bool.eqb_prop in H as ->. apply bool_decide_eq_true.
  - intros H s Hq. rewrite Hq in H. intros Hn. rewrite (bool_decide_eq_false_2 _ Hn) in H. by apply bool_decide_eq_true in H.
  - intros H Hn r Hq. rewrite (bool_decide_eq_false_2 _ Hn) in H. cbn in H. apply negb_true_iff, bool_decide_eq_false in H.
    destruct H. by eapply list_elem_of_lookup_2.
Qed.

Fixpoint run_documented (labels : list SwapLabel) (u : Upstream) : option Upstream :=
  match labels with
  | [] => Some u
  | l :: labels => if library_okb l u then u ← upstream_step l u; run_documented labels u else None
  end.

Lemma run_documented_rtc labels u u' : run_documented labels u = Some u' → rtc documented_swaps u u'.
Proof.
  revert u. induction labels as [|l labels IH]; intros u H; cbn [run_documented] in H; [by injection H as ->|].
  destruct (library_okb l u) eqn:Hl; [|done]. destruct (upstream_step l u) as [u1|] eqn:E; [|done].
  eapply rtc_l; [exists l; split; [exact E|by apply library_okb_ok]|by apply IH].
Qed.

Definition open_one : list SwapLabel := [USwap; UConnect true; UStore].
Definition rotated : list SwapLabel :=
  open_one ++ [URequest; ULoad 0; UCall 0 true] ++ open_one ++ [UCloseBegin 0; URequest; ULoad 1; UCall 1 true].
Definition rotated_end : Upstream := mkUpstream [Closing; Open] (Some 1%nat) Nobody [0%nat] [Calling 0; Calling 1] [].


(** A request that loaded the session just before a swap may find it closing, and
    fails although a session was open at every moment. *)
Lemma swap_drops_request :
  ∃ u, run_documented (open_one ++ [URequest; ULoad 0] ++ open_one ++ [UCloseBegin 0; UCall 0 false]) upstream_New = Some u ∧
    up_requests u = [Refused 0].
Proof. eexists. split; reflexivity. Qed.

(** A swap that was under way when the upstream was closed opens a session after
    it, which nobody closes. *)
Lemma session_after_close :
  ∃ u, run_documented (open_one ++ [UClose; UCloseBegin 0; UCloseEnd 0; URelease] ++ open_one) upstream_New = Some u ∧
    up_sessions u = [Closed; Open] ∧ up_background u = [] ∧ up_holder u = Nobody.
Proof. eexists. split_and!; reflexivity. Qed.

(** ** Rotation *)

Section rotation.
Local Open Scope Z_scope.

(** What [swap] came to: the new token's expiry, or an error. *)
Definition retryBackoff : Z := 30 * 10 ^ 9.
Definition DefaultMinTTL : Z := 5 * 60 * 10 ^ 9.

(** The timer of [rotate], in nanoseconds. *)
Definition rotate_wait (minTTL now expiresAt : Z) : Z := Z.max 0 (expiresAt - minTTL - now).

(** One round of [rotate], when the timer fires on time: when it was, and the
    expiry the next round goes by.  [swap] takes no time of the model. *)
Definition rotate_round (minTTL : Z) (swap : Z → option Z) (now expiresAt : Z) : Z * Z :=
  let now := now + rotate_wait minTTL now expiresAt in
  (now, match swap now with Some next => next | None => now + (retryBackoff + minTTL) end).

Fixpoint rotate_times (minTTL : Z) (swap : Z → option Z) (rounds : nat) (now expiresAt : Z) : list Z :=
  match rounds with
  | O => []
  | S rounds =>
      let (now, expiresAt) := rotate_round minTTL swap now expiresAt in
      now :: rotate_times minTTL swap rounds now expiresAt
  end.

(** A token that outlives the minimum is replaced just when the minimum is left. *)
Lemma rotate_in_time minTTL swap now expiresAt :
  now + minTTL <= expiresAt → fst (rotate_round minTTL swap now expiresAt) + minTTL = expiresAt.
Proof. unfold rotate_round, rotate_wait. simpl. lia. Qed.

(** A failure is retried after the backoff, and no sooner. *)
Lemma rotate_retries minTTL swap now expiresAt :
  let (fired, next) := rotate_round minTTL swap now expiresAt in
  swap fired = None → fst (rotate_round minTTL swap fired next) = fired + retryBackoff.
Proof. unfold rotate_round, rotate_wait, retryBackoff. simpl. intros ->. lia. Qed.

(** A token that lives no longer than the minimum is replaced at once, and so is
    every one after it: the rounds follow each other without a pause. *)
Lemma rotate_spins minTTL swap rounds now expiresAt :
  (∀ t, ∃ next, swap t = Some next ∧ next <= t + minTTL) → expiresAt <= now + minTTL →
  rotate_times minTTL swap rounds now expiresAt = repeat now rounds.
Proof.
  intros Hshort. revert expiresAt. induction rounds as [|rounds IH]; intros expiresAt He; [done|].
  cbn [rotate_times repeat]. unfold rotate_round.
  replace (now + rotate_wait minTTL now expiresAt) with now by (unfold rotate_wait; lia).
  destruct (Hshort now) as (next & -> & Hn). by rewrite IH.
Qed.

End rotation.

(** ** What is forwarded

    The parameters, results, tools, prompts and extensions of the MCP library are
    opaque; a session answers the requests it is sent. *)

Section dispatch.
Context {Params Value Result : Type}.

Inductive McpRequest :=
| InitializeReq
| ListTools (p : Params)
| CallTool (Meta : Value) (Name : string) (Arguments : Value)
| ListPrompts (p : Params)
| GetPrompt (p : Params)
| ListResources (p : Params)
| ListResourceTemplates (p : Params)
| ReadResource (p : Params)
| Complete (p : Params)
| Subscribe
| Unsubscribe
| SetLoggingLevel
| OtherMethod (method : string).

(** The capabilities with an object of flags: whether the list's changes are told,
    and whether resources can be subscribed to. *)
Record ListCapabilities := mkListCaps { ListChanged : bool; CanSubscribe : bool }.

Record ServerCapabilities := mkCaps {
  Completions : option Value; Experimental : option Value; Extensions : option Value; Logging : option Value;
  Cap_Prompts : option ListCapabilities; Cap_Resources : option ListCapabilities; Cap_Tools : option ListCapabilities }.

Record InitializeResult := mkInit { Init_Capabilities : option ServerCapabilities; Init_Instructions : string; Init_ServerInfo : Value }.

Record ClientSession := mkSession {
  Session_Initialize : option InitializeResult; Session_Call : McpRequest → string + Result }.

Inductive McpResult := Initialized (r : InitializeResult) | Answer (r : Result).

(** The capabilities that the adapter can keep: nothing that needs a notification
    or that a swap would forget. *)
Definition mask_capabilities (c : ServerCapabilities) : ServerCapabilities :=
  let plain := fmap (λ _, mkListCaps false false) in
  mkCaps (Completions c) (Experimental c) (Extensions c) None
    (plain (Cap_Prompts c)) (plain (Cap_Resources c)) (plain (Cap_Tools c)).

Definition Session (session : option ClientSession) : string + ClientSession :=
  match session with Some s => inr s | None => inl "upstream: no active session" end.

(** What the result of the handshake becomes: unchanged without a session, and
    when the upstream told nothing. *)
Definition masked_init (session : option ClientSession) (init : InitializeResult) : InitializeResult :=
  match Session session with
  | inr s =>
      match Session_Initialize s with
      | Some (mkInit (Some c) instructions info) => mkInit (Some (mask_capabilities c)) instructions info
      | _ => init
      end
  | inl _ => init
  end.

Definition Dispatch (session : option ClientSession) (next : McpRequest → option McpResult * option string)
    (req : McpRequest) : option McpResult * option string :=
  let forwarded :=
    match Session session with
    | inl err => (None, Some err)
    | inr s => match Session_Call s req with inr r => (Some (Answer r), None) | inl err => (None, Some err) end
    end in
  match req with
  | InitializeReq =>
      let (res, err) := next req in
      (match res with Some (Initialized init) => Some (Initialized (masked_init session init)) | _ => res end, err)
  | ListTools _ | CallTool _ _ _ | ListPrompts _ | GetPrompt _ | ListResources _ | ListResourceTemplates _
  | ReadResource _ | Complete _ => forwarded
  | Subscribe | Unsubscribe | SetLoggingLevel => next req
  | OtherMethod _ => next req
  end.

(** The requests that a session answers; the others stay with the server. *)
Definition proxied (req : McpRequest) : bool :=
  match req with InitializeReq | Subscribe | Unsubscribe | SetLoggingLevel | OtherMethod _ => false | _ => true end.

(** A client is told of no capability whose use the adapter would not forward: a
    subscription, a log level or a notice of a changed list.  What it may use is
    what the upstream has. *)
Lemma masked_capabilities c :
  Logging (mask_capabilities c) = None ∧
  (∀ l, l ∈ [Cap_Prompts (mask_capabilities c); Cap_Resources (mask_capabilities c); Cap_Tools (mask_capabilities c)] →
     l = None ∨ l = Some (mkListCaps false false)) ∧
  (Cap_Tools (mask_capabilities c) = None ↔ Cap_Tools c = None) ∧
  (Cap_Prompts (mask_capabilities c) = None ↔ Cap_Prompts c = None) ∧
  (Cap_Resources (mask_capabilities c) = None ↔ Cap_Resources c = None) ∧
  mask_capabilities (mask_capabilities c) = mask_capabilities c.
Proof.
  destruct c as [co ex xt lo [pr|] [re|] [to|]]; cbn; split_and!; try done;
    intros l Hl; repeat (apply elem_of_cons in Hl as [->|Hl]; [by auto|]); by apply elem_of_nil in Hl.
Qed.

(** A proxied request is answered by the active session alone, and refused when
    there is none; any other is the server's. *)
Lemma Dispatch_routes session next req :
  (proxied req = true → ∀ next', Dispatch session next req = Dispatch session next' req) ∧
  (proxied req = true → session = None → Dispatch session next req = (None, Some "upstream: no active session")) ∧
  (proxied req = false → req ≠ InitializeReq → Dispatch session next req = next req) ∧
  (proxied req = false → (Dispatch session next req).2 = (next req).2).
Proof.
  split_and!.
  - by destruct req.
  - intros Hp ->. by destruct req.
  - by destruct req.
  - destruct req; cbn; try done. by destruct (next InitializeReq) as [[[]|] ?].
Qed.
End dispatch.

(** ** Forwarding and injecting *)

Section messages.
Context {Msg : Type}.

(** [forward]: what reading and writing answer, in turn; what was delivered, and
    whether the loop has returned. *)
Fixpoint forward (reads : list (string + Msg)) (writes : list (option string)) : list Msg * option string :=
  match reads, writes with
  | inl err :: _, _ => ([], Some err)
  | inr msg :: reads, None :: writes => let (sent, err) := forward reads writes in (msg :: sent, err)
  | inr msg :: _, Some err :: _ => ([], Some err)
  | inr _ :: _, [] | [], _ => ([], None)
  end.

(** What goes over is a beginning of what came in, in order. *)
Lemma forward_prefix reads writes : (forward reads writes).1 `prefix_of` omap (λ r, match r with inr m => Some m | inl _ => None end) reads.
Proof.
  revert writes. induction reads as [|[err|msg] reads IH]; intros writes; cbn; [done|apply prefix_nil|].
  destruct writes as [|[err|] writes]; [apply prefix_nil..|]. specialize (IH writes).
  destruct (forward reads writes). by apply prefix_cons.
Qed.
End messages.

(** [mcpchannel]: the connection the transport keeps, and what was written on each,
    a message at a time under the transport's lock. *)
Record ChannelParams := mkParams { Ch_Content : string; Ch_Meta : option (gmap string string) }.

Definition Method : string := "notifications/claude/channel".
Definition CapabilityKey : string := "claude/channel".

Record Transport := mkTransport { tr_conn : option nat; tr_written : list (nat * (string * string)) }.

(** The parameters on the wire: a missing map is an empty object. *)
Definition channel_params (p : ChannelParams) : string :=
  Marshal (JObject [("content", JString (Ch_Content p)); ("meta", json_map (default ∅ (Ch_Meta p)))]).

Definition Transport_Connect (conn : nat) (t : Transport) : Transport := mkTransport (Some conn) (tr_written t).

(** [Connection.Write] of a wrapped connection: the one it wraps, whichever the
    transport keeps. *)
Definition connection_Write (conn : nat) (msg : string * string) (t : Transport) : Transport :=
  mkTransport (tr_conn t) (tr_written t ++ [(conn, msg)]).

Definition SendChannel (p : ChannelParams) (t : Transport) : option string * Transport :=
  match tr_conn t with
  | None => (Some "mcpchannel: transport not connected", t)
  | Some conn => (None, connection_Write conn (Method, channel_params p) t)
  end.

(** A notification goes out on the connection made last, its parameters always with
    an object for [meta]; without a connection nothing is written. *)
Lemma SendChannel_sent p t :
  let '(err, t') := SendChannel p t in
  match tr_conn t with
  | None => err ≠ None ∧ t' = t
  | Some conn => err = None ∧ tr_written t' = tr_written t ++ [(conn, (Method, channel_params p))]
  end.
Proof. unfold SendChannel. destruct (tr_conn t); by split. Qed.

Example params_without_meta :
  channel_params (mkParams "hi" None) =
    "{" +:+ json_string "content" +:+ ":" +:+ json_string "hi" +:+ "," +:+ json_string "meta" +:+ ":{}}".
Proof. vm_compute. reflexivity. Qed.
