(* ===== verification/AtomicFile.v ===== *)
(** * Atomic file writes

    Models [internal/x/atomicio]: a write goes to a temporary file that is synced and
    renamed over the target.  The file system keeps what a reader sees apart from
    what a loss of power would leave; it may write either back at any time.  The
    stores of the runner and the driver ([FileStore], [TaskState], [DriverServer],
    the agent's configuration) write this way. *)

From S2P Require Import Prelude.
From Stdlib Require Import Ascii.
From stdpp Require Import relations.

(** ** The file system *)

Record Inode := mkInode { ino_data : list ascii; ino_mode : Z }.

(** The directory and the files as they are read, and as they are on the disk. *)
Record FileSystem := mkFS {
  fs_names : gmap string nat; fs_inodes : gmap nat Inode;
  disk_names : gmap string nat; disk_inodes : gmap nat Inode }.

Definition read_file (names : gmap string nat) (inodes : gmap nat Inode) (path : string) : option Inode :=
  i ← names !! path; inodes !! i.

(** What a reader sees, and what is there after a loss of power. *)
Definition seen (fs : FileSystem) : string → option Inode := read_file (fs_names fs) (fs_inodes fs).
Definition durable (fs : FileSystem) : string → option Inode := read_file (disk_names fs) (disk_inodes fs).

Definition set_inode (i : nat) (f : Inode) (fs : FileSystem) : FileSystem :=
  mkFS (fs_names fs) (<[i := f]> (fs_inodes fs)) (disk_names fs) (disk_inodes fs).

Definition set_names (names : gmap string nat) (fs : FileSystem) : FileSystem :=
  mkFS names (fs_inodes fs) (disk_names fs) (disk_inodes fs).

(** [fsync], and the kernel's own writing back of a file. *)
Definition write_back (i : nat) (fs : FileSystem) : FileSystem :=
  mkFS (fs_names fs) (fs_inodes fs) (disk_names fs) (partial_alter (λ _, fs_inodes fs !! i) i (disk_inodes fs)).

(** The kernel's writing back of the directory. *)
Definition write_names (fs : FileSystem) : FileSystem :=
  mkFS (fs_names fs) (fs_inodes fs) (fs_names fs) (disk_inodes fs).

Definition rename (from to : string) (fs : FileSystem) : FileSystem :=
  match fs_names fs !! from with
  | Some i => set_names (<[to := i]> (delete from (fs_names fs))) fs
  | None => fs
  end.

(** ** [WriteFile] *)

Section write.
Context (path : string) (data : list ascii) (perm : Z).
(** The name and the inode that [CreateTemp] found free. *)
Context (tmp : string) (ino : nat).

Inductive WritePC :=
| WCreate | WWrite | WChmod | WSync | WClose | WRename
| WCleanup (err : string)
| WDone (err : option string).

#[export] Instance WritePC_eq : EqDecision WritePC.
Proof. solve_decision. Defined.

Inductive WriteLabel :=
| LOk                        (* the call succeeds *)
| LErr (msg : string)        (* the call fails *)
| LShort (n : nat) (msg : string)  (* the write fails after some bytes *)
| LBackFile (i : nat)        (* the kernel writes a file back *)
| LBackNames.                (* the kernel writes the directory back *)

Definition fail (what msg : string) : WritePC := WCleanup ("atomicio: " +:+ what +:+ ": " +:+ msg).

Definition write_step (l : WriteLabel) (st : FileSystem * WritePC) : option (FileSystem * WritePC) :=
  let (fs, pc) := st in
  match l, pc with
  | LBackFile i, _ => Some (write_back i fs, pc)
  | LBackNames, _ => Some (write_names fs, pc)
  | LOk, WCreate => Some (set_names (<[tmp := ino]> (fs_names fs)) (set_inode ino (mkInode [] 384) fs), WWrite)
  | LErr msg, WCreate => Some (fs, WDone (Some ("atomicio: create temp file: " +:+ msg)))
  | LOk, WWrite => Some (set_inode ino (mkInode data 384) fs, WChmod)
  | LShort n msg, WWrite => Some (set_inode ino (mkInode (take n data) 384) fs, fail "write temp file" msg)
  | LOk, WChmod => Some (set_inode ino (mkInode data perm) fs, WSync)
  | LErr msg, WChmod => Some (fs, fail "chmod temp file" msg)
  | LOk, WSync => Some (write_back ino fs, WClose)
  | LErr msg, WSync => Some (fs, fail "fsync temp file" msg)
  | LOk, WClose => Some (fs, WRename)
  | LErr msg, WClose => Some (fs, fail "close temp file" msg)
  | LOk, WRename => Some (rename tmp path fs, WDone None)
  | LErr msg, WRename => Some (fs, fail "rename temp file" msg)
  | LOk, WCleanup err => Some (set_names (delete tmp (fs_names fs)) fs, WDone (Some err))
  | LErr _, WCleanup err => Some (fs, WDone (Some err))  (* the error of [os.Remove] is dropped *)
  | _, _ => None
  end.

Definition writes (st st' : FileSystem * WritePC) : Prop := ∃ l, write_step l st = Some st'.

(** ** Old or new *)

(** Every version of the path that a reader or a loss of power can find is on the
    disk as it is read; the directory need not be. *)
Definition version_of (fs : FileSystem) (i : nat) : Prop :=
  fs_names fs !! path = Some i ∨ disk_names fs !! path = Some i.
Definition versions_whole (fs : FileSystem) : Prop :=
  ∀ i, version_of fs i → disk_inodes fs !! i = fs_inodes fs !! i.

Context (fs0 : FileSystem).

Definition written_inode : Inode := mkInode data perm.

(** The temporary file is written in full, and is on the disk; and it has its name. *)
Definition ready (pc : WritePC) : bool := match pc with WClose | WRename | WDone None => true | _ => false end.
Definition named (pc : WritePC) : bool := match pc with WWrite | WChmod | WSync | WClose | WRename => true | _ => false end.

Record write_inv (fs : FileSystem) (pc : WritePC) : Prop := {
  wi_others : ∀ i, i ≠ ino → fs_inodes fs !! i = fs_inodes fs0 !! i;
  wi_versions : ∀ i, version_of fs0 i → disk_inodes fs !! i = fs_inodes fs0 !! i;
  wi_names : ∀ p, p ≠ tmp → (pc = WDone None → p ≠ path) → fs_names fs !! p = fs_names fs0 !! p;
  wi_done : pc = WDone None → fs_names fs !! path = Some ino ∧ fs_names fs !! tmp = None;
  wi_named : named pc = true → fs_names fs !! tmp = Some ino;
  wi_ready : ready pc = true → fs_inodes fs !! ino = Some written_inode ∧ disk_inodes fs !! ino = Some written_inode;
  wi_written : pc = WChmod → fs_inodes fs !! ino = Some (mkInode data 384);
  wi_chmod : pc = WSync → fs_inodes fs !! ino = Some written_inode;
  wi_disk : disk_names fs !! path = disk_names fs0 !! path ∨ disk_names fs !! path = fs_names fs0 !! path ∨
    (disk_names fs !! path = Some ino ∧ pc = WDone None) }.

(** Before: the contents of the path's file are on the disk, and so are those of
    the version that the directory on the disk still names, if that is another
    one; the temporary name and its inode are free. *)
Record before_write : Prop := {
  bw_whole : versions_whole fs0;
  bw_tmp : tmp ≠ path ∧ fs_names fs0 !! tmp = None;
  bw_ino : ∀ p, fs_names fs0 !! p ≠ Some ino ∧ disk_names fs0 !! p ≠ Some ino }.

Lemma version_old i : before_write → version_of fs0 i → i ≠ ino.
Proof. intros [_ _ Hino] [E|E] ->; destruct (Hino path); congruence. Qed.

Lemma write_inv_start : before_write → write_inv fs0 WCreate.
Proof.
  intros [Hw [Hne Hfree] Hino]. constructor; try done. by left.
Qed.

Ltac lookups := repeat match goal with
  | |- context [<[?k := _]> _ !! ?k] => rewrite lookup_insert_eq
  | |- context [partial_alter _ ?k _ !! ?k] => rewrite lookup_partial_alter_eq
  | |- context [<[_ := _]> _ !! _] => rewrite lookup_insert_ne by congruence
  | |- context [delete _ _ !! _] => rewrite lookup_delete_ne by congruence
  | |- context [partial_alter _ _ _ !! _] => rewrite lookup_partial_alter_ne by congruence
  end.

Lemma write_inv_step fs pc fs' pc' :
  before_write → write_inv fs pc → writes (fs, pc) (fs', pc') → write_inv fs' pc'.
Proof.
  intros Hb [H1 H2 H3 H4 H5 H6 H7 H8 H9] [l Hl].
  pose proof (λ i, version_old i Hb) as Hold. destruct Hb as [Hw [Hne Hfree] Hino].
  destruct l as [|msg|n msg|i|].
  4: { injection Hl as <- <-. constructor; simpl; auto.
       - intros j Hj. destruct (decide (i = j)) as [->|Hij]; lookups; [|eauto]. by apply H1, Hold.
       - intros Hr. destruct (H6 Hr) as [Ha Hb]. split; [done|]. destruct (decide (i = ino)) as [->|]; by lookups. }
  4: { injection Hl as <- <-. constructor; simpl; auto.
       destruct (decide (pc = WDone None)) as [->|Hpc]; [right; right; naive_solver|right; left; apply H3; [done|by intros]]. }
  all: destruct pc as [| | | | | |err|err]; simpl in Hl; try discriminate Hl; injection Hl as <- <-.
  all: try (unfold rename; rewrite (H5 eq_refl)).
  all: constructor; simpl in *; try done; try (intros; lookups; eauto; done);
    try (destruct H9 as [?|[?|[_ ?]]]; [by left|by right; left|discriminate]).
  - intros i Hi. pose proof (Hold i Hi). lookups. by apply H2.
  - intros p Hp Hpath. specialize (Hpath eq_refl). lookups. by apply H3.
  - intros _. split; lookups; [done|]. by rewrite lookup_delete_eq.
Qed.

Lemma write_inv_reachable fs pc :
  before_write → rtc writes (fs0, WCreate) (fs, pc) → write_inv fs pc.
Proof.
  intros Hb Hr. remember (fs0, WCreate) as st eqn:E. remember (fs, pc) as st' eqn:E'.
  assert (Hgen : ∀ f q, st = (f, q) → write_inv f q); [intros f q Ef; rewrite E in Ef; injection Ef as <- <-; by apply write_inv_start|].
  clear E. revert fs pc E'. induction Hr as [st|[f q] [f1 q1] st' Hs Hr IH]; intros fs pc E'; [by apply Hgen|].
  apply IH; [|done]. intros ? ? [= <- <-]. eapply write_inv_step; [done| |exact Hs]. by apply Hgen.
Qed.

(** C35: a write is all or nothing.  At every moment of [WriteFile], whatever calls
    fail and whatever the kernel has written back: a reader of the path finds the
    file as it was or the whole of the new one with its permissions.  The directory
    is never synced, before or in the call, so a loss of power at that moment may
    leave, besides these two, the version that the disk had when the write began;
    it leaves one of the three, whole.  When [WriteFile] has returned nil the
    new file is there and the temporary one is gone, and when it has returned an
    error the path is as it was; no other file changes for its readers.  The contents of
    every version that can be found are on the disk again, which is all that
    the next write of the path needs. *)
Theorem WriteFile_atomic (fs : FileSystem) (pc : WritePC) :
  before_write → rtc writes (fs0, WCreate) (fs, pc) →
  (pc = WDone None ∨ seen fs path = seen fs0 path) ∧
  (pc = WDone None → seen fs path = Some written_inode ∧ seen fs tmp = None) ∧
  (durable fs path = durable fs0 path ∨ durable fs path = seen fs0 path ∨
   (pc = WDone None ∧ durable fs path = Some written_inode)) ∧
  (∀ p, p ≠ path → p ≠ tmp → seen fs p = seen fs0 p) ∧
  versions_whole fs.
Proof.
  intros Hb Hr. pose proof (write_inv_reachable _ _ Hb Hr) as [H1 H2 H3 H4 H5 H6 H7 H8 H9].
  pose proof (λ i, version_old i Hb) as Hold. destruct Hb as [Hw [Hne Hfree] Hino].
  assert (Hsame : ∀ p, fs_names fs !! p = fs_names fs0 !! p → seen fs p = seen fs0 p).
  { intros p E. unfold seen, read_file. rewrite E. destruct (fs_names fs0 !! p) as [i|] eqn:Ep; [|done].
    apply H1. intros ->. destruct (Hino p). congruence. }
  assert (Hkept : ∀ i, version_of fs0 i → disk_inodes fs !! i = fs_inodes fs !! i)
    by (intros i Hi; rewrite H2, H1; auto).
  split_and!.
  - destruct (decide (pc = WDone None)) as [|Hpc]; [by left|right]. apply Hsame, H3; [congruence|by intros].
  - intros ->. destruct (H4 eq_refl) as [Hp Ht], (H6 eq_refl) as [Hi _]. unfold seen, read_file.
    by rewrite Hp, Ht.
  - unfold durable, seen, read_file. destruct H9 as [E|[E|[E ->]]]; rewrite E.
    + left. destruct (disk_names fs0 !! path) as [i|] eqn:Ep; [|done]. simpl.
      rewrite H2 by (by right). symmetry. apply Hw. by right.
    + right; left. destruct (fs_names fs0 !! path) as [i|] eqn:Ep; [|done]. apply H2. by left.
    + right; right. split; [done|]. by apply H6.
  - intros p Hp Ht. apply Hsame. by apply H3.
  - intros i [Hi|Hi].
    + destruct (decide (pc = WDone None)) as [->|Hpc].
      * destruct (H4 eq_refl) as [Hp _]. rewrite Hp in Hi. injection Hi as <-. by destruct (H6 eq_refl) as [-> ->].
      * apply Hkept. left. rewrite <- Hi. symmetry. apply H3; [congruence|by intros].
    + destruct H9 as [E|[E|[E ->]]]; rewrite E in Hi; [apply Hkept; by right|apply Hkept; by left|].
      injection Hi as <-. by destruct (H6 eq_refl) as [-> ->].
Qed.
End write.

(** ** Runs, by evaluation *)

Fixpoint run_writes (path : string) (data : list ascii) (perm : Z) (tmp : string) (ino : nat)
    (labels : list WriteLabel) (st : FileSystem * WritePC) : option (FileSystem * WritePC) :=
  match labels with
  | [] => Some st
  | l :: labels => st' ← write_step path data perm tmp ino l st; run_writes path data perm tmp ino labels st'
  end.

Lemma run_writes_rtc path data perm tmp ino labels st st' :
  run_writes path data perm tmp ino labels st = Some st' → rtc (writes path data perm tmp ino) st st'.
Proof.
  revert st. induction labels as [|l labels IH]; intros st H; cbn [run_writes] in H; [by injection H as ->|].
  destruct (write_step path data perm tmp ino l st) as [st1|] eqn:E; [|done]. eapply rtc_l; [by exists l|by apply IH].
Qed.

Definition old_fs : FileSystem :=
  let names := {["config.json" := 0%nat]} in let inodes := {[0%nat := mkInode ["o"%char] 438]} in
  mkFS names inodes names inodes.

Definition full_disk_run : list WriteLabel := [LOk; LShort 1 "no space left on device"; LBackNames; LOk].
Definition good_run : list WriteLabel := [LOk; LBackNames; LOk; LOk; LOk; LOk; LOk].

(** After a first write whose rename the disk does not know of yet. *)
Definition once_written : FileSystem :=
  match run_writes "config.json" ["n"; "w"]%char 438 ".tmp-1" 1 good_run (old_fs, WCreate) with
  | Some (fs, _) => fs
  | None => old_fs
  end.

Lemma old_before : before_write "config.json" ".tmp-1" 1 old_fs.
Proof.
  split; [by intros i _|done|].
  intros p. split; unfold old_fs; simpl; rewrite lookup_singleton_Some; by intros [_ ?].
Qed.

Definition names_no (i : nat) (names : gmap string nat) : bool :=
  forallb (λ pi : string * nat, negb (pi.2 =? i)%nat) (map_to_list names).

Lemma names_no_spec i names p : names_no i names = true → names !! p ≠ Some i.
Proof.
  unfold names_no. rewrite forallb_forall. intros Hall Hp. specialize (Hall (p, i)). simpl in Hall.
  rewrite Nat.eqb_refl in Hall. discriminate Hall. by apply list_elem_of_In, elem_of_map_to_list.
Qed.

(** A write that ran out of space; and two in a row, of whose renames the disk
    knows neither: it still has the version before both. *)
Lemma WriteFile_atomic_witness :
  (∃ fs, run_writes "config.json" ["n"; "w"]%char 438 ".tmp-1" 1 full_disk_run (old_fs, WCreate) =
      Some (fs, WDone (Some "atomicio: write temp file: no space left on device")) ∧ seen fs "config.json" = seen old_fs "config.json") ∧
  seen once_written "config.json" = Some (mkInode ["n"; "w"]%char 438) ∧
  ∃ fs, run_writes "config.json" ["3"]%char 438 ".tmp-2" 2 [LOk; LOk; LOk; LOk; LOk; LOk] (once_written, WCreate) = Some (fs, WDone None) ∧
    seen fs "config.json" = Some (mkInode ["3"]%char 438) ∧ durable fs "config.json" = seen old_fs "config.json".
Proof.
  split; [|split].
  - eexists. split; [vm_compute; reflexivity|].
    eassert (Hr : rtc (writes "config.json" ["n"; "w"]%char 438 ".tmp-1" 1) (old_fs, WCreate) _)
      by (apply (run_writes_rtc _ _ _ _ _ full_disk_run); vm_compute; reflexivity).
    destruct (WriteFile_atomic _ _ _ _ _ _ _ _ old_before Hr) as ([E|E] & _); [discriminate E|exact E].
  - vm_compute. reflexivity.
  - eexists. split; [vm_compute; reflexivity|].
    eassert (Hr1 : rtc (writes "config.json" ["n"; "w"]%char 438 ".tmp-1" 1) (old_fs, WCreate) (once_written, WDone None))
      by (apply (run_writes_rtc _ _ _ _ _ good_run); vm_compute; reflexivity).
    destruct (WriteFile_atomic _ _ _ _ _ _ _ _ old_before Hr1) as (_ & _ & _ & _ & Hw).
    assert (Hb : before_write "config.json" ".tmp-2" 2 once_written).
    { split; [exact Hw|by vm_compute|]. intros p. split; apply names_no_spec; vm_compute; reflexivity. }
    eassert (Hr : rtc (writes "config.json" ["3"]%char 438 ".tmp-2" 2) (once_written, WCreate) _)
      by (apply (run_writes_rtc _ _ _ _ _ [LOk; LOk; LOk; LOk; LOk; LOk]); vm_compute; reflexivity).
    destruct (WriteFile_atomic _ _ _ _ _ _ _ _ Hb Hr) as (_ & Hd & _). destruct (Hd eq_refl) as [Hs _].
    split; [exact Hs|vm_compute; reflexivity].
Defined.
