(* ===== verification/Commands.v ===== *)
(** * The commands

    Models what the command line does besides parsing its flags: the configuration
    file ([internal/configfile]), [command/task_create.go], [task_update.go],
    [task_list.go], [shell.go], [prune.go] and [notify.go], the git credential helper
    ([x/gitcredential]), the prebuilt binaries that are downloaded for the sandboxes
    ([runner/prebuilt]) and what [command/server.go] writes before it serves.  A
    command talks to the server through [RpcClient]. *)

From S2P Require Import Prelude AuthScope ScopeParse EventModel TaskModel Links Strconv PubSub ScheduleModel Rules.
From S2P Require Import Store StoreOps StoreLogic StoreAccounts ApiBase Timeline ShellServer ApiTask Evolution Wire.
From S2P Require Import ApiAccounts AccountSpec ApiTaskSpec Pagination StorePages ApiEvents McpTools SignIn Sse OAuthFlow.
From S2P Require Import NotifyStream Mentions EventRouter Webhooks EventSchemas EventTypes Server HttpMux FrontDoor.
From S2P Require Import RpcClient GoText AgentProcess.
From Stdlib Require Import Ascii.

(** ** The configuration file *)

(** [filepath.Clean] and [filepath.Join] of two parts, the first not empty. *)
Definition clean_relative (segs : list string) : list string :=
  foldl (λ acc s, if String.eqb s "" || String.eqb s "." then acc
                  else if String.eqb s ".." then
                    match last acc with
                    | None | Some ".." => acc ++ [s]
                    | Some _ => removelast acc
                    end
                  else acc ++ [s]) [] segs.

Definition path_Clean (path : string) : string :=
  if HasPrefix path "/" then "/" +:+ Join (clean_segments (segments path)) "/"
  else match clean_relative (segments path) with [] => "." | segs => Join segs "/" end.

Definition path_Join (dir name : string) : string := path_Clean (dir +:+ "/" +:+ name).

Record File := mkFile { File_Token : string }.
Record Overrides := mkOverrides { Over_Token : string }.

(** The process's environment and the disk: [GRITZ_CONFIG_DIR], the user's
    configuration directory, the files, and those that cannot be read. *)
Record Machine := mkMachine {
  Env_ConfigDir : string; Env_UserConfigDir : string + string;
  Disk_Files : gmap string string; Disk_Unreadable : string → option string }.

(** What a save runs into: the directory, or the write after some bytes. *)
Inductive SaveFault := NoFault | MkdirFailed (err : string) | WriteFailed (kept : nat) (err : string).

(** The decoder of the file; what does not decode is an error. *)
Class ConfigJSON := { Unmarshal_File : string → string + File }.

Section configfile.
Context `{ConfigJSON}.

Definition Dir (m : Machine) : string + string :=
  if negb (String.eqb (Env_ConfigDir m) "") then inr (Env_ConfigDir m)
  else match Env_UserConfigDir m with
       | inl err => inl ("config directory: " +:+ err)
       | inr dir => inr (path_Join dir "gritz")
       end.

Definition Path (m : Machine) : string + string :=
  match Dir m with inl err => inl err | inr dir => inr (path_Join dir "config.json") end.

Definition complete (o : option Overrides) : bool :=
  match o with Some o => negb (String.eqb (Over_Token o) "") | None => false end.

Definition apply (o : option Overrides) (f : File) : File :=
  match o with
  | Some o => if String.eqb (Over_Token o) "" then f else mkFile (Over_Token o)
  | None => f
  end.

Definition Load (overrides : option Overrides) (m : Machine) : string + File :=
  if complete overrides then inr (apply overrides (mkFile ""))
  else match Path m with
       | inl err => inl err
       | inr p =>
           match Disk_Unreadable m p with
           | Some err => inl err
           | None =>
               match Disk_Files m !! p with
               | None => inr (mkFile "")
               | Some data =>
                   match Unmarshal_File data with inl err => inl err | inr f => inr (apply overrides f) end
               end
           end
       end.

Definition File_json (f : File) : string := MarshalIndent (JObject [("token", JString (File_Token f))]).

Definition write_file (p data : string) (m : Machine) : Machine :=
  mkMachine (Env_ConfigDir m) (Env_UserConfigDir m) (<[p := data]> (Disk_Files m)) (Disk_Unreadable m).

(** [Save]: the file is cut to nothing before it is written. *)
Definition Save (f : File) (fault : SaveFault) (m : Machine) : option string * Machine :=
  match Path m with
  | inl err => (Some err, m)
  | inr p =>
      match fault with
      | MkdirFailed err => (Some err, m)
      | WriteFailed kept err => (Some err, write_file p (String.substring 0 kept (File_json f)) m)
      | NoFault => (None, write_file p (File_json f) m)
      end
  end.

(** What was saved is what is loaded next, unless a key overrides it. *)
Lemma Save_Load f m m' overrides :
  Save f NoFault m = (None, m') → (∀ p, Disk_Unreadable m p = None) → Unmarshal_File (File_json f) = inr f →
  Load overrides m' = inr (apply overrides f).
Proof.
  unfold Save, Load. destruct (Path m) as [err|p] eqn:Hp; intros [= <-] Hr Hd.
  destruct (complete overrides) eqn:Hc.
  - destruct overrides as [[t]|]; [|done]. simpl in *. by destruct (String.eqb t "").
  - assert (Hp' : Path (write_file p (File_json f) m) = inr p) by exact Hp.
    rewrite Hp'. cbn [Disk_Unreadable write_file Disk_Files]. by rewrite Hr, lookup_insert_eq, Hd.
Qed.

(** A key on the command line needs no file, whatever state the disk is in. *)
Lemma Load_overridden t m : t ≠ "" → Load (Some (mkOverrides t)) m = inr (mkFile t).
Proof. intros Ht. unfold Load. simpl. by rewrite (proj2 (String.eqb_neq t "") Ht). Qed.

(** A save that fails half way has lost the token that was there. *)
Lemma failed_Save_truncates f err m p :
  Path m = inr p → Disk_Files (snd (Save f (WriteFailed 0 err) m)) !! p = Some "".
Proof. intros Hp. unfold Save. rewrite Hp. simpl. rewrite lookup_insert_eq. by destruct (File_json f). Qed.
End configfile.

(** ** Commands that are clients *)

(** What a command ends with when it fails: its own refusal, or its call's. *)
Inductive CmdErr := Refusal (msg : string) | CallFailed (what : string) (e : CallErr).

(** A command's result, and the server after the calls it executed. *)
Definition Ran (A : Type) : Type := (CmdErr + A) * (World * nat).

(** The flags of the commands, as they are parsed; a duration is [None] when its
    flag is not given. *)
Record UpdateFlags := mkUpdateFlags {
  UF_Arg : string; UF_Name : string; UF_Start : bool; UF_Instructions : list string; UF_AutoArchive : option Z }.

Record CreateFlags := mkCreateFlags {
  CF_Name : string; CF_Runner : string; CF_Workspace : string; CF_Instructions : list string; CF_AutoArchive : option Z }.

(** [cmd.Duration]. *)
Definition Duration (flag : option Z) : Z := default 0 flag.

Definition instructions (texts : list string) : list InstructionReq := (λ text, mkInstr text "") <$> texts.

(** The checks of the update's arguments, and the request. *)
Definition update_request (f : UpdateFlags) : string + UpdateTaskRequest :=
  if String.eqb (UF_Arg f) "" then inl "task ID is required"
  else match ParseInt (UF_Arg f) with
       | None => inl "invalid task ID"
       | Some id =>
           if String.eqb (UF_Name f) "" && negb (UF_Start f) && bool_decide (UF_Instructions f = []) &&
              bool_decide (UF_AutoArchive f = None)
           then inl "nothing to update"
           else inr (mkUpdateTask id (UF_Name f) (instructions (UF_Instructions f)) (UF_Start f)
                       (Some (Duration (UF_AutoArchive f))))
       end.

Definition create_request (f : CreateFlags) : CreateTaskRequest :=
  mkCreateTask (CF_Name f) (CF_Runner f) (CF_Workspace f) "" false (Some (Duration (CF_AutoArchive f)))
    (instructions (CF_Instructions f)).

Section commands.
Context {JT : TokenJSON taskCursor} {TK : Tokens} `{BL : BackoffLaws} `{ConfigJSON}.
Context (dep : Deployment) (devUser : option UserInfo) (links : nat → Link).

(** A call that the commands make, with what they say when it fails. *)
Definition command_call {A} (o : ClientOptions) (what : string) (handler : UserInfo → M A) (w : World) : Ran A :=
  let (r, s) := WrapUnary (Opt_Retry o) links (rpc dep devUser o handler) w in
  (match r with inl e => inl (CallFailed what e) | inr a => inr a end, s).

(** The client of the configured token, which there must be. *)
Definition configured {A} (m : Machine) (w : World) (run : ClientOptions → Ran A) : Ran A :=
  match Load None m with
  | inl err => (inl (Refusal ("failed to load config: " +:+ err)), (w, 0%nat))
  | inr f =>
      if String.eqb (File_Token f) "" then (inl (Refusal "not authenticated, run setup first"), (w, 0%nat))
      else run (client_of (File_Token f))
  end.

(** [gritz task update]. *)
Definition task_update (m : Machine) (f : UpdateFlags) (w : World) : Ran unit :=
  match update_request f with
  | inl err => (inl (Refusal err), (w, 0%nat))
  | inr req =>
      configured m w (λ o, command_call o "failed to update task" (λ user, Server_UpdateTask user req) w)
  end.

(** [gritz task create]. *)
Definition task_create (m : Machine) (f : CreateFlags) (w : World) : Ran Task :=
  configured m w (λ o,
    command_call o "failed to create task" (λ user, Server_CreateTask user (create_request f)) w).

(** [gritz task list]: one page of the default size. *)
Definition task_list (m : Machine) (w : World) : Ran (list Task) :=
  configured m w (λ o,
    let '(r, s) := command_call o "failed to list tasks" (λ user, Server_ListTasks user 0 "" false) w in
    (match r with inl e => inl e | inr (tasks, _) => inr tasks end, s)).

(** [gritz shell], up to the terminal: the session to attach to. *)
Definition shell_open (m : Machine) (arg : string) (registry : option Registry) (sessionID : string) (w : World)
    : Ran string :=
  if String.eqb arg "" then (inl (Refusal "task ID required"), (w, 0%nat))
  else match ParseInt arg with
  | None => (inl (Refusal ("invalid task ID: " +:+ arg)), (w, 0%nat))
  | Some id =>
      configured m w (λ o,
        let '(r, s) := command_call o "failed to open shell"
                         (λ user, Server_OpenShell registry user sessionID id) w in
        (match r with
         | inl e => inl e
         | inr (session, _) =>
             if String.eqb session "" then inl (Refusal "server returned an empty shell session id") else inr session
         end, s))
  end.

(** *** Updating *)

(** The handlers of task requests never crash when the database answers. *)
Lemma read_task_err_connect caller op id tb e : read_task_err caller op id tb e → isPanic e = false.
Proof.
  unfold read_task_err. intros He. assert (Hc : CodeOf e ≠ CodeUnknown) by (repeat case_match; naive_solver congruence).
  destruct e; done.
Qed.

(** What a successful command's call did. *)
Lemma command_call_ok {A} o what (handler : UserInfo → M A) ok err w a w' n :
  world_ok w → healthy w → (∀ user, HandlerSpec (handler user) (ok user) (err user)) →
  (∀ user tb e, err user tb e → isPanic e = false) → (∀ k, links k ≠ ReplyLost) →
  command_call o what handler w = (inr a, (w', n)) →
  n = 1%nat ∧ ∃ user, credited dep (committed w) (clock w) devUser (http_sent o) user ∧
    ∃ tb ns, at_ w tb ns w' ∧ ok user (clock w) (committed w) a tb ns.
Proof using BL.
  intros Hw Hh Hspec Hp Hl. unfold command_call.
  pose proof (rpc_handler dep devUser o handler ok err w Hw Hh Hspec Hp) as Hrpc.
  destruct (WrapUnary _ _ _ w) as [r s] eqn:Hrun. intros [= Hr ->]. destruct r as [e|x]; [done|]. injection Hr as ->.
  apply WrapUnary_once in Hrun; [|done|].
  - destruct Hrun as [[_ [Hx|Hx]]|[[= -> ->] [Hx|[? _]]]]; [done..| |done]. split; [done|].
    unfold learned in Hx. destruct (rpc dep devUser o handler w) as [[e|[e|x]] w1]; simplify_eq/=. done.
  - intros e He. destruct (rpc dep devUser o handler w) as [[e1|x] w1]; simplify_eq/=; done.
Qed.

(** The columns of a task's row after an update. *)
Lemma update_ok_row caller req now tb q tb' ns :
  tables_ok tb q → update_ok caller req now tb tt tb' ns →
  ∃ row row', select_task tb (UT_Id req) (User_OrgID caller) = Some row ∧
    t_tasks tb' !! UT_Id req = Some row' ∧
    row' = updateRow (updated_task req (toModelTask row)) now row.
Proof.
  intros Hok (row & tb1 & Hsel & _ & Hadd & Hadd' & _).
  destruct (select_task_ok _ _ _ _ _ Hok Hsel) as (Hi & Ho & _ & _).
  destruct (updated_task_id req (toModelTask row)) as [Hid Horg]. simpl in Hid, Horg.
  exists row. eexists. split; [done|]. split; [|done].
  rewrite (add_events_tasks _ _ _ _ Hadd'). unfold put_task. rewrite Hid, Horg, Hi, Ho.
  unfold select_task in *. rewrite (add_events_tasks _ _ _ _ Hadd), Hsel. simpl. by rewrite lookup_insert_eq.
Qed.

(** C14: what [gritz task update] does.  When it reports success and no reply was lost on
    its way back to it, over however many attempts that did not reach the server and
    with a database that answers, the server executed one update for the user of the
    configured token (a lost reply makes the client send the update again): the
    task has the given name if there was one, was started if that was asked, and its
    auto-archive delay is that of the flag, so it is reset to never by every update
    that does not repeat it. *)
Theorem task_update_does (m : Machine) (f : UpdateFlags) (w w' : World) (n : nat) :
  world_ok w → healthy w → (∀ k, links k ≠ ReplyLost) →
  task_update m f w = (inr tt, (w', n)) →
  n = 1%nat ∧ world_ok w' ∧ ∃ token id user row row',
    Load None m = inr (mkFile token) ∧ ParseInt (UF_Arg f) = Some id ∧
    credited dep (committed w) (clock w) devUser (http_sent (client_of token)) user ∧
    select_task (committed w) id (User_OrgID user) = Some row ∧ t_tasks (committed w') !! id = Some row' ∧
    Row_name row' = (if String.eqb (UF_Name f) "" then Row_name row else UF_Name f) ∧
    Row_auto_archive row' = Microseconds (default 0 (UF_AutoArchive f)) ∧
    Row_status row' =
      TaskStatus_int (Task_Status (if UF_Start f then snd (Start (toModelTask row)) else toModelTask row)).
Proof using BL.
  intros Hw Hh Hl. unfold task_update, configured.
  destruct (update_request f) as [|req] eqn:Hreq; [done|].
  destruct (Load None m) as [|[token]]; [done|]. simpl File_Token. destruct (String.eqb token "") eqn:Ht; [done|].
  intros Hrun. eapply command_call_ok in Hrun; [|done|done|intros user; apply UpdateTask_spec|
    intros user tb e; apply read_task_err_connect|done].
  destruct Hrun as (-> & user & Hcred & tb & ns & Hat & Hup). split; [done|]. split; [exact (at_world_ok _ _ _ _ Hat)|].
  unfold update_request in Hreq. destruct (String.eqb (UF_Arg f) ""); [done|].
  destruct (ParseInt (UF_Arg f)) as [id|]; [|done]. destruct (_ && _); [done|]. injection Hreq as <-.
  destruct (update_ok_row _ _ _ _ _ _ _ (proj2 Hw) Hup) as (row & row' & Hsel & Hrow' & ->).
  exists token, id, user, row. eexists. rewrite (at_committed _ _ _ _ Hat).
  split_and!; [done..|exact Hsel|exact Hrow'| | |];
    unfold updated_task, Start, CanStart; cbn; destruct (String.eqb (UF_Name f) ""), (UF_Start f); cbn; by repeat case_match.
Qed.
End commands.

(** ** Pruning *)

(** A stopped container of gritz, by its ID, name and task label. *)
Record Stopped := mkStopped { Stopped_ID : string; Stopped_Name : string; Stopped_Task : string }.

(** What the command prints for a container, and what it removed. *)
Inductive PruneLine :=
| WarnInvalid (task name : string)
| WarnGet (task : Z) (err : CmdErr)
| WarnRemove (name err : string)
| Removed (name : string) (task : Z).

Section prune.
Context {TK : Tokens} `{BL : BackoffLaws}.
Context (dep : Deployment) (devUser : option UserInfo) (links : Z → nat → Link).
(** What removing a container answers. *)
Context (ContainerRemove : string → option string).

Definition removed_lines (lines : list PruneLine) : list (string * Z) :=
  omap (λ l, match l with Removed name task => Some (name, task) | _ => None end) lines.

(** The client of the command has no token. *)
Definition prune_one (c : Stopped) (w : World) : list PruneLine * World :=
  if String.eqb (Stopped_Task c) "" then ([], w)
  else match ParseInt (Stopped_Task c) with
  | None => ([WarnInvalid (Stopped_Task c) (Stopped_Name c)], w)
  | Some id =>
      let '(r, (w', _)) := command_call dep devUser (links id) (client_of "") "" (λ user, Server_GetTask user id) w in
      (match r with
       | inl err => [WarnGet id err]
       | inr task =>
           if Task_Archived task then
             match ContainerRemove (Stopped_ID c) with
             | Some err => [WarnRemove (Stopped_Name c) err]
             | None => [Removed (Stopped_Name c) id]
             end
           else []
       end, w')
  end.

Fixpoint prune_all (cs : list Stopped) (w : World) : list PruneLine * World :=
  match cs with
  | [] => ([], w)
  | c :: cs =>
      let (lines, w1) := prune_one c w in
      let (lines', w2) := prune_all cs w1 in
      (lines ++ lines', w2)
  end.

(** [gritz prune], for the containers that the daemon lists. *)
Definition prune (listed : string + list Stopped) (w : World) : (string + list PruneLine) * World :=
  match listed with
  | inl err => (inl ("failed to list containers: " +:+ err), w)
  | inr cs => let (lines, w') := prune_all cs w in (inr lines, w')
  end.

(** The user of a server started without sign-in holds no scopes. *)
Definition unscoped (devUser : option UserInfo) : Prop := ∀ user, devUser = Some user → User_Scopes user = [].

Lemma GetTask_refused id w :
  unscoped devUser → ∃ e, rpc dep devUser (client_of "") (λ user, Server_GetTask user id) w = (inr (inl e), w).
Proof.
  intros Hun. destruct devUser as [user|]; [|by eexists; apply no_token_refused].
  specialize (Hun user eq_refl). unfold rpc, CheckAuth, authenticate, attach_session, mbind, M_bind, catch, RequireUserInterceptor.
  simpl. unfold Server_GetTask, AllowOp. rewrite Hun. simpl. by eexists.
Qed.

(** [gritz prune] removes nothing.  The client of the command has no token:
    against a server with sign-in every question about a task is refused as
    unauthenticated, and against a server without it, whose user holds no scopes,
    as not permitted.  So no container is removed, however many of archived tasks
    the daemon lists, and the server's state is as it was. *)
Theorem prune_removes_nothing (cs : list Stopped) (w w' : World) (lines : list PruneLine) :
  unscoped devUser → (∀ id k, links id k ≠ ReplyLost) →
  prune (inr cs) w = (inr lines, w') → w' = w ∧ removed_lines lines = [].
Proof using BL.
  intros Hun Hl. assert (Hgoal : snd (prune_all cs w) = w ∧ removed_lines (fst (prune_all cs w)) = []); cycle 1.
  { unfold prune. destruct (prune_all cs w). by intros [= <- <-]. }
  induction cs as [|c cs IH]; [done|]. cbn [prune_all].
  assert (Hone : snd (prune_one c w) = w ∧ removed_lines (fst (prune_one c w)) = []).
  { unfold prune_one. destruct (String.eqb _ _); [done|]. destruct (ParseInt _) as [id|]; [|done].
    unfold command_call. destruct (WrapUnary _ _ _ w) as [r s] eqn:Hrun.
    destruct (GetTask_refused id w Hun) as [e Hcall].
    apply WrapUnary_once in Hrun; [|by intros k; apply Hl|by rewrite Hcall].
    unfold settled_once in Hrun. rewrite Hcall in Hrun. by destruct Hrun as [[-> [-> | ->]]|[-> [->|[-> _]]]]. }
  destruct (prune_one c w) as [lines1 w1]. simpl in Hone. destruct Hone as [-> Hlines].
  destruct (prune_all cs w) as [lines2 w2]. simpl in *. destruct IH as [-> Hrest]. split; [done|].
  unfold removed_lines in *. by rewrite omap_app, Hlines.
Qed.

(** What it would remove is a container of a task that the server says is archived. *)
Lemma prune_one_removes c w name id :
  removed_lines (fst (prune_one c w)) = [(name, id)] →
  name = Stopped_Name c ∧ ParseInt (Stopped_Task c) = Some id ∧ ContainerRemove (Stopped_ID c) = None ∧
  ∃ task s, command_call dep devUser (links id) (client_of "") "" (λ user, Server_GetTask user id) w = (inr task, s) ∧
    Task_Archived task = true.
Proof.
  unfold prune_one. destruct (String.eqb _ _); [done|]. destruct (ParseInt _) as [i|]; [|done].
  destruct (command_call _ _ _ _ _ _ _) as [[e|task] [w' n]] eqn:Hc; [done|].
  destruct (Task_Archived task) eqn:Ha; [|done]. destruct (ContainerRemove _) eqn:Hr; [done|].
  intros [= <- <-]. split_and!; try done. by exists task, (w', n).
Qed.
End prune.

(** ** System notifications *)

(** [gritz notify]'s handler: what is shown for a notification. *)
Definition notify_shown (title : string) (n : Notification) : option (string * string) :=
  if IsTerminal (N_TaskStatus n) then Some (title, N_ChannelMessage n) else None.

(** ** The git credential helper *)

Section gitcredential.
(** The longest line that the scanner of the input takes. *)
Context (maxTokenSize : nat).

(** [strings.Cut] at an equals sign. *)
Fixpoint cut_equals (s : string) : option (string * string) :=
  match s with
  | EmptyString => None
  | String "="%char rest => Some ("", rest)
  | String c rest => prod_map (String c) id <$> cut_equals rest
  end.

(** The lines as they come, the last perhaps without its newline. *)
Definition raw_lines (input : list ascii) : list (list ascii) :=
  let (ls, rest) := split_lines input in ls ++ match rest with [] => [] | _ => [rest] end.

(** The lines up to an empty one, or one too long for the scanner. *)
Fixpoint input_lines (ls : list (list ascii)) : list string :=
  match ls with
  | [] => []
  | l :: ls =>
      if (maxTokenSize <=? length l)%nat then []
      else match dropCR l with [] => [] | line => String.string_of_list_ascii line :: input_lines ls end
  end.

(** [ParseInput]: a later line with a key replaces an earlier one. *)
Definition ParseInput (input : list ascii) : gmap string string :=
  foldl (λ m line, match cut_equals line with Some (key, value) => <[key := value]> m | None => m end) ∅
    (input_lines (raw_lines input)).

Definition FormatOutput (token : string) : string :=
  "username=x-access-token" +:+ newline +:+ "password=" +:+ token +:+ newline +:+ newline.

(** Whether git asks for github.com over https. *)
Definition asks_github (fields : gmap string string) : bool :=
  bool_decide (fields !! "host" = Some "github.com") &&
  match fields !! "protocol" with Some protocol => String.eqb protocol "https" | None => true end.

(** [Run]: what it prints, or the error; [mint] asks the server for a token. *)
Definition credential_Run (action : string) (input : list ascii) (mint : CallErr + string) : string + string :=
  if String.eqb action "get" then
    if asks_github (ParseInput input) then
      match mint with inl _ => inl "failed to get GitHub token" | inr token => inr (FormatOutput token) end
    else inr ""
  else inr "".

(** A token is printed for GitHub alone, and only to a [get]. *)
Lemma credential_confined action input mint out :
  credential_Run action input mint = inr out → out ≠ "" →
  action = "get" ∧ ∃ token, mint = inr token ∧ out = FormatOutput token ∧
    ParseInput input !! "host" = Some "github.com" ∧
    (ParseInput input !! "protocol" = None ∨ ParseInput input !! "protocol" = Some "https").
Proof.
  unfold credential_Run, asks_github. destruct (String.eqb_spec action "get") as [->|]; [|by intros [= <-]].
  destruct (bool_decide_reflect (ParseInput input !! "host" = Some "github.com")); [|by intros [= <-]]. simpl.
  destruct (ParseInput input !! "protocol") as [p|]; [destruct (String.eqb_spec p "https") as [->|]|];
    destruct mint as [err|token]; intros [= <-] Hne; try done; (split; [done|]); exists token; auto.
Qed.
End gitcredential.

(** The server mints no token: whatever the client and its token, it gets none. *)
Lemma no_token_minted {CR : Cron} {JC : TokenJSON IDCursor} {JT : TokenJSON taskCursor} {MJ : MapJSON} {TK : Tokens}
    url_Parse dep devUser o w :
  match fst (rpc dep devUser o (λ user, api_call url_Parse dep user CallCreateGitHubToken) w) with
  | inr (inr _) => False
  | _ => True
  end.
Proof.
  unfold rpc, mbind, M_bind. destruct (CheckAuth _ _ _ w) as [[e|a] w1]; [done|].
  unfold RequireUserInterceptor, catch. by destruct (attached_user a).
Qed.

(** ** The prebuilt binaries *)

(** [runtime.GOARCH] when the running executable can serve as its own binary (linux,
    linked statically, no test), the executable's path, and [GRITZ_PREBUILT_DIR]. *)
Record Host := mkHost { H_Own : option string; H_Executable : string + string; H_PrebuiltDir : string }.

Inductive FileErr := NotExist (path : string) | OtherErr (err : string).

Definition FileErr_message (e : FileErr) : string :=
  match e with NotExist path => "open " +:+ path +:+ ": no such file or directory" | OtherErr err => err end.

Definition os_ReadFile (path : string) (m : Machine) : FileErr + string :=
  match Disk_Unreadable m path, Disk_Files m !! path with
  | Some err, _ => inl (OtherErr err)
  | None, None => inl (NotExist path)
  | None, Some data => inr data
  end.

Definition DefaultRepo : string := "gritzapp/gritz".
Definition BinaryNames : list string := ["gritz-linux-amd64"; "gritz-linux-arm64"].

Definition prebuilt_Dir (h : Host) (m : Machine) : string + string :=
  if negb (String.eqb (H_PrebuiltDir h) "") then inr (H_PrebuiltDir h)
  else if negb (String.eqb (Env_ConfigDir m) "") then inr (path_Join (Env_ConfigDir m) "prebuilt")
  else match Env_UserConfigDir m with
       | inl err => inl ("config directory: " +:+ err)
       | inr dir => inr (path_Join dir "gritz/prebuilt")
       end.

Definition BinaryPath (h : Host) (arch : string) (m : Machine) : string + string :=
  match prebuilt_Dir h m with inl err => inl err | inr dir => inr (path_Join dir ("gritz-linux-" +:+ arch)) end.

Definition ReadBinary (h : Host) (arch : string) (m : Machine) : string + string :=
  if bool_decide (H_Own h = Some arch) then
    match H_Executable h with
    | inl err => inl ("resolve executable path: " +:+ err)
    | inr exe => match os_ReadFile exe m with inl e => inl (FileErr_message e) | inr data => inr data end
    end
  else match BinaryPath h arch m with
       | inl err => inl err
       | inr path =>
           match os_ReadFile path m with
           | inl (NotExist _) => inl ("prebuilt binary not found: " +:+ path +:+ newline +:+ newline +:+
                                      "Run 'gritz download' to download prebuilt binaries")
           | inl e => inl ("failed to read binary " +:+ path +:+ ": " +:+ FileErr_message e)
           | inr data => inr data
           end
       end.

Record Asset := mkAsset { Asset_ID : Z; Asset_Name : string }.
Record Release := mkRelease { Release_Tag : string; Release_Assets : list Asset }.

(** A body that is downloaded: the bytes that come, and the error that they end in. *)
Record Body := mkBody { Body_Data : string; Body_Err : option string }.

(** What the disk does to a file that is written: it cannot be created, takes no more
    than so many bytes, or does not take the permissions. *)
Record DiskFault := mkDiskFault {
  DF_Create : option string; DF_Room : option (nat * string); DF_Chmod : option string }.

Definition findAsset (assets : list Asset) (name : string) : option Asset :=
  find (λ a, String.eqb (Asset_Name a) name) assets.

(** [writeFile], over the file that is there; the file's permissions are left out. *)
Definition writeFile (path : string) (body : Body) (fault : DiskFault) (m : Machine) : option string * Machine :=
  match DF_Create fault with
  | Some err => (Some err, m)
  | None =>
      let full := match DF_Room fault with
                  | Some (room, err) => if (room <? String.length (Body_Data body))%nat then Some (room, err) else None
                  | None => None
                  end in
      match full, Body_Err body with
      | Some (room, err), _ => (Some err, write_file path (String.substring 0 room (Body_Data body)) m)
      | None, Some err => (Some err, write_file path (Body_Data body) m)
      | None, None => (DF_Chmod fault, write_file path (Body_Data body) m)
      end
  end.

Section download.
(** The GitHub client and its answers, and the disk. *)
Context (newClient : option string) (latest : string → string → string + Release) (fetch : Z → string + Body).
Context (mkdir : string → option string) (disk : string → DiskFault).

Fixpoint download_all (dir : string) (release : Release) (names : list string) (m : Machine) : option string * Machine :=
  match names with
  | [] => (None, m)
  | name :: names =>
      match findAsset (Release_Assets release) name with
      | None => (Some ("asset " +:+ name +:+ " not found in release " +:+ Release_Tag release), m)
      | Some asset =>
          match fetch (Asset_ID asset) with
          | inl err => (Some ("failed to download " +:+ name +:+ ": " +:+ err), m)
          | inr body =>
              let path := path_Join dir name in
              match writeFile path body (disk path) m with
              | (Some err, m') => (Some ("failed to save " +:+ name +:+ ": " +:+ err), m')
              | (None, m') => download_all dir release names m'
              end
          end
      end
  end.

Definition Download (h : Host) (repo : string) (m : Machine) : option string * Machine :=
  match prebuilt_Dir h m with
  | inl err => (Some err, m)
  | inr dir =>
      match Cut "/" repo with
      | (_, _, false) => (Some ("invalid github-repo format, expected owner/repo: " +:+ repo), m)
      | (owner, repoName, true) =>
          match newClient with
          | Some err => (Some ("failed to create github client: " +:+ err), m)
          | None =>
              match latest owner repoName with
              | inl err => (Some ("failed to get latest release: " +:+ err), m)
              | inr release =>
                  match mkdir dir with
                  | Some err => (Some ("failed to create directory " +:+ dir +:+ ": " +:+ err), m)
                  | None => download_all dir release BinaryNames m
                  end
              end
          end
      end
  end.

(** *** What a download leaves *)

(** A name that stands for itself in a path. *)
Definition plain (name : string) : Prop :=
  absent slash name = true ∧ name ≠ "" ∧ name ≠ "." ∧ name ≠ "..".

Lemma Join_snoc l name : Join (l ++ [name]) "/" = match l with [] => name | _ => Join l "/" +:+ "/" +:+ name end.
Proof.
  induction l as [|s l IH]; [done|]. destruct l as [|s' l]; [done|].
  change (s +:+ "/" +:+ Join ((s' :: l) ++ [name]) "/" = (s +:+ "/" +:+ Join (s' :: l) "/") +:+ "/" +:+ name).
  by rewrite IH, !str_app_assoc.
Qed.

Lemma Split_snoc a name : absent slash name = true → Split slash (a +:+ "/" +:+ name) = Split slash a ++ [name].
Proof.
  change ("/" +:+ name) with (String slash name). intros Hn. induction a as [|c a IH].
  - change (Split slash (("" : string) +:+ String slash name) = [""] ++ [name]). by rewrite Split_app, Split_absent.
  - change (Split slash (String c (a +:+ String slash name)) = Split slash (String c a) ++ [name]). cbn [Split]. rewrite IH. destruct (Ascii.eqb c slash); [done|].
    pose proof (Split_nonempty slash a). by destruct (Split slash a).
Qed.

Lemma clean_snoc segs name :
  plain name → clean_segments (segs ++ [name]) = clean_segments segs ++ [name] ∧
  clean_relative (segs ++ [name]) = clean_relative segs ++ [name].
Proof.
  intros (_ & H1 & H2 & H3). unfold clean_segments, clean_relative. rewrite !foldl_app. simpl.
  by rewrite (proj2 (String.eqb_neq _ _) H1), (proj2 (String.eqb_neq _ _) H2), (proj2 (String.eqb_neq _ _) H3).
Qed.

(** Files of one directory have paths of their own. *)
Lemma path_Join_names dir : ∃ pre, ∀ name, plain name → path_Join dir name = pre +:+ name.
Proof.
  set (segs := match dir with "" => [] | String "/" d => Split slash d | d => Split slash d end).
  assert (Hs : ∀ name, plain name → segments (dir +:+ "/" +:+ name) = segs ++ [name]).
  { intros name Hn. pose proof (Split_snoc dir name (proj1 Hn)) as Hd. destruct dir as [|c d].
    { change (Split slash name = [name]). by apply Split_absent, Hn. }
    pose proof (Split_snoc d name (proj1 Hn)) as Hd'. subst segs.
    destruct c as [[] [] [] [] [] [] [] []]; assumption. }
  assert (Hp : ∀ name, HasPrefix (dir +:+ "/" +:+ name) "/" = HasPrefix (dir +:+ "/") "/").
  { intros name. destruct dir as [|c d]; [done|]. cbn [String.append HasPrefix]. by destruct (Ascii.eqb "/" c), d. }
  exists (let pre l := match l with [] => "" | _ => Join l "/" +:+ "/" end in
     if HasPrefix (dir +:+ "/") "/" then "/" +:+ pre (clean_segments segs) else pre (clean_relative segs)).
  intros name Hn. unfold path_Join, path_Clean. rewrite Hp, (Hs _ Hn).
  destruct (clean_snoc segs name Hn) as [-> ->]. destruct (HasPrefix _ _).
  - rewrite Join_snoc, str_app_assoc. f_equal. destruct (clean_segments segs); [done|]. by rewrite str_app_assoc.
  - replace (match clean_relative segs ++ [name] with [] => "." | l => Join l "/" end)
      with (Join (clean_relative segs ++ [name]) "/") by (by destruct (clean_relative segs)).
    rewrite Join_snoc. destruct (clean_relative segs); [done|]. by rewrite str_app_assoc.
Qed.

Lemma path_Join_inj dir n1 n2 : plain n1 → plain n2 → path_Join dir n1 = path_Join dir n2 → n1 = n2.
Proof. destruct (path_Join_names dir) as [pre Hpre]. intros H1 H2. rewrite !Hpre by done. apply (inj (String.append pre)). Qed.

Lemma writeFile_done path body fault m m' :
  writeFile path body fault m = (None, m') → Body_Err body = None ∧ m' = write_file path (Body_Data body) m.
Proof.
  unfold writeFile. destruct (DF_Create fault); [done|].
  destruct (DF_Room fault) as [[room err]|]; [destruct (room <? _)%nat; [done|]|]; destruct (Body_Err body); try done;
    intros [= _ <-]; done.
Qed.

Lemma download_all_done dir release names m m' :
  NoDup names → Forall plain names → download_all dir release names m = (None, m') →
  (∀ name, name ∈ names → ∃ asset body, findAsset (Release_Assets release) name = Some asset ∧
     fetch (Asset_ID asset) = inr body ∧ Body_Err body = None ∧ Disk_Files m' !! path_Join dir name = Some (Body_Data body)) ∧
  (∀ path, (∀ name, name ∈ names → path ≠ path_Join dir name) → Disk_Files m' !! path = Disk_Files m !! path) ∧
  (∀ h, prebuilt_Dir h m' = prebuilt_Dir h m) ∧ Disk_Unreadable m' = Disk_Unreadable m.
Proof.
  intros Hnd Hp. revert m. induction names as [|name names IH]; intros m; cbn [download_all].
  { intros [= <-]. split; [by intros name ?%elem_of_nil|auto]. }
  apply NoDup_cons in Hnd as [Hni Hnd]. inversion_clear Hp as [|?? Hn Hp'].
  destruct (findAsset _ name) as [asset|] eqn:Ha; [|done]. destruct (fetch _) as [|body] eqn:Hf; [done|].
  destruct (writeFile _ _ _ m) as [[err|] m1] eqn:Hw; [done|]. apply writeFile_done in Hw as [Hb ->].
  intros (Hall & Hrest & Henv)%IH; [|done..]. split_and!; [| |apply Henv..].
  - intros name' [->|Hin]%elem_of_cons; [|by apply Hall]. exists asset, body. split_and!; [done..|].
    rewrite Hrest; [apply lookup_insert_eq|]. intros n' Hn' E.
    apply path_Join_inj in E as <-; [done|done|]. by eapply Forall_forall in Hp'.
  - intros path Hpath. rewrite Hrest by (intros n' Hn'; apply Hpath; by right).
    apply lookup_insert_ne. intros <-. by apply (Hpath name); [left|].
Qed.

Lemma plain_BinaryNames : NoDup BinaryNames ∧ Forall plain BinaryNames.
Proof. split; [apply (bool_decide_unpack _); vm_compute; exact I|]. repeat constructor; try done. Qed.

(** A download that succeeded is what the sandboxes of either architecture are given,
    in full, until the executable itself serves. *)
Lemma Download_installs h repo m m' arch :
  Download h repo m = (None, m') → arch = "amd64" ∨ arch = "arm64" → H_Own h ≠ Some arch →
  (∀ path, Disk_Unreadable m path = None) →
  ∃ owner name release asset body, Cut "/" repo = (owner, name, true) ∧ latest owner name = inr release ∧
    findAsset (Release_Assets release) ("gritz-linux-" +:+ arch) = Some asset ∧
    fetch (Asset_ID asset) = inr body ∧ Body_Err body = None ∧ ReadBinary h arch m' = inr (Body_Data body).
Proof.
  unfold Download, ReadBinary, BinaryPath. intros Hd Harch Hown Hread. destruct (prebuilt_Dir h m) as [|dir] eqn:Hdir; [done|].
  destruct (Cut "/" repo) as [[owner name] []] eqn:Hcut; [|done]. destruct newClient; [done|].
  destruct (latest owner name) as [|release] eqn:Hl; [done|]. destruct (mkdir dir); [done|].
  apply download_all_done in Hd as (Hall & _ & Henv & Hu); [|apply plain_BinaryNames..].
  destruct (Hall ("gritz-linux-" +:+ arch)) as (asset & body & Ha & Hf & Hb & Hfile).
  { destruct Harch as [-> | ->]; [left|right; left]. }
  exists owner, name, release, asset, body. split_and!; [done..|].
  rewrite bool_decide_eq_false_2 by done. rewrite Henv, Hdir. unfold os_ReadFile. by rewrite Hu, Hread, Hfile.
Qed.

(** A connection that breaks has replaced the binary by what came of the new one, and
    the next sandbox is given that. *)
Lemma broken_download_used path data err fault m h arch :
  BinaryPath h arch m = inr path → H_Own h ≠ Some arch → Disk_Unreadable m path = None →
  DF_Create fault = None → DF_Room fault = None →
  let (e, m') := writeFile path (mkBody data (Some err)) fault m in
  e = Some err ∧ ReadBinary h arch m' = inr data.
Proof.
  unfold writeFile, ReadBinary. intros Hp Hown Hr -> ->. split; [done|]. rewrite bool_decide_eq_false_2 by done.
  assert (Hp' : BinaryPath h arch (write_file path data m) = inr path) by exact Hp.
  cbn [Body_Data]. rewrite Hp'. unfold os_ReadFile. simpl. by rewrite Hr, lookup_insert_eq.
Qed.
End download.

(** An update of both binaries whose second download breaks. *)
Definition broken_update : option string * Machine :=
  Download None (λ _ _, inr (mkRelease "v2" [mkAsset 1 "gritz-linux-amd64"; mkAsset 2 "gritz-linux-arm64"]))
    (λ id, inr (if id =? 1 then mkBody "new-amd64" None else mkBody "new-" (Some "unexpected EOF")))
    (λ _, None) (λ _, mkDiskFault None None None) (mkHost None (inr "/bin/gritz") "/opt/prebuilt") DefaultRepo
    (mkMachine "" (inr "/root/.config") {["/opt/prebuilt/gritz-linux-arm64" := "old-arm64"]} (λ _, None)).

Lemma broken_update_run :
  let h := mkHost None (inr "/bin/gritz") "/opt/prebuilt" in
  fst broken_update = Some "failed to save gritz-linux-arm64: unexpected EOF" ∧
  ReadBinary h "amd64" (snd broken_update) = inr "new-amd64" ∧ ReadBinary h "arm64" (snd broken_update) = inr "new-".
Proof. repeat split; vm_compute; reflexivity. Qed.

(** ** Starting a server without sign-in *)

(** The user of [--no-auth], to whom no org and no scopes are given. *)
Definition dev_user : UserInfo := mkUser "dev" "dev@localhost" "Developer" 0 "" "" [].

(** What [command/server.go] writes before it serves: the user and the key of a
    local runner, which is there already after the first start. *)
Definition start_dev (Sum256 : string → string) (keyID : string) : M unit :=
  user ← Provision dev_user;
  r ← catch (StoreCreateKey NoTx (mkKey keyID "dev-runner" (HashKey Sum256 "xat_dev") (U_DefaultOrgID user) None 0 Admin));
  match r with inl err => if isPanic err then raise err else mret tt | inr _ => mret tt end.

(** *** Runs, by evaluation *)

#[local] Instance sample_config_json : ConfigJSON := {| Unmarshal_File data := if String.eqb data "" then inl "unexpected end of JSON input" else inr (mkFile "t2") |}.

Definition sample_machine : Machine :=
  mkMachine "" (inr "/home/u/.config") {["/home/u/.config/gritz/config.json" := File_json (mkFile "t2")]} (λ _, None).

Lemma paths :
  Path sample_machine = inr "/home/u/.config/gritz/config.json" ∧
  path_Join "/etc/../gritz/" "config.json" = "/gritz/config.json" ∧ path_Join "conf/../.." "x" = "../x".
Proof. repeat split; vm_compute; reflexivity. Qed.

(** Task 7 is to be archived an hour after it ends. *)
Definition delayed : World :=
  mkWorld (with_tasks <[7 := taskRow 7 0 0 (mkTask 7 "n" "r1" "ws" TaskStatusCompleted TaskCommandNone 1 3 false 0 0 ""
                               (3600 * 10 ^ 9) "")]> (committed two_orgs)) None (seqs two_orgs) [] [] 1000.

Definition renamed : Ran unit :=
  @task_update demo_tokens plain_backoff sample_config_json sample_deployment None (links_of [Unreachable]) sample_machine
    (mkUpdateFlags "7" "n2" false [] None) delayed.

(** A rename over a connection that failed once; the delay that the task had is
    gone. *)
Lemma task_update_does_witness :
  fst renamed = inr tt ∧ snd (snd renamed) = 1%nat ∧
  ∃ row row', t_tasks (committed delayed) !! 7 = Some row ∧ Row_auto_archive row = 3600 * 10 ^ 6 ∧
    t_tasks (committed (fst (snd renamed))) !! 7 = Some row' ∧ Row_name row' = "n2" ∧ Row_auto_archive row' = 0.
Proof.
  split; [vm_compute; reflexivity|]. split; [vm_compute; reflexivity|].
  destruct renamed as [r [w' n]] eqn:Hrun. assert (r = inr tt) as -> by (apply (f_equal fst) in Hrun; vm_compute in Hrun; congruence).
  destruct (@task_update_does demo_tokens plain_backoff plain_backoff_laws sample_config_json sample_deployment None
    (links_of [Unreachable]) sample_machine (mkUpdateFlags "7" "n2" false [] None) delayed w' n)
    as (_ & _ & token & id & user & row & row' & _ & Hid & _ & Hsel & Hrow' & Hn & Ha & _).
  - apply world_okb_ok. vm_compute. reflexivity.
  - apply Forall_nil. exact I.
  - intros [|k]; discriminate.
  - exact Hrun.
  - vm_compute in Hid. injection Hid as <-. apply select_task_Some in Hsel as [Hsel _].
    exists row, row'. split_and!; [exact Hsel| |exact Hrow'|exact Hn|exact Ha].
    vm_compute in Hsel. injection Hsel as <-. reflexivity.
Defined.

(** The first two of three stopped containers have tasks, one of them archived;
    nothing is removed, with sign-in or without. *)
Definition archived_world : World :=
  mkWorld (with_tasks <[7 := taskRow 7 0 0 (mkTask 7 "n" "r1" "ws" TaskStatusCompleted TaskCommandNone 1 3 true 0 0 "" 0 "")]>
             (committed two_orgs)) None (seqs two_orgs) [] [] 1000.

Definition stopped : string + list Stopped := inr [mkStopped "c1" "one" "7"; mkStopped "c2" "two" "6"; mkStopped "c3" "three" "x"].

Definition pruned (devUser : option UserInfo) : (string + list PruneLine) * World :=
  @prune demo_tokens plain_backoff sample_deployment devUser (λ _, links_of []) (λ _, None) stopped archived_world.

Lemma prune_removes_nothing_witness :
  pruned None = (inr [
    WarnGet 7 (CallFailed "" (Answered (EConnect CodeUnauthenticated "authentication required")));
    WarnGet 6 (CallFailed "" (Answered (EConnect CodeUnauthenticated "authentication required")));
    WarnInvalid "x" "three"], archived_world) ∧
  match pruned (Some dev_user) with (inr lines, w') => w' = archived_world ∧ removed_lines lines = [] | _ => False end.
Proof.
  split; [vm_compute; reflexivity|].
  destruct (pruned (Some dev_user)) as [[err|lines] w'] eqn:Hrun.
  - apply (f_equal fst) in Hrun. vm_compute in Hrun. discriminate Hrun.
  - revert Hrun. apply (@prune_removes_nothing demo_tokens plain_backoff plain_backoff_laws sample_deployment (Some dev_user)).
    + intros user [= <-]. reflexivity.
    + intros id k. unfold links_of. rewrite lookup_nil. discriminate.
Defined.

(** The key of a local runner is made once. *)
Lemma dev_key_made_once :
  let start id w := snd (start_dev (λ s, s) id w) in
  let w1 := start "k1" two_orgs in
  (∃ user, key_user (committed w1) 1000 (HashKey (λ s, s) "xat_dev") = inr user ∧ User_OrgID user = 8) ∧
  t_keys (committed (start "k2" w1)) = t_keys (committed w1).
Proof. split; [eexists; split|]; vm_compute; reflexivity. Qed.
