(* ===== verification/ConfigLoad.v ===== *)
(** * Loading the workspaces file

    Models [internal/x/expandvar] and the loading in
    [internal/runner/workspace/workspace.go]: the references of a text and their
    expansion, the walk over the YAML tree, [LoadConfig] and [CreateDefault]; and
    [internal/shell/url.go], the addresses of a shell session's legs.  The YAML
    library's parsing and decoding are parameters, and so are the environment and
    the shell that a reference asks. *)

From S2P Require Import Prelude Mentions Workspace SignIn HttpMux GoText RpcClient Commands.
From Stdlib Require Import Ascii.

(** ** References *)

(** The run of characters before the first that stops it. *)
Fixpoint span (stop : ascii → bool) (s : string) : string * string :=
  match s with
  | EmptyString => ("", "")
  | String c rest => if stop c then ("", s) else let (l, r) := span stop rest in (String c l, r)
  end.

Definition colon_or_brace (c : ascii) : bool := Ascii.eqb c ":" || Ascii.eqb c "}".
Definition brace (c : ascii) : bool := Ascii.eqb c "}".

(** A match of the pattern after its opening: the namespace, the value and the
    rest. *)
Definition match_ref (s : string) : option (string * string * string) :=
  let (ns, r) := span colon_or_brace s in
  match ns, r with
  | EmptyString, _ => None
  | _, String ":"%char r =>
      let (v, r) := span brace r in
      match v, r with
      | EmptyString, _ => None
      | _, String "}"%char rest => Some (ns, v, rest)
      | _, _ => None
      end
  | _, _ => None
  end.

Inductive Piece := Lit (c : ascii) | Ref (ns value : string).

Definition ref_source (ns value : string) : string := "${" +:+ ns +:+ ":" +:+ value +:+ "}".

(** The leftmost matches, and the characters between them; [skip] counts what is
    left of the match that was found last. *)
Fixpoint pieces_from (skip : nat) (s : string) : list Piece :=
  match s with
  | EmptyString => []
  | String c rest =>
      match skip with
      | S skip => pieces_from skip rest
      | O =>
          match c, rest with
          | "$"%char, String "{"%char body =>
              match match_ref body with
              | Some (ns, v, _) => Ref ns v :: pieces_from (String.length ns + String.length v + 3) rest
              | None => Lit c :: pieces_from 0 rest
              end
          | _, _ => Lit c :: pieces_from 0 rest
          end
      end
  end.

Definition pieces : string → list Piece := pieces_from 0.

Section expand.
(** What the world that references ask is, and what it answers. *)
Context {St : Type} (replace : string → string → St → (string + string) * St).

(** [Expand]: all the references in order, whatever an earlier one answered; the
    error is the last. *)
Fixpoint expand_pieces (ps : list Piece) (lastErr : option string) (st : St) : string * option string * St :=
  match ps with
  | [] => ("", lastErr, st)
  | Lit c :: ps => let '(out, err, st) := expand_pieces ps lastErr st in (String c out, err, st)
  | Ref ns v :: ps =>
      let (ans, st) := replace ns v st in
      let '(text, lastErr) := match ans with inl err => (ref_source ns v, Some err) | inr text => (text, lastErr) end in
      let '(out, err, st) := expand_pieces ps lastErr st in
      (text +:+ out, err, st)
  end.

Definition Expand (input : string) (st : St) : string * option string * St := expand_pieces (pieces input) None st.

(** ** The tree *)

#[warnings="-register-all"]
Inductive Node :=
| Scalar (tag value : string)
| Sequence (content : list Node)
| Mapping (content : list Node)
| Document (content : list Node)
| Alias.

(** The children in order, up to an error. *)
Fixpoint expandNode (n : Node) (st : St) : (string + Node) * St :=
  let children := (fix children (l : list Node) (st : St) : (string + list Node) * St :=
    match l with
    | [] => (inr [], st)
    | n :: l =>
        let (r, st) := expandNode n st in
        match r with
        | inl err => (inl err, st)
        | inr n =>
            let (rs, st) := children l st in
            (match rs with inl err => inl err | inr l => inr (n :: l) end, st)
        end
    end) in
  let wrap (k : list Node → Node) (r : (string + list Node) * St) :=
    (match fst r with inl err => inl err | inr l => inr (k l) end, snd r) in
  match n with
  | Scalar tag value =>
      if String.eqb tag "!!str" || String.eqb tag "" then
        let '(out, err, st) := Expand value st in
        (match err with Some err => inl err | None => inr (Scalar tag out) end, st)
      else (inr n, st)
  | Sequence l => wrap Sequence (children l st)
  | Mapping l => wrap Mapping (children l st)
  | Document l => wrap Document (children l st)
  | Alias => (inr Alias, st)
  end.

(** [LoadConfig]: [data] is what reading the file gave. *)
Definition LoadConfig (Unmarshal : string → string + Node) (Decode : Node → string + gmap string Workspace)
    (data : string + string) (st : St) : (string + gmap string Workspace) * St :=
  match data with
  | inl err => (inl ("failed to read config file: " +:+ err), st)
  | inr data =>
      match Unmarshal data with
      | inl err => (inl ("failed to parse config file: " +:+ err), st)
      | inr node =>
          let (r, st) := expandNode node st in
          (match r with
           | inl err => inl ("failed to expand variables: " +:+ err)
           | inr node =>
               match Decode node with
               | inl err => inl ("failed to decode config: " +:+ err)
               | inr cfg =>
                   match Config_Validate cfg with
                   | Some err => inl ("invalid config: " +:+ err)
                   | None => inr cfg
                   end
               end
           end, st)
      end
  end.
End expand.

(** [ExpandVar]: the environment, or a command's output. *)
Definition ExpandVar (Getenv : string → string) (sh : string → string + string) (ns value : string) : string + string :=
  if String.eqb ns "env" then inr (Getenv value)
  else if String.eqb ns "sh" then
    match sh value with inl err => inl err | inr out => inr (TrimSpace out) end
  else inl ("unknown namespace: " +:+ ns).

(** [CreateDefault]: an existing file is left alone. *)
Definition CreateDefault (defaultYAML : string) (m : Machine) (fault : SaveFault) : string + (string * bool) * Machine :=
  match Dir m with
  | inl err => inl err
  | inr dir =>
      let path := path_Join dir "workspaces.yaml" in
      match Disk_Files m !! path with
      | Some _ => inr (path, false, m)
      | None =>
          match fault with
          | NoFault => inr (path, true, write_file path defaultYAML m)
          | MkdirFailed err | WriteFailed _ err => inl err
          end
      end
  end.

(** ** What is found *)

Definition none_of (stop : ascii → bool) (s : string) : Prop := fst (span stop s) = s.

(** A reference that the pattern matches. *)
Definition proper_ref (ns v : string) : Prop :=
  ns ≠ "" ∧ v ≠ "" ∧ none_of colon_or_brace ns ∧ none_of brace v.

Definition piece_source (p : Piece) : string := match p with Lit c => String c "" | Ref ns v => ref_source ns v end.

Definition source_of (ps : list Piece) : string := foldr (λ p s, piece_source p +:+ s) "" ps.

Lemma span_spec stop s l r : span stop s = (l, r) → s = l +:+ r ∧ none_of stop l.
Proof.
  unfold none_of. revert l r. induction s as [|c s IH]; intros l r; cbn [span]; [by intros [= <- <-]|].
  destruct (stop c) eqn:Hc; [by intros [= <- <-]|]. destruct (span stop s) as [l1 r1].
  intros [= <- <-]. destruct (IH l1 r1 eq_refl) as [-> Hl]. split; [done|]. cbn [span]. rewrite Hc.
  destruct (span stop l1). simpl in *. by rewrite Hl.
Qed.

Lemma span_stopped stop l c r : none_of stop l → stop c = true → span stop (l +:+ String c r) = (l, String c r).
Proof.
  unfold none_of. induction l as [|d l IH]; [intros _ Hc; simpl; by rewrite Hc|].
  simpl. destruct (stop d) eqn:Hd; [discriminate|]. destruct (span stop l) as [l1 r1] eqn:E.
  simpl. intros [= Hl] Hc. simpl in IH. by rewrite (IH Hl Hc).
Qed.

Lemma match_ref_Some s ns v rest :
  match_ref s = Some (ns, v, rest) → s = ns +:+ ":" +:+ v +:+ "}" +:+ rest ∧ proper_ref ns v.
Proof.
  unfold match_ref. destruct (span colon_or_brace s) as [n r] eqn:Hn. apply span_spec in Hn as [-> Hn].
  destruct n as [|c n]; [done|]. destruct r as [|d r]; [done|].
  destruct (Ascii.eqb_spec d ":") as [->|Hd]; [|by destruct d as [[][][][][][][][]]].
  destruct (span brace r) as [v' r'] eqn:Hv. apply span_spec in Hv as [-> Hv].
  destruct v' as [|e v']; [done|]. destruct r' as [|f r']; [done|].
  destruct (Ascii.eqb_spec f "}") as [->|Hf]; [|by destruct f as [[][][][][][][][]]].
  intros [= <- <- <-]. split; [done|]. by split_and!.
Qed.

Lemma match_ref_proper ns v rest : proper_ref ns v → match_ref (ns +:+ ":" +:+ v +:+ "}" +:+ rest) = Some (ns, v, rest).
Proof.
  intros (Hns & Hv & Hn & Hb). unfold match_ref.
  change (":" +:+ v +:+ "}" +:+ rest) with (String ":" (v +:+ String "}" rest)).
  rewrite (span_stopped _ ns ":" _ Hn eq_refl). destruct ns as [|c ns]; [done|].
  rewrite (span_stopped _ v "}" _ Hb eq_refl). by destruct v.
Qed.

Lemma pieces_skip a b : pieces_from (String.length a) (a +:+ b) = pieces b.
Proof. induction a as [|c a IH]; [done|exact IH]. Qed.

Definition ref_body (ns v rest : string) : string := ns +:+ ":" +:+ v +:+ "}" +:+ rest.

Lemma str_app_cons c a b : String c a +:+ b = String c (a +:+ b).
Proof. reflexivity. Qed.

Lemma ref_source_app ns v rest : ref_source ns v +:+ rest = String "$" (String "{" (ref_body ns v rest)).
Proof.
  unfold ref_source, ref_body.
  change ("${" +:+ ns +:+ ":" +:+ v +:+ "}") with (String "$" (String "{" (ns +:+ String ":" (v +:+ "}")))).
  by rewrite !str_app_cons, str_app_assoc, str_app_cons, str_app_assoc.
Qed.

Lemma ref_body_skip ns v rest : pieces_from (String.length ns + String.length v + 3) (String "{" (ref_body ns v rest)) = pieces rest.
Proof.
  unfold ref_body. change (":" +:+ v +:+ "}" +:+ rest) with (String ":" (v +:+ String "}" rest)).
  rewrite <- (pieces_skip (String "{" (ns +:+ String ":" (v +:+ "}"))) rest). f_equal.
  - cbn [String.length]. rewrite length_str_app. cbn [String.length]. rewrite length_str_app. cbn [String.length]. lia.
  - by rewrite str_app_cons, str_app_assoc, str_app_cons, str_app_assoc.
Qed.

(** A text starts with a reference, or with a character that starts none. *)
Lemma pieces_cons c s :
  (∃ ns v rest, proper_ref ns v ∧ String c s = ref_source ns v +:+ rest ∧ pieces (String c s) = Ref ns v :: pieces rest) ∨
  (pieces (String c s) = Lit c :: pieces s ∧ ∀ ns v rest, proper_ref ns v → String c s ≠ ref_source ns v +:+ rest).
Proof.
  assert (Hlit : (∀ body, String c s ≠ String "$" (String "{" body)) → ∀ ns v rest, proper_ref ns v → String c s ≠ ref_source ns v +:+ rest).
  { intros H ns v rest _. rewrite ref_source_app. apply H. }
  destruct (Ascii.eqb_spec c "$") as [->|Hc]; cycle 1.
  { right. split; [by destruct c as [[][][][][][][][]]|]. apply Hlit. congruence. }
  destruct s as [|d body]; [right; split; [done|]; apply Hlit; congruence|].
  destruct (Ascii.eqb_spec d "{") as [->|Hd]; cycle 1.
  { right. split; [by destruct d as [[][][][][][][][]]|]. apply Hlit. congruence. }
  destruct (match_ref body) as [[[ns v] rest]|] eqn:Hm.
  - left. exists ns, v, rest. destruct (match_ref_Some _ _ _ _ Hm) as [-> Hp]. split; [done|].
    rewrite ref_source_app. split; [done|].
    transitivity (Ref ns v :: pieces_from (String.length ns + String.length v + 3) (String "{" (ref_body ns v rest))).
    + unfold pieces. cbn [pieces_from]. unfold ref_body at 1. by rewrite Hm.
    + by rewrite ref_body_skip.
  - right. split; [unfold pieces; cbn [pieces_from]; by rewrite Hm|].
    intros ns v rest Hp. rewrite ref_source_app. intros [= ->]. unfold ref_body in Hm.
    by rewrite (match_ref_proper _ _ _ Hp) in Hm.
Qed.

(** The pieces of a text, by its start. *)
Inductive cut_into : string → list Piece → Prop :=
| cut_end : cut_into "" []
| cut_ref ns v rest ps : proper_ref ns v → cut_into rest ps → cut_into (ref_source ns v +:+ rest) (Ref ns v :: ps)
| cut_lit c rest ps :
    (∀ ns v more, proper_ref ns v → String c rest ≠ ref_source ns v +:+ more) →
    cut_into rest ps → cut_into (String c rest) (Lit c :: ps).

Lemma pieces_cut s : cut_into s (pieces s).
Proof.
  remember (String.length s) as n eqn:Hn. revert s Hn. induction n as [n IH] using lt_wf_ind. intros s ->.
  destruct s as [|c s]; [constructor|].
  destruct (pieces_cons c s) as [(ns & v & rest & Hp & E & ->)|[-> Hno]].
  - rewrite E. constructor; [done|]. eapply IH; [|reflexivity]. rewrite E, length_str_app. unfold ref_source.
    change (String.length ("${" +:+ ns +:+ ":" +:+ v +:+ "}")) with (S (S (String.length (ns +:+ ":" +:+ v +:+ "}")))). lia.
  - constructor; [done|]. eapply IH; [|reflexivity]. simpl. lia.
Qed.

Lemma cut_source s ps : cut_into s ps → source_of ps = s.
Proof. induction 1 as [|ns v rest ps Hp _ IH|c rest ps _ _ IH]; [done|..]; simpl; by rewrite IH. Qed.

Lemma cut_proper s ps ns v : cut_into s ps → Ref ns v ∈ ps → proper_ref ns v.
Proof.
  induction 1 as [|n w rest ps Hp _ IH|c rest ps _ _ IH]; intros Hin; [by apply elem_of_nil in Hin|..];
    apply elem_of_cons in Hin as [E|Hin]; [by injection E as -> ->|by apply IH|discriminate E|by apply IH].
Qed.

(** Without a reference there is nothing that the pattern matches. *)
Lemma cut_no_ref s ps a ns v b : cut_into s ps → Forall (λ p, match p with Lit _ => True | Ref _ _ => False end) ps →
  proper_ref ns v → s ≠ a +:+ ref_source ns v +:+ b.
Proof.
  intros Hc. revert a. induction Hc as [|n w rest ps Hp _ IH|c rest ps Hno _ IH]; intros a Hl Hp'.
  - destruct a as [|d a]; [|by rewrite str_app_cons]. change ("" +:+ ref_source ns v +:+ b) with (ref_source ns v +:+ b). rewrite ref_source_app. discriminate.
  - by apply Forall_cons in Hl as [[] _].
  - apply Forall_cons in Hl as [_ Hl]. destruct a as [|d a]; [by apply Hno|].
    rewrite str_app_cons. intros [= -> E]. by apply (IH a).
Qed.

(** ** Expanding *)

(** The text when every reference is answered by [f]. *)
Definition answered (f : string → string → string) (p : Piece) : string :=
  match p with Lit c => String c "" | Ref ns v => f ns v end.

Lemma answered_source ps : foldr (λ p s, answered ref_source p +:+ s) "" ps = source_of ps.
Proof. by induction ps as [|[] ps IH]; simpl; rewrite ?IH. Qed.

Lemma expand_answered {St} (replace : string → string → St → (string + string) * St) f ps e st :
  (∀ ns v st, Ref ns v ∈ ps → replace ns v st = (inr (f ns v), st)) →
  expand_pieces replace ps e st = (foldr (λ p s, answered f p +:+ s) "" ps, e, st).
Proof.
  induction ps as [|[c|ns v] ps IH]; intros Hf; [done|..]; cbn [expand_pieces].
  - rewrite IH; [done|]. intros ns v st' Hin. apply Hf. by right.
  - rewrite (Hf ns v st) by left. rewrite IH; [done|]. intros n w st' Hin. apply Hf. by right.
Qed.

(** References are expanded once, and nothing else is.  A text is cut into
    characters and references, which put together again are the text; a reference
    is what the pattern matches, and where there is none the pattern matches
    nowhere.  When every reference has an answer the result is the text with each
    reference replaced by its answer and every other character as it was, so an
    answer is not read again; a text without references comes back as it is. *)
Theorem Expand_once {St} (replace : string → string → St → (string + string) * St) (f : string → string → string)
    (input : string) (st : St) :
  source_of (pieces input) = input ∧
  (∀ ns v, Ref ns v ∈ pieces input → proper_ref ns v) ∧
  ((∀ ns v st, proper_ref ns v → replace ns v st = (inr (f ns v), st)) →
   Expand replace input st = (foldr (λ p s, answered f p +:+ s) "" (pieces input), None, st)) ∧
  ((∀ ns v, Ref ns v ∉ pieces input) →
   Expand replace input st = (input, None, st) ∧ ∀ a ns v b, proper_ref ns v → input ≠ a +:+ ref_source ns v +:+ b).
Proof.
  pose proof (pieces_cut input) as Hc. split_and!.
  - by apply cut_source.
  - intros ns v. by apply (cut_proper _ _ _ _ Hc).
  - intros Hf. apply expand_answered. intros ns v st' Hin. apply Hf. by apply (cut_proper _ _ _ _ Hc).
  - intros Hno. assert (Hl : Forall (λ p, match p with Lit _ => True | Ref _ _ => False end) (pieces input)).
    { apply Forall_forall. intros [c|ns v] Hin; [done|]. by apply (Hno ns v). }
    split; [|intros a ns v b; by apply (cut_no_ref _ _ _ _ _ _ Hc)].
    unfold Expand. rewrite (expand_answered replace ref_source).
    + by rewrite answered_source, (cut_source _ _ Hc).
    + intros ns v st' Hin. by destruct (Hno ns v).
Qed.

(** What is loaded is valid, and comes from the tree with its references expanded. *)
Lemma LoadConfig_ok {St} (replace : string → string → St → (string + string) * St) Unmarshal Decode data st cfg st' :
  LoadConfig replace Unmarshal Decode data st = (inr cfg, st') →
  Config_Validate cfg = None ∧ ∃ text node node', data = inr text ∧ Unmarshal text = inr node ∧
    expandNode replace node st = (inr node', st') ∧ Decode node' = inr cfg.
Proof.
  unfold LoadConfig. destruct data as [|text]; [done|]. destruct (Unmarshal text) as [|node] eqn:Hu; [done|].
  destruct (expandNode replace node st) as [[|node'] st1] eqn:He; [done|].
  destruct (Decode node') as [|cfg'] eqn:Hd; [done|]. destruct (Config_Validate cfg') eqn:Hv; [done|].
  intros [= -> ->]. split; [done|]. by exists text, node, node'.
Qed.

(** ** The addresses of a shell session *)

Definition routePrefix : string := "/shell/".
Definition driverLeg : string := "driver".
Definition attachLeg : string := "attach".

Definition unreserved (c : ascii) : bool :=
  let n := nat_of_ascii c in
  ((48 <=? n) && (n <=? 57) || (65 <=? n) && (n <=? 90) || (97 <=? n) && (n <=? 122))%nat ||
  existsb (Ascii.eqb c) ["-"; "_"; "."; "~"]%char.

Definition hex_digit (n : nat) : ascii := ascii_of_nat (if (n <? 10)%nat then 48 + n else 55 + n).

(** [url.QueryEscape] and [url.QueryUnescape]. *)
Fixpoint QueryEscape (s : string) : string :=
  match s with
  | EmptyString => ""
  | String c rest =>
      if unreserved c then String c (QueryEscape rest)
      else if Ascii.eqb c " " then String "+" (QueryEscape rest)
      else let n := nat_of_ascii c in
           String "%" (String (hex_digit (n / 16)) (String (hex_digit (n mod 16)) (QueryEscape rest)))
  end.

Fixpoint QueryUnescape (s : string) : option string :=
  match s with
  | EmptyString => Some ""
  | String "%"%char (String a (String b rest)) =>
      match unhex a, unhex b with
      | Some x, Some y => String (ascii_of_nat (16 * x + y)) <$> QueryUnescape rest
      | _, _ => None
      end
  | String "%"%char _ => None
  | String "+"%char rest => String " " <$> QueryUnescape rest
  | String c rest => String c <$> QueryUnescape rest
  end.

Definition TrimPrefix (s p : string) : string := default s (CutPrefix s p).

Fixpoint TrimSlash (s : string) : string :=
  match s with
  | EmptyString => ""
  | String c EmptyString => if Ascii.eqb c "/" then "" else s
  | String c rest => String c (TrimSlash rest)
  end.

(** [legURL]. *)
Definition legURL (serverURL session leg : string) : string + string :=
  if String.eqb serverURL "" then inl "shell: empty server URL"
  else
    let serverURL := if HasPrefix serverURL "https://" then "wss://" +:+ TrimPrefix serverURL "https://"
                     else if HasPrefix serverURL "http://" then "ws://" +:+ TrimPrefix serverURL "http://"
                     else serverURL in
    inr (TrimSlash serverURL +:+ routePrefix +:+ leg +:+ "?session=" +:+ QueryEscape session).

Definition DriverURL (serverURL session : string) : string + string := legURL serverURL session driverLeg.
Definition AttachURL (serverURL session : string) : string + string := legURL serverURL session attachLeg.

(** A byte's escape is read back, whatever follows. *)
Lemma unescape_byte c rest : QueryUnescape (QueryEscape (String c "") +:+ rest) = String c <$> QueryUnescape rest.
Proof. destruct c as [[] [] [] [] [] [] [] []]; reflexivity. Qed.

Lemma QueryEscape_cons c s : QueryEscape (String c s) = QueryEscape (String c "") +:+ QueryEscape s.
Proof. simpl. by destruct (unreserved c), (Ascii.eqb c " "). Qed.

(** The server reads the session that the client wrote, whatever bytes it has. *)
Lemma session_roundtrip s : QueryUnescape (QueryEscape s) = Some s.
Proof. induction s as [|c s IH]; [done|]. by rewrite QueryEscape_cons, unescape_byte, IH. Qed.

Example leg_urls :
  AttachURL "https://gritz.dev/" "a b&c" = inr "wss://gritz.dev/shell/attach?session=a+b%26c" ∧
  DriverURL "http://localhost:6464" "x" = inr "ws://localhost:6464/shell/driver?session=x".
Proof. split; vm_compute; reflexivity. Qed.

(** *** An expansion, by evaluation *)

Definition sample_env (ns v : string) (asked : list string) : (string + string) * list string :=
  (ExpandVar (λ name, if String.eqb name "HOME" then "/root/${env:HOME}" else "") (λ _, inl "exit status 1") ns v, asked ++ [v]).

Lemma expansions :
  Expand sample_env "a ${env:HOME}/$x ${b" [] = ("a /root/${env:HOME}/$x ${b", None, ["HOME"]) ∧
  Expand sample_env "${sh:false}${x:1}" [] = ("${sh:false}${x:1}", Some "unknown namespace: x", ["false"; "1"]) ∧
  pieces "${a ${env:X}" = [Ref "a ${env" "X"].
Proof. repeat split; vm_compute; reflexivity. Qed.

Lemma Expand_once_witness :
  source_of (pieces "x${env:ab}y") = "x${env:ab}y" ∧
  Expand (λ ns v st, (inr (v +:+ v), st)) "x${env:ab}y" tt = ("xababy", None, tt) ∧
  Expand (λ ns v st, (inr (v +:+ v), st)) "$x {y}" tt = ("$x {y}", None, tt).
Proof.
  destruct (Expand_once (λ ns v st, (inr (v +:+ v), st)) (λ _ v, v +:+ v) "x${env:ab}y" tt) as (H1 & _ & H3 & _).
  split; [exact H1|]. split; [rewrite H3; [reflexivity|done]|].
  destruct (Expand_once (λ ns v st, (inr (v +:+ v), st)) (λ _ v, v +:+ v) "$x {y}" tt) as (_ & _ & _ & H4).
  apply H4. intros ns v Hin. vm_compute in Hin. repeat (apply elem_of_cons in Hin as [Hin|Hin]; [discriminate Hin|]).
  by apply elem_of_nil in Hin.
Defined.
