(* ===== verification/TaskState.v ===== *)
(** * The runner's task records and slots

    Models [internal/runner/taskstate/taskstate.go]: the directory of
    [<id>.json] files that maps a task to its sandbox's handle, and that it
    behaves as a finite map from task ids to records.  I/O faults are inputs;
    [encoding/json] on a record is a class.  With the runner's semaphore,
    [internal/x/safesem/semaphore.go]: a count against a capacity, whose
    release is floored at zero.  The counts are [int64]. *)

From S2P Require Import Prelude Links Strconv FileStore ScopeParse.
From Stdlib Require Import Ascii.

(** ** The semaphore *)

Record Semaphore := mkSem { sem_count : Z; sem_capacity : Z }.

Definition Sem_New (capacity : Z) : Semaphore := mkSem 0 capacity.

Definition TryAcquire (n : Z) (s : Semaphore) : bool * Semaphore :=
  if wrap64 (sem_count s + n) <=? sem_capacity s
  then (true, mkSem (wrap64 (sem_count s + n)) (sem_capacity s))
  else (false, s).

Definition Sem_Release (n : Z) (s : Semaphore) : Semaphore :=
  let count := wrap64 (sem_count s - n) in
  mkSem (if count <? 0 then 0 else count) (sem_capacity s).

Definition Sem_Set (n : Z) (s : Semaphore) : Semaphore := mkSem n (sem_capacity s).

(** Below the last [int64] the arithmetic is exact. *)
Definition sem_ok (s : Semaphore) : Prop :=
  0 ≤ sem_count s < int64_max ∧ 0 ≤ sem_capacity s < int64_max.

Lemma wrap64_small z : 0 ≤ z ≤ int64_max → wrap64 z = z.
Proof. unfold int64_max. intros H. apply wrap64_id. unfold is_int64, int64_min, int64_max. lia. Qed.

Lemma TryAcquire_spec s :
  sem_ok s →
  TryAcquire 1 s = if sem_count s <? sem_capacity s
                   then (true, mkSem (sem_count s + 1) (sem_capacity s)) else (false, s).
Proof.
  intros [Hc Hcap]. unfold TryAcquire. rewrite wrap64_small by lia.
  destruct (Z.leb_spec (sem_count s + 1) (sem_capacity s)),
    (Z.ltb_spec (sem_count s) (sem_capacity s)); done || lia.
Qed.

Lemma Release_spec s :
  sem_ok s → Sem_Release 1 s = mkSem (Z.max 0 (sem_count s - 1)) (sem_capacity s).
Proof.
  intros [Hc Hcap]. unfold Sem_Release. f_equal.
  destruct (decide (sem_count s = 0)) as [->|]; [done|].
  rewrite wrap64_small by lia. destruct (Z.ltb_spec (sem_count s - 1) 0); lia.
Qed.

Lemma TryAcquire_ok s b s' : sem_ok s → TryAcquire 1 s = (b, s') → sem_ok s'.
Proof.
  intros Hs. rewrite TryAcquire_spec by done. destruct Hs as [Hc Hcap].
  destruct (Z.ltb_spec (sem_count s) (sem_capacity s)); intros [= <- <-]; split; simpl; lia.
Qed.

Lemma Release_ok s : sem_ok s → sem_ok (Sem_Release 1 s).
Proof. intros Hs. rewrite Release_spec by done. destruct Hs. split; simpl; lia. Qed.

(** ** Records *)

Record TaskRecord := mkTaskRecord {
  TR_TaskID : Z; TR_Version : Z; TR_Type : string; TR_ID : string; TR_Data : string }.

#[export] Instance TaskRecord_eq_dec : EqDecision TaskRecord.
Proof. solve_decision. Defined.

Class TaskRecordJSON := {
  Marshal_TaskRecord : TaskRecord → option string;
  Unmarshal_TaskRecord : string → option TaskRecord }.

(** The values of the Go struct, with the opaque data in the form
    [json.Marshal] writes it. *)
Definition TaskRecord_ok (compact : string → Prop) (rec : TaskRecord) : Prop :=
  is_int64 (TR_TaskID rec) = true ∧ is_int64 (TR_Version rec) = true ∧ compact (TR_Data rec).

(** They survive the round trip. *)
Class TaskRecordJSONLaws `{TaskRecordJSON} (compact : string → Prop) :=
  TaskRecord_roundtrip rec : TaskRecord_ok compact rec →
    ∃ data, Marshal_TaskRecord rec = Some data ∧ Unmarshal_TaskRecord data = Some rec.

(** ** File names *)

(** The base name of [Store.path]. *)
Definition path (taskID : Z) : string := FormatInt taskID +:+ ".json".

Definition parseTaskName (name : string) : option Z :=
  base ← CutSuffix name ".json"; ParseInt base.

(** ** The store *)

(** The regular files of the directory. *)
Abbreviation Dir := (gmap string string).

Section taskstate.
Context {RJ : TaskRecordJSON}.

Definition TaskState_Write (io : option string) (rec : TaskRecord) (d : Dir) : option string * Dir :=
  match Marshal_TaskRecord rec with
  | None => (Some "taskstate: marshal record", d)
  | Some data =>
      match io with
      | Some err => (Some ("taskstate: write record " +:+ FormatInt (TR_TaskID rec) +:+ ": " +:+ err), d)
      | None => (None, <[path (TR_TaskID rec) := data]> d)
      end
  end.

Definition read (io : option string) (taskID : Z) (d : Dir) : string + option TaskRecord :=
  match io, d !! path taskID with
  | Some err, _ => inl ("taskstate: read record " +:+ FormatInt taskID +:+ ": " +:+ err)
  | None, None => inr None
  | None, Some data =>
      match Unmarshal_TaskRecord data with
      | None => inl ("taskstate: unmarshal record " +:+ FormatInt taskID)
      | Some rec => inr (Some rec)
      end
  end.

Definition TaskState_Read (io : option string) (taskID : Z) (d : Dir) : string + option TaskRecord :=
  read io taskID d.

Definition TaskState_Remove (io : option string) (taskID : Z) (d : Dir) : option string * Dir :=
  match io with
  | Some err => (Some ("taskstate: remove record " +:+ FormatInt taskID +:+ ": " +:+ err), d)
  | None => (None, delete (path taskID) d)
  end.

(** The loop of [List] over the entries; [io] is the fault of each read. *)
Fixpoint list_records (io : Z → option string) (names : list string) (d : Dir)
    : string + list TaskRecord :=
  match names with
  | [] => inr []
  | name :: names =>
      match parseTaskName name with
      | None => list_records io names d
      | Some taskID =>
          match read (io taskID) taskID d with
          | inl err => inl err
          | inr None => list_records io names d
          | inr (Some rec) =>
              match list_records io names d with
              | inl err => inl err
              | inr records => inr (rec :: records)
              end
          end
      end
  end.

Definition TaskState_List (dir_io : option string) (io : Z → option string) (d : Dir)
    : string + list TaskRecord :=
  match dir_io with
  | Some err => inl ("taskstate: read dir: " +:+ err)
  | None => list_records io (map fst (ReadDir d)) d
  end.
End taskstate.

(** ** File names parse back *)

Lemma parse_path id : is_int64 id = true → parseTaskName (path id) = Some id.
Proof.
  intros Hid. unfold parseTaskName, path. rewrite CutSuffix_app. cbn [mbind option_bind].
  by apply ParseInt_FormatInt.
Qed.

Lemma path_inj a b : path a = path b → a = b.
Proof.
  unfold path. intros H%(f_equal (λ s, CutSuffix s ".json")). rewrite !CutSuffix_app in H.
  by injection H as H%(inj FormatInt).
Qed.

Lemma path_suffix id : CutSuffix (path id) ".json" = Some (FormatInt id).
Proof. unfold path. by rewrite CutSuffix_app. Qed.

Lemma parseTaskName_int64 name id : parseTaskName name = Some id → is_int64 id = true.
Proof.
  unfold parseTaskName. destruct (CutSuffix name ".json") as [base|]; cbn [mbind option_bind]; [|done].
  unfold ParseInt. destruct (match base with String "-" s => _ | _ => _ end) as [neg digits].
  destruct (String.eqb digits ""); [done|]. destruct (parse_digits 0 digits) as [n|]; [|done].
  cbn [mbind option_bind]. destruct (is_int64 _) eqn:E; [|done]. by intros [= <-].
Qed.

#[local] Opaque path parseTaskName.

(** ** The store is a map *)

Section laws.
Context {RJ : TaskRecordJSON} (compact : string → Prop) {RL : TaskRecordJSONLaws compact}.

(** The directory holds the map: a file per task, under its one name. *)
Record ts_repr (d : Dir) (m : gmap Z TaskRecord) : Prop := {
  ts_in id rec : m !! id = Some rec → is_int64 id = true ∧ TR_TaskID rec = id ∧
    ∃ data, d !! path id = Some data ∧ Unmarshal_TaskRecord data = Some rec;
  ts_out id : m !! id = None → d !! path id = None;
  ts_names name id : is_Some (d !! name) → parseTaskName name = Some id → name = path id }.

Lemma read_repr d m id : ts_repr d m → read None id d = inr (m !! id).
Proof.
  intros Hr. unfold read. destruct (m !! id) as [rec|] eqn:E.
  - destruct (ts_in _ _ Hr _ _ E) as (_ & _ & data & -> & ->). done.
  - by rewrite (ts_out _ _ Hr _ E).
Qed.

Lemma Write_repr d m rec :
  ts_repr d m → TaskRecord_ok compact rec →
  ∃ d', TaskState_Write None rec d = (None, d') ∧ ts_repr d' (<[TR_TaskID rec := rec]> m).
Proof using RL.
  intros Hr Hok. destruct (TaskRecord_roundtrip rec Hok) as (data & Hm & Hu).
  destruct Hok as [Hid _].
  unfold TaskState_Write. rewrite Hm. eexists. split; [done|]. split.
  - intros id rec' [[<- <-]|[Hne Hin]]%lookup_insert_Some.
    + split; [done|]. split; [done|]. exists data. by rewrite lookup_insert_eq.
    + destruct (ts_in _ _ Hr _ _ Hin) as (Hi & Ht & data' & Hd & Hu'). split; [done|].
      split; [done|]. exists data'. rewrite lookup_insert_ne; [done|]. by intros ?%path_inj.
  - intros id [Hin Hne]%lookup_insert_None. rewrite lookup_insert_ne by (by intros ?%path_inj).
    by apply (ts_out _ _ Hr).
  - intros name id Hname Hp. destruct (decide (name = path (TR_TaskID rec))) as [->|Hne].
    + rewrite parse_path in Hp by done. congruence.
    + rewrite lookup_insert_ne in Hname by done. by apply (ts_names _ _ Hr).
Qed.

Lemma Remove_repr d m id :
  ts_repr d m → ts_repr (delete (path id) d) (delete id m).
Proof.
  intros Hr. split.
  - intros id' rec [Hne Hin]%lookup_delete_Some.
    destruct (ts_in _ _ Hr _ _ Hin) as (Hi & Ht & data' & Hd & Hu'). split; [done|].
    split; [done|]. exists data'. rewrite lookup_delete_ne; [done|]. by intros ?%path_inj.
  - intros id' [->|Hin]%lookup_delete_None; [by rewrite lookup_delete_eq|].
    apply lookup_delete_None. right. by apply (ts_out _ _ Hr).
  - intros name id' [data [_ Hd]%lookup_delete_Some]. by apply (ts_names _ _ Hr).
Qed.

Definition listed (m : gmap Z TaskRecord) (name : string) : option TaskRecord :=
  id ← parseTaskName name; m !! id.

Lemma list_records_repr d m names :
  ts_repr d m → list_records (λ _, None) names d = inr (omap (listed m) names).
Proof.
  intros Hr. induction names as [|name names IH]; [done|]. cbn [list_records omap list_omap].
  unfold listed at 1. destruct (parseTaskName name) as [id|]; cbn [mbind option_bind]; [|done].
  rewrite (read_repr _ m) by done. by destruct (m !! id); rewrite IH.
Qed.

Lemma listed_values d m :
  ts_repr d m → omap (listed m) (map fst (ReadDir d)) ≡ₚ map snd (map_to_list m).
Proof.
  intros Hr. assert (Hnames : NoDup (map fst (ReadDir d))).
  { unfold ReadDir. rewrite (merge_sort_Permutation name_le (map_to_list d)).
    apply NoDup_fst_map_to_list. }
  assert (Hin : ∀ name, name ∈ map fst (ReadDir d) ↔ is_Some (d !! name)).
  { intros name. rewrite list_elem_of_fmap. split.
    - intros ([n data] & -> & Hd%elem_of_ReadDir). by exists data.
    - intros [data Hd]. exists (name, data). by rewrite elem_of_ReadDir. }
  apply NoDup_Permutation.
  - assert (Hall : ∀ name, name ∈ map fst (ReadDir d) → is_Some (d !! name)) by apply Hin.
    clear Hin. induction Hnames as [|name names Hn _ IH]; [constructor|]. cbn [omap list_omap].
    assert (IHn : NoDup (omap (listed m) names)) by (apply IH; intros; apply Hall; by right).
    destruct (listed m name) as [rec|] eqn:E; [|done]. constructor; [|done].
    rewrite list_elem_of_omap. intros (name' & Hn' & E'). unfold listed in E, E'.
    destruct (parseTaskName name) as [id|] eqn:P; [|done].
    destruct (parseTaskName name') as [id'|] eqn:P'; [|done]. cbn [mbind option_bind] in E, E'.
    destruct (ts_in _ _ Hr _ _ E) as (_ & <- & _), (ts_in _ _ Hr _ _ E') as (_ & <- & _).
    apply (ts_names _ _ Hr) in P; [|apply Hall; by left].
    apply (ts_names _ _ Hr) in P'; [|apply Hall; by right]. congruence.
  - apply NoDup_fmap_2_strong; [|apply NoDup_map_to_list].
    intros [i r] [i' r'] H1%elem_of_map_to_list H2%elem_of_map_to_list. simpl. intros ->.
    destruct (ts_in _ _ Hr _ _ H1) as (_ & <- & _), (ts_in _ _ Hr _ _ H2) as (_ & <- & _). done.
  - intros rec. rewrite list_elem_of_omap, list_elem_of_fmap. split.
    + intros (name & _ & E). unfold listed in E. destruct (parseTaskName name) as [id|]; [|done].
      exists (id, rec). by rewrite elem_of_map_to_list.
    + intros ([id r] & -> & E%elem_of_map_to_list).
      destruct (ts_in _ _ Hr _ _ E) as (Hi & _ & data & Hd & _). exists (path id).
      split; [apply Hin; eauto|]. unfold listed. by rewrite parse_path.
Qed.

(** The record store is a map.  While its directory holds a map from task
    ids to records, reading looks the task up, a write that succeeds inserts
    the record and one that fails changes nothing, removing is idempotent
    deletion, and a listing is the map's records, each once, whatever stray
    files lie around. *)
Theorem taskstate_refines_map (d : Dir) (m : gmap Z TaskRecord) :
  ts_repr d m →
  (∀ id, TaskState_Read None id d = inr (m !! id)) ∧
  (∀ rec io, TaskRecord_ok compact rec →
     match TaskState_Write io rec d with
     | (None, d') => ts_repr d' (<[TR_TaskID rec := rec]> m)
     | (Some _, d') => io ≠ None ∧ d' = d
     end) ∧
  (∀ id io, match TaskState_Remove io id d with
            | (None, d') => ts_repr d' (delete id m)
            | (Some _, d') => io ≠ None ∧ d' = d
            end) ∧
  (∃ l, TaskState_List None (λ _, None) d = inr l ∧ l ≡ₚ map snd (map_to_list m)).
Proof using RL.
  intros Hr. split; [|split; [|split]].
  - intros id. by apply read_repr.
  - intros rec io Hok. destruct (Write_repr d m rec Hr Hok) as (d' & Hw & Hr').
    unfold TaskState_Write in *. destruct (Marshal_TaskRecord rec) as [data|]; [|done].
    destruct io as [err|]; [done|]. by injection Hw as <-.
  - intros id [err|]; [done|]. by apply Remove_repr.
  - eexists. split; [|by apply listed_values]. unfold TaskState_List. by apply list_records_repr.
Qed.

(** A directory without record files holds the empty map. *)
Lemma ts_repr_empty (d : Dir) :
  (∀ name id, is_Some (d !! name) → parseTaskName name ≠ Some id) →
  (∀ id, d !! path id = None) → ts_repr d ∅.
Proof.
  intros Hn Hp. split; [by intros id rec ?%lookup_empty_Some|done|].
  intros name id Hd H. exfalso. by eapply Hn.
Qed.
End laws.

(** ** A concrete codec *)

#[global] Instance sample_task_json : TaskRecordJSON := {|
  Marshal_TaskRecord rec := Some
    (sample_string (FormatInt (TR_TaskID rec)) +:+ (sample_string (FormatInt (TR_Version rec)) +:+
     (sample_string (TR_Type rec) +:+ (sample_string (TR_ID rec) +:+ sample_string (TR_Data rec)))));
  Unmarshal_TaskRecord s :=
    '(id, s) ← sample_unstring s; id ← ParseInt id;
    '(version, s) ← sample_unstring s; version ← ParseInt version;
    '(type, s) ← sample_unstring s; '(handle, s) ← sample_unstring s;
    '(data, _) ← sample_unstring s;
    Some (mkTaskRecord id version type handle data) |}.

#[global] Instance sample_task_laws : TaskRecordJSONLaws (λ _, True).
Proof.
  intros rec (Hid & Hv & _). eexists. split; [done|]. unfold Unmarshal_TaskRecord, sample_task_json.
  rewrite !sample_unstring_string. cbn [mbind option_bind].
  rewrite ParseInt_FormatInt by done. cbn [mbind option_bind].
  rewrite !sample_unstring_string. cbn [mbind option_bind].
  rewrite ParseInt_FormatInt by done. cbn [mbind option_bind].
  do 2 (rewrite !sample_unstring_string; cbn [mbind option_bind]).
  rewrite <- (str_app_nil_r (sample_string (TR_Data rec))), sample_unstring_string. by destruct rec.
Qed.

Definition sample_record : TaskRecord := mkTaskRecord 7 3 "docker" "c-7" "{}".

(** A directory with a stray file and one record, and the map it holds. *)
Definition sample_dir : Dir :=
  snd (TaskState_Write None sample_record {["notes.txt" := "ignore me"]}).

Lemma taskstate_refines_map_witness :
  TaskState_Read None 7 sample_dir = inr (Some sample_record) ∧
  TaskState_Read None 8 sample_dir = inr None ∧
  (∃ l, TaskState_List None (λ _, None) sample_dir = inr l ∧ l ≡ₚ [sample_record]).
Proof.
  assert (Hempty : ts_repr {["notes.txt" := "ignore me"]} ∅).
  { apply ts_repr_empty.
    - intros name id [data [<- _]%lookup_singleton_Some] H.
      assert (parseTaskName "notes.txt" = None) as E by (vm_compute; reflexivity). congruence.
    - intros id. apply lookup_singleton_None. intros H.
      apply (f_equal (λ s, CutSuffix s ".json")) in H.
      rewrite path_suffix in H. vm_compute in H. discriminate. }
  pose proof (taskstate_refines_map (λ _, True) _ _ Hempty) as (_ & Hw & _ & _).
  specialize (Hw sample_record None ltac:(repeat split; vm_compute; reflexivity)).
  pose proof (taskstate_refines_map (λ _, True) sample_dir {[7 := sample_record]} Hw)
    as (Hread & _ & _ & l & Hl & Hp).
  split; [apply Hread|]. split; [apply Hread|]. exists l. split; [done|].
  rewrite Hp. by rewrite map_to_list_singleton.
Defined.
