(* ===== verification/Runner.v ===== *)
(** * The runner's orchestration

    Models [internal/runner/runner.go] and the [Backend] interface of
    [internal/runner/backend/backend.go]: polling for commands, launching,
    supervising, killing, pruning and re-adopting sandboxes.  Every method is a
    program of effects on what its goroutines share: the semaphore, the record
    store, the event queue, the backend and the server. *)

From S2P Require Import Prelude AuthScope ScopeParse EventModel TaskModel.
From S2P Require Import Prog Workspace TaskState.

(** ** The backend's vocabulary *)

Record Handle := mkHandle { H_Type : string; H_ID : string; H_Data : string }.

#[export] Instance Handle_eq_dec : EqDecision Handle.
Proof. solve_decision. Defined.

Inductive SandboxState := StateUnknown | StateRunning | StateExited | StateGone.

#[export] Instance SandboxState_eq_dec : EqDecision SandboxState.
Proof. solve_decision. Defined.

Definition BinaryPath : string := "/usr/local/bin/gritz".

Record File := mkFile { F_Path : string; F_Data : string; F_Mode : Z; F_Dir : bool }.

Record Spec := mkSpec {
  Spec_TaskID : Z; Spec_Workspace : Workspace; Spec_Cmd : list string; Spec_Env : list string;
  Spec_Files : list File }.

Record Sandbox := mkSandbox { SB_TaskID : Z; SB_State : SandboxState }.

(** [backend.ErrGone] and every other error. *)
Inductive StartErr := ErrGone | StartErr_ (msg : string).

Definition StartErr_Error (e : StartErr) : string :=
  match e with ErrGone => "backend: sandbox is gone" | StartErr_ msg => msg end.

(** What the server answers to [GetTask]. *)
Inductive GetErr := GetNotFound | GetErr_ (msg : string).

(** ** Effects *)

(** The goroutines a method spawns. *)
Inductive Goroutine :=
| Supervise (taskID version : Z) (h : Handle)
| PollTask (task : Task).

Inductive Op : Set → Type :=
(* taskstate.Store *)
| OpRead (taskID : Z) : Op (string + option TaskRecord)
| OpWrite (rec : TaskRecord) : Op (option string)
| OpRemove (taskID : Z) : Op (option string)
| OpList : Op (string + list TaskRecord)
(* backend.Backend; [Wait] answers [None] when the runner shuts down *)
| OpProbe (h : Handle) : Op (string + SandboxState)
| OpLaunch (spec : Spec) (reuse : option Handle) : Op (StartErr + Handle)
| OpSignal (h : Handle) : Op (string + bool)
| OpDestroy (h : Handle) : Op (option string)
| OpWait (h : Handle) : Op (option Z)
(* gritzclient.Client *)
| OpListRunnerTasks (runner : string) : Op (string + list Task)
| OpGetTask (taskID : Z) : Op (GetErr + Task)
| OpCreateTaskToken (taskID : Z) (capabilities : list string) : Op (string + string)
| OpRegisterWorkspaces (runner : string) (workspaces : list (string * string)) : Op (option string)
(* safesem.Semaphore, wakeup.Chan, outbox.Outbox *)
| OpTryAcquire (n : Z) : Op bool
| OpRelease (n : Z) : Op unit
| OpSet (n : Z) : Op unit
| OpWake : Op unit
| OpEnqueue (ev : RunnerEvent) : Op (option string)
(* the root context, and [go] *)
| OpDie (err : string) : Op unit
| OpGo (g : Goroutine) : Op unit.

Abbreviation Program := (Prog Op).

(** ** [ValidateRunnerID] *)

Definition runner_id_char (c : Ascii.ascii) : bool :=
  let n := Ascii.nat_of_ascii c in
  (Nat.leb 97 n && Nat.leb n 122) || (Nat.leb 65 n && Nat.leb n 90) || (Nat.leb 48 n && Nat.leb n 57)
  || Nat.eqb n 95 || Nat.eqb n 46 || Nat.eqb n 45.

Fixpoint all_chars (p : Ascii.ascii → bool) (s : string) : bool :=
  match s with EmptyString => true | String c s => p c && all_chars p s end.

Definition ValidateRunnerID (id : string) : option string :=
  if negb (String.eqb id "") && all_chars runner_id_char id then None
  else Some ("invalid runner id: " +:+ quoted id).

(** [New]: the capacity of the semaphore. *)
Definition concurrency_of (concurrency : Z) : Z := if concurrency <=? 0 then int64_max else concurrency.

Section runner.
(** The runner's configuration, the backend's validation of a workspace and
    [json.MarshalIndent] on the agent config. *)
Context (runnerID serverURL : string) (workspaces : gmap string Workspace).
Context (ValidateWorkspace : Workspace → option string) (MarshalIndent : Config → string + string).

Definition RegisterWorkspaces : Program (option string) :=
  r ⟵ trigger (OpRegisterWorkspaces runnerID
                 (map (λ kv, (kv.1, WS_Description kv.2)) (map_to_list workspaces))) ;;
  Ret (match r with
       | None => None
       | Some err => Some ("failed to register workspaces: " +:+ err)
       end).

Definition die (err : string) : Program unit := trigger (OpDie ("durable store write failed: " +:+ err)).

(** [r.queue.Enqueue] and the [die] every failure of it leads to. *)
Definition report (ev : RunnerEvent) : Program unit :=
  r ⟵ trigger (OpEnqueue ev) ;;
  match r with
  | None => Ret tt
  | Some err => die ("persist " +:+ RE_Event ev +:+ " for task " +:+ FormatInt (RE_TaskID ev) +:+
                     ": " +:+ err)
  end.

Definition handle_of (rec : TaskRecord) : Handle := mkHandle (TR_Type rec) (TR_ID rec) (TR_Data rec).

Definition handle (taskID : Z) : Program (string + option Handle) :=
  r ⟵ trigger (OpRead taskID) ;;
  Ret (match r with
       | inl err => inl err
       | inr None => inr None
       | inr (Some rec) => inr (Some (handle_of rec))
       end).

Definition Running (taskID : Z) : Program (string + bool) :=
  r ⟵ handle taskID ;;
  match r with
  | inl err => Ret (inl err)
  | inr None => Ret (inr false)
  | inr (Some h) =>
      st ⟵ trigger (OpProbe h) ;;
      Ret (match st with inl err => inl err | inr st => inr (bool_decide (st = StateRunning)) end)
  end.

Fixpoint list_sandboxes (records : list TaskRecord) : Program (string + list Sandbox) :=
  match records with
  | [] => Ret (inr [])
  | rec :: records =>
      st ⟵ trigger (OpProbe (handle_of rec)) ;;
      match st with
      | inl err => Ret (inl ("failed to probe task " +:+ FormatInt (TR_TaskID rec) +:+ ": " +:+ err))
      | inr st =>
          r ⟵ list_sandboxes records ;;
          Ret (match r with
               | inl err => inl err
               | inr sandboxes => inr (mkSandbox (TR_TaskID rec) st :: sandboxes)
               end)
      end
  end.

Definition Runner_List : Program (string + list Sandbox) :=
  r ⟵ trigger OpList ;;
  match r with
  | inl err => Ret (inl ("failed to list records: " +:+ err))
  | inr records => list_sandboxes records
  end.

Definition Runner_Remove (taskID : Z) : Program (option string) :=
  r ⟵ handle taskID ;;
  match r with
  | inl err => Ret (Some err)
  | inr None => Ret None
  | inr (Some h) =>
      err ⟵ trigger (OpDestroy h) ;;
      match err with
      | Some err => Ret (Some err)
      | None => trigger (OpRemove taskID)
      end
  end.

Definition Kill (task : Task) : Program (string + bool) :=
  r ⟵ handle (Task_ID task) ;;
  match r with
  | inl err => Ret (inl err)
  | inr None => Ret (inr false)
  | inr (Some h) => trigger (OpSignal h)
  end.

(** ** The sandbox spec *)

(** [agent.DefaultConfigStore.Path] and [path.Dir] of it and of the log. *)
Definition configDir : string := "/tmp/gritz".
Definition configPath (taskID : Z) : string := configDir +:+ "/" +:+ FormatInt taskID +:+ ".json".
Definition logDir : string := "/gritz".

Definition mcp_args (task : Task) (token : string) (capabilities : list string) : list string :=
  ["tool"; "agent-mcp"; "--server"; serverURL; "--task"; FormatInt (Task_ID task);
   "--runner"; Task_Runner task; "--workspace"; Task_Workspace task; "--token"; token]
  ++ concat (map (λ c, ["--capability"; c]) capabilities).

Definition spec_env (task : Task) (token : string) (ws : Workspace) : list string :=
  ["GRITZ_TASK_ID=" +:+ FormatInt (Task_ID task); "GRITZ_TOKEN=" +:+ token;
   "GRITZ_SERVER=" +:+ serverURL] ++ secret_env ws.

Definition spec (task : Task) : Program (string + Spec) :=
  match Config_Get workspaces (Task_Workspace task) with
  | inl err => Ret (inl ("failed to get workspace: " +:+ err))
  | inr ws =>
      match ValidateWorkspace ws with
      | Some err => Ret (inl ("invalid workspace " +:+ quoted (Task_Workspace task) +:+ ": " +:+ err))
      | None =>
          r ⟵ trigger (OpCreateTaskToken (Task_ID task) (WS_Capabilities ws)) ;;
          Ret (match r with
               | inl err => inl ("failed to create task token: " +:+ err)
               | inr token =>
                   let mcp := mkMcpServer "stdio" "" ∅ BinaryPath
                                (mcp_args task token (WS_Capabilities ws)) ∅ in
                   match MarshalIndent (set_mcp_server "gritz" mcp (AgentConfig ws)) with
                   | inl err => inl ("failed to marshal config: " +:+ err)
                   | inr data =>
                       inr (mkSpec (Task_ID task) ws
                              [BinaryPath; "driver"; "--server"; serverURL;
                               "--task"; FormatInt (Task_ID task); "--token"; token]
                              (spec_env task token ws)
                              [mkFile configDir "" 511 true;
                               mkFile (configPath (Task_ID task)) data 438 false;
                               mkFile logDir "" 511 true])
                   end
               end)
      end
  end.

(** ** Starting and supervising *)

Definition gone (taskID : Z) : Program (option StartErr) :=
  _ ⟵ trigger (OpRemove taskID) ;; Ret (Some ErrGone).

(** From the prior handle, if any, to the supervised sandbox. *)
Definition launch (task : Task) (reuse : option Handle) : Program (option StartErr) :=
  r ⟵ spec task ;;
  match r with
  | inl err => Ret (Some (StartErr_ err))
  | inr spec =>
      r ⟵ trigger (OpLaunch spec reuse) ;;
      match r with
      | inl ErrGone => gone (Task_ID task)
      | inl (StartErr_ err) => Ret (Some (StartErr_ err))
      | inr h =>
          r ⟵ trigger (OpWrite (mkTaskRecord (Task_ID task) (Task_Version task)
                                  (H_Type h) (H_ID h) (H_Data h))) ;;
          match r with
          | Some err =>
              die ("record handle for task " +:+ FormatInt (Task_ID task) +:+ ": " +:+ err) ;;;
              Ret (Some (StartErr_ ("failed to record task handle: " +:+ err)))
          | None =>
              trigger (OpGo (Supervise (Task_ID task) (Task_Version task) h)) ;;; Ret None
          end
      end
  end.

Definition Runner_Start (task : Task) : Program (option StartErr) :=
  r ⟵ handle (Task_ID task) ;;
  match r with
  | inl err => Ret (Some (StartErr_ err))
  | inr None => launch task None
  | inr (Some h) =>
      st ⟵ trigger (OpProbe h) ;;
      match st with
      | inl err => Ret (Some (StartErr_ err))
      | inr StateRunning => Ret None
      | inr StateGone => gone (Task_ID task)
      | inr _ => launch task (Some h)
      end
  end.

Definition sandbox_failed (taskID version : Z) (reason : string) : RunnerEvent :=
  mkRunnerEvent taskID RunnerEventFailed version false reason.

Definition supervise (taskID version : Z) (h : Handle) : Program unit :=
  r ⟵ trigger (OpWait h) ;;
  match r with
  | None => Ret tt
  | Some code =>
      trigger (OpRelease 1) ;;;
      trigger OpWake ;;;
      (if code =? 0 then Ret tt
       else report (sandbox_failed taskID version
                      ("sandbox exited with status code " +:+ FormatInt code)))
  end.

(** ** Polling *)

(** [Start] under a semaphore slot, which a failure gives back. *)
Definition start_in_slot (task : Task) : Program unit :=
  acquired ⟵ trigger (OpTryAcquire 1) ;;
  if negb acquired then Ret tt
  else
    err ⟵ Runner_Start task ;;
    match err with
    | None => Ret tt
    | Some err =>
        trigger (OpRelease 1) ;;;
        report (sandbox_failed (Task_ID task) (Task_Version task) (StartErr_Error err))
    end.

Definition poll_stop (task : Task) : Program unit :=
  r ⟵ Kill task ;;
  match r with
  | inl _ | inr true => Ret tt
  | inr false => report (mkRunnerEvent (Task_ID task) RunnerEventStopped (Task_Version task) false "")
  end.

Definition poll_restart (task : Task) : Program unit :=
  r ⟵ trigger (OpRead (Task_ID task)) ;;
  match r with
  | inl _ => Ret tt
  | inr rec =>
      if match rec with Some rec => TR_Version rec =? Task_Version task | None => false end
      then Ret tt
      else (_ ⟵ Kill task ;; start_in_slot task)
  end.

Definition poll_start (task : Task) : Program unit :=
  if decide (Task_Status task = TaskStatusRunning) then Ret tt
  else
    r ⟵ Running (Task_ID task) ;;
    match r with
    | inl _ | inr true => Ret tt
    | inr false => start_in_slot task
    end.

Definition poll_task (task : Task) : Program unit :=
  match Task_Command task with
  | TaskCommandStop => poll_stop task
  | TaskCommandRestart => poll_restart task
  | TaskCommandStart => poll_start task
  | _ => Ret tt
  end.

Definition has_goroutine (task : Task) : bool :=
  match Task_Command task with
  | TaskCommandStop | TaskCommandRestart | TaskCommandStart => true
  | _ => false
  end.

(** One goroutine per commanded task, and the wait for them, which is the pool's
    (below). *)
Definition Poll : Program (option string) :=
  r ⟵ trigger (OpListRunnerTasks runnerID) ;;
  match r with
  | inl err => Ret (Some err)
  | inr tasks =>
      prog_each tasks (λ task, if has_goroutine task then trigger (OpGo (PollTask task)) else Ret tt) ;;;
      Ret None
  end.

(** ** Booting and pruning *)

Definition failIfTaskRunning (taskID version : Z) : Program unit :=
  r ⟵ trigger (OpGetTask taskID) ;;
  match r with
  | inl _ => Ret tt
  | inr task =>
      if negb (bool_decide (Task_Status task = TaskStatusRunning)) then Ret tt
      else report (sandbox_failed taskID version "sandbox exited")
  end.

(** The loop of [Load]; [running] is its counter. *)
Fixpoint load_records (running : Z) (recs : list TaskRecord) : Program Z :=
  match recs with
  | [] => Ret running
  | rec :: recs =>
      st ⟵ trigger (OpProbe (handle_of rec)) ;;
      match st with
      | inl _ | inr StateUnknown => load_records running recs
      | inr StateRunning =>
          trigger (OpGo (Supervise (TR_TaskID rec) (TR_Version rec) (handle_of rec))) ;;;
          load_records (wrap64 (running + 1)) recs
      | inr StateExited =>
          failIfTaskRunning (TR_TaskID rec) (TR_Version rec) ;;; load_records running recs
      | inr StateGone =>
          failIfTaskRunning (TR_TaskID rec) (TR_Version rec) ;;;
          trigger (OpRemove (TR_TaskID rec)) ;;; load_records running recs
      end
  end.

Definition Load : Program (option string) :=
  r ⟵ trigger OpList ;;
  match r with
  | inl err => Ret (Some ("failed to list records: " +:+ err))
  | inr recs => running ⟵ load_records 0 recs ;; trigger (OpSet running) ;;; Ret None
  end.

Definition prune_sandbox (sb : Sandbox) : Program unit :=
  if bool_decide (SB_State sb = StateRunning) then Ret tt
  else
    r ⟵ trigger (OpGetTask (SB_TaskID sb)) ;;
    match r with
    | inl (GetErr_ _) => Ret tt
    | inl GetNotFound => _ ⟵ Runner_Remove (SB_TaskID sb) ;; Ret tt
    | inr task => if Task_Archived task then (_ ⟵ Runner_Remove (SB_TaskID sb) ;; Ret tt) else Ret tt
    end.

Definition Prune : Program (option string) :=
  r ⟵ Runner_List ;;
  match r with
  | inl err => Ret (Some ("failed to list sandboxes: " +:+ err))
  | inr sandboxes => prog_each sandboxes prune_sandbox ;;; Ret None
  end.

Definition body (g : Goroutine) : Program unit :=
  match g with
  | Supervise taskID version h => supervise taskID version h
  | PollTask task => poll_task task
  end.

(** ** What the goroutines share *)

Record Shared := mkShared {
  sh_sem : Semaphore; sh_store : gmap Z TaskRecord; sh_queue : list RunnerEvent;
  sh_wake : bool; sh_fatal : option string }.

Definition set_sem v s := mkShared v (sh_store s) (sh_queue s) (sh_wake s) (sh_fatal s).
Definition set_records v s := mkShared (sh_sem s) v (sh_queue s) (sh_wake s) (sh_fatal s).
Definition set_queue v s := mkShared (sh_sem s) (sh_store s) v (sh_wake s) (sh_fatal s).
Definition set_wake v s := mkShared (sh_sem s) (sh_store s) (sh_queue s) v (sh_fatal s).
Definition set_fatal v s := mkShared (sh_sem s) (sh_store s) (sh_queue s) (sh_wake s) v.

(** An answer to each effect and what it leaves.  The backend and the server may
    answer anything; durable writes happen or fail without a trace. *)
Definition op_step {R : Set} (op : Op R) (s : Shared) : R → Shared → Prop :=
  match op in Op R return R → Shared → Prop with
  | OpRead id => λ r s', s' = s ∧ (r = inr (sh_store s !! id) ∨ ∃ err, r = inl err)
  | OpWrite rec => λ r s',
      (r = None ∧ s' = set_records (<[TR_TaskID rec := rec]> (sh_store s)) s) ∨
      (∃ err, r = Some err ∧ s' = s)
  | OpRemove id => λ r s',
      (r = None ∧ s' = set_records (delete id (sh_store s)) s) ∨ (∃ err, r = Some err ∧ s' = s)
  | OpList => λ r s', s' = s ∧
      ((∃ l, r = inr l ∧ l ≡ₚ map snd (map_to_list (sh_store s))) ∨ ∃ err, r = inl err)
  | OpTryAcquire n => λ r s', (r, s') = let (b, sem) := TryAcquire n (sh_sem s) in (b, set_sem sem s)
  | OpRelease n => λ _ s', s' = set_sem (Sem_Release n (sh_sem s)) s
  | OpSet n => λ _ s', s' = set_sem (Sem_Set n (sh_sem s)) s
  | OpWake => λ _ s', s' = set_wake true s
  | OpEnqueue ev => λ r s',
      (r = None ∧ s' = set_queue (sh_queue s ++ [ev]) s) ∨ (∃ err, r = Some err ∧ s' = s)
  | OpDie err => λ _ s', s' = set_fatal (Some (default err (sh_fatal s))) s
  | _ => λ _ s', s' = s
  end.
End runner.
