(* ===== verification/RunnerPool.v ===== *)
(** * The runner's goroutines

    The process of [internal/command/runner.go]: [Load] once, then polls and
    prunes, each spawning the goroutines of [internal/runner/runner.go], in
    every interleaving of their effects.  A slot of the semaphore is a resource:
    the program logic of [Prog] types each goroutine by the slots it holds, and
    so bounds the sandboxes supervised at any time. *)

From S2P Require Import Prelude AuthScope EventModel TaskModel.
From S2P Require Import Prog Workspace TaskState Runner.

(** ** The pool *)

Inductive Kind := KLoad | KPoll | KPrune | KWorker | KSupervisor.

#[export] Instance Kind_eq_dec : EqDecision Kind.
Proof. solve_decision. Defined.

Definition kind_of (g : Goroutine) : Kind :=
  match g with Supervise _ _ _ => KSupervisor | PollTask _ => KWorker end.

Definition Thread : Type := Kind * Program (option string).

Definition spawns {R : Set} (op : Op R) : bool := match op with OpGo _ => true | _ => false end.

Definition finished (t : Thread) : bool := match t.2 with Ret _ => true | Do _ _ => false end.

Definition active (kinds : list Kind) (ts : list Thread) : nat :=
  length (filter (λ t, finished t = false ∧ t.1 ∈ kinds) ts).

(** [p_serving]: the main goroutine has passed [Load]. *)
Record Pool := mkPool { p_shared : Shared; p_serving : bool; p_threads : list Thread }.

Section pool.
Context (runnerID serverURL : string) (workspaces : gmap string Workspace).
Context (ValidateWorkspace : Workspace → option string) (MarshalIndent : Config → string + string).
(** [errgroup.SetLimit]. *)
Context (limit : nat).

#[local] Abbreviation body := (body serverURL workspaces ValidateWorkspace MarshalIndent).

Definition thread_of (g : Goroutine) : Thread := (kind_of g, body g ;;; Ret None).

(** A step of one goroutine, or of the process: the main loop polls again once
    the last poll and its goroutines are done; the pruner runs beside it. *)
Inductive pool_step : Pool → Pool → Prop :=
| ps_op i kd {R : Set} (op : Op R) k r s s' serving ts :
    ts !! i = Some (kd, Do op k) → spawns op = false →
    op_step op s r s' →
    pool_step (mkPool s serving ts) (mkPool s' serving (<[i := (kd, k r)]> ts))
| ps_go i kd g k s serving ts :
    ts !! i = Some (kd, Do (OpGo g) k) →
    (kind_of g = KWorker → (active [KWorker] ts < limit)%nat) →
    pool_step (mkPool s serving ts) (mkPool s serving (<[i := (kd, k tt)]> ts ++ [thread_of g]))
| ps_loaded s ts :
    ts !! 0%nat = Some (KLoad, Ret None) → pool_step (mkPool s false ts) (mkPool s true ts)
| ps_poll s ts :
    active [KPoll; KWorker] ts = 0%nat →
    pool_step (mkPool s true ts) (mkPool s true (ts ++ [(KPoll, Poll runnerID)]))
| ps_prune s ts :
    active [KPrune] ts = 0%nat →
    pool_step (mkPool s true ts) (mkPool s true (ts ++ [(KPrune, Prune)])).

(** A process that starts over the records of an earlier one. *)
Definition boot (concurrency : Z) (store : gmap Z TaskRecord) (queue : list RunnerEvent) : Pool :=
  mkPool (mkShared (Sem_New (concurrency_of concurrency)) store queue false None) false
    [(KLoad, Load)].

(** The goroutines blocked in the backend's [Wait]: the sandboxes this process
    supervises. *)
Definition supervising (t : Thread) : bool :=
  match t.2 with Do (OpWait _) _ => true | _ => false end.

Definition supervised (p : Pool) : nat := length (filter (λ t, supervising t = true) (p_threads p)).

(** ** Slots as a resource

    [slots] transforms postconditions over the number of slots a goroutine
    holds; spawning a supervisor hands one over.  [acq] is whether it may
    acquire any, write records and spawn workers. *)
Definition slots (acq : bool) {R : Set} (op : Op R) : (R → nat → Prop) → nat → Prop :=
  match op in Op R return (R → nat → Prop) → nat → Prop with
  | OpTryAcquire n => λ Φ g, acq = true ∧ n = 1 ∧ Φ true (S g) ∧ Φ false g
  | OpRelease n => λ Φ g, n = 1 ∧ match g with S g => Φ tt g | O => False end
  | OpWait _ => λ Φ g, (0 < g)%nat ∧ ∀ r, Φ r g
  | OpSet _ => λ _ _, False
  | OpWrite _ => λ Φ g, acq = true ∧ ∀ r, Φ r g
  | OpGo (Supervise _ _ _) => λ Φ g, match g with S g => Φ tt g | O => False end
  | OpGo (PollTask _) => λ Φ g, acq = true ∧ Φ tt g
  | _ => λ Φ g, ∀ r, Φ r g
  end.

Definition any {A} : A → nat → Prop := λ _ _, True.

(** The slots [n] a program starts with are enough for it. *)
Definition needs (acq : bool) (n : nat) {A} (p : Program A) : Prop := wp (@slots acq) p any n.

Lemma slots_mono acq R (op : Op R) (Φ Ψ : R → nat → Prop) g :
  (∀ r g', Φ r g' → Ψ r g') → slots acq op Φ g → slots acq op Ψ g.
Proof. intros H. destruct op as [| | | | | | | | | | | | | | | | | | |[]]; simpl; naive_solver (by destruct g; eauto). Qed.
#[local] Hint Resolve slots_mono : core.

(** A program that touches no slot keeps what it holds. *)
Ltac slots_bind := eapply prog_wp_bind; [exact (slots_mono _)|].
Ltac slots_step :=
  first [ progress intros
        | split
        | progress (cbn [wp trigger prog_bind slots])
        | case_match
        | slots_bind ].

Lemma die_slots acq err (Φ : unit → nat → Prop) g : Φ tt g → wp (@slots acq) (die err) Φ g.
Proof. intros H []. exact H. Qed.

Lemma report_slots acq ev (Φ : unit → nat → Prop) g : Φ tt g → wp (@slots acq) (report ev) Φ g.
Proof. intros H. unfold report. slots_bind. intros [err|]; [by apply die_slots|done]. Qed.

Lemma handle_slots acq id (Φ : string + option Handle → nat → Prop) g :
  (∀ r, Φ r g) → wp (@slots acq) (handle id) Φ g.
Proof. intros H. unfold handle. slots_bind. intros r. apply H. Qed.

Lemma Kill_slots acq task (Φ : string + bool → nat → Prop) g :
  (∀ r, Φ r g) → wp (@slots acq) (Kill task) Φ g.
Proof.
  intros H. unfold Kill. slots_bind. apply handle_slots. intros [err|[h|]]; [apply H| |apply H].
  intros r. apply H.
Qed.

Lemma Running_slots acq id (Φ : string + bool → nat → Prop) g :
  (∀ r, Φ r g) → wp (@slots acq) (Running id) Φ g.
Proof.
  intros H. unfold Running. slots_bind. apply handle_slots. intros [err|[h|]]; [apply H| |apply H].
  slots_bind. intros r. apply H.
Qed.

Lemma Remove_slots acq id (Φ : option string → nat → Prop) g :
  (∀ r, Φ r g) → wp (@slots acq) (Runner_Remove id) Φ g.
Proof.
  intros H. unfold Runner_Remove. slots_bind. apply handle_slots.
  intros [err|[h|]]; [apply H| |apply H]. slots_bind. intros [err|]; [apply H|]. intros r. apply H.
Qed.

#[local] Abbreviation spec :=
  (spec serverURL workspaces ValidateWorkspace MarshalIndent).
#[local] Abbreviation Runner_Start :=
  (Runner_Start serverURL workspaces ValidateWorkspace MarshalIndent).

Lemma spec_slots acq task (Φ : string + Spec → nat → Prop) g :
  (∀ r, Φ r g) → wp (@slots acq) (spec task) Φ g.
Proof.
  intros H. unfold spec. destruct (Config_Get workspaces (Task_Workspace task)) as [err|ws]; [apply H|].
  destruct (ValidateWorkspace ws); [apply H|]. slots_bind. intros r. apply H.
Qed.

(** [Start] keeps the slot when it fails; otherwise it hands it to a supervisor
    or, if the sandbox is already up, is left with it. *)
Definition started_with (g : nat) (r : option StartErr) (g' : nat) : Prop :=
  match r with Some _ => g' = S g | None => g' = g ∨ g' = S g end.

Lemma launch_slots task reuse g :
  wp (@slots true) (launch serverURL workspaces ValidateWorkspace MarshalIndent task reuse)
    (started_with g) (S g).
Proof.
  unfold launch. slots_bind. apply spec_slots. intros [err|spec]; [done|]. slots_bind.
  intros [[|err]|h]; [by intros []|done|]. slots_bind. split; [done|]. intros [err|]; [by intros []|]. by left.
Qed.

Lemma Start_slots task g : wp (@slots true) (Runner_Start task) (started_with g) (S g).
Proof.
  unfold Runner_Start. slots_bind. apply handle_slots. intros [err|[h|]]; [done| |apply launch_slots].
  slots_bind. intros [err|[]]; [done|apply launch_slots|by right|apply launch_slots|by intros []].
Qed.

Lemma start_in_slot_slots task :
  needs true 0 (start_in_slot serverURL workspaces ValidateWorkspace MarshalIndent task).
Proof.
  unfold needs, start_in_slot. slots_bind. split; [done|]. split; [done|]. split; [|done]. simpl negb. cbv iota.
  slots_bind. eapply prog_wp_mono; [exact (slots_mono _)| |apply Start_slots].
  intros [err|] g'; [intros ->|done]. slots_bind. split; [done|]. by apply report_slots.
Qed.

Lemma poll_task_slots task :
  needs true 0 (poll_task serverURL workspaces ValidateWorkspace MarshalIndent task).
Proof.
  unfold needs, poll_task. destruct (Task_Command task); try done.
  - unfold poll_restart. slots_bind. intros [err|rec]; [done|]. cbn [wp]. cbv beta iota.
    lazymatch goal with |- wp _ (if ?b then _ else _) _ _ => destruct b end; [done|]. slots_bind. apply Kill_slots. intros _. apply start_in_slot_slots.
  - unfold poll_stop. slots_bind. apply Kill_slots. intros [err|[]]; [done..|]. by apply report_slots.
  - unfold poll_start. case_decide; [done|]. slots_bind. apply Running_slots.
    intros [err|[]]; [done..|]. apply start_in_slot_slots.
Qed.

Lemma supervise_slots acq id version h : needs acq 1 (supervise id version h).
Proof.
  unfold needs, supervise. slots_bind. split; [lia|]. intros [code|]; [|done].
  split; [done|]. intros []. destruct (code =? 0); [done|]. by apply report_slots.
Qed.

Lemma Poll_slots : needs true 0 (Poll runnerID).
Proof.
  unfold needs, Poll. slots_bind. intros [err|tasks]; [done|]. slots_bind.
  eapply prog_wp_mono; [exact (slots_mono _)| |apply (wp_each _ (slots_mono _) _ _ (λ _, True)); [|done]]; [done|].
  intros task g _ _. by destruct (has_goroutine task); [split|].
Qed.

Lemma Prune_slots : needs true 0 Prune.
Proof.
  unfold needs, Prune. slots_bind.
  assert (Hl : ∀ recs (Φ : string + list Sandbox → nat → Prop) g,
    (∀ r, Φ r g) → wp (@slots true) (list_sandboxes recs) Φ g).
  { induction recs as [|rec recs IH]; intros Φ g H; [apply H|]. cbn [list_sandboxes]. slots_bind.
    intros [err|st]; [apply H|]. slots_bind. apply IH. intros r. apply H. }
  unfold Runner_List. slots_bind. intros [err|recs]; [done|]. apply Hl. intros [err|sbs]; [done|].
  slots_bind. eapply prog_wp_mono; [exact (slots_mono _)| |apply (wp_each _ (slots_mono _) _ _ (λ _, True)); [|done]];
    [done|].
  intros sb g _ _. unfold prune_sandbox. case_bool_decide; [done|]. slots_bind.
  intros [[|err]|task]; cbn [wp]; [|done|destruct (Task_Archived task); [|done]];
    (slots_bind; by apply Remove_slots).
Qed.

(** What a spawned goroutine starts with. *)
Definition handed (g : Goroutine) : nat := match g with Supervise _ _ _ => 1 | PollTask _ => 0 end.

Lemma thread_of_slots acq g : (kind_of g = KWorker → acq = true) → needs acq (handed g) (thread_of g).2.
Proof.
  intros Hacq.
  unfold needs, thread_of. slots_bind. eapply prog_wp_mono; [exact (slots_mono _)|done|].
  destruct g as [id version h|task]; [apply supervise_slots|].
  rewrite Hacq by done. apply poll_task_slots.
Qed.
(** ** Booting

    [Load] counts the supervisors it spawns and seeds the semaphore with the
    count: [g] is how many, and whether the seeding is done.  [B] bounds the
    records it lists. *)
Definition seeding (B : nat) {R : Set} (op : Op R) : (R → nat * bool → Prop) → nat * bool → Prop :=
  match op in Op R return (R → nat * bool → Prop) → nat * bool → Prop with
  | OpTryAcquire _ | OpRelease _ | OpWait _ | OpGo (PollTask _) | OpWrite _ => λ _ _, False
  | OpList => λ Φ g, g.2 = false ∧
      ∀ r, match r with inr l => (length l ≤ B)%nat | inl _ => True end → Φ r g
  | OpGo (Supervise _ _ _) => λ Φ g, g.2 = false ∧ (S g.1 ≤ B)%nat ∧ Φ tt (S g.1, false)
  | OpSet n => λ Φ g, g.2 = false ∧ n = Z.of_nat g.1 ∧ (g.1 ≤ B)%nat ∧ Φ tt (g.1, true)
  | _ => λ Φ g, g.2 = false ∧ ∀ r, Φ r g
  end.

Lemma seeding_mono B R (op : Op R) (Φ Ψ : R → nat * bool → Prop) g :
  (∀ r g', Φ r g' → Ψ r g') → seeding B op Φ g → seeding B op Ψ g.
Proof. intros H. destruct op as [| | | | | | | | | | | | | | | | | | |[]]; simpl; naive_solver. Qed.

(** [Load] returns without an error only once it has seeded. *)
Definition seeded (r : option string) (g : nat * bool) : Prop := r = None → g.2 = true.

Ltac seeding_bind := eapply prog_wp_bind; [exact (seeding_mono _)|].

Lemma failIfTaskRunning_seeding B id version (Φ : unit → nat * bool → Prop) n :
  Φ tt (n, false) → wp (@seeding B) (failIfTaskRunning id version) Φ (n, false).
Proof.
  intros H. unfold failIfTaskRunning. seeding_bind. split; [done|]. intros [err|task]; [done|].
  cbn [wp]. destruct (negb _); [done|]. unfold report. seeding_bind. split; [done|].
  intros [err|]; [|done]. split; [done|]. by intros [].
Qed.

Lemma load_records_seeding B recs n (Φ : Z → nat * bool → Prop) :
  Z.of_nat B < int64_max → (n + length recs ≤ B)%nat →
  (∀ m, (m ≤ B)%nat → Φ (Z.of_nat m) (m, false)) →
  wp (@seeding B) (load_records (Z.of_nat n) recs) Φ (n, false).
Proof.
  intros HB. revert n. induction recs as [|rec recs IH]; intros n Hn H; simpl in Hn.
  { apply H. lia. }
  cbn [load_records]. seeding_bind. split; [done|].
  intros [err|[]]; cbn [wp]; try (apply IH; [lia|done]).
  - split; [done|]. split; [simpl; lia|]. cbn [prog_bind].
    replace (wrap64 (Z.of_nat n + 1)) with (Z.of_nat (S n)) by (rewrite wrap64_small; lia).
    apply IH; [simpl; lia|done].
  - seeding_bind. apply failIfTaskRunning_seeding. apply IH; [lia|done].
  - seeding_bind. apply failIfTaskRunning_seeding. seeding_bind. split; [done|]. intros ?.
    apply IH; [lia|done].
Qed.

Lemma Load_seeding B :
  Z.of_nat B < int64_max → wp (@seeding B) Load seeded (0%nat, false).
Proof.
  intros HB. unfold Load. seeding_bind. split; [done|]. intros [err|recs] Hl; [done|]. cbn [wp].
  seeding_bind. apply (load_records_seeding B recs 0 _ HB); [lia|]. intros m Hm.
  split; [done|]. split; [done|]. split; [done|]. done.
Qed.

(** ** The invariant *)

Lemma needs_acq acq n {A} (p : Program A) : needs false n p → needs acq n p.
Proof.
  apply wp_stronger; [apply slots_mono|]. intros R op Φ g.
  destruct op as [| | | | | | | | | | | | | | | | | | |[]]; simpl; try done; by intros [? _].
Qed.

(** Every other effect leaves the semaphore alone. *)
Definition on_sem {R : Set} (op : Op R) : bool :=
  match op with OpTryAcquire _ | OpRelease _ | OpSet _ => true | _ => false end.

Lemma op_step_sem {R : Set} (op : Op R) s r s' :
  op_step op s r s' → on_sem op = false → sh_sem s' = sh_sem s.
Proof. destruct op; simpl; intros H Hs; try discriminate Hs; clear Hs; naive_solver. Qed.

(** Only a write adds a record. *)
Definition writes {R : Set} (op : Op R) : bool := match op with OpWrite _ => true | _ => false end.

Lemma op_step_size {R : Set} (op : Op R) s r s' :
  op_step op s r s' → writes op = false → (size (sh_store s') ≤ size (sh_store s))%nat.
Proof.
  intros H Hw. assert (sh_store s' = sh_store s ∨ ∃ i, sh_store s' = delete i (sh_store s)) as [->|[i ->]].
  - destruct op; simpl in H; try discriminate Hw; clear Hw;
      try (destruct (TryAcquire _ _)); naive_solver.
  - done.
  - rewrite map_size_delete. destruct (sh_store s !! i); simpl; lia.
Qed.

(** Slots held against slots taken, over a step. *)
Lemma slots_op_step acq n {R : Set} {A} (op : Op R) (k : R → Program A) s r s' :
  needs acq n (Do op k) → spawns op = false → op_step op s r s' → sem_ok (sh_sem s) →
  sem_ok (sh_sem s') ∧ sem_capacity (sh_sem s') = sem_capacity (sh_sem s) ∧
  sem_count (sh_sem s') ≤ Z.max (sem_count (sh_sem s)) (sem_capacity (sh_sem s)) ∧
  ∃ n', needs acq n' (k r) ∧ (acq = false → (n' ≤ n)%nat) ∧
    sem_count (sh_sem s) - Z.of_nat n ≤ sem_count (sh_sem s') - Z.of_nat n'.
Proof.
  assert (Hsame : sh_sem s' = sh_sem s → needs acq n (k r) → sem_ok (sh_sem s) →
    sem_ok (sh_sem s') ∧ sem_capacity (sh_sem s') = sem_capacity (sh_sem s) ∧
    sem_count (sh_sem s') ≤ Z.max (sem_count (sh_sem s)) (sem_capacity (sh_sem s)) ∧
    ∃ n', needs acq n' (k r) ∧ (acq = false → (n' ≤ n)%nat) ∧
      sem_count (sh_sem s) - Z.of_nat n ≤ sem_count (sh_sem s') - Z.of_nat n').
  { intros -> Hk Hok. split; [done|]. split; [done|]. split; [lia|]. exists n. split; [done|]. lia. }
  unfold needs in *. intros Hn Hsp Hop Hok.
  destruct (on_sem op) eqn:Hs.
  2: { apply Hsame; [by eapply op_step_sem|destruct op; try done; apply Hn|done]. }
  destruct op; try discriminate Hs; simpl in Hn, Hop; [| |done].
  - (* TryAcquire *)
    destruct Hn as (Hacq & -> & Hyes & Hno). rewrite TryAcquire_spec in Hop by done.
    destruct Hok as [Hc Hcap].
    destruct (Z.ltb_spec (sem_count (sh_sem s)) (sem_capacity (sh_sem s))).
    + injection Hop as -> ->. simpl. split; [split; simpl; lia|]. split; [done|]. split; [lia|].
      exists (S n). split; [done|]. split; [congruence|lia].
    + injection Hop as -> ->. by apply Hsame.
  - (* Release *)
    destruct Hn as [-> Hn]. destruct n as [|n]; [done|]. subst s'. destruct r.
    change (sh_sem (set_sem (Sem_Release 1 (sh_sem s)) s)) with (Sem_Release 1 (sh_sem s)).
    rewrite Release_spec by done. destruct Hok as [Hc Hcap]. cbn [sem_count sem_capacity].
    split; [split; simpl; lia|]. split; [done|]. split; [lia|]. exists n.
    split; [done|]. split; [intros _; lia|lia].
Qed.
Lemma sum_list_insert (l : list nat) i x y :
  l !! i = Some x → (sum_list (<[i := y]> l) + x = sum_list l + y)%nat.
Proof.
  revert i. induction l as [|z l IH]; intros [|i] H; simplify_eq/=; [lia|].
  specialize (IH i H). lia.
Qed.

Lemma Forall2_insert_l {A B} (P : A → B → Prop) l k i x y :
  Forall2 P l k → P x y → Forall2 P (<[i := x]> l) (<[i := y]> k).
Proof. intros H Hxy. by apply Forall2_insert. Qed.

(** The first goroutine loads; the others hold [held], which the semaphore
    accounts for once it is seeded, and [Load]'s counter before. *)
Record pool_inv (cap : Z) (B : nat) (p : Pool) : Prop := {
  pi_ok : sem_ok (sh_sem (p_shared p));
  pi_cap : sem_capacity (sh_sem (p_shared p)) = cap;
  pi_count : sem_count (sh_sem (p_shared p)) ≤ Z.max cap (Z.of_nat B);
  pi_threads : ∃ load ts held n seeded_,
    p_threads p = (KLoad, load) :: ts ∧
    wp (@seeding B) load seeded (n, seeded_) ∧
    Forall2 (λ (t : Thread) h, needs seeded_ h t.2) ts held ∧
    (if seeded_ : bool then Z.of_nat (sum_list held) ≤ sem_count (sh_sem (p_shared p))
     else p_serving p = false ∧ (sum_list held ≤ n ≤ B)%nat ∧ (size (sh_store (p_shared p)) ≤ B)%nat) }.

(** A goroutine other than [Load] steps. *)
Lemma inv_op_thread cap B s s' serving load ts held n b i kd {R : Set} (op : Op R) k r h :
  Z.of_nat B < int64_max →
  pool_inv cap B (mkPool s serving ((KLoad, load) :: ts)) →
  wp (@seeding B) load seeded (n, b) → Forall2 (λ (t : Thread) h, needs b h t.2) ts held →
  (if b then Z.of_nat (sum_list held) ≤ sem_count (sh_sem s)
   else serving = false ∧ (sum_list held ≤ n ≤ B)%nat ∧ (size (sh_store s) ≤ B)%nat) →
  ts !! i = Some (kd, Do op k) → held !! i = Some h → spawns op = false → op_step op s r s' →
  pool_inv cap B (mkPool s' serving ((KLoad, load) :: <[i := (kd, k r)]> ts)).
Proof.
  intros HB [Hok Hcap Hcount _] Hload Hts Hsum Hi Hh Hsp Hop. simpl in *.
  pose proof (Forall2_lookup_lr _ _ _ _ _ _ Hts Hi Hh) as Hn. simpl in Hn.
  destruct (slots_op_step _ _ _ _ _ _ _ Hn Hsp Hop Hok) as (Hok' & Hcap' & Hc' & h' & Hn' & Hle & Hd).
  split; simpl; [done|congruence|rewrite Hcap in Hc'; lia|].
  exists load, (<[i := (kd, k r)]> ts), (<[i := h']> held), n, b.
  split; [done|]. split; [done|]. split; [by apply Forall2_insert_l|].
  pose proof (sum_list_insert held i h h' Hh) as Hs. destruct b; [lia|].
  specialize (Hle eq_refl). destruct Hsum as (? & ? & ?). split; [done|]. split; [lia|].
  assert (writes op = false) as Hw by (destruct op; try done; by destruct Hn).
  pose proof (op_step_size _ _ _ _ Hop Hw). lia.
Qed.
(** [Load] steps. *)
Lemma seeding_op_step B {R : Set} (op : Op R) (k : R → Program (option string)) s r s' n b :
  wp (@seeding B) (Do op k) seeded (n, b) → spawns op = false → op_step op s r s' →
  (size (sh_store s) ≤ B)%nat →
  b = false ∧ (size (sh_store s') ≤ B)%nat ∧
  ((sh_sem s' = sh_sem s ∧ wp (@seeding B) (k r) seeded (n, false)) ∨
   (sh_sem s' = Sem_Set (Z.of_nat n) (sh_sem s) ∧ (n ≤ B)%nat ∧
    wp (@seeding B) (k r) seeded (n, true))).
Proof.
  intros Hwp Hsp Hop HB.
  assert (writes op = false) as Hw by (by destruct op).
  pose proof (op_step_size _ _ _ _ Hop Hw) as Hsize. destruct (on_sem op) eqn:Hs.
  - destruct op; try discriminate Hs; try done. simpl in Hwp, Hop.
    destruct Hwp as (-> & -> & Hn & Hk), r. subst s'. split; [done|]. split; [done|]. by right.
  - pose proof (op_step_sem _ _ _ _ Hop Hs) as Hsem.
    destruct op; try done; simpl in Hwp; destruct Hwp as [Hb Hk]; simpl in Hb; subst b;
      (split; [done|]); (split; [lia|]); left; (split; [done|]); try apply Hk.
    (* OpList *)
    destruct Hop as [-> [(l & -> & Hl)|[err ->]]]; [|done].
    rewrite Hl, length_map, length_map_to_list. exact HB.
Qed.

Lemma inv_op_load cap B s s' serving ts {R : Set} (op : Op R) k r :
  Z.of_nat B < int64_max → 0 ≤ cap < int64_max →
  pool_inv cap B (mkPool s serving ((KLoad, Do op k) :: ts)) →
  spawns op = false → op_step op s r s' →
  pool_inv cap B (mkPool s' serving ((KLoad, k r) :: ts)).
Proof.
  intros HB Hcap0 [Hok Hcap Hcount (load & ts' & held & n & b & Heq & Hload & Hts & Hsum)] Hsp Hop.
  simpl in *. injection Heq as <- <-.
  destruct b; [exfalso; destruct op; try discriminate Hsp; simpl in Hload; done || by destruct Hload|].
  destruct Hsum as (Hserving & Hsum & Hsize).
  destruct (seeding_op_step _ _ _ _ _ _ _ _ Hload Hsp Hop Hsize) as (_ & Hsize' & [[Hsem Hk]|(Hsem & Hn & Hk)]).
  - split; simpl; rewrite ?Hsem; try done. by exists (k r), ts, held, n, false.
  - destruct Hok as [Hc0 Hc1]. split; simpl; rewrite ?Hsem; simpl; [split; simpl; lia|done|lia|].
    exists (k r), ts, held, n, true. split; [done|]. split; [done|]. split; [|lia].
    eapply Forall2_impl; [exact Hts|]. intros t h. apply needs_acq.
Qed.

Lemma inv_go_load cap B s serving ts g k :
  pool_inv cap B (mkPool s serving ((KLoad, Do (OpGo g) k) :: ts)) →
  pool_inv cap B (mkPool s serving ((KLoad, k tt) :: ts ++ [thread_of g])).
Proof.
  intros [Hok Hcap Hcount (load & ts' & held & n & b & Heq & Hload & Hts & Hsum)].
  simpl in *. injection Heq as <- <-. destruct g as [id version h|task]; [|done].
  destruct Hload as (Hb & Hn & Hk). simpl in Hb, Hn. subst b. split; [done..|].
  exists (k tt), (ts ++ [thread_of (Supervise id version h)]), (held ++ [1%nat]), (S n), false.
  split; [done|]. split; [done|]. split.
  - apply Forall2_app; [done|]. constructor; [|constructor]. by apply (thread_of_slots false (Supervise _ _ _)).
  - destruct Hsum as (? & ? & ?). split; [done|]. split; [|done]. rewrite sum_list_with_app. simpl. lia.
Qed.

Lemma inv_go_thread cap B s serving load ts i kd g k :
  pool_inv cap B (mkPool s serving ((KLoad, load) :: ts)) →
  ts !! i = Some (kd, Do (OpGo g) k) → 
  pool_inv cap B (mkPool s serving ((KLoad, load) :: <[i := (kd, k tt)]> ts ++ [thread_of g])).
Proof.
  intros [Hok Hcap Hcount (load' & ts' & held & n & b & Heq & Hload & Hts & Hsum)] Hi.
  simpl in *. injection Heq as <- <-. split; [done..|].
  destruct (Forall2_lookup_l _ _ _ _ _ Hts Hi) as (h & Hh & Hn). simpl in Hn.
  destruct g as [id version h'|task].
  - destruct h as [|h]; [done|]. pose proof (sum_list_insert held i (S h) h Hh) as Hs.
    exists load, (<[i := (kd, k tt)]> ts ++ [thread_of (Supervise id version h')]),
      (<[i := h]> held ++ [1%nat]), n, b.
    split; [done|]. split; [done|]. rewrite sum_list_with_app. simpl. split.
    + apply Forall2_app; [by apply Forall2_insert_l|]. constructor; [|constructor].
      by apply (thread_of_slots b (Supervise _ _ _)).
    + destruct b; [lia|]. destruct Hsum as (? & ? & ?). split; [done|]. split; [lia|done].
  - destruct Hn as [-> Hn]. pose proof (sum_list_insert held i h h Hh) as Hs.
    exists load, (<[i := (kd, k tt)]> ts ++ [thread_of (PollTask task)]), (<[i := h]> held ++ [0%nat]), n, true.
    split; [done|]. split; [done|]. rewrite sum_list_with_app. simpl. split; [|lia].
    apply Forall2_app; [by apply Forall2_insert_l|]. constructor; [|constructor].
    by apply (thread_of_slots true (PollTask task)).
Qed.

Lemma inv_spawn cap B s kd p ts :
  needs true 0 p → pool_inv cap B (mkPool s true ts) → pool_inv cap B (mkPool s true (ts ++ [(kd, p)])).
Proof.
  intros Hp [Hok Hcap Hcount (load & ts' & held & n & b & Heq & Hload & Hts & Hsum)].
  simpl in *. subst ts. destruct b; [|by destruct Hsum]. split; [done..|].
  exists load, (ts' ++ [(kd, p)]), (held ++ [0%nat]), n, true. split; [done|]. split; [done|]. split.
  - apply Forall2_app; [done|]. by repeat constructor.
  - rewrite sum_list_with_app. simpl. lia.
Qed.

Lemma pool_inv_step cap B p p' :
  Z.of_nat B < int64_max → 0 ≤ cap < int64_max → pool_inv cap B p → pool_step p p' → pool_inv cap B p'.
Proof.
  intros HB Hcap Hinv Hstep. pose proof (pi_threads _ _ _ Hinv) as
    (load & ts' & held & n & b & Heq & Hload & Hts & Hsum).
  destruct Hstep as [i kd R op k r s s' serving ts Hi Hsp Hop|i kd g k s serving ts Hi Hlim|s ts Hi|s ts _|s ts _];
    simpl in Heq, Hsum; try subst ts.
  - destruct i as [|i]; simpl in Hi.
    + injection Hi as <- ->. simpl. by eapply inv_op_load.
    + destruct (Forall2_lookup_l _ _ _ _ _ Hts Hi) as (h & Hh & _). simpl. by eapply inv_op_thread.
  - destruct i as [|i]; simpl in Hi.
    + injection Hi as <- ->. by apply inv_go_load.
    + by apply inv_go_thread.
  - injection Hi as ->. simpl in Hload. destruct Hinv as [Hok Hcap' Hcount _].
    assert (b = true) as -> by exact (Hload eq_refl). split; [done..|].
    by exists (Ret None), ts', held, n, true.
  - apply (inv_spawn _ _ _ _ _ _ Poll_slots Hinv).
  - apply (inv_spawn _ _ _ _ _ _ Prune_slots Hinv).
Qed.

Lemma boot_inv concurrency store queue :
  Z.of_nat (size store) < int64_max → concurrency < int64_max →
  0 < concurrency → pool_inv concurrency (size store) (boot concurrency store queue).
Proof.
  intros HB Hc Hpos. unfold boot, concurrency_of. destruct (Z.leb_spec concurrency 0); [lia|].
  split; simpl; [split; simpl; unfold int64_max in *; lia|done|lia|].
  exists Load, [], [], 0%nat, false. split; [done|]. split; [by apply Load_seeding|].
  split; [constructor|]. simpl. split; [done|]. split; [lia|done].
Qed.

(** A goroutine blocked in [Wait] holds a slot. *)
Lemma supervised_held acq (ts : list Thread) held :
  Forall2 (λ (t : Thread) h, needs acq h t.2) ts held →
  (length (filter (λ t, supervising t = true) ts) ≤ sum_list held)%nat.
Proof.
  induction 1 as [|t h ts held Hn _ IH]; [done|]. rewrite filter_cons. simpl.
  destruct (decide (supervising t = true)) as [Ht|_]; [|lia]. simpl.
  destruct t as [kd [r|R op k]]; [done|]. destruct op; try done. destruct Hn as [Hh _]. lia.
Qed.

(** C24: supervised sandboxes are bounded, and once [Load] is done covered by slots.
    In every interleaving of the runner's goroutines, from boot through any polls and
    prunes, with any answers of the backend, the server and the disk, and a limit
    configured: neither the slots taken nor the sandboxes the process waits for ever
    exceed the limit, unless more sandboxes than that were recorded at boot; and from
    the moment [Load] has returned, when the process begins to poll, the sandboxes it
    waits for are no more than the slots taken.  (Before, [Load] supervises sandboxes
    for which it has yet to take the slots.) *)
Theorem slots_cover_supervised (concurrency : Z) (store : gmap Z TaskRecord)
    (queue : list RunnerEvent) (p : Pool) :
  0 < concurrency < int64_max → Z.of_nat (size store) < int64_max →
  rtc pool_step (boot concurrency store queue) p →
  let bound := Z.max concurrency (Z.of_nat (size store)) in
  sem_count (sh_sem (p_shared p)) ≤ bound ∧ Z.of_nat (supervised p) ≤ bound ∧
  (p_serving p = true → Z.of_nat (supervised p) ≤ sem_count (sh_sem (p_shared p))).
Proof.
  intros Hc HB Hr.
  assert (Hinv : pool_inv concurrency (size store) p).
  { assert (H0 : pool_inv concurrency (size store) (boot concurrency store queue))
      by (apply boot_inv; lia).
    induction Hr as [|p q r Hpq _ IH]; [done|]. apply IH.
    eapply pool_inv_step; [| |exact H0|exact Hpq]; [done|lia]. }
  destruct Hinv as [_ _ Hcount (load & ts & held & n & b & Heq & Hload & Hts & Hsum)].
  intros bound. split; [done|]. unfold supervised. rewrite Heq, filter_cons.
  destruct (decide (supervising (KLoad, load) = true)) as [Hl|_].
  { destruct load as [|R op k]; [done|]. by destruct op. }
  pose proof (supervised_held _ _ _ Hts). destruct b; [lia|].
  destruct Hsum as (Hs & ? & _). split; [lia|]. by rewrite Hs.
Qed.
End pool.

(** ** Schedules *)

Definition sample_pool_step : Pool → Pool → Prop :=
  pool_step "r1" "http://localhost" ∅ (λ _, None) (λ _, inr "{}") 1.

Definition running_record : TaskRecord := mkTaskRecord 7 3 "docker" "c-7" "{}".
Definition one_record : gmap Z TaskRecord := {[7 := running_record]}.

(** The next effect of goroutine [i] gets the answer [r]. *)
Ltac effect i r :=
  eapply rtc_l; [eapply (ps_op _ _ _ _ _ _ i _ _ _ r); [reflexivity|reflexivity|]|].
Ltac spawn i := eapply rtc_l; [eapply (ps_go _ _ _ _ _ _ i); [reflexivity|done || (intros _; apply Nat.ltb_lt; vm_compute; reflexivity)]|].

(** What a supervisor of [running_record] does once its [Wait] answers. *)
Definition after_wait (r : option Z) : Program (option string) :=
  prog_bind (λ _, Ret None)
    (match r with
     | None => Ret tt
     | Some code =>
         trigger (OpRelease 1) ;;; trigger OpWake ;;;
         (if code =? 0 then Ret tt
          else report (sandbox_failed 7 3 ("sandbox exited with status code " +:+ FormatInt code)))
     end).

Definition supervisor : Thread := (KSupervisor, Do (OpWait (handle_of running_record)) after_wait).

Definition shared_at (count capacity : Z) : Shared :=
  mkShared (mkSem count capacity) one_record [] false None.

(** [Load] finds one running sandbox and supervises it. *)
Lemma loads_one (c : Z) :
  rtc sample_pool_step (boot c one_record [])
    (mkPool (shared_at 0 (concurrency_of c)) false [(KLoad, Do (OpSet 1) (λ _, Ret None)); supervisor]).
Proof.
  unfold boot, sample_pool_step.
  effect 0%nat (@inr string _ [running_record]).
  { split; [reflexivity|]. left. exists [running_record]. split; [done|]. by vm_compute. }
  simpl. effect 0%nat (@inr string _ StateRunning); [done|]. simpl.
  spawn 0%nat. simpl. apply rtc_refl.
Qed.

Lemma serves_one (c : Z) :
  rtc sample_pool_step (boot c one_record [])
    (mkPool (shared_at 1 (concurrency_of c)) true [(KLoad, Ret None); supervisor]).
Proof.
  etrans; [apply loads_one|]. unfold sample_pool_step. effect 0%nat tt; [reflexivity|].
  eapply rtc_l; [by apply ps_loaded|]. apply rtc_refl.
Qed.

(** One sandbox, one slot. *)
Lemma slots_cover_supervised_witness : ∃ p,
  rtc sample_pool_step (boot 1 one_record []) p ∧ supervised p = 1%nat ∧
  1 ≤ sem_count (sh_sem (p_shared p)) ≤ 1.
Proof.
  eexists. split; [exact (serves_one 1)|]. split; [done|].
  destruct (slots_cover_supervised "r1" "http://localhost" ∅ (λ _, None) (λ _, inr "{}") 1
    1 one_record [] _ ltac:(done) ltac:(done) (serves_one 1)) as (Hmax & _ & Hmin).
  split; [exact (Hmin eq_refl)|exact Hmax].
Defined.

(** A sandbox that exits before [Load] seeds the semaphore: its release finds
    the count at zero, and the seeding then takes a slot nobody holds. *)
Lemma boot_race_leaks_slot : ∃ p,
  rtc sample_pool_step (boot 1 one_record []) p ∧
  p_serving p = true ∧ supervised p = 0%nat ∧ forallb finished (p_threads p) = true ∧
  (TryAcquire 1 (sh_sem (p_shared p))).1 = false.
Proof.
  eexists. split.
  { etrans; [exact (loads_one 1)|]. unfold sample_pool_step.
    effect 1%nat (Some 0); [reflexivity|]. simpl.
    effect 1%nat tt; [reflexivity|]. simpl. effect 1%nat tt; [reflexivity|]. simpl.
    effect 0%nat tt; [reflexivity|]. eapply rtc_l; [by apply ps_loaded|]. apply rtc_refl. }
  by vm_compute.
Qed.

(** A restart whose old sandbox cannot be stopped: the new start finds it
    running and returns without an error, and the slot it was given stays
    taken after the only sandbox is gone. *)
Definition restart_task : Task :=
  mkTask 7 "" "r1" "ws" TaskStatusRestarting TaskCommandRestart 4 1 false 0 0 "" 0 "".

Lemma restart_leaks_slot : ∃ p,
  rtc sample_pool_step (boot 2 one_record []) p ∧
  p_serving p = true ∧ supervised p = 0%nat ∧ forallb finished (p_threads p) = true ∧
  sh_queue (p_shared p) = [] ∧ sem_count (sh_sem (p_shared p)) = 1.
Proof.
  eexists. split.
  { etrans; [exact (serves_one 2)|]. unfold sample_pool_step.
    eapply rtc_l; [by apply ps_poll|]. simpl.
    effect 2%nat (@inr string _ [restart_task]); [reflexivity|]. simpl.
    spawn 2%nat. simpl.
    do 2 (effect 3%nat (@inr string _ (Some running_record)); [split; [reflexivity|by left]|]; simpl).
    effect 3%nat (@inl string bool "timeout"); [reflexivity|]. simpl.
    effect 3%nat true; [reflexivity|]. simpl.
    effect 3%nat (@inr string _ (Some running_record)); [split; [reflexivity|by left]|]. simpl.
    effect 3%nat (@inr string _ StateRunning); [reflexivity|]. simpl.
    effect 1%nat (Some 0); [reflexivity|]. simpl.
    do 2 (effect 1%nat tt; [reflexivity|]; simpl). apply rtc_refl. }
  by vm_compute.
Qed.
