(* ===== verification/RunnerSpec.v ===== *)
(** * What the runner does with a command

    The outcome of every goroutine of a poll and of a boot
    ([internal/runner/runner.go]), in any world: which sandboxes are launched
    and supervised, what is recorded, what is reported to the server. *)

From S2P Require Import Prelude AuthScope EventModel TaskModel.
From S2P Require Import Prog Workspace TaskState Runner.

(** ** Runs with a history *)

(** What a goroutine saw and did outside the shared state. *)
Inductive Effect :=
| Launched (reuse : option Handle) (h : Handle)
| Signalled (h : Handle)
| Spawned (g : Goroutine)
| Probed (h : Handle) (answer : string + SandboxState)
| Fetched (taskID : Z) (answer : GetErr + Task)
| Granted.

Definition note {R : Set} (op : Op R) : R → list Effect :=
  match op in Op R return R → list Effect with
  | OpLaunch _ reuse => λ r, match r with inr h => [Launched reuse h] | inl _ => [] end
  | OpSignal h => λ _, [Signalled h]
  | OpGo g => λ _, [Spawned g]
  | OpProbe h => λ r, [Probed h r]
  | OpGetTask id => λ r, [Fetched id r]
  | OpTryAcquire _ => λ r, if r then [Granted] else []
  | _ => λ _, []
  end.

Definition World : Type := Shared * list Effect.

Definition world_step (R : Set) (op : Op R) (w : World) (r : R) (w' : World) : Prop :=
  op_step op w.1 r w'.1 ∧ w'.2 = w.2 ++ note op r.

(** [p] ran from [s] to [s'] with the effects [e] and the result [a]. *)
Definition ran {A} (p : Program A) (s : Shared) (a : A) (s' : Shared) (e : list Effect) : Prop :=
  ∃ l, exec world_step p (s, []) l a (s', e).

#[local] Abbreviation world := (demonic world_step).

Lemma ran_wp {A} (p : Program A) s a s' e (Φ : A → World → Prop) :
  wp world p Φ (s, []) → ran p s a s' e → Φ a (s', e).
Proof. intros Hwp [l Hl]. exact (demonic_exec world_step p Φ _ _ _ _ Hwp Hl). Qed.

Ltac world_bind := eapply prog_wp_bind; [exact (demonic_mono _)|].

(** ** Outcomes *)

(** A durable report, or the death of the runner. *)
Definition reported (ev : RunnerEvent) (s s' : Shared) : Prop :=
  s' = set_queue (sh_queue s ++ [ev]) s ∨
  ∃ err, s' = set_fatal (Some (default err (sh_fatal s))) s.

(** The slot [start_in_slot] takes. *)
Definition taken (s : Shared) : Shared := set_sem (TryAcquire 1 (sh_sem s)).2 s.

Definition task_record (task : Task) (h : Handle) : TaskRecord :=
  mkTaskRecord (Task_ID task) (Task_Version task) (H_Type h) (H_ID h) (H_Data h).

Definition dropped (id : Z) (s s' : Shared) : Prop :=
  s' = s ∨ s' = set_records (delete id (sh_store s)) s.

Definition launches (e : list Effect) : list Handle :=
  omap (λ x, match x with Launched _ h => Some h | _ => None end) e.
Definition signals (e : list Effect) : list Handle :=
  omap (λ x, match x with Signalled h => Some h | _ => None end) e.
Definition spawned (e : list Effect) : list Goroutine :=
  omap (λ x, match x with Spawned g => Some g | _ => None end) e.

(** What starting a task's sandbox comes to: the result, the state, the
    sandboxes launched and the goroutines spawned. *)
Inductive start_outcome (task : Task) (s : Shared)
    : option StartErr → Shared → list Handle → list Goroutine → Prop :=
| so_running : start_outcome task s None s [] []
| so_launched h :
    start_outcome task s None (set_records (<[Task_ID task := task_record task h]> (sh_store s)) s)
      [h] [Supervise (Task_ID task) (Task_Version task) h]
| so_gone s' : dropped (Task_ID task) s s' → start_outcome task s (Some ErrGone) s' [] []
| so_failed msg : start_outcome task s (Some (StartErr_ msg)) s [] []
| so_unrecorded h msg cause :
    start_outcome task s (Some (StartErr_ msg)) (set_fatal (Some (default cause (sh_fatal s))) s) [h] [].

(** The task's recorded sandbox answered that it is running. *)
Definition found_running (task : Task) (s : Shared) (e : list Effect) : Prop :=
  ∃ rec, sh_store s !! Task_ID task = Some rec ∧ Probed (handle_of rec) (inr StateRunning) ∈ e.

(** What a started or restarted task comes to, with the effects on the way. *)
Inductive polled (task : Task) (s : Shared) : Shared → list Effect → Prop :=
| polled_idle e : Granted ∉ e → launches e = [] → spawned e = [] → polled task s s e
| polled_started s' e :
    (TryAcquire 1 (sh_sem s)).1 = true → Granted ∈ e →
    start_outcome task (taken s) None s' (launches e) (spawned e) →
    (spawned e = [] → found_running task s e) → polled task s s' e
| polled_failed err s1 s' e :
    (TryAcquire 1 (sh_sem s)).1 = true → Granted ∈ e →
    start_outcome task (taken s) (Some err) s1 (launches e) (spawned e) →
    reported (sandbox_failed (Task_ID task) (Task_Version task) (StartErr_Error err))
      (set_sem (Sem_Release 1 (sh_sem s1)) s1) s' →
    polled task s s' e.

Section outcomes.
Context (serverURL : string) (workspaces : gmap string Workspace).
Context (ValidateWorkspace : Workspace → option string) (MarshalIndent : Config → string + string).

#[local] Abbreviation spec := (spec serverURL workspaces ValidateWorkspace MarshalIndent).
#[local] Abbreviation launch := (launch serverURL workspaces ValidateWorkspace MarshalIndent).
#[local] Abbreviation Runner_Start :=
  (Runner_Start serverURL workspaces ValidateWorkspace MarshalIndent).
#[local] Abbreviation start_in_slot :=
  (start_in_slot serverURL workspaces ValidateWorkspace MarshalIndent).
#[local] Abbreviation poll_restart :=
  (poll_restart serverURL workspaces ValidateWorkspace MarshalIndent).
#[local] Abbreviation poll_start :=
  (poll_start serverURL workspaces ValidateWorkspace MarshalIndent).
#[local] Abbreviation poll_task :=
  (poll_task serverURL workspaces ValidateWorkspace MarshalIndent).

(** The postcondition of a program that started from [(s, e0)]. *)
Definition then_ {A} (s : Shared) (e0 : list Effect) (Q : A → Shared → list Effect → Prop)
    (a : A) (w : World) : Prop :=
  ∃ e, w.2 = e0 ++ e ∧ Q a w.1 e.

Lemma die_wp err s e (Φ : unit → World → Prop) :
  (∀ cause, Φ tt (set_fatal (Some (default cause (sh_fatal s))) s, e)) → wp world (die err) Φ (s, e).
Proof.
  intros H [] [s' e'] [Hs He]. simpl in *. subst s'. rewrite He, app_nil_r. apply H.
Qed.

Lemma report_wp ev s e (Φ : unit → World → Prop) :
  (∀ s', reported ev s s' → Φ tt (s', e)) → wp world (report ev) Φ (s, e).
Proof.
  intros H. unfold report. world_bind. intros r [s' e'] [Hs He]. simpl in *.
  rewrite app_nil_r in He. subst e'. destruct Hs as [[-> ->]|(err & -> & ->)].
  - apply H. by left.
  - apply die_wp. intros cause. apply H. right. by exists cause.
Qed.

Lemma handle_wp id s e (Φ : string + option Handle → World → Prop) :
  (∀ err, Φ (inl err) (s, e)) → Φ (inr (handle_of <$> sh_store s !! id)) (s, e) →
  wp world (handle id) Φ (s, e).
Proof.
  intros H1 H2. unfold handle. world_bind. intros r [s' e'] [[Hs Hr] He]. simpl in *.
  rewrite app_nil_r in He. subst s' e'. destruct Hr as [->|[err ->]]; [|apply H1].
  by destruct (sh_store s !! id).
Qed.

Lemma spec_wp task s e (Φ : string + Spec → World → Prop) :
  (∀ r, Φ r (s, e)) → wp world (spec task) Φ (s, e).
Proof.
  intros H. unfold spec. destruct (Config_Get workspaces (Task_Workspace task)) as [err|ws]; [apply H|].
  destruct (ValidateWorkspace ws); [apply H|]. world_bind. intros r [s' e'] [Hs He]. simpl in *.
  rewrite app_nil_r in He. subst s' e'. apply H.
Qed.

Lemma gone_wp id s e (Φ : option StartErr → World → Prop) :
  (∀ s', dropped id s s' → Φ (Some ErrGone) (s', e)) → wp world (gone id) Φ (s, e).
Proof.
  intros H. unfold gone. world_bind. intros r [s' e'] [Hs He]. simpl in *.
  rewrite app_nil_r in He. subst e'. apply H. destruct Hs as [[_ ->]|(err & _ & ->)]; [by right|by left].
Qed.

Definition starts (task : Task) (s : Shared) (r : option StartErr) (s' : Shared) (e : list Effect) : Prop :=
  start_outcome task s r s' (launches e) (spawned e) ∧ signals e = [] ∧ Granted ∉ e ∧
  (r = None → spawned e = [] → found_running task s e).

Lemma starts_failed task s err s' e :
  start_outcome task s (Some err) s' (launches e) (spawned e) → signals e = [] → Granted ∉ e →
  starts task s (Some err) s' e.
Proof. intros. by split_and!. Qed.

Lemma launch_wp task reuse s e0 :
  wp world (launch task reuse) (then_ s e0 (starts task s)) (s, e0).
Proof.
  unfold launch. world_bind. apply spec_wp. intros [err|spec].
  { exists []. rewrite app_nil_r. split; [done|]. apply starts_failed; [constructor|done|set_solver]. }
  world_bind. intros [[|err]|h] [s' e'] [Hs He]; simpl in Hs, He; subst s' e'.
  - apply gone_wp. intros s' Hs'. exists []. split; [done|]. apply starts_failed; [by constructor|done|set_solver].
  - exists []. split; [done|]. apply starts_failed; [constructor|done|set_solver].
  - world_bind. intros r [s' e'] [Hs He]. simpl in *. subst e'. rewrite app_nil_r.
    destruct Hs as [[-> ->]|(err & -> & ->)].
    + intros [] [s' e'] [Hs He]. simpl in *. subst s' e'.
      exists [Launched reuse h; Spawned (Supervise (Task_ID task) (Task_Version task) h)].
      split; [by rewrite <- app_assoc|]. split_and!; [constructor|done|set_solver|done].
    + intros [] [s' e'] [Hs He]. simpl in Hs, He. subst s' e'.
      exists [Launched reuse h]. split; [by rewrite app_nil_r|]. apply starts_failed; [constructor|done|set_solver].
Qed.

Lemma Start_wp task s e0 :
  wp world (Runner_Start task) (then_ s e0 (starts task s)) (s, e0).
Proof.
  unfold Runner_Start. world_bind. apply handle_wp.
  { intros err. exists []. rewrite app_nil_r. split; [done|]. apply starts_failed; [constructor|done|set_solver]. }
  destruct (sh_store s !! Task_ID task) as [rec|] eqn:Hrec; simpl; [|apply launch_wp].
  intros r [s' e'] [Hs He]. simpl in Hs, He. subst s' e'.
  assert (Hp : ∀ (a : option StartErr) w, then_ s (e0 ++ [Probed (handle_of rec) r]) (starts task s) a w →
    then_ s e0 (starts task s) a w).
  { intros a [s' e'] (e & He & Ho & Hsig & Hgr & Hrun). exists (Probed (handle_of rec) r :: e). simpl in *.
    split; [by rewrite He, <- app_assoc|]. split_and!; [done|done|set_solver|].
    intros Ha Hsp. destruct (Hrun Ha Hsp) as (rec' & Hrec' & Hin). exists rec'. split; [done|set_solver]. }
  destruct r as [err|[]].
  - exists [Probed (handle_of rec) (inl err)]. split; [done|]. apply starts_failed; [constructor|done|set_solver].
  - eapply prog_wp_mono; [exact (demonic_mono _)| |apply launch_wp]. exact Hp.
  - exists [Probed (handle_of rec) (inr StateRunning)]. split; [done|].
    split_and!; [constructor|done|set_solver|]. intros _ _. exists rec. split; [done|set_solver].
  - eapply prog_wp_mono; [exact (demonic_mono _)| |apply launch_wp]. exact Hp.
  - apply gone_wp. intros s' Hs'. exists [Probed (handle_of rec) (inr StateGone)]. split; [done|].
    apply starts_failed; [by constructor|done|set_solver].
Qed.

Definition polls (task : Task) (s : Shared) (_ : unit) (s' : Shared) (e : list Effect) : Prop :=
  polled task s s' e.

Lemma start_in_slot_wp task s e0 :
  wp world (start_in_slot task) (then_ s e0 (polls task s)) (s, e0).
Proof.
  unfold start_in_slot. world_bind. intros b [s1 e1] [Hs He]. simpl in Hs, He.
  subst e1. cbn [wp]. destruct (TryAcquire 1 (sh_sem s)) as [b' sem] eqn:E.
  injection Hs as <- ->. destruct b; simpl negb; cbv iota.
  2: { exists []. split; [done|].
       assert (set_sem sem s = s) as ->; [|constructor; set_solver].
       unfold TryAcquire in E. destruct (_ <=? _); [done|]. injection E as <-. by destruct s. }
  assert (set_sem sem s = taken s) as Ht by (unfold taken; by rewrite E). rewrite Ht.
  world_bind. eapply prog_wp_mono; [exact (demonic_mono _)| |apply Start_wp].
  intros r [s1 e1] (e & He & Hr & _ & _ & Hrun). simpl in He, Hr, Hrun. subst e1. destruct r as [err|].
  - world_bind. intros [] [s2 e2] [Hs He]. simpl in Hs, He. rewrite app_nil_r in He. subst s2 e2.
    apply report_wp. intros s' Hs'. exists (Granted :: e). split; [by rewrite <-app_assoc|].
    eapply polled_failed; [by rewrite E|left|exact Hr|done].
  - exists (Granted :: e). split; [by rewrite <-app_assoc|]. apply polled_started; [by rewrite E|left|exact Hr|].
    intros Hsp. destruct (Hrun eq_refl Hsp) as (rec & Hrec & Hin). exists rec. split; [exact Hrec|by right].
Qed.

(** ** Stopping *)

Lemma Kill_wp task s e0 (Φ : string + bool → World → Prop) :
  (∀ r e, launches e = [] → spawned e = [] → Granted ∉ e → Φ r (s, e0 ++ e)) → wp world (Kill task) Φ (s, e0).
Proof.
  intros H. unfold Kill. world_bind. apply handle_wp.
  { intros err. specialize (H (inl err) []). rewrite app_nil_r in H. apply H; [done|done|set_solver]. }
  destruct (sh_store s !! Task_ID task) as [rec|]; simpl.
  - intros r [s' e'] [Hs He]. simpl in Hs, He. subst s' e'. apply H; [done|done|set_solver].
  - specialize (H (inr false) []). rewrite app_nil_r in H. apply H; [done|done|set_solver].
Qed.

Lemma Running_wp id s e0 (Φ : string + bool → World → Prop) :
  (∀ r e, launches e = [] → spawned e = [] → Granted ∉ e → Φ r (s, e0 ++ e)) → wp world (Running id) Φ (s, e0).
Proof.
  intros H. unfold Running. world_bind. apply handle_wp.
  { intros err. specialize (H (inl err) []). rewrite app_nil_r in H. apply H; [done|done|set_solver]. }
  destruct (sh_store s !! id) as [rec|]; simpl.
  - intros r [s' e'] [Hs He]. simpl in Hs, He. subst s' e'. apply H; [done|done|set_solver].
  - specialize (H (inr false) []). rewrite app_nil_r in H. apply H; [done|done|set_solver].
Qed.

Lemma omap_app_nil {A B} (f : A → option B) l k : omap f l = [] → omap f (l ++ k) = omap f k.
Proof. intros H. by rewrite omap_app, H. Qed.

(** Effects that launch, spawn and acquire nothing can come before a start. *)
Lemma polled_after task s s' e e' :
  launches e = [] → spawned e = [] → Granted ∉ e → polled task s s' e' → polled task s s' (e ++ e').
Proof.
  intros Hl Hs Hg Hp. assert (Hl' : launches (e ++ e') = launches e') by by apply omap_app_nil.
  assert (Hs' : spawned (e ++ e') = spawned e') by by apply omap_app_nil.
  destruct Hp as [e' Hg' ? ?|s' e' ? ? ? Hrun|err s1 s' e' ? ? ? ?].
  - apply polled_idle; [set_solver|congruence..].
  - apply polled_started; [done|set_solver|by rewrite Hl', Hs'|]. rewrite Hs'.
    intros Hsp. destruct (Hrun Hsp) as (rec & ? & ?). exists rec. split; [done|set_solver].
  - eapply polled_failed; [done|set_solver|by rewrite Hl', Hs'|done].
Qed.

Lemma polls_after task s e0 e u w :
  launches e = [] → spawned e = [] → Granted ∉ e →
  then_ s (e0 ++ e) (polls task s) u w → then_ s e0 (polls task s) u w.
Proof.
  intros Hl Hs Hg (e' & He & Hp). exists (e ++ e'). split; [by rewrite He, app_assoc|]. by apply polled_after.
Qed.

(** A stop reports "stopped" when there is nothing to signal. *)
Definition stopped_event (task : Task) : RunnerEvent :=
  mkRunnerEvent (Task_ID task) RunnerEventStopped (Task_Version task) false "".

Definition stops (task : Task) (s : Shared) (_ : unit) (s' : Shared) (e : list Effect) : Prop :=
  (s' = s ∨ reported (stopped_event task) s s') ∧ launches e = [] ∧ spawned e = [] ∧ Granted ∉ e.

Lemma poll_stop_wp task s e0 :
  wp world (poll_stop task) (then_ s e0 (stops task s)) (s, e0).
Proof.
  unfold poll_stop. world_bind. apply Kill_wp. intros r e Hl Hg Hno.
  destruct r as [err|[]]; [exists e; split; [done|]; split; [by left|done]..|].
  apply report_wp. intros s' Hs'. exists e. split; [done|]. split; [by right|done].
Qed.

(** The record of the run a restart asks for. *)
Definition restarted (task : Task) (s : Shared) : Prop :=
  ∃ rec, sh_store s !! Task_ID task = Some rec ∧ TR_Version rec = Task_Version task.

Lemma poll_restart_wp task s e0 :
  wp world (poll_restart task)
    (then_ s e0 (λ u s' e, polls task s u s' e ∧
       (restarted task s → s' = s ∧ e = []))) (s, e0).
Proof.
  unfold poll_restart. world_bind. intros r [s1 e1] [Hs He]. simpl in Hs, He.
  destruct Hs as [-> Hr]. rewrite app_nil_r in He. subst e1. cbn [wp].
  assert (Hidle : then_ s e0 (λ u s' e, polls task s u s' e ∧ (restarted task s → s' = s ∧ e = []))
    tt (s, e0)).
  { exists []. rewrite app_nil_r. split; [done|]. split; [constructor; set_solver|done]. }
  destruct Hr as [->|[err ->]]; [|exact Hidle].
  destruct (match sh_store s !! Task_ID task with Some rec => _ | None => false end) eqn:E; [exact Hidle|].
  world_bind. apply Kill_wp. intros _ e Hl Hg Hno.
  eapply prog_wp_mono; [exact (demonic_mono _)| |apply start_in_slot_wp].
  intros u w Hw. apply polls_after in Hw as (e' & He & Hp); [|done..]. exists e'.
  split; [done|]. split; [done|]. intros (rec & Hrec & Hv). rewrite Hrec, Hv, Z.eqb_refl in E. done.
Qed.

Lemma poll_start_wp task s e0 :
  wp world (poll_start task) (then_ s e0 (polls task s)) (s, e0).
Proof.
  unfold poll_start. destruct (decide _).
  { exists []. rewrite app_nil_r. split; [done|constructor; set_solver]. }
  world_bind. apply Running_wp. intros r e Hl Hg Hno.
  assert (Hidle : then_ s e0 (polls task s) tt (s, e0 ++ e)).
  { exists e. split; [done|]. by constructor. }
  destruct r as [err|[]]; [exact Hidle..|].
  eapply prog_wp_mono; [exact (demonic_mono _)| |apply start_in_slot_wp]. intros u w. by apply polls_after.
Qed.
End outcomes.

(** ** Consequences *)

(** What a commanded task may leave in the queue. *)
Definition report_of (task : Task) (ev : RunnerEvent) : Prop :=
  RE_TaskID ev = Task_ID task ∧ RE_Version ev = Task_Version task ∧ RE_Reconcile ev = false ∧
  RE_Event ev = if decide (Task_Command task = TaskCommandStop) then RunnerEventStopped
                else RunnerEventFailed.

Definition reports_at_most_one (task : Task) (s s' : Shared) : Prop :=
  sh_queue s' = sh_queue s ∨ ∃ ev, sh_queue s' = sh_queue s ++ [ev] ∧ report_of task ev.

Definition records_only (task : Task) (s s' : Shared) : Prop :=
  ∀ id, id ≠ Task_ID task → sh_store s' !! id = sh_store s !! id.

(** A launched sandbox is recorded under the run's version before it is
    supervised, or the runner dies. *)
Definition launches_recorded (task : Task) (s s' : Shared) (ls : list Handle) (gs : list Goroutine)
    : Prop :=
  (ls = [] ∧ gs = []) ∨
  ∃ h, ls = [h] ∧
    ((gs = [Supervise (Task_ID task) (Task_Version task) h] ∧
      sh_store s' !! Task_ID task = Some (task_record task h) ∧ sh_queue s' = sh_queue s) ∨
     (gs = [] ∧ is_Some (sh_fatal s'))).

(** The counts are [int64]s; the capacity is the largest of them when there is no
    limit. *)
Definition sem_sane (s : Semaphore) : Prop :=
  0 ≤ sem_count s < int64_max ∧ 0 ≤ sem_capacity s ≤ int64_max.

(** What becomes of a slot: none was granted; or it stays taken, for a sandbox that
    was handed to a supervisor or found running, and no failure is reported; or the
    start failed, so it was given back and the failure reported, unless the report
    cannot be kept and the runner dies. *)
Definition slot_accounted (task : Task) (s s' : Shared) (e : list Effect) : Prop :=
  sem_sane (sh_sem s) →
  (Granted ∉ e ∧ sh_sem s' = sh_sem s) ∨
  (Granted ∈ e ∧ sem_count (sh_sem s') = sem_count (sh_sem s) + 1 ∧
   sem_count (sh_sem s') ≤ sem_capacity (sh_sem s) ∧ sh_queue s' = sh_queue s ∧
   ((∃ h, spawned e = [Supervise (Task_ID task) (Task_Version task) h]) ∨ found_running task s e)) ∨
  (Granted ∈ e ∧ sh_sem s' = sh_sem s ∧ spawned e = [] ∧
   ((∃ reason, sh_queue s' = sh_queue s ++ [sandbox_failed (Task_ID task) (Task_Version task) reason]) ∨
    is_Some (sh_fatal s'))).

Lemma reported_shared ev s s' :
  reported ev s s' → sh_sem s' = sh_sem s ∧ sh_store s' = sh_store s ∧
  ((sh_queue s' = sh_queue s ++ [ev] ∧ sh_fatal s' = sh_fatal s) ∨
   (sh_queue s' = sh_queue s ∧ is_Some (sh_fatal s'))).
Proof. intros [->|[err ->]]; simpl; eauto 10. Qed.

(** Every outcome of a start keeps the semaphore and the queue. *)
Lemma start_outcome_shared task s r s' ls gs :
  start_outcome task s r s' ls gs →
  sh_sem s' = sh_sem s ∧ sh_queue s' = sh_queue s ∧ records_only task s s' ∧
  match r with
  | None => launches_recorded task s s' ls gs
  | Some _ => gs = [] ∧ (ls = [] ∨ ∃ h, ls = [h] ∧ is_Some (sh_fatal s'))
  end.
Proof.
  unfold records_only, launches_recorded. destruct 1 as [|h|s' Hs'|msg|h msg cause]; simpl;
    (split; [|split; [|split]]); try (by destruct Hs' as [->| ->]); try done.
  - by left.
  - intros id Hid. by rewrite lookup_insert_ne.
  - right. exists h. split; [done|]. left. by rewrite lookup_insert_eq.
  - destruct Hs' as [->| ->]; [done|]. intros id Hid. simpl. by rewrite lookup_delete_ne.
  - split; [done|by left].
  - split; [done|by left].
  - split; [done|]. right. eauto.
Qed.

(** A slot taken, and given back. *)
Lemma release_taken s :
  sem_sane (sh_sem s) → (TryAcquire 1 (sh_sem s)).1 = true →
  sem_count (sh_sem (taken s)) = sem_count (sh_sem s) + 1 ∧
  sem_count (sh_sem (taken s)) ≤ sem_capacity (sh_sem s) ∧
  Sem_Release 1 (sh_sem (taken s)) = sh_sem s.
Proof.
  intros [Hc Hcap]. unfold taken, TryAcquire. rewrite wrap64_small by lia.
  destruct (Z.leb_spec (sem_count (sh_sem s) + 1) (sem_capacity (sh_sem s))); simpl; [intros _|done].
  split; [done|]. split; [done|]. unfold Sem_Release. simpl.
  replace (sem_count (sh_sem s) + 1 - 1) with (sem_count (sh_sem s)) by lia. rewrite wrap64_small by lia.
  rewrite (proj2 (Z.ltb_ge _ _)) by lia. by destruct (sh_sem s).
Qed.

(** The four facts of a polled start. *)
Lemma polled_facts task s s' e :
  Task_Command task ≠ TaskCommandStop → polled task s s' e →
  reports_at_most_one task s s' ∧ records_only task s s' ∧ launches_recorded task s s' (launches e) (spawned e) ∧
  slot_accounted task s s' e.
Proof.
  intros Hcmd. destruct 1 as [e Hno Hl Hg|s' e Ht Hin Ho Hrun|err s1 s' e Ht Hin Ho Hr].
  - split; [by left|]. split; [done|]. split; [by left|]. intros _. by left.
  - destruct (start_outcome_shared _ _ _ _ _ _ Ho) as (Hsem & Hq & Hrec & Hl).
    split; [by left|]. split; [done|]. split; [exact Hl|]. intros Hok. right. left.
    destruct (release_taken s Hok Ht) as (Hc & Hcap & _). rewrite Hsem. split_and!; [done..|].
    remember (launches e) as ls. remember (spawned e) as gs.
    inversion Ho; subst; [right; by apply Hrun|left; eauto].
  - destruct (start_outcome_shared _ _ _ _ _ _ Ho) as (Hsem & Hq & Hrec & Hgs & Hl).
    destruct (reported_shared _ _ _ Hr) as (Hsem' & Hst' & Hq'). simpl in Hsem', Hst', Hq'.
    split; [|split; [|split]].
    + destruct Hq' as [[Hq' _]|[Hq' _]]; [right|left; by rewrite Hq', Hq].
      eexists. split; [by rewrite Hq', Hq|]. split; [done|]. split; [done|]. split; [done|].
      by rewrite decide_False.
    + intros id Hid. rewrite Hst'. by apply Hrec.
    + rewrite Hgs. destruct Hl as [->|(h & -> & Hf)]; [by left|]. right. exists h. split; [done|]. right.
      split; [done|]. by destruct Hq' as [[_ ->]|[_ ?]].
    + intros Hok. right. right. destruct (release_taken s Hok Ht) as (_ & _ & Hback).
      split_and!; [done|by rewrite Hsem', Hsem|done|].
      destruct Hq' as [[Hq' _]|[_ ?]]; [left|by right]. eexists. by rewrite Hq', Hq.
Qed.

Section property.
Context (serverURL : string) (workspaces : gmap string Workspace).
Context (ValidateWorkspace : Workspace → option string) (MarshalIndent : Config → string + string).

End property.

(** ** A first start *)

Definition start_task : Task :=
  mkTask 7 "" "r1" "ws" TaskStatusPending TaskCommandStart 1 1 false 0 0 "" 0 "".
Definition fresh : Shared := mkShared (Sem_New 2) ∅ [] false None.
Definition fresh_handle : Handle := mkHandle "docker" "c-7" "{}".

Ltac next_effect r := exists r; eexists (_, _), _; split; [split; [cbn [fst snd op_step]|reflexivity]|split; [|reflexivity]].

Lemma start_runs : ran (poll_task "http://localhost" {["ws" := sample_workspace]} (λ _, None)
    (λ _, inr "{}") start_task) fresh tt
    (set_records {[7 := task_record start_task fresh_handle]} (taken fresh))
    [Granted; Launched None fresh_handle; Spawned (Supervise 7 1 fresh_handle)].
Proof.
  eexists. unfold poll_task. simpl Task_Command. cbv iota. unfold poll_start.
  rewrite decide_False by done. cbn.
  next_effect (@inr string (option TaskRecord) None); [split; [reflexivity|by left]|]. cbn.
  next_effect true; [reflexivity|]. cbn.
  next_effect (@inr string (option TaskRecord) None); [split; [reflexivity|by left]|]. cbn.
  next_effect (@inr string string "jwt"); [reflexivity|]. cbn.
  next_effect (@inr StartErr Handle fresh_handle); [reflexivity|]. cbn.
  next_effect (@None string); [left; split; reflexivity|]. cbn.
  next_effect tt; [reflexivity|]. cbn. split; [done|]. split; [reflexivity|]. reflexivity.
Qed.

