(* ===== verification/Backend.v ===== *)
(** * What the runner relies on in a backend

    The contract of [internal/runner/backend/backend.go]: its methods as programs
    over the calls of a runtime, which may answer anything, and the laws its
    comments state.  The runner's side of it: a task whose record names a sandbox
    goes on in that sandbox or in none. *)

From S2P Require Import Prelude AuthScope ScopeParse EventModel TaskModel.
From S2P Require Import Prog Workspace TaskState Runner RunnerSpec.

(** [backend.ExitLost]. *)
Definition ExitLost : Z := -1.

(** [Wait] has returned, with an exit code or because its context is cancelled, or
    it has not yet. *)
Inductive WaitResult := StillWaiting | Cancelled | Stopped (code : Z).

(** [Event] is what a call and its answer come to; [creates] and [destroys] tell
    the calls that brought a sandbox into being and those that end one, and
    [documented] the answers the runtime's documentation allows. *)
Class Backend := {
  Call : Set → Type;
  Event : Type;
  saw : ∀ R : Set, Call R → R → Event;
  creates : Event → bool;
  destroys : Event → bool;
  documented : Event → bool;
  Launch : Spec → option Handle → Prog Call (StartErr + Handle);
  Probe : Handle → Prog Call (string + SandboxState);
  Signal : Handle → Prog Call (string + bool);
  Destroy : Handle → Prog Call (option string);
  Wait : nat → Handle → Prog Call WaitResult }.

(** ** Runs against a runtime that answers anything *)

Section calls.
Context {C : Set → Type} {V : Type} (see : ∀ R : Set, C R → R → V).

Definition call_step (R : Set) (op : C R) (tr : list V) (r : R) (tr' : list V) : Prop :=
  tr' = tr ++ [see R op r].

(** [p] made the calls [tr] and returned [a]. *)
Definition made {A} (p : Prog C A) (tr : list V) (a : A) : Prop := ∃ l, exec call_step p [] l a tr.

Definition calls {A} (p : Prog C A) (Φ : A → list V → Prop) : list V → Prop := wp (demonic call_step) p Φ.

Lemma calls_bind {A B} (f : A → Prog C B) (p : Prog C A) (Φ : B → list V → Prop) tr :
  calls p (λ a, calls (f a) Φ) tr → calls (prog_bind f p) Φ tr.
Proof. apply prog_wp_bind. exact (demonic_mono call_step). Qed.

Lemma calls_mono {A} (p : Prog C A) (Φ Ψ : A → list V → Prop) tr :
  (∀ a tr', Φ a tr' → Ψ a tr') → calls p Φ tr → calls p Ψ tr.
Proof. apply prog_wp_mono. exact (demonic_mono call_step). Qed.

Lemma calls_op {R : Set} (op : C R) (Φ : R → list V → Prop) tr :
  (∀ r, Φ r (tr ++ [see R op r])) → calls (trigger op) Φ tr.
Proof. intros H r tr' Hs. unfold call_step in Hs. subst tr'. apply H. Qed.

Lemma calls_ret {A} (a : A) (Φ : A → list V → Prop) tr : Φ a tr → calls (Ret a) Φ tr.
Proof. done. Qed.

(** A run, answer by answer. *)
Lemma made_answer {A} {R : Set} (op : C R) (r : R) (k : R → Prog C A) tr tr' a :
  (∃ l, exec call_step (k r) (tr ++ [see R op r]) l a tr') → ∃ l, exec call_step (Do op k) tr l a tr'.
Proof. intros [l Hl]. exists (existT R (op, r) :: l). exists r, (tr ++ [see R op r]), l. by split_and!. Qed.

Lemma made_ret {A} (a : A) tr : ∃ l, exec call_step (Ret a) tr l a tr.
Proof. by exists []. Qed.

(** What was called stays called. *)
Lemma calls_prefix {A} (p : Prog C A) (Φ : A → list V → Prop) tr :
  calls p Φ tr → calls p (λ a tr', Φ a tr' ∧ tr `prefix_of` tr') tr.
Proof.
  revert tr. induction p as [a|R op k IH]; intros tr Hp; [by split|].
  intros r tr' Hs. assert (tr `prefix_of` tr') by (unfold call_step in Hs; subst; by eexists).
  eapply calls_mono; [|apply IH, (Hp r tr' Hs)]. intros a tr2 [HΦ Hpre]. split; [done|by etrans].
Qed.

Lemma calls_made {A} (p : Prog C A) (Φ : A → list V → Prop) tr a : calls p Φ [] → made p tr a → Φ a tr.
Proof. intros Hp [l Hl]. exact (demonic_exec call_step p Φ _ _ _ _ Hp Hl). Qed.
End calls.

Ltac call_steps := repeat match goal with
  | |- calls _ (prog_bind _ _) _ _ => apply calls_bind
  | |- calls _ (trigger _) _ _ => apply calls_op; intros ?
  | |- calls _ (Ret _) _ _ => apply calls_ret
  | |- calls _ (match ?x with _ => _ end) _ _ => destruct x eqn:?
  | |- calls _ (if ?x then _ else _) _ _ => destruct x eqn:?
  end.

(** Two traces whose later one adds nothing [P] holds of. *)
Definition adds_none {V} (P : V → bool) (tr tr' : list V) : Prop := filter P tr' = filter P tr.

Lemma adds_none_snoc {V} (P : V → bool) tr tr' e :
  adds_none P tr tr' → P e = false → adds_none P tr (tr' ++ [e]).
Proof.
  unfold adds_none. intros H He. rewrite filter_app, H, filter_cons_False; [by rewrite filter_nil, app_nil_r|].
  rewrite He. by intros [].
Qed.

(** The contract: reuse adopts the very sandbox of the handle and creates none; a
    first start creates one, and just one, when it succeeds; nothing but [Destroy]
    ends a sandbox, and nothing but a first start creates one; [Wait] answers an
    exit code or a cancellation. *)
Class BackendLaws (B : Backend) := {
  Launch_reuse spec h tr r :
    H_ID h ≠ "" → made saw (Launch spec (Some h)) tr r → Forall documented tr →
    filter creates tr = [] ∧ filter destroys tr = [] ∧ (∀ h', r = inr h' → H_ID h' = H_ID h);
  Launch_fresh spec tr r :
    made saw (Launch spec None) tr r →
    (length (filter creates tr) ≤ 1)%nat ∧ filter destroys tr = [] ∧
    (∀ h', r = inr h' → length (filter creates tr) = 1%nat);
  Probe_looks h tr r : made saw (Probe h) tr r → filter creates tr = [] ∧ filter destroys tr = [];
  Signal_spares h tr r : made saw (Signal h) tr r → filter creates tr = [] ∧ filter destroys tr = [];
  Wait_watches fuel h tr r : made saw (Wait fuel h) tr r → filter creates tr = [] ∧ filter destroys tr = [];
  Destroy_ends h tr r : made saw (Destroy h) tr r → filter creates tr = [] }.

(** ** The runner on a lawful backend *)

Section runner.
Context `{BackendLaws}.
Context (serverURL : string) (workspaces : gmap string Workspace).
Context (ValidateWorkspace : Workspace → option string) (MarshalIndent : Config → string + string).

(** The runner's world, with the answers to [Launch] those of the backend. *)
Definition backed_step (R : Set) (op : Op R) (w : World) (r : R) (w' : World) : Prop :=
  world_step R op w r w' ∧
  match op in Op R return R → Prop with
  | OpLaunch spec reuse => λ r, ∃ tr, made saw (Launch spec reuse) tr r ∧ Forall documented tr
  | _ => λ _, True
  end r.

(** The sandbox a task is bound to, by its record. *)
Definition bound (taskID : Z) (id : string) (w : World) : Prop :=
  ∀ rec, sh_store w.1 !! taskID = Some rec → TR_ID rec = id.

Definition start (task : Task) : Program (option StartErr) :=
  Runner_Start serverURL workspaces ValidateWorkspace MarshalIndent task.

Lemma bound_other taskID id w w' : sh_store w'.1 = sh_store w.1 → bound taskID id w → bound taskID id w'.
Proof. intros E Hb rec. rewrite E. apply Hb. Qed.

Lemma backed_stronger {A} (p : Program A) (Φ : A → World → Prop) w :
  wp (demonic world_step) p Φ w → wp (demonic backed_step) p Φ w.
Proof.
  apply wp_stronger; [exact (demonic_mono backed_step)|].
  intros R op Ψ w0 Hd r w1 [Hs _]. by apply Hd.
Qed.

Lemma launch_bound task h s e :
  H_ID h ≠ "" → bound (Task_ID task) (H_ID h) (s, e) →
  wp (demonic backed_step) (launch serverURL workspaces ValidateWorkspace MarshalIndent task (Some h))
    (λ _ w, bound (Task_ID task) (H_ID h) w) (s, e).
Proof using H.
  intros Hid Hb. unfold launch. apply prog_wp_bind; [exact (demonic_mono backed_step)|].
  apply backed_stronger, spec_wp. intros [err|spec]; [exact Hb|].
  intros r [s1 e1] [[Hs _] (tr & Hl & Hdoc)]. cbn in Hs. subst s1.
  destruct (Launch_reuse spec h tr r Hid Hl Hdoc) as (_ & _ & Hsame).
  destruct r as [[|err]|h']; [|exact Hb|].
  - apply backed_stronger, gone_wp. intros s' Hd rec Hrec. cbn in Hrec.
    destruct Hd as [->| ->]; [by apply Hb|]. cbn in Hrec.
    by rewrite lookup_delete_eq in Hrec.
  - intros r2 [s2 e2] [[Hw _] _]. cbn in Hw. destruct Hw as [[-> ->]|(err & -> & ->)].
    + intros [] [s3 e3] [[Hs3 _] _]. cbn in Hs3. subst s3. intros rec. cbn. rewrite lookup_insert_eq.
      intros [= <-]. cbn. by apply Hsame.
    + intros [] [s3 e3] [[Hs3 _] _]. cbn in Hs3. subst s3. exact Hb.
Qed.

(** C27: one sandbox per task.  On a backend that keeps the contract, starting a
    task whose record names a sandbox leaves it with that sandbox or with no
    record: it is never continued in another one, whatever the runtime (as
    documented), the server and the disk answer. *)
Theorem start_keeps_sandbox (task : Task) (rec : TaskRecord) (s s' : Shared) (l : list {R : Set & (Op R * R)%type})
    (r : option StartErr) (e : list Effect) :
  sh_store s !! Task_ID task = Some rec → TR_ID rec ≠ "" →
  exec backed_step (start task) (s, []) l r (s', e) →
  sh_store s' !! Task_ID task = None ∨
  ∃ rec', sh_store s' !! Task_ID task = Some rec' ∧ TR_ID rec' = TR_ID rec.
Proof using H.
  intros Hrec Hid Hrun. set (h := handle_of rec).
  assert (Hb : ∀ e0, bound (Task_ID task) (H_ID h) (s, e0)).
  { intros e0 rec' Hr. cbn in Hr. rewrite Hrec in Hr. by injection Hr as <-. }
  assert (Hwp : wp (demonic backed_step) (start task) (λ _ w, bound (Task_ID task) (H_ID h) w) (s, [])).
  { unfold start, Runner_Start. apply prog_wp_bind; [exact (demonic_mono backed_step)|].
    apply backed_stronger, handle_wp; [intros err; apply Hb|]. rewrite Hrec. cbn [fmap option_fmap option_map].
    intros st [s1 e1] [[Hs _] _]. cbn in Hs. subst s1. destruct st as [err|[]].
    - apply Hb.
    - by apply launch_bound.
    - apply Hb.
    - by apply launch_bound.
    - apply backed_stronger, gone_wp. intros s1 Hd rec' Hr. cbn in Hr.
      destruct Hd as [->| ->]; [by eapply (Hb [])|]. cbn in Hr. by rewrite lookup_delete_eq in Hr. }
  pose proof (demonic_exec backed_step _ _ _ _ _ _ Hwp Hrun) as Hfin.
  destruct (sh_store s' !! Task_ID task) as [rec'|] eqn:E; [right|by left].
  exists rec'. split; [done|]. by apply Hfin.
Qed.
End runner.
