(* ===== verification/DockerBackend.v ===== *)
(** * The Docker backend

    Models [internal/runner/backend/docker/docker.go] and what it uses of
    [internal/x/dockerx]: containers created, adopted with their networks
    repaired, probed, killed, waited for and removed.  The daemon's answers are
    arbitrary; the backend keeps the contract of [Backend]. *)

From S2P Require Import Prelude AuthScope ScopeParse EventModel TaskModel.
From S2P Require Import Prog Workspace TaskState Runner RunnerSpec Backend.
From Stdlib Require Import Ascii.

Definition HandleType : string := "docker".

(** [workspace.Container]. *)
Record Container := mkContainer {
  CT_Image : string; CT_Runtime : string; CT_Privileged : bool; CT_WorkingDir : string; CT_User : string;
  CT_Volumes : list string; CT_Networks : list string; CT_NetworkMode : string; CT_GroupAdd : list string;
  CT_Environment : gmap string string }.

(** In the order the map is ranged over, here that of [map_to_list]. *)
Definition Environ (environment : gmap string string) : list string :=
  map (λ kv, kv.1 +:+ "=" +:+ kv.2) (map_to_list environment).

Definition Container_Validate (c : Container) : option string :=
  if String.eqb (CT_Image c) "" then Some "image is required" else None.

(** ** The daemon *)

(** The errors its client tells apart. *)
Inductive DockErr :=
| DockNotFound (msg : string)
| DockConflict (msg : string)
| DockDeadline
| DockErr_ (msg : string).

Definition DockErr_Error (e : DockErr) : string :=
  match e with
  | DockNotFound msg | DockConflict msg | DockErr_ msg => msg
  | DockDeadline => "context deadline exceeded"
  end.

(** [cerrdefs.IsNotFound]. *)
Definition isNotFound (e : DockErr) : bool := match e with DockNotFound _ => true | _ => false end.

(** [CI_Networks]: the network of each attachment's endpoint, which may lack one. *)
Record ContainerInfo := mkInfo {
  CI_ID : string; CI_Status : string; CI_Networks : option (gmap string (option string)) }.

(** What [ContainerCreate] is given. *)
Record ContainerConfig := mkConfig {
  CC_Name : string; CC_Labels : list (string * string); CC_Cmd : list string; CC_Env : list string;
  CC_Container : Container }.

(** A header of the archive, and the file's bytes. *)
Record TarEntry := mkTar { Tar_Name : string; Tar_Mode : Z; Tar_Dir : bool; Tar_Data : string }.

(** What the select of [Wait] received. *)
Inductive DockerWait := WaitDone | WaitErr (ctxErr : bool) | WaitStatus (code : Z).

Inductive DCall : Set → Type :=
| ContainerInspect (ref : string) : DCall (DockErr + ContainerInfo)%type
| ContainerStart (id : string) : DCall (option DockErr)
| NetworkInspect (name : string) : DCall (DockErr + string)%type
| NetworkDisconnect (name id : string) : DCall (option DockErr)
| NetworkConnect (name id : string) : DCall (option DockErr)
| ImageEnsure (ref : string) : DCall (DockErr + string)%type
| ReadBinary (arch : string) : DCall (string + string)%type
| ContainerCreate (cfg : ContainerConfig) : DCall (DockErr + string)%type
| CopyToContainer (id : string) (entries : list TarEntry) : DCall (option DockErr)
| ContainerKill_ (id signal : string) : DCall (option DockErr)
| ContainerStopped (id : string) : DCall (option DockErr)
| ContainerWait (id : string) : DCall DockerWait
| ContainerRemove (id : string) : DCall (option DockErr).

Abbreviation Docker := (Prog DCall).

Section docker.
Context (runnerID : string) (container_of : Workspace → Container).

Definition docker_ValidateWorkspace (ws : Workspace) : option string := Container_Validate (container_of ws).

(** ** Launching *)

Definition inspectID (ref : string) : Docker (string + option string) :=
  r ⟵ trigger (ContainerInspect ref) ;;
  Ret (match r with
       | inl err => if isNotFound err then inr None
                    else inl ("failed to inspect container: " +:+ DockErr_Error err)
       | inr info => inr (Some (CI_ID info))
       end).

(** [dockerx.isNotConnectedErr]. *)
Definition isNotConnectedErr (e : DockErr) : bool := Contains (DockErr_Error e) "is not connected".

(** The loop of [dockerx.RepairNetworks] over the names, with those repaired. *)
Fixpoint repair_networks (info : ContainerInfo) (containerID : string) (networks repaired : list string)
    : Docker (string + list string) :=
  match networks with
  | [] => Ret (inr repaired)
  | name :: networks =>
      r ⟵ trigger (NetworkInspect name) ;;
      match r with
      | inl err => Ret (inl ("inspect network " +:+ quoted name +:+ ": " +:+ DockErr_Error err))
      | inr live =>
          let endpoint := CI_Networks info ≫= lookup name in
          if match endpoint with Some (Some id) => String.eqb id live | _ => false end
          then repair_networks info containerID networks repaired
          else
            err ⟵ (if bool_decide (is_Some endpoint)
                   then trigger (NetworkDisconnect name containerID) else Ret None) ;;
            match err with
            | Some err =>
                if isNotConnectedErr err then
                  err ⟵ trigger (NetworkConnect name containerID) ;;
                  match err with
                  | Some err => Ret (inl ("connect " +:+ quoted name +:+ ": " +:+ DockErr_Error err))
                  | None => repair_networks info containerID networks (repaired ++ [name])
                  end
                else Ret (inl ("disconnect " +:+ quoted name +:+ ": " +:+ DockErr_Error err))
            | None =>
                err ⟵ trigger (NetworkConnect name containerID) ;;
                match err with
                | Some err => Ret (inl ("connect " +:+ quoted name +:+ ": " +:+ DockErr_Error err))
                | None => repair_networks info containerID networks (repaired ++ [name])
                end
            end
      end
  end.

Definition RepairNetworks (containerID : string) (networks : list string) : Docker (string + list string) :=
  match networks with
  | [] => Ret (inr [])
  | _ =>
      r ⟵ trigger (ContainerInspect containerID) ;;
      match r with
      | inl err => Ret (inl ("inspect container: " +:+ DockErr_Error err))
      | inr info => repair_networks info containerID networks []
      end
  end.

Definition adopt (spec : Spec) (containerID : string) : Docker (StartErr + string) :=
  r ⟵ RepairNetworks containerID (CT_Networks (container_of (Spec_Workspace spec))) ;;
  Ret (match r with
       | inl err => inl (StartErr_ ("failed to repair network attachment: " +:+ err))
       | inr _ => inr containerID
       end).

(** [strings.TrimPrefix(path, "/")]. *)
Definition trim_slash (path : string) : string :=
  match path with String "/"%char rest => rest | _ => path end.

Definition tar_entry (f : File) : TarEntry :=
  if F_Dir f then mkTar (trim_slash (F_Path f) +:+ "/") (F_Mode f) true ""
  else mkTar (trim_slash (F_Path f)) (F_Mode f) false (F_Data f).

Definition copyFiles (containerID : string) (files : list File) : Docker (option DockErr) :=
  trigger (CopyToContainer containerID (map tar_entry files)).

Definition container_config (spec : Spec) : ContainerConfig :=
  let wc := container_of (Spec_Workspace spec) in
  mkConfig ("gritz-" +:+ FormatInt (Spec_TaskID spec))
    [("gritz", "true"); ("gritz.task", FormatInt (Spec_TaskID spec)); ("gritz.runner", runnerID)]
    (Spec_Cmd spec) (Environ (CT_Environment wc) ++ Spec_Env spec) wc.

Definition create (spec : Spec) : Docker (StartErr + string) :=
  r ⟵ trigger (ImageEnsure (CT_Image (container_of (Spec_Workspace spec)))) ;;
  match r with
  | inl err => Ret (inl (StartErr_ ("failed to ensure image: " +:+ DockErr_Error err)))
  | inr arch =>
      r ⟵ trigger (ReadBinary arch) ;;
      match r with
      | inl err => Ret (inl (StartErr_ err))
      | inr binData =>
          r ⟵ trigger (ContainerCreate (container_config spec)) ;;
          match r with
          | inl err => Ret (inl (StartErr_ ("failed to create container: " +:+ DockErr_Error err)))
          | inr id =>
              err ⟵ copyFiles id (mkFile BinaryPath binData 493 false :: Spec_Files spec) ;;
              Ret (match err with
                   | Some err => inl (StartErr_ ("failed to copy files: " +:+ DockErr_Error err))
                   | None => inr id
                   end)
          end
      end
  end.

Definition ensure (spec : Spec) (reuse : option Handle) : Docker (StartErr + string) :=
  match reuse with
  | Some h =>
      if negb (String.eqb (H_ID h) "") then
        r ⟵ inspectID (H_ID h) ;;
        match r with
        | inl err => Ret (inl (StartErr_ err))
        | inr None => Ret (inl ErrGone)
        | inr (Some id) => adopt spec id
        end
      else create spec
  | None => create spec
  end.

Definition docker_Launch (spec : Spec) (reuse : option Handle) : Docker (StartErr + Handle) :=
  r ⟵ ensure spec reuse ;;
  match r with
  | inl err => Ret (inl err)
  | inr id =>
      err ⟵ trigger (ContainerStart id) ;;
      Ret (match err with
           | Some err => inl (StartErr_ ("failed to start container: " +:+ DockErr_Error err))
           | None => inr (mkHandle HandleType id "")
           end)
  end.

(** ** Watching and ending *)

Definition sandboxState (state : string) : SandboxState :=
  if String.eqb state "running" then StateRunning
  else if String.eqb state "exited" || String.eqb state "dead" then StateExited
  else StateUnknown.

Definition docker_Probe (h : Handle) : Docker (string + SandboxState) :=
  r ⟵ trigger (ContainerInspect (H_ID h)) ;;
  Ret (match r with
       | inl err => if isNotFound err then inr StateGone
                    else inl ("failed to inspect container: " +:+ DockErr_Error err)
       | inr info => inr (sandboxState (CI_Status info))
       end).

(** [dockerx.ErrNotRunning], and every other failure of a kill. *)
Inductive KillErr := ErrNotRunning | KillErr_ (err : DockErr).

(** [dockerx.ContainerKill]. *)
Definition ContainerKill (id signal : string) : Docker (option KillErr) :=
  err ⟵ trigger (ContainerKill_ id signal) ;;
  match err with
  | Some err =>
      Ret (Some (match err with
                 | DockConflict msg => if Contains msg "is not running" then ErrNotRunning else KillErr_ err
                 | _ => KillErr_ err
                 end))
  | None => err ⟵ trigger (ContainerStopped id) ;; Ret (option_map KillErr_ err)
  end.

(** The failures that mean there was nothing to kill. *)
Definition not_running (e : KillErr) : bool :=
  match e with ErrNotRunning => true | KillErr_ err => isNotFound err end.

Definition docker_Signal (h : Handle) : Docker (string + bool) :=
  err ⟵ ContainerKill (H_ID h) "SIGTERM" ;;
  match err with
  | None => Ret (inr true)
  | Some err =>
      if not_running err then Ret (inr false)
      else match err with
           | KillErr_ DockDeadline =>
               err ⟵ ContainerKill (H_ID h) "SIGKILL" ;;
               Ret (match err with
                    | Some (KillErr_ err) => if isNotFound err then inr true else inl (DockErr_Error err)
                    | _ => inr true
                    end)
           | KillErr_ err => Ret (inl (DockErr_Error err))
           | ErrNotRunning => Ret (inr false)
           end
  end.

Definition docker_Destroy (h : Handle) : Docker (option string) :=
  err ⟵ trigger (ContainerRemove (H_ID h)) ;;
  Ret (match err with
       | Some err => if isNotFound err then None
                     else Some ("failed to remove container: " +:+ DockErr_Error err)
       | None => None
       end).

Definition docker_Wait (_ : nat) (h : Handle) : Docker WaitResult :=
  r ⟵ trigger (ContainerWait (H_ID h)) ;;
  Ret (match r with
       | WaitDone | WaitErr true => Cancelled
       | WaitErr false => Stopped ExitLost
       | WaitStatus code => Stopped code
       end).

(** ** The contract *)

Definition DockerEvent : Type := {R : Set & (DCall R * R)%type}.

Definition docker_creates (e : DockerEvent) : bool :=
  match (projT2 e).1 in DCall R return R → bool with
  | ContainerCreate _ => λ r, match r with inr _ => true | inl _ => false end
  | _ => λ _, false
  end (projT2 e).2.

Definition docker_destroys (e : DockerEvent) : bool :=
  match (projT2 e).1 with ContainerRemove _ => true | _ => false end.

(** Inspecting a container by its id gives that container. *)
Definition docker_documented (e : DockerEvent) : bool :=
  match (projT2 e).1 in DCall R return R → bool with
  | ContainerInspect ref => λ r, match r with inr info => String.eqb (CI_ID info) ref | inl _ => true end
  | _ => λ _, true
  end (projT2 e).2.

#[export] Instance DockerBackend : Backend := {
  Call := DCall; Event := DockerEvent; saw := λ R op r, existT R (op, r);
  creates := docker_creates; destroys := docker_destroys; documented := docker_documented;
  Launch := docker_Launch; Probe := docker_Probe; Signal := docker_Signal; Destroy := docker_Destroy;
  Wait := docker_Wait }.

(** Calls that neither created nor removed a container. *)
Definition spares (tr tr' : list DockerEvent) : Prop :=
  adds_none docker_creates tr tr' ∧ adds_none docker_destroys tr tr'.

Lemma spares_snoc tr tr' e :
  spares tr tr' → docker_creates e = false → docker_destroys e = false → spares tr (tr' ++ [e]).
Proof. intros [Hc Hd] H1 H2. by split; apply adds_none_snoc. Qed.

Lemma repair_spares info id networks repaired tr0 tr :
  spares tr0 tr → calls (saw (Backend := DockerBackend)) (repair_networks info id networks repaired) (λ _, spares tr0) tr.
Proof.
  revert repaired tr. induction networks as [|name networks IH]; intros repaired tr Hs; [done|].
  cbn [repair_networks]. call_steps; try (repeat (apply spares_snoc; [|reflexivity|reflexivity]); exact Hs);
    apply IH; repeat (apply spares_snoc; [|reflexivity|reflexivity]); exact Hs.
Qed.

Ltac spared := repeat (apply spares_snoc; [|reflexivity|reflexivity]); first [assumption | done].

Lemma adopt_spares spec id tr0 tr :
  spares tr0 tr →
  calls (saw (Backend := DockerBackend)) (adopt spec id)
    (λ r tr', spares tr0 tr' ∧ ∀ id', r = inr id' → id' = id) tr.
Proof.
  intros Hs. unfold adopt, RepairNetworks. call_steps; try (split; [spared|naive_solver]).
  eapply calls_mono; [|apply repair_spares; spared].
  intros [err|repaired] tr' Hs'; (split; [exact Hs'|naive_solver]).
Qed.

Lemma docker_Launch_reuse spec h :
  H_ID h ≠ "" →
  calls (saw (Backend := DockerBackend)) (docker_Launch spec (Some h))
    (λ r tr, spares [] tr ∧ (Forall docker_documented tr → ∀ h', r = inr h' → H_ID h' = H_ID h)) [].
Proof.
  intros Hid. unfold docker_Launch, ensure. rewrite (proj2 (String.eqb_neq _ _) Hid). cbn [negb].
  unfold inspectID. call_steps; try (split; [spared|naive_solver]).
  eapply calls_mono; [|apply calls_prefix, (adopt_spares spec s []); spared].
  intros a tr' [[Hs Hid'] Hpre]. call_steps; (split; [spared|]); try naive_solver.
  intros Hdoc h' Hh. destruct r0; [done|]. injection Hh as <-. cbn. rewrite (Hid' _ eq_refl).
  destruct r as [err|info]; [by destruct (isNotFound err)|]. injection Heqs as <-.
  apply Forall_app in Hdoc as [Hdoc _]. destruct Hpre as [rest ->]. apply Forall_app in Hdoc as [Hdoc _].
  apply Forall_cons in Hdoc as [Hdoc _]. cbn in Hdoc. by apply Is_true_true, String.eqb_eq in Hdoc.
Qed.

(** A first start creates a container, or fails before. *)
Lemma docker_create_spec spec :
  calls (saw (Backend := DockerBackend)) (create spec)
    (λ r tr, adds_none docker_destroys [] tr ∧ (length (filter docker_creates tr) ≤ 1)%nat ∧
      ∀ id, r = inr id → length (filter docker_creates tr) = 1%nat) [].
Proof. unfold create, copyFiles. call_steps; (split; [reflexivity|]); (split; [vm_compute; lia|intros ? ?; first [discriminate|reflexivity]]). Qed.

Lemma docker_Launch_fresh spec :
  calls (saw (Backend := DockerBackend)) (docker_Launch spec None)
    (λ r tr, adds_none docker_destroys [] tr ∧ (length (filter docker_creates tr) ≤ 1)%nat ∧
      ∀ h, r = inr h → length (filter docker_creates tr) = 1%nat) [].
Proof.
  unfold docker_Launch, ensure. apply calls_bind. eapply calls_mono; [|apply docker_create_spec].
  intros r tr (Hd & Hc & Hone). call_steps; [naive_solver|].
  assert (He : ∀ r0, filter docker_creates (tr ++ [saw (option DockErr) (ContainerStart s) r0]) = filter docker_creates tr).
  { intros r1. by apply (adds_none_snoc docker_creates tr). }
  rewrite He. split; [by apply adds_none_snoc|]. split; [done|]. intros h _. by eapply Hone.
Qed.

Lemma kill_spares id signal tr0 tr :
  spares tr0 tr → calls (saw (Backend := DockerBackend)) (ContainerKill id signal) (λ _, spares tr0) tr.
Proof. intros Hs. unfold ContainerKill. call_steps; spared. Qed.

Lemma docker_Signal_spares h :
  calls (saw (Backend := DockerBackend)) (docker_Signal h) (λ _, spares []) [].
Proof.
  unfold docker_Signal. apply calls_bind. eapply calls_mono; [|by apply (kill_spares _ _ [])].
  intros r tr Hs. call_steps; try exact Hs.
  eapply calls_mono; [|by apply (kill_spares _ _ [])]. intros r' tr' Hs'. call_steps; exact Hs'.
Qed.

#[export] Instance docker_laws : BackendLaws DockerBackend.
Proof.
  split.
  - intros spec h tr r Hid Hm Hdoc.
    destruct (calls_made _ _ _ _ _ (docker_Launch_reuse spec h Hid) Hm) as [[Hc Hd] Hsame].
    split; [exact Hc|]. split; [exact Hd|auto].
  - intros spec tr r Hm. destruct (calls_made _ _ _ _ _ (docker_Launch_fresh spec) Hm) as (Hd & Hc & Hone).
    split; [exact Hc|]. split; [exact Hd|exact Hone].
  - intros h tr r Hm. refine (calls_made _ _ (λ _, spares []) _ _ _ Hm).
    cbn [Probe DockerBackend]. unfold docker_Probe. call_steps; spared.
  - intros h tr r Hm. exact (calls_made _ _ _ _ _ (docker_Signal_spares h) Hm).
  - intros fuel h tr r Hm. refine (calls_made _ _ (λ _, spares []) _ _ _ Hm).
    cbn [Wait DockerBackend]. unfold docker_Wait. call_steps; spared.
  - intros h tr r Hm. refine (calls_made _ _ (λ _, adds_none docker_creates []) _ _ _ Hm).
    cbn [Destroy DockerBackend]. unfold docker_Destroy. call_steps. by apply adds_none_snoc.
Qed.
End docker.
