(* ===== verification/MicrovmBackend.v ===== *)
(** * The MicroVM backend

    Models [internal/runner/backend/lambdamicrovm/lambdamicrovm.go]: launching,
    resuming, probing, stopping, destroying and waiting for a task's microVM over
    the control plane, the staging bucket and the event stream of the shim inside
    ([MicrovmShim]).  The cloud's answers are arbitrary; the backend keeps the
    contract of [Backend]. *)

From S2P Require Import Prelude AuthScope ScopeParse EventModel TaskModel Strconv.
From S2P Require Import Prog Workspace TaskState Runner RunnerSpec Backend DockerBackend Sse.
From Stdlib Require Import Ascii.

Definition mvm_HandleType : string := "lambda-microvm".
Definition shimPort : Z := 8080.
Definition lifecyclePath : string := "/gritz/lifecycle".
Definition stopPath : string := "/gritz/stop".
Definition EventDriverExited : string := "driver-exited".
Definition defaultMaxDuration : Z := 14400.
Definition tokenExpirationMinutes : Z := 60.

Definition allIngressConnector (region : string) : string :=
  "arn:aws:lambda:" +:+ region +:+ ":aws:network-connector:aws-network-connector:ALL_INGRESS".

(** [workspace.LambdaMicroVM]. *)
Record LambdaMicroVM := mkLambda {
  LM_ImageIdentifier : string; LM_ImageSource : string; LM_Region : string; LM_ExecutionRole : string;
  LM_EgressConnector : string; LM_IngressConnector : string; LM_StagingBucket : string;
  LM_MaxDurationSeconds : Z; LM_Environment : gmap string string }.

Record Bundle := mkBundle {
  Bundle_Cmd : list string; Bundle_Env : list string; Bundle_Files : list File;
  Bundle_WorkingDir : string; Bundle_User : string }.

Record handleData := mkHandleData {
  HD_Endpoint : string; HD_ImageARN : string; HD_StageBucket : string; HD_StageKey : string }.

(** [encoding/json] on them and on the payload of the exit event. *)
Class MicrovmJSON := {
  Marshal_Bundle : Bundle → string + string;
  Marshal_Data : handleData → string + string;
  Unmarshal_Data : string → option handleData;
  Marshal_Exited : Z → string;
  Unmarshal_Exited : string → option Z }.

Class MicrovmJSONLaws `{MicrovmJSON} := {
  Data_roundtrip hd raw : Marshal_Data hd = inr raw → raw ≠ "" ∧ Unmarshal_Data raw = Some hd;
  Data_marshals hd : ∃ raw, Marshal_Data hd = inr raw;
  Exited_roundtrip code : is_int64 code = true → Unmarshal_Exited (Marshal_Exited code) = Some code;
  Exited_on_line code : is_int64 code = true →
    one_line (Marshal_Exited code) = true ∧ fits "data" (Marshal_Exited code);
  Exited_nonempty code : Marshal_Exited code ≠ "" }.

(** ** The cloud *)

(** [awsmicrovm.MicrovmState]; the service may answer a state of its own. *)
Inductive MicrovmState :=
| MicrovmStatePending | MicrovmStateRunning | MicrovmStateSuspending | MicrovmStateSuspended
| MicrovmStateTerminating | MicrovmStateTerminated | MicrovmStateOther (name : string).

Record Microvm := mkMicrovm { MV_State : MicrovmState; MV_Endpoint : string }.

Record RunMicrovmInput := mkRunInput {
  RI_ImageIdentifier : string; RI_ExecutionRoleArn : string; RI_EgressNetworkConnectors : list string;
  RI_IngressNetworkConnectors : list string; RI_MaximumDurationInSeconds : Z; RI_RunHookPayload : string }.

Record RunMicrovmOutput := mkRunOutput { RO_MicrovmID : string; RO_Endpoint : string }.

(** A 404 of the control plane, and every other failure. *)
Inductive CloudErr := CloudNotFound (msg : string) | CloudErr_ (msg : string).

Definition CloudErr_Error (e : CloudErr) : string := match e with CloudNotFound msg | CloudErr_ msg => msg end.
Definition IsNotFound (e : CloudErr) : bool := match e with CloudNotFound _ => true | _ => false end.

(** The stream is given as its status and what arrives of its body until it ends
    or breaks; [CallAlive] and [CallSleep] say whether the context lives on. *)
Inductive VCall : Set → Type :=
| GetMicrovm (id : string) : VCall (CloudErr + Microvm)%type
| RunMicrovm (input : RunMicrovmInput) : VCall (CloudErr + RunMicrovmOutput)%type
| ResumeMicrovm (id : string) : VCall (option CloudErr)
| SuspendMicrovm (id : string) : VCall (option CloudErr)
| TerminateMicrovm (id : string) : VCall (option CloudErr)
| CreateMicrovmAuthToken (id : string) (minutes port : Z) : VCall (CloudErr + string)%type
| Stage (bucket key data : string) (ttl : Z) : VCall (string + string)%type
| Remove (bucket key : string) : VCall (option string)
| OpenStream (endpoint token path : string) : VCall (option (Z * string))
| PostStop (endpoint token path : string) : VCall (string + option Z)%type
| CallAlive : VCall bool
| CallSleep (d : Z) : VCall bool.

Abbreviation Cloud := (Prog VCall).

Section microvm.
Context {MJ : MicrovmJSON} (runnerID region : string) (lambda_of : Workspace → option LambdaMicroVM).

Definition mvm_ValidateWorkspace (ws : Workspace) : option string :=
  match lambda_of ws with
  | None => Some "lambda_microvm config is required"
  | Some cfg =>
      if String.eqb (LM_ImageIdentifier cfg) "" then Some "lambda_microvm.image_identifier is required"
      else if String.eqb (LM_ExecutionRole cfg) "" then Some "lambda_microvm.execution_role is required"
      else if String.eqb (LM_EgressConnector cfg) "" then Some "lambda_microvm.egress_connector is required"
      else if String.eqb (LM_StagingBucket cfg) "" then Some "lambda_microvm.staging_bucket is required"
      else if (LM_MaxDurationSeconds cfg <? 0) || (28800 <? LM_MaxDurationSeconds cfg)
      then Some "lambda_microvm.max_duration_seconds must be in (0, 28800]"
      else if negb (String.eqb (LM_Region cfg) "") && negb (String.eqb region "") &&
              negb (String.eqb (LM_Region cfg) region)
      then Some ("lambda_microvm.region " +:+ quoted (LM_Region cfg) +:+ " does not match runner region " +:+
                 quoted region +:+ " (multi-region is unsupported)")
      else None
  end.

Definition decodeData (raw : string) : option handleData :=
  if String.eqb raw "" then None else Unmarshal_Data raw.

(** ** Launching *)

(** [tryResume]: [None] when the VM is gone. *)
Definition tryResume (reuse : Handle) : Cloud (string + option Handle) :=
  r ⟵ trigger (GetMicrovm (H_ID reuse)) ;;
  match r with
  | inl err =>
      if IsNotFound err then Ret (inr None) else Ret (inl ("get microvm for resume: " +:+ CloudErr_Error err))
  | inr mvm =>
      let hd := default (mkHandleData "" "" "" "") (decodeData (H_Data reuse)) in
      let hd := if String.eqb (MV_Endpoint mvm) "" then hd
                else mkHandleData (MV_Endpoint mvm) (HD_ImageARN hd) (HD_StageBucket hd) (HD_StageKey hd) in
      let adopted :=
        match Marshal_Data hd with
        | inl err => inl ("marshal handle data: " +:+ err)
        | inr data => inr (Some (mkHandle mvm_HandleType (H_ID reuse) data))
        end in
      match MV_State mvm with
      | MicrovmStateRunning | MicrovmStatePending => Ret adopted
      | MicrovmStateSuspended =>
          err ⟵ trigger (ResumeMicrovm (H_ID reuse)) ;;
          match err with
          | Some err => Ret (inl ("resume microvm: " +:+ CloudErr_Error err))
          | None => Ret adopted
          end
      | _ => Ret (inr None)
      end
  end.

Definition stageKey (taskID : Z) : string := runnerID +:+ "/" +:+ FormatInt taskID +:+ ".json".

Definition spec_bundle (cfg : LambdaMicroVM) (spec : Spec) : Bundle :=
  mkBundle (Spec_Cmd spec) (Environ (LM_Environment cfg) ++ Spec_Env spec) (Spec_Files spec) "" "".

Definition run_input (cfg : LambdaMicroVM) (url : string) : RunMicrovmInput :=
  mkRunInput (LM_ImageIdentifier cfg) (LM_ExecutionRole cfg) [LM_EgressConnector cfg]
    [or_string (LM_IngressConnector cfg) (allIngressConnector region)]
    (or_int (LM_MaxDurationSeconds cfg) defaultMaxDuration) url.

Definition launchFresh (cfg : LambdaMicroVM) (spec : Spec) : Cloud (StartErr + Handle) :=
  match Marshal_Bundle (spec_bundle cfg spec) with
  | inl err => Ret (inl (StartErr_ ("marshal bundle: " +:+ err)))
  | inr data =>
      let bucket := LM_StagingBucket cfg in
      let key := stageKey (Spec_TaskID spec) in
      r ⟵ trigger (Stage bucket key data (or_int (LM_MaxDurationSeconds cfg) defaultMaxDuration)) ;;
      match r with
      | inl err => Ret (inl (StartErr_ ("stage bundle: " +:+ err)))
      | inr url =>
          r ⟵ trigger (RunMicrovm (run_input cfg url)) ;;
          match r with
          | inl err =>
              trigger (Remove bucket key) ;;; Ret (inl (StartErr_ ("run microvm: " +:+ CloudErr_Error err)))
          | inr res =>
              Ret (match Marshal_Data (mkHandleData (RO_Endpoint res) (LM_ImageIdentifier cfg) bucket key) with
                   | inl err => inl (StartErr_ ("marshal handle data: " +:+ err))
                   | inr hd => inr (mkHandle mvm_HandleType (RO_MicrovmID res) hd)
                   end)
          end
      end
  end.

Definition mvm_Launch (spec : Spec) (reuse : option Handle) : Cloud (StartErr + Handle) :=
  match mvm_ValidateWorkspace (Spec_Workspace spec), lambda_of (Spec_Workspace spec) with
  | Some err, _ => Ret (inl (StartErr_ err))
  | None, None => Ret (inl (StartErr_ ""))
  | None, Some cfg =>
      match reuse with
      | Some h =>
          if negb (String.eqb (H_ID h) "") then
            r ⟵ tryResume h ;;
            Ret (match r with
                 | inl err => inl (StartErr_ err)
                 | inr None => inl ErrGone
                 | inr (Some h) => inr h
                 end)
          else launchFresh cfg spec
      | None => launchFresh cfg spec
      end
  end.

(** ** Probing, stopping and destroying *)

Definition microvm_state (st : MicrovmState) : SandboxState :=
  match st with
  | MicrovmStateRunning | MicrovmStatePending => StateRunning
  | MicrovmStateTerminating | MicrovmStateTerminated => StateGone
  | _ => StateExited
  end.

Definition mvm_Probe (h : Handle) : Cloud (string + SandboxState) :=
  r ⟵ trigger (GetMicrovm (H_ID h)) ;;
  Ret (match r with
       | inl err => if IsNotFound err then inr StateGone else inl ("get microvm: " +:+ CloudErr_Error err)
       | inr mvm => inr (microvm_state (MV_State mvm))
       end).

Definition mintToken (id : string) : Cloud (CloudErr + string) :=
  trigger (CreateMicrovmAuthToken id tokenExpirationMinutes shimPort).

(** [PostStop] fails before the request is sent, or answers the status, if any
    came. *)
Definition mvm_Signal (h : Handle) : Cloud (string + bool) :=
  match decodeData (H_Data h) with
  | None => Ret (inr false)
  | Some hd =>
      if String.eqb (HD_Endpoint hd) "" then Ret (inr false)
      else
        r ⟵ mintToken (H_ID h) ;;
        match r with
        | inl err => Ret (if IsNotFound err then inr false
                          else inl ("mint auth token: " +:+ CloudErr_Error err))
        | inr token =>
            r ⟵ trigger (PostStop (HD_Endpoint hd) token stopPath) ;;
            Ret (match r with
                 | inl err => inl err
                 | inr None => inr false
                 | inr (Some status) =>
                     if status / 100 =? 2 then inr true else inl ("stop returned status " +:+ FormatInt status)
                 end)
        end
  end.

Definition mvm_Destroy (h : Handle) : Cloud (option string) :=
  err ⟵ trigger (TerminateMicrovm (H_ID h)) ;;
  match err with
  | Some err =>
      if IsNotFound err then
        match decodeData (H_Data h) with
        | Some hd => trigger (Remove (HD_StageBucket hd) (HD_StageKey hd)) ;;; Ret None
        | None => Ret None
        end
      else Ret (Some ("terminate microvm: " +:+ CloudErr_Error err))
  | None =>
      match decodeData (H_Data h) with
      | Some hd => trigger (Remove (HD_StageBucket hd) (HD_StageKey hd)) ;;; Ret None
      | None => Ret None
      end
  end.

(** ** Waiting *)

(** The loop of [readStream] over what arrives of the body: the exit code of the
    first exit event, if one comes whole. *)
Fixpoint read_exit (fuel : nat) (body : string) : option (option Z) :=
  match fuel with
  | O => None
  | S fuel =>
      match Sse_Read body with
      | ReadError => Some None
      | ReadEvent ev rest =>
          if String.eqb (Sse_Event ev) "" && String.eqb (Sse_Data ev) "" then Some None
          else if String.eqb (Sse_Event ev) EventDriverExited
          then Some (Some (default (-1) (Unmarshal_Exited (Sse_Data ev))))
          else read_exit fuel rest
      end
  end.

Definition stream_exit (body : string) : option Z := default None (read_exit (S (String.length body)) body).

(** What [readStream] makes of the response. *)
Definition readStream (resp : option (Z * string)) : option Z :=
  match resp with
  | Some (status, body) => if status =? 200 then stream_exit body else None
  | None => None
  end.

(** [arbitrate]: an outcome, or the endpoint to go on with. *)
Definition arbitrate (id endpoint : string) : Cloud (Z + string) :=
  r ⟵ trigger (GetMicrovm id) ;;
  Ret (match r with
       | inl err => if IsNotFound err then inl ExitLost else inr endpoint
       | inr mvm =>
           match MV_State mvm with
           | MicrovmStateRunning | MicrovmStatePending =>
               inr (if String.eqb (MV_Endpoint mvm) "" then endpoint else MV_Endpoint mvm)
           | _ => inl ExitLost
           end
       end).

(** The backoff, in nanoseconds. *)
Definition first_backoff : Z := 500 * 10 ^ 6.
Definition max_backoff : Z := 30 * 10 ^ 9.
Definition next_backoff (d : Z) : Z := if max_backoff <? 2 * d then max_backoff else 2 * d.

Fixpoint wait_loop (fuel : nat) (id endpoint : string) (backoff : Z) : Cloud WaitResult :=
  match fuel with
  | O => Ret StillWaiting
  | S fuel =>
      alive ⟵ trigger CallAlive ;;
      if negb alive then Ret Cancelled
      else
        let again d :=
          a ⟵ arbitrate id endpoint ;;
          match a with
          | inl code => Ret (Stopped code)
          | inr endpoint =>
              alive ⟵ trigger (CallSleep d) ;;
              if negb alive then Ret Cancelled else wait_loop fuel id endpoint (next_backoff d)
          end in
        r ⟵ mintToken id ;;
        match r with
        | inl err => if IsNotFound err then Ret (Stopped ExitLost) else again backoff
        | inr token =>
            resp ⟵ trigger (OpenStream endpoint token lifecyclePath) ;;
            match readStream resp with
            | Some code => trigger (SuspendMicrovm id) ;;; Ret (Stopped code)
            | None => again first_backoff
            end
        end
  end.

Definition mvm_Wait (fuel : nat) (h : Handle) : Cloud WaitResult :=
  wait_loop fuel (H_ID h) (from_option HD_Endpoint "" (decodeData (H_Data h))) first_backoff.

(** ** The contract *)

Definition MicrovmEvent : Type := {R : Set & (VCall R * R)%type}.

Definition mvm_saw (R : Set) (op : VCall R) (r : R) : MicrovmEvent := existT R (op, r).

Definition mvm_creates (e : MicrovmEvent) : bool :=
  match (projT2 e).1 in VCall R return R → bool with
  | RunMicrovm _ => λ r, match r with inr _ => true | inl _ => false end
  | _ => λ _, false
  end (projT2 e).2.

Definition mvm_destroys (e : MicrovmEvent) : bool :=
  match (projT2 e).1 with TerminateMicrovm _ => true | _ => false end.

#[export] Instance MicrovmBackend : Backend := {
  Call := VCall; Event := MicrovmEvent; saw := mvm_saw;
  creates := mvm_creates; destroys := mvm_destroys; documented := λ _, true;
  Launch := mvm_Launch; Probe := mvm_Probe; Signal := mvm_Signal; Destroy := mvm_Destroy;
  Wait := mvm_Wait }.

Definition mvm_spares (tr tr' : list MicrovmEvent) : Prop :=
  adds_none mvm_creates tr tr' ∧ adds_none mvm_destroys tr tr'.

Lemma mvm_spares_snoc tr tr' e :
  mvm_spares tr tr' → mvm_creates e = false → mvm_destroys e = false → mvm_spares tr (tr' ++ [e]).
Proof. intros [Hc Hd] H1 H2. by split; apply adds_none_snoc. Qed.

Ltac spared := repeat (apply mvm_spares_snoc; [|reflexivity|reflexivity]); first [assumption | done].

Lemma tryResume_spares reuse :
  calls mvm_saw (tryResume reuse)
    (λ r tr, mvm_spares [] tr ∧ ∀ h, r = inr (Some h) → H_ID h = H_ID reuse) [].
Proof.
  unfold tryResume. call_steps; (split; [spared|]); intros h Hh; try discriminate Hh;
    destruct (Marshal_Data _); try discriminate Hh; by injection Hh as <-.
Qed.

(** ** What a wait comes to *)

(** A call that only looks, at this VM, and a pause that is not too long. *)
Definition watching (id : string) (e : MicrovmEvent) : Prop :=
  match (projT2 e).1 in VCall R return R → Prop with
  | GetMicrovm i | CreateMicrovmAuthToken i _ _ => λ _, i = id
  | OpenStream _ _ _ => λ resp, readStream resp = None
  | CallAlive => λ _, True
  | CallSleep d => λ _, first_backoff ≤ d ≤ max_backoff
  | _ => λ _, False
  end (projT2 e).2.

(** The control plane's word that the VM does not run. *)
Definition reported_lost (id : string) (e : MicrovmEvent) : Prop :=
  match (projT2 e).1 in VCall R return R → Prop with
  | GetMicrovm i => λ r, i = id ∧
      match r with
      | inl err => IsNotFound err = true
      | inr mvm => microvm_state (MV_State mvm) ≠ StateRunning
      end
  | CreateMicrovmAuthToken i _ _ => λ r, i = id ∧ ∃ err, r = inl err ∧ IsNotFound err = true
  | _ => λ _, False
  end (projT2 e).2.

(** The context's end. *)
Definition context_ended (e : MicrovmEvent) : Prop :=
  match (projT2 e).1 in VCall R return R → Prop with
  | CallAlive | CallSleep _ => λ alive, alive = false
  | _ => λ _, False
  end (projT2 e).2.

Definition waited (id : string) (r : WaitResult) (tr : list MicrovmEvent) : Prop :=
  match r with
  | StillWaiting => Forall (watching id) tr
  | Cancelled => ∃ tr1 e, tr = tr1 ++ [e] ∧ Forall (watching id) tr1 ∧ context_ended e
  | Stopped code => ∃ tr1, Forall (watching id) tr1 ∧
      ((∃ endpoint token resp err, readStream resp = Some code ∧
          tr = tr1 ++ [mvm_saw _ (OpenStream endpoint token lifecyclePath) resp;
                       mvm_saw _ (SuspendMicrovm id) err]) ∨
       (code = ExitLost ∧ ∃ e, tr = tr1 ++ [e] ∧ reported_lost id e))
  end.

Lemma Forall_snoc_2 {A} (P : A → Prop) l x : Forall P l → P x → Forall P (l ++ [x]).
Proof. intros H Hx. apply Forall_app. by split; [|constructor]. Qed.

Lemma next_backoff_range d : first_backoff ≤ d ≤ max_backoff → first_backoff ≤ next_backoff d ≤ max_backoff.
Proof. unfold next_backoff, first_backoff, max_backoff. intros H. case_match eqn:E; apply Z.ltb_lt in E || apply Z.ltb_ge in E; lia. Qed.

(** What follows a token that was not minted or a stream that dropped. *)
Lemma again_waited fuel id endpoint d tr :
  (∀ endpoint d tr, Forall (watching id) tr → first_backoff ≤ d ≤ max_backoff →
     calls mvm_saw (wait_loop fuel id endpoint d) (waited id) tr) →
  Forall (watching id) tr → first_backoff ≤ d ≤ max_backoff →
  calls mvm_saw
    (a ⟵ arbitrate id endpoint ;;
     match a with
     | inl code => Ret (Stopped code)
     | inr endpoint =>
         alive ⟵ trigger (CallSleep d) ;;
         if negb alive then Ret Cancelled else wait_loop fuel id endpoint (next_backoff d)
     end) (waited id) tr.
Proof.
  intros IH Htr Hd. unfold arbitrate. apply calls_bind, calls_bind, calls_op. intros r.
  assert (Htr1 : Forall (watching id) (tr ++ [mvm_saw _ (GetMicrovm id) r])) by by apply Forall_snoc_2.
  assert (Hgo : ∀ ep, calls mvm_saw (alive ⟵ trigger (CallSleep d) ;;
    if negb alive then Ret Cancelled else wait_loop fuel id ep (next_backoff d)) (waited id)
    (tr ++ [mvm_saw _ (GetMicrovm id) r])).
  { intros ep. apply calls_bind, calls_op. intros [|]; cbn [negb].
    - apply IH; [by apply Forall_snoc_2|by apply next_backoff_range].
    - eexists _, _. split; [reflexivity|]. by split. }
  apply calls_ret. destruct r as [err|mvm].
  - destruct (IsNotFound err) eqn:E; [|apply Hgo]. exists tr. split; [done|]. right. split; [done|].
    eexists. split; [reflexivity|]. by split.
  - destruct (MV_State mvm) eqn:E; try apply Hgo; (exists tr; split; [done|]; right; split; [done|];
      eexists; split; [reflexivity|]; split; [done|]; cbn; by rewrite E).
Qed.

Lemma wait_loop_waited fuel id endpoint d tr :
  Forall (watching id) tr → first_backoff ≤ d ≤ max_backoff →
  calls mvm_saw (wait_loop fuel id endpoint d) (waited id) tr.
Proof.
  revert endpoint d tr. induction fuel as [|fuel IH]; intros endpoint d tr Htr Hd; [done|].
  cbn [wait_loop]. apply calls_bind, calls_op. intros [|]; cbn [negb].
  2: { eexists _, _. split; [reflexivity|]. by split. }
  assert (Htr1 : Forall (watching id) (tr ++ [mvm_saw _ CallAlive true])) by by apply Forall_snoc_2.
  revert Htr1. generalize (tr ++ [mvm_saw _ CallAlive true]). clear tr Htr. intros tr Htr.
  unfold mintToken. apply calls_bind, calls_op. intros [err|token].
  - destruct (IsNotFound err) eqn:E.
    + exists tr. split; [done|]. right. split; [done|]. eexists. split; [reflexivity|]. split; [done|]. by exists err.
    + apply again_waited; [exact IH|by apply Forall_snoc_2|done].
  - set (tr1 := tr ++ _). assert (Htr1 : Forall (watching id) tr1) by by apply Forall_snoc_2.
    apply calls_bind, calls_op. intros resp. destruct (readStream resp) as [code|] eqn:E.
    + apply calls_bind, calls_op. intros err. exists tr1. split; [done|]. left.
      exists endpoint, token, resp, err. split; [done|]. by rewrite <- app_assoc.
    + apply again_waited; [exact IH|by apply Forall_snoc_2|]. unfold first_backoff, max_backoff. lia.
Qed.

(** What a wait comes to.  Until it returns it only looks: it mints tokens for
    its VM, reads the stream, asks the control plane about its VM and pauses between
    half a second and half a minute.  It suspends the VM just when an exit event has
    come whole off the stream, and returns that event's code; it returns a lost exit
    just on the control plane's word that the VM is gone or does not run; and it
    returns without a code just when its context has ended, leaving the VM as it
    is. *)
Theorem microvm_wait (fuel : nat) (h : Handle) (tr : list MicrovmEvent) (r : WaitResult) :
  made mvm_saw (mvm_Wait fuel h) tr r → waited (H_ID h) r tr.
Proof.
  apply (calls_made _ (mvm_Wait fuel h) (waited (H_ID h))). apply wait_loop_waited; [constructor|].
  unfold first_backoff, max_backoff. lia.
Qed.

Lemma watching_spares id tr : Forall (watching id) tr → mvm_spares [] tr.
Proof.
  intros H. induction tr as [|e tr IH] using rev_ind; [done|]. apply Forall_app in H as [H He].
  apply Forall_cons in He as [He _]. destruct e as [R [op r]]. cbn in He.
  apply mvm_spares_snoc; [by apply IH|by destruct op|by destruct op].
Qed.

Lemma waited_spares id r tr : waited id r tr → mvm_spares [] tr.
Proof.
  destruct r as [| |code]; cbn [waited].
  - apply watching_spares.
  - intros (tr1 & [R [op r]] & -> & H & He). apply mvm_spares_snoc; [by eapply watching_spares|by destruct op..].
  - intros (tr1 & H & [(ep & token & resp & err & _ & ->)|(_ & [R [op r]] & -> & He)]).
    + change [?a; ?b] with ([a] ++ [b]). rewrite app_assoc.
      apply mvm_spares_snoc; [|done..]. apply mvm_spares_snoc; [by eapply watching_spares|done..].
    + apply mvm_spares_snoc; [by eapply watching_spares|by destruct op..].
Qed.

(** ** Launching and destroying *)

(** The handle of a first launch: the VM that was run, and where its bundle is. *)
Definition launched (cfg : LambdaMicroVM) (spec : Spec) (h : Handle) (tr : list MicrovmEvent) : Prop :=
  ∃ data url res, Marshal_Bundle (spec_bundle cfg spec) = inr data ∧
    tr = [mvm_saw _ (Stage (LM_StagingBucket cfg) (stageKey (Spec_TaskID spec)) data
                       (or_int (LM_MaxDurationSeconds cfg) defaultMaxDuration)) (inr url);
          mvm_saw _ (RunMicrovm (run_input cfg url)) (inr res)] ∧
    H_ID h = RO_MicrovmID res ∧
    decodeData (H_Data h) = Some (mkHandleData (RO_Endpoint res) (LM_ImageIdentifier cfg)
      (LM_StagingBucket cfg) (stageKey (Spec_TaskID spec))).

(** A first launch that failed ran no VM and leaves no bundle behind, unless
    removing it failed. *)
Definition not_launched (cfg : LambdaMicroVM) (spec : Spec) (tr : list MicrovmEvent) : Prop :=
  let bucket := LM_StagingBucket cfg in
  let key := stageKey (Spec_TaskID spec) in
  tr = [] ∨
  (∃ data ttl err, tr = [mvm_saw _ (Stage bucket key data ttl) (inl err)]) ∨
  (∃ data ttl url err e, tr = [mvm_saw _ (Stage bucket key data ttl) (inr url);
     mvm_saw _ (RunMicrovm (run_input cfg url)) (inl err); mvm_saw _ (Remove bucket key) e]).

Lemma launchFresh_spec {ML : MicrovmJSONLaws} cfg spec :
  calls mvm_saw (launchFresh cfg spec)
    (λ r tr, match r with inr h => launched cfg spec h tr | inl _ => not_launched cfg spec tr end) [].
Proof.
  unfold launchFresh. destruct (Marshal_Bundle _) as [err|data] eqn:Hb; [by left|].
  apply calls_bind, calls_op. intros [err|url]; [right; left; by eexists _, _, _|].
  apply calls_bind, calls_op. intros [err|res].
  - apply calls_bind, calls_op. intros e. right. right. by eexists _, _, _, _, _.
  - apply calls_ret. destruct (Data_marshals (mkHandleData (RO_Endpoint res) (LM_ImageIdentifier cfg)
      (LM_StagingBucket cfg) (stageKey (Spec_TaskID spec)))) as [raw Hraw]. rewrite Hraw.
    exists data, url, res. split; [done|]. split; [reflexivity|]. split; [done|].
    apply Data_roundtrip in Hraw as [Hne Hdec]. unfold decodeData. cbn [H_Data].
    by rewrite (proj2 (String.eqb_neq _ _) Hne).
Qed.

(** What destroying it comes to. *)
Definition destroyed (cfg : LambdaMicroVM) (spec : Spec) (h : Handle) (err : option string)
    (tr : list MicrovmEvent) : Prop :=
  match err with
  | None => ∃ e e', (e = None ∨ ∃ msg, e = Some (CloudNotFound msg)) ∧
      tr = [mvm_saw _ (TerminateMicrovm (H_ID h)) e;
            mvm_saw _ (Remove (LM_StagingBucket cfg) (stageKey (Spec_TaskID spec))) e']
  | Some _ => ∃ msg, tr = [mvm_saw _ (TerminateMicrovm (H_ID h)) (Some (CloudErr_ msg))]
  end.

Lemma Destroy_spec cfg spec h tr0 :
  launched cfg spec h tr0 → calls mvm_saw (mvm_Destroy h) (destroyed cfg spec h) [].
Proof.
  intros (data & url & res & _ & _ & _ & Hdec). unfold mvm_Destroy.
  rewrite Hdec. apply calls_bind, calls_op. intros [[msg|msg]|]; cbn [IsNotFound].
  - apply calls_bind, calls_op. intros e'. exists (Some (CloudNotFound msg)), e'. split; [right; by exists msg|done].
  - by exists msg.
  - apply calls_bind, calls_op. intros e'. exists None, e'. split; [by left|done].
Qed.

(** What a first launch sets up, destroying undoes.  A launch that succeeds
    staged the spec's bundle and ran one VM with it; destroying the handle it
    returned terminates that VM and removes that bundle, and fails only when the
    VM is neither terminated nor gone.  A launch that fails ran no VM and removed
    what it had staged. *)
Theorem destroy_undoes_launch {ML : MicrovmJSONLaws} (cfg : LambdaMicroVM) (spec : Spec)
    (tr : list MicrovmEvent) (r : StartErr + Handle) :
  made mvm_saw (launchFresh cfg spec) tr r →
  match r with
  | inl _ => not_launched cfg spec tr
  | inr h => launched cfg spec h tr ∧
      ∀ tr' err, made mvm_saw (mvm_Destroy h) tr' err → destroyed cfg spec h err tr'
  end.
Proof.
  intros Hm. pose proof (calls_made _ _ _ _ _ (launchFresh_spec cfg spec) Hm) as H.
  destruct r as [err|h]; [exact H|]. split; [exact H|]. intros tr' err Hd.
  exact (calls_made _ _ _ _ _ (Destroy_spec cfg spec h tr H) Hd).
Qed.

(** ** The backend keeps the contract *)

Lemma mvm_Launch_cases spec :
  ∃ err, (∀ reuse, mvm_Launch spec reuse = Ret (inl (StartErr_ err))) ∨
  ∃ cfg, (∀ h, H_ID h ≠ "" → mvm_Launch spec (Some h) =
    (r ⟵ tryResume h ;;
     Ret (match r with inl err => inl (StartErr_ err) | inr None => inl ErrGone | inr (Some h) => inr h end))) ∧
    mvm_Launch spec None = launchFresh cfg spec.
Proof.
  unfold mvm_Launch. destruct (mvm_ValidateWorkspace _) as [err|] eqn:E; [exists err; by left|].
  destruct (lambda_of _) as [cfg|]; [|exists ""; by left]. exists "". right. exists cfg. split; [|done].
  intros h Hid. by rewrite (proj2 (String.eqb_neq _ _) Hid).
Qed.

#[export] Instance mvm_laws {ML : MicrovmJSONLaws} : BackendLaws MicrovmBackend.
Proof.
  split.
  - intros spec h tr r Hid Hm _.
    assert (H : calls mvm_saw (mvm_Launch spec (Some h))
      (λ r tr, mvm_spares [] tr ∧ ∀ h', r = inr h' → H_ID h' = H_ID h) []).
    { destruct (mvm_Launch_cases spec) as [err [Herr|(cfg & Hreuse & _)]]; [by rewrite Herr|].
      rewrite Hreuse by done. apply calls_bind. eapply calls_mono; [|apply tryResume_spares].
      intros [e|[h'|]] tr' [Hs Hh]; (split; [exact Hs|]); try done. intros h2 [= <-]. by apply Hh. }
    destruct (calls_made _ _ _ _ _ H Hm) as [[Hc Hd] Hsame]. by split_and!.
  - intros spec tr r Hm. destruct (mvm_Launch_cases spec) as [err [Herr|(cfg & _ & Hfresh)]].
    { cbn [Launch MicrovmBackend] in Hm. rewrite Herr in Hm. destruct Hm as [l (-> & _ & ->)]. by split_and!; [cbn; lia| |]. }
    cbn [Launch MicrovmBackend] in Hm. rewrite Hfresh in Hm.
    pose proof (calls_made _ _ _ _ _ (launchFresh_spec cfg spec) Hm) as H. destruct r as [err'|h].
    + assert (Hs : mvm_spares [] tr).
      { destruct H as [->|[(d & t & e & ->)|(d & t & u & e & e' & ->)]]; [done|by split|by split]. }
      destruct Hs as [Hc Hd]. unfold adds_none in *. rewrite filter_nil in *.
      assert (Hlen : length (filter mvm_creates tr) = 0%nat) by exact (f_equal length Hc).
      split; [exact (Nat.le_trans _ _ _ (Nat.eq_le_incl _ _ Hlen) (Nat.le_0_l 1))|]. by split.
    + destruct H as (d & u & res & _ & -> & _). by split_and!; [vm_compute; lia| |].
  - intros h tr r Hm. refine (calls_made mvm_saw (mvm_Probe h) (λ _, mvm_spares []) _ _ _ Hm).
    unfold mvm_Probe. call_steps; spared.
  - intros h tr r Hm. refine (calls_made mvm_saw (mvm_Signal h) (λ _, mvm_spares []) _ _ _ Hm).
    unfold mvm_Signal, mintToken. call_steps; spared.
  - intros fuel h tr r Hm. eapply waited_spares. refine (calls_made mvm_saw (mvm_Wait fuel h) (waited (H_ID h)) _ _ _ Hm).
    apply wait_loop_waited; [constructor|]. unfold first_backoff, max_backoff. lia.
  - intros h tr r Hm. refine (calls_made mvm_saw (mvm_Destroy h) (λ _, adds_none mvm_creates []) _ _ _ Hm).
    unfold mvm_Destroy. call_steps; repeat (apply adds_none_snoc; [|reflexivity]); done.
Qed.

(** A VM that is still suspending is an exited sandbox to [Probe] and a lost one to
    [Launch]: a task woken in that moment loses its sandbox, and the runner, which
    drops the record, will never terminate it. *)
Lemma suspending_loses_sandbox (spec : Spec) (h : Handle) (cfg : LambdaMicroVM) (endpoint : string) :
  lambda_of (Spec_Workspace spec) = Some cfg → mvm_ValidateWorkspace (Spec_Workspace spec) = None → H_ID h ≠ "" →
  made mvm_saw (mvm_Probe h)
    [mvm_saw _ (GetMicrovm (H_ID h)) (inr (mkMicrovm MicrovmStateSuspending endpoint))] (inr StateExited) ∧
  made mvm_saw (mvm_Launch spec (Some h))
    [mvm_saw _ (GetMicrovm (H_ID h)) (inr (mkMicrovm MicrovmStateSuspending endpoint))] (inl ErrGone).
Proof.
  intros Hcfg Hv Hid. set (answer := inr (mkMicrovm MicrovmStateSuspending endpoint) : CloudErr + Microvm). split.
  - exists [existT _ (GetMicrovm (H_ID h), answer)], answer, [mvm_saw _ (GetMicrovm (H_ID h)) answer], [].
    by split_and!.
  - unfold mvm_Launch. rewrite Hv, Hcfg, (proj2 (String.eqb_neq _ _) Hid). cbn [negb].
    exists [existT _ (GetMicrovm (H_ID h), answer)], answer, [mvm_saw _ (GetMicrovm (H_ID h)) answer], [].
    by split_and!.
Qed.
End microvm.

(** ** Witnesses *)

(** A codec: strings with each character marked. *)
Fixpoint mark (s : string) : string :=
  match s with EmptyString => ";" | String c s => "+" +:+ String c (mark s) end.

Fixpoint unmark (s : string) : option (string * string) :=
  match s with
  | String ";"%char rest => Some ("", rest)
  | String "+"%char (String c rest) => '(s, rest) ← unmark rest; Some (String c s, rest)
  | _ => None
  end.

Lemma unmark_mark s rest : unmark (mark s +:+ rest) = Some (s, rest).
Proof.
  induction s as [|c s IH]; [done|].
  change (mark (String c s) +:+ rest) with (String "+"%char (String c (mark s +:+ rest))).
  cbn [unmark]. by rewrite IH.
Qed.

Definition sample_mvm_json : MicrovmJSON := {|
  Marshal_Bundle := λ b, inr (String.concat " " (Bundle_Cmd b));
  Marshal_Data := λ hd, inr (mark (HD_Endpoint hd) +:+ mark (HD_ImageARN hd) +:+ mark (HD_StageBucket hd) +:+
                             mark (HD_StageKey hd));
  Unmarshal_Data := λ s, '(a, s) ← unmark s; '(b, s) ← unmark s; '(c, s) ← unmark s; '(d, _) ← unmark s;
                         Some (mkHandleData a b c d);
  Marshal_Exited := FormatInt; Unmarshal_Exited := ParseInt |}.

#[export] Instance sample_mvm_laws : @MicrovmJSONLaws sample_mvm_json.
Proof.
  split; cbn [Marshal_Data Unmarshal_Data Marshal_Exited Unmarshal_Exited sample_mvm_json].
  - intros [a b c d] raw [= <-]. split; [by destruct a|]. cbn [HD_Endpoint HD_ImageARN HD_StageBucket HD_StageKey].
    rewrite unmark_mark. cbn [mbind option_bind]. rewrite unmark_mark. cbn [mbind option_bind].
    rewrite unmark_mark. cbn [mbind option_bind].
    pose proof (unmark_mark d "") as Hd. rewrite str_app_nil_r in Hd. by rewrite Hd.
  - intros hd. by eexists.
  - exact ParseInt_FormatInt.
  - intros code Hc. destruct (FormatInt_on_line code Hc) as [H1 H2]. split; [done|].
    unfold fits, MaxScanTokenSize. simpl String.length. lia.
  - exact FormatInt_nonempty.
Qed.

Definition sample_lambda : LambdaMicroVM :=
  mkLambda "arn:image" "" "" "arn:role" "arn:egress" "" "bucket" 0 ∅.
Definition sample_vm : Handle := mkHandle mvm_HandleType "mvm-1" "".

Definition sample_body : string :=
  Sse_Write (mkSse "" "keep-alive" "" "") +:+ Sse_Write (mkSse "" EventDriverExited "" "3").

Lemma sample_body_exit : @readStream sample_mvm_json (Some (200, sample_body)) = Some 3.
Proof. vm_compute. reflexivity. Qed.

(** The driver's exit comes on the second stream. *)
Definition sample_wait : list MicrovmEvent :=
  [mvm_saw _ CallAlive true;
   mvm_saw _ (CreateMicrovmAuthToken "mvm-1" 60 8080) (inr "token");
   mvm_saw _ (OpenStream "" "token" lifecyclePath) None;
   mvm_saw _ (GetMicrovm "mvm-1") (inr (mkMicrovm MicrovmStateRunning "vm.example"));
   mvm_saw _ (CallSleep 500000000) true;
   mvm_saw _ CallAlive true;
   mvm_saw _ (CreateMicrovmAuthToken "mvm-1" 60 8080) (inr "token");
   mvm_saw _ (OpenStream "vm.example" "token" lifecyclePath) (Some (200, sample_body));
   mvm_saw _ (SuspendMicrovm "mvm-1") None].

Lemma sample_wait_made : made mvm_saw (@mvm_Wait sample_mvm_json 5 sample_vm) sample_wait (Stopped 3).
Proof.
  apply (made_answer _ CallAlive true). apply (made_answer _ _ (inr "token" : CloudErr + string)).
  apply (made_answer _ _ (None : option (Z * string))).
  apply (made_answer _ _ (inr (mkMicrovm MicrovmStateRunning "vm.example") : CloudErr + Microvm)).
  apply (made_answer _ _ true). apply (made_answer _ _ true).
  apply (made_answer _ _ (inr "token" : CloudErr + string)).
  apply (made_answer _ _ (Some (200, sample_body))). rewrite sample_body_exit.
  apply (made_answer _ _ (None : option CloudErr)). apply made_ret.
Qed.

Lemma microvm_wait_witness :
  made mvm_saw (@mvm_Wait sample_mvm_json 5 sample_vm) sample_wait (Stopped 3) ∧
  @waited sample_mvm_json "mvm-1" (Stopped 3) sample_wait.
Proof. split; [exact sample_wait_made|]. exact (microvm_wait 5 sample_vm sample_wait (Stopped 3) sample_wait_made). Defined.

(** A task that is started again: its suspended VM is resumed. *)
Definition vm_record (data : string) : TaskRecord := mkTaskRecord 7 1 mvm_HandleType "mvm-1" data.
Definition vm_task : Task :=
  mkTask 7 "" "r1" "ws" TaskStatusPending TaskCommandStart 2 1 false 0 0 "" 0 "".
Definition vm_shared (data : string) : Shared := mkShared (Sem_New 2) {[7 := vm_record data]} [] false None.
Definition resumed_data : string := mark "vm.example" +:+ mark "" +:+ mark "" +:+ mark "".
Definition resumed_vm : Handle := mkHandle mvm_HandleType "mvm-1" resumed_data.

Definition sample_backend : Backend := @MicrovmBackend sample_mvm_json "r1" "" (λ _, Some sample_lambda).

Lemma resume_made spec :
  made mvm_saw (Launch (Backend := sample_backend) spec (Some sample_vm))
    [mvm_saw _ (GetMicrovm "mvm-1") (inr (mkMicrovm MicrovmStateSuspended "vm.example"));
     mvm_saw _ (ResumeMicrovm "mvm-1") None] (inr resumed_vm).
Proof.
  apply (made_answer _ _ (inr (mkMicrovm MicrovmStateSuspended "vm.example") : CloudErr + Microvm)).
  apply (made_answer _ _ (None : option CloudErr)). apply made_ret.
Qed.

Ltac next_backed r := exists r; eexists (_, _), _; split;
  [split; [split; [cbn [fst snd op_step]|reflexivity]|]|split; [|reflexivity]].

Lemma restart_runs : ∃ l e, exec (@backed_step sample_backend)
  (start "http://localhost" {["ws" := sample_workspace]} (λ _, None) (λ _, inr "{}") vm_task)
  (vm_shared "", []) l None
  (set_records {[7 := mkTaskRecord 7 2 mvm_HandleType "mvm-1" resumed_data]} (vm_shared ""), e).
Proof.
  eexists _, _. unfold start, Runner_Start, handle.
  next_backed (@inr string (option TaskRecord) (Some (vm_record ""))); [split; [reflexivity|by left]|done|]. cbn.
  next_backed (@inr string SandboxState StateExited); [reflexivity|done|]. cbn.
  next_backed (@inr string string "jwt"); [reflexivity|done|]. cbn.
  next_backed (@inr StartErr Handle resumed_vm); [reflexivity|eexists; split; [apply resume_made|by repeat constructor]|]. cbn.
  next_backed (@None string); [left; split; reflexivity|done|]. cbn.
  next_backed tt; [reflexivity|done|]. cbn. split; [done|]. split; [reflexivity|]. reflexivity.
Qed.

Lemma start_keeps_sandbox_witness :
  ∃ rec', ({[7 := mkTaskRecord 7 2 mvm_HandleType "mvm-1" resumed_data]} : gmap Z TaskRecord) !! 7 = Some rec' ∧
    TR_ID rec' = "mvm-1".
Proof.
  destruct restart_runs as (l & e & Hrun).
  destruct (start_keeps_sandbox (B := sample_backend) (H := mvm_laws "r1" "" (λ _, Some sample_lambda)) _ _ _ _
    vm_task (vm_record "") (vm_shared "") _ l None e eq_refl ltac:(done) Hrun) as [H|H]; [discriminate H|exact H].
Defined.

(** A first launch, undone. *)
Definition sample_mvm_spec : Spec := mkSpec 7 sample_workspace ["gritz"; "driver"] [] [].

Definition sample_vm_launched : list MicrovmEvent :=
  [mvm_saw _ (Stage "bucket" "r1/7.json" "gritz driver" 14400) (inr "https://staged");
   mvm_saw _ (RunMicrovm (run_input "" sample_lambda "https://staged")) (inr (mkRunOutput "mvm-1" "vm.example"))].

Lemma destroy_undoes_launch_witness :
  ∃ h, @launched sample_mvm_json "r1" "" sample_lambda sample_mvm_spec h sample_vm_launched ∧ H_ID h = "mvm-1".
Proof.
  set (h := mkHandle mvm_HandleType "mvm-1" (mark "vm.example" +:+ mark "arn:image" +:+ mark "bucket" +:+ mark "r1/7.json")).
  assert (Hm : made mvm_saw (@launchFresh sample_mvm_json "r1" "" sample_lambda sample_mvm_spec) sample_vm_launched (inr h)).
  { apply (made_answer _ _ (inr "https://staged" : string + string)).
    apply (made_answer _ _ (inr (mkRunOutput "mvm-1" "vm.example") : CloudErr + RunMicrovmOutput)). apply made_ret. }
  exists h. split; [|reflexivity]. exact (proj1 (destroy_undoes_launch "r1" "" sample_lambda sample_mvm_spec _ _ Hm)).
Defined.
