(* ===== verification/MicrovmShim.v ===== *)
(** * The shim inside a microVM

    Models [internal/runner/microvmshim]: the lifecycle hooks, the supervision of
    the driver and the event stream that carries its exit ([microvmshim.go],
    [lifecycle.go]), the fetch of a
    task's bundle and the writing of its files, once, with the hooks' router of
    [internal/x/awsmicrovm/handler.go].
    Hooks, supervisors, streams and stops are goroutines that interleave at every
    lock and blocking call.  With [MicrovmBackend], which reads the stream: the exit
    code a wait returns is the driver's. *)

From S2P Require Import Prelude AuthScope ScopeParse EventModel TaskModel Strconv HttpMux.
From S2P Require Import Prog Workspace TaskState Runner RunnerSpec Backend DockerBackend Sse MicrovmBackend.

(** ** Routing *)

Definition HookBase : string := "/aws/lambda-microvms/runtime/v1".

Inductive HookCall :=
| CallRun (microvmID payload : string)
| CallTerminate (microvmID : string)
| CallSuspend (microvmID : string)
| CallResume (microvmID : string)
| CallReady
| CallValidate.

Record hookBody := mkHookBody { HB_MicrovmID : string; HB_RunHookPayload : string }.

Definition hook_at (path : string) : option (hookBody → HookCall) :=
  if String.eqb path (HookBase +:+ "/run") then Some (λ b, CallRun (HB_MicrovmID b) (HB_RunHookPayload b))
  else if String.eqb path (HookBase +:+ "/terminate") then Some (λ b, CallTerminate (HB_MicrovmID b))
  else if String.eqb path (HookBase +:+ "/suspend") then Some (λ b, CallSuspend (HB_MicrovmID b))
  else if String.eqb path (HookBase +:+ "/resume") then Some (λ b, CallResume (HB_MicrovmID b))
  else if String.eqb path (HookBase +:+ "/ready") then Some (λ _, CallReady)
  else if String.eqb path (HookBase +:+ "/validate") then Some (λ _, CallValidate)
  else None.

(** [Handler.ServeHTTP]: the status, and the hook that was called.  [Unmarshal] is
    [encoding/json]'s, and [run] the hook's handler, whose error is a 500. *)
Definition Hook_ServeHTTP (Unmarshal : string → option hookBody) (run : HookCall → option string)
    (path body : string) : Z * option HookCall :=
  match hook_at path with
  | None => (404, None)
  | Some call =>
      match (if String.eqb body "" then Some (mkHookBody "" "") else Unmarshal body) with
      | None => (400, None)
      | Some b => (match run (call b) with None => 200 | Some _ => 500 end, Some (call b))
      end
  end.

(** ** Fetching and provisioning *)

Inductive GuestOp : Set → Type :=
| HttpGet (url : string) : GuestOp (string + Z * (string + string))%type
| Stat (path : string) : GuestOp bool
| MkdirAll (path : string) (mode : Z) : GuestOp (option string)
| WriteFile (path data : string) (mode : Z) : GuestOp (option string).

Abbreviation Guest := (Prog GuestOp).

Definition provisionedMarker : string := "/gritz/.provisioned".

(** [filepath.Dir] of an absolute path. *)
Definition filepath_Dir (path : string) : string := "/" +:+ Join (clean_segments (removelast (segments path))) "/".

(** The loop of [provisionFiles]. *)
Fixpoint write_files (files : list File) : Guest (option string) :=
  match files with
  | [] => Ret None
  | f :: files =>
      if F_Dir f then
        err ⟵ trigger (MkdirAll (F_Path f) (F_Mode f)) ;;
        match err with Some _ => Ret err | None => write_files files end
      else
        err ⟵ trigger (MkdirAll (filepath_Dir (F_Path f)) 493) ;;
        match err with
        | Some _ => Ret err
        | None =>
            err ⟵ trigger (WriteFile (F_Path f) (F_Data f) (F_Mode f)) ;;
            match err with Some _ => Ret err | None => write_files files end
        end
  end.

Definition provisionFiles (b : Bundle) : Guest (option string) :=
  done ⟵ trigger (Stat provisionedMarker) ;;
  if done : bool then Ret None
  else
    err ⟵ write_files (Bundle_Files b) ;;
    match err with
    | Some _ => Ret err
    | None =>
        err ⟵ trigger (MkdirAll (filepath_Dir provisionedMarker) 493) ;;
        match err with
        | Some _ => Ret err
        | None => trigger (WriteFile provisionedMarker "" 420)
        end
    end.

Definition httpFetch (url : string) : Guest (string + string) :=
  resp ⟵ trigger (HttpGet url) ;;
  Ret (match resp with
       | inl err => inl err
       | inr (status, body) =>
           if negb (status =? 200) then inl ("fetch bundle: status " +:+ FormatInt status) else body
       end).

(** [runHook] from the fetch to the point where the bundle is retained. *)
Definition run_fetch (Unmarshal_Bundle : string → string + Bundle) (payload : string) : Guest (string + Bundle) :=
  data ⟵ httpFetch payload ;;
  match data with
  | inl err => Ret (inl ("fetch bundle: " +:+ err))
  | inr data =>
      match Unmarshal_Bundle data with
      | inl err => Ret (inl ("decode bundle: " +:+ err))
      | inr bundle =>
          err ⟵ provisionFiles bundle ;;
          Ret (match err with Some err => inl ("provision files: " +:+ err) | None => inr bundle end)
      end
  end.

(** ** The disk *)

(** The files of the guest.  A write that fails may leave a part. *)
Definition disk_step (R : Set) (op : GuestOp R) (d : gmap string string) (r : R) (d' : gmap string string) : Prop :=
  match op in GuestOp R return R → Prop with
  | HttpGet _ => λ _, d' = d
  | Stat path => λ found, d' = d ∧ found = bool_decide (is_Some (d !! path))
  | MkdirAll _ _ => λ _, d' = d
  | WriteFile path data _ => λ err,
      match err with None => d' = <[path := data]> d | Some _ => d' = d ∨ ∃ part, d' = <[path := part]> d end
  end r.

Abbreviation disk := (wp (demonic disk_step)).

(** The files of [files] are on the disk. *)
Definition provisioned (files : list File) (d : gmap string string) : Prop :=
  Forall (λ f, F_Dir f = false → d !! F_Path f = Some (F_Data f)) files.

(** The paths that a bundle writes, each once. *)
Definition written_paths (files : list File) : list string :=
  F_Path <$> filter (λ f, F_Dir f = false) files.

Lemma disk_bind {A B} (f : A → Guest B) (p : Guest A) (Φ : B → gmap string string → Prop) d :
  disk p (λ a, disk (f a) Φ) d → disk (prog_bind f p) Φ d.
Proof. apply prog_wp_bind. exact (demonic_mono disk_step). Qed.

Lemma disk_mono {A} (p : Guest A) (Φ Ψ : A → gmap string string → Prop) d :
  disk p Φ d → (∀ a d', Φ a d' → Ψ a d') → disk p Ψ d.
Proof. intros Hp H. by apply (prog_wp_mono _ (demonic_mono disk_step) p Φ). Qed.

Lemma written_cons f files :
  written_paths (f :: files) = (if F_Dir f then [] else [F_Path f]) ++ written_paths files.
Proof. unfold written_paths. rewrite filter_cons. destruct (F_Dir f); case_decide; done. Qed.

Lemma write_files_spec files d :
  NoDup (written_paths files) →
  disk (write_files files) (λ err d', (∀ p, p ∉ written_paths files → d' !! p = d !! p) ∧
    (err = None → provisioned files d')) d.
Proof.
  revert d. induction files as [|f files IH]; intros d Hnd; [split; [done|by constructor]|].
  rewrite written_cons in *. cbn [write_files]. destruct (F_Dir f) eqn:Hdir.
  - apply disk_bind. intros [err|] d1 Hd; cbn in Hd; subst d1; [by split|].
    cbn [wp]. eapply disk_mono; [by apply IH|].
    intros err d' [Hkeep Hdone]. split; [exact Hkeep|]. intros He. constructor; [congruence|by apply Hdone].
  - cbn [app] in Hnd |- *. apply NoDup_cons in Hnd as [Hf Hnd].
    apply disk_bind. intros [err|] d1 Hd; cbn in Hd; subst d1; [by split|].
    apply disk_bind. intros [err|] d1 Hd; cbn in Hd.
    { split; [|done]. intros p Hp. apply not_elem_of_cons in Hp as [Hp _].
      destruct Hd as [->|[part ->]]; [done|by rewrite lookup_insert_ne]. }
    subst d1. cbn [wp]. eapply disk_mono; [by apply IH|].
    intros err d' [Hkeep Hdone]. split.
    + intros p [Hne Hp]%not_elem_of_cons. rewrite Hkeep by done. by rewrite lookup_insert_ne.
    + intros He. constructor; [|by apply Hdone]. intros _. rewrite Hkeep by done. by rewrite lookup_insert_eq.
Qed.

Lemma provisioned_marker files d part :
  provisionedMarker ∉ written_paths files → provisioned files d → provisioned files (<[provisionedMarker := part]> d).
Proof.
  intros Hm H. unfold provisioned in *. rewrite Forall_forall in *. intros f Hf Hdir.
  rewrite lookup_insert_ne; [by apply H|]. intros E. apply Hm. unfold written_paths. rewrite E.
  apply list_elem_of_fmap. exists f. split; [done|]. by apply list_elem_of_filter.
Qed.

(** Files are provisioned once and whole: with the marker on the disk nothing is
    written, and a marker that provisioning leaves, even when it fails or the hook is
    called again after failing, says that every file of the bundle is there. *)
Theorem provisioned_once (b : Bundle) (d d' : gmap string string) l (err : option string) :
  NoDup (written_paths (Bundle_Files b)) → provisionedMarker ∉ written_paths (Bundle_Files b) →
  exec disk_step (provisionFiles b) d l err d' →
  (is_Some (d !! provisionedMarker) → d' = d ∧ err = None) ∧
  (d !! provisionedMarker = None → is_Some (d' !! provisionedMarker) → provisioned (Bundle_Files b) d') ∧
  (err = None → is_Some (d' !! provisionedMarker)).
Proof.
  intros Hnd Hm. revert l. set (Φ := λ (err : option string) (d' : gmap string string),
    (is_Some (d !! provisionedMarker) → d' = d ∧ err = None) ∧
    (d !! provisionedMarker = None → is_Some (d' !! provisionedMarker) → provisioned (Bundle_Files b) d') ∧
    (err = None → is_Some (d' !! provisionedMarker))).
  intros l. assert (Hwp : disk (provisionFiles b) Φ d); [|exact (demonic_exec disk_step _ Φ _ _ _ _ Hwp)].
  unfold provisionFiles. apply disk_bind. intros found d1 [-> ->].
  destruct (d !! provisionedMarker) as [x|] eqn:Ed; cbn.
  { split_and!; [done|by intros ?|]. intros _. rewrite Ed. by eexists. }
  apply disk_bind. cbn [wp]. eapply disk_mono; [by apply write_files_spec|].
  intros [e|] d1 [Hkeep Hdone].
  { split_and!; [by intros []| |done]. intros _. rewrite Hkeep, Ed by done. by intros []. }
  specialize (Hdone eq_refl). intros [e|] d2 Hd; cbn in Hd; subst d2.
  { split_and!; [by intros []|done|done]. }
  intros e d2 Hd; cbn in Hd. split_and!; [by intros []| |].
  - intros _ _. destruct e; [destruct Hd as [->|[part ->]]|subst d2]; [done|by apply provisioned_marker..].
  - intros ->. subst d2. rewrite lookup_insert_eq. by eexists.
Qed.

(** A hook's body is not read for its path: an unknown path is not found whatever
    it carries, and an empty body is that of no particular VM. *)
Lemma hooks_routed Unmarshal run body :
  Hook_ServeHTTP Unmarshal run "/gritz/stop" body = (404, None) ∧
  (∀ id payload, Unmarshal body = Some (mkHookBody id payload) → body ≠ "" →
   Hook_ServeHTTP Unmarshal run (HookBase +:+ "/run") body =
     (match run (CallRun id payload) with None => 200 | Some _ => 500 end, Some (CallRun id payload))).
Proof.
  split; [reflexivity|]. intros id payload Hu Hne. unfold Hook_ServeHTTP. cbn [hook_at].
  change (hook_at _) with (Some (λ b, CallRun (HB_MicrovmID b) (HB_RunHookPayload b))).
  by rewrite (proj2 (String.eqb_neq _ _) Hne), Hu.
Qed.

Definition keepAliveEvent : string := "keep-alive".

(** ** The state *)

(** A run of the driver: its exit code once it exited, whether [supervise] runs,
    has closed [done], and has published. *)
Record DriverProc := mkProc {
  p_exit : option Z; p_supervised : bool; p_done : bool; p_published : bool }.

(** An event of the stream; an exit is that of a run. *)
Inductive ShimEvent := ShimKeepAlive | ShimExited (run : nat) (code : Z).

(** A call of [lifecycleHandler]: the first event, until it is written, the
    channel's buffer and what has been written; whether it is over; and, for the
    proofs, how many exits were published since it subscribed, and whether one of
    these found its buffer full. *)
Record Stream := mkStream {
  st_first : option ShimEvent; st_buf : list ShimEvent; st_out : list ShimEvent; st_over : bool;
  st_since : nat; st_missed : bool }.

(** A call of [runHook] or [resumeHook]: fetching the bundle, provisioning it,
    retaining it, about to reset the sticky exit, starting the driver, recording it
    as the current one, or back. *)
Inductive Hook :=
| HookFetching
| HookProvisioning (b : Bundle)
| HookRetaining (b : Bundle)
| HookSpawning (b : Bundle)
| HookStarting (b : Bundle)
| HookCurrent (run : nat)
| HookReturned (ok : bool).

(** A call of [stopDriver]: waiting for the driver it found, having killed it, or
    back. *)
Inductive Stop := StopWaiting (run : nat) | StopKilled (run : nat) | StopReturned (run : option nat).

Record Shim := mkShim {
  sh_started : bool; sh_bundle : option Bundle; sh_current : option nat; sh_sticky : option ShimEvent;
  sh_procs : list DriverProc; sh_streams : gmap nat Stream; sh_hooks : gmap nat Hook;
  sh_stops : gmap nat Stop }.

Definition new_shim : Shim := mkShim false None None None [] ∅ ∅ ∅.

Definition set_hook (i : nat) (h : Hook) (s : Shim) : Shim :=
  mkShim (sh_started s) (sh_bundle s) (sh_current s) (sh_sticky s) (sh_procs s) (sh_streams s)
    (<[i := h]> (sh_hooks s)) (sh_stops s).
Definition set_stop (i : nat) (t : Stop) (s : Shim) : Shim :=
  mkShim (sh_started s) (sh_bundle s) (sh_current s) (sh_sticky s) (sh_procs s) (sh_streams s)
    (sh_hooks s) (<[i := t]> (sh_stops s)).
Definition set_streams (f : gmap nat Stream → gmap nat Stream) (s : Shim) : Shim :=
  mkShim (sh_started s) (sh_bundle s) (sh_current s) (sh_sticky s) (sh_procs s) (f (sh_streams s))
    (sh_hooks s) (sh_stops s).
Definition set_procs (f : list DriverProc → list DriverProc) (s : Shim) : Shim :=
  mkShim (sh_started s) (sh_bundle s) (sh_current s) (sh_sticky s) (f (sh_procs s)) (sh_streams s)
    (sh_hooks s) (sh_stops s).
Definition set_current (d : nat) (s : Shim) : Shim :=
  mkShim (sh_started s) (sh_bundle s) (Some d) (sh_sticky s) (sh_procs s) (sh_streams s)
    (sh_hooks s) (sh_stops s).

(** [s.bundle = bundle; s.started = true]. *)
Definition retain (b : Bundle) (s : Shim) : Shim :=
  mkShim true (Some b) (sh_current s) (sh_sticky s) (sh_procs s) (sh_streams s)
    (sh_hooks s) (sh_stops s).

(** [lifecycle.reset]. *)
Definition reset (s : Shim) : Shim :=
  mkShim (sh_started s) (sh_bundle s) (sh_current s) None (sh_procs s) (sh_streams s)
    (sh_hooks s) (sh_stops s).

Definition subscriberCap : nat := 16.

(** The send of [publish] to one subscriber. *)
Definition deliver (ev : ShimEvent) (st : Stream) : Stream :=
  if st_over st then st
  else if (length (st_buf st) <? subscriberCap)%nat
  then mkStream (st_first st) (st_buf st ++ [ev]) (st_out st) false (S (st_since st)) (st_missed st)
  else mkStream (st_first st) (st_buf st) (st_out st) false (S (st_since st)) true.

(** [lifecycle.publish] of an exit. *)
Definition publish (ev : ShimEvent) (s : Shim) : Shim :=
  mkShim (sh_started s) (sh_bundle s) (sh_current s) (Some ev) (sh_procs s) (deliver ev <$> sh_streams s)
    (sh_hooks s) (sh_stops s).

(** [lifecycle.subscribe], and the first event of [lifecycleHandler]. *)
Definition subscribe (s : Shim) : Stream :=
  mkStream (Some (default ShimKeepAlive (sh_sticky s))) [] [] false 0 false.

Definition write_first (st : Stream) : Stream :=
  mkStream None (st_buf st) (st_out st ++ option_list (st_first st)) (st_over st) (st_since st) (st_missed st).
Definition write_next (ev : ShimEvent) (rest : list ShimEvent) (st : Stream) : Stream :=
  mkStream (st_first st) rest (st_out st ++ [ev]) (st_over st) (st_since st) (st_missed st).
Definition write_keepalive (st : Stream) : Stream :=
  mkStream (st_first st) (st_buf st) (st_out st ++ [ShimKeepAlive]) (st_over st) (st_since st) (st_missed st).
Definition hang_up (st : Stream) : Stream :=
  mkStream (st_first st) (st_buf st) (st_out st) true (st_since st) (st_missed st).

Definition exit_with (code : Z) (p : DriverProc) : DriverProc :=
  mkProc (Some code) (p_supervised p) (p_done p) (p_published p).
Definition supervise_it (p : DriverProc) : DriverProc := mkProc (p_exit p) true (p_done p) (p_published p).
Definition close_done (p : DriverProc) : DriverProc := mkProc (p_exit p) (p_supervised p) true (p_published p).
Definition published_it (p : DriverProc) : DriverProc := mkProc (p_exit p) (p_supervised p) (p_done p) true.

Definition new_proc : DriverProc := mkProc None false false false.

(** A new call of [stopDriver]. *)
Definition stop_begin (s : Shim) : Stop :=
  match sh_current s with Some d => StopWaiting d | None => StopReturned None end.

(** ** The steps *)

(** A call of [runHook], [resumeHook] or [suspendHook]. *)
Inductive hook_call : Shim → Shim → Prop :=
| sh_run s i : sh_hooks s !! i = None →
    hook_call s (set_hook i (if sh_started s then HookReturned true else HookFetching) s)
| sh_resume s i : sh_hooks s !! i = None →
    hook_call s (set_hook i (match sh_started s, sh_bundle s with
                             | true, Some b => HookSpawning b
                             | _, _ => HookReturned true
                             end) s)
| sh_suspend s : hook_call s (reset s).

(** What the rest of the shim does. *)
Inductive shim_runs : Shim → Shim → Prop :=
(* runHook *)
| sh_fetch s i b : sh_hooks s !! i = Some HookFetching → shim_runs s (set_hook i (HookProvisioning b) s)
| sh_fetch_err s i : sh_hooks s !! i = Some HookFetching → shim_runs s (set_hook i (HookReturned false) s)
| sh_provision s i b : sh_hooks s !! i = Some (HookProvisioning b) →
    shim_runs s (set_hook i (HookRetaining b) s)
| sh_provision_err s i b : sh_hooks s !! i = Some (HookProvisioning b) →
    shim_runs s (set_hook i (HookReturned false) s)
| sh_retain s i b : sh_hooks s !! i = Some (HookRetaining b) →
    shim_runs s (set_hook i (HookSpawning b) (retain b s))
(* spawn *)
| sh_reset s i b : sh_hooks s !! i = Some (HookSpawning b) → shim_runs s (set_hook i (HookStarting b) (reset s))
| sh_start s i b : sh_hooks s !! i = Some (HookStarting b) →
    shim_runs s (set_hook i (HookCurrent (length (sh_procs s))) (set_procs (λ ps, ps ++ [new_proc]) s))
| sh_start_err s i b : sh_hooks s !! i = Some (HookStarting b) → shim_runs s (set_hook i (HookReturned false) s)
| sh_record s i d : sh_hooks s !! i = Some (HookCurrent d) →
    shim_runs s (set_hook i (HookReturned true) (set_procs (alter supervise_it d) (set_current d s)))
(* the driver, and supervise *)
| sh_exit s d p code : sh_procs s !! d = Some p → p_exit p = None → is_int64 code = true →
    shim_runs s (set_procs (alter (exit_with code) d) s)
| sh_done s d p code : sh_procs s !! d = Some p → p_supervised p = true → p_exit p = Some code →
    p_done p = false → shim_runs s (set_procs (alter close_done d) s)
| sh_publish s d p code : sh_procs s !! d = Some p → p_done p = true → p_exit p = Some code →
    p_published p = false →
    shim_runs s (publish (ShimExited d code) (set_procs (alter published_it d) s))
(* lifecycleHandler *)
| sh_subscribe s c : sh_streams s !! c = None → shim_runs s (set_streams (<[c := subscribe s]>) s)
| sh_first s c st : sh_streams s !! c = Some st → st_over st = false → is_Some (st_first st) →
    shim_runs s (set_streams (<[c := write_first st]>) s)
| sh_send s c st ev rest : sh_streams s !! c = Some st → st_over st = false → st_first st = None →
    st_buf st = ev :: rest → shim_runs s (set_streams (<[c := write_next ev rest st]>) s)
| sh_keepalive s c st : sh_streams s !! c = Some st → st_over st = false → st_first st = None →
    shim_runs s (set_streams (<[c := write_keepalive st]>) s)
| sh_hang_up s c st : sh_streams s !! c = Some st → shim_runs s (set_streams (<[c := hang_up st]>) s)
(* stopHandler, terminateHook *)
| sh_stop s i : sh_stops s !! i = None → shim_runs s (set_stop i (stop_begin s) s)
| sh_stopped s i d p : sh_stops s !! i = Some (StopWaiting d) ∨ sh_stops s !! i = Some (StopKilled d) →
    sh_procs s !! d = Some p → p_done p = true → shim_runs s (set_stop i (StopReturned (Some d)) s)
| sh_kill s i d : sh_stops s !! i = Some (StopWaiting d) → shim_runs s (set_stop i (StopKilled d) s).

Definition shim_step (s s' : Shim) : Prop := hook_call s s' ∨ shim_runs s s'.

(** ** What holds of every interleaving *)

(** The events a stream has written or holds. *)
Definition carried (st : Stream) : list ShimEvent := st_out st ++ option_list (st_first st) ++ st_buf st.

Definition is_exit (ev : ShimEvent) : Prop := match ev with ShimKeepAlive => False | ShimExited _ _ => True end.

(** The exit that an event tells of happened. *)
Definition truthful (s : Shim) (ev : ShimEvent) : Prop :=
  match ev with
  | ShimKeepAlive => True
  | ShimExited d code => ∃ p, sh_procs s !! d = Some p ∧ p_exit p = Some code ∧ p_published p = true ∧
      is_int64 code = true
  end.

Record shim_inv (s : Shim) : Prop := {
  si_codes : ∀ d p code, sh_procs s !! d = Some p → p_exit p = Some code → is_int64 code = true;
  si_done : ∀ d p, sh_procs s !! d = Some p → p_done p = true → is_Some (p_exit p);
  si_sticky : ∀ ev, sh_sticky s = Some ev → truthful s ev;
  si_streams : ∀ c st, sh_streams s !! c = Some st → Forall (truthful s) (carried st);
  (** an exit that is to be replayed is on every open stream, but for those that
      sixteen exits found slow *)
  si_held : ∀ c st ev, sh_streams s !! c = Some st → st_over st = false → sh_sticky s = Some ev →
    ev ∈ carried st ∨ st_missed st = true;
  si_buf : ∀ c st, sh_streams s !! c = Some st → (length (st_buf st) ≤ st_since st)%nat ∧ Forall is_exit (st_buf st);
  si_missed : ∀ c st, sh_streams s !! c = Some st → st_missed st = true →
    (subscriberCap ≤ st_since st)%nat ∧ Exists is_exit (carried st);
  si_stops : ∀ i d, sh_stops s !! i = Some (StopReturned (Some d)) →
    ∃ p, sh_procs s !! d = Some p ∧ p_done p = true }.

(** What is never undone of a run. *)
Definition lasts (p p' : DriverProc) : Prop :=
  (∀ code, p_exit p = Some code → p_exit p' = Some code) ∧
  (p_published p = true → p_published p' = true) ∧ (p_done p = true → p_done p' = true).

Definition grows (ps ps' : list DriverProc) : Prop :=
  ∀ d p, ps !! d = Some p → ∃ p', ps' !! d = Some p' ∧ lasts p p'.

Lemma grows_refl ps : grows ps ps.
Proof. intros d p Hp. exists p. by repeat split. Qed.

Lemma alter_cases {A} (f : A → A) d (xs : list A) i x :
  alter f d xs !! i = Some x → (i = d ∧ ∃ x0, xs !! d = Some x0 ∧ x = f x0) ∨ xs !! i = Some x.
Proof.
  destruct (decide (i = d)) as [->|Hne]; [|by rewrite list_lookup_alter_ne; auto].
  rewrite list_lookup_alter_eq, fmap_Some. intros (x0 & Hx0 & ->). left. eauto.
Qed.

Lemma grows_alter ps f d : (∀ p, ps !! d = Some p → lasts p (f p)) → grows ps (alter f d ps).
Proof.
  intros Hf i p Hp. destruct (decide (i = d)) as [->|Hne].
  - exists (f p). rewrite list_lookup_alter_eq, Hp. split; [done|by apply Hf].
  - exists p. rewrite list_lookup_alter_ne by done. split; [done|by repeat split].
Qed.

Lemma grows_snoc ps : grows ps (ps ++ [new_proc]).
Proof. intros d p Hp. exists p. split; [by apply lookup_app_l_Some|by repeat split]. Qed.

Lemma truthful_grows s s' ev : grows (sh_procs s) (sh_procs s') → truthful s ev → truthful s' ev.
Proof.
  intros Hg. destruct ev as [|d code]; [done|]. intros (p & Hp & He & Hpub & Hc).
  destruct (Hg d p Hp) as (p' & Hp' & He' & Hpub' & _). exists p'. auto.
Qed.

(** A step that touches no stream and publishes nothing. *)
Lemma inv_frame s s' :
  shim_inv s → grows (sh_procs s) (sh_procs s') →
  (∀ d p code, sh_procs s' !! d = Some p → p_exit p = Some code → is_int64 code = true) →
  (∀ d p, sh_procs s' !! d = Some p → p_done p = true → is_Some (p_exit p)) →
  (sh_sticky s' = sh_sticky s ∨ sh_sticky s' = None) →
  sh_streams s' = sh_streams s →
  (∀ i d, sh_stops s' !! i = Some (StopReturned (Some d)) →
     sh_stops s !! i = Some (StopReturned (Some d)) ∨ ∃ p, sh_procs s' !! d = Some p ∧ p_done p = true) →
  shim_inv s'.
Proof.
  intros [H1 H2 H3 H4 H5 H6 H8 H7] Hg Hc Hd Hst Hss Hstops. split; [exact Hc|exact Hd|..]; rewrite ?Hss; [| | |done|done|].
  - intros ev Hev. eapply truthful_grows; [exact Hg|]. destruct Hst as [E|E]; rewrite E in Hev; [by apply H3|done].
  - intros c st Hc'. eapply Forall_impl; [by apply (H4 c)|]. intros ev. by apply truthful_grows.
  - intros c st ev Hc' Ho Hev. destruct Hst as [E|E]; rewrite E in Hev; [by apply (H5 c)|done].
  - intros i d Hi. destruct (Hstops i d Hi) as [Hi'|H]; [|exact H].
    destruct (H7 i d Hi') as (p & Hp & Hdone). destruct (Hg d p Hp) as (p' & Hp' & _ & _ & Hl). eauto.
Qed.

Lemma Exists_incl {A} (P : A → Prop) (l k : list A) : (∀ x, x ∈ l → x ∈ k) → Exists P l → Exists P k.
Proof. rewrite !Exists_exists. intros Hin (x & Hx & HP). eauto. Qed.

(** A step of one stream, which keeps what it carries. *)
Lemma shim_inv_stream s c st st' :
  shim_inv s → sh_streams s !! c = Some st →
  (∀ ev, ev ∈ carried st → ev ∈ carried st') → (∀ ev, ev ∈ carried st' → ev ∈ carried st ∨ ev = ShimKeepAlive) →
  st_buf st' `sublist_of` st_buf st → st_missed st' = st_missed st → st_since st' = st_since st →
  (st_over st' = false → st_over st = false) →
  shim_inv (set_streams <[c := st']> s).
Proof.
  intros [H1 H2 H3 H4 H5 H6 H8 H7] Hst Hk Hn Hb Hm Hsince Ho.
  split; [done..| | | | |]; cbn [sh_streams sh_sticky set_streams].
  - intros c' x. rewrite lookup_insert_Some. intros [[<- <-]|[_ Hx]]; [|by apply (H4 c')].
    apply Forall_forall. intros ev Hev. destruct (Hn ev Hev) as [Hin| ->]; [|done].
    pose proof (H4 c st Hst) as Hall. rewrite Forall_forall in Hall. by apply Hall.
  - intros c' x ev. rewrite lookup_insert_Some. intros [[<- <-]|[_ Hx]]; [|by apply (H5 c')].
    intros Ho' Hev. rewrite Hm. destruct (H5 c st ev Hst (Ho Ho') Hev) as [Hin|Hmiss]; [left; auto|by right].
  - intros c' x. rewrite lookup_insert_Some. intros [[<- <-]|[_ Hx]]; [|by apply (H6 c')].
    rewrite Hsince. destruct (H6 c st Hst) as [? H]. apply sublist_length in Hb as Hl. split; [lia|].
    rewrite Forall_forall in *. intros ev Hev. eapply H, elem_of_submseteq; [exact Hev|by apply sublist_submseteq].
  - intros c' x. rewrite lookup_insert_Some. intros [[<- <-]|[_ Hx]]; [|by apply (H8 c')].
    rewrite Hm, Hsince. intros Hmiss. destruct (H8 c st Hst Hmiss). split; [done|]. by eapply Exists_incl.
  - done.
Qed.

Lemma carried_deliver ev st :
  st_over st = false → (∀ e, e ∈ carried st → e ∈ carried (deliver ev st)) ∧
  (∀ e, e ∈ carried (deliver ev st) → e ∈ carried st ∨ e = ev) ∧
  (ev ∈ carried (deliver ev st) ∨ st_missed (deliver ev st) = true).
Proof.
  intros Ho. unfold deliver. rewrite Ho. destruct (_ <? _)%nat; [|split; [auto|split; [auto|by right]]].
  unfold carried. cbn [st_out st_first st_buf]. split; [set_solver|]. split; [set_solver|]. left. set_solver.
Qed.

Lemma inv_publish s d p code :
  shim_inv s → sh_procs s !! d = Some p → p_done p = true → p_exit p = Some code →
  shim_inv (publish (ShimExited d code) (set_procs (alter published_it d) s)).
Proof.
  intros [H1 H2 H3 H4 H5 H6 H8 H7] Hp Hdone Hexit. set (ev := ShimExited d code).
  set (s' := publish ev _).
  assert (Hg : grows (sh_procs s) (sh_procs s')) by (apply grows_alter; intros q _; by repeat split).
  assert (Hev : truthful s' ev).
  { exists (published_it p). split; [cbn; by rewrite list_lookup_alter_eq, Hp|]. split_and!; [done..|by eapply H1]. }
  split.
  - intros i q c0. cbn. intros Hq. apply alter_cases in Hq as [(-> & q0 & Hq0 & ->)|Hq]; [|by eapply H1].
    by apply (H1 d q0).
  - intros i q. cbn. intros Hq. apply alter_cases in Hq as [(-> & q0 & Hq0 & ->)|Hq]; [|by eapply H2].
    by apply (H2 d q0).
  - intros e [= <-]. exact Hev.
  - intros c st. cbn. rewrite lookup_fmap, fmap_Some. intros (st0 & Hst0 & ->).
    apply Forall_forall. intros e He. pose proof (H4 c st0 Hst0) as Hall. rewrite Forall_forall in Hall.
    destruct (st_over st0) eqn:Ho.
    + unfold deliver in He. rewrite Ho in He. eapply truthful_grows; [exact Hg|]. by apply Hall.
    + destruct (carried_deliver ev st0 Ho) as (_ & Hn & _). destruct (Hn e He) as [Hin| ->]; [|exact Hev].
      eapply truthful_grows; [exact Hg|]. by apply Hall.
  - intros c st e. cbn. rewrite lookup_fmap, fmap_Some. intros (st0 & Hst0 & ->) Ho' [= <-].
    assert (Ho : st_over st0 = false).
    { unfold deliver in Ho'. destruct (st_over st0) eqn:E; [by rewrite E in Ho'|done]. }
    by apply carried_deliver.
  - intros c st. cbn. rewrite lookup_fmap, fmap_Some. intros (st0 & Hst0 & ->). destruct (H6 c st0 Hst0) as [Hb Hall].
    unfold deliver. destruct (st_over st0); [done|]. destruct (_ <? _)%nat; cbn [st_buf st_since].
    + rewrite length_app. simpl. split; [lia|]. by apply Forall_app_2, Forall_singleton.
    + split; [lia|done].
  - intros c st. cbn. rewrite lookup_fmap, fmap_Some. intros (st0 & Hst0 & ->). destruct (H6 c st0 Hst0) as [Hb Hall].
    unfold deliver. destruct (st_over st0) eqn:Ho; [by apply (H8 c)|].
    destruct (Nat.ltb_spec (length (st_buf st0)) subscriberCap) as [Hlt|Hge]; cbn [st_buf st_missed st_since].
    + intros Hm. destruct (H8 c st0 Hst0 Hm) as [Hs He]. split; [lia|]. eapply Exists_incl; [|exact He].
      unfold carried. cbn [st_out st_first st_buf]. set_solver.
    + intros _. split; [lia|]. unfold subscriberCap in Hge. destruct (st_buf st0) as [|e buf] eqn:E; [simpl in Hge; lia|].
      inversion_clear Hall as [|?? He _]. apply Exists_exists. exists e. split; [|done].
      unfold carried. cbn [st_out st_first st_buf]. set_solver.
  - intros i d'. cbn. intros Hi. destruct (H7 i d' Hi) as (q & Hq & Hqd).
    destruct (Hg d' q Hq) as (q' & Hq' & _ & _ & Hl). eauto.
Qed.

Lemma inv_set_hook s i h : shim_inv s → shim_inv (set_hook i h s).
Proof. intros Hi. apply (inv_frame s); [done|apply grows_refl|apply Hi|apply Hi|by left|done..|by left]. Qed.

Lemma inv_reset s : shim_inv s → shim_inv (reset s).
Proof. intros Hi. apply (inv_frame s); [done|apply grows_refl|apply Hi|apply Hi|by right|done..|by left]. Qed.

(** A step that changes one run, and lets it end only with a code. *)
Lemma inv_proc s f d :
  shim_inv s → (∀ p, sh_procs s !! d = Some p → lasts p (f p) ∧
    (∀ code, p_exit (f p) = Some code → is_int64 code = true) ∧ (p_done (f p) = true → is_Some (p_exit (f p)))) →
  shim_inv (set_procs (alter f d) s).
Proof.
  intros Hi Hf. apply (inv_frame s); [done|apply grows_alter; intros p Hp; by apply Hf| | |by left|done|by left].
  - intros j p code. cbn. intros Hj He. apply alter_cases in Hj as [(-> & q & Hq & ->)|Hj].
    + destruct (Hf q Hq) as (_ & H & _). by apply H.
    + by eapply si_codes.
  - intros j p. cbn. intros Hj He. apply alter_cases in Hj as [(-> & q & Hq & ->)|Hj].
    + destruct (Hf q Hq) as (_ & _ & H). by apply H.
    + by eapply si_done.
Qed.

Lemma inv_subscribe s c :
  shim_inv s → sh_streams s !! c = None → shim_inv (set_streams <[c := subscribe s]> s).
Proof.
  intros [H1 H2 H3 H4 H5 H6 H8 H7] _.
  split; [done|done|done| | | | |done]; cbn [sh_streams sh_sticky set_streams].
  - intros c' st. rewrite lookup_insert_Some. intros [[<- <-]|[_ Hst]]; [|by apply (H4 c')].
    unfold carried, subscribe; cbn. constructor; [|done].
    destruct (sh_sticky s) as [ev|] eqn:E; [by apply (H3 ev)|done].
  - intros c' st ev. rewrite lookup_insert_Some. intros [[<- <-]|[_ Hst]]; [|by apply (H5 c')].
    intros _ E. left. unfold carried, subscribe; cbn. rewrite E. set_solver.
  - intros c' st. rewrite lookup_insert_Some. intros [[<- <-]|[_ Hst]]; [|by apply (H6 c')].
    simpl. split; [lia|constructor].
  - intros c' st. rewrite lookup_insert_Some. intros [[<- <-]|[_ Hst]]; [done|by apply (H8 c')].
Qed.

Lemma inv_runs s s' : shim_runs s s' → shim_inv s → shim_inv s'.
Proof.
  intros Hstep Hi. destruct Hstep; try by apply inv_set_hook.
  - apply inv_set_hook. apply (inv_frame s); [done|apply grows_refl|apply Hi|apply Hi|by left|done..|by left].
  - by apply inv_set_hook, inv_reset.
  - apply inv_set_hook. apply (inv_frame s); [done|apply grows_snoc| | |by left|done|by left].
    + intros d p code. cbn. intros [Hd|[Hd Hl]]%lookup_app_Some ?; [by eapply si_codes|].
      by apply list_lookup_singleton_Some in Hl as [_ <-].
    + intros d p. cbn. intros [Hd|[Hd Hl]]%lookup_app_Some ?; [by eapply si_done|].
      by apply list_lookup_singleton_Some in Hl as [_ <-].
  - apply inv_set_hook. apply inv_proc.
    + apply (inv_frame s); [done|apply grows_refl|apply Hi|apply Hi|by left|done..|by left].
    + cbn. intros p Hp. split; [by repeat split|]. split; [intros code; by eapply si_codes|by eapply si_done].
  - apply inv_proc; [done|]. intros q Hq. assert (q = p) as -> by congruence. split; [|split; [by intros c0 [= <-] |by eexists]].
    split; [|by split]. intros c0 Hc0. congruence.
  - apply inv_proc; [done|]. intros q Hq. assert (q = p) as -> by congruence. split; [by repeat split|].
    split; [intros c0; by apply (si_codes s Hi d p)|by exists code].
  - by eapply inv_publish.
  - by apply inv_subscribe.
  - eapply shim_inv_stream; [done|done| | |done|done|done|done]; unfold carried; cbn; set_solver.
  - eapply shim_inv_stream; [done|done| | | |done|done|done]; unfold carried; cbn [st_out st_first st_buf write_next]; rewrite ?H1, ?H2.
    + set_solver.
    + set_solver.
    + by apply sublist_cons.
  - eapply shim_inv_stream; [done|done| | |done|done|done|done]; unfold carried; cbn [st_out st_first st_buf write_keepalive]; set_solver.
  - eapply shim_inv_stream; [done|done| | |done|done|done|done]; unfold carried; cbn; auto.
  - apply (inv_frame s); [done|apply grows_refl|apply Hi|apply Hi|by left|done..|].
    intros j d. cbn. rewrite lookup_insert_Some. intros [[_ E]|[_ E]]; [|by left].
    unfold stop_begin in E. by destruct (sh_current s).
  - apply (inv_frame s); [done|apply grows_refl|apply Hi|apply Hi|by left|done..|].
    intros j d0. cbn. rewrite lookup_insert_Some. intros [[_ [= <-]]|[_ E]]; [right; eauto|by left].
  - apply (inv_frame s); [done|apply grows_refl|apply Hi|apply Hi|by left|done..|].
    intros j d0. cbn. rewrite lookup_insert_Some. intros [[_ E]|[_ E]]; [done|by left].
Qed.

Lemma inv_step s s' : shim_step s s' → shim_inv s → shim_inv s'.
Proof.
  intros [Hcall|Hruns] Hi; [|by eapply inv_runs]. destruct Hcall; [by apply inv_set_hook..|by apply inv_reset].
Qed.

Lemma inv_new : shim_inv new_shim.
Proof. split; set_solver. Qed.

Lemma inv_reachable s : rtc shim_step new_shim s → shim_inv s.
Proof.
  intros H. remember new_shim as s0 eqn:E. assert (Hi : shim_inv s0) by (subst; apply inv_new). clear E.
  induction H; [done|]. eauto using inv_step.
Qed.

(** ** What the runner reads of a stream *)

Section Wire.
Context `{MicrovmJSON}.

Definition shim_event (ev : ShimEvent) : SseEvent :=
  match ev with
  | ShimKeepAlive => mkSse "" keepAliveEvent "" ""
  | ShimExited _ code => mkSse "" EventDriverExited "" (Marshal_Exited code)
  end.

Definition stream_text (evs : list ShimEvent) : string :=
  foldr (λ ev rest, Sse_Write (shim_event ev) +:+ rest) "" evs.

Fixpoint first_exit (evs : list ShimEvent) : option Z :=
  match evs with
  | [] => None
  | ShimKeepAlive :: evs => first_exit evs
  | ShimExited _ code :: _ => Some code
  end.

Definition sound_event (ev : ShimEvent) : Prop :=
  match ev with ShimKeepAlive => True | ShimExited _ code => is_int64 code = true end.

Lemma read_exit_fuel n : ∀ m body, (String.length body < n)%nat → (String.length body < m)%nat →
  read_exit n body = read_exit m body.
Proof using Type.
  induction n as [|n IH]; intros m body Hn Hm; [lia|]. destruct m as [|m]; [lia|]. cbn [read_exit].
  destruct (Sse_Read body) as [ev rest|] eqn:Hr; [|done].
  assert (Hrest : body = "" ∨ (String.length rest < String.length body)%nat).
  { apply read_from_consumes in Hr. tauto. }
  destruct Hrest as [->|Hlt]; [by injection Hr as <- <-|].
  repeat case_match; try done. apply IH; lia.
Qed.

Context `{!MicrovmJSONLaws}.

Lemma shim_event_ok ev : sound_event ev → wire_ok (shim_event ev) ∧ absent LF (Sse_Data (shim_event ev)) = true.
Proof using Type*.
  destruct ev as [|d code]; intros Hs; [by repeat split; try done; constructor|].
  destruct (Exited_on_line code Hs) as [[Hl Hcr%String.eqb_eq]%andb_true_iff Hfit].
  split; [|exact Hl]. repeat split; try done. cbn [shim_event Sse_Data].
  rewrite Lines_one by (done || apply Exited_nonempty). by repeat constructor.
Qed.

Lemma stream_exit_event ev rest :
  sound_event ev →
  stream_exit (Sse_Write (shim_event ev) +:+ rest) =
    match ev with ShimKeepAlive => stream_exit rest | ShimExited _ code => Some code end.
Proof using Type*.
  intros Hs. destruct (shim_event_ok ev Hs) as [Hok Ha].
  assert (Hlen : (String.length rest < String.length (Sse_Write (shim_event ev) +:+ rest))%nat).
  { rewrite length_str_app, Sse_Write_fields, length_str_app. simpl. lia. }
  unfold stream_exit at 1. cbn [read_exit]. rewrite sse_roundtrip_line by done.
  destruct ev as [|d code]; cbn -[read_exit String.append Sse_Write shim_event].
  - unfold stream_exit. by rewrite (read_exit_fuel _ (S (String.length rest))) by lia.
  - cbn [sound_event] in Hs. cbn. by rewrite Exited_roundtrip.
Qed.

Lemma stream_exit_nothing body : Sse_Read body = ReadEvent no_event "" → stream_exit body = None.
Proof using Type. intros Hr. unfold stream_exit. cbn [read_exit]. by rewrite Hr. Qed.

Lemma stream_exit_whole evs : Forall sound_event evs → stream_exit (stream_text evs) = first_exit evs.
Proof using Type*.
  induction 1 as [|ev evs Hev _ IH]; [done|]. cbn [stream_text foldr]. rewrite stream_exit_event by done.
  by destruct ev.
Qed.

(** However much of the stream arrived, the outcome is its first exit, or none. *)
Lemma stream_exit_cut evs p t code :
  Forall sound_event evs → p +:+ t = stream_text evs → stream_exit p = Some code → ∃ d, ShimExited d code ∈ evs.
Proof using Type*.
  intros Hs. revert p. induction Hs as [|ev evs Hev Hs IH]; intros p Heq Hexit.
  { destruct p; [|done]. by cbn in Hexit. }
  cbn [stream_text foldr] in Heq. destruct (shim_event_ok ev Hev) as [Hok Ha].
  apply str_app_cases in Heq as [(d & -> & Heq)|(d & Hd & Hw & _)].
  - rewrite stream_exit_event in Hexit by done. destruct ev as [|r c]; [|injection Hexit as ->; exists r; apply list_elem_of_here].
    destruct (IH d (eq_sym Heq) Hexit) as [r Hr]. exists r. by apply list_elem_of_further.
  - rewrite stream_exit_nothing in Hexit; [done|]. by apply (Sse_Read_cut (shim_event ev) p d).
Qed.

End Wire.

(** ** A run after those before it *)

(** From a reset that found the exits of the first [n] runs published: none of them
    is on a stream that was opened since, nor will it be. *)
Record only_later (n : nat) (old : gmap nat Stream) (s : Shim) : Prop := {
  ol_runs : (n ≤ length (sh_procs s))%nat;
  ol_published : ∀ d p, (d < n)%nat → sh_procs s !! d = Some p → p_published p = true;
  ol_sticky : ∀ d code, sh_sticky s = Some (ShimExited d code) → (n ≤ d)%nat;
  ol_streams : ∀ c st d code, old !! c = None → sh_streams s !! c = Some st →
    ShimExited d code ∈ carried st → (n ≤ d)%nat;
  ol_opened : ∀ c, is_Some (old !! c) → is_Some (sh_streams s !! c) }.

Lemma only_later_frame n old s s' :
  only_later n old s → sh_streams s' = sh_streams s → (sh_sticky s' = sh_sticky s ∨ sh_sticky s' = None) →
  grows (sh_procs s) (sh_procs s') → only_later n old s'.
Proof.
  intros [H1 H2 H3 H4 H5] Hs Hst Hg. split; rewrite ?Hs; [| | |done|done].
  - destruct (decide (n ≤ length (sh_procs s'))%nat) as [|Hn]; [done|].
    destruct (lookup_lt_is_Some_2 (sh_procs s) (length (sh_procs s'))) as [p Hp]; [lia|].
    destruct (Hg _ _ Hp) as (p' & Hp'%lookup_lt_Some & _). lia.
  - intros d p' Hd Hp'. destruct (lookup_lt_is_Some_2 (sh_procs s) d) as [p Hp]; [lia|].
    destruct (Hg d p Hp) as (p0 & Hp0 & _ & Hpub & _). assert (p0 = p') as -> by congruence.
    apply Hpub. by eapply H2.
  - intros d code. destruct Hst as [->| ->]; [apply H3|done].
Qed.

Lemma only_later_stream n old s c st st' :
  only_later n old s → sh_streams s !! c = Some st →
  (∀ ev, ev ∈ carried st' → ev ∈ carried st ∨ ev = ShimKeepAlive) → only_later n old (set_streams <[c := st']> s).
Proof.
  intros [H1 H2 H3 H4 H5] Hst Hn. split; [done..| |]; cbn [sh_streams set_streams].
  - intros c' x d code Hold. rewrite lookup_insert_Some. intros [[<- <-]|[_ Hx]]; [|by eapply H4].
    intros Hin. destruct (Hn _ Hin) as [Hin'|?]; [by eapply H4|done].
  - intros c' Hc. rewrite lookup_insert_is_Some. destruct (decide (c = c')); eauto.
Qed.

Lemma only_later_step n old s s' : shim_step s s' → only_later n old s → only_later n old s'.
Proof.
  intros Hstep Ho. pose proof Ho as [H1 H2 H3 H4 H5].
  destruct Hstep as [Hcall|Hruns]; [destruct Hcall|destruct Hruns];
    try (by apply (only_later_frame n old s); [done|done|by left|apply grows_refl]);
    try (by apply (only_later_frame n old s); [done|done|by right|apply grows_refl]).
  - apply (only_later_frame n old s); [done|done|by left|apply grows_snoc].
  - apply (only_later_frame n old s); [done|done|by left|]. apply grows_alter. by intros p _; repeat split.
  - apply (only_later_frame n old s); [done|done|by left|]. apply grows_alter. intros q Hq. split; [|by split].
    intros c0 Hc0. congruence.
  - apply (only_later_frame n old s); [done|done|by left|]. apply grows_alter. by intros q _; repeat split.
  - (* publish *)
    assert (Hd : (n ≤ d)%nat).
    { destruct (decide (n ≤ d)%nat); [done|]. assert (p_published p = true) by (eapply (H2 d); [lia|done]). congruence. }
    assert (Hs : only_later n old (set_procs (alter published_it d) s)).
    { apply (only_later_frame n old s); [done|done|by left|]. apply grows_alter. by intros q _; repeat split. }
    destruct Hs as [G1 G2 _ _ _]. split; [done|done| | |]; cbn.
    + intros d' code'. by intros [= <- _].
    + intros c st d' code' Hold. rewrite lookup_fmap, fmap_Some. intros (st0 & Hst0 & ->) Hin.
      destruct (st_over st0) eqn:E.
      * unfold deliver in Hin. rewrite E in Hin. by eapply H4.
      * destruct (carried_deliver (ShimExited d code) st0 E) as (_ & Hn & _).
        destruct (Hn _ Hin) as [Hin'|[= -> _]]; [by eapply H4|done].
    + intros c Hc. rewrite lookup_fmap, fmap_is_Some. by apply H5.
  - (* subscribe *)
    split; [done..| |]; cbn.
    + intros c' x d code Hold. rewrite lookup_insert_Some. intros [[<- <-]|[_ Hx]]; [|by eapply H4].
      unfold carried; cbn. destruct (sh_sticky s) as [ev|] eqn:E; cbn; intros Hin%list_elem_of_singleton; [|done].
      subst ev. by eapply H3.
    + intros c' Hc. rewrite lookup_insert_is_Some. destruct (decide (c = c')); eauto.
  - eapply only_later_stream; [done|done|]. unfold carried; cbn; set_solver.
  - eapply only_later_stream; [done|done|]. unfold carried; cbn [st_out st_first st_buf write_next].
    lazymatch goal with H : st_first st = None, H' : st_buf st = _ |- _ => rewrite H, H' end. set_solver.
  - eapply only_later_stream; [done|done|]. unfold carried; cbn [st_out st_first st_buf write_keepalive]. set_solver.
  - eapply only_later_stream; [done|done|]. unfold carried; cbn; auto.
Qed.

Lemma only_later_steps n old s s' : rtc shim_step s s' → only_later n old s → only_later n old s'.
Proof. induction 1; eauto using only_later_step. Qed.

Lemma carried_sound s c st :
  shim_inv s → sh_streams s !! c = Some st → Forall sound_event (st_out st).
Proof.
  intros Hi Hc. pose proof (si_streams s Hi c st Hc) as Hall. unfold carried in Hall.
  apply Forall_app in Hall as [Hall _]. eapply Forall_impl; [exact Hall|].
  intros [|d code]; [done|]. by intros (p & _ & _ & _ & Hcode).
Qed.

Section Exits.
Context `{MicrovmJSONLaws}.

(** C28: from the driver to the backend's wait, over a stream that may break off
    at any byte: let a hook reset the sticky exit to start the driver when the exits
    of all earlier runs are published.  However hooks, runs, streams and stops
    interleave before and after, a stream that is opened after this tells the runner
    the exit code of a run that was started after this, which has exited with it, and
    never that of a run before. *)
Theorem exit_is_of_this_run (s s' : Shim) (i c : nat) (b : Bundle) (st : Stream) (body missing : string) (code : Z) :
  rtc shim_step new_shim s → sh_hooks s !! i = Some (HookSpawning b) →
  (∀ d p, sh_procs s !! d = Some p → p_published p = true) → sh_streams s !! c = None →
  rtc shim_step (set_hook i (HookStarting b) (reset s)) s' → sh_streams s' !! c = Some st →
  body +:+ missing = stream_text (st_out st) → readStream (Some (200, body)) = Some code →
  ∃ run p, (length (sh_procs s) ≤ run)%nat ∧ sh_procs s' !! run = Some p ∧ p_exit p = Some code.
Proof using Type*.
  intros Hrun1 Hhook Hpub Hnone Hrun2 Hst Hbody Hread.
  assert (Hol : only_later (length (sh_procs s)) (sh_streams s) s').
  { eapply only_later_steps; [exact Hrun2|]. split; cbn; [done|by intros; eapply Hpub|done| |done].
    intros c0 st0 d0 code0 H1 H2. congruence. }
  assert (Hi2 : shim_inv s').
  { apply inv_reachable. etrans; [exact Hrun1|]. eapply rtc_l; [right; by apply sh_reset|done]. }
  destruct (stream_exit_cut (st_out st) body missing code) as [d Hin]; [by eapply carried_sound|done|done|].
  assert (Hcar : ShimExited d code ∈ carried st) by (unfold carried; set_solver).
  pose proof (si_streams s' Hi2 c st Hst) as Hall. rewrite Forall_forall in Hall.
  destruct (Hall _ Hcar) as (p & Hp & Hexit & _).
  exists d, p. split_and!; [|done..]. by eapply (ol_streams _ _ _ Hol).
Qed.

(** Draining a stream. *)
Lemma drain s c st :
  sh_streams s !! c = Some st → st_over st = false →
  ∃ s' st', rtc shim_step s s' ∧ sh_streams s' !! c = Some st' ∧ st_over st' = false ∧ st_out st' = carried st.
Proof using Type.
  intros Hst Ho.
  assert (Hbuf : ∀ buf s st, sh_streams s !! c = Some st → st_over st = false → st_first st = None → st_buf st = buf →
    ∃ s' st', rtc shim_step s s' ∧ sh_streams s' !! c = Some st' ∧ st_over st' = false ∧ st_out st' = st_out st ++ buf).
  { intros buf. induction buf as [|ev buf IH]; intros s0 st0 Hst0 Ho0 Hf0 Hb0.
    { exists s0, st0. split; [done|]. by rewrite app_nil_r. }
    destruct (IH (set_streams <[c := write_next ev buf st0]> s0) (write_next ev buf st0)) as (s' & st' & Hr & Hs' & Ho' & Hout);
      [by cbn; rewrite lookup_insert_eq|done..|].
    exists s', st'. split; [eapply rtc_l; [right; by eapply sh_send|done]|]. split_and!; [done..|].
    rewrite Hout. cbn. by rewrite <- app_assoc. }
  unfold carried. destruct (st_first st) as [ev|] eqn:Hf.
  - destruct (Hbuf (st_buf st) (set_streams <[c := write_first st]> s) (write_first st)) as (s' & st' & Hr & Hs' & Ho' & Hout);
      [by cbn; rewrite lookup_insert_eq|done..|].
    exists s', st'. split; [eapply rtc_l; [right; eapply (sh_first s c st); by eauto|done]|]. split_and!; [done..|].
    rewrite Hout. cbn. by rewrite Hf, <- app_assoc.
  - by apply (Hbuf (st_buf st) s st).
Qed.

Lemma first_exit_some evs d code : ShimExited d code ∈ evs → is_Some (first_exit evs).
Proof using Type.
  induction evs as [|[|d' c'] evs IH]; [by intros ?%not_elem_of_nil| |by eexists].
  intros [?|Hin]%elem_of_cons; [done|by apply IH].
Qed.


End Exits.

(** A stop comes back once the driver it found is over. *)
Theorem stop_waits_for_driver (s : Shim) (i d : nat) :
  rtc shim_step new_shim s → sh_stops s !! i = Some (StopReturned (Some d)) →
  ∃ p, sh_procs s !! d = Some p ∧ is_Some (p_exit p).
Proof.
  intros Hrun Hi. pose proof (inv_reachable s Hrun) as Hinv.
  destruct (si_stops s Hinv i d Hi) as (p & Hp & Hd). exists p. split; [done|]. by eapply si_done.
Qed.

(** ** Witnesses *)

Definition sample_bundle : Bundle := mkBundle ["gritz"; "driver"] [] [] "" "".

(** The steps of a run from the start of its driver to its exit. *)
Lemma run_to_exit s i b code :
  sh_hooks s !! i = Some (HookStarting b) → is_int64 code = true →
  let d := length (sh_procs s) in
  let s' := set_procs (alter (exit_with code) d) (set_hook i (HookReturned true) (set_procs (alter supervise_it d)
    (set_current d (set_hook i (HookCurrent d) (set_procs (λ ps, ps ++ [new_proc]) s))))) in
  rtc shim_step s s'.
Proof.
  intros Hh Hc d s'. eapply rtc_l; [right; by apply (sh_start s i b)|].
  eapply rtc_l; [right; eapply sh_record; apply lookup_insert_eq|]. apply rtc_once. right.
  eapply (sh_exit _ d (supervise_it new_proc)); [|done|done]. cbn.
  rewrite list_lookup_alter_eq, lookup_app_r, Nat.sub_diag by lia. done.
Qed.

Tactic Notation "shim_by" uconstr(rule) := eapply rtc_l; [right; eapply rule; reflexivity|].

(** The first run, up to its exit with 3. *)
Definition first_run (s : Shim) : Prop :=
  sh_procs s = [mkProc (Some 3) true false false] ∧ sh_streams s = ∅ ∧ sh_stops s = ∅ ∧ sh_current s = Some 0%nat ∧
  sh_started s = true ∧ sh_bundle s = Some sample_bundle ∧ sh_hooks s !! 1%nat = None.

Lemma first_run_reached : ∃ s, rtc shim_step new_shim s ∧ first_run s.
Proof.
  eexists. split.
  - eapply rtc_l; [left; apply (sh_run new_shim 0); reflexivity|].
    shim_by (sh_fetch _ 0%nat sample_bundle).
    shim_by (sh_provision _ 0%nat sample_bundle).
    shim_by (sh_retain _ 0%nat sample_bundle).
    shim_by (sh_reset _ 0%nat sample_bundle).
    apply (run_to_exit _ 0%nat sample_bundle 3); reflexivity.
  - repeat split; reflexivity.
Qed.

(** It is published, and the VM suspended and resumed: the second run is about to be
    spawned. *)
Lemma second_run_reached : ∃ s, rtc shim_step new_shim s ∧
  sh_hooks s !! 1%nat = Some (HookSpawning sample_bundle) ∧ sh_streams s = ∅ ∧ sh_procs s = [mkProc (Some 3) true true true].
Proof.
  destruct first_run_reached as (s & Hrun & Hp & Hs & _ & _ & Hst & Hb & H1). destruct s; cbn in *; subst.
  eexists. split; [etrans; [exact Hrun|]|].
  - shim_by (sh_done _ 0%nat). shim_by (sh_publish _ 0%nat).
    eapply rtc_l; [left; apply sh_suspend|]. apply rtc_once. left. by apply (sh_resume _ 1%nat).
  - cbn. by rewrite lookup_insert_eq.
Qed.

Definition second_stream : Stream :=
  mkStream None [] [ShimKeepAlive; ShimExited 1 5] false 1 false.

Lemma second_run_streams s :
  sh_hooks s !! 1%nat = Some (HookSpawning sample_bundle) → sh_streams s = ∅ → sh_procs s = [mkProc (Some 3) true true true] →
  ∃ s', rtc shim_step (set_hook 1 (HookStarting sample_bundle) (reset s)) s' ∧ sh_streams s' !! 0%nat = Some second_stream.
Proof.
  intros Hh Hs Hp. destruct s; cbn in *; subst. eexists. split.
  - eapply rtc_l; [right; by apply (sh_subscribe _ 0%nat)|].
    etrans; [apply (run_to_exit _ 1%nat sample_bundle 5); [apply lookup_insert_eq|done]|].
    shim_by (sh_done _ 1%nat). shim_by (sh_publish _ 1%nat).
    eapply rtc_l; [right; eapply (sh_first _ 0%nat); [reflexivity|reflexivity|by eexists]|].
    apply rtc_once. right. eapply (sh_send _ 0%nat); reflexivity.
  - reflexivity.
Qed.

Lemma exit_is_of_this_run_witness : ∃ s s', rtc shim_step new_shim s ∧
  rtc shim_step (set_hook 1 (HookStarting sample_bundle) (reset s)) s' ∧
  length (sh_procs s) = 1%nat ∧ sh_streams s' !! 0%nat = Some second_stream ∧
  ∃ run p, (length (sh_procs s) ≤ run)%nat ∧ sh_procs s' !! run = Some p ∧ p_exit p = Some 5.
Proof.
  destruct second_run_reached as (s & Hrun1 & Hh & Hs & Hp).
  destruct (second_run_streams s Hh Hs Hp) as (s' & Hrun2 & Hc).
  exists s, s'. split_and!; [done|done|by rewrite Hp|done|].
  apply (exit_is_of_this_run (H := sample_mvm_json) s s' 1 0 sample_bundle second_stream
    (@stream_text sample_mvm_json (st_out second_stream)) "" 5); try done.
  - rewrite Hp. intros [|d] p; [by intros [= <-]|done].
  - by rewrite Hs.
Defined.

(** The exit of a run that is published only after the next run's reset is replayed
    to the streams of that run. *)
Lemma late_exit_replayed : ∃ s c st, rtc shim_step new_shim s ∧ sh_streams s !! c = Some st ∧
  st_first st = Some (ShimExited 0 3) ∧ sh_procs s = [mkProc (Some 3) true true true; new_proc].
Proof.
  destruct first_run_reached as (s & Hrun & Hp & Hs & _ & _ & Hst & Hb & H1). destruct s; cbn in *; subst.
  eexists _, 0%nat, _. split; [etrans; [exact Hrun|]|].
  - shim_by (sh_done _ 0%nat).
    eapply rtc_l; [left; by apply (sh_resume _ 1%nat)|].
    eapply rtc_l; [right; apply (sh_reset _ 1%nat sample_bundle); cbn; apply lookup_insert_eq|].
    shim_by (sh_publish _ 0%nat).
    eapply rtc_l; [right; apply (sh_start _ 1%nat sample_bundle); cbn; apply lookup_insert_eq|].
    apply rtc_once. right. by apply (sh_subscribe _ 0%nat).
  - repeat split.
Qed.


(** [stopDriver] may be back before the exit is published. *)
Lemma stop_before_publish : ∃ s p, rtc shim_step new_shim s ∧ sh_stops s !! 0%nat = Some (StopReturned (Some 0%nat)) ∧
  sh_procs s !! 0%nat = Some p ∧ p_done p = true ∧ p_published p = false.
Proof.
  destruct first_run_reached as (s & Hrun & Hp & Hs & Ht & Hc & _). destruct s; cbn in *; subst.
  eexists _, _. split.
  - etrans; [exact Hrun|].
    eapply rtc_l; [right; eapply (sh_done _ 0%nat); reflexivity|].
    eapply rtc_l; [right; apply (sh_stop _ 0%nat); reflexivity|].
    apply rtc_once. right. eapply (sh_stopped _ 0%nat 0%nat); [left; reflexivity|reflexivity|reflexivity].
  - repeat split.
Qed.

(** A /run whose driver did not start leaves [started] set: when it is called
    again it reports success, and no driver runs. *)
Lemma failed_start_is_final : ∃ s, rtc shim_step new_shim s ∧ sh_hooks s !! 0%nat = Some (HookReturned false) ∧
  sh_hooks s !! 1%nat = Some (HookReturned true) ∧ sh_procs s = [].
Proof.
  eexists. split.
  - eapply rtc_l; [left; apply (sh_run new_shim 0); reflexivity|].
    shim_by (sh_fetch _ 0%nat sample_bundle). shim_by (sh_provision _ 0%nat sample_bundle).
    shim_by (sh_retain _ 0%nat sample_bundle). shim_by (sh_reset _ 0%nat sample_bundle).
    eapply rtc_l; [right; by apply (sh_start_err _ 0%nat sample_bundle)|].
    apply rtc_once. left. apply (sh_run _ 1); reflexivity.
  - repeat split.
Qed.
