(* ===== verification/RunnerBoot.v ===== *)
(** * What the runner does with its records at boot

    [Runner.Load] of [internal/runner/runner.go]: every record is accounted for,
    and the semaphore starts at the number of sandboxes supervised. *)

From S2P Require Import Prelude AuthScope EventModel TaskModel.
From S2P Require Import Prog Workspace TaskState Runner RunnerSpec.

(** ** Accounting for a record *)

Definition supervisor_of (rec : TaskRecord) : Goroutine :=
  Supervise (TR_TaskID rec) (TR_Version rec) (handle_of rec).

Definition lost_report (rec : TaskRecord) : RunnerEvent :=
  sandbox_failed (TR_TaskID rec) (TR_Version rec) "sandbox exited".

Definition probed (rec : TaskRecord) (st : SandboxState) (e : list Effect) : Prop :=
  Probed (handle_of rec) (inr st) ∈ e.

(** The sandbox is down while the server has the task running. *)
Definition down (rec : TaskRecord) (e : list Effect) : Prop :=
  probed rec StateExited e ∨ probed rec StateGone e.
Definition server_running (rec : TaskRecord) (e : list Effect) : Prop :=
  ∃ task, Fetched (TR_TaskID rec) (inr task) ∈ e ∧ Task_Status task = TaskStatusRunning.

(** Nothing could be learnt, or the sandbox is supervised again, or it is down
    and a task the server takes for running was failed or the runner died. *)
Definition settled (rec : TaskRecord) (s' : Shared) (e : list Effect) : Prop :=
  (∃ err, Probed (handle_of rec) (inl err) ∈ e) ∨ probed rec StateUnknown e ∨
  (probed rec StateRunning e ∧ supervisor_of rec ∈ spawned e) ∨
  (down rec e ∧ ∃ got, Fetched (TR_TaskID rec) got ∈ e ∧
     ∀ task, got = inr task → Task_Status task = TaskStatusRunning →
       lost_report rec ∈ sh_queue s' ∨ is_Some (sh_fatal s')).

Record load_facts (recs : list TaskRecord) (s s' : Shared) (e : list Effect) : Prop := {
  lf_settled rec : rec ∈ recs → settled rec s' e;
  lf_queue : ∃ evs, sh_queue s' = sh_queue s ++ evs ∧ ∀ ev, ev ∈ evs →
    ∃ rec, rec ∈ recs ∧ ev = lost_report rec ∧ down rec e ∧ server_running rec e;
  lf_spawned g : g ∈ spawned e → ∃ rec, rec ∈ recs ∧ g = supervisor_of rec ∧ probed rec StateRunning e;
  lf_store id : sh_store s' !! id = sh_store s !! id ∨
    (sh_store s' !! id = None ∧ ∃ rec, rec ∈ recs ∧ TR_TaskID rec = id ∧ probed rec StateGone e);
  lf_fatal : is_Some (sh_fatal s) → is_Some (sh_fatal s');
  lf_sem : sh_sem s' = sh_sem s }.

Lemma spawned_app e1 e2 : spawned (e1 ++ e2) = spawned e1 ++ spawned e2.
Proof. apply omap_app. Qed.

Lemma load_facts_nil s : load_facts [] s s [].
Proof.
  split; try done.
  - intros rec H. by apply elem_of_nil in H.
  - exists []. rewrite app_nil_r. split; [done|]. intros ev H. by apply elem_of_nil in H.
  - intros g H. by apply elem_of_nil in H.
  - intros id. by left.
Qed.

(** What is settled stays settled. *)
Lemma settled_mono rec s1 s2 e1 e2 e :
  (∀ x, x ∈ e1 → x ∈ e) → (∀ g, g ∈ spawned e1 → g ∈ spawned e) →
  (∀ ev, ev ∈ sh_queue s1 → ev ∈ sh_queue s2) → (is_Some (sh_fatal s1) → is_Some (sh_fatal s2)) →
  settled rec s1 e1 → e2 = e → settled rec s2 e2.
Proof.
  intros He Hg Hq Hf H ->. unfold settled, probed, down in *.
  destruct H as [[err H]|[H|[[H Hs]|[Hd (got & Hgot & Hr)]]]]; [left; eauto|right; left; eauto|..].
  - right; right; left. eauto.
  - right; right; right. split; [naive_solver|]. exists got. split; [eauto|].
    intros task Ht Hst. destruct (Hr task Ht Hst); eauto.
Qed.

Lemma load_facts_app l1 l2 s s1 s' e1 e2 :
  load_facts l1 s s1 e1 → load_facts l2 s1 s' e2 → load_facts (l1 ++ l2) s s' (e1 ++ e2).
Proof.
  intros [Hs1 (evs1 & Hq1 & He1) Hg1 Hst1 Hf1 Hm1] [Hs2 (evs2 & Hq2 & He2) Hg2 Hst2 Hf2 Hm2].
  assert (Hl : ∀ x, x ∈ e1 → x ∈ e1 ++ e2) by (intros; apply elem_of_app; by left).
  assert (Hr : ∀ x, x ∈ e2 → x ∈ e1 ++ e2) by (intros; apply elem_of_app; by right).
  split.
  - intros rec [H|H]%elem_of_app.
    + eapply (settled_mono _ s1); [exact Hl| | |done|by apply Hs1|done].
      * intros g. rewrite spawned_app, elem_of_app. by left.
      * intros ev. rewrite Hq2, elem_of_app. by left.
    + eapply (settled_mono _ s'); [exact Hr| |done|done|by apply Hs2|done].
      intros g. rewrite spawned_app, elem_of_app. by right.
  - exists (evs1 ++ evs2). split; [by rewrite Hq2, Hq1, app_assoc|].
    unfold down, server_running, probed in *.
    intros ev [H|H]%elem_of_app;
      [destruct (He1 ev H) as (rec & Hrec & -> & Hd & task & Hf & Ht)
      |destruct (He2 ev H) as (rec & Hrec & -> & Hd & task & Hf & Ht)];
      exists rec; rewrite elem_of_app; naive_solver.
  - intros g. rewrite spawned_app. unfold probed in *.
    intros [H|H]%elem_of_app;
      [destruct (Hg1 g H) as (rec & Hrec & -> & Hp)|destruct (Hg2 g H) as (rec & Hrec & -> & Hp)];
      exists rec; rewrite elem_of_app; eauto.
  - intros id. unfold probed in *. setoid_rewrite elem_of_app at 1.
    destruct (Hst2 id) as [->|(-> & rec & Hrec & Hid & Hp)]; [|right; split; [done|]; exists rec; eauto].
    destruct (Hst1 id) as [->|(-> & rec & Hrec & Hid & Hp)]; [by left|]. right. split; [done|].
    exists rec. eauto.
  - eauto.
  - congruence.
Qed.

(** ** One record *)

Lemma failIfTaskRunning_wp rec s e0 st :
  st = StateExited ∨ st = StateGone → ∀ Φ : unit → World → Prop,
  (∀ s' got, sh_store s' = sh_store s →
     load_facts [rec] s s' [Probed (handle_of rec) (inr st); Fetched (TR_TaskID rec) got] →
     Φ tt (s', e0 ++ [Fetched (TR_TaskID rec) got])) →
  wp (demonic world_step) (failIfTaskRunning (TR_TaskID rec) (TR_Version rec)) Φ (s, e0).
Proof.
  intros Hst Φ H.
  assert (Hdown : ∀ e, Probed (handle_of rec) (inr st) ∈ e → down rec e).
  { intros e He. unfold down, probed. destruct Hst as [->| ->]; eauto. }
  unfold failIfTaskRunning. world_bind. intros r [s1 e1] [Hs He]. simpl in Hs, He. subst s1 e1.
  cbn [wp].
  assert (Hq : (∀ task, r = inr task → Task_Status task ≠ TaskStatusRunning) →
    Φ tt (s, e0 ++ [Fetched (TR_TaskID rec) r])).
  { intros Hno. apply H; [done|]. split; try done.
    - intros rec' ->%list_elem_of_singleton. right; right; right. split; [apply Hdown; by left|].
      exists r. split; [by right; left|]. intros task Ht Hrun. by destruct (Hno task Ht).
    - exists []. rewrite app_nil_r. split; [done|]. intros ev Hev. by apply elem_of_nil in Hev.
    - intros g Hg. by apply elem_of_nil in Hg.
    - intros id. by left. }
  destruct r as [err|task]; [by apply Hq|]. case_bool_decide as Hrun; simpl negb; cbv iota;
    [|apply Hq; by intros task' [= <-]].
  apply report_wp. intros s' Hs'. destruct (reported_shared _ _ _ Hs') as (Hm & Hstore & Hq').
  apply H; [done|]. split.
  - intros rec' ->%list_elem_of_singleton. right; right; right. split; [apply Hdown; by left|].
    exists (inr task). split; [by right; left|]. intros _ _ _.
    destruct Hq' as [[-> _]|[_ ?]]; [left; apply elem_of_app; right; by left|by right].
  - destruct Hq' as [[-> _]|[-> _]].
    + eexists. split; [done|]. intros ev ->%list_elem_of_singleton. exists rec.
      split; [by left|]. split; [done|]. split; [apply Hdown; by left|].
      exists task. split; [by right; left|done].
    + exists []. rewrite app_nil_r. split; [done|]. intros ev Hev. by apply elem_of_nil in Hev.
  - intros g Hg. by apply elem_of_nil in Hg.
  - intros id. left. by rewrite Hstore.
  - intros Hf. by destruct Hq' as [[_ ->]|[_ ?]].
  - done.
Qed.

(** ** The loop *)

Definition loaded (n : nat) (recs : list TaskRecord) (s : Shared) (m : Z) (s' : Shared)
    (e : list Effect) : Prop :=
  load_facts recs s s' e ∧ m = Z.of_nat (n + length (spawned e)).

Lemma loaded_cons n k rec recs s s1 e0 e1 m w :
  load_facts [rec] s s1 e1 → length (spawned e1) = k →
  then_ s1 (e0 ++ e1) (loaded (n + k) recs s1) m w → then_ s e0 (loaded n (rec :: recs) s) m w.
Proof.
  intros H1 Hk (e & He & H2 & ->). exists (e1 ++ e). split; [by rewrite He, app_assoc|]. split.
  - by apply (load_facts_app [rec] recs s s1).
  - rewrite spawned_app, length_app. lia.
Qed.

(** A probe that settles the record by itself. *)
Lemma load_facts_probe rec s r e :
  (∀ st, r = inr st → st = StateUnknown ∨ st = StateRunning ∧ e = [Spawned (supervisor_of rec)]) →
  (e = [] ∨ (r = inr StateRunning ∧ e = [Spawned (supervisor_of rec)])) →
  load_facts [rec] s s (Probed (handle_of rec) r :: e).
Proof.
  intros Hr He. split; try done.
  - intros rec' ->%list_elem_of_singleton. unfold settled, probed.
    destruct r as [err|st]; [left; exists err; by left|right].
    destruct (Hr st eq_refl) as [->|[-> ->]]; [left; by left|right; left].
    split; [by left|by left].
  - exists []. rewrite app_nil_r. split; [done|]. intros ev Hev. by apply elem_of_nil in Hev.
  - intros g Hg. destruct He as [->|[-> ->]]; [by apply elem_of_nil in Hg|].
    apply list_elem_of_singleton in Hg as ->. exists rec. split; [by left|]. split; [done|by left].
  - intros id. by left.
Qed.

Lemma load_facts_remove rec s s1 s2 got :
  load_facts [rec] s s1 [Probed (handle_of rec) (inr StateGone); Fetched (TR_TaskID rec) got] →
  dropped (TR_TaskID rec) s1 s2 →
  load_facts [rec] s s2 [Probed (handle_of rec) (inr StateGone); Fetched (TR_TaskID rec) got].
Proof.
  intros [H1 H2 H3 H4 H5 H6] [->| ->]; [by split|]. split; try done. intros id. simpl.
  destruct (decide (id = TR_TaskID rec)) as [->|Hne].
  - right. rewrite lookup_delete_eq. split; [done|]. exists rec. split; [by left|]. split; [done|by left].
  - rewrite lookup_delete_ne by done. apply H4.
Qed.

Lemma load_records_wp recs n s e0 :
  Z.of_nat (n + length recs) < int64_max →
  wp (demonic world_step) (load_records (Z.of_nat n) recs) (then_ s e0 (loaded n recs s)) (s, e0).
Proof.
  revert n s e0. induction recs as [|rec recs IH]; intros n s e0 Hn; simpl in Hn.
  { exists []. rewrite app_nil_r. split; [done|]. split; [apply load_facts_nil|]. f_equal. simpl. lia. }
  cbn [load_records]. world_bind. intros r [s1 e1] [Hs He]. simpl in Hs, He. subst s1 e1. cbn [wp].
  assert (Hnext : ∀ k s1 e1, (k ≤ 1)%nat → load_facts [rec] s s1 e1 → length (spawned e1) = k →
    wp (demonic world_step) (load_records (Z.of_nat (n + k)) recs) (then_ s e0 (loaded n (rec :: recs) s))
      (s1, e0 ++ e1)).
  { intros k s1 e1 Hk Hf Hl. eapply prog_wp_mono; [exact (demonic_mono _)| |apply IH; lia].
    intros m w. by apply loaded_cons. }
  destruct r as [err|[]].
  - specialize (Hnext 0%nat s [Probed (handle_of rec) (inl err)]). rewrite Nat.add_0_r in Hnext.
    apply Hnext; [lia|apply load_facts_probe; [done|by left]|done].
  - specialize (Hnext 0%nat s [Probed (handle_of rec) (inr StateUnknown)]). rewrite Nat.add_0_r in Hnext.
    apply Hnext; [lia|apply load_facts_probe; [intros st [= <-]; by left|by left]|done].
  - world_bind. intros [] [s1 e1] [Hs He]. simpl in Hs, He. subst s1 e1. rewrite <- app_assoc. cbn [wp].
    rewrite wrap64_small by (unfold int64_max in *; lia).
    replace (Z.of_nat n + 1) with (Z.of_nat (n + 1)) by lia.
    apply Hnext; [lia| |done]. apply load_facts_probe; [intros st [= <-]; by right|by right].
  - world_bind. apply (failIfTaskRunning_wp rec s _ StateExited); [by left|].
    intros s1 got _ Hf. rewrite <- app_assoc. specialize (Hnext 0%nat s1).
    rewrite Nat.add_0_r in Hnext. apply Hnext; [lia|done|done].
  - world_bind. apply (failIfTaskRunning_wp rec s _ StateGone); [by right|].
    intros s1 got _ Hf. rewrite <- app_assoc. world_bind.
    intros r [s2 e2] [Hs He]. simpl in Hs, He. rewrite app_nil_r in He. subst e2. cbn [wp].
    specialize (Hnext 0%nat s2). rewrite Nat.add_0_r in Hnext. apply Hnext; [lia| |done].
    eapply load_facts_remove; [exact Hf|]. destruct Hs as [[_ ->]|(err & _ & ->)]; [by right|by left].
Qed.

(** Booting loses no run.  If the records can be listed, every record is
    accounted for: its sandbox is supervised again under the run's version, or
    is down, and then a task the server still has running is failed under that
    version (or the runner dies trying), or could not be probed.  Nothing else
    is reported or supervised, only records of vanished sandboxes are dropped,
    and the semaphore starts at the number of sandboxes supervised. *)
Theorem Load_accounts (s s' : Shared) (r : option string) (e : list Effect) :
  Z.of_nat (size (sh_store s)) < int64_max → ran Load s r s' e →
  match r with
  | Some _ => s' = s ∧ e = []
  | None => ∃ recs s1, recs ≡ₚ map snd (map_to_list (sh_store s)) ∧ load_facts recs s s1 e ∧
      s' = set_sem (Sem_Set (Z.of_nat (length (spawned e))) (sh_sem s)) s1
  end.
Proof.
  intros Hsize Hran. refine (ran_wp _ _ _ _ _ (λ r w, match r with
    | Some _ => w.1 = s ∧ w.2 = []
    | None => ∃ recs s1, recs ≡ₚ map snd (map_to_list (sh_store s)) ∧ load_facts recs s s1 w.2 ∧
        w.1 = set_sem (Sem_Set (Z.of_nat (length (spawned w.2))) (sh_sem s)) s1
    end) _ Hran).
  unfold Load. world_bind. intros r1 [s1 e1] [Hs He]. simpl in Hs, He. subst e1.
  destruct Hs as [-> [(recs & -> & Hrecs)|[err ->]]]; [|done]. cbn [wp]. world_bind.
  eapply prog_wp_mono; [exact (demonic_mono _)| |apply (load_records_wp recs 0); rewrite Hrecs, length_map,
    length_map_to_list; simpl; lia].
  intros m [s1 e1] (e' & He & Hf & ->). simpl in He, Hf |- *. subst e1. intros [] [s2 e2] [Hs He].
  simpl in Hs, He. rewrite app_nil_r in He. subst s2 e2. exists recs, s1. split; [done|].
  split; [done|]. by rewrite (lf_sem _ _ _ _ Hf).
Qed.

(** ** Two records *)

Definition up : TaskRecord := mkTaskRecord 7 3 "docker" "c-7" "{}".
Definition vanished : TaskRecord := mkTaskRecord 8 1 "docker" "c-8" "{}".
Definition two_records : Shared := mkShared (Sem_New 2) {[7 := up; 8 := vanished]} [] false None.
Definition running_task : Task :=
  mkTask 8 "" "r1" "ws" TaskStatusRunning TaskCommandNone 1 1 false 0 0 "" 0 "".

Definition loaded_two : Shared :=
  mkShared (mkSem 1 2) {[7 := up]} [lost_report vanished] false None.

Definition boot_effects : list Effect :=
  [Probed (handle_of up) (inr StateRunning); Spawned (supervisor_of up);
   Probed (handle_of vanished) (inr StateGone); Fetched 8 (inr running_task)].

Lemma load_runs : ran Load two_records None loaded_two boot_effects.
Proof.
  eexists. unfold Load. cbn.
  next_effect (@inr string _ [up; vanished]).
  { split; [reflexivity|]. left. exists [up; vanished]. split; [done|]. by vm_compute. }
  cbn. next_effect (@inr string SandboxState StateRunning); [reflexivity|]. cbn.
  next_effect tt; [reflexivity|]. cbn.
  next_effect (@inr string SandboxState StateGone); [reflexivity|]. cbn.
  next_effect (@inr GetErr Task running_task); [reflexivity|].
  change (wrap64 (0 + 1)) with 1. cbn [wp prog_bind]. rewrite bool_decide_eq_true_2 by done. cbn.
  next_effect (@None string); [left; split; reflexivity|]. cbn.
  next_effect (@None string); [left; split; reflexivity|]. cbn.
  next_effect tt; [reflexivity|]. cbn. split; [done|]. split; [reflexivity|].
  vm_compute. reflexivity.
Qed.

(** One sandbox adopted, one lost run failed. *)
Lemma Load_accounts_witness :
  ∃ recs s1, recs ≡ₚ [up; vanished] ∧ load_facts recs two_records s1 boot_effects ∧
    sem_count (sh_sem loaded_two) = 1.
Proof.
  destruct (Load_accounts two_records loaded_two None boot_effects ltac:(vm_compute; reflexivity)
    load_runs) as (recs & s1 & Hrecs & Hf & _).
  exists recs, s1. split; [|split; [exact Hf|reflexivity]]. rewrite Hrecs. by vm_compute.
Defined.
