(* ===== verification/LogShip.v ===== *)
(** * The log shipper

    Models [internal/runner/logship/logship.go]: an [io.Writer] that masks what
    it is given into a bounded buffer, and a sender that cuts the buffer into
    chunks and delivers them one at a time, retrying or dropping them.  Tickers
    and backoff durations are left out: a drain may start at any time. *)

From S2P Require Import Prelude Store ByteTrie Redact Outbox.
From Stdlib Require Import Ascii.

Definition DefaultChunkSize : Z := Z.shiftl 32 10.
Definition DefaultMaxPendingBytes : Z := Z.shiftl 1 20.

(** The request of [AppendLogChunk], without its constant task id. *)
Record Chunk := mkChunk { ck_Version : Z; ck_Data : list ascii }.

(** Where the goroutine that holds [sendSem] is: nowhere, at the top of
    [drain]'s loop, or in the request. *)
Inductive DrainPC := Idle | Cutting (partial : bool) | Sending (partial : bool).

Record Shipper := mkShipper {
  sp_mask : Writer; sp_buf : list ascii; sp_version : Z; sp_notify : bool;
  sp_inflight : option Chunk; sp_pc : DrainPC }.

(** [isPermanentChunkError]. *)
Definition isPermanentChunkError (err : Err) : bool :=
  match CodeOf err with
  | CodeNotFound | CodeInvalidArgument | CodePermissionDenied => true
  | _ => false
  end.

(** The switch on the error of [AppendLogChunk]. *)
Definition chunk_result (err : option Err) : DeliverResult :=
  match err with
  | None => Delivered
  | Some e => if isPermanentChunkError e then Permanent else Transient
  end.

Section shipper.
Context (secrets : gmap string string) (chunkSize maxPending : nat).

Definition Ship_New : Shipper := mkShipper (NewWriter secrets) [] 0 false None Idle.

Definition set_mask w s := mkShipper w (sp_buf s) (sp_version s) (sp_notify s) (sp_inflight s) (sp_pc s).
Definition set_buf b s := mkShipper (sp_mask s) b (sp_version s) (sp_notify s) (sp_inflight s) (sp_pc s).
Definition set_notify n s := mkShipper (sp_mask s) (sp_buf s) (sp_version s) n (sp_inflight s) (sp_pc s).
Definition set_inflight c s := mkShipper (sp_mask s) (sp_buf s) (sp_version s) (sp_notify s) c (sp_pc s).
Definition set_pc pc s :=
  mkShipper (sp_mask s) (sp_buf s) (sp_version s) (sp_notify s) (sp_inflight s) pc.

Definition SetVersion (version : Z) (s : Shipper) : Shipper :=
  mkShipper (sp_mask s) (sp_buf s) version (sp_notify s) (sp_inflight s) (sp_pc s).

(** The bytes a write adds to the buffer: what the mask emits, unless they
    would take it past the cap. *)
Definition Ship_Write (p : list ascii) (s : Shipper) : Shipper :=
  let before := length (sp_buf s) in
  let '(_, mask, buf) := Write Builder_Write (sp_mask s) (sp_buf s) p in
  let buf := if Nat.ltb maxPending (length buf) then take before buf else buf in
  let full := Nat.leb chunkSize (length buf) in
  set_notify (sp_notify s || full) (set_buf buf (set_mask mask s)).

(** The first half of [Flush]; its drain is the sender's. *)
Definition flush_mask (s : Shipper) : Shipper :=
  let '(_, mask, buf) := Flush Builder_Write (sp_mask s) (sp_buf s) in
  set_buf buf (set_mask mask s).

Definition cut (partial : bool) (s : Shipper) : option (Chunk * Shipper) :=
  let n := length (sp_buf s) in
  if Nat.eqb n 0 || (Nat.ltb n chunkSize && negb partial) then None
  else Some (mkChunk (sp_version s) (take chunkSize (sp_buf s)),
             set_buf (drop chunkSize (sp_buf s)) s).

(** One step of [drain]; [cancelled] is [ctx.Err() != nil]. *)
Definition drain_step (cancelled : bool) (result : DeliverResult) (s : Shipper) : Shipper :=
  match sp_pc s with
  | Idle => s
  | Cutting partial =>
      if cancelled then set_pc Idle s
      else
        match sp_inflight s with
        | Some _ => set_pc (Sending partial) s
        | None =>
            match cut partial s with
            | None => set_pc Idle s
            | Some (next, s) =>
                let partial := partial && negb (Nat.ltb (length (ck_Data next)) chunkSize) in
                set_pc (Sending partial) (set_inflight (Some next) s)
            end
        end
  | Sending partial =>
      match result with
      | Delivered | Permanent => set_pc (Cutting partial) (set_inflight None s)
      | Transient => set_pc (if cancelled then Idle else Cutting partial) s
      end
  end.

(** [Run] on a tick or a wake-up, and [Flush]: the drain that acquires
    [sendSem]. *)
Definition start_drain (partial : bool) (s : Shipper) : Shipper :=
  match sp_pc s with Idle => set_pc (Cutting partial) (set_notify false s) | _ => s end.

(** ** Executions *)

(** What the mask emitted and what of it was buffered, the input since the last
    flush and the masked input before it, and the chunks done with, delivered
    or dropped. *)
Record ShipLog := mkShipLog {
  sl_emits : list (list ascii); sl_buffered : list (list ascii);
  sl_masked : list ascii; sl_input : list ascii; sl_chunks : list (Chunk * bool) }.

(** The chunk a step is done with. *)
Definition settled_chunk (result : DeliverResult) (s : Shipper) : list (Chunk * bool) :=
  match sp_pc s, sp_inflight s, result with
  | Sending _, Some c, Delivered => [(c, true)]
  | Sending _, Some c, Permanent => [(c, false)]
  | _, _, _ => []
  end.

(** What a write or a flush of the mask emits. *)
Definition emitted (p : list ascii) (final : bool) (s : Shipper) : list ascii :=
  fst (consume (sp_mask s) p final).

Definition fits (emit : list ascii) (s : Shipper) : bool :=
  negb (Nat.ltb maxPending (length (sp_buf s ++ emit))).

Inductive ship_step : Shipper * ShipLog → Shipper * ShipLog → Prop :=
| st_write p s l :
    ship_step (s, l)
      (Ship_Write p s,
       mkShipLog (sl_emits l ++ [emitted p false s])
         (sl_buffered l ++ if fits (emitted p false s) s then [emitted p false s] else [])
         (sl_masked l) (sl_input l ++ p) (sl_chunks l))
| st_flush s l :
    ship_step (s, l)
      (flush_mask s,
       mkShipLog (sl_emits l ++ [emitted [] true s]) (sl_buffered l ++ [emitted [] true s])
         (sl_masked l ++ mask secrets (sl_input l)) [] (sl_chunks l))
| st_version v s l : ship_step (s, l) (SetVersion v s, l)
| st_start partial s l : ship_step (s, l) (start_drain partial s, l)
| st_drain cancelled result s l :
    ship_step (s, l)
      (drain_step cancelled result s,
       mkShipLog (sl_emits l) (sl_buffered l) (sl_masked l) (sl_input l)
         (sl_chunks l ++ settled_chunk result s)).

Definition chunk_data (cs : list (Chunk * bool)) : list ascii := concat (map (λ c, ck_Data c.1) cs).
Definition inflight_data (s : Shipper) : list ascii := from_option ck_Data [] (sp_inflight s).

Definition chunk_ok (c : Chunk) : Prop := (0 < length (ck_Data c) ≤ chunkSize)%nat.

Record ship_inv (st : Shipper * ShipLog) : Prop := {
  si_order : chunk_data (sl_chunks st.2) ++ inflight_data st.1 ++ sp_buf st.1 =
             concat (sl_buffered st.2);
  si_sub : sl_buffered st.2 `sublist_of` sl_emits st.2;
  si_mask : markers (sp_mask st.1) = markers (NewWriter secrets) ∧ ∀ more,
    concat (sl_emits st.2) ++ mask secrets (held (sp_mask st.1) ++ more) =
    sl_masked st.2 ++ mask secrets (sl_input st.2 ++ more);
  si_chunks : Forall (λ c, chunk_ok c.1) (sl_chunks st.2) ∧
    ∀ c, sp_inflight st.1 = Some c → chunk_ok c;
  si_sending : ∀ partial, sp_pc st.1 = Sending partial → is_Some (sp_inflight st.1) }.

Lemma emit_Builder emit (sb : list ascii) : emit_to Builder_Write emit sb = (None, sb ++ emit).
Proof. destruct emit; simpl; [by rewrite app_nil_r|done]. Qed.

Lemma Ship_Write_eq p s :
  ∃ w, consume (sp_mask s) p false = (emitted p false s, w) ∧
  Ship_Write p s =
    let buf := if fits (emitted p false s) s then sp_buf s ++ emitted p false s else sp_buf s in
    set_notify (sp_notify s || Nat.leb chunkSize (length buf)) (set_buf buf (set_mask w s)).
Proof.
  unfold Ship_Write, Write, emitted, fits. destruct (consume (sp_mask s) p false) as [emit w].
  exists w. split; [done|]. rewrite emit_Builder. simpl.
  destruct (Nat.ltb maxPending (length (sp_buf s ++ emit))); simpl; [|done].
  by rewrite take_app_length.
Qed.

Lemma flush_mask_eq s :
  ∃ w, consume (sp_mask s) [] true = (emitted [] true s, w) ∧
  flush_mask s = set_buf (sp_buf s ++ emitted [] true s) (set_mask w s).
Proof.
  unfold flush_mask, Flush, emitted. destruct (consume (sp_mask s) [] true) as [emit w].
  exists w. split; [done|]. by rewrite emit_Builder.
Qed.

Lemma chunk_data_app a b : chunk_data (a ++ b) = chunk_data a ++ chunk_data b.
Proof. unfold chunk_data. by rewrite map_app, concat_app. Qed.

Lemma cut_Some partial s next s' :
  (0 < chunkSize)%nat → cut partial s = Some (next, s') →
  chunk_ok next ∧ ck_Data next ++ sp_buf s' = sp_buf s ∧ ck_Version next = sp_version s ∧
  s' = set_buf (drop chunkSize (sp_buf s)) s.
Proof.
  intros Hc. unfold cut. destruct (Nat.eqb_spec (length (sp_buf s)) 0) as [|Hn]; [done|].
  destruct (_ && _); [done|]. intros [= <- <-]. simpl. split; [|by rewrite take_drop].
  unfold chunk_ok. simpl. rewrite length_take. lia.
Qed.
Hypothesis (Hsize : (0 < chunkSize)%nat).

Lemma inv_write p s l :
  ship_inv (s, l) → ship_inv (Ship_Write p s,
    mkShipLog (sl_emits l ++ [emitted p false s])
      (sl_buffered l ++ if fits (emitted p false s) s then [emitted p false s] else [])
      (sl_masked l) (sl_input l ++ p) (sl_chunks l)).
Proof using Type.
  intros [Ho Hsub [Hm Hmask] Hck Hsend]. simpl in *.
  destruct (Ship_Write_eq p s) as (w & Hw & ->).
  destruct (consume_spec _ _ _ _ _ _ Hm Hw) as (Hm' & Hem & _).
  split; simpl; [| | |done|done].
  - rewrite concat_app, <- Ho. unfold inflight_data.
    destruct (fits (emitted p false s) s); simpl; rewrite ?app_nil_r, <- ?app_assoc; done.
  - destruct (fits (emitted p false s) s); [by apply sublist_app|].
    rewrite app_nil_r. by apply sublist_inserts_r.
  - split; [congruence|]. intros more. rewrite concat_app. simpl. rewrite app_nil_r, <- app_assoc.
    rewrite (Hem more) by done. rewrite (Hmask (p ++ more)). by rewrite <- app_assoc.
Qed.

Lemma inv_flush s l :
  ship_inv (s, l) → ship_inv (flush_mask s,
    mkShipLog (sl_emits l ++ [emitted [] true s]) (sl_buffered l ++ [emitted [] true s])
      (sl_masked l ++ mask secrets (sl_input l)) [] (sl_chunks l)).
Proof using Type.
  intros [Ho Hsub [Hm Hmask] Hck Hsend]. simpl in *.
  destruct (flush_mask_eq s) as (w & Hw & ->).
  destruct (consume_spec _ _ _ _ _ _ Hm Hw) as (Hm' & Hem & [Hh|[? _]]); [|done].
  split; simpl; [|by apply sublist_app| |done|done].
  - rewrite concat_app, <- Ho. unfold inflight_data. simpl. by rewrite app_nil_r, <- !app_assoc.
  - split; [congruence|]. specialize (Hem [] ltac:(done)). specialize (Hmask []).
    rewrite Hh in *. rewrite !app_nil_r in *. simpl in Hem.
    intros more. rewrite concat_app. simpl. rewrite app_nil_r. by rewrite Hem, Hmask.
Qed.

Lemma inv_drain cancelled result s l :
  ship_inv (s, l) → ship_inv (drain_step cancelled result s,
    mkShipLog (sl_emits l) (sl_buffered l) (sl_masked l) (sl_input l)
      (sl_chunks l ++ settled_chunk result s)).
Proof using Hsize.
  intros [Ho Hsub Hm [Hck Hin] Hsend]. simpl in *. unfold drain_step, settled_chunk.
  destruct (sp_pc s) as [|partial|partial] eqn:Hpc; rewrite ?app_nil_r.
  - split; simpl; try done. intros partial. congruence.
  - destruct cancelled; [by split|]. destruct (sp_inflight s) as [c|] eqn:Hc.
    + split; simpl; rewrite ?Hc; eauto.
    + destruct (cut partial s) as [[next s1]|] eqn:Hcut.
      * destruct (cut_Some _ _ _ _ Hsize Hcut) as (Hok & Hdata & _ & ->).
        split; simpl; try done; [|split; [done|by intros c [= <-]]].
        rewrite <- Ho. unfold inflight_data. simpl. rewrite Hc. simpl in *. by rewrite Hdata.
      * split; simpl; rewrite ?Hc; done.
  - destruct (Hsend _ eq_refl) as [c Hc]. rewrite Hc in *.
    assert (Hdone : ∀ b, ship_inv (set_pc (Cutting partial) (set_inflight None s),
      mkShipLog (sl_emits l) (sl_buffered l) (sl_masked l) (sl_input l) (sl_chunks l ++ [(c, b)]))).
    { intros b. split; simpl; try done.
      - rewrite <- Ho, chunk_data_app. unfold inflight_data, chunk_data. simpl. rewrite Hc. simpl.
        by rewrite app_nil_r, <- app_assoc.
      - split; [|done]. apply Forall_app. split; [done|]. constructor; [by apply Hin|constructor]. }
    destruct result; [apply Hdone..|]. rewrite app_nil_r.
    destruct cancelled; split; simpl; rewrite ?Hc; done.
Qed.

Lemma ship_inv_step st st' : ship_inv st → ship_step st st' → ship_inv st'.
Proof using Hsize.
  intros Hinv Hstep. destruct Hstep as [p s l|s l|v s l|partial s l|cancelled result s l].
  - by apply inv_write.
  - by apply inv_flush.
  - by destruct Hinv; split.
  - destruct Hinv as [Ho Hsub Hm Hck Hsend]. unfold start_drain.
    destruct (sp_pc s) eqn:Hpc; [|by split; rewrite ?Hpc..]. by split.
  - by apply inv_drain.
Qed.

Definition fresh : Shipper * ShipLog := (Ship_New, mkShipLog [] [] [] [] []).

Lemma ship_inv_reachable st : rtc ship_step fresh st → ship_inv st.
Proof using Hsize.
  assert (H0 : ship_inv fresh).
  { by split. }
  intros H. revert H0. induction H as [|st1 st2 st3 H12 _ IH]; [done|].
  intros H1. by eapply IH, ship_inv_step.
Qed.

(** ** Properties *)

(** The server's copy of the log is the masked log, in order.  Whatever the
    interleaving of writes, flushes, cancelled drains and failing requests, the
    chunks done with, the one in flight and the buffer are, in order and
    without overlap, the masked bytes that were buffered; those are the
    masked stream less whole writes dropped at the cap; every chunk has between
    one byte and the chunk size; and no write takes the buffer past the cap. *)
Theorem shipped_in_order (s : Shipper) (l : ShipLog) :
  rtc ship_step fresh (s, l) →
  chunk_data (sl_chunks l) ++ inflight_data s ++ sp_buf s = concat (sl_buffered l) ∧
  sl_buffered l `sublist_of` sl_emits l ∧
  concat (sl_emits l) ++ mask secrets (held (sp_mask s)) = sl_masked l ++ mask secrets (sl_input l) ∧
  Forall (λ c, chunk_ok c.1) (sl_chunks l) ∧
  (∀ p, (length (sp_buf (Ship_Write p s)) ≤ Nat.max maxPending (length (sp_buf s)))%nat).
Proof using Hsize.
  intros [Ho Hsub [_ Hmask] [Hck _] _]%ship_inv_reachable. simpl in *.
  split; [done|]. split; [done|]. specialize (Hmask []). rewrite !app_nil_r in Hmask.
  split; [done|]. split; [done|]. intros p. destruct (Ship_Write_eq p s) as (w & _ & ->). simpl.
  unfold fits. destruct (Nat.ltb_spec maxPending (length (sp_buf s ++ emitted p false s))); simpl; lia.
Qed.

(** ** Flushing *)

(** A drain against a server that accepts every chunk. *)
Fixpoint drain_all (fuel : nat) (s : Shipper) : Shipper :=
  match fuel with
  | O => s
  | S fuel => drain_all fuel (drain_step false Delivered s)
  end.

(** The allowance for a short chunk is spent only on the last bytes. *)
Definition spent (s : Shipper) : Prop :=
  match sp_pc s with
  | Idle => sp_buf s = [] ∧ sp_inflight s = None
  | Cutting partial => partial = false → sp_buf s = []
  | Sending partial => (partial = false → sp_buf s = []) ∧ is_Some (sp_inflight s)
  end.

(** The steps left: two per byte, two for a chunk in flight, one to stop. *)
Definition steps_left (s : Shipper) : nat :=
  match sp_pc s with
  | Idle => 0
  | Cutting _ => 2 * length (sp_buf s) + match sp_inflight s with Some _ => 3 | None => 1 end
  | Sending _ => 2 * length (sp_buf s) + 2
  end.

Lemma drain_step_spent s :
  spent s → spent (drain_step false Delivered s) ∧
  (sp_pc s ≠ Idle → (steps_left (drain_step false Delivered s) < steps_left s)%nat).
Proof using Hsize.
  unfold spent, steps_left, drain_step. destruct (sp_pc s) as [|partial|partial] eqn:Hpc.
  - rewrite Hpc. done.
  - intros Hsp. destruct (sp_inflight s) as [c|] eqn:Hc; simpl; rewrite ?Hc; simpl.
    + split; [split; [done|by eexists]|lia].
    + destruct (cut partial s) as [[next s1]|] eqn:Hcut; simpl.
      * destruct (cut_Some _ _ _ _ Hsize Hcut) as ([Hpos _] & Hdata & _ & ->). simpl in *.
        assert (Hlen : length (sp_buf s) = (length (ck_Data next) + length (drop chunkSize (sp_buf s)))%nat)
          by (rewrite <- Hdata at 1; apply length_app).
        split; [|intros _; lia]. split; [|by eexists].
        unfold cut in Hcut. destruct (_ || _); [done|]. injection Hcut as <-. simpl in *.
        intros [Hp|Hp%negb_false_iff%Nat.ltb_lt]%andb_false_iff.
        -- by rewrite (Hsp Hp), drop_nil.
        -- rewrite length_take in Hp. apply drop_ge. lia.
      * rewrite Hc. split; [|lia]. split; [|done]. unfold cut in Hcut.
        destruct (Nat.eqb_spec (length (sp_buf s)) 0) as [Hn|_]; [by apply length_zero_iff_nil|].
        simpl in Hcut. destruct (_ && negb partial) eqn:E; [|done].
        apply andb_true_iff in E as [_ ->%negb_true_iff]. by apply Hsp.
  - intros [Hsp Hin]. simpl. split; [done|lia].
Qed.

Lemma drain_all_done fuel s :
  spent s → (steps_left s ≤ fuel)%nat →
  sp_pc (drain_all fuel s) = Idle ∧ sp_buf (drain_all fuel s) = [] ∧
  sp_inflight (drain_all fuel s) = None.
Proof using Hsize.
  revert s. induction fuel as [|fuel IH]; intros s Hsp Hf; simpl.
  - unfold steps_left, spent in *. destruct (sp_pc s) as [| |]; [done|destruct (sp_inflight s); lia|lia].
  - destruct (drain_step_spent s Hsp) as [Hsp' Hlt]. apply IH; [done|].
    destruct (sp_pc s) eqn:Hpc; [|specialize (Hlt ltac:(done)); lia..].
    unfold drain_step. rewrite Hpc. unfold steps_left. rewrite Hpc. lia.
Qed.

Lemma drain_all_steps fuel s l :
  ∃ l', rtc ship_step (s, l) (drain_all fuel s, l') ∧ sl_buffered l' = sl_buffered l.
Proof using Type.
  revert s l. induction fuel as [|fuel IH]; intros s l; simpl; [by exists l|].
  destruct (IH (drain_step false Delivered s) (mkShipLog (sl_emits l) (sl_buffered l) (sl_masked l)
    (sl_input l) (sl_chunks l ++ settled_chunk Delivered s))) as (l' & Hr & Hb).
  exists l'. split; [|done]. eapply rtc_l; [apply st_drain|exact Hr].
Qed.

(** A flush gets everything out.  Once nobody is sending, flushing the mask
    and draining against a server that answers empties mask, buffer and
    flight in at most two steps per byte, and then every buffered byte is in a
    chunk that was delivered or dropped by the server's final word. *)
Theorem flush_drains (s : Shipper) (l : ShipLog) :
  rtc ship_step fresh (s, l) → sp_pc s = Idle →
  let s1 := start_drain true (flush_mask s) in
  let s2 := drain_all (2 * length (sp_buf s1) + 3) s1 in
  sp_pc s2 = Idle ∧ sp_buf s2 = [] ∧ sp_inflight s2 = None ∧ held (sp_mask s1) = [] ∧
  ∃ l', rtc ship_step (s, l) (s2, l') ∧ chunk_data (sl_chunks l') = concat (sl_buffered l').
Proof using Hsize.
  intros Hr Hpc s1 s2. pose proof (ship_inv_reachable _ Hr) as Hinv.
  destruct (flush_mask_eq s) as (w & Hw & Hf).
  assert (Hs1 : sp_pc s1 = Cutting true ∧ sp_mask s1 = w).
  { unfold s1. rewrite Hf. unfold start_drain. simpl. rewrite Hpc. done. }
  destruct Hs1 as [Hpc1 Hm1].
  assert (Hdone : sp_pc s2 = Idle ∧ sp_buf s2 = [] ∧ sp_inflight s2 = None).
  { apply drain_all_done.
    - unfold spent. by rewrite Hpc1.
    - unfold steps_left. rewrite Hpc1. destruct (sp_inflight s1); lia. }
  destruct Hdone as (Hpc2 & Hbuf & Hfl). split; [done|]. split; [done|]. split; [done|]. split.
  - rewrite Hm1. destruct (consume_spec _ _ _ _ _ _ (proj1 (si_mask _ Hinv)) Hw) as (_ & _ & [?|[? _]]); done.
  - destruct (drain_all_steps (2 * length (sp_buf s1) + 3) s1
      (mkShipLog (sl_emits l ++ [emitted [] true s]) (sl_buffered l ++ [emitted [] true s])
        (sl_masked l ++ mask secrets (sl_input l)) [] (sl_chunks l))) as (l' & Hr' & _).
    fold s2 in Hr'. assert (Hall : rtc ship_step (s, l) (s2, l')).
    { eapply rtc_l; [apply st_flush|]. eapply rtc_l; [apply (st_start true)|]. exact Hr'. }
    exists l'. split; [done|].
    assert (Hr2 : rtc ship_step fresh (s2, l')) by (etrans; [exact Hr|exact Hall]).
    pose proof (si_order _ (ship_inv_reachable _ Hr2)) as Ho.
    simpl in Ho. unfold inflight_data in Ho. rewrite Hbuf, Hfl in Ho. simpl in Ho. by rewrite app_nil_r in Ho.
Qed.
End shipper.

(** ** A log with a secret split across two writes *)

Definition log_secrets : gmap string string := {["TOKEN" := "s3cr3t"]}.

Definition written : Shipper :=
  Ship_Write 8 64 (bytes "r3t ok") (Ship_Write 8 64 (bytes "key s3c") (Ship_New log_secrets)).

Lemma written_reachable : ∃ l,
  rtc (ship_step log_secrets 8 64) (fresh log_secrets) (written, l) ∧
  concat (sl_buffered l) = bytes "key [gritz:masked TOKEN] ok" ∧ sl_chunks l = [].
Proof.
  eexists. split.
  - eapply rtc_l; [apply (st_write _ _ _ (bytes "key s3c"))|].
    eapply rtc_l; [apply (st_write _ _ _ (bytes "r3t ok"))|]. apply rtc_refl.
  - vm_compute. done.
Qed.

Lemma shipped_in_order_witness : ∃ l,
  rtc (ship_step log_secrets 8 64) (fresh log_secrets) (written, l) ∧
  sp_buf written = concat (sl_buffered l).
Proof.
  destruct written_reachable as (l & Hr & _ & Hc). exists l. split; [exact Hr|].
  destruct (shipped_in_order log_secrets 8 64 ltac:(lia) written l Hr) as (Ho & _).
  rewrite <- Ho, Hc. vm_compute. reflexivity.
Defined.

(** Flushing it ships four chunks of at most eight bytes. *)
Lemma flush_drains_witness :
  let s2 := drain_all 8 200 (start_drain true (flush_mask written)) in
  sp_buf s2 = [] ∧ sp_inflight s2 = None.
Proof.
  destruct written_reachable as (l & Hr & _).
  destruct (flush_drains log_secrets 8 64 ltac:(lia) written l Hr ltac:(vm_compute; reflexivity))
    as (_ & Hb & Hf & _).
  split; [rewrite <- Hb|rewrite <- Hf]; vm_compute; reflexivity.
Defined.
