(* ===== verification/DriverLog.v ===== *)
(** * The driver's log

    Models [internal/runner/agent/log.go]: the log file in the sandbox, the writers
    that tee what is logged and what subprocesses print into the file, the standard
    streams and the shipper of [LogShip], the delimiter of a run, and closing.  The
    tee takes no lock: the writes to its parts are steps of their own, and those of
    different writers (the logger and the two copying goroutines of a command)
    interleave.  The disk may fill up; the standard streams take every byte. *)

From S2P Require Import Prelude Store ByteTrie Redact Outbox LogShip.
From Stdlib Require Import Ascii.

Definition DefaultLogPath : string := "/gritz/log".

(** The file opened for appending: what it holds, and the bytes that the disk still
    takes. *)
Record LogFile := mkLogFile { lf_data : list ascii; lf_room : nat }.

(** [os.File]'s [Write]: what fits is written. *)
Definition file_write (p : list ascii) (f : LogFile) : option string * LogFile :=
  (if (length p <=? lf_room f)%nat then None else Some "no space left on device",
   mkLogFile (lf_data f ++ take (lf_room f) p) (lf_room f - length p)).

(** What the sink is made of: the file, [None] when it did not open and a writer
    that discards took its place, and the shipper if logs are shipped. *)
Record DriverLog := mkDriverLog {
  dl_file : option LogFile; dl_shipper : option Shipper;
  dl_stdout : list ascii; dl_stderr : list ascii }.

Section log.
Context (secrets : gmap string string) (chunkSize maxPending : nat).

Local Abbreviation Ship_Write := (Ship_Write chunkSize maxPending).

Definition with_file f l := mkDriverLog f (dl_shipper l) (dl_stdout l) (dl_stderr l).
Definition with_shipper s l := mkDriverLog (dl_file l) s (dl_stdout l) (dl_stderr l).
Definition to_stdout p l := mkDriverLog (dl_file l) (dl_shipper l) (dl_stdout l ++ p) (dl_stderr l).
Definition to_stderr p l := mkDriverLog (dl_file l) (dl_shipper l) (dl_stdout l) (dl_stderr l ++ p).

(** [io.MultiWriter(file, shipper)]: the write to the file, then, if that did not
    fail, the one to the shipper. *)
Definition file_part (p : list ascii) (l : DriverLog) : option string * DriverLog :=
  match dl_file l with
  | None => (None, l)
  | Some f => let (err, f) := file_write p f in (err, with_file (Some f) l)
  end.
Definition ship_part (p : list ascii) (l : DriverLog) : DriverLog := with_shipper (Ship_Write p <$> dl_shipper l) l.

(** A write that no other comes between. *)
Definition sink_write (p : list ascii) (l : DriverLog) : option string * DriverLog :=
  let (err, l) := file_part p l in
  match err with Some _ => (err, l) | None => (None, ship_part p l) end.

(** A write to [Stdout] and to [Stderr], which the logger writes to as well. *)
Definition stdout_write (p : list ascii) (l : DriverLog) : option string * DriverLog := sink_write p (to_stdout p l).
Definition stderr_write (p : list ascii) (l : DriverLog) : option string * DriverLog := sink_write p (to_stderr p l).

(** The logger's handler and [Fprintf] drop the error. *)
Definition log_line (p : list ascii) (l : DriverLog) : DriverLog := snd (stderr_write p l).

(** [OpenDriverLog]: [opened] is what opening the file gave, and [warning] the line
    that tells of a failure. *)
Definition OpenDriverLog (opened : string + LogFile) (shipper : option Shipper) (warning : string → list ascii)
    (stdout stderr : list ascii) : DriverLog :=
  match opened with
  | inr f => mkDriverLog (Some f) shipper stdout stderr
  | inl err => log_line (warning err) (mkDriverLog None shipper stdout stderr)
  end.

Definition bytes (s : string) : list ascii := String.list_ascii_of_string s.

Definition delimiter (version pid : Z) : list ascii :=
  bytes ("==== run version=" +:+ FormatInt version +:+ " pid=" +:+ FormatInt pid +:+ " ====" +:+
         String (ascii_of_nat 10) "").

(** [Flush] and [Close]: [flushed] is the shipper's flush within the deadline, and
    whether something stayed unsent; the note of that goes round the tee. *)
Definition Log_Flush (flushed : Shipper → option string * Shipper) (l : DriverLog) : option string * DriverLog :=
  match dl_shipper l with
  | None => (None, l)
  | Some s => let (err, s) := flushed s in (err, with_shipper (Some s) l)
  end.

Definition Log_Close (flushed : Shipper → option string * Shipper) (l : DriverLog) : DriverLog :=
  let (err, l) := Log_Flush flushed l in
  match err with
  | Some err => to_stderr (bytes ("gritz: " +:+ err +:+ String (ascii_of_nat 10) "")) l
  | None => l
  end.

(** ** Writers *)

(** A line of the logger, what a subprocess prints, and the shipper's version. *)
Inductive LogOp :=
| OpLog (p : list ascii)
| OpStdout (p : list ascii)
| OpStderr (p : list ascii)
| OpVersion (version : Z).

(** What an operation writes. *)
Definition op_bytes (op : LogOp) : list ascii :=
  match op with OpLog p | OpStdout p | OpStderr p => p | OpVersion _ => [] end.

(** [StartRun]: the version first, so that the delimiter belongs to the run. *)
Definition StartRun (version pid : Z) : list LogOp := [OpVersion version; OpLog (delimiter version pid)].

(** The first part of a tee: the standard stream. *)
Definition stream_part (op : LogOp) (l : DriverLog) : DriverLog :=
  match op with
  | OpStdout p => to_stdout p l
  | OpLog p | OpStderr p => to_stderr p l
  | OpVersion v => with_shipper (SetVersion v <$> dl_shipper l) l
  end.

(** Where a writer is with the first of its operations.  One that copies the output
    of a command gives up at an error, the others carry on. *)
Inductive Stage := ToStream | ToFile | ToShip.
Record Writer := mkWriter { wr_copies : bool; wr_todo : list LogOp; wr_stage : Stage }.

(** The log, the shipper's record, the writers, and which writer's operations have
    reached the streams, the file and the shipper. *)
Record Tee := mkTee {
  te_log : DriverLog; te_ship : ShipLog; te_writers : list Writer;
  te_streamed : list (nat * LogOp); te_filed : list (nat * LogOp); te_shipped : list (nat * LogOp) }.

Definition ship_logged (p : list ascii) (l : DriverLog) (sl : ShipLog) : ShipLog :=
  match dl_shipper l with
  | None => sl
  | Some s =>
      mkShipLog (sl_emits sl ++ [emitted p false s])
        (sl_buffered sl ++ if LogShip.fits maxPending (emitted p false s) s then [emitted p false s] else [])
        (sl_masked sl) (sl_input sl ++ p) (sl_chunks sl)
  end.

Inductive tee_step : Tee → Tee → Prop :=
| ts_version i c v rest l sl ws st fi sh :
    ws !! i = Some (mkWriter c (OpVersion v :: rest) ToStream) →
    tee_step (mkTee l sl ws st fi sh)
      (mkTee (stream_part (OpVersion v) l) sl (<[i := mkWriter c rest ToStream]> ws)
         (st ++ [(i, OpVersion v)]) (fi ++ [(i, OpVersion v)]) (sh ++ [(i, OpVersion v)]))
| ts_stream i c op rest l sl ws st fi sh :
    (∀ v, op ≠ OpVersion v) → ws !! i = Some (mkWriter c (op :: rest) ToStream) →
    tee_step (mkTee l sl ws st fi sh)
      (mkTee (stream_part op l) sl (<[i := mkWriter c (op :: rest) ToFile]> ws) (st ++ [(i, op)]) fi sh)
| ts_file i c op rest l l' sl ws st fi sh :
    ws !! i = Some (mkWriter c (op :: rest) ToFile) → file_part (op_bytes op) l = (None, l') →
    tee_step (mkTee l sl ws st fi sh)
      (mkTee l' sl (<[i := mkWriter c (op :: rest) ToShip]> ws) st (fi ++ [(i, op)]) sh)
| ts_file_fails i c op rest err l l' sl ws st fi sh :
    ws !! i = Some (mkWriter c (op :: rest) ToFile) → file_part (op_bytes op) l = (Some err, l') →
    tee_step (mkTee l sl ws st fi sh)
      (mkTee l' sl (<[i := mkWriter c (if c then [] else rest) ToStream]> ws) st fi sh)
| ts_ship i c op rest l sl ws st fi sh :
    ws !! i = Some (mkWriter c (op :: rest) ToShip) →
    tee_step (mkTee l sl ws st fi sh)
      (mkTee (ship_part (op_bytes op) l) (ship_logged (op_bytes op) l sl) (<[i := mkWriter c rest ToStream]> ws)
         st fi (sh ++ [(i, op)]))
| ts_drain partial l s sl ws st fi sh :
    (* the shipper's own goroutine *)
    dl_shipper l = Some s →
    tee_step (mkTee l sl ws st fi sh) (mkTee (with_shipper (Some (start_drain partial s)) l) sl ws st fi sh)
| ts_send cancelled result l s sl ws st fi sh :
    dl_shipper l = Some s →
    tee_step (mkTee l sl ws st fi sh)
      (mkTee (with_shipper (Some (drain_step chunkSize cancelled result s)) l)
         (mkShipLog (sl_emits sl) (sl_buffered sl) (sl_masked sl) (sl_input sl) (sl_chunks sl ++ settled_chunk result s))
         ws st fi sh).

(** The writers before they start. *)
Definition tee_of (l : DriverLog) (sl : ShipLog) (progs : list (list LogOp)) (copies : list LogOp → bool) : Tee :=
  mkTee l sl ((λ p, mkWriter (copies p) p ToStream) <$> progs) [] [] [].

(** ** A subprocess whose output is teed *)

(** [os/exec]'s copying of a command's output: it ends at the first error. *)
Fixpoint copy_output (write : list ascii → DriverLog → option string * DriverLog) (output : list (list ascii)) (l : DriverLog)
    : option string * DriverLog :=
  match output with
  | [] => (None, l)
  | p :: output =>
      let (err, l) := write p l in
      match err with Some _ => (err, l) | None => copy_output write output l end
  end.

(** [Cmd.Run] of a command whose output is teed: the command's own failure, or the
    copying's. *)
Definition run_teed (exit : option string) (output : list (list ascii)) (l : DriverLog) : option string * DriverLog :=
  let (err, l) := copy_output stdout_write output l in
  (match exit with Some e => Some e | None => err end, l).

(** ** What is written is everywhere *)

Definition is_stdout (op : LogOp) : bool := match op with OpStdout _ => true | _ => false end.

(** The bytes of operations that reached a place, and those of one stream. *)
Definition written (es : list (nat * LogOp)) : list ascii := es ≫= λ e, op_bytes e.2.
Definition stream_bytes (which : LogOp → bool) (es : list (nat * LogOp)) : list ascii :=
  es ≫= λ e, if which e.2 then op_bytes e.2 else [].

(** The operations of one writer among them. *)
Definition of_writer (i : nat) (es : list (nat * LogOp)) : list LogOp := (filter (λ e, e.1 = i) es).*2.

Lemma written_snoc es e : written (es ++ [e]) = written es ++ op_bytes e.2.
Proof. unfold written. rewrite bind_app. simpl. by rewrite app_nil_r. Qed.

Lemma stream_bytes_snoc which es e :
  stream_bytes which (es ++ [e]) = stream_bytes which es ++ if which e.2 then op_bytes e.2 else [].
Proof. unfold stream_bytes. rewrite bind_app. simpl. by rewrite app_nil_r. Qed.

Lemma of_writer_same i op es : of_writer i (es ++ [(i, op)]) = of_writer i es ++ [op].
Proof. unfold of_writer. rewrite filter_app, filter_cons, decide_True, filter_nil, fmap_app by done. done. Qed.

Lemma of_writer_other i j op es : i ≠ j → of_writer j (es ++ [(i, op)]) = of_writer j es.
Proof. intros Hne. unfold of_writer. rewrite filter_app, filter_cons, decide_False, filter_nil, app_nil_r by done. done. Qed.

(** What a writer has yet to write to the file. *)
Definition todo_bytes (ops : list LogOp) : nat := length (ops ≫= op_bytes).
Definition unfiled (w : Writer) : nat :=
  todo_bytes (match wr_stage w with ToShip => tail (wr_todo w) | _ => wr_todo w end).

Arguments unfiled : simpl never.
Arguments todo_bytes : simpl never.

Lemma todo_cons op ops : todo_bytes (op :: ops) = (length (op_bytes op) + todo_bytes ops)%nat.
Proof. unfold todo_bytes. cbn [mbind list_bind]. by rewrite length_app. Qed.

Lemma sum_insert (ws : list Writer) i w w' :
  ws !! i = Some w → (sum_list_with unfiled (<[i := w']> ws) + unfiled w = sum_list_with unfiled ws + unfiled w')%nat.
Proof.
  revert i. induction ws as [|x ws IH]; intros [|i] Hi; simpl in *; simplify_eq; [lia|]. specialize (IH i Hi). lia.
Qed.

Lemma file_write_fits p f : (length p <= lf_room f)%nat →
  file_write p f = (None, mkLogFile (lf_data f ++ p) (lf_room f - length p)).
Proof. intros Hp. unfold file_write. rewrite (proj2 (Nat.leb_le _ _) Hp). by rewrite take_ge. Qed.

Section invariant.
Context (opened : string + LogFile) (ship : bool) (warned : list ascii) (progs : list (list LogOp)).

(** How far a writer is: its operations done, and how far the one under way. *)
Definition progress (i : nat) (w : Writer) (st fi sh : list (nat * LogOp)) : Prop :=
  progs !! i = Some (of_writer i sh ++ wr_todo w) ∧
  of_writer i fi = of_writer i sh ++ (match wr_stage w with ToShip => take 1 (wr_todo w) | _ => [] end) ∧
  of_writer i st = of_writer i sh ++ (match wr_stage w with ToStream => [] | _ => take 1 (wr_todo w) end).

Record tee_inv (t : Tee) : Prop := {
  ti_writers i w : te_writers t !! i = Some w → progress i w (te_streamed t) (te_filed t) (te_shipped t);
  ti_length : length (te_writers t) = length progs;
  ti_known : Forall (λ e, (e.1 < length progs)%nat) (te_streamed t ++ te_filed t ++ te_shipped t);
  ti_file : match opened, dl_file (te_log t) with
    | inr f, Some f' => lf_data f' = lf_data f ++ written (te_filed t) ∧
        (sum_list_with unfiled (te_writers t) <= lf_room f')%nat
    | inl _, None => True
    | _, _ => False
    end;
  ti_stdout : dl_stdout (te_log t) = stream_bytes is_stdout (te_streamed t);
  ti_stderr : dl_stderr (te_log t) = warned ++ stream_bytes (λ op, negb (is_stdout op)) (te_streamed t);
  ti_ship : match dl_shipper (te_log t) with
    | None => ship = false
    | Some s => ship = true ∧ rtc (ship_step secrets chunkSize maxPending) (fresh secrets) (s, te_ship t) ∧
        sl_input (te_ship t) = warned ++ written (te_shipped t) ∧ sl_masked (te_ship t) = []
    end }.

(** The other writers are where they were. *)
Lemma progress_other i j op w st fi sh (st' fi' sh' : list (nat * LogOp)) :
  i ≠ j → progress j w st fi sh →
  (st' = st ∨ st' = st ++ [(i, op)]) → (fi' = fi ∨ fi' = fi ++ [(i, op)]) → (sh' = sh ∨ sh' = sh ++ [(i, op)]) →
  progress j w st' fi' sh'.
Proof.
  intros Hne (Hp & Hf & Hs) Hst Hfi Hsh. unfold progress.
  destruct Hst as [->| ->], Hfi as [->| ->], Hsh as [->| ->]; rewrite ?(of_writer_other i j) by done; done.
Qed.

Lemma known_snoc (st fi sh st' fi' sh' : list (nat * LogOp)) i op :
  (i < length progs)%nat → Forall (λ e, (e.1 < length progs)%nat) (st ++ fi ++ sh) →
  (st' = st ∨ st' = st ++ [(i, op)]) → (fi' = fi ∨ fi' = fi ++ [(i, op)]) → (sh' = sh ∨ sh' = sh ++ [(i, op)]) →
  Forall (λ e, (e.1 < length progs)%nat) (st' ++ fi' ++ sh').
Proof.
  intros Hi. rewrite !Forall_app. intros (? & ? & ?) [->| ->] [->| ->] [->| ->];
    rewrite ?Forall_app, ?Forall_singleton; by split_and!.
Qed.

(** One writer moves by one operation. *)
Lemma writers_step (i : nat) op (w w' : Writer) (ws : list Writer) (st fi sh st' fi' sh' : list (nat * LogOp)) :
  ws !! i = Some w → (∀ j v, ws !! j = Some v → progress j v st fi sh) → progress i w' st' fi' sh' →
  (st' = st ∨ st' = st ++ [(i, op)]) → (fi' = fi ∨ fi' = fi ++ [(i, op)]) → (sh' = sh ∨ sh' = sh ++ [(i, op)]) →
  ∀ j v, <[i := w']> ws !! j = Some v → progress j v st' fi' sh'.
Proof.
  intros Hi Hall Hp Hst Hfi Hsh j v Hj. apply list_lookup_insert_Some in Hj as [(<- & <- & _)|[Hne Hj]]; [done|].
  eapply progress_other; [exact Hne|by apply Hall|exact Hst|exact Hfi|exact Hsh].
Qed.

Lemma tee_inv_step t t' : tee_inv t → tee_step t t' → tee_inv t'.
Proof.
  intros [Hw Hlen Hk Hf Ho He Hs] Hstep.
  assert (Hlt : ∀ i w, te_writers t !! i = Some w → (i < length progs)%nat).
  { intros i w Hi. rewrite <- Hlen. by eapply lookup_lt_Some. }
  destruct Hstep as [i c v rest l sl ws st fi sh Hi|i c op rest l sl ws st fi sh Hop Hi
    |i c op rest l l' sl ws st fi sh Hi Hfile|i c op rest err l l' sl ws st fi sh Hi Hfile
    |i c op rest l sl ws st fi sh Hi|partial l s sl ws st fi sh Hship|cancelled result l s sl ws st fi sh Hship];
    cbn [te_log te_ship te_writers te_streamed te_filed te_shipped] in *;
    try (pose proof (Hlt _ _ Hi) as Hil; pose proof (Hw _ _ Hi) as (Hp & Hpf & Hps); cbn [wr_todo wr_stage] in Hp, Hpf, Hps).
  - assert (Hsum := sum_insert ws i _ (mkWriter c rest ToStream) Hi). unfold unfiled in Hsum at 2 4; cbn [wr_todo wr_stage tail] in Hsum; rewrite ?todo_cons in Hsum; cbn [op_bytes length] in Hsum.
    constructor; cbn [te_log te_ship te_writers te_streamed te_filed te_shipped]; rewrite ?length_insert; try done.
    + eapply writers_step; [exact Hi|exact Hw| |by right..]. unfold progress. cbn [wr_todo wr_stage].
      rewrite !of_writer_same, !app_nil_r, <- app_assoc. rewrite Hpf, Hps, !app_nil_r. done.
    + eapply known_snoc; [exact Hil|exact Hk|by right..].
    + rewrite written_snoc, app_nil_r. destruct opened, (dl_file l) eqn:Hl; simpl; rewrite Hl; try done.
      destruct Hf. split; [done|]. lia.
    + rewrite stream_bytes_snoc. simpl. by rewrite app_nil_r.
    + rewrite stream_bytes_snoc. simpl. by rewrite app_nil_r.
    + rewrite written_snoc, app_nil_r. simpl. destruct (dl_shipper l) as [s|]; [|done]. simpl.
      destruct Hs as (-> & Hr & Hin & Hm). split_and!; try done. eapply rtc_r; [exact Hr|apply st_version].
  - assert (Hsum := sum_insert ws i _ (mkWriter c (op :: rest) ToFile) Hi). unfold unfiled in Hsum at 2 4; cbn [wr_todo wr_stage tail] in Hsum; rewrite ?todo_cons in Hsum; cbn [op_bytes length] in Hsum.
    assert (Hl : dl_file (stream_part op l) = dl_file l ∧ dl_shipper (stream_part op l) = dl_shipper l).
    { destruct op; try done. by destruct (Hop version). }
    destruct Hl as [Hl1 Hl2].
    constructor; cbn [te_log te_ship te_writers te_streamed te_filed te_shipped]; rewrite ?length_insert, ?Hl1, ?Hl2; try done.
    + eapply writers_step; [exact Hi|exact Hw| |by right|by left..]. unfold progress. cbn [wr_todo wr_stage].
      rewrite of_writer_same, Hpf, Hps, !app_nil_r. done.
    + eapply known_snoc; [exact Hil|exact Hk|by right|by left..].
    + destruct opened, (dl_file l); try done. destruct Hf. split; [done|]. lia.
    + rewrite stream_bytes_snoc. destruct op; simpl; rewrite ?app_nil_r, Ho; try done.
    + rewrite stream_bytes_snoc. destruct op; simpl; rewrite ?app_nil_r, ?app_assoc, He; try done.
  - assert (Hsum := sum_insert ws i _ (mkWriter c (op :: rest) ToShip) Hi). unfold unfiled in Hsum at 2 4; cbn [wr_todo wr_stage tail] in Hsum; rewrite ?todo_cons in Hsum.
    assert (Hl : dl_shipper l' = dl_shipper l ∧ dl_stdout l' = dl_stdout l ∧ dl_stderr l' = dl_stderr l).
    { unfold file_part in Hfile. destruct (dl_file l) as [f'|]; [destruct (file_write _ f')|]; by simplify_eq/=. }
    destruct Hl as (Hl1 & Hl2 & Hl3).
    constructor; cbn [te_log te_ship te_writers te_streamed te_filed te_shipped]; rewrite ?length_insert, ?Hl1, ?Hl2, ?Hl3; try done.
    + eapply writers_step; [exact Hi|exact Hw| |by left|by right|by left]. unfold progress. cbn [wr_todo wr_stage].
      rewrite of_writer_same, Hpf, Hps, !app_nil_r. done.
    + eapply known_snoc; [exact Hil|exact Hk|by left|by right|by left].
    + rewrite written_snoc. unfold file_part in Hfile. destruct opened as [|f], (dl_file l) as [f'|] eqn:Hl; try done.
      * injection Hfile as <-. by rewrite Hl.
      * destruct Hf as [Hd Hr]. rewrite file_write_fits in Hfile by (simpl in *; lia). simplify_eq/=.
        rewrite Hd, <- app_assoc. split; [done|]. simpl in *. lia.
  - exfalso. unfold file_part in Hfile. destruct opened as [|f], (dl_file l) as [f'|] eqn:Hl; try done.
    destruct Hf as [_ Hr]. assert (Hsum := sum_insert ws i _ (mkWriter c [] ToStream) Hi).
    unfold unfiled in Hsum at 2 4; cbn [wr_todo wr_stage tail] in Hsum; rewrite ?todo_cons in Hsum.
    change (todo_bytes []) with 0%nat in Hsum. rewrite file_write_fits in Hfile by (simpl in *; lia). done.
  - assert (Hsum := sum_insert ws i _ (mkWriter c rest ToStream) Hi). unfold unfiled in Hsum at 2 4; cbn [wr_todo wr_stage tail] in Hsum; rewrite ?todo_cons in Hsum; cbn [op_bytes length] in Hsum.
    constructor; cbn [te_log te_ship te_writers te_streamed te_filed te_shipped]; rewrite ?length_insert; try done.
    + eapply writers_step; [exact Hi|exact Hw| |by left|by left|by right]. unfold progress. cbn [wr_todo wr_stage].
      rewrite of_writer_same, Hpf, Hps, !app_nil_r, <- app_assoc. done.
    + eapply known_snoc; [exact Hil|exact Hk|by left|by left|by right].
    + simpl. destruct opened, (dl_file l); try done. destruct Hf. split; [done|]. lia.
    + unfold ship_part, ship_logged. simpl. destruct (dl_shipper l) as [s|]; [|done]. simpl.
      destruct Hs as (-> & Hr & Hin & Hm). split; [done|]. split; [eapply rtc_r; [exact Hr|apply st_write]|].
      by rewrite written_snoc, Hin, app_assoc.
  - constructor; try done; simpl. rewrite Hship in Hs. destruct Hs as (-> & Hr & Hin & Hm).
    split_and!; try done. eapply rtc_r; [exact Hr|apply st_start].
  - constructor; try done; simpl. rewrite Hship in Hs. destruct Hs as (-> & Hr & Hin & Hm).
    split_and!; try done. eapply rtc_r; [exact Hr|apply st_drain].
Qed.
End invariant.

(** The state the writers start from. *)
Definition tee_start (opened : string + LogFile) (ship : bool) (warning : string → list ascii)
    (progs : list (list LogOp)) (copies : list LogOp → bool) : Tee :=
  let l := OpenDriverLog opened (if ship then Some (Ship_New secrets) else None) warning [] [] in
  let sl := match opened, ship with
            | inl err, true => ship_logged (warning err) (mkDriverLog None (Some (Ship_New secrets)) [] []) (fresh secrets).2
            | _, _ => (fresh secrets).2
            end in
  tee_of l sl progs copies.

Definition warned (opened : string + LogFile) (warning : string → list ascii) : list ascii :=
  match opened with inl err => warning err | inr _ => [] end.

Lemma start_unfiled (progs : list (list LogOp)) (copies : list LogOp → bool) :
  sum_list_with unfiled ((λ p, mkWriter (copies p) p ToStream) <$> progs) = sum_list_with todo_bytes progs.
Proof. induction progs as [|p progs IH]; [done|]. rewrite fmap_cons. cbn [sum_list_with]. by rewrite IH. Qed.

Lemma tee_inv_start opened ship warning progs copies :
  match opened with inr f => (sum_list_with todo_bytes progs <= lf_room f)%nat | inl _ => True end →
  tee_inv opened ship (warned opened warning) progs (tee_start opened ship warning progs copies).
Proof.
  intros Hroom. constructor; cbn [tee_start tee_of te_log te_ship te_writers te_streamed te_filed te_shipped].
  - intros i w Hi. apply list_lookup_fmap_Some in Hi as (p & -> & Hp). by split_and!.
  - by rewrite length_fmap.
  - constructor.
  - destruct opened as [err|f]; [done|]. simpl. rewrite app_nil_r. split; [done|].
    by rewrite start_unfiled.
  - by destruct opened.
  - destruct opened; [|done]. simpl. by rewrite app_nil_r.
  - destruct opened as [err|f], ship; simpl; try done.
    split; [done|]. split; [by apply rtc_once, st_write|]. by rewrite app_nil_r.
Qed.

Context (Hsize : (0 < chunkSize)%nat).

(** C23: nothing that is written goes missing from the log.  Whether or not the file
    could be opened, and as long as the disk takes what is written: however the lines
    of the logger, the output of subprocesses and the run delimiters of any number of
    writers interleave in the tee, which takes no lock, and with the shipper's sender,
    the file holds what it held before and then whole writes, the standard streams
    hold their part of whole writes, and what the shipper has masked so far, with what
    it still holds back, is the mask of whole writes (after the warning, when the file
    did not open).  Each of the three has every writer's writes in the writer's order,
    the shipper no more than the file and the file no more than the streams, and of a
    writer that is done all of them; the order of two writers' may differ from one
    place to the other. *)
Theorem log_teed (opened : string + LogFile) (ship : bool) (warning : string → list ascii)
    (progs : list (list LogOp)) (copies : list LogOp → bool) (t : Tee) :
  match opened with inr f => (sum_list_with todo_bytes progs <= lf_room f)%nat | inl _ => True end →
  rtc tee_step (tee_start opened ship warning progs copies) t →
  (match opened, dl_file (te_log t) with
   | inr f, Some f' => lf_data f' = lf_data f ++ written (te_filed t)
   | inl _, None => True
   | _, _ => False
   end ∧
   dl_stdout (te_log t) = stream_bytes is_stdout (te_streamed t) ∧
   dl_stderr (te_log t) = warned opened warning ++ stream_bytes (λ op, negb (is_stdout op)) (te_streamed t) ∧
   match dl_shipper (te_log t) with
   | None => ship = false
   | Some s => ship = true ∧ rtc (ship_step secrets chunkSize maxPending) (fresh secrets) (s, te_ship t) ∧
       concat (sl_emits (te_ship t)) ++ mask secrets (held (sp_mask s)) =
         mask secrets (warned opened warning ++ written (te_shipped t))
   end) ∧
  Forall (λ e, (e.1 < length progs)%nat) (te_streamed t ++ te_filed t ++ te_shipped t) ∧
  ∀ i prog w, progs !! i = Some prog → te_writers t !! i = Some w →
    of_writer i (te_shipped t) `prefix_of` of_writer i (te_filed t) ∧
    of_writer i (te_filed t) `prefix_of` of_writer i (te_streamed t) ∧
    of_writer i (te_streamed t) `prefix_of` prog ∧
    (wr_todo w = [] → of_writer i (te_shipped t) = prog).
Proof using Hsize.
  intros Hroom Hr. pose proof (tee_inv_start opened ship warning progs copies Hroom) as H0.
  assert (Hinv : tee_inv opened ship (warned opened warning) progs t).
  { revert H0. induction Hr as [|t1 t2 t3 H12 _ IH]; [done|]. intros H1. apply IH. by eapply tee_inv_step. }
  destruct Hinv as [Hw _ Hk Hf Ho He Hs]. split; [split_and!; try done|split; [done|]].
  - destruct opened, (dl_file (te_log t)); try done. apply Hf.
  - destruct (dl_shipper (te_log t)) as [s|]; [|done]. destruct Hs as (-> & Hreach & Hin & Hm).
    split; [done|]. split; [done|].
    destruct (si_mask _ _ _ (ship_inv_reachable _ _ _ Hsize _ Hreach)) as [_ Hmask].
    specialize (Hmask []). simpl in Hmask. by rewrite !app_nil_r, Hm, Hin in Hmask.
  - intros i prog w Hp Hi. destruct (Hw i w Hi) as (Hprog & Hfi & Hst). rewrite Hp in Hprog. injection Hprog as ->.
    rewrite Hfi, Hst. destruct w as [c todo stage]; cbn [wr_todo wr_stage].
    split; [by eexists|].
    split; [destruct stage; rewrite ?app_nil_r; first [reflexivity|by eexists]|].
    split; [|intros ->; by rewrite app_nil_r].
    apply prefix_app. destruct stage; [apply prefix_nil|..]; exists (drop 1 todo); by rewrite take_drop.
Qed.

(** When the disk is full a command that succeeded is reported to have failed, and
    what it printed after that is neither in the file nor shipped. *)
Lemma full_disk_fails_command p rest l f :
  dl_file l = Some f → (lf_room f < length p)%nat →
  fst (run_teed None (p :: rest) l) = Some "no space left on device" ∧
  dl_shipper (snd (run_teed None (p :: rest) l)) = dl_shipper l.
Proof.
  intros Hf Hp. unfold run_teed. cbn [copy_output]. unfold stdout_write, sink_write, file_part. simpl. rewrite Hf. simpl.
  unfold file_write. rewrite (proj2 (Nat.leb_gt _ _) Hp). done.
Qed.
End log.

(** ** A run, by evaluation *)

(** The logger and the two copying goroutines of a command, a write each. *)
Definition sample_writers : list (list LogOp) :=
  [StartRun 3 41; [OpStdout (bytes "token s3cr3t")]; [OpStderr (bytes " done")]].

Definition sample_start : Tee :=
  tee_start log_secrets 8 100 (inr (mkLogFile (bytes "old;") 1000)) true bytes sample_writers (λ _, true).

(** The next step of a writer, by evaluation. *)
Definition tee_run (i : nat) (t : Tee) : option Tee :=
  let 'mkTee l sl ws st fi sh := t in
  match ws !! i with
  | Some (mkWriter c (OpVersion v :: rest) ToStream) =>
      Some (mkTee (stream_part (OpVersion v) l) sl (<[i := mkWriter c rest ToStream]> ws)
         (st ++ [(i, OpVersion v)]) (fi ++ [(i, OpVersion v)]) (sh ++ [(i, OpVersion v)]))
  | Some (mkWriter c (op :: rest) ToStream) =>
      Some (mkTee (stream_part op l) sl (<[i := mkWriter c (op :: rest) ToFile]> ws) (st ++ [(i, op)]) fi sh)
  | Some (mkWriter c (op :: rest) ToFile) =>
      match file_part (op_bytes op) l with
      | (None, l') => Some (mkTee l' sl (<[i := mkWriter c (op :: rest) ToShip]> ws) st (fi ++ [(i, op)]) sh)
      | (Some _, l') => Some (mkTee l' sl (<[i := mkWriter c (if c then [] else rest) ToStream]> ws) st fi sh)
      end
  | Some (mkWriter c (op :: rest) ToShip) =>
      Some (mkTee (ship_part 8 100 (op_bytes op) l) (ship_logged 100 (op_bytes op) l sl) (<[i := mkWriter c rest ToStream]> ws)
         st fi (sh ++ [(i, op)]))
  | _ => None
  end.

Lemma tee_run_step i t t' : tee_run i t = Some t' → tee_step 8 100 t t'.
Proof.
  destruct t as [l sl ws st fi sh]. unfold tee_run. destruct (ws !! i) as [[c [|op rest] stage]|] eqn:Hi; [done| |done].
  destruct stage.
  - destruct op as [p|p|p|v]; intros [= <-]; [| | |by eapply ts_version].
    + by apply (ts_stream _ _ i c (OpLog p) rest).
    + by apply (ts_stream _ _ i c (OpStdout p) rest).
    + by apply (ts_stream _ _ i c (OpStderr p) rest).
  - destruct (file_part (op_bytes op) l) as [[err|] l'] eqn:Hf; destruct op; intros [= <-];
      first [by eapply ts_file | by eapply ts_file_fails].
  - destruct op as [p|p|p|v]; intros [= <-];
      [apply (ts_ship _ _ i c (OpLog p) rest)|apply (ts_ship _ _ i c (OpStdout p) rest)
      |apply (ts_ship _ _ i c (OpStderr p) rest)|apply (ts_ship _ _ i c (OpVersion v) rest)]; exact Hi.
Qed.

Fixpoint tee_runs (order : list nat) (t : Tee) : option Tee :=
  match order with [] => Some t | i :: order => t' ← tee_run i t; tee_runs order t' end.

Lemma tee_runs_steps order t t' : tee_runs order t = Some t' → rtc (tee_step 8 100) t t'.
Proof.
  revert t. induction order as [|i order IH]; intros t H; [by injection H as ->|]. simpl in H.
  destruct (tee_run i t) as [t1|] eqn:E; [|done]. eapply rtc_l; [by eapply tee_run_step|by apply IH].
Qed.

(** Standard output reaches the file first, and the shipper last. *)
Definition overtaken : list nat := [0; 0; 0; 0; 1; 1; 2; 2; 2; 1]%nat.

Definition teed : Tee := default sample_start (tee_runs overtaken sample_start).

Lemma log_teed_witness :
  from_option lf_data [] (dl_file (te_log teed)) =
    bytes "old;" ++ delimiter 3 41 ++ bytes "token s3cr3t" ++ bytes " done" ∧
  match dl_shipper (te_log teed) with
  | Some s => concat (sl_emits (te_ship teed)) ++ mask log_secrets (held (sp_mask s)) =
      mask log_secrets (delimiter 3 41 ++ bytes " done" ++ bytes "token s3cr3t")
  | None => False
  end.
Proof.
  destruct (log_teed log_secrets 8 100 (Nat.lt_0_succ 7) (inr (mkLogFile (bytes "old;") 1000)) true bytes sample_writers
    (λ _, true) teed) as ((Hf & _ & _ & Hs) & _).
  - vm_compute. lia.
  - apply (tee_runs_steps overtaken). vm_compute. reflexivity.
  - split.
    + destruct (dl_file (te_log teed)) as [f|] eqn:E; [|destruct Hf]. simpl. rewrite Hf. vm_compute. reflexivity.
    + destruct (dl_shipper (te_log teed)) as [s|]; [|discriminate Hs]. destruct Hs as (_ & _ & H).
      rewrite H. vm_compute. reflexivity.
Defined.
