(* ===== verification/DriverServer.v ===== *)
(** * The driver server

    Models [internal/runner/runrecord/runrecord.go], the file that lets a
    restarted driver answer for a run it can no longer see, and its
    reconciliation at boot; and [internal/runner/driverserver/driverserver.go],
    the in-sandbox service that starts runs, at most one at a time, answers for
    finished ones, and survives its own death through the run record.  Writes
    are atomic ([internal/x/atomicio]); I/O faults are inputs; [encoding/json]
    on a record is a class.  The mutex makes each handler's critical section a
    step; the goroutine of a run and the process's crashes are steps of their
    own. *)

From S2P Require Import Prelude Workspace.

(** ** The run record *)

Definition Running : string := "running".
Definition Finished : string := "finished".

(** [FinishedAt] is 0 for the zero time. *)
Record RunRecord := mkRunRecord {
  RR_Version : Z; RR_State : string; RR_FinishedAt : Z; RR_Reported : bool }.

#[export] Instance RunRecord_eq_dec : EqDecision RunRecord.
Proof. solve_decision. Defined.

Class RunRecordJSON := {
  Marshal_RunRecord : RunRecord → option string;
  Unmarshal_RunRecord : string → option RunRecord }.

Definition valid_state (state : string) : bool :=
  String.eqb state Running || String.eqb state Finished.

(** A record in one of the two states survives the round trip. *)
Class RunRecordJSONLaws `{RunRecordJSON} :=
  RunRecord_roundtrip rec : is_int64 (RR_Version rec) = true → valid_state (RR_State rec) = true →
    ∃ data, Marshal_RunRecord rec = Some data ∧ Unmarshal_RunRecord data = Some rec.

(** The file's contents, if it exists. *)
Abbreviation RecordFile := (option string).

(** The enum of [driver.v1.RunRecord]. *)
Inductive ProtoState := STATE_UNSPECIFIED | STATE_RUNNING | STATE_FINISHED.

Record ProtoRunRecord := mkProtoRun { PR_Version : Z; PR_State : ProtoState; PR_FinishedAt : option Z }.

Definition RunRecord_Proto (r : RunRecord) : ProtoRunRecord :=
  mkProtoRun (RR_Version r)
    (if String.eqb (RR_State r) Running then STATE_RUNNING
     else if String.eqb (RR_State r) Finished then STATE_FINISHED else STATE_UNSPECIFIED)
    (if RR_FinishedAt r =? 0 then None else Some (RR_FinishedAt r)).

Section runrecord.
Context {RJ : RunRecordJSON}.

Definition RunRecord_Read (io : option string) (file : RecordFile) : string + option RunRecord :=
  match io, file with
  | Some err, _ => inl ("runrecord: read: " +:+ err)
  | None, None => inr None
  | None, Some data =>
      match Unmarshal_RunRecord data with
      | None => inl "runrecord: decode"
      | Some rec =>
          if valid_state (RR_State rec) then inr (Some rec)
          else inl ("runrecord: invalid state " +:+ quoted (RR_State rec))
      end
  end.

Definition RunRecord_Write (io : option string) (rec : RunRecord) (file : RecordFile)
    : option string * RecordFile :=
  match Marshal_RunRecord rec with
  | None => (Some "runrecord: encode", file)
  | Some data =>
      match io with
      | Some err => (Some ("runrecord: write: " +:+ err), file)
      | None => (None, Some data)
      end
  end.

(** The record after the reconciliation, and whether it was rewritten. *)
Definition Reconcile (read_io write_io : option string) (now : Z) (file : RecordFile)
    : (string + (option RunRecord * bool)) * RecordFile :=
  match RunRecord_Read read_io file with
  | inl err => (inl err, file)
  | inr None => (inr (None, false), file)
  | inr (Some rec) =>
      if negb (String.eqb (RR_State rec) Running) then (inr (Some rec, false), file)
      else
        let rec := mkRunRecord (RR_Version rec) Finished now false in
        let (err, file') := RunRecord_Write write_io rec file in
        match err with
        | Some err => (inl err, file')
        | None => (inr (Some rec, true), file')
        end
  end.

(** ** What the file holds *)

Definition holds (file : RecordFile) (rec : option RunRecord) : Prop :=
  match rec with
  | None => file = None
  | Some rec => ∃ data, file = Some data ∧ Unmarshal_RunRecord data = Some rec ∧
                  valid_state (RR_State rec) = true ∧ is_int64 (RR_Version rec) = true
  end.

Lemma Read_holds file rec : holds file rec → RunRecord_Read None file = inr rec.
Proof.
  unfold holds, RunRecord_Read. destruct rec as [rec|]; [|by intros ->].
  intros (data & -> & -> & -> & _). done.
Qed.

Context {RL : RunRecordJSONLaws}.

(** A write replaces the record or changes nothing. *)
Lemma Write_holds io rec file err file' :
  is_int64 (RR_Version rec) = true → valid_state (RR_State rec) = true →
  RunRecord_Write io rec file = (err, file') →
  match err with None => holds file' (Some rec) | Some _ => file' = file end.
Proof using RL.
  intros Hv Hs. destruct (RunRecord_roundtrip rec Hv Hs) as (data & Hm & Hu).
  unfold RunRecord_Write. rewrite Hm. destruct io; intros [= <- <-]; [done|]. by exists data.
Qed.

(** A run that was cut short is finished and unreported; anything else stays. *)
Definition reconciled (now : Z) (rec : RunRecord) : RunRecord :=
  if String.eqb (RR_State rec) Running then mkRunRecord (RR_Version rec) Finished now false else rec.

Lemma Reconcile_holds read_io write_io now file rec res file' :
  holds file rec → Reconcile read_io write_io now file = (res, file') →
  match res with
  | inl _ => file' = file
  | inr (rec', crashed) => rec' = reconciled now <$> rec ∧ holds file' rec' ∧
      crashed = match rec with Some r => String.eqb (RR_State r) Running | None => false end
  end.
Proof using RL.
  intros Hh. unfold Reconcile. destruct read_io as [err|]; [by intros [= <- <-]|].
  rewrite (Read_holds _ _ Hh). destruct rec as [rec|]; [|by intros [= <- <-]].
  unfold reconciled. simpl. destruct (String.eqb (RR_State rec) Running) eqn:E; simpl;
    [|by intros [= <- <-]].
  destruct (RunRecord_Write write_io _ file) as [err f] eqn:Hw. intros H.
  destruct Hh as (data & _ & _ & _ & Hv).
  apply Write_holds in Hw; [|done|done]. destruct err as [err|]; injection H as <- <-; [done|].
  done.
Qed.
End runrecord.

(** ** Data *)

(** [driver.v1.RunSpec]. *)
Record RunSpec := mkRunSpec {
  RS_TaskID : Z; RS_ServerURL : string; RS_Token : string;
  RS_Env : gmap string string; RS_Secrets : gmap string string }.

Record RunRequest := mkRunRequest { Req_Version : Z; Req_Spec : option RunSpec }.

(** The codes [open] answers with. *)
Inductive RunErr :=
| RunUnavailable (msg : string) | RunFailedPrecondition (msg : string) | RunAborted (msg : string)
| RunNotFound (msg : string) | RunInternal (msg : string).

(** [run]: [r_cancelled] is its context's cancellation, [r_done] the closed
    channel. *)
Record Run := mkRun { r_version : Z; r_cancelled : bool; r_done : bool; r_reported : bool }.

(** Where the goroutine of the latest run is: in the driver, about to write the
    record, about to take the mutex, or finished. *)
Inductive ExecPC := Executing | Recording (reported : bool) | Closing (rec : RunRecord) | NoRun.

Record Server := mkServer {
  sv_rec : RunRecord; sv_hasRec : bool; sv_active : option Run; sv_exec : ExecPC;
  sv_streaming : bool; sv_closed : bool }.

Definition zero_record : RunRecord := mkRunRecord 0 "" 0 false.

(** ** Environments *)

Definition Env (environ : list string) (spec : RunSpec) : list string :=
  environ ++ FromMap (RS_Env spec) ++ FromMap (RS_Secrets spec).

Definition Secrets (spec : RunSpec) : gmap string string :=
  <["token" := RS_Token spec]> (RS_Secrets spec).

Section driverserver.
Context {RJ : RunRecordJSON}.

(** [New], after the reconciliation. *)
Definition New (rec : option RunRecord) : Server :=
  match rec with
  | Some rec => mkServer rec true None NoRun false false
  | None => mkServer zero_record false None NoRun false false
  end.

(** ** Handlers *)

Definition Status (s : Server) : option ProtoRunRecord :=
  if sv_hasRec s then Some (RunRecord_Proto (sv_rec s)) else None.

Definition finishedRun (version : Z) (reported : bool) : Run := mkRun version false true reported.

(** [start]: the new record on disk, then the goroutine. *)
Definition start (io : option string) (version : Z) (s : Server) (file : RecordFile)
    : (string + Run) * Server * RecordFile :=
  let rec := mkRunRecord version Running 0 false in
  let (err, file') := RunRecord_Write io rec file in
  match err with
  | Some err => (inl err, s, file')
  | None =>
      let r := mkRun version false false false in
      (inr r, mkServer rec true (Some r) Executing (sv_streaming s) (sv_closed s), file')
  end.

Definition set_streaming (b : bool) (s : Server) : Server :=
  mkServer (sv_rec s) (sv_hasRec s) (sv_active s) (sv_exec s) b (sv_closed s).

Definition version_str (v : Z) : string := FormatInt v.

(** [open]: the run, and whether it was there already. *)
Definition open (io : option string) (req : RunRequest) (s : Server) (file : RecordFile)
    : (RunErr + (Run * bool)) * Server * RecordFile :=
  let version := Req_Version req in
  if sv_streaming s then (inl (RunUnavailable "another Run stream is open"), s, file)
  else if sv_hasRec s && (version <? RR_Version (sv_rec s)) then
    (inl (RunFailedPrecondition ("version " +:+ version_str version +:+ " is stale, the run record is at "
            +:+ version_str (RR_Version (sv_rec s)))), s, file)
  else if sv_hasRec s && (RR_Version (sv_rec s) =? version) then
    let finished := finishedRun version (RR_Reported (sv_rec s)) in
    let r := match sv_active s with
             | Some r => if r_version r =? version then r else finished
             | None => finished
             end in
    (inr (r, true), set_streaming true s, file)
  else if sv_hasRec s && String.eqb (RR_State (sv_rec s)) Running then
    (inl (RunAborted ("version " +:+ version_str (RR_Version (sv_rec s)) +:+ " is running")), s, file)
  else match Req_Spec req with
       | None => (inl (RunNotFound ("no run with version " +:+ version_str version
                         +:+ " and no spec to start one")), s, file)
       | Some _ =>
           if sv_closed s then (inl (RunUnavailable "driver is shutting down"), s, file)
           else
             let '(r, s, file) := start io version s file in
             match r with
             | inl err => (inl (RunInternal err), s, file)
             | inr r => (inr (r, false), set_streaming true s, file)
             end
       end.

Definition release (s : Server) : Server := set_streaming false s.

Definition cancel_run (r : Run) : Run := mkRun (r_version r) true (r_done r) (r_reported r).

Definition set_active (r : option Run) (s : Server) : Server :=
  mkServer (sv_rec s) (sv_hasRec s) r (sv_exec s) (sv_streaming s) (sv_closed s).

Definition stop (version : Z) (s : Server) : bool * Server :=
  match sv_active s with
  | None => (false, s)
  | Some r =>
      if negb (r_version r =? version) || r_done r then (false, s)
      else (true, set_active (Some (cancel_run r)) s)
  end.

(** [Shutdown], up to its wait. *)
Definition Shutdown (s : Server) : Server :=
  let s := mkServer (sv_rec s) (sv_hasRec s) (sv_active s) (sv_exec s) (sv_streaming s) true in
  match sv_active s with
  | Some r => snd (stop (r_version r) s)
  | None => s
  end.

(** ** The goroutine of a run *)

Definition set_exec (pc : ExecPC) (s : Server) : Server :=
  mkServer (sv_rec s) (sv_hasRec s) (sv_active s) pc (sv_streaming s) (sv_closed s).

(** One step of [execute]: the driver returns [driver_err]; the finished record
    is written; the outcome is published under the mutex. *)
Definition execute (driver_err : option string) (now : Z) (io : option string) (s : Server)
    (file : RecordFile) : Server * RecordFile :=
  match sv_exec s, sv_active s with
  | Executing, _ =>
      (set_exec (Recording (match driver_err with None => true | Some _ => false end)) s, file)
  | Recording reported, Some r =>
      let rec := mkRunRecord (r_version r) Finished now reported in
      let (_, file') := RunRecord_Write io rec file in
      (set_exec (Closing rec) s, file')
  | Closing rec, Some r =>
      (mkServer rec (sv_hasRec s)
         (Some (mkRun (r_version r) (r_cancelled r) true (RR_Reported rec))) NoRun
         (sv_streaming s) (sv_closed s), file)
  | _, _ => (s, file)
  end.

(** What a [Run] stream ends with, once its run is done. *)
Definition finished_message (r : Run) : option (Z * bool) :=
  if r_done r then Some (r_version r, r_reported r) else None.
End driverserver.
