(* ===== verification/DriverRuns.v ===== *)
(** * The runs of a driver server

    Executions of [internal/runner/driverserver/driverserver.go] across requests,
    the goroutine of the run, shutdowns, and crashes of the process at any
    point, with the record file as the only memory that lasts. *)

From S2P Require Import Prelude ScopeParse Links Strconv FileStore TaskState Workspace DriverServer.

(** The run an open [Run] stream waits for: the latest one, through its pointer,
    or one that finished in an earlier process. *)
Inductive StreamRun := Live | Answered (r : Run).

(** The versions started, those whose terminal event the server acknowledged,
    and the [Finished] messages sent. *)
Record RunLog := mkRunLog {
  rl_started : list Z; rl_acked : list Z; rl_finished : list (Z * bool) }.

(** [ds_server] is [None] while the process is down. *)
Record System := mkSystem {
  ds_server : option Server; ds_file : RecordFile; ds_stream : option StreamRun; ds_log : RunLog }.

Section runs.
Context {RJ : RunRecordJSON}.

Definition stream_of (version : Z) (r : Run) (s : Server) : StreamRun :=
  match sv_active s with
  | Some a => if r_version a =? version then Live else Answered r
  | None => Answered r
  end.

(** What a stream ends with. *)
Definition stream_message (st : StreamRun) (s : Server) : option (Z * bool) :=
  match st with
  | Live => r ← sv_active s; finished_message r
  | Answered r => finished_message r
  end.

Definition log_started (v : Z) (l : RunLog) : RunLog :=
  mkRunLog (rl_started l ++ [v]) (rl_acked l) (rl_finished l).
Definition log_finished (m : Z * bool) (l : RunLog) : RunLog :=
  mkRunLog (rl_started l) (rl_acked l) (rl_finished l ++ [m]).

(** The driver's return is the acknowledgement of its terminal event. *)
Definition log_exec (driver_err : option string) (s : Server) (l : RunLog) : RunLog :=
  match sv_exec s, driver_err, sv_active s with
  | Executing, None, Some r => mkRunLog (rl_started l) (rl_acked l ++ [r_version r]) (rl_finished l)
  | _, _, _ => l
  end.

Inductive ds_step : System → System → Prop :=
| dst_open io req r attached s s' f f' st l :
    is_int64 (Req_Version req) = true → open io req s f = (inr (r, attached), s', f') →
    ds_step (mkSystem (Some s) f st l)
      (mkSystem (Some s') f' (Some (stream_of (Req_Version req) r s'))
         (if attached : bool then l else log_started (Req_Version req) l))
| dst_refused io req err s s' f f' st l :
    is_int64 (Req_Version req) = true → open io req s f = (inl err, s', f') →
    ds_step (mkSystem (Some s) f st l) (mkSystem (Some s') f' st l)
| dst_finish st m s f l :
    stream_message st s = Some m →
    ds_step (mkSystem (Some s) f (Some st) l)
      (mkSystem (Some (release s)) f None (log_finished m l))
| dst_detach st s f l :
    ds_step (mkSystem (Some s) f (Some st) l) (mkSystem (Some (release s)) f None l)
| dst_stop version s f st l :
    ds_step (mkSystem (Some s) f st l) (mkSystem (Some (snd (stop version s))) f st l)
| dst_shutdown s f st l :
    ds_step (mkSystem (Some s) f st l) (mkSystem (Some (Shutdown s)) f st l)
| dst_exec driver_err now io s s' f f' st l :
    execute driver_err now io s f = (s', f') →
    ds_step (mkSystem (Some s) f st l) (mkSystem (Some s') f' st (log_exec driver_err s l))
| dst_crash s f st l : ds_step (mkSystem s f st l) (mkSystem None f None l)
| dst_crash_starting io version s f r s' f' st l :
    (* between the record and the goroutine of [start] *)
    is_int64 version = true → sv_streaming s = false → sv_closed s = false →
    (sv_hasRec s = true → RR_Version (sv_rec s) < version ∧ RR_State (sv_rec s) ≠ Running) →
    start io version s f = (r, s', f') →
    ds_step (mkSystem (Some s) f st l) (mkSystem None f' None l)
| dst_boot read_io write_io now rec crashed f f' l :
    Reconcile read_io write_io now f = (inr (rec, crashed), f') →
    ds_step (mkSystem None f None l) (mkSystem (Some (New rec)) f' None l)
| dst_boot_failed read_io write_io now res f f' l :
    (* [New] returns an error, or the process dies before it is done *)
    Reconcile read_io write_io now f = (res, f') →
    ds_step (mkSystem None f None l) (mkSystem None f' None l).

(** ** The invariant *)

(** A claim to have reported a run is true. *)
Definition truthful (acked : list Z) (v : Z) (reported : bool) : Prop :=
  reported = true → v ∈ acked.

Definition rec_truthful (acked : list Z) (rec : RunRecord) : Prop :=
  truthful acked (RR_Version rec) (RR_Reported rec).

(** The server's view of the run in progress: its record is running and under
    its version until the outcome is published. *)
Record server_ok (acked : list Z) (s : Server) (disk : option RunRecord) : Prop := {
  so_disk : if sv_hasRec s then ∃ d, disk = Some d ∧ RR_Version d = RR_Version (sv_rec s)
            else disk = None ∧ sv_active s = None;
  so_rec : sv_hasRec s = true → rec_truthful acked (sv_rec s) ∧ is_int64 (RR_Version (sv_rec s)) = true;
  so_active r : sv_active s = Some r → r_version r = RR_Version (sv_rec s) ∧
    (r_done r = true → truthful acked (r_version r) (r_reported r));
  so_exec : match sv_exec s with
            | NoRun => ∀ r, sv_active s = Some r → r_done r = true
            | pc => (∃ r, sv_active s = Some r ∧ r_done r = false) ∧ RR_State (sv_rec s) = Running ∧
                match pc with
                | Recording reported => truthful acked (RR_Version (sv_rec s)) reported
                | Closing rec => RR_Version rec = RR_Version (sv_rec s) ∧ rec_truthful acked rec
                | _ => True
                end
            end }.

Record system_ok (y : System) (disk : option RunRecord) : Prop := {
  sy_holds : holds (ds_file y) disk;
  sy_disk : ∀ d, disk = Some d → rec_truthful (rl_acked (ds_log y)) d;
  sy_server s : ds_server y = Some s → server_ok (rl_acked (ds_log y)) s disk;
  sy_stream r : ds_stream y = Some (Answered r) →
    truthful (rl_acked (ds_log y)) (r_version r) (r_reported r);
  sy_sorted : StronglySorted Z.lt (rl_started (ds_log y));
  sy_started v : v ∈ rl_started (ds_log y) → ∃ d, disk = Some d ∧ v ≤ RR_Version d;
  sy_finished v b : (v, b) ∈ rl_finished (ds_log y) → truthful (rl_acked (ds_log y)) v b }.

Context {RL : RunRecordJSONLaws}.

(** Starting a version past the record. *)
Lemma start_ok io version s f disk acked r s' f' :
  holds f disk → server_ok acked s disk → (∀ d, disk = Some d → rec_truthful acked d) →
  is_int64 version = true →
  start io version s f = (r, s', f') →
  ∃ disk', holds f' disk' ∧ (∀ d, disk' = Some d → rec_truthful acked d) ∧ server_ok acked s' disk' ∧
    match r with
    | inl _ => s' = s ∧ disk' = disk
    | inr r => disk' = Some (mkRunRecord version Running 0 false) ∧ r_version r = version ∧
        sv_active s' = Some r
    end.
Proof using RL.
  intros Hh Hok Hd Hv. unfold start.
  destruct (RunRecord_Write io (mkRunRecord version Running 0 false) f) as [err f1] eqn:Hw.
  apply (Write_holds io) in Hw; [|done|done]. destruct err as [err|]; intros [= <- <- <-].
  - subst f1. exists disk. done.
  - eexists. split; [exact Hw|]. split; [by intros d [= <-]|]. split; [|done].
    split; simpl; try done.
    + by eexists.
    + by intros r [= <-].
    + split; [by eexists|done].
Qed.
Lemma streaming_ok acked s disk b : server_ok acked s disk → server_ok acked (set_streaming b s) disk.
Proof using Type. by intros [H1 H2 H3 H4]; split. Qed.

(** Every stream [open] grants. *)
Lemma open_ok io req s f disk acked res s' f' :
  holds f disk → server_ok acked s disk → (∀ d, disk = Some d → rec_truthful acked d) →
  is_int64 (Req_Version req) = true → open io req s f = (res, s', f') →
  ∃ disk', holds f' disk' ∧ (∀ d, disk' = Some d → rec_truthful acked d) ∧ server_ok acked s' disk' ∧
    match res with
    | inl _ => disk' = disk
    | inr (r, true) => disk' = disk ∧
        (stream_of (Req_Version req) r s' ≠ Live → truthful acked (r_version r) (r_reported r))
    | inr (r, false) => disk' = Some (mkRunRecord (Req_Version req) Running 0 false) ∧
        stream_of (Req_Version req) r s' = Live ∧
        ∀ d, disk = Some d → RR_Version d < Req_Version req
    end.
Proof using RL.
  intros Hh Hok Hd Hv. unfold open.
  destruct (sv_streaming s); [intros [= <- <- <-]; by exists disk|].
  destruct (sv_hasRec s && (Req_Version req <? RR_Version (sv_rec s))) eqn:Hstale;
    [intros [= <- <- <-]; by exists disk|].
  destruct (sv_hasRec s && (RR_Version (sv_rec s) =? Req_Version req)) eqn:Hsame.
  { intros [= <- <- <-]. exists disk. split; [done|]. split; [done|].
    split; [by apply streaming_ok|]. split; [done|].
    apply andb_true_iff in Hsame as [Hrec Heq%Z.eqb_eq].
    destruct (so_rec _ _ _ Hok Hrec) as [Htr _]. unfold rec_truthful in Htr. rewrite Heq in Htr.
    unfold stream_of. simpl. destruct (sv_active s) as [a|]; [|done].
    by destruct (Z.eqb_spec (r_version a) (Req_Version req)). }
  destruct (sv_hasRec s && String.eqb (RR_State (sv_rec s)) Running) eqn:Hrun;
    [intros [= <- <- <-]; by exists disk|].
  destruct (Req_Spec req) as [spec|]; [|intros [= <- <- <-]; by exists disk].
  destruct (sv_closed s); [intros [= <- <- <-]; by exists disk|].
  destruct (start io (Req_Version req) s f) as [[r s1] f1] eqn:Hst.
  destruct (start_ok _ _ _ _ _ _ _ _ _ Hh Hok Hd Hv Hst) as (disk' & Hh' & Hd' & Hok' & Hr).
  destruct r as [err|r]; intros [= <- <- <-].
  - exists disk'. by destruct Hr as [-> ->].
  - destruct Hr as (-> & Hver & Hact). eexists. split; [exact Hh'|]. split; [done|].
    split; [by apply streaming_ok|]. split; [done|]. split.
    + unfold stream_of. simpl. rewrite Hact, Hver. by rewrite Z.eqb_refl.
    + intros d ->. pose proof (so_disk _ _ _ Hok) as Hdisk.
      destruct (sv_hasRec s); [|by destruct Hdisk]. destruct Hdisk as (d' & [= <-] & ->).
      apply Z.ltb_ge in Hstale. apply Z.eqb_neq in Hsame. lia.
Qed.

Lemma stop_ok acked version s disk : server_ok acked s disk → server_ok acked (snd (stop version s)) disk.
Proof using Type.
  intros Hok. unfold stop. destruct (sv_active s) as [r|] eqn:Ha; [|done].
  destruct (negb _ || r_done r) eqn:E; [done|]. destruct Hok as [H1 H2 H3 H4]. split; simpl; try done.
  - destruct (sv_hasRec s); [done|]. destruct H1; congruence.
  - intros r' [= <-]. simpl. by apply H3.
  - apply orb_false_iff in E as [_ Hdone]. rewrite Ha in H4.
    destruct (sv_exec s); destruct_and?; try (split; [|done]; eexists; split; [done|]; simpl; done).
    exfalso. specialize (H4 r eq_refl). congruence.
Qed.

Lemma Shutdown_ok acked s disk : server_ok acked s disk → server_ok acked (Shutdown s) disk.
Proof using Type.
  intros Hok. unfold Shutdown. simpl.
  assert (Hc : server_ok acked (mkServer (sv_rec s) (sv_hasRec s) (sv_active s) (sv_exec s)
    (sv_streaming s) true) disk) by (by destruct Hok; split).
  destruct (sv_active s) as [r|] eqn:Ha; [|done]. apply stop_ok. by rewrite <- Ha in *.
Qed.

(** More acknowledgements keep every claim true. *)
Lemma truthful_mono acked acked' v b :
  (∀ x, x ∈ acked → x ∈ acked') → truthful acked v b → truthful acked' v b.
Proof using Type. unfold truthful. eauto. Qed.

Lemma server_ok_mono acked acked' s disk :
  (∀ x, x ∈ acked → x ∈ acked') → server_ok acked s disk → server_ok acked' s disk.
Proof using Type.
  intros Hsub [H1 H2 H3 H4]. split; [done| | |].
  - intros Hrec. destruct (H2 Hrec). split; [by eapply truthful_mono|done].
  - intros r Hr. destruct (H3 r Hr) as [? Ht]. split; [done|]. intros Hd. by eapply truthful_mono, Ht.
  - destruct (sv_exec s); [done| | |done].
    + destruct H4 as (? & ? & ?). split; [done|]. split; [done|]. by eapply truthful_mono.
    + destruct H4 as (? & ? & ? & ?). split; [done|]. split; [done|]. split; [done|].
      by eapply truthful_mono.
Qed.

Lemma execute_ok driver_err now io s f disk l s' f' :
  holds f disk → server_ok (rl_acked l) s disk → (∀ d, disk = Some d → rec_truthful (rl_acked l) d) →
  execute driver_err now io s f = (s', f') →
  ∃ disk', holds f' disk' ∧ (∀ d, disk' = Some d → rec_truthful (rl_acked (log_exec driver_err s l)) d) ∧
    server_ok (rl_acked (log_exec driver_err s l)) s' disk' ∧
    ∀ d, disk = Some d → ∃ d', disk' = Some d' ∧ RR_Version d' = RR_Version d.
Proof using RL.
  intros Hh Hok Hd. unfold execute. pose proof (so_exec _ _ _ Hok) as Hexec.
  assert (Hsame : ∀ d, disk = Some d → ∃ d', disk = Some d' ∧ RR_Version d' = RR_Version d) by eauto.
  destruct (sv_exec s) as [|reported|rec|] eqn:He; unfold log_exec; rewrite ?He.
  - destruct Hexec as ((r & Ha & Hdone) & Hst & _). rewrite Ha. intros [= <- <-]. exists disk.
    assert (Hsub : ∀ x, x ∈ rl_acked l → x ∈ rl_acked (match driver_err with
      | None => mkRunLog (rl_started l) (rl_acked l ++ [r_version r]) (rl_finished l)
      | Some _ => l end)).
    { intros x Hx. destruct driver_err; [done|]. simpl. apply elem_of_app. by left. }
    split; [done|]. split; [intros d Hdd; eapply truthful_mono; [exact Hsub|by apply Hd]|].
    split; [|done]. destruct (server_ok_mono _ _ _ _ Hsub Hok) as [H1 H2 H3 _].
    split; simpl; try done. split; [by exists r|]. split; [done|].
    intros Hrep. destruct driver_err; [done|]. simpl. apply elem_of_app. right.
    destruct (H3 r Ha) as [<- _]. by left.
  - destruct Hexec as ((r & Ha & Hdone) & Hst & Htr). rewrite Ha.
    destruct (so_active _ _ _ Hok r Ha) as [Hv _].
    assert (Hrec : sv_hasRec s = true).
    { pose proof (so_disk _ _ _ Hok) as H1. destruct (sv_hasRec s); [done|]. destruct H1; congruence. }
    destruct (so_rec _ _ _ Hok Hrec) as [_ Hint].
    destruct (RunRecord_Write io _ f) as [err f1] eqn:Hw. intros [= <- <-].
    apply (Write_holds io) in Hw; [|by rewrite Hv|done].
    assert (Htr' : rec_truthful (rl_acked l) (mkRunRecord (r_version r) Finished now reported)).
    { unfold rec_truthful. simpl. by rewrite Hv. }
    pose proof (so_disk _ _ _ Hok) as Hdisk. rewrite Hrec in Hdisk. destruct Hdisk as (d0 & -> & Hd0).
    destruct err as [err|].
    + subst f1. exists (Some d0). split; [done|]. split; [done|]. split; [|done].
      destruct Hok as [H1 H2 H3 _]. split; simpl; try done. split; [by exists r|]. done.
    + eexists. split; [exact Hw|]. split; [by intros d [= <-]|]. split.
      * destruct Hok as [H1 H2 H3 _]. split; simpl; try done.
        -- rewrite Hrec. by eexists.
        -- split; [by exists r|]. done.
      * intros d [= <-]. eexists. split; [done|]. simpl. congruence.
  - destruct Hexec as ((r & Ha & Hdone) & Hst & Hv & Htr). rewrite Ha. intros [= <- <-].
    destruct Hok as [H1 H2 H3 _]. destruct (H3 r Ha) as [Hr _].
    exists disk. split; [done|]. split; [done|]. split; [|done]. split; simpl; try done.
    + destruct (sv_hasRec s); [|destruct H1; congruence]. destruct H1 as (d & -> & Hd1).
      exists d. split; [done|congruence].
    + intros Hrec. split; [done|]. rewrite Hv. by apply H2.
    + intros r' [= <-]. simpl. split; [congruence|]. intros _. by rewrite Hr, <- Hv.
    + by intros r' [= <-].
  - intros [= <- <-]. by exists disk.
Qed.

Lemma New_ok acked rec f :
  holds f rec → (∀ d, rec = Some d → rec_truthful acked d) → server_ok acked (New rec) rec.
Proof using Type.
  intros Hh Hd. destruct rec as [rec|]; split; simpl; try done.
  - by eexists.
  - intros _. split; [by apply Hd|]. by destruct Hh as (data & _ & _ & _ & ?).
Qed.

Lemma Reconcile_system rio wio now f disk rec crashed f' acked :
  holds f disk → (∀ d, disk = Some d → rec_truthful acked d) →
  Reconcile rio wio now f = (inr (rec, crashed), f') →
  rec = reconciled now <$> disk ∧ holds f' (reconciled now <$> disk) ∧
  (∀ d, reconciled now <$> disk = Some d → rec_truthful acked d) ∧
  ∀ d, disk = Some d → ∃ d', reconciled now <$> disk = Some d' ∧ RR_Version d' = RR_Version d.
Proof using RL.
  intros Hh Hd Hr. destruct (Reconcile_holds _ _ _ _ _ _ _ Hh Hr) as (-> & Hh' & _).
  split; [done|]. split; [done|].
  destruct disk as [d0|]; [|done]. simpl. split.
  - intros d [= <-]. unfold reconciled. destruct (String.eqb (RR_State d0) Running); [done|by apply Hd].
  - intros d [= <-]. eexists. split; [done|]. unfold reconciled.
    by destruct (String.eqb (RR_State d0) Running).
Qed.

Lemma ds_step_ok y y' disk :
  system_ok y disk → ds_step y y' → ∃ disk', system_ok y' disk'.
Proof using RL.
  intros [Hh Hd Hs Hst Hsort Hstart Hfin] Hstep.
  destruct Hstep as [io req r att s s' f f' st l Hv Ho|io req err s s' f f' st l Hv Ho|st m s f l Hm
    |st s f l|version s f st l|s f st l|err now io s s' f f' st l He|s f st l
    |io v s f r s' f' st l Hv Hns Hnc Hlt Ho|rio wio now rec crashed f f' l Hr|rio wio now res f f' l Hr];
    simpl in *.
  - destruct (open_ok _ _ _ _ _ _ _ _ _ Hh (Hs s eq_refl) Hd Hv Ho) as (disk' & Hh' & Hd' & Hok' & Hres).
    exists disk'. destruct att.
    + destruct Hres as [-> Hlive]. split; simpl; try done; [by intros s1 [= <-]|].
      intros r1 [= Hr1]. unfold stream_of in *. destruct (sv_active s') as [a|];
        [destruct (r_version a =? Req_Version req); [done|]|]; injection Hr1 as <-; by apply Hlive.
    + destruct Hres as (-> & Hlive & Hlt). split; simpl; try done.
      * by intros s1 [= <-].
      * rewrite Hlive. done.
      * apply StronglySorted_snoc; [done|]. intros x Hx. destruct (Hstart x Hx) as (d & Hdd & Hle).
        specialize (Hlt d Hdd). lia.
      * intros v [Hv'| ->%list_elem_of_singleton]%elem_of_app; eexists; (split; [done|]); simpl; [|lia].
        destruct (Hstart v Hv') as (d & Hdd & Hle). specialize (Hlt d Hdd). lia.
  - destruct (open_ok _ _ _ _ _ _ _ _ _ Hh (Hs s eq_refl) Hd Hv Ho) as (disk' & Hh' & Hd' & Hok' & ->).
    exists disk. split; simpl; try done. by intros s1 [= <-].
  - exists disk. split; simpl; try done; [by intros s1 [= <-]; apply streaming_ok, Hs|].
    intros v b [Hv|Hv%list_elem_of_singleton]%elem_of_app; [by apply Hfin|]. subst m.
    destruct st as [|r]; simpl in Hm.
    + destruct (sv_active s) as [r|] eqn:Ha; [|done]. simpl in Hm. unfold finished_message in Hm.
      destruct (r_done r) eqn:Hdone; [|done]. injection Hm as <- <-.
      by apply (so_active _ _ _ (Hs s eq_refl) r Ha).
    + unfold finished_message in Hm. destruct (r_done r); [|done]. injection Hm as <- <-. by apply Hst.
  - exists disk. split; simpl; try done. by intros s1 [= <-]; apply streaming_ok, Hs.
  - exists disk. split; simpl; try done. by intros s1 [= <-]; apply stop_ok, Hs.
  - exists disk. split; simpl; try done. by intros s1 [= <-]; apply Shutdown_ok, Hs.
  - destruct (execute_ok _ _ _ _ _ _ _ _ _ Hh (Hs s eq_refl) Hd He) as (disk' & Hh' & Hd' & Hok' & Hver).
    assert (Hsub : ∀ x, x ∈ rl_acked l → x ∈ rl_acked (log_exec err s l)).
    { intros x Hx. unfold log_exec. destruct (sv_exec s), err, (sv_active s); try done.
      simpl. apply elem_of_app. by left. }
    assert (Hlog : rl_started (log_exec err s l) = rl_started l ∧
      rl_finished (log_exec err s l) = rl_finished l).
    { unfold log_exec. by destruct (sv_exec s), err, (sv_active s). }
    destruct Hlog as [Hl1 Hl2]. exists disk'. split; simpl; rewrite ?Hl1, ?Hl2; try done.
    + by intros s1 [= <-].
    + intros r Hr. by eapply truthful_mono; [exact Hsub|apply Hst].
    + intros v Hv. destruct (Hstart v Hv) as (d & Hdd & Hle). destruct (Hver d Hdd) as (d' & Hd1 & Hd2).
      exists d'. split; [done|lia].
    + intros v b Hvb. by eapply truthful_mono; [exact Hsub|apply Hfin].
  - exists disk. by split.
  - destruct (start_ok _ _ _ _ _ _ _ _ _ Hh (Hs s eq_refl) Hd Hv Ho) as (disk' & Hh' & Hd' & Hok' & Hr).
    exists disk'. split; simpl; try done. intros x Hx. destruct (Hstart x Hx) as (d & Hdd & Hle).
    destruct r as [e|r]; [destruct Hr as [_ ->]; eauto|]. destruct Hr as (-> & _). eexists.
    split; [done|]. simpl. pose proof (so_disk _ _ _ (Hs s eq_refl)) as Hdisk.
    destruct (sv_hasRec s); [|destruct Hdisk; congruence]. destruct Hdisk as (d' & Hd1 & Hd2).
    destruct (Hlt eq_refl) as [Hlt' _]. assert (d = d') as -> by congruence. lia.
  - destruct (Reconcile_system _ _ _ _ _ _ _ _ _ Hh Hd Hr) as (Hrec & Hh' & Hd' & Hle). subst rec.
    exists (reconciled now <$> disk). split; simpl; try done; [intros s1 [= <-]; by apply (New_ok _ _ f')|].
    intros v Hv. destruct (Hstart v Hv) as (d & Hdd & Hl). destruct (Hle d Hdd) as (d' & ? & ?).
    exists d'. split; [done|lia].
  - destruct res as [err|[rec crashed]].
    + pose proof (Reconcile_holds _ _ _ _ _ _ _ Hh Hr) as ->. exists disk. by split.
    + destruct (Reconcile_system _ _ _ _ _ _ _ _ _ Hh Hd Hr) as (Hrec & Hh' & Hd' & Hle).
      exists (reconciled now <$> disk). split; simpl; try done.
      intros v Hv. destruct (Hstart v Hv) as (d & Hdd & Hl). destruct (Hle d Hdd) as (d' & ? & ?).
      exists d'. split; [done|lia].
Qed.

Definition nothing : RunLog := mkRunLog [] [] [].

(** A sandbox whose driver has not run yet. *)
Definition first_boot : System := mkSystem None None None nothing.

(** C31: a version runs once.  Over any requests, stops, shutdowns, disk faults
    and crashes of the driver process, restarts included, the versions started
    are strictly increasing, so none is started twice and none after a newer
    one; no run is started while another is in progress; and whenever a stream
    is told that a run was reported, the server did acknowledge the run's
    outcome. *)
Theorem driver_runs_once (y : System) :
  rtc ds_step first_boot y →
  StronglySorted Z.lt (rl_started (ds_log y)) ∧
  (∀ s io req r s' f', ds_server y = Some s → is_int64 (Req_Version req) = true →
     open io req s (ds_file y) = (inr (r, false), s', f') → sv_exec s = NoRun) ∧
  (∀ v, (v, true) ∈ rl_finished (ds_log y) → v ∈ rl_acked (ds_log y)).
Proof using RL.
  intros Hr. assert (H0 : ∃ disk, system_ok first_boot disk).
  { exists None. split; simpl; try done; [constructor|..]; intros * H; by apply elem_of_nil in H. }
  assert (Hinv : ∃ disk, system_ok y disk).
  { induction Hr as [|y1 y2 y3 H12 _ IH]; [done|]. destruct H0 as [disk H0]. apply IH.
    by eapply ds_step_ok. }
  destruct Hinv as [disk [Hh Hd Hs Hst Hsort Hstart Hfin]]. split; [done|]. split.
  - intros s io req r s' f' Hsv Hv Ho. pose proof (so_exec _ _ _ (Hs s Hsv)) as Hexec.
    assert (Hidle : RR_State (sv_rec s) ≠ Running ∨ sv_active s = None).
    { unfold open in Ho. destruct (sv_streaming s); [done|].
      destruct (sv_hasRec s) eqn:Hrec; simpl in Ho.
      - left. destruct (_ <? _); [done|]. destruct (_ =? _); [done|].
        destruct (String.eqb_spec (RR_State (sv_rec s)) Running); [done|done].
      - right. pose proof (so_disk _ _ _ (Hs s Hsv)) as Hdisk. rewrite Hrec in Hdisk. by destruct Hdisk. }
    destruct (sv_exec s); try done; destruct Hexec as ((a & Ha & _) & Hrun & _);
      destruct Hidle; congruence.
  - intros v Hv. by apply (Hfin v true Hv).
Qed.
End runs.

(** ** A concrete codec *)

Definition sample_int (z : Z) : string :=
  sample_string (if z <? 0 then "-" else "+") +:+ sample_string (pretty (Z.abs_N z)).

Definition sample_unint (s : string) : option (Z * string) :=
  '(sign, s) ← sample_unstring s; '(digits, s) ← sample_unstring s; n ← parse_digits 0 digits;
  Some (if String.eqb sign "-" then - n else n, s).

Lemma sample_unint_int z rest : sample_unint (sample_int z +:+ rest) = Some (z, rest).
Proof.
  unfold sample_unint, sample_int. rewrite str_app_assoc, sample_unstring_string. cbn [mbind option_bind].
  rewrite sample_unstring_string. cbn [mbind option_bind]. rewrite parse_pretty_N.
  cbn [mbind option_bind]. destruct (Z.ltb_spec z 0); simpl; do 2 f_equal; lia.
Qed.

#[global] Instance sample_run_json : RunRecordJSON := {|
  Marshal_RunRecord rec := Some
    (sample_int (RR_Version rec) +:+ (sample_string (RR_State rec) +:+
      (sample_int (RR_FinishedAt rec) +:+ sample_string (FormatBool (RR_Reported rec)))));
  Unmarshal_RunRecord s :=
    '(version, s) ← sample_unint s; '(state, s) ← sample_unstring s;
    '(at_, s) ← sample_unint s; '(reported, _) ← sample_unstring s;
    Some (mkRunRecord version state at_ (String.eqb reported "true")) |}.

#[global] Instance sample_run_laws : RunRecordJSONLaws.
Proof.
  intros rec _ _. eexists. split; [done|]. unfold Unmarshal_RunRecord, sample_run_json.
  rewrite sample_unint_int. cbn [mbind option_bind]. rewrite sample_unstring_string.
  cbn [mbind option_bind]. rewrite sample_unint_int. cbn [mbind option_bind].
  rewrite <- (str_app_nil_r (sample_string _)), sample_unstring_string. cbn [mbind option_bind].
  by destruct rec as [? ? ? []].
Qed.

Definition first_run : RunRequest :=
  mkRunRequest 1 (Some (mkRunSpec 7 "http://localhost" "jwt" ∅ ∅)).

Definition answered : System :=
  mkSystem (Some (mkServer (mkRunRecord 1 Finished 5 true) true None NoRun false false))
    (Marshal_RunRecord (mkRunRecord 1 Finished 5 true)) None (mkRunLog [1] [1] [(1, true)]).

(** A run is acknowledged and recorded, the process dies before it can say so,
    and the next one says it. *)
Lemma answered_reachable : rtc ds_step first_boot answered.
Proof.
  eapply rtc_l; [eapply (dst_boot None None 0); reflexivity|].
  eapply rtc_l; [eapply (dst_open None first_run); reflexivity|].
  eapply rtc_l; [eapply (dst_exec None 5 None); reflexivity|].
  eapply rtc_l; [eapply (dst_exec None 5 None); reflexivity|].
  eapply rtc_l; [apply dst_crash|].
  eapply rtc_l; [eapply (dst_boot None None 9); vm_compute; reflexivity|].
  eapply rtc_l; [eapply (dst_open None (mkRunRequest 1 None)); reflexivity|].
  eapply rtc_l; [eapply dst_finish; vm_compute; reflexivity|].
  apply rtc_refl.
Qed.

Lemma driver_runs_once_witness :
  StronglySorted Z.lt (rl_started (ds_log answered)) ∧ 1 ∈ rl_acked (ds_log answered).
Proof.
  destruct (driver_runs_once answered answered_reachable) as (Hs & _ & Ha).
  split; [exact Hs|]. apply Ha. by left.
Defined.
