(* ===== verification/Driver.v ===== *)
(** * The driver's run

    Models [internal/runner/agent/driver.go]: the run of a task inside its
    sandbox, which reports its own outcome, resumes its setup commands, and
    injects the events that arrived since the last run; and the page walk of
    [internal/gritzclient/events.go].  The server, the config file, the agent
    and the prompt template are effects. *)

From S2P Require Import Prelude AuthScope ScopeParse EventModel TaskModel Links Workspace.
From S2P Require Import Prog.

(** ** Effects *)

Record EventPage := mkEventPage_ { EP_Events : list Event; EP_NextPageToken : string; EP_More : bool }.

(** [agentprompt.Options]. *)
Record PromptOptions := mkPrompt {
  PO_Started : bool; PO_Prompt : string; PO_Task : Task; PO_Events : list Event; PO_Links : list Link }.

Inductive DOp : Set → Type :=
(* gritzclient.Client *)
| DGetTask (taskID : Z) : DOp (string + Task)
| DSubmit (ev : RunnerEvent) : DOp (option string)
| DListEvents (token : string) (types : list string) (pageSize : Z) : DOp (string + EventPage)
| DListLinks (taskID : Z) : DOp (string + list Link)
(* ConfigStore *)
| DLoad (taskID : Z) : DOp (string + Config)
| DSave (taskID : Z) (cfg : Config) : DOp (option string)
(* the setup commands, the debug shell, the agent *)
| DCommand (command : string) : DOp (option string)
| DServe (session : string) : DOp (option string)
| DNewAgent (cfg : Config) : DOp (option string)
| DRender (opts : PromptOptions) : DOp (string + string)
| DPrompt (prompt : string) (resume : bool) : DOp (option string)
(* context.Cause(ctx) == ErrStop, and the log shipper *)
| DStopped : DOp bool
| DFlushLog : DOp unit.

Abbreviation DProg := (Prog DOp).

(** ** Config updates *)

Definition set_completed (n : Z) (cfg : Config) : Config :=
  mkConfig (Cfg_Type cfg) (Cfg_Cwd cfg) (Cfg_Prompt cfg) (Cfg_Verbose cfg) (Cfg_McpServers cfg)
    (Cfg_Commands cfg) (Cfg_Capabilities cfg) (Cfg_Claude cfg) (Cfg_Codex cfg) (Cfg_Copilot cfg)
    (Cfg_Cursor cfg) (Cfg_Sloppy cfg) (Cfg_Dummy cfg) n (Cfg_Started cfg) (Cfg_NextEventToken cfg).
Definition set_token (token : string) (cfg : Config) : Config :=
  mkConfig (Cfg_Type cfg) (Cfg_Cwd cfg) (Cfg_Prompt cfg) (Cfg_Verbose cfg) (Cfg_McpServers cfg)
    (Cfg_Commands cfg) (Cfg_Capabilities cfg) (Cfg_Claude cfg) (Cfg_Codex cfg) (Cfg_Copilot cfg)
    (Cfg_Cursor cfg) (Cfg_Sloppy cfg) (Cfg_Dummy cfg) (Cfg_SetupCommandsCompleted cfg)
    (Cfg_Started cfg) token.
Definition set_started (cfg : Config) : Config :=
  mkConfig (Cfg_Type cfg) (Cfg_Cwd cfg) (Cfg_Prompt cfg) (Cfg_Verbose cfg) (Cfg_McpServers cfg)
    (Cfg_Commands cfg) (Cfg_Capabilities cfg) (Cfg_Claude cfg) (Cfg_Codex cfg) (Cfg_Copilot cfg)
    (Cfg_Cursor cfg) (Cfg_Sloppy cfg) (Cfg_Dummy cfg) (Cfg_SetupCommandsCompleted cfg)
    true (Cfg_NextEventToken cfg).

Definition eventPageSize : Z := 50.

Section driver.
Context (taskID : Z).

(** ** Setup commands *)

(** The loop of [setup], from command [i]. *)
Fixpoint run_commands (i : Z) (commands : list string) (cfg : Config) : DProg (string + Config) :=
  match commands with
  | [] => Ret (inr cfg)
  | command :: commands =>
      err ⟵ trigger (DCommand command) ;;
      match err with
      | Some err => Ret (inl ("setup command " +:+ FormatInt i +:+ " failed: " +:+ err))
      | None =>
          let cfg := set_completed (i + 1) cfg in
          err ⟵ trigger (DSave taskID cfg) ;;
          match err with
          | Some err => Ret (inl ("failed to save config: " +:+ err))
          | None => run_commands (i + 1) commands cfg
          end
      end
  end.

(** A count past the commands starts over. *)
Definition clamp_completed (cfg : Config) : Config :=
  if Z.of_nat (length (Cfg_Commands cfg)) <? Cfg_SetupCommandsCompleted cfg
  then set_completed 0 cfg else cfg.

Definition setup (cfg : Config) : DProg (string + Config) :=
  let cfg := clamp_completed cfg in
  run_commands (Cfg_SetupCommandsCompleted cfg)
    (drop (Z.to_nat (Cfg_SetupCommandsCompleted cfg)) (Cfg_Commands cfg)) cfg.

(** ** Events *)

(** The walk of [gritzclient.ListEventsByTask] under [drainEvents]; [None] is a
    walk cut off by the fuel. *)
Fixpoint drain_pages (fuel : nat) (cursor token : string) (events : list Event)
    : DProg (option (string + (list Event * string))) :=
  match fuel with
  | O => Ret None
  | S fuel =>
      r ⟵ trigger (DListEvents cursor [EventTypeInstruction; EventTypeExternal] eventPageSize) ;;
      match r with
      | inl err => Ret (Some (inl ("failed to fetch events: " +:+ err)))
      | inr page =>
          let token := EP_NextPageToken page in
          let events := events ++ EP_Events page in
          if EP_More page then drain_pages fuel token token events
          else Ret (Some (inr (events, token)))
      end
  end.

Definition drainEvents (fuel : nat) (cfg : Config) : DProg (option (string + (list Event * string))) :=
  drain_pages fuel (Cfg_NextEventToken cfg) (Cfg_NextEventToken cfg) [].

(** ** The agent *)

(** [runAgent] from the drained events on. *)
Definition prompt_agent (task : Task) (cfg : Config) (events : list Event) (links : list Link)
    : DProg (option string) :=
  err ⟵ trigger (DNewAgent cfg) ;;
  match err with
  | Some err => Ret (Some ("failed to create agent: " +:+ err))
  | None =>
      r ⟵ trigger (DRender (mkPrompt (Cfg_Started cfg) (Cfg_Prompt cfg) task events links)) ;;
      match r with
      | inl err => Ret (Some ("failed to build prompt: " +:+ err))
      | inr prompt =>
          err ⟵ trigger (DPrompt prompt (Cfg_Started cfg)) ;;
          match err with
          | Some err => Ret (Some err)
          | None =>
              err ⟵ trigger (DSave taskID (set_started cfg)) ;;
              Ret (match err with
                   | Some err => Some ("failed to save config: " +:+ err)
                   | None => None
                   end)
          end
      end
  end.

(** The outer [None] is a walk cut off by the fuel. *)
Definition runAgent (fuel : nat) (task : Task) : DProg (option (option string)) :=
  r ⟵ trigger (DLoad taskID) ;;
  match r with
  | inl err => Ret (Some (Some ("failed to load config: " +:+ err)))
  | inr cfg =>
      r ⟵ setup cfg ;;
      match r with
      | inl err => Ret (Some (Some err))
      | inr cfg =>
          r ⟵ drainEvents fuel cfg ;;
          match r with
          | None => Ret None
          | Some (inl err) => Ret (Some (Some err))
          | Some (inr (events, token)) =>
              let cfg := set_token token cfg in
              if negb (Cfg_Started cfg) then
                r ⟵ trigger (DListLinks taskID) ;;
                match r with
                | inl err => Ret (Some (Some ("failed to fetch task links: " +:+ err)))
                | inr links => err ⟵ prompt_agent task cfg events links ;; Ret (Some err)
                end
              else (err ⟵ prompt_agent task cfg events [] ;; Ret (Some err))
          end
      end
  end.

Definition driver_run (fuel : nat) (task : Task) : DProg (option (option string)) :=
  if negb (String.eqb (Task_ShellSession task) "") then
    err ⟵ trigger (DServe (Task_ShellSession task)) ;; Ret (Some err)
  else runAgent fuel task.

Definition submit (ev : RunnerEvent) : DProg (option string) :=
  err ⟵ trigger (DSubmit ev) ;;
  Ret (match err with
       | None => None
       | Some err => Some ("failed to submit " +:+ RE_Event ev +:+ " event: " +:+ err)
       end).

Definition driver_event (version : Z) (event reason : string) : RunnerEvent :=
  mkRunnerEvent taskID event version false reason.

(** [errors.Join]. *)
Definition join_errors (a : option string) (b : string) : string :=
  match a with
  | None => b
  | Some a => a +:+ String (Ascii.ascii_of_nat 10) b
  end.

(** The terminal event of a run that came to [err]. *)
Definition terminal_event (version : Z) (err : option string) : RunnerEvent :=
  match err with
  | None => driver_event version RunnerEventStopped ""
  | Some err => driver_event version RunnerEventFailed err
  end.

(** From the run's outcome on: a stop is no failure, the report decides the
    exit code, and the log goes out last. *)
Definition finish_run (version : Z) (err : option string) : DProg (option string) :=
  err ⟵ match err with
        | None => Ret None
        | Some e => stopped ⟵ trigger DStopped ;; Ret (if stopped : bool then None else Some e)
        end ;;
  serr ⟵ submit (terminal_event version err) ;;
  trigger DFlushLog ;;;
  Ret (match serr with None => None | Some serr => Some (join_errors err serr) end).

(** [Driver.Run]: the error it returns, or [None] twice for a walk cut off. *)
Definition Driver_Run (fuel : nat) : DProg (option (option string)) :=
  r ⟵ trigger (DGetTask taskID) ;;
  match r with
  | inl err => Ret (Some (Some ("failed to get task: " +:+ err)))
  | inr task =>
      let version := Task_Version task in
      err ⟵ submit (driver_event version RunnerEventStarted "") ;;
      match err with
      | Some err => Ret (Some (Some err))
      | None =>
          r ⟵ driver_run fuel task ;;
          match r with
          | None => Ret None
          | Some err => err ⟵ finish_run version err ;; Ret (Some err)
          end
      end
  end.
End driver.
