(* ===== verification/DriverSpec.v ===== *)
(** * What a driver's runs amount to

    [internal/runner/agent/driver.go] against the world around it, over any
    number of runs, each possibly cut off at any effect: the outcome is
    reported once and truthfully, setup commands are not skipped, and what the
    agent is told of the task's stream.  The pages that the driver walks are those
    of the server's own listing ([ApiEvents], [StorePages], [Pagination]). *)

From S2P Require Import Prelude AuthScope ScopeParse EventModel TaskModel Links PubSub ScheduleModel Rules.
From S2P Require Import Store StoreOps StoreLogic ApiBase Timeline Pagination StorePages ApiEvents.
From S2P Require Import Workspace Prog Driver.

(** ** Where a token stands *)

Section standing.
Context {TJ : TokenJSON IDCursor} {TL : TokenJSONLaws IDCursor}.

Definition event_lt (x y : Event) : Prop := Event_ID x < Event_ID y.

(** After the first [n] events of a stream; the empty token, before any page, after
    none. *)
Definition stands (s : list Event) (token : string) (n : nat) : Prop :=
  (token = "" ∧ n = 0%nat) ∨
  ∃ e, s !! pred n = Some e ∧ (0 < n)%nat ∧ token = Encode (mkToken (Some (mkIDCursor (Event_ID e))) true).

Lemma stands_grows s t token n : stands s token n → stands (s ++ t) token n.
Proof using.
  intros [?|(e & He & Hn)]; [by left|right]. exists e. split; [|done]. by apply lookup_app_l_Some.
Qed.

Lemma stands_length s token n : stands s token n → (n <= length s)%nat.
Proof using. intros [[_ ->]|(e & He%lookup_lt_Some & Hn & _)]; lia. Qed.

Lemma stands_start s : stands s "" 0.
Proof using. by left. Qed.

Lemma Cursor_order x y : id_lt (Cursor (Source:=page_cursors) x) (Cursor (Source:=page_cursors) y) ↔ event_lt x y.
Proof using. done. Qed.

Lemma of_types_sorted types stream : StronglySorted event_lt stream → StronglySorted event_lt (of_types types stream).
Proof using. apply StronglySorted_filter. Qed.

Lemma reverse_take_reverse {A} n (l : list A) : reverse (take n (reverse l)) = drop (length l - n) l.
Proof using.
  destruct (decide (n <= length l)%nat) as [Hn|Hn].
  - rewrite <-(take_drop (length l - n) l) at 1. rewrite reverse_app.
    rewrite take_app_le by (rewrite length_reverse, length_drop; lia).
    rewrite take_ge by (rewrite length_reverse, length_drop; lia). apply reverse_involutive.
  - rewrite take_ge by (rewrite length_reverse; lia). rewrite reverse_involutive.
    by replace (length l - n)%nat with 0%nat by lia.
Qed.

(** What a page is, by where its token stands: after the first page, the next fifty
    events; the first page has the newest fifty. *)
Lemma served_standing stream types token n resp :
  StronglySorted event_lt stream → let s := of_types types stream in
  stands s token n → served_page stream token types 50 = Some resp →
  ∃ b k, LER_Events resp = take k (drop b s) ∧ (b + k <= length s)%nat ∧
    stands s (LER_NextPageToken resp) (b + k) ∧
    (b = n ∨ (n = 0 ∧ k = 50)%nat) ∧
    (LER_More resp = true → (0 < k)%nat) ∧ (LER_More resp = false → (b + k)%nat = length s).
Proof using TL.
  intros Hstream s Hst. pose proof (of_types_sorted types stream Hstream) as Hs. fold s in Hs.
  set (opt := mkOptions 50 200 true 50 token). unfold served_page. fold opt.
  destruct Hst as [[-> ->]|(e & He & Hn & ->)].
  - cbn [mbind option_bind String.eqb Tok_Backward Tok_Cursor]. change (Z.to_nat (size_of opt)) with 50%nat.
    assert (E : keyset_rows (Cursor (Source:=page_cursors)) id_lt s (mkToken None false) = reverse s).
    { unfold keyset_rows. simpl. apply filter_all, Forall_forall. by intros. }
    fold s. rewrite E. change (size_of opt) with (Z.of_nat 50). intros [= <-].
    destruct (page_unfold page_cursors opt 50 false (reverse s)) as [Hpage Htok]. revert Hpage Htok.
    generalize (build_page page_cursors opt (Z.of_nat 50) false (take 51 (reverse s))) as page. intros [items next prev more]. simpl.
    intros [= -> ->] Htok.
    exists (length s - 50)%nat, (50 `min` length s)%nat. rewrite reverse_take_reverse, length_reverse.
    rewrite (take_ge (drop _ s)) by (rewrite length_drop; lia). split; [done|]. split; [lia|].
    split; [|split; [lia|split; [|by intros; lia]]].
    + clear -Htok. destruct s as [|x s' _] using rev_ind; [by injection Htok as _ ->; left|].
      rewrite reverse_snoc in Htok. cbn [take] in Htok.
      destruct (last (x :: take 49 (reverse s'))) as [y|] eqn:Hy; [|by apply last_None in Hy].
      injection Htok as _ ->. right. exists x. rewrite length_app. cbn [length]. split; [|split; [lia|done]].
      replace (pred _) with (length s') by lia. by rewrite lookup_app_r, Nat.sub_diag by lia.
    + intros Hm%Nat.ltb_lt. lia.
  - destruct (String.eqb_spec (Encode (mkToken (Some (mkIDCursor (Event_ID e))) true)) "") as [E|_]; [by apply Encode_nonempty in E|].
    rewrite Decode_Encode. cbn [mbind option_bind Tok_Backward Tok_Cursor]. change (Z.to_nat (size_of opt)) with 50%nat.
    fold s. assert (E : keyset_rows (Cursor (Source:=page_cursors)) id_lt s (mkToken (Some (mkIDCursor (Event_ID e))) true) = drop n s).
    { unfold keyset_rows. cbn [Tok_Backward]. replace n with (S (pred n)) by lia.
      apply (filter_after_drop event_lt s (pred n) e); [unfold event_lt; lia..|exact Hs|exact He|done]. }
    rewrite E. change (size_of opt) with (Z.of_nat 50). intros [= <-].
    destruct (page_unfold page_cursors opt 50 true (drop n s)) as [Hpage Htok]. revert Hpage Htok.
    generalize (build_page page_cursors opt (Z.of_nat 50) true (take 51 (drop n s))) as page. intros [items next prev more]. simpl.
    intros [= -> ->] Htok.
    pose proof (lookup_lt_Some _ _ _ He) as Hlen. rewrite length_drop.
    exists n, (50 `min` (length s - n))%nat. split; [|split; [lia|]].
    { rewrite <-take_take. f_equal. by rewrite take_ge by (rewrite length_drop; lia). }
    split; [|split; [by left|split]].
    + destruct (drop n s) as [|x l] eqn:Hd.
      * injection Htok as _ ->. assert (length (drop n s) = 0%nat) as Hl by by rewrite Hd. rewrite length_drop in Hl.
        right. exists e. replace (n + 50 `min` (length s - n))%nat with n by lia. done.
      * cbn [take] in Htok. destruct (last (x :: take 49 l)) as [y|] eqn:Hy; [|by apply last_None in Hy].
        injection Htok as _ ->. right. exists y. split; [|split; [lia|done]].
        change (x :: take 49 l) with (take 50 (x :: l)) in Hy. rewrite <-Hd, last_lookup, length_take, length_drop in Hy.
        apply lookup_take_Some in Hy as [Hy _]. rewrite lookup_drop in Hy. rewrite <-Hy. f_equal.
        assert (length (drop n s) ≠ 0%nat) as Hl by by rewrite Hd. rewrite length_drop in Hl. lia.
    + intros Hm%Nat.ltb_lt. lia.
    + intros Hm%Nat.ltb_ge. lia.
Qed.
End standing.

(** ** The world of a driver *)

(** The stream, the config file, what was reported and answered, the commands
    that succeeded, the events last rendered, and the events of the prompts
    that succeeded. *)
Record DWorld := mkDWorld {
  dw_stream : list Event; dw_file : Config; dw_reports : list (RunnerEvent * option string);
  dw_commands : list string; dw_rendered : list Event; dw_prompts : list (list Event) }.

Section world.
Context {TJ : TokenJSON IDCursor}.

Definition set_stream v w := mkDWorld v (dw_file w) (dw_reports w) (dw_commands w) (dw_rendered w) (dw_prompts w).
Definition set_file v w := mkDWorld (dw_stream w) v (dw_reports w) (dw_commands w) (dw_rendered w) (dw_prompts w).
Definition add_report v w := mkDWorld (dw_stream w) (dw_file w) (dw_reports w ++ [v]) (dw_commands w)
  (dw_rendered w) (dw_prompts w).
Definition add_command v w := mkDWorld (dw_stream w) (dw_file w) (dw_reports w) (dw_commands w ++ [v])
  (dw_rendered w) (dw_prompts w).
Definition set_rendered v w := mkDWorld (dw_stream w) (dw_file w) (dw_reports w) (dw_commands w) v (dw_prompts w).
Definition add_prompt w := mkDWorld (dw_stream w) (dw_file w) (dw_reports w) (dw_commands w)
  (dw_rendered w) (dw_prompts w ++ [dw_rendered w]).

Definition as_page (resp : ListEventsByTaskResponse) : EventPage :=
  mkEventPage_ (LER_Events resp) (LER_NextPageToken resp) (LER_More resp).

(** The stream grows at its end, by events with larger ids, and a page of it is the
    server's; a save happens or fails without a trace;
    everything else may answer anything. *)
Definition driver_step (R : Set) (op : DOp R) (w : DWorld) : R → DWorld → Prop :=
  match op in DOp R return R → DWorld → Prop with
  | DSubmit ev => λ r w', w' = add_report (ev, r) w
  | DListEvents token types pageSize => λ r w', ∃ new, w' = set_stream (dw_stream w ++ new) w ∧
      StronglySorted event_lt (dw_stream w ++ new) ∧
      ((∃ err, r = inl err) ∨
       ∃ resp, r = inr (as_page resp) ∧ served_page (dw_stream w ++ new) token types pageSize = Some resp)
  | DLoad _ => λ r w', w' = w ∧ (r = inr (dw_file w) ∨ ∃ err, r = inl err)
  | DSave _ cfg => λ r w', (r = None ∧ w' = set_file cfg w) ∨ (∃ err, r = Some err ∧ w' = w)
  | DCommand c => λ r w', w' = match r with None => add_command c w | Some _ => w end
  | DRender opts => λ _ w', w' = set_rendered (PO_Events opts) w
  | DPrompt _ _ => λ r w', w' = match r with None => add_prompt w | Some _ => w end
  | _ => λ _ w', w' = w
  end.

#[local] Abbreviation any := (demonic driver_step).
Ltac any_bind := eapply prog_wp_bind; [exact (demonic_mono _)|].

(** ** Reports *)

Definition keeps_reports {A} (p : DProg A) : Prop :=
  ∀ w (Φ : A → DWorld → Prop),
    (∀ a w', dw_reports w' = dw_reports w → Φ a w') → wp any p Φ w.

(** Every effect but a submission. *)
Lemma op_keeps_reports (R : Set) (op : DOp R) w r w' :
  driver_step R op w r w' → match op with DSubmit _ => False | _ => True end →
  dw_reports w' = dw_reports w.
Proof. destruct op; simpl; intros H Hop; try done; try destruct r; naive_solver. Qed.

Fixpoint silent {A} (p : DProg A) : Prop :=
  match p with
  | Ret _ => True
  | Do op k => match op with DSubmit _ => False | _ => True end ∧ ∀ r, silent (k r)
  end.

Lemma silent_bind {A B} (p : DProg A) (f : A → DProg B) :
  silent p → (∀ a, silent (f a)) → silent (prog_bind f p).
Proof. induction p as [a|R op k IH]; simpl; [eauto|]. intros [Hop Hk] Hf. split; [done|]. eauto. Qed.

Lemma silent_keeps {A} (p : DProg A) : silent p → keeps_reports p.
Proof.
  intros Hs w Φ HΦ. revert w HΦ. induction p as [a|R op k IH]; intros w HΦ; simpl; [by apply HΦ|].
  destruct Hs as [Hop Hk]. intros r w' Hst. apply IH; [done|]. intros a w'' Hw. apply HΦ.
  rewrite Hw. by eapply op_keeps_reports.
Qed.

Context (taskID : Z).

Lemma silent_commands commands i cfg : silent (run_commands taskID i commands cfg).
Proof.
  revert i cfg. induction commands as [|c commands IH]; intros i cfg; simpl; [done|].
  split; [done|]. intros [err|]; simpl; [done|]. split; [done|]. intros [err|]; simpl; [done|apply IH].
Qed.

Lemma silent_drain fuel cursor token events : silent (drain_pages fuel cursor token events).
Proof.
  revert cursor token events. induction fuel as [|n IH]; intros cursor token events; simpl; [done|].
  split; [done|]. intros [err|page]; simpl; [done|]. destruct (EP_More page); [apply IH|done].
Qed.

Lemma silent_prompt task cfg events links : silent (prompt_agent taskID task cfg events links).
Proof.
  unfold prompt_agent. simpl. split; [done|]. intros [err|]; simpl; [done|].
  split; [done|]. intros [err|prompt]; simpl; [done|]. split; [done|]. intros [err|]; simpl; [done|].
  split; [done|]. by intros [err|].
Qed.

Lemma run_silent fuel task : silent (driver_run taskID fuel task).
Proof.
  unfold driver_run. destruct (negb _); [by split|]. unfold runAgent.
  apply silent_bind; [by split|]. intros [err|cfg]; [done|].
  apply silent_bind; [apply silent_commands|]. intros [err|cfg']; [done|].
  apply silent_bind; [apply silent_drain|]. intros [[err|[events token]]|]; [done| |done].
  cbv zeta. destruct (negb (Cfg_Started (set_token token cfg'))).
  - apply silent_bind; [by split|]. intros [err|links]; [done|].
    by apply silent_bind; [apply silent_prompt|].
  - by apply silent_bind; [apply silent_prompt|].
Qed.

(** How a submission ends up in the reports, with the answer it got. *)
Lemma submit_exec ev w l a w' :
  exec driver_step (submit ev) w l a w' →
  ∃ ack, dw_reports w' = dw_reports w ++ [(ev, ack)] ∧ (a = None ↔ ack = None).
Proof.
  intros (l1 & r & w1 & l2 & (r' & w2 & l3 & -> & (-> & -> & ->) & _) & (-> & _ & ->) & _)%exec_bind.
  exists r'. split; [done|]. by destruct r'.
Qed.

Lemma silent_exec {A} (p : DProg A) w l a w' :
  silent p → exec driver_step p w l a w' → dw_reports w' = dw_reports w.
Proof.
  intros Hs Hr. apply (demonic_exec driver_step p (λ _ w', dw_reports w' = dw_reports w) w l a w');
    [|done]. by apply silent_keeps.
Qed.

(** The effects of a run, with their answers. *)
Abbreviation Trace := (list {R : Set & (DOp R * R)%type}).
Definition saw (R : Set) (op : DOp R) (r : R) (trace : Trace) : Prop :=
  existT (P := λ R : Set, (DOp R * R)%type) R (op, r) ∈ trace.

(** What the work came to, once the run has asked whether it was told to stop: an
    error of a run that was is none. *)
Definition outcome_of (trace : Trace) (res err : option string) : Prop :=
  match res with
  | None => err = None
  | Some _ => ∃ stopped : bool, saw bool DStopped stopped trace ∧ err = if stopped then None else res
  end.

(** What a run tells the server, given the task's version and what the work
    between its two reports came to. *)
Inductive told (v : Z) (trace : Trace) :
    option (option string) → list (RunnerEvent * option string) → option (option string) → Prop :=
| told_refused res refusal err :
    told v trace res [(driver_event taskID v RunnerEventStarted "", Some refusal)] (Some (Some err))
| told_cut : told v trace None [(driver_event taskID v RunnerEventStarted "", None)] None
| told_finished res err ack r :
    outcome_of trace res err →
    (r = None ↔ ack = None) →
    told v trace (Some res)
      [(driver_event taskID v RunnerEventStarted "", None); (terminal_event taskID v err, ack)]
      (Some r).

Lemma outcome_of_grows trace trace' res err :
  (∀ x, x ∈ trace → x ∈ trace') → outcome_of trace res err → outcome_of trace' res err.
Proof. intros Hin. destruct res; [|done]. intros (stopped & Hs & ->). exists stopped. split; [by apply Hin|done]. Qed.

Lemma finish_exec v res w l r w' :
  exec driver_step (finish_run taskID v res) w l r w' →
  ∃ err ack, dw_reports w' = dw_reports w ++ [(terminal_event taskID v err, ack)] ∧
    outcome_of l res err ∧ (r = None ↔ ack = None).
Proof.
  intros (l1 & err & w1 & l2 & H1 & H2 & ->)%exec_bind.
  apply exec_bind in H2 as (l3 & serr & w2 & l4 & H2 & H3 & ->).
  apply submit_exec in H2 as (ack & Hw2 & Hack).
  destruct H3 as (u & w3 & l5 & Hw3 & (-> & -> & ->) & ->). simpl in Hw3. subst w3.
  assert (w1 = w ∧ outcome_of l1 res err) as [-> Herr].
  { destruct res as [e|]; [|by destruct H1 as (-> & -> & ->)].
    destruct H1 as (stopped & w4 & l6 & Hw4 & (-> & -> & ->) & ->). simpl in Hw4. subst w4.
    split; [done|]. exists stopped. split; [unfold saw; set_solver|by destruct stopped]. }
  exists err, ack. split; [done|]. split.
  - eapply outcome_of_grows; [|exact Herr]. intros x. set_solver.
  - rewrite <-Hack. by destruct serr.
Qed.

(** C30: What a driver reports is what its run came to.  The first thing a run
    does is fetch the task, and a run that cannot fetch it reports nothing.
    Otherwise every report carries the fetched version: a "started" first, and
    if that is accepted, once the work is over, exactly one terminal event:
    "stopped" if the work ended well, or if it did not and the run, asked then,
    had been told to stop, and "failed" with the work's own error otherwise.  The run returns no error exactly when
    the server accepted the terminal event. *)
Theorem driver_reports fuel w l r w' (H : exec driver_step (Driver_Run taskID fuel) w l r w') :
  ∃ got trace, l = existT _ (DGetTask taskID, got) :: trace ∧
    match got with
    | inl _ => dw_reports w' = dw_reports w ∧ ∃ err, r = Some (Some err)
    | inr task => ∃ new res w1 l1 w2,
        dw_reports w' = dw_reports w ++ new ∧ told (Task_Version task) trace res new r ∧
        (res = None ∨
         exec driver_step (driver_run taskID fuel task) w1 l1 res w2 ∧ l1 `sublist_of` trace)
    end.
Proof.
  destruct H as (got & w0 & trace & Hw0 & H & ->). simpl in Hw0. subst w0.
  exists got, trace. split; [done|]. destruct got as [e|task]; [by destruct H as (-> & -> & ->); eauto|].
  cbn -[submit driver_run finish_run] in H.
  apply exec_bind in H as (l1 & err & w1 & l2 & Hsub & H & ->).
  apply submit_exec in Hsub as (ack & Hw1 & Hack). destruct err as [err|].
  - destruct H as (-> & -> & ->). destruct ack as [ack|]; [|naive_solver].
    eexists _, None, w, [], w. split; [exact Hw1|]. split; [by constructor|by left].
  - assert (ack = None) as -> by naive_solver.
    apply exec_bind in H as (l3 & res & w2 & l4 & Hrun & H & ->).
    pose proof (silent_exec _ _ _ _ _ (run_silent _ _) Hrun) as Hw2. destruct res as [res|].
    + apply exec_bind in H as (l5 & r' & w3 & l6 & Hfin & (-> & -> & ->) & ->).
      apply finish_exec in Hfin as (err & ack & Hw3 & Herr & Hr).
      eexists _, (Some res), w1, l3, w2. split; [|split; [eapply told_finished; [|exact Hr]|]].
      * by rewrite Hw3, Hw2, Hw1, <-app_assoc.
      * eapply outcome_of_grows; [|exact Herr]. intros x. set_solver.
      * right. split; [done|]. apply sublist_inserts_l, sublist_inserts_r. done.
    + destruct H as (-> & -> & ->). eexists _, None, w1, l3, w2.
      split; [by rewrite Hw2|]. split; [constructor|by left].
Qed.

(** ** Waking the agent *)

Context {TL : TokenJSONLaws IDCursor}.
#[local] Set Default Proof Using "Type TL".

Definition injectable : list Event → list Event := of_types [EventTypeInstruction; EventTypeExternal].

Lemma injectable_app a b : injectable (a ++ b) = injectable a ++ injectable b.
Proof. apply filter_app. Qed.

Definition segment {A} (p s : list A) : Prop := ∃ pre post, s = pre ++ p ++ post.

Lemma segment_grows {A} (p s t : list A) : segment p s → segment p (s ++ t).
Proof. intros (pre & post & ->). exists pre, (post ++ t). by rewrite <-!app_assoc. Qed.

Lemma take_grows {A} n (s t : list A) : (n ≤ length s)%nat → take n (s ++ t) = take n s.
Proof. apply take_app_le. Qed.

Lemma between_grows {A} b n (s t : list A) :
  (n ≤ length s)%nat → take (n - b) (drop b (s ++ t)) = take (n - b) (drop b s).
Proof.
  intros Hn. destruct (decide (b ≤ n)%nat); [|by replace (n - b)%nat with 0%nat by lia].
  rewrite drop_app_le by lia. apply take_app_le. rewrite length_drop. lia.
Qed.

(** The events of the stream from [b] up to [n] were each in a prompt the agent got,
    whole and in order.  Events were left out before them only if fifty newer ones
    were among these. *)
Definition covered (b n : nat) (w : DWorld) : Prop :=
  (b ≤ n)%nat ∧ (n ≤ length (injectable (dw_stream w)))%nat ∧ (b = 0 ∨ b + 50 ≤ n)%nat ∧
  ∃ kept, kept `sublist_of` dw_prompts w ∧ concat kept = take (n - b) (drop b (injectable (dw_stream w))).

(** What holds at every point of every run; [commands] are the workspace's. *)
Record woken (commands : list string) (w : DWorld) : Prop := {
  woken_commands : Cfg_Commands (dw_file w) = commands;
  woken_bounds : 0 ≤ Cfg_SetupCommandsCompleted (dw_file w) ≤ Z.of_nat (length commands);
  woken_ran : take (Z.to_nat (Cfg_SetupCommandsCompleted (dw_file w))) commands `sublist_of` dw_commands w;
  woken_setup : dw_prompts w = [] ∨ commands `sublist_of` dw_commands w;
  woken_rendered : segment (dw_rendered w) (injectable (dw_stream w));
  woken_prompts : Forall (λ p, segment p (injectable (dw_stream w))) (dw_prompts w);
  woken_sorted : StronglySorted event_lt (dw_stream w);
  woken_token : ∃ b n, stands (injectable (dw_stream w)) (Cfg_NextEventToken (dw_file w)) n ∧ covered b n w }.

Section woken.
Context (commands : list string).
Implicit Types w : DWorld.
#[local] Abbreviation inv := (woken commands).
#[local] Abbreviation always := (keeping driver_step inv).
Ltac always_bind := eapply prog_wp_bind; [exact (keeping_mono _ _)|].

(** What the steps do to the invariant. *)
Lemma covered_grows b n w new : covered b n w → covered b n (set_stream (dw_stream w ++ new) w).
Proof.
  intros (Hb & Hn & Hsome & kept & Hk & Hc). unfold covered. simpl. rewrite injectable_app, length_app.
  split_and!; [done|lia|done|]. exists kept. by rewrite between_grows.
Qed.

Lemma inv_stream w new : inv w → StronglySorted event_lt (dw_stream w ++ new) → inv (set_stream (dw_stream w ++ new) w).
Proof.
  intros [? ? ? ? Hr Hp _ (b & n & Hn & Hc)] Hs.
  constructor; simpl; rewrite ?injectable_app; eauto using segment_grows.
  - eapply Forall_impl; [exact Hp|]. intros p. apply segment_grows.
  - exists b, n. split; [by apply stands_grows|]. by apply covered_grows.
Qed.

Lemma inv_report w v : inv w → inv (add_report v w).
Proof. by intros []; constructor. Qed.

Lemma inv_command w c : inv w → inv (add_command c w).
Proof.
  intros [? ? ? Hs]. constructor; simpl; eauto using sublist_inserts_r.
  destruct Hs; eauto using sublist_inserts_r.
Qed.

Lemma inv_rendered w v : inv w → segment v (injectable (dw_stream w)) → inv (set_rendered v w).
Proof. by intros []; constructor. Qed.

Lemma inv_prompt w : inv w → commands `sublist_of` dw_commands w → inv (add_prompt w).
Proof.
  intros [? ? ? ? ? ? ? (b & n & Hn & Hb & Hl & Hsome & kept & Hk & ?)] Hs. constructor; simpl; eauto.
  - by apply Forall_app_2, Forall_singleton.
  - exists b, n. split; [done|]. split_and!; [done..|]. exists kept. split; [|done]. by apply sublist_inserts_r.
Qed.

Lemma inv_completed w i c :
  inv w → commands !! i = Some c → Cfg_SetupCommandsCompleted (dw_file w) = Z.of_nat i →
  inv (set_file (set_completed (Z.of_nat i + 1) (dw_file w)) (add_command c w)).
Proof.
  intros [? ? Hr Hs] Hc Hi. constructor; simpl; eauto.
  - apply lookup_lt_Some in Hc. lia.
  - replace (Z.to_nat (Z.of_nat i + 1)) with (S i) by lia. rewrite (take_S_r _ _ c) by done.
    apply sublist_app; [|done]. by rewrite Hi, Nat2Z.id in Hr.
  - destruct Hs; eauto using sublist_inserts_r.
Qed.

(** The events from [b] up to [m]; a walk from position [n] begins there, or, when
    nothing was walked yet, with the newest fifty. *)
Definition fresh (b m : nat) (events : list Event) w : Prop :=
  (b ≤ m)%nat ∧ (m ≤ length (injectable (dw_stream w)))%nat ∧
  events = take (m - b) (drop b (injectable (dw_stream w))).
Definition begins (n b m : nat) : Prop := (b = n ∨ n = 0 ∧ b + 50 ≤ m)%nat.

Lemma fresh_segment b m events w : fresh b m events w → segment events (injectable (dw_stream w)).
Proof.
  intros (Hb & Hm & ->). exists (take b (injectable (dw_stream w))), (drop m (injectable (dw_stream w))).
  replace m with (b + (m - b))%nat at 2 by lia. by rewrite <-drop_drop, take_drop, take_drop.
Qed.

Lemma fresh_grows b m events new w :
  fresh b m events w → fresh b m events (set_stream (dw_stream w ++ new) w).
Proof.
  intros (Hb & Hm & ->). split; [done|]. simpl. rewrite injectable_app, length_app. split; [lia|]. by rewrite between_grows.
Qed.

Lemma between_join {A} b m k (s : list A) :
  (b ≤ m)%nat → take (m - b) (drop b s) ++ take k (drop m s) = take (m + k - b) (drop b s).
Proof.
  intros Hb. replace (m + k - b)%nat with ((m - b) + k)%nat by lia.
  replace m with (b + (m - b))%nat at 2 by lia. rewrite <-drop_drop. apply take_take_drop.
Qed.

(** A page on top of what was walked. *)
Lemma fresh_page n b m events b' k new w :
  begins n b m → fresh b m events w → new = take k (drop b' (injectable (dw_stream w))) →
  (b' + k ≤ length (injectable (dw_stream w)))%nat → (b' = m ∨ m = 0 ∧ k = 50)%nat →
  ∃ b1, begins n b1 (b' + k) ∧ fresh b1 (b' + k) (events ++ new) w.
Proof.
  unfold begins, fresh. intros Hn (Hb & Hm & ->) -> Hk [->|[-> ->]].
  - exists b. split; [lia|]. split; [lia|]. split; [done|]. by apply between_join.
  - exists b'. split; [lia|]. split; [lia|]. split; [done|]. replace b with 0%nat by lia. simpl.
    f_equal. lia.
Qed.

(** A prompt on top of what was covered. *)
Lemma covered_prompt b0 n b m events w w' :
  covered b0 n w → begins n b m → fresh b m events w →
  dw_stream w' = dw_stream w → dw_prompts w' = dw_prompts w ++ [events] →
  ∃ b', (0 < n → b' = b0)%nat ∧ covered b' m w'.
Proof.
  intros (Hb0 & Hn & Hsome & kept & Hk & Hc) Hbegin (Hb & Hm & He) Hst Hp. unfold covered. rewrite Hst, Hp.
  destruct (decide (b = n)) as [->|Hne].
  - exists b0. split; [done|]. split_and!; [lia|done|lia|]. exists (kept ++ [events]). split; [by apply sublist_app|].
    rewrite concat_app, Hc, He. simpl. rewrite app_nil_r. rewrite between_join by done. f_equal. lia.
  - destruct Hbegin as [|[-> Hfifty]]; [done|]. exists b. split; [lia|]. split_and!; [done|done|lia|].
    exists [events]. split; [by apply sublist_inserts_l|]. simpl. by rewrite app_nil_r.
Qed.

Lemma inv_started w b0 n b m events token :
  inv w → commands `sublist_of` dw_commands w → covered b0 n w → begins n b m → fresh b m events w →
  stands (injectable (dw_stream w)) token m →
  inv (set_file (set_started (set_token token (dw_file w))) (add_prompt (set_rendered events w))).
Proof.
  intros Hw Hs Hc Hbegin Hf Ht. pose proof (fresh_segment _ _ _ _ Hf).
  destruct Hw as [? ? ? ? ? Hp ? _]. constructor; simpl; eauto.
  - by apply Forall_app_2, Forall_singleton.
  - edestruct covered_prompt as (b' & _ & Hc'); [exact Hc|exact Hbegin|exact Hf| | |exists b', m; split; [exact Ht|exact Hc']]; done.
Qed.

(** ** The phases of a run *)

(** The commands leave the stream, the prompts and the token alone. *)
Definition set_up (n b : nat) (r : string + Config) w : Prop :=
  inv w ∧ covered b n w ∧
  match r with
  | inl _ => True
  | inr cfg => cfg = dw_file w ∧ commands `sublist_of` dw_commands w ∧
               stands (injectable (dw_stream w)) (Cfg_NextEventToken (dw_file w)) n
  end.

Lemma commands_wp b n i w :
  inv w → covered b n w → stands (injectable (dw_stream w)) (Cfg_NextEventToken (dw_file w)) n →
  Cfg_SetupCommandsCompleted (dw_file w) = Z.of_nat i →
  wp always (run_commands taskID (Z.of_nat i) (drop i commands) (dw_file w)) (set_up n b) w.
Proof.
  revert w. remember (drop i commands) as rest eqn:Hrest. revert i Hrest.
  induction rest as [|c rest IH]; intros i Hrest w Hw Hc0 Hst Hi.
  - split; [done|]. split; [done|]. split; [done|]. split; [|done]. destruct Hw as [_ _ Hr _ _ _ _ _].
    rewrite Hi, Nat2Z.id in Hr. rewrite take_ge in Hr; [done|].
    assert (length (drop i commands) = 0%nat) as Hl by by rewrite <-Hrest. rewrite length_drop in Hl. lia.
  - assert (Hc : commands !! i = Some c).
    { rewrite <-(Nat.add_0_r i), <-lookup_drop, <-Hrest. done. }
    assert (Hrest' : rest = drop (S i) commands).
    { rewrite (drop_S _ c) in Hrest by done. by injection Hrest. }
    intros [err|] w' Hcmd; simpl in Hcmd; subst w'; [by split; [|split; [|split]]|].
    split; [by apply inv_command|].
    intros r w' [[-> ->]|(err & -> & ->)];
      [|by split; [apply inv_command|split; [apply inv_command|split; [exact Hc0|]]]].
    pose proof (inv_completed _ _ _ Hw Hc Hi) as Hw'. split; [exact Hw'|].
    replace (Z.of_nat i + 1) with (Z.of_nat (S i)) in * by lia.
    apply (IH (S i) Hrest' (set_file (set_completed (Z.of_nat (S i)) (dw_file w)) (add_command c w)));
      [exact Hw'|exact Hc0|exact Hst|done].
Qed.

Lemma setup_wp b n w :
  inv w → covered b n w → stands (injectable (dw_stream w)) (Cfg_NextEventToken (dw_file w)) n →
  wp always (setup taskID (dw_file w)) (set_up n b) w.
Proof.
  intros Hw Hc Hst. unfold setup, clamp_completed. pose proof (woken_commands _ _ Hw) as ->.
  pose proof (woken_bounds _ _ Hw) as Hb. rewrite (proj2 (Z.ltb_ge _ _)) by lia.
  rewrite (woken_commands _ _ Hw).
  pose proof (commands_wp b n (Z.to_nat (Cfg_SetupCommandsCompleted (dw_file w))) w Hw Hc Hst) as H.
  rewrite Z2Nat.id in H by lia. by apply H.
Qed.

Lemma drain_wp b0 n file ran : ∀ fuel b m cursor token events w,
  inv w → dw_file w = file → dw_commands w = ran → covered b0 n w →
  stands (injectable (dw_stream w)) cursor m → begins n b m → fresh b m events w →
  wp always (drain_pages fuel cursor token events)
    (λ r w', inv w' ∧ dw_file w' = file ∧ dw_commands w' = ran ∧ covered b0 n w' ∧
       let m' := length (injectable (dw_stream w')) in
       match r with
       | None => (m + fuel ≤ m')%nat
       | Some (inl _) => True
       | Some (inr (events, token)) =>
           stands (injectable (dw_stream w')) token m' ∧ ∃ b, begins n b m' ∧ fresh b m' events w'
       end) w.
Proof.
  induction fuel as [|fuel IH]; intros b m cursor token events w Hw Hfile Hran Hc Ht Hb Hf.
  { destruct Hf as (? & ? & _). repeat (split; [done|]). simpl. lia. }
  intros r w' (new & -> & Hsorted & Hr). pose proof (inv_stream _ new Hw Hsorted) as Hw'. split; [done|].
  pose proof (covered_grows _ _ _ new Hc) as Hc'. pose proof (fresh_grows _ _ _ new _ Hf) as Hf'.
  destruct Hr as [[err ->]|(resp & -> & Hpage)]; [done|].
  apply (stands_grows _ (injectable new)) in Ht. rewrite <-injectable_app in Ht.
  destruct (served_standing _ _ _ _ _ Hsorted Ht Hpage) as (b' & k & Hev & Hk & Htok & Hfrom & Hmore & Hend).
  destruct (fresh_page n b m events b' k _ _ Hb Hf' Hev Hk Hfrom) as (b1 & Hb1 & Hf1). simpl.
  destruct (LER_More resp).
  - specialize (Hmore eq_refl).
    eapply prog_wp_mono; [exact (keeping_mono _ _)| |exact (IH b1 (b' + k)%nat _ _ _ _ Hw' Hfile Hran Hc' Htok Hb1 Hf1)].
    intros r w' (? & ? & ? & ? & Hr). repeat (split; [done|]). destruct r; [done|simpl in *; lia].
  - repeat (split; [done|]). simpl. specialize (Hend eq_refl). fold injectable in Hend, Htok.
    change (of_types _ (dw_stream w ++ new)) with (injectable (dw_stream w ++ new)) in *.
    rewrite <-Hend. split; [exact Htok|]. by exists b1.
Qed.

Lemma prompt_wp task b0 n b m events links token w :
  inv w → commands `sublist_of` dw_commands w → covered b0 n w → begins n b m → fresh b m events w →
  stands (injectable (dw_stream w)) token m →
  wp always (prompt_agent taskID task (set_token token (dw_file w)) events links)
    (λ r w', inv w' ∧ dw_stream w' = dw_stream w ∧ (r = None → ∃ b', (0 < n → b' = b0)%nat ∧ covered b' m w')) w.
Proof.
  intros Hw Hs Hc Hb Hf Ht. pose proof (inv_rendered _ _ Hw (fresh_segment _ _ _ _ Hf)) as Hr.
  intros [err|] w' ->; (split; [done|]); [done|].
  intros [err|prompt] w' ->; (split; [done|]); [done|].
  intros [err|] w' ->; [by split|]. split; [by apply inv_prompt|].
  pose proof (inv_started _ _ _ _ _ _ _ Hw Hs Hc Hb Hf Ht) as Hw'.
  intros r w' [[-> ->]|(err & -> & ->)]; (split; [done || by apply inv_prompt|]).
  - split; [done|]. split; [done|]. intros _. by eapply covered_prompt.
  - split; [by apply inv_prompt|]. by split.
Qed.

(** How far a run of the agent got, from where the stored token stood. *)
Definition reached (b0 n fuel : nat) (r : option (option string)) w : Prop :=
  inv w ∧
  match r with
  | None => (fuel ≤ length (injectable (dw_stream w)))%nat
  | Some None => ∃ b, (0 < n → b = b0)%nat ∧ covered b (length (injectable (dw_stream w))) w
  | Some (Some _) => True
  end.

Lemma runAgent_wp b0 n fuel task w :
  inv w → stands (injectable (dw_stream w)) (Cfg_NextEventToken (dw_file w)) n → covered b0 n w →
  wp always (runAgent taskID fuel task) (reached b0 n fuel) w.
Proof.
  intros Hw Hn Hc. intros r w' [-> Hr]. split; [done|]. destruct Hr as [->|[err ->]]; [|by split].
  simpl. always_bind. eapply prog_wp_mono; [exact (keeping_mono _ _)| |by eapply setup_wp].
  intros [err|cfg] w1 (Hw1 & Hc1 & H1); [by split|]. destruct H1 as (-> & Hs & Hn1).
  always_bind.
  eapply prog_wp_mono; [exact (keeping_mono _ _)| |eapply (drain_wp b0 n (dw_file w1) (dw_commands w1) fuel n n);
    [done..|exact Hc1|exact Hn1|by left|]].
  2: { split; [done|]. split; [apply Hc1|]. by rewrite Nat.sub_diag. }
  intros [[err|[events token]]|] w2 (Hw2 & Hfile & Hran & Hc2 & H2); [by split| |by split; [|simpl in *; lia]].
  destruct H2 as (Ht & b & Hb & Hf). rewrite <-Hfile, <-Hran in *.
  assert (Hp : ∀ links, wp always (err ⟵ prompt_agent taskID task (set_token token (dw_file w2)) events links ;;
                                   Ret (Some err)) (reached b0 n fuel) w2).
  { intros links. always_bind. eapply prog_wp_mono; [exact (keeping_mono _ _)| |by eapply prompt_wp].
    intros [err|] w3 (Hw3 & Hst & Hcov); split; [done..|]. rewrite Hst. by apply Hcov. }
  cbv zeta. destruct (negb _); [|apply Hp].
  intros [err|links] w3 ->; (split; [done|]); [by split|apply Hp].
Qed.

Lemma submit_wp ev w : inv w → wp always (submit ev) (λ _ w', inv w' ∧ dw_stream w' = dw_stream w) w.
Proof. intros Hw r w' ->. by split; [apply inv_report|split; [apply inv_report|]]. Qed.

Lemma finish_wp v err w :
  inv w → wp always (finish_run taskID v err) (λ _ w', inv w' ∧ dw_stream w' = dw_stream w) w.
Proof.
  intros Hw. unfold finish_run. always_bind.
  assert (Hsub : ∀ err, wp always (serr ⟵ submit (terminal_event taskID v err) ;; trigger DFlushLog ;;;
            Ret (match serr with None => None | Some serr => Some (join_errors err serr) end))
            (λ _ w', inv w' ∧ dw_stream w' = dw_stream w) w).
  { intros err'. always_bind. eapply prog_wp_mono; [exact (keeping_mono _ _)| |by apply submit_wp].
    intros serr w1 [Hw1 Hst] [] w2 ->. by split. }
  destruct err as [e|]; [|apply Hsub]. intros stopped w1 ->. split; [done|apply Hsub].
Qed.

Lemma Run_wp fuel w :
  inv w →
  wp always (Driver_Run taskID fuel)
    (λ r w', r = None → (fuel ≤ length (injectable (dw_stream w')))%nat) w.
Proof.
  intros Hw. intros [err|task] w' ->; (split; [done|]); [done|].
  cbn -[submit driver_run finish_run]. always_bind.
  eapply prog_wp_mono; [exact (keeping_mono _ _)| |by apply submit_wp].
  intros [err|] w1 [Hw1 _]; [done|]. always_bind.
  set (Φ := λ (r : option (option string)) w',
    inv w' ∧ (r = None → (fuel ≤ length (injectable (dw_stream w')))%nat)).
  eapply (prog_wp_mono _ (keeping_mono _ _) _ Φ).
  - intros [res|] w2 [Hw2 Hr]; [|exact Hr]. always_bind.
    by eapply prog_wp_mono; [exact (keeping_mono _ _)| |by apply finish_wp].
  - unfold driver_run. destruct (negb _); [by intros err w2 ->|]. destruct (woken_token _ _ Hw1) as (b & n & Hn & Hc).
    eapply prog_wp_mono; [exact (keeping_mono _ _)| |by eapply runAgent_wp].
    intros r w2 [Hw2 Hr]. split; [done|]. by intros ->.
Qed.
End woken.

(** A sandbox's life: runs of the driver one after another, each followed to
    its end or cut off wherever the sandbox was killed. *)
Definition life : DWorld → DWorld → Prop :=
  rtc (λ w w', ∃ fuel, passes driver_step (Driver_Run taskID fuel) w w').

(** A sandbox whose config file the runner just wrote. *)
Definition created (ws : Workspace) (w : DWorld) : Prop :=
  dw_file w = AgentConfig ws ∧ dw_prompts w = [] ∧ dw_rendered w = [] ∧ StronglySorted event_lt (dw_stream w).

Lemma created_woken ws w : created ws w → woken (WS_Commands ws) w.
Proof.
  intros (Hf & Hp & Hr & Hs). constructor; rewrite ?Hf, ?Hp, ?Hr; simpl.
  - done.
  - lia.
  - apply sublist_nil_l.
  - by left.
  - by exists [], (injectable (dw_stream w)).
  - constructor.
  - done.
  - exists 0%nat, 0%nat. split; [apply stands_start|]. split_and!; [lia|lia|by left|].
    exists []. split; [apply sublist_nil_l|done].
Qed.

Lemma life_woken commands w w' : life w w' → woken commands w → woken commands w'.
Proof.
  induction 1 as [|w w1 w' (fuel & Hp) _ IH]; [done|]. intros Hw. apply IH.
  eapply keeping_passes; [exact Hw|by eapply Run_wp|exact Hp].
Qed.

Lemma woken_run {A} commands (p : DProg A) (Φ : A → DWorld → Prop) w l a w' :
  wp (keeping driver_step (woken commands)) p Φ w → exec driver_step p w l a w' → Φ a w'.
Proof. apply wp_exec. intros R op Ψ g r g' Hk Hs. by apply Hk. Qed.

(** C19: No event is missed, but for those that had fifty newer ones when the agent
    was first told any.  Let the driver run any number of times from a freshly
    written config, every run cut off anywhere, with the server's event stream growing
    in the order of its ids, its pages those of the server's listing, and any call
    failing.  The saved token then stands in the stream of the instructions and
    external events so that all of them from some place on up to it were in prompts
    the agent accepted, in order and without gaps, and that place is the stream's
    beginning unless there are at least fifty of them.  Every prompt held a
    contiguous stretch of the stream, and no prompt was given before all setup
    commands had succeeded, in order.  A further run that ends well has given the agent
    the stream up to its end, from the same place once a token is saved; and its page
    walk is never longer than the stream. *)
Theorem wake_at_least_once ws w w' (Hnew : created ws w) (Hlife : life w w') :
  (∃ b n, stands (injectable (dw_stream w')) (Cfg_NextEventToken (dw_file w')) n ∧ covered b n w' ∧
     ∀ fuel task l w'', exec driver_step (runAgent taskID fuel task) w' l (Some None) w'' →
       ∃ b', (0 < n → b' = b)%nat ∧ covered b' (length (injectable (dw_stream w''))) w'') ∧
  Forall (λ p, segment p (injectable (dw_stream w'))) (dw_prompts w') ∧
  (dw_prompts w' = [] ∨ WS_Commands ws `sublist_of` dw_commands w') ∧
  (∀ fuel l w'', exec driver_step (Driver_Run taskID fuel) w' l None w'' →
     (fuel ≤ length (injectable (dw_stream w'')))%nat).
Proof.
  pose proof (life_woken _ _ _ Hlife (created_woken _ _ Hnew)) as Hw. destruct (Hw).
  split; [|split; [done|split; [done|]]].
  - destruct woken_token0 as (b & n & Hn & Hc). exists b, n. split; [done|]. split; [done|].
    intros fuel task l w'' Hr. by apply (woken_run _ _ _ _ _ _ _ (runAgent_wp _ b n fuel task _ Hw Hn Hc)) in Hr as [_ ?].
  - intros fuel l w'' Hr. by apply (woken_run _ _ _ _ _ _ _ (Run_wp _ fuel _ Hw)) in Hr.
Qed.
End world.

(** ** A concrete world *)

#[local] Existing Instance sample_json.
#[local] Existing Instance sample_json_laws.

Definition example_task : Task :=
  mkTask 7 "t" "r" "w" TaskStatusRunning TaskCommandNone 3 1 false 0 0 "" 0 "".
Definition example_agent : Agent := mkAgent "dummy" "" "hello" false ∅ None None None None None None.
Definition example_event : Event := mkEvent 11 7 1 true (Instruction (mkInstruction "go" "")) 5.
Definition example_workspace : Workspace := mkWorkspace "" example_agent ["make"] [] ∅.
Definition example_start : DWorld := mkDWorld [] (AgentConfig example_workspace) [] [] [] [].
Definition example_token : string := Encode (mkToken (Some (mkIDCursor 11)) true).
Definition example_page : ListEventsByTaskResponse := mkListEventsResponse [example_event] "" example_token false.
Definition example_end : DWorld :=
  mkDWorld [example_event]
    (set_started (set_token example_token (set_completed 1 (AgentConfig example_workspace))))
    [(driver_event 7 3 RunnerEventStarted "", None)] ["make"] [example_event] [[example_event]].

Ltac answer r := right; exists r; eexists; split; [|].

(** A run killed after its last save, before its terminal report. *)
Lemma example_life : life 7 example_start example_end.
Proof.
  apply rtc_once. exists 5%nat.
  answer (@inr string Task example_task); [done|].
  answer (@None string); [done|].
  answer (@inr string Config (AgentConfig example_workspace)); [by split; [|left]|].
  answer (@None string); [done|].
  answer (@None string); [by left|].
  answer (@inr string EventPage (as_page example_page)).
  { exists [example_event]. split; [done|]. split; [repeat constructor|]. right. exists example_page.
    split; [done|vm_compute; reflexivity]. }
  answer (@inr string (list Link) []); [done|].
  answer (@None string); [done|].
  answer (@inr string string "go"); [done|].
  answer (@None string); [done|].
  answer (@None string); [by left|].
  by left.
Qed.

Lemma wake_at_least_once_witness :
  (∃ b n, stands [example_event] example_token n ∧ covered b n example_end) ∧
  ["make"] `sublist_of` dw_commands example_end.
Proof.
  destruct (wake_at_least_once 7 example_workspace example_start example_end
              ltac:(split; [done|split; [done|split; [done|constructor]]]) example_life) as (Ht & _ & Hc & _).
  split; [destruct Ht as (b & n & Ht & Hcov & _); exists b, n; split; [exact Ht|exact Hcov]|].
  destruct Hc as [Hc|Hc]; [discriminate Hc|exact Hc].
Defined.

(** A first run whose task has fifty-one instructions: the server's page for an empty
    token is the newest fifty, and following it leads to no others. *)
Definition many_events : list Event :=
  map (λ i, mkEvent (Z.of_nat i) 7 1 true (Instruction (mkInstruction "go" "")) 5) (seq 1 51).

(** A world that answers from the stream and refuses nothing. *)
Definition obliging (R : Set) (op : DOp R) (w : DWorld) : R * DWorld :=
  match op in DOp R return R * DWorld with
  | DGetTask _ => (inr example_task, w)
  | DSubmit ev => (None, add_report (ev, None) w)
  | DListEvents token types pageSize =>
      (match served_page (dw_stream w) token types pageSize with
       | Some resp => inr (as_page resp) | None => inl "invalid page request" end, w)
  | DListLinks _ => (inr [], w)
  | DLoad _ => (inr (dw_file w), w)
  | DSave _ cfg => (None, set_file cfg w)
  | DCommand c => (None, add_command c w)
  | DServe _ => (None, w)
  | DNewAgent _ => (None, w)
  | DRender opts => (inr "go", set_rendered (PO_Events opts) w)
  | DPrompt _ _ => (None, add_prompt w)
  | DStopped => (false, w)
  | DFlushLog => (tt, w)
  end.

Lemma first_run_skips :
  let run := run obliging (Driver_Run 7 5) (set_stream many_events example_start) in
  fst run = Some None ∧ dw_prompts (snd run) = [tail many_events] ∧
  Cfg_NextEventToken (dw_file (snd run)) = Encode (mkToken (Some (mkIDCursor 51)) true).
Proof. vm_compute. repeat split. Qed.

(** A run the server refuses to start. *)
Lemma driver_reports_witness :
  ∃ new, dw_reports (add_report (driver_event 7 3 RunnerEventStarted "", Some "stale") example_start) =
    dw_reports example_start ++ new ∧ length new = 1%nat.
Proof.
  pose (p := λ R : Set, (DOp R * R)%type).
  destruct (driver_reports 7 5 example_start
    [existT (P := p) _ (DGetTask 7, inr example_task);
     existT (P := p) _ (DSubmit (driver_event 7 3 RunnerEventStarted ""), Some "stale")]
    (Some (Some "failed to submit started event: stale"))
    (add_report (driver_event 7 3 RunnerEventStarted "", Some "stale") example_start))
    as (got & trace & Hl & H).
  { exists (inr example_task), example_start. eexists. split; [done|]. split; [|done].
    exists (Some "stale"). eexists _, []. split; [done|]. by split; [repeat split|]. }
  destruct got as [err|task]; [by destruct H as [H _]|].
  destruct H as (new & res & w1 & l1 & w2 & H & _ & _). exists new. split; [exact H|].
  change ([(driver_event 7 3 RunnerEventStarted "", Some "stale")] = new) in H. by rewrite <-H.
Defined.
